(* ===== verification/_CoqProject ===== *)
-Q . S2P
Prelude.v
GoStrings.v
TaskLines.v
TaskContract.v
TaskDependencies.v
PlanSchedule.v
Retirement.v
TaskSections.v
TaskGraph.v
ProjectPlan.v
TerminalMetadata.v
ControllerTypes.v
ControllerStore.v
MutationControl.v
CrashLogic.v
Transition.v
ExecutionOperation.v
ControllerHead.v
ModelCallRecovery.v
CommittedProject.v
Episode.v
Findings.v
EpisodeControl.v
EpisodeSchedule.v
FindingResolution.v
Json.v
ManagedSettings.v
SettingsTransaction.v
SettingsMerge.v
GoText.v
GoTime.v
Packet.v
SessionTypes.v
SessionStore.v
ResumeCheckpoint.v
ParentReview.v
Lifecycle.v
ExecutionMilestones.v
SessionLogic.v
ReviewLogic.v
SessionExamples.v
PacketRules.v
ResumeLogic.v
ActionRecovery.v
ReviewEvidence.v
ReviewCoverage.v
MilestoneLogic.v
MilestonePrompt.v
TimeFormat.v
SessionRotation.v
LifecycleRollback.v
RotationLogic.v
RotationAdmission.v
Rounds.v
Convergence.v
Reopen.v
ReopenRecovery.v
