(* ===== verification/Prelude.v ===== *)
(** * A verification library for the codex-worker-orchestrator harness

    [glm-worker] (Go, under [src/glm-worker]) lets a parent agent run worker
    agents on a repository.  What may be worked on is written in the repository
    itself: a plan file and one file per task.  A controller keeps, next to the
    repository, which task is being executed, by which attempt, under which
    lease, and what the attempt changed; it refuses every change that is not
    covered by its records, and moves its authority by journalled transitions
    that it can take up again after a crash.  Findings made on the way can interrupt a task by a
    blocker episode: a set of other tasks to be done first.  The session of one
    task is a directory of small files: its status, the checkpoint it can be
    resumed from, the review the parent owes it, and logs.  This library models
    that core: the contract of the task files, the project they form, the
    controller that admits mutations and model calls, recovers interrupted
    transitions and schedules blocker episodes, and the session with its
    transitions.

    ** Parts of the program and where they are modelled

    The task contract ([internal/taskcontract]) reads and edits Markdown files.
    - [GoStrings]: the functions of Go's [strings] and [strconv] the parsers use,
      on strings of bytes.
    - [TaskLines]: lines, fences and headings ([task.go], [dependencies.go]).
    - [TaskContract]: task paths and the external feasibility section ([task.go]).
    - [TaskDependencies]: outstanding and fulfilled dependencies, review findings
      ([dependencies.go]).
    - [TaskSections]: plan goal, execution authority, Darwin and machine
      acceptance ([goal.go], [execution_authority.go], [darwin_acceptance.go],
      [machine_acceptance.go]).
    - [PlanSchedule]: the ACTIVE/NEXT/BLOCKED schedule of the plan and its closure
      over the task corpus ([schedule.go], [corpus.go]).
    - [Retirement]: editing a finished task out of a task file and out of the plan
      ([retirement.go]).

    The project ([internal/repositoryproject], [internal/repositoryprojectcommit]).
    - [TaskGraph]: the dependency graph, built by a recursive walk ([graph.go]).
    - [ProjectPlan]: preparation of project state and completion, continuation of
      the parent, attribution of a task ([plan.go], [continuation.go],
      [observation.go], [task_attribution.go], [selected_task_continuation.go]).
    - [TerminalMetadata]: the edits that retire a terminal task ([retirement.go]).
    - [CommittedProject]: loading the project from a commit ([project.go]), task
      references and digests ([internal/controller/committed_task.go]).

    The controller ([internal/controller]).
    - [ControllerTypes]: its records, field by field.
    - [ControllerStore]: the store of JSON documents, compare-and-swap on the head,
      request authority ([store.go], [mutation_lock.go], [request_authority.go]),
      generated identifiers ([internal/state/store_util.go]).
    - [MutationControl]: admission, recording of mutations, staged quality
      mutations, failing closed ([admission.go], [mutation_authority.go],
      [mutation_record.go], [mutation_commit.go], [mutation_intent.go],
      [execution.go], [transition_state.go], [pristine.go]), and the step relation
      [control_step] of these operations.
    - [CrashLogic]: triples over store operations that a crash or a refused access
      can interrupt anywhere (no code; the logic of the next three files).
    - [Transition]: two-phase transitions of the head ([transition_state.go],
      [authority_transition.go], [authority_resolution.go], [continuation_lease.go]).
    - [ExecutionOperation]: the journal of execution operations, their contracts,
      their recovery, and the kind of model-call admissions
      ([execution_operation.go], [execution_operation_contract.go],
      [execution_operation_validation.go], [model_call.go],
      [model_call_recovery.go]); [ModelCallRecovery] holds its laws.
    - [ControllerHead]: the step relation [operation_step] of every operation that
      changes the head, those that are not modelled as changes through
      [writeHeadCAS] ([fail_closed.go] and the two groups above), and what holds
      of the head after any sequence of them.
    - [Findings]: observing a finding ([finding.go]).
    - [Episode]: dependency edges of a blocker episode, its cycle check and its
      closure ([episode.go], the pure half).
    - [EpisodeControl]: planning, storing, scheduling and progressing an episode
      ([episode.go], [episode_progression.go], [episode_scheduler_authority.go],
      [episode_scheduler_api.go]); [EpisodeSchedule] holds the laws.
    - [FindingResolution]: resolving a finding by each kind of decision
      ([finding.go], [episode_scheduler_api.go]).

    The settings merge ([internal/settingsmerge], [internal/claudeoverride])
    installs a fragment of settings into the settings file of another program and
    takes it out again at the next upgrade.
    - [Json]: the values of [encoding/json].
    - [ManagedSettings]: which values are managed, what was there before, and how
      an upgrade moves from one fragment to the next ([managed.go]).
    - [SettingsTransaction]: the journal that makes the three files it writes
      change together ([transaction.go], [writeAtomic] of [merge.go]).
    - [SettingsMerge]: the environment override and the merge itself ([merge.go],
      [override.go]), with the maps that its structures share.

    The results of the workers ([internal/packet], [internal/reviewtarget]).
    - [GoText], [GoTime]: the functions of [path], [strconv], [go/token] and [time]
      they and the session use.
    - [Packet]: the fields of a result for each status, the targets of a review,
      and the validation of a result ([contract.go], [result.go], [validate.go],
      [target.go]); [PacketRules] holds the rules it enforces.

    The session of a task ([internal/state]).
    - [SessionTypes]: its records, field by field.
    - [SessionStore]: its files, its statistics and its logs ([store.go],
      [store_util.go], [stats.go], [stats_recording.go], [events.go],
      [lifecycle.go]).
    - [ResumeCheckpoint]: the kinds of stop, the validation of a checkpoint, saving
      and loading it ([resume.go]).
    - [ParentReview]: the open review, its evidence and the coverage of its
      targets, the lease of the evidence ledger, the outcome ([parent_review.go],
      [parent_review_state.go], [parent_review_evidence.go],
      [parent_review_coverage.go], [parentevidence.go], [telemetry.go]).
    - [Lifecycle]: the transitions of the task with their rollback, the journal of
      the parent's actions, acceptance and completion ([lifecycle_transition.go],
      [parent_action_begin.go], [parent_accept.go], [parent_complete.go],
      [parent_completion_transition.go], [parent_completion_projection.go]).
    - [SessionLogic], [ReviewLogic]: what these operations do to the files, as
      triples; [SessionExamples]: a codec for the witnesses (no code).
    - [LifecycleRollback], [ResumeLogic], [ActionRecovery], [ReviewEvidence],
      [ReviewCoverage]: the laws of the session.

    Milestones ([internal/executionunit], [internal/executionmilestone],
    [internal/workflow]).
    - [ExecutionMilestones]: the payload of a decision, the plan file and its
      operations, the disposition and the binding of the task, the block of the
      current milestone in a prompt, the projection of progress ([preflight.go],
      [state.go], [controller_runtime_binding.go], [session_invalidation.go],
      [execution_milestone_state.go], [execution_milestone_contract.go],
      [execution_milestone_flow.go], [execution_unit_decision.go],
      [execution_progress.go]).
    - [MilestoneLogic], [MilestonePrompt]: the laws of the plan and of the block.

    Session rotation ([internal/state]): handing over to a new thread.
    - [TimeFormat]: how a time is written.
    - [SessionRotation]: the marker of each thread and everything done with it
      ([session_rotation.go], [session_rotation_boundary.go],
      [session_rotation_failure.go], [session_rotation_accepted_tasks.go],
      [parent_codex_identity.go]).
    - [RotationLogic], [RotationAdmission]: the markers as a machine, and who may
      start a task.

    Reopening ([internal/state]): the state of a publication.
    - [Reopen]: candidate, finding, lineage and evidence of installation, and the
      reopening of an accepted completion with its journal ([parent_reopen.go],
      [parent_reopen_transaction.go], [publication_candidate.go],
      [publication_invalidation.go], [publication_reopen_lineage.go],
      [runtime_install.go], [quality_surface_recovery.go]).
    - [ReopenRecovery]: recovery of a reopening that was interrupted.

    Review rounds ([internal/state], [internal/report]).
    - [Rounds]: what a round of work changed, and the log of rounds
      ([convergence.go] of the state).
    - [Convergence]: the calls of each round and their summary ([convergence.go]
      of the report, [reviewer_phase.go]).

    ** How the model reads the code

    Strings are lists of bytes; a Go error is its format literal with its
    arguments ([error] below); [(A, error)] is [result error A].  Go maps are
    [gmap]s; where a loop over a map can show its order, the order is a parameter
    [range] and the theorems hold for each.  [uint64] counters are in [N], with
    [u64] written where the code increments them.  Recursion that is not
    structural carries fuel, and [Err None] is exhausted fuel, told apart from
    every error of the code.

    The store is a value of type [Disk]: documents by path below the store's
    directory, the directories, the paths at which the operating system refuses to
    read or write, the clock, the random source, and the number of changes the
    machine lives to make ([power]), so that a crash can fall between any two
    changes.  An operation is a state function ([io]) that keeps what it wrote
    before it failed.  A write that replaces a file is one change; appending to a
    log is one for each step and for each byte (open, change the mode, write), so a
    log can end in a part of a line.  Operations that the
    code runs under the mutation lock are modelled as running alone ([under_lock]).
    A document holds a record, not its JSON text: that [encoding/json] reads back
    what it wrote is the class [Document].  The settings files hold bytes and a mode
    ([FileContent]); what their bytes mean is the classes [JournalCodec] and
    [SettingsCodec], whose laws are that a text that was written is read back.
    [ObjectStore] is the interface between the reconciliation of managed values and
    the map it changes in place: a plain map, or one that others share.

    The files of a session hold text.  How its records are written is [JSONText]:
    a [clean] record - its strings are UTF-8, its times have years of four digits -
    reads back as its [persisted] part; [ResumeText] adds the keys the code looks
    for in the text of a checkpoint, [JSONLog] the records that are written only.
    A directory in the place of a file is a path that refuses to be read or
    written.  The statistics and the logs are observations: no operation that
    changes the session depends on them, except for the review they mirror.
    [closes_clean] says that closing a review that was read leaves it writable.

    Code outside the repository is a parameter: [Host] has the SHA-256 digest and
    the marker check of [RequireRequestRepository], [Git] has the output of git.
    Two checks of other files that only read the store are parameters too:
    [ensureTerminalMetadataFinalized] and [terminalAttemptProven]
    ([terminal_evidence.go]), and [findingSourceContinuedToCurrentAuthority]
    ([finding_source_continuity.go]).  [Worktree] answers what git says of a
    working tree ([identity.go]), each run of a recovery with its own answers;
    [OtherOperations] holds the contracts of the kinds of operation that are not
    modelled, and [json.Marshal] of an operation.  [GitState] captures the working
    tree of the session ([snapshot.go]), [Unicode] has the tables of letters and
    spaces, [MachineEncoder] the JSON size of a result.  [MilestoneDecoder] reads
    the JSON of a decision, [PromptJSON] writes the one of a prompt, [TaskFiles]
    reads the file of a task.  [FileTree] reads the files of the working tree
    for a round.  Theorems assume of them that they only
    read, of the digest that it is not empty, and of [range] that it lists the
    keys of its map.

    ** What the theorems show

    - Mutation control: an admission is good for one recorded mutation in every
      later state, and a change nobody recorded closes the controller for good,
      whatever operations of the controller follow; recording hands the authority
      to the next generation; in the last generation of a
      [uint64] nothing moves the head any more.
    - Transitions: a commit needs every effect observed; binding a model call
      succeeds in a healthy environment; interrupted anywhere, any number of times,
      it leaves the source admitted or a journal from which one healthy recovery
      finishes, and no other lease is ever admitted on the way.
    - Findings: every stored finding answers to the canonical finding of its
      problem, observing is idempotent, and the first disposition of a finding is
      final.
    - Blocker episodes: the cycle check accepts exactly the acyclic graphs; the
      closure is exactly what the scope root waits for, in topological order; a
      planned revision always has a next task; the scheduler against the committed
      project is sound and complete; a satisfied task keeps the episode
      schedulable and strictly shrinks it.
    - Project: the graph is built exactly for resolvable schedules, terminates, has
      exactly the declared edges; something is runnable or a blocker is named; the
      dependency authority of a commit is closed and acyclic; retirement leaves a
      corpus that no longer waits for the retired task; continuation and
      completion are admitted only under their conditions.
    - Task contract: parsers accept exactly the admitted declarations, rendering
      and parsing round-trip, retirement moves exactly one dependency and one plan
      entry, and in a file that ends inside a fence the written record is lost.
    - Settings merge: interrupted anywhere and any number of times, a merge leaves
      every file as it was or as the merge wants it, or a journal from which the
      next run restores it; it never overwrites a file somebody edited meanwhile; a
      healthy merge succeeds and writes what the reconciliation says; a second
      merge of the same inputs changes nothing; installing one fragment after
      another gives the settings of installing the last one alone; edits of managed
      values survive; and one case in which a shared map makes every later merge
      fail.
    - Session: a transition that fails, a completion with a session rotation
      included, leaves every file of the state as it was, or its error says that
      changes have come to be refused and files could not be put back; a decision or a fix of the parent
      that was cut short, together with any number of recoveries that were cut
      short too, is taken back by the next healthy one; a review that asks for the
      parent's reading is accepted only on complete and current evidence; a task
      that stops can be resumed from what was saved, and clearing a stop leaves
      nothing of it behind.
    - Coverage: evidence for the targets of a review adds up under one lease, and
      what a call answers is the check before acceptance.
    - Milestones: the plan file refines a machine of milestones done and to do, in
      which a completed milestone and its evidence are never lost; the block in the
      prompt is replaced and the text around it kept; and one case in which a part
      of an old block stays.
    - Rotation: whatever fails, a thread only makes the steps of its machine - a
      directive is claimed once, a claim is bound to one thread, only that thread
      acknowledges it; an ordinary start is admitted exactly when no rotation is
      being carried out; and a thread that could not be created once is never free of
      its directive again.
    - Reopening: cut short anywhere, with any number of recoveries that were cut
      short too, it is taken back by the next healthy recovery or is complete.
    - Rounds: two rounds are compared as the classes of the paths that differ say;
      the summary counts every call and every round once; the log reads back as the
      rounds whose lines are whole, whatever failed while they were appended; and two
      cases in which a round is misjudged.
    - Results: the validation accepts exactly the results that keep the contract of
      their status and role and reports every other one, within its bounds; the
      number of violations that a check left out is lost.
    - Identifiers: a generated identifier is a version 4 UUID.

    Each theorem with hypotheses is followed, in its file, by a witness on concrete
    data.

    ** Bounds and fuel

    [BuildTaskGraph] runs with one more than the number of task contents,
    [validateEpisodeAcyclic] with one more than the number of paths of the graph,
    [buildEpisodeClosure] with two more than the number of references: each level
    of the recursion marks a path that was not marked before
    ([BuildTaskGraph_total], [validateEpisodeAcyclic_spec],
    [buildEpisodeClosure_spec] show that the fuel is never exhausted).

    ** Not modelled

    JSON text, file system walks and git plumbing (capture of snapshots and
    identities, [EnumerateTaskCorpus], opening and initialising the store) belong
    to the operating system and to git.  The rest of the program is left out
    because it is large and each part needs a model of its own outside world:
    bootstrapping an execution; the kinds of execution operation other than model
    calls (suspension, materialisation, publication, user transitions) and commits
    that publish evidence; the evidence ledger, its export and terminal evidence,
    publication to remotes; of the session, opening a review (which captures the
    working tree), archiving, and the other reports computed from the logs;
    the runner and the stages of the workflow around it, which drive subprocesses;
    the commands of the
    parent; the lock of a settings merge and its temporary files; linters and
    quality gate, which work on the syntax trees of [go/ast]; installers, adapters
    to external agents and the [main] functions. *)
From Stdlib Require Ascii.
From stdpp Require Export base tactics list strings gmap sorting.
Export Stdlib.Strings.Ascii (ascii(..)).
Export (notations) Stdlib.Strings.Ascii.
From stdpp Require Import options.

(** ** Errors

    Go's [error] values are modelled by the format literal of the
    [fmt.Errorf]/[fmt.Sprintf] call that builds them together with its
    arguments; [%w] arguments are the wrapped error itself.  Two errors are
    equal exactly when they come from the same format with the same
    arguments, so nothing depends on how [%q] or [%v] render. *)
Inductive error : Type :=
  | Errorf (format : string) (args : list arg)
with arg : Type :=
  | AStr (s : string)
  | AInt (n : nat)
  | AErr (e : error)
  | AErrs (es : list error).

(** ** Fallible results

    A Go function returning [(A, error)] becomes a function into
    [result error A]; the zero value that accompanies a non-nil error is not
    represented because no caller in the modelled code reads it. *)
Inductive result (E A : Type) : Type :=
  | Ok (a : A)
  | Err (e : E).
Arguments Ok {E A} a.
Arguments Err {E A} e.

#[export] Instance result_ret {E} : MRet (result E) := @Ok E.
#[export] Instance result_bind {E} : MBind (result E) := λ A B f r,
  match r with Ok a => f a | Err e => Err e end.
#[export] Instance result_fmap {E} : FMap (result E) := λ A B f r,
  match r with Ok a => Ok (f a) | Err e => Err e end.

#[export] Instance Ok_inj {E A} : Inj (=) (=) (@Ok E A).
Proof. by intros ?? [= ->]. Qed.

Definition is_ok {E A} (r : result E A) : bool :=
  match r with Ok _ => true | Err _ => false end.

(** [fmt.Errorf("...: %w", ..., err)] applied to the error of a result. *)
Definition wrap_err {E F A} (f : E → F) (r : result E A) : result F A :=
  match r with Ok a => Ok a | Err e => Err (f e) end.

Declare Scope go_scope.
Delimit Scope go_scope with go.
(** Go's early return: [if c { return ..., err }] followed by the rest. *)
Notation "'reject!' c 'with' e ; k" := (if (c : bool) then Err e else k)
  (at level 20, c at level 200, e at level 200, k at level 200, right associativity,
   format "'[v' 'reject!'  c  'with'  e ; '/' k ']'") : go_scope.
Open Scope go_scope.

Section Result.
Context {E F A B : Type}.

Lemma result_bind_Ok (f : A → result E B) (r : result E A) b :
  r ≫= f = Ok b ↔ ∃ a, r = Ok a ∧ f a = Ok b.
Proof. destruct r; split; naive_solver. Qed.

Lemma result_bind_Err (f : A → result E B) (r : result E A) e :
  r ≫= f = Err e ↔ r = Err e ∨ ∃ a, r = Ok a ∧ f a = Err e.
Proof. destruct r; split; naive_solver. Qed.

Lemma wrap_err_Ok (f : E → F) (r : result E A) a :
  wrap_err f r = Ok a ↔ r = Ok a.
Proof. destruct r; split; naive_solver. Qed.

Lemma is_ok_true (r : result E A) : is_ok r = true ↔ ∃ a, r = Ok a.
Proof. destruct r; split; naive_solver. Qed.
End Result.

(** ** Tactics

    [result_inv H] turns [H : (x ← r; k) = Ok a] and the guards in front of it
    into the facts every successful run must have passed. *)
Ltac result_inv1 H :=
  lazymatch type of H with
  | (_ ≫= _) = Ok _ =>
      let a := fresh "a" in let Ha := fresh "Ha" in let H' := fresh "H" in
      apply result_bind_Ok in H as (a & Ha & H'); result_inv1 H'; result_inv1 Ha
  | wrap_err _ _ = Ok _ => apply wrap_err_Ok in H; result_inv1 H
  | (if ?c then Err _ else _) = Ok _ =>
      let Hc := fresh "Hc" in destruct c eqn:Hc; [discriminate H|]; result_inv1 H
  | Ok _ = Ok _ => first [injection H as H; simplify_eq | clear H]
  | Err _ = Ok _ => discriminate H
  | _ => idtac
  end.
Ltac result_inv H := cbn beta iota in H; result_inv1 H; simplify_eq/=.

(** Split on the innermost scrutinee of the goal. *)
Ltac go_match :=
  match goal with
  | |- context [match ?x with _ => _ end] =>
      lazymatch x with context [match _ with _ => _ end] => fail | _ => idtac end;
      destruct x eqn:?; simplify_eq/=
  end.

(** Facts about booleans coming from [bool_decide] tests. *)
Ltac bool_simp :=
  repeat match goal with
  | H : bool_decide _ = true |- _ => apply bool_decide_eq_true in H
  | H : bool_decide _ = false |- _ => apply bool_decide_eq_false in H
  | H : (_ && _)%bool = true |- _ => apply andb_true_iff in H as [??]
  | H : (_ || _)%bool = false |- _ => apply orb_false_iff in H as [??]
  | H : negb _ = true |- _ => apply negb_true_iff in H
  | H : negb _ = false |- _ => apply negb_false_iff in H
  | H : ¬ (_ ≠ _) |- _ => apply dec_stable in H
  end.

Create HintDb go discriminated.
Create Rewrite HintDb go.

(** ** Generic list lemmas *)
Section Lists.
Context {A : Type}.

(** The prefix of a list before the first element satisfying [p]: the part a
    Go loop visits before [break]. *)
Fixpoint take_until (p : A → bool) (l : list A) : list A :=
  match l with
  | [] => []
  | x :: l => if p x then [] else x :: take_until p l
  end.

Lemma take_until_none (p : A → bool) l :
  Forall (λ x, p x = false) l → take_until p l = l.
Proof. induction 1 as [|x l Hx _ IH]; simpl; [done|]. by rewrite Hx, IH. Qed.

Lemma take_until_app (p : A → bool) l x k :
  Forall (λ x, p x = false) l → p x = true → take_until p (l ++ x :: k) = l.
Proof. induction 1 as [|y l Hy _ IH]; simpl; intros Hx; [by rewrite Hx|]. by rewrite Hy, IH. Qed.

Lemma filter_true (P : A → Prop) `{∀ x, Decision (P x)} l :
  Forall P l → filter P l = l.
Proof. induction 1; [done|]. rewrite filter_cons_True by done. by f_equal. Qed.

Lemma app_self_nil (l k : list A) : l = l ++ k → k = [].
Proof. intros E. apply (app_inv_head l). by rewrite app_nil_r. Qed.

Lemma Forall_filter_keep (P Q : A → Prop) `{∀ x, Decision (P x)} l :
  Forall Q l → Forall (λ x, P x ∧ Q x) (filter P l).
Proof. rewrite !Forall_forall. intros HQ x [? ?]%list_elem_of_filter. auto. Qed.

Lemma NoDup_fmap_filter {B} (f : A → B) (P : A → Prop) `{∀ x, Decision (P x)} l :
  NoDup (f <$> l) → NoDup (f <$> filter P l).
Proof.
  induction l as [|x l IH]; [done|]. rewrite fmap_cons, NoDup_cons, filter_cons.
  intros [Hx Hl]. case_decide; [|by auto]. rewrite fmap_cons, NoDup_cons. split; [|by auto].
  intros (y & Hxy & Hy)%list_elem_of_fmap. apply Hx. rewrite Hxy.
  apply list_elem_of_filter in Hy as [_ Hy]. by apply list_elem_of_fmap_2.
Qed.

Lemma existsb_false (p : A → bool) l : existsb p l = false ↔ Forall (λ x, p x = false) l.
Proof. induction l; simpl; rewrite ?orb_false_iff, ?Forall_cons; naive_solver. Qed.

Lemma find_none_forall (p : A → bool) l : find p l = None ↔ Forall (λ x, p x = false) l.
Proof.
  induction l as [|x l IH]; simpl; [done|]. rewrite Forall_cons. destruct (p x); naive_solver.
Qed.

(** The first element a filter keeps splits the list. *)
Lemma filter_cons_split (P : A → Prop) `{∀ x, Decision (P x)} l x r :
  filter P l = x :: r →
  ∃ a b, l = a ++ x :: b ∧ Forall (λ y, ¬ P y) a ∧ P x ∧ filter P b = r.
Proof.
  induction l as [|y l IH]; [done|]. rewrite filter_cons. case_decide as Hy.
  - intros [= -> <-]. exists [], l. by repeat split.
  - intros (a & b & -> & ? & ? & ?)%IH. exists (y :: a), b. repeat split; auto.
Qed.
End Lists.

(** A point from which no infinite chain starts is on no cycle. *)
Lemma Acc_acyclic {A} (R : relation A) p : Acc (λ q p, R p q) p → ¬ tc R p p.
Proof.
  induction 1 as [p _ IH]. intros Hpp.
  assert (∃ q, R p q ∧ rtc R q p) as (q & Hpq & Hqp).
  { inversion Hpp; subst; [by exists p|]. eauto using tc_rtc. }
  apply (IH q Hpq). apply rtc_tc in Hqp as [->|Hqp]; [by apply tc_once|]. by eapply tc_r.
Qed.
