(* ===== verification/GoStrings.v ===== *)
(** * Go's byte strings

    A Go [string] (and the [[]byte] contents the parsers read) is a finite
    sequence of bytes: a Rocq [string], whose characters are 8-bit.  This file
    gives the functions of Go's package [strings] that the modelled code calls,
    with the laws the components use. *)
From Stdlib Require Import ZifyBool ZifyN.
From S2P Require Import Prelude.

Lemma app_nil_l_str s : "" +:+ s = s.
Proof. done. Qed.
Lemma app_cons_str c s t : String c s +:+ t = String c (s +:+ t).
Proof. done. Qed.
Lemma app_nil_r_str s : s +:+ "" = s.
Proof. induction s as [|c s IH]; [done|]. by rewrite app_cons_str, IH. Qed.
Lemma app_assoc_str s t u : (s +:+ t) +:+ u = s +:+ t +:+ u.
Proof. induction s as [|c s IH]; [done|]. by rewrite !app_cons_str, IH. Qed.
Lemma length_app_str s t : String.length (s +:+ t) = String.length s + String.length t.
Proof. induction s as [|c s IH]; [done|]. rewrite app_cons_str; simpl. by rewrite IH. Qed.

#[export] Hint Rewrite app_nil_l_str app_cons_str app_nil_r_str app_assoc_str
  length_app_str : go.

Lemma rev_app_str s t : String.rev_app s t = String.rev s +:+ t.
Proof.
  revert t. unfold String.rev. induction s as [|c s IH]; intros t; [done|]; simpl.
  by rewrite IH, (IH (String c "")), app_assoc_str.
Qed.
Lemma rev_cons_str c s : String.rev (String c s) = String.rev s +:+ String c "".
Proof. unfold String.rev at 1. simpl. apply rev_app_str. Qed.
Lemma rev_append_str s t : String.rev (s +:+ t) = String.rev t +:+ String.rev s.
Proof.
  induction s as [|c s IH]; [by rewrite app_nil_r_str|].
  by rewrite app_cons_str, !rev_cons_str, IH, app_assoc_str.
Qed.
Lemma rev_involutive_str s : String.rev (String.rev s) = s.
Proof. induction s as [|c s IH]; [done|]. by rewrite rev_cons_str, rev_append_str, IH. Qed.
Lemma length_rev_str s : String.length (String.rev s) = String.length s.
Proof.
  induction s as [|c s IH]; [done|]. rewrite rev_cons_str, length_app_str, IH; simpl. lia.
Qed.
Lemma app_inj_tail_str s t u : s +:+ u = t +:+ u → s = t.
Proof.
  intros H. apply (f_equal String.rev) in H. rewrite !rev_append_str in H.
  apply (inj _) in H. by rewrite <-(rev_involutive_str s), H, rev_involutive_str.
Qed.

(** ** Prefixes and suffixes *)

(** [strings.CutPrefix]: the remainder after [p], when [s] starts with [p]. *)
Fixpoint CutPrefix (s p : string) {struct p} : option string :=
  match p with
  | "" => Some s
  | String c p' =>
      match s with
      | "" => None
      | String d s' => if decide (c = d) then CutPrefix s' p' else None
      end
  end.
Definition CutSuffix (s p : string) : option string :=
  String.rev <$> CutPrefix (String.rev s) (String.rev p).
Definition HasPrefix (s p : string) : bool := bool_decide (is_Some (CutPrefix s p)).
Definition HasSuffix (s p : string) : bool := bool_decide (is_Some (CutSuffix s p)).
Definition TrimPrefix (s p : string) : string := default s (CutPrefix s p).
Definition TrimSuffix (s p : string) : string := default s (CutSuffix s p).

Lemma CutPrefix_Some s p r : CutPrefix s p = Some r ↔ s = p +:+ r.
Proof.
  revert s. induction p as [|c p IH]; intros s; simpl; [split; by intros [= ->] || intros ->|].
  destruct s as [|d s]; [done|]. rewrite app_cons_str.
  case_decide; [|naive_solver]. subst. rewrite IH. naive_solver.
Qed.
Lemma CutPrefix_app p r : CutPrefix (p +:+ r) p = Some r.
Proof. by apply CutPrefix_Some. Qed.
Lemma CutSuffix_Some s p r : CutSuffix s p = Some r ↔ s = r +:+ p.
Proof.
  unfold CutSuffix. rewrite fmap_Some. setoid_rewrite CutPrefix_Some. split.
  - intros (x & Hx & ->). rewrite <-(rev_involutive_str s), Hx, rev_append_str.
    by rewrite rev_involutive_str.
  - intros ->. exists (String.rev r). by rewrite rev_append_str, rev_involutive_str.
Qed.
Lemma HasPrefix_true s p : HasPrefix s p = true ↔ ∃ r, s = p +:+ r.
Proof.
  unfold HasPrefix. rewrite bool_decide_eq_true. unfold is_Some.
  by setoid_rewrite CutPrefix_Some.
Qed.
Lemma HasSuffix_true s p : HasSuffix s p = true ↔ ∃ r, s = r +:+ p.
Proof.
  unfold HasSuffix. rewrite bool_decide_eq_true. unfold is_Some.
  by setoid_rewrite CutSuffix_Some.
Qed.
Lemma HasPrefix_app p r : HasPrefix (p +:+ r) p = true.
Proof. apply HasPrefix_true. eauto. Qed.
Lemma HasSuffix_app p r : HasSuffix (r +:+ p) p = true.
Proof. apply HasSuffix_true. eauto. Qed.
Lemma TrimPrefix_app p r : TrimPrefix (p +:+ r) p = r.
Proof. unfold TrimPrefix. by rewrite CutPrefix_app. Qed.
Lemma TrimSuffix_app p r : TrimSuffix (r +:+ p) p = r.
Proof. unfold TrimSuffix. by rewrite (proj2 (CutSuffix_Some _ p r)). Qed.
#[export] Hint Rewrite CutPrefix_app HasPrefix_app HasSuffix_app TrimPrefix_app TrimSuffix_app : go.

(** ** Searching *)

(** [strings.Contains] *)
Fixpoint Contains (s sub : string) : bool :=
  HasPrefix s sub || match s with "" => false | String _ s' => Contains s' sub end.

(** [strings.ContainsAny]/[strings.ContainsRune] for ASCII character sets. *)
Fixpoint ContainsAny (s chars : string) : bool :=
  match s with
  | "" => false
  | String c s' => Contains chars (String c "") || ContainsAny s' chars
  end.

(** [strings.Count] of a one-byte substring *)
Fixpoint CountByte (s : string) (c : ascii) : nat :=
  match s with
  | "" => 0
  | String d s' => (if decide (c = d) then 1 else 0) + CountByte s' c
  end.

Fixpoint cut_at (s sep : string) : option (string * string) :=
  match CutPrefix s sep with
  | Some r => Some ("", r)
  | None =>
      match s with
      | "" => None
      | String c s' =>
          match cut_at s' sep with
          | Some (b, a) => Some (String c b, a)
          | None => None
          end
      end
  end.
(** [strings.Cut]: [(before, after, found)] around the first [sep] *)
Definition Cut (s sep : string) : string * string * bool :=
  match cut_at s sep with Some (b, a) => (b, a, true) | None => (s, "", false) end.

Lemma Cut_found s sep b a : Cut s sep = (b, a, true) → s = b +:+ sep +:+ a.
Proof.
  unfold Cut. destruct (cut_at s sep) as [[b' a']|] eqn:E; intros [= <- <-].
  revert b' E. induction s as [|c s IH]; intros b'; simpl.
  - destruct (CutPrefix "" sep) eqn:E'; intros [= <- <-].
    by apply CutPrefix_Some in E'.
  - destruct (CutPrefix (String c s) sep) eqn:E'; [intros [= <- <-]; by apply CutPrefix_Some in E'|].
    destruct (cut_at s sep) as [[b0 a0]|] eqn:E0; intros [= <- <-].
    by rewrite app_cons_str, <-(IH b0).
Qed.

(** [no_char c s]: byte [c] does not occur in [s]. *)
Fixpoint no_char (c : ascii) (s : string) : Prop :=
  match s with "" => True | String d s' => c ≠ d ∧ no_char c s' end.
#[export] Instance no_char_dec c s : Decision (no_char c s).
Proof. induction s; simpl; apply _. Defined.

Lemma no_char_app c s t : no_char c (s +:+ t) ↔ no_char c s ∧ no_char c t.
Proof. induction s as [|d s IH]; [naive_solver|]. rewrite app_cons_str; simpl. naive_solver. Qed.

Lemma Cut_byte c b a :
  no_char c b → Cut (b +:+ String c a) (String c "") = (b, a, true).
Proof.
  intros Hb. unfold Cut. assert (cut_at (b +:+ String c a) (String c "") = Some (b, a)) as ->; [|done].
  induction b as [|d b IH]; simpl.
  - by rewrite decide_True.
  - destruct Hb as [Hd Hb].
    rewrite decide_False by done. by rewrite (IH Hb).
Qed.
Lemma Cut_absent c s : no_char c s → Cut s (String c "") = (s, "", false).
Proof.
  intros Hs. unfold Cut. assert (cut_at s (String c "") = None) as ->; [|done].
  induction s as [|d s IH]; simpl in *; [done|]. destruct Hs as [??].
  rewrite decide_False by done. by rewrite IH.
Qed.

Lemma CountByte_zero s c : CountByte s c = 0 ↔ no_char c s.
Proof. induction s as [|d s IH]; simpl; [done|]. case_decide; naive_solver lia. Qed.
Lemma CountByte_app s t c : CountByte (s +:+ t) c = CountByte s c + CountByte t c.
Proof. induction s as [|d s IH]; [done|]. rewrite app_cons_str; simpl. lia. Qed.

(** ** Splitting and joining *)

(** [strings.Split] with a one-byte separator *)
Fixpoint Split (s : string) (c : ascii) : list string :=
  match s with
  | "" => [""]
  | String d s' =>
      if decide (c = d) then "" :: Split s' c
      else match Split s' c with
           | [] => [String d ""]
           | l :: ls => String d l :: ls
           end
  end.

(** [strings.Join] *)
Fixpoint Join (ls : list string) (sep : string) : string :=
  match ls with
  | [] => ""
  | [l] => l
  | l :: ls' => l +:+ sep +:+ Join ls' sep
  end.

Notation LF := "010"%char (only parsing).
Notation newline := (String LF "") (only parsing).
Definition lines (s : string) : list string := Split s LF.

Lemma Split_cons s c : ∃ l ls, Split s c = l :: ls.
Proof.
  destruct s as [|d s]; simpl; [eauto|]. case_decide; [eauto|].
  destruct (Split s c); eauto.
Qed.
Lemma Split_ne s c : Split s c ≠ [].
Proof. destruct (Split_cons s c) as (?&?&->). done. Qed.
Lemma Join_cons l ls sep : ls ≠ [] → Join (l :: ls) sep = l +:+ sep +:+ Join ls sep.
Proof. by destruct ls. Qed.

Lemma Join_Split s c : Join (Split s c) (String c "") = s.
Proof.
  induction s as [|d s IH]; [done|]. simpl. case_decide; subst.
  - rewrite Join_cons by apply Split_ne. by rewrite IH.
  - destruct (Split_cons s c) as (l & ls & E). rewrite E in *. destruct ls; simpl in *.
    + by rewrite <-IH.
    + by rewrite <-IH.
Qed.
Lemma Split_no_char s c : Forall (no_char c) (Split s c).
Proof.
  induction s as [|d s IH]; simpl; [by repeat constructor|]. case_decide.
  - by constructor.
  - destruct (Split s c) as [|l ls]; inversion IH; subst; repeat constructor; done.
Qed.
Lemma Split_app s t c : no_char c s → Split (s +:+ String c t) c = s :: Split t c.
Proof.
  induction s as [|d s IH]; intros Hs.
  - simpl. by rewrite decide_True.
  - destruct Hs as [??]. simpl. rewrite decide_False by done.
    by rewrite IH.
Qed.
Lemma Split_no_sep s c : no_char c s → Split s c = [s].
Proof.
  induction s as [|d s IH]; [done|]. intros [??]; simpl. rewrite decide_False by done.
  by rewrite IH.
Qed.
Lemma Split_Join ls c :
  ls ≠ [] → Forall (no_char c) ls → Split (Join ls (String c "")) c = ls.
Proof.
  intros Hne Hls. induction Hls as [|l ls Hl Hls IH]; [done|].
  destruct ls as [|l' ls]; [by apply Split_no_sep|].
  rewrite Join_cons by done. rewrite app_cons_str, app_nil_l_str.
  rewrite Split_app by done. by rewrite IH.
Qed.

Lemma Split_inj s t c : Split s c = Split t c → s = t.
Proof. intros H. by rewrite <-(Join_Split s c), H, Join_Split. Qed.

(** ** [strings.TrimSpace]

    Go trims the runes of [unicode.IsSpace].  Their UTF-8 encodings are the
    ASCII blanks, [C2 85], [C2 A0], [E1 9A 80], [E2 80 80..8A], [E2 80 A8],
    [E2 80 A9], [E2 80 AF], [E2 81 9F] and [E3 80 80]; decoding forwards from
    the start (or backwards from the end) of a string yields such a rune
    exactly when the string starts (ends) with its encoding, and an invalid
    sequence decodes to U+FFFD, which is not a space. *)
Definition byte (c : ascii) : N := Stdlib.Strings.Ascii.N_of_ascii c.
Definition ws2 (a b : ascii) : bool :=
  (byte a =? 0xC2)%N && ((byte b =? 0x85)%N || (byte b =? 0xA0)%N).
Definition ws3 (a b c : ascii) : bool :=
  let x := byte c in
  ((byte a =? 0xE1) && (byte b =? 0x9A) && (x =? 0x80)
   || (byte a =? 0xE2) && (byte b =? 0x80)
      && ((0x80 <=? x) && (x <=? 0x8A) || (x =? 0xA8) || (x =? 0xA9) || (x =? 0xAF))
   || (byte a =? 0xE2) && (byte b =? 0x81) && (x =? 0x9F)
   || (byte a =? 0xE3) && (byte b =? 0x80) && (x =? 0x80))%N.

Fixpoint TrimLeftSpace (s : string) : string :=
  match s with
  | "" => ""
  | String a s1 =>
      if Ascii.is_space a then TrimLeftSpace s1 else
      match s1 with
      | "" => s
      | String b s2 =>
          if ws2 a b then TrimLeftSpace s2 else
          match s2 with
          | "" => s
          | String c s3 => if ws3 a b c then TrimLeftSpace s3 else s
          end
      end
  end.
(** The same on a reversed string: its first byte is the last one of the text. *)
Fixpoint TrimRightSpace_rev (r : string) : string :=
  match r with
  | "" => ""
  | String c r1 =>
      if Ascii.is_space c then TrimRightSpace_rev r1 else
      match r1 with
      | "" => r
      | String b r2 =>
          if ws2 b c then TrimRightSpace_rev r2 else
          match r2 with
          | "" => r
          | String a r3 => if ws3 a b c then TrimRightSpace_rev r3 else r
          end
      end
  end.
Definition TrimRightSpace (s : string) : string :=
  String.rev (TrimRightSpace_rev (String.rev s)).
Definition TrimSpace (s : string) : string := TrimRightSpace (TrimLeftSpace s).

(** Graphic ASCII bytes are never part of a space rune. *)
Definition graphic (c : ascii) : bool := ((33 <=? byte c) && (byte c <=? 126))%N.
Definition starts_graphic (s : string) : bool :=
  match s with "" => true | String c _ => graphic c end.
Definition ends_graphic (s : string) : bool := starts_graphic (String.rev s).

Lemma graphic_not_space a :
  graphic a = true →
  Ascii.is_space a = false ∧ (∀ b, ws2 a b = false ∧ ws2 b a = false) ∧
  (∀ b c, ws3 a b c = false ∧ ws3 b c a = false).
Proof.
  intros Ha. split; [by destruct a as [[][][][][][][][]]|].
  unfold graphic, ws2, ws3 in *. split; intros; split; lia.
Qed.

Lemma TrimLeftSpace_id s : starts_graphic s = true → TrimLeftSpace s = s.
Proof.
  destruct s as [|a [|b [|c s]]]; [done|..]; intros Ha;
    destruct (graphic_not_space a Ha) as (E1 & E2 & E3); simpl; rewrite E1; [done|..];
    rewrite (proj1 (E2 b)); [done|]. by rewrite (proj1 (E3 b c)).
Qed.
Lemma TrimRightSpace_id s : ends_graphic s = true → TrimRightSpace s = s.
Proof.
  unfold ends_graphic, TrimRightSpace. intros H.
  assert (TrimRightSpace_rev (String.rev s) = String.rev s) as ->;
    [|apply rev_involutive_str].
  destruct (String.rev s) as [|a [|b [|c s']]]; [done|..];
    destruct (graphic_not_space a H) as (E1 & E2 & E3); simpl; rewrite E1; [done|..];
    rewrite (proj2 (E2 b)); [done|]. by rewrite (proj2 (E3 c b)).
Qed.
Lemma TrimSpace_id s :
  starts_graphic s = true → ends_graphic s = true → TrimSpace s = s.
Proof.
  intros ??. unfold TrimSpace. rewrite TrimLeftSpace_id by done. by apply TrimRightSpace_id.
Qed.
Lemma ends_graphic_app s t : t ≠ "" → ends_graphic (s +:+ t) = ends_graphic t.
Proof.
  intros Ht. unfold ends_graphic. rewrite rev_append_str.
  destruct (String.rev t) eqn:E; [|done].
  exfalso. apply Ht. by rewrite <-(rev_involutive_str t), E.
Qed.
Lemma TrimSpace_blank c s : Ascii.is_space c = true → TrimSpace (String c s) = TrimSpace s.
Proof. intros Hc. unfold TrimSpace; simpl. by rewrite Hc. Qed.

Lemma TrimLeftSpace_suffix s : ∃ a, s = a +:+ TrimLeftSpace s.
Proof.
  induction s as [s IH] using (induction_ltof1 _ String.length); unfold ltof in IH.
  assert (∀ p r, s = p +:+ r → (String.length r < String.length s) →
    ∃ a, s = a +:+ TrimLeftSpace r) as Hstep.
  { intros p r -> Hlt. destruct (IH r Hlt) as [a Ha]. exists (p +:+ a).
    rewrite Ha at 1. by rewrite app_assoc_str. }
  destruct s as [|a [|b [|c s]]]; simpl.
  - by exists "".
  - case_match; [apply (Hstep (String a "") ""); [done|simpl;lia]|by exists ""].
  - case_match; [apply (Hstep (String a "") (String b "")); [done|simpl; lia]|].
    case_match; [apply (Hstep (String a (String b "")) ""); [done|simpl;lia]|by exists ""].
  - case_match; [apply (Hstep (String a "") (String b (String c s))); [done|simpl;lia]|].
    case_match; [apply (Hstep (String a (String b "")) (String c s)); [done|simpl;lia]|].
    case_match; [apply (Hstep (String a (String b (String c ""))) s); [done|simpl;lia]|by exists ""].
Qed.

Lemma TrimRightSpace_prefix s : ∃ b, s = TrimRightSpace s +:+ b.
Proof.
  unfold TrimRightSpace. cut (∃ a, String.rev s = a +:+ TrimRightSpace_rev (String.rev s)).
  { intros [a Ha]. exists (String.rev a).
    by rewrite <-rev_append_str, <-Ha, rev_involutive_str. }
  generalize (String.rev s); clear s; intros s.
  induction s as [s IH] using (induction_ltof1 _ String.length); unfold ltof in IH.
  assert (∀ p r, s = p +:+ r → (String.length r < String.length s) →
    ∃ a, s = a +:+ TrimRightSpace_rev r) as Hstep.
  { intros p r -> Hlt. destruct (IH r Hlt) as [a Ha]. exists (p +:+ a).
    rewrite Ha at 1. by rewrite app_assoc_str. }
  destruct s as [|a [|b [|c s]]]; simpl.
  - by exists "".
  - case_match; [apply (Hstep (String a "") ""); [done|simpl;lia]|by exists ""].
  - case_match; [apply (Hstep (String a "") (String b "")); [done|simpl; lia]|].
    case_match; [apply (Hstep (String a (String b "")) ""); [done|simpl;lia]|by exists ""].
  - case_match; [apply (Hstep (String a "") (String b (String c s))); [done|simpl;lia]|].
    case_match; [apply (Hstep (String a (String b "")) (String c s)); [done|simpl;lia]|].
    case_match; [apply (Hstep (String a (String b (String c ""))) s); [done|simpl;lia]|by exists ""].
Qed.

(** The trimmed text is a factor of the text. *)
Lemma TrimSpace_factor s : ∃ a b, s = a +:+ TrimSpace s +:+ b.
Proof.
  destruct (TrimLeftSpace_suffix s) as [a Ha].
  destruct (TrimRightSpace_prefix (TrimLeftSpace s)) as [b Hb].
  exists a, b. unfold TrimSpace. by rewrite <-Hb.
Qed.
Lemma TrimSpace_no_char c s : no_char c s → no_char c (TrimSpace s).
Proof.
  destruct (TrimSpace_factor s) as (a & b & E). intros H. rewrite E in H.
  by rewrite !no_char_app in H; destruct H as (_ & ? & _).
Qed.
Lemma TrimSpace_length s : String.length (TrimSpace s) ≤ String.length s.
Proof.
  destruct (TrimSpace_factor s) as (a & b & E). rewrite E at 2.
  rewrite !length_app_str. lia.
Qed.

(** [lead_space s]: some space rune is a prefix of [s]. *)
Definition lead_space (s : string) : bool :=
  match s with
  | "" => false
  | String a s1 =>
      Ascii.is_space a ||
      match s1 with
      | "" => false
      | String b s2 => ws2 a b || match s2 with "" => false | String c _ => ws3 a b c end
      end
  end.
Lemma TrimLeftSpace_unfold s :
  TrimLeftSpace s =
    match s with
    | "" => ""
    | String a s1 =>
        if Ascii.is_space a then TrimLeftSpace s1 else
        match s1 with
        | "" => s
        | String b s2 =>
            if ws2 a b then TrimLeftSpace s2 else
            match s2 with
            | "" => s
            | String c s3 => if ws3 a b c then TrimLeftSpace s3 else s
            end
        end
    end.
Proof. by destruct s. Qed.
Lemma TrimLeftSpace_lead s : lead_space (TrimLeftSpace s) = false.
Proof.
  induction s as [s IH] using (induction_ltof1 _ String.length); unfold ltof in IH.
  rewrite TrimLeftSpace_unfold. destruct s as [|a s1]; [done|].
  destruct (Ascii.is_space a) eqn:Ea; [apply IH; simpl; lia|].
  destruct s1 as [|b s2]; [simpl; by rewrite Ea|].
  destruct (ws2 a b) eqn:Eb; [apply IH; simpl; lia|].
  destruct s2 as [|c s3]; [simpl; by rewrite Ea, Eb|].
  destruct (ws3 a b c) eqn:Ec; [apply IH; simpl; lia|].
  simpl. by rewrite Ea, Eb, Ec.
Qed.
Lemma TrimLeftSpace_stable s : TrimLeftSpace s = s ↔ lead_space s = false.
Proof.
  split; [intros <-; apply TrimLeftSpace_lead|].
  rewrite TrimLeftSpace_unfold.
  destruct s as [|a [|b [|c s]]]; simpl; [done|..]; rewrite ?orb_false_iff; intros H;
    destruct_and?; repeat match goal with E : _ = false |- _ => rewrite E; clear E end; done.
Qed.
Lemma lead_space_prefix s t : lead_space (s +:+ t) = false → lead_space s = false.
Proof.
  destruct s as [|a [|b [|c s]]]; rewrite ?app_cons_str; simpl; [done|..];
    destruct (Ascii.is_space a); simpl; try done.
  destruct t; simpl; rewrite ?orb_false_iff; naive_solver.
Qed.

Lemma TrimRightSpace_idemp s : TrimRightSpace (TrimRightSpace s) = TrimRightSpace s.
Proof.
  unfold TrimRightSpace. rewrite rev_involutive_str. f_equal.
  generalize (String.rev s); clear s; intros s.
  induction s as [s IH] using (induction_ltof1 _ String.length); unfold ltof in IH.
  destruct s as [|a s1]; [done|]. cbn [TrimRightSpace_rev].
  destruct (Ascii.is_space a) eqn:Ea; [apply IH; simpl; lia|].
  destruct s1 as [|b s2]; [simpl; by rewrite Ea|].
  destruct (ws2 b a) eqn:Eb; [apply IH; simpl; lia|].
  destruct s2 as [|c s3]; [simpl; by rewrite Ea, Eb|].
  destruct (ws3 c b a) eqn:Ec; [apply IH; simpl; lia|].
  simpl. by rewrite Ea, Eb, Ec.
Qed.
(** Trimming twice is trimming once. *)
Lemma TrimSpace_idemp s : TrimSpace (TrimSpace s) = TrimSpace s.
Proof.
  unfold TrimSpace at 1. rewrite (proj2 (TrimLeftSpace_stable (TrimSpace s))).
  - apply TrimRightSpace_idemp.
  - destruct (TrimRightSpace_prefix (TrimLeftSpace s)) as [b Hb].
    apply (lead_space_prefix _ b). unfold TrimSpace. rewrite <-Hb.
    apply TrimLeftSpace_lead.
Qed.

(** [trail_space r]: some space rune ends the text whose reversal is [r]. *)
Definition trail_space (r : string) : bool :=
  match r with
  | "" => false
  | String c r1 =>
      Ascii.is_space c ||
      match r1 with
      | "" => false
      | String b r2 => ws2 b c || match r2 with "" => false | String a _ => ws3 a b c end
      end
  end.
Lemma TrimRightSpace_rev_trail r : trail_space (TrimRightSpace_rev r) = false.
Proof.
  induction r as [s IH] using (induction_ltof1 _ String.length); unfold ltof in IH.
  destruct s as [|a s1]; [done|]. cbn [TrimRightSpace_rev].
  destruct (Ascii.is_space a) eqn:Ea; [apply IH; simpl; lia|].
  destruct s1 as [|b s2]; [simpl; by rewrite Ea|].
  destruct (ws2 b a) eqn:Eb; [apply IH; simpl; lia|].
  destruct s2 as [|c s3]; [simpl; by rewrite Ea, Eb|].
  destruct (ws3 c b a) eqn:Ec; [apply IH; simpl; lia|].
  simpl. by rewrite Ea, Eb, Ec.
Qed.
Lemma TrimRightSpace_stable s :
  TrimRightSpace s = s ↔ trail_space (String.rev s) = false.
Proof.
  unfold TrimRightSpace. split.
  - intros E. rewrite <-E, rev_involutive_str. apply TrimRightSpace_rev_trail.
  - intros H. rewrite <-(rev_involutive_str s) at 2. f_equal. revert H.
    destruct (String.rev s) as [|a [|b [|c r]]]; simpl; [done|..]; rewrite ?orb_false_iff;
      intros H; destruct_and?;
      repeat match goal with E : _ = false |- _ => rewrite E; clear E end; done.
Qed.
Lemma TrimSpace_stable s :
  TrimSpace s = s → TrimLeftSpace s = s ∧ TrimRightSpace s = s.
Proof.
  intros E.
  assert (TrimLeftSpace s = s) as E1.
  { destruct (TrimLeftSpace_suffix s) as [a Ha].
    destruct (TrimRightSpace_prefix (TrimLeftSpace s)) as [b Hb]. fold (TrimSpace s) in Hb.
    rewrite E in Hb. destruct a as [|x a]; [symmetry; exact Ha|].
    exfalso. apply (f_equal String.length) in Ha, Hb.
    rewrite length_app_str in Ha, Hb. simpl in Ha. lia. }
  split; [done|]. unfold TrimSpace in E. by rewrite E1 in E.
Qed.
Lemma ws3_blank_mid a c : ws3 a " " c = false.
Proof. unfold ws3. change (byte " ") with 32%N. lia. Qed.
(** A blank in front of trimmed text does not disturb its end. *)
Lemma TrimRightSpace_blank_app p v :
  v ≠ "" → TrimRightSpace v = v →
  TrimRightSpace (p +:+ String " " v) = p +:+ String " " v.
Proof.
  intros Hne H. apply TrimRightSpace_stable. apply TrimRightSpace_stable in H.
  rewrite rev_append_str, rev_cons_str, app_assoc_str, app_cons_str, app_nil_l_str.
  destruct (String.rev v) as [|c [|b [|a r]]] eqn:E.
  - exfalso. apply Hne. by rewrite <-(rev_involutive_str v), E.
  - rewrite app_cons_str, app_nil_l_str; simpl in *. rewrite orb_false_r in H. rewrite H.
    destruct (String.rev p); [done|]. rewrite ws3_blank_mid. done.
  - rewrite !app_cons_str, app_nil_l_str; simpl in *.
    change (ws3 " " b c) with false. exact H.
  - by rewrite !app_cons_str.
Qed.
Lemma TrimSpace_key_value c p v :
  graphic c = true → v ≠ "" → TrimSpace v = v →
  TrimSpace (String c (p +:+ String " " v)) = String c (p +:+ String " " v).
Proof.
  intros Hc Hne Hv. unfold TrimSpace. rewrite TrimLeftSpace_id by done.
  rewrite <-app_cons_str. apply TrimRightSpace_blank_app; [done|]. by apply TrimSpace_stable.
Qed.

(** ** More on splitting *)
Lemma Split_app_sep s t c : Split (s +:+ String c t) c = Split s c ++ Split t c.
Proof.
  induction s as [|d s IH]; simpl.
  - by rewrite decide_True.
  - case_decide; simpl; rewrite IH; [done|].
    destruct (Split_cons s c) as (l & ls & ->). done.
Qed.
Lemma Contains_true s sub : Contains s sub = true ↔ ∃ a b, s = a +:+ sub +:+ b.
Proof.
  induction s as [|c s IH]; simpl.
  - rewrite orb_false_r, HasPrefix_true. split.
    + intros [r E]. by exists "", r.
    + intros (a & b & E). destruct a; [by exists b|done].
  - rewrite orb_true_iff, HasPrefix_true, IH. split.
    + intros [[r E]|(a & b & ->)]; [by exists "", r|by exists (String c a), b].
    + intros ([|d a] & b & E); [left; by exists b|right]. exists a, b.
      rewrite app_cons_str in E. by simplify_eq.
Qed.
Lemma Contains_byte s c : Contains s (String c "") = false ↔ no_char c s.
Proof.
  rewrite <-not_true_iff_false, Contains_true. split.
  - intros H. induction s as [|d s IH]; simpl; [done|]. split.
    + intros <-. apply H. by exists "", s.
    + apply IH. intros (a & b & ->). apply H. by exists (String d a), b.
  - intros H (a & b & ->). rewrite no_char_app in H. destruct H as [_ H].
    rewrite app_cons_str in H. by destruct H.
Qed.

(** Trimming a text that starts with a graphic byte keeps that byte. *)
Lemma TrimRightSpace_rev_last r c :
  graphic c = true → ∃ x, TrimRightSpace_rev (r +:+ String c "") = x +:+ String c "".
Proof.
  intros Hc. destruct (graphic_not_space c Hc) as (E1 & E2 & E3).
  induction r as [r IH] using (induction_ltof1 _ String.length); unfold ltof in IH.
  destruct r as [|a r1].
  { exists "". simpl. by rewrite E1. }
  rewrite app_cons_str. cbn [TrimRightSpace_rev].
  destruct (Ascii.is_space a); [apply IH; simpl; lia|].
  destruct r1 as [|b r2].
  { rewrite app_nil_l_str. rewrite (proj1 (E2 a)). exists (String a ""). done. }
  rewrite app_cons_str. destruct (ws2 b a); [apply IH; simpl; lia|].
  destruct r2 as [|d r3].
  { rewrite app_nil_l_str. rewrite (proj1 (E3 b a)). exists (String a (String b "")). done. }
  rewrite app_cons_str. destruct (ws3 d b a); [apply IH; simpl; lia|].
  exists (String a (String b (String d r3))). by rewrite !app_cons_str.
Qed.
Lemma TrimSpace_first c s : graphic c = true → ∃ r, TrimSpace (String c s) = String c r.
Proof.
  intros Hc. unfold TrimSpace. rewrite TrimLeftSpace_id by done. unfold TrimRightSpace.
  rewrite rev_cons_str. destruct (TrimRightSpace_rev_last (String.rev s) c Hc) as [x ->].
  rewrite rev_append_str. exists (String.rev x). done.
Qed.

(** ** [strings.Fields] and [strings.TrimRight] *)
Fixpoint spanField (s : string) : string * string :=
  match s with
  | "" => ("", "")
  | String c r => if lead_space s then ("", s) else let '(w, rest) := spanField r in (String c w, rest)
  end.
Fixpoint fieldsLoop (fuel : nat) (s : string) : list string :=
  match fuel with
  | 0 => []
  | S fuel =>
      match TrimLeftSpace s with
      | "" => []
      | s => let '(w, rest) := spanField s in w :: fieldsLoop fuel rest
      end
  end.
(** Every round consumes a byte, so the length is enough fuel. *)
Definition Fields (s : string) : list string := fieldsLoop (S (String.length s)) s.

(** [strings.TrimRight(s, c)] for a one-byte cutset. *)
Fixpoint dropLeading (c : ascii) (s : string) : string :=
  match s with String d r => if bool_decide (c = d) then dropLeading c r else s | "" => "" end.
Definition TrimRightByte (s : string) (c : ascii) : string := String.rev (dropLeading c (String.rev s)).

Example Fields_record : Fields "100644 blob  0a1b	x " = ["100644"; "blob"; "0a1b"; "x"].
Proof. reflexivity. Qed.
