(* ===== verification/TaskLines.v ===== *)
(** * The line scanner of the task and plan parsers

    The section parsers of [internal/taskcontract] walk a Markdown file line by
    line, ignore everything inside a backtick fence, locate a level-two heading
    and read the lines below it up to the next level-two heading.  This file
    models the scanner ([lineOutsideFence], [leadingBackticks] of [task.go],
    [findUniqueTaskSection] of [dependencies.go]) and the loop skeleton the
    parsers repeat, and relates both to a list of visible lines. *)
From S2P Require Import Prelude GoStrings.

Notation backtick := "`"%char (only parsing).

(** ** Fences *)

Fixpoint leadingBackticks (line : string) : nat :=
  match line with
  | String c line' => if decide (c = backtick) then S (leadingBackticks line') else 0
  | "" => 0
  end.

(** The [*fence] the Go function updates in place is threaded: the result is
    (the line is outside every fence, the fence width afterwards). *)
Definition lineOutsideFence (line : string) (fence : nat) : bool * nat :=
  let backticks := leadingBackticks line in
  if decide (0 < fence) then (false, if decide (fence ≤ backticks) then 0 else fence)
  else if decide (3 ≤ backticks) then (false, backticks)
  else (true, fence).

(** The heading scan that [findFeasibilitySection], [findUniqueTaskSection] and
    [findGoalSection] each spell out: the index of the first heading (Go's
    [-1] is [None]) and the number of headings, outside fences. *)
Fixpoint scanHeadings (heading : string) (ls : list string) (index : nat)
    (headingAt : option nat) (sections fence : nat) : option nat * nat :=
  match ls with
  | [] => (headingAt, sections)
  | line :: ls =>
      let '(outside, fence) := lineOutsideFence line fence in
      if negb outside then scanHeadings heading ls (S index) headingAt sections fence else
      if HasPrefix line "## " && bool_decide (TrimSpace line = heading) then
        scanHeadings heading ls (S index)
          (match headingAt with None => Some index | Some _ => headingAt end)
          (S sections) fence
      else scanHeadings heading ls (S index) headingAt sections fence
  end.


Definition findUniqueTaskSection (ls : list string) (heading : string) :
    result error (option nat) :=
  let '(headingAt, sections) := scanHeadings heading ls 0 None 0 0 in
  if decide (1 < sections) then Err (Errorf "%s節が複数あります(%d節)" [AStr heading; AInt sections])
  else Ok headingAt.

(** The loop
    [[
    fence := 0
    for index := headingAt + 1; index < len(lines); index++ {
        if !lineOutsideFence(line, &fence) { continue }
        if strings.HasPrefix(line, "## ") { break }
        body
    }
    ]]
    that the section parsers share; [body] sees the line's index and the
    parser's accumulator, and its error leaves the loop. *)
Fixpoint sectionLoop {E A} (body : nat → string → A → result E A)
    (ls : list string) (index fence : nat) (acc : A) : result E A :=
  match ls with
  | [] => Ok acc
  | line :: ls =>
      let '(outside, fence) := lineOutsideFence line fence in
      if negb outside then sectionLoop body ls (S index) fence acc else
      if HasPrefix line "## " then Ok acc else
      acc ← body index line acc;
      sectionLoop body ls (S index) fence acc
  end.

(** ** Visible lines *)

Definition is_h2 (line : string) : bool := HasPrefix line "## ".
Definition is_heading (heading line : string) : bool :=
  is_h2 line && bool_decide (TrimSpace line = heading).

Fixpoint fence_after (ls : list string) (fence : nat) : nat :=
  match ls with
  | [] => fence
  | line :: ls => fence_after ls (lineOutsideFence line fence).2
  end.

(** The lines outside fences, with their indices. *)
Fixpoint visible (ls : list string) (index fence : nat) : list (nat * string) :=
  match ls with
  | [] => []
  | line :: ls =>
      let '(outside, fence) := lineOutsideFence line fence in
      if outside then (index, line) :: visible ls (S index) fence
      else visible ls (S index) fence
  end.

Definition no_heading (heading : string) (l : list (nat * string)) : Prop :=
  Forall (λ p, is_heading heading p.2 = false) l.

Lemma visible_app ls1 ls2 i f :
  visible (ls1 ++ ls2) i f =
    visible ls1 i f ++ visible ls2 (i + length ls1) (fence_after ls1 f).
Proof.
  revert i f. induction ls1 as [|l ls1 IH]; intros i f; simpl; [by rewrite Nat.add_0_r|].
  destruct (lineOutsideFence l f) as [[] f']; simpl; rewrite IH;
    by replace (S i + length ls1) with (i + S (length ls1)) by lia.
Qed.
Lemma fence_after_app ls1 ls2 f :
  fence_after (ls1 ++ ls2) f = fence_after ls2 (fence_after ls1 f).
Proof. revert f. induction ls1; intros f; simpl; auto. Qed.

(** A line without leading backticks is visible outside a fence and does not
    open one. *)
Lemma lineOutsideFence_plain line :
  leadingBackticks line = 0 → lineOutsideFence line 0 = (true, 0).
Proof. intros E. unfold lineOutsideFence. by rewrite E. Qed.
Lemma lineOutsideFence_visible line f :
  (lineOutsideFence line f).1 = true → f = 0 ∧ (lineOutsideFence line f).2 = 0.
Proof. unfold lineOutsideFence. repeat case_decide; naive_solver lia. Qed.
Lemma is_h2_no_backticks line : is_h2 line = true → leadingBackticks line = 0.
Proof. unfold is_h2. rewrite HasPrefix_true. by intros [r ->]. Qed.
Lemma is_heading_h2 heading line : is_heading heading line = true → is_h2 line = true.
Proof. unfold is_heading. by intros [? _]%andb_true_iff. Qed.
Lemma h2_outside line : is_h2 line = true → lineOutsideFence line 0 = (true, 0).
Proof. intros. by apply lineOutsideFence_plain, is_h2_no_backticks. Qed.
Lemma visible_snd ls i j f : (visible ls i f).*2 = (visible ls j f).*2.
Proof.
  revert i j f. induction ls as [|l ls IH]; intros i j f; simpl; [done|].
  destruct (lineOutsideFence l f) as [[] f']; simpl; [f_equal|]; apply IH.
Qed.
Lemma no_heading_index heading ls i j f :
  no_heading heading (visible ls i f) ↔ no_heading heading (visible ls j f).
Proof.
  assert (∀ l, no_heading heading l ↔ Forall (λ s, is_heading heading s = false) l.*2) as E.
  { intros l. by rewrite Forall_fmap. }
  by rewrite !E, (visible_snd ls i j).
Qed.

(** A visible line splits the file at that line. *)
Lemma visible_split ls i f a k line b :
  visible ls i f = a ++ (k, line) :: b →
  ∃ pre post, ls = pre ++ line :: post ∧ k = i + length pre ∧ fence_after pre f = 0 ∧
    visible pre i f = a ∧ visible post (S k) 0 = b.
Proof.
  revert i f a. induction ls as [|l ls IH]; intros i f a; simpl; [by destruct a|].
  destruct (lineOutsideFence l f) as [o f'] eqn:E. destruct o.
  - destruct (lineOutsideFence_visible l f) as [-> Hf]; [by rewrite E|].
    rewrite E in Hf; simpl in Hf; subst f'. destruct a as [|x a]; simpl; intros [= Hx H].
    + simplify_eq. exists [], ls. split_and!; auto.
    + subst x. destruct (IH _ _ _ H) as (pre & post & -> & -> & ? & ? & ?).
      exists (l :: pre), post; simpl. rewrite E; simpl. split_and!; auto; try lia; f_equal; done.
  - intros H. destruct (IH _ _ _ H) as (pre & post & -> & -> & ? & ? & ?).
    exists (l :: pre), post; simpl. rewrite E; simpl. split_and!; auto; lia.
Qed.

Definition headings (heading : string) (vs : list (nat * string)) : list (nat * string) :=
  filter (λ p, is_heading heading p.2 = true) vs.

Lemma headings_nil heading vs : headings heading vs = [] ↔ no_heading heading vs.
Proof.
  unfold headings, no_heading. induction vs as [|p vs IH]; [done|].
  rewrite filter_cons, Forall_cons. case_decide as E.
  - split; [done|]. intros [E' _]. congruence.
  - rewrite IH. apply not_true_is_false in E. naive_solver.
Qed.

Lemma scanHeadings_spec heading ls i hd n f :
  scanHeadings heading ls i hd n f =
    (match hd with Some _ => hd | None => fst <$> head (headings heading (visible ls i f)) end,
     n + length (headings heading (visible ls i f))).
Proof.
  revert i hd n f. induction ls as [|l ls IH]; intros i hd n f; simpl.
  { destruct hd; by rewrite Nat.add_0_r. }
  destruct (lineOutsideFence l f) as [[] f']; simpl; [|apply IH].
  unfold headings. rewrite filter_cons. simpl. unfold is_heading, is_h2.
  destruct (HasPrefix l "## " && bool_decide (TrimSpace l = heading)); simpl; rewrite IH.
  - unfold headings. destruct hd; simpl; by rewrite Nat.add_succ_r.
  - done.
Qed.

(** A single heading: it splits the file in two texts without that heading. *)
Lemma scanHeadings_unique ls heading k :
  scanHeadings heading ls 0 None 0 0 = (Some k, 1) ↔
  ∃ pre line post, ls = pre ++ line :: post ∧ k = length pre ∧ fence_after pre 0 = 0 ∧
    is_heading heading line = true ∧
    no_heading heading (visible pre 0 0) ∧ no_heading heading (visible post 0 0).
Proof.
  rewrite scanHeadings_spec; simpl. split.
  - intros [= H Hn].
    destruct (headings heading (visible ls 0 0)) as [|[k' line] rest] eqn:E; [done|].
    simpl in *. simplify_eq. destruct rest; [|done].
    unfold headings in E.
    apply filter_cons_split in E as (a & b & Hab & Ha & Hline & Hb).
    destruct (visible_split _ _ _ _ _ _ _ Hab) as (pre & post & -> & -> & ? & <- & <-).
    exists pre, line, post. split_and!; auto.
    + by apply (Forall_impl _ _ _ Ha); intros ? ?%not_true_is_false.
    + apply (no_heading_index _ _ _ (S (0 + length pre))). by apply headings_nil.
  - intros (pre & line & post & -> & -> & Hf & Hline & Hpre & Hpost).
    rewrite visible_app, Hf; simpl.
    rewrite (h2_outside line) by (by eapply is_heading_h2); simpl.
    assert (headings heading (visible pre 0 0 ++ (length pre, line) ::
      visible post (S (length pre)) 0) = [(length pre, line)]) as ->; [|done].
    unfold headings. rewrite filter_app. apply headings_nil in Hpre.
    unfold headings in Hpre. rewrite Hpre; simpl. rewrite filter_cons_True by done.
    f_equal. apply (proj2 (headings_nil heading _)). by apply (no_heading_index _ _ _ 0).
Qed.
Lemma findUniqueTaskSection_Some ls heading k :
  findUniqueTaskSection ls heading = Ok (Some k) ↔
  ∃ pre line post, ls = pre ++ line :: post ∧ k = length pre ∧ fence_after pre 0 = 0 ∧
    is_heading heading line = true ∧
    no_heading heading (visible pre 0 0) ∧ no_heading heading (visible post 0 0).
Proof.
  rewrite <-scanHeadings_unique. unfold findUniqueTaskSection.
  rewrite scanHeadings_spec; simpl.
  destruct (headings heading (visible ls 0 0)) as [|[k' l] [|]]; simpl; repeat case_decide;
    naive_solver lia.
Qed.
Lemma findUniqueTaskSection_None ls heading :
  findUniqueTaskSection ls heading = Ok None ↔ no_heading heading (visible ls 0 0).
Proof.
  unfold findUniqueTaskSection. rewrite scanHeadings_spec; simpl.
  rewrite <-headings_nil. destruct (headings heading (visible ls 0 0)) as [|? [|??]]; simpl;
    repeat case_decide; naive_solver lia.
Qed.

(** ** The section body *)

(** What a section loop starting at [ls] reads. *)
Definition section_lines (ls : list string) (index : nat) : list (nat * string) :=
  take_until (λ p, is_h2 p.2) (visible ls index 0).

Fixpoint foldBody {E A} (body : nat → string → A → result E A)
    (vs : list (nat * string)) (acc : A) : result E A :=
  match vs with
  | [] => Ok acc
  | (index, line) :: vs => acc ← body index line acc; foldBody body vs acc
  end.

Lemma sectionLoop_fold {E A} (body : nat → string → A → result E A) ls i f acc :
  sectionLoop body ls i f acc =
    foldBody body (take_until (λ p, is_h2 p.2) (visible ls i f)) acc.
Proof.
  revert i f acc. induction ls as [|l ls IH]; intros i f acc; simpl; [done|].
  destruct (lineOutsideFence l f) as [[] f']; simpl; [|apply IH].
  unfold is_h2. destruct (HasPrefix l "## "); simpl; [done|].
  destruct (body i l acc); simpl; auto.
Qed.

(** Lines that neither open a fence nor are level-two headings. *)
Definition plain_line (line : string) : Prop :=
  leadingBackticks line = 0 ∧ is_h2 line = false.
#[export] Instance plain_line_dec line : Decision (plain_line line).
Proof. unfold plain_line. apply _. Defined.

(** The text after a section: nothing, or the next level-two heading. *)
Definition section_end (post : list string) : Prop :=
  match post with [] => True | line :: _ => is_h2 line = true end.

Lemma visible_plain ls i :
  Forall plain_line ls → visible ls i 0 = imap (λ j l, (i + j, l)) ls.
Proof.
  intros H. revert i. induction H as [|l ls [Hl _] _ IH]; intros i; simpl; [done|].
  rewrite lineOutsideFence_plain by done. rewrite Nat.add_0_r. f_equal.
  rewrite IH. apply imap_ext. intros j x _. simpl. by rewrite Nat.add_succ_r.
Qed.
Lemma fence_after_plain ls : Forall plain_line ls → fence_after ls 0 = 0.
Proof.
  induction 1 as [|l ls [Hl _] _ IH]; simpl; [done|].
  by rewrite lineOutsideFence_plain.
Qed.
Lemma section_lines_plain body post i :
  Forall plain_line body → section_end post →
  section_lines (body ++ post) i = imap (λ j l, (i + j, l)) body.
Proof.
  intros Hb Hp. unfold section_lines.
  rewrite visible_app, visible_plain, fence_after_plain by done.
  assert (Forall (λ p : nat * string, is_h2 p.2 = false) (imap (λ j l, (i + j, l)) body)) as Hf.
  { apply Forall_lookup. intros j [k l]. rewrite list_lookup_imap.
    destruct (body !! j) as [l'|] eqn:E; [|done]. intros [= <- <-].
    by eapply Forall_lookup in Hb as [_ ?]. }
  destruct post as [|h post]; simpl.
  - rewrite app_nil_r. by apply take_until_none.
  - rewrite (h2_outside h) by done. by apply take_until_app.
Qed.

(** A body that ignores line numbers only depends on the lines. *)
Lemma foldBody_noindex {E A} (g : string → A → result E A) vs acc :
  foldBody (λ _, g) vs acc = foldBody (λ _, g) ((λ l, (0, l)) <$> vs.*2) acc.
Proof.
  revert acc. induction vs as [|[i l] vs IH]; intros acc; simpl; [done|].
  destruct (g l acc); simpl; auto.
Qed.
Lemma foldBody_cons {E A} (body : nat → string → A → result E A) i l vs acc :
  foldBody body ((i, l) :: vs) acc = body i l acc ≫= foldBody body vs.
Proof. done. Qed.
Lemma foldBody_app {E A} (body : nat → string → A → result E A) vs1 vs2 acc :
  foldBody body (vs1 ++ vs2) acc = foldBody body vs1 acc ≫= foldBody body vs2.
Proof.
  revert acc. induction vs1 as [|[i l] vs1 IH]; intros acc; simpl; [done|].
  destruct (body i l acc); simpl; auto.
Qed.

(** Plain lines hide no heading, so text around a section stays free of it. *)
Lemma no_heading_plain_app heading body post :
  Forall plain_line body → no_heading heading (visible post 0 0) →
  no_heading heading (visible (body ++ post) 0 0).
Proof.
  intros Hb Hp. rewrite visible_app, fence_after_plain, visible_plain by done.
  unfold no_heading. apply Forall_app. split; [|by apply (no_heading_index _ _ 0)].
  apply Forall_lookup. intros j [i l]. rewrite list_lookup_imap.
  destruct (body !! j) as [l'|] eqn:E; [|done]. intros [= _ <-].
  eapply Forall_lookup in Hb as [_ ?]; [|exact E].
  apply not_true_is_false. intros ?%is_heading_h2. simpl in *. congruence.
Qed.

(** ** Sections of the visible text

    A parser that ignores line numbers sees a file as the list of its visible
    lines; these are the views the section parsers factor through. *)
Definition visible_lines (ls : list string) (fence : nat) : list string :=
  (visible ls 0 fence).*2.

Lemma visible_lines_app ls1 ls2 f :
  visible_lines (ls1 ++ ls2) f = visible_lines ls1 f ++ visible_lines ls2 (fence_after ls1 f).
Proof.
  unfold visible_lines. rewrite visible_app, fmap_app. f_equal. apply visible_snd.
Qed.
Lemma visible_lines_cons l ls :
  leadingBackticks l = 0 → visible_lines (l :: ls) 0 = l :: visible_lines ls 0.
Proof.
  intros Hl. unfold visible_lines; simpl. rewrite lineOutsideFence_plain by done; simpl.
  f_equal. apply visible_snd.
Qed.
Lemma visible_lines_plain ls : Forall plain_line ls → visible_lines ls 0 = ls.
Proof.
  induction 1 as [|l ls [Hl _] _ IH]; [done|]. by rewrite visible_lines_cons, IH.
Qed.

Definition heading_count (heading : string) (vs : list string) : nat :=
  length (filter (λ l, is_heading heading l = true) vs).
(** The lines of the first section with that heading. *)
Fixpoint section_view (heading : string) (vs : list string) : option (list string) :=
  match vs with
  | [] => None
  | l :: vs => if is_heading heading l then Some (take_until is_h2 vs) else section_view heading vs
  end.

Lemma heading_count_visible heading ls i f :
  length (headings heading (visible ls i f)) = heading_count heading (visible ls i f).*2.
Proof.
  unfold headings, heading_count. induction (visible ls i f) as [|p vs IH]; [done|].
  rewrite fmap_cons, !filter_cons. simpl. case_decide; simpl; by rewrite IH.
Qed.
Lemma section_view_none heading vs :
  section_view heading vs = None ↔ heading_count heading vs = 0.
Proof.
  unfold heading_count. induction vs as [|l vs IH]; [done|]. rewrite filter_cons; simpl.
  destruct (is_heading heading l) eqn:E; [by rewrite decide_True by done|].
  by rewrite decide_False by congruence.
Qed.
Lemma section_view_app heading vs l ws :
  Forall (λ l, is_heading heading l = false) vs → is_heading heading l = true →
  section_view heading (vs ++ l :: ws) = Some (take_until is_h2 ws).
Proof. induction 1 as [|x vs Hx _ IH]; intros Hl; simpl; rewrite ?Hl, ?Hx; auto. Qed.

Lemma section_lines_snd ls i : (section_lines ls i).*2 = take_until is_h2 (visible_lines ls 0).
Proof.
  unfold section_lines, visible_lines. rewrite (visible_snd ls 0 i).
  induction (visible ls i 0) as [|[j l] vs IH]; [done|]; csimpl.
  destruct (is_h2 l); csimpl; [done|]. by rewrite IH.
Qed.

(** A parser over one section, in terms of the visible text. *)
Lemma section_parse {A} (g : string → A → result error A) acc (none : result error A) ls heading :
  (headingAt ← findUniqueTaskSection ls heading;
   match headingAt with
   | None => none
   | Some at_ => sectionLoop (λ _, g) (drop (S at_) ls) (S at_) 0 acc
   end) =
  let vs := visible_lines ls 0 in
  if decide (1 < heading_count heading vs)
  then Err (Errorf "%s節が複数あります(%d節)" [AStr heading; AInt (heading_count heading vs)])
  else match section_view heading vs with
       | None => none
       | Some body => foldBody (λ _, g) ((λ l, (0, l)) <$> body) acc
       end.
Proof.
  unfold visible_lines. cbv zeta.
  destruct (findUniqueTaskSection ls heading) as [[k|]|e] eqn:E; simpl.
  - assert (heading_count heading (visible ls 0 0).*2 = 1) as Hn.
    { rewrite <-heading_count_visible.
      assert (scanHeadings heading ls 0 None 0 0 = (Some k, 1)) as Hs.
      { apply scanHeadings_unique. by apply findUniqueTaskSection_Some. }
      rewrite scanHeadings_spec in Hs. by simplify_eq/=. }
    rewrite Hn, decide_False by lia.
    apply findUniqueTaskSection_Some in E as (pre & line & post & -> & -> & Hf & Hl & Hpre & Hpost).
    rewrite sectionLoop_fold, foldBody_noindex. fold (section_lines (drop (S (length pre)) (pre ++ line :: post)) (S (length pre))).
    rewrite section_lines_snd. rewrite drop_app, drop_ge by lia.
    replace (S (length pre) - length pre) with 1 by lia. simpl. rewrite drop_0.
    fold (visible_lines (pre ++ line :: post) 0). rewrite visible_lines_app, Hf.
    rewrite visible_lines_cons by by apply is_h2_no_backticks, (is_heading_h2 heading).
    rewrite section_view_app; [done| |done].
    unfold visible_lines. by rewrite Forall_fmap.
  - apply findUniqueTaskSection_None in E.
    assert (heading_count heading (visible ls 0 0).*2 = 0) as Hn.
    { rewrite <-heading_count_visible. apply headings_nil in E. by rewrite E. }
    rewrite Hn, decide_False by lia. by apply section_view_none in Hn as ->.
  - unfold findUniqueTaskSection in E. rewrite scanHeadings_spec in E. simpl in E.
    rewrite heading_count_visible in E. repeat case_decide; by simplify_eq/=.
Qed.

(** The section lookup, and what a loop over the found section reads. *)
Lemma unique_section ls heading :
  let vs := visible_lines ls 0 in
  match findUniqueTaskSection ls heading with
  | Ok (Some k) => heading_count heading vs ≤ 1 ∧
      ∃ body, section_view heading vs = Some body ∧
        ∀ A (g : string → A → result error A) acc,
          sectionLoop (λ _, g) (drop (S k) ls) (S k) 0 acc =
            foldBody (λ _, g) ((λ l, (0, l)) <$> body) acc
  | Ok None => heading_count heading vs ≤ 1 ∧ section_view heading vs = None
  | Err _ => 1 < heading_count heading vs
  end.
Proof.
  intros vs. destruct (findUniqueTaskSection ls heading) as [[k|]|e] eqn:E.
  - pose proof (λ A (g : string → A → result error A) acc,
      section_parse g acc (Ok acc) ls heading) as P.
    rewrite E in P. cbv zeta in P. cbn [mbind result_bind] in P. fold vs in P.
    apply findUniqueTaskSection_Some in E as (pre & line & post & -> & -> & Hf & Hl & Hpre & Hpost).
    assert (section_view heading vs = Some (take_until is_h2 (visible_lines post 0))) as Hv.
    { unfold vs. rewrite visible_lines_app, Hf, visible_lines_cons
        by by apply is_h2_no_backticks, (is_heading_h2 heading).
      rewrite section_view_app; [done| |done]. unfold visible_lines. by rewrite Forall_fmap. }
    assert (heading_count heading vs ≤ 1) as Hc.
    { destruct (decide (1 < heading_count heading vs)); [|lia].
      pose proof (P _ (λ _ (_ : unit), Ok ()) ()) as P0.
      rewrite sectionLoop_fold in P0.
      clear - P0. exfalso. revert P0. generalize (take_until (λ p : nat * string, is_h2 p.2)
        (visible (drop (S (length pre)) (pre ++ line :: post)) (S (length pre)) 0)).
      intros l. induction l as [|[] l IH]; [done|]. apply IH. }
    split; [done|]. exists (take_until is_h2 (visible_lines post 0)). split; [done|].
    intros A g acc. rewrite P, Hv, decide_False by lia. done.
  - apply findUniqueTaskSection_None in E.
    assert (heading_count heading vs = 0) as Hn.
    { unfold vs, visible_lines. rewrite <-heading_count_visible. apply headings_nil in E.
      by rewrite E. }
    split; [lia|]. by apply section_view_none.
  - unfold findUniqueTaskSection in E. rewrite scanHeadings_spec in E. simpl in E.
    rewrite heading_count_visible in E. unfold vs, visible_lines. by case_decide.
Qed.

(** A body whose line number only shows in its errors. *)
Lemma sectionLoop_ok_index {E A} (body : nat → string → A → result E A) ls i f acc r :
  (∀ i j l a r, body i l a = Ok r → body j l a = Ok r) →
  sectionLoop body ls i f acc = Ok r ↔ sectionLoop (λ _, body 0) ls i f acc = Ok r.
Proof.
  intros H. revert i f acc. induction ls as [|l ls IH]; intros i f acc; simpl; [done|].
  destruct (lineOutsideFence l f) as [[] f']; simpl; [|apply IH].
  destruct (HasPrefix l "## "); [done|]. rewrite !result_bind_Ok.
  setoid_rewrite IH. naive_solver.
Qed.
