(* ===== verification/TaskContract.v ===== *)
(** * Task files: path contract and external-feasibility declaration

    Models [internal/taskcontract/task.go]: the placement contract of task
    files below [IMPLEMENTATION_TASKS] and the parser and admission rules of
    the [## External feasibility] section. *)
From S2P Require Import Prelude GoStrings TaskLines.

Definition TasksDir : string := "IMPLEMENTATION_TASKS".
Notation slash := "/"%char (only parsing).

(** ** Task paths *)

Definition bad_segment (segment : string) : bool :=
  bool_decide (segment = "" ∨ segment = "." ∨ segment = "..").

Definition err_task_prefix (path : string) : error :=
  Errorf "ACTIVE task path %qは%s配下である必要があります" [AStr path; AStr TasksDir].
Definition err_task_placement (path : string) : error :=
  Errorf "ACTIVE task path %qが配置契約に違反しています" [AStr path].
Definition err_task_suffix (path : string) : error :=
  Errorf "ACTIVE task path %qが配置契約に違反しています(.md fileに限定)" [AStr path].

Definition ValidateActiveTaskPath (path : string) : result error unit :=
  let prefix := TasksDir +:+ "/" in
  reject! negb (HasPrefix path prefix) with err_task_prefix path;
  let rest := TrimPrefix path prefix in
  reject! bool_decide (rest = "") || Contains rest "\" || Contains rest "//"
    with err_task_placement path;
  reject! negb (HasSuffix path ".md") with err_task_suffix path;
  reject! existsb bad_segment (Split rest slash) with err_task_placement path;
  Ok ().

(** ** External feasibility *)

Record ExternalFeasibility := {
  ef_Status : string;
  ef_Assumption : string;
  ef_EvidenceSource : string;
  ef_Evidence : string;
  ef_GoDecision : string;
}.

Inductive FeasibilityRejectKind :=
  | FeasibilityRejectMissing
  | FeasibilityRejectMalformed
  | FeasibilityRejectUnverified.

Record FeasibilityError := feasibilityError {
  fe_Kind : FeasibilityRejectKind;
  fe_Reason : error;
}.

Definition ExternalFeasibilityHeading : string := "## External feasibility".
Definition StatusNotApplicable : string := "not-applicable".
Definition StatusPoC : string := "poc".
Definition StatusObservation : string := "observation".
Definition StatusImplementation : string := "implementation".
Definition evidenceProducer : string := "producer".
Definition feasibilityFieldKeys : list string :=
  ["status"; "assumption"; "evidence-source"; "evidence"; "go"].

Definition knownFeasibilityKey (key : string) : bool :=
  existsb (λ known, bool_decide (key = known)) feasibilityFieldKeys.

(** Reading a missing key of a Go map yields the zero value. *)
Definition field (values : gmap string string) (key : string) : string :=
  default "" (values !! key).

Definition malformed (fmt : string) (args : list arg) : FeasibilityError :=
  feasibilityError FeasibilityRejectMalformed (Errorf fmt args).
Definition unverified (fmt : string) (args : list arg) : FeasibilityError :=
  feasibilityError FeasibilityRejectUnverified (Errorf fmt args).

Definition missing_section : FeasibilityError :=
  feasibilityError FeasibilityRejectMissing
    (Errorf "External feasibility節(%s)がありません" [AStr ExternalFeasibilityHeading]).
Definition findFeasibilitySection (ls : list string) : result FeasibilityError nat :=
  let '(headingAt, sections) := scanHeadings ExternalFeasibilityHeading ls 0 None 0 0 in
  if decide (sections = 0) then Err missing_section
  else if decide (1 < sections) then
    Err (malformed "External feasibility節が複数あります(%d節)" [AInt sections])
  else match headingAt with Some at_ => Ok at_ | None => Err missing_section end.

Definition addFeasibilityValue (values : gmap string string) (line : string)
    (lineNumber : nat) : result FeasibilityError (gmap string string) :=
  let '(key, value, ok) := Cut line ":" in
  let key := TrimSpace key in
  let value := TrimSpace value in
  reject! negb ok || negb (knownFeasibilityKey key)
    with malformed "External feasibility節の%d行目 %qがkey: value形式ではありません(使えるkey: %s)"
           [AInt lineNumber; AStr line; AStr (Join feasibilityFieldKeys ", ")];
  reject! bool_decide (is_Some (values !! key))
    with malformed "External feasibility節のkey %qが重複しています" [AStr key];
  reject! bool_decide (value = "")
    with malformed "External feasibility節のkey %qのvalueが空です" [AStr key];
  Ok (<[key := value]> values).

Definition parseFeasibilityValues (ls : list string) (headingAt : nat) :
    result FeasibilityError (gmap string string) :=
  sectionLoop (λ index line values,
    let trimmed := TrimSpace line in
    if bool_decide (trimmed = "") then Ok values
    else addFeasibilityValue values trimmed (S index))
  (drop (S headingAt) ls) (S headingAt) 0 ∅.

Definition validateNotApplicable (values : gmap string string) : result FeasibilityError unit :=
  match find (λ key, negb (bool_decide (field values key = ""))) (tail feasibilityFieldKeys) with
  | Some key => Err (malformed
      "not-applicableではstatus以外のkey(%s)を書けません。外部前提がある場合はpoc/observation/implementationを宣言してください"
      [AStr key])
  | None => Ok ()
  end.

Definition validateExploration (status : string) (values : gmap string string) :
    result FeasibilityError unit :=
  reject! bool_decide (field values "assumption" = "")
    with malformed "%sでは未検証外部前提を表すassumptionが必須です" [AStr status];
  match find (λ key, negb (bool_decide (field values key = "")))
          ["evidence-source"; "evidence"; "go"] with
  | Some key => Err (malformed
      "%sでは%sを書けません。implementation昇格は親Codexが宣言全体を書き換えて行います"
      [AStr status; AStr key])
  | None => Ok ()
  end.

Definition validateImplementation (values : gmap string string) : result FeasibilityError unit :=
  reject! bool_decide (field values "assumption" = "")
    with malformed "implementationでは前提とした外部成立性のassumptionが必須です" [];
  reject! bool_decide (field values "evidence-source" = "") || bool_decide (field values "evidence" = "")
      || bool_decide (field values "go" = "")
    with unverified "implementationはevidence-source・evidence・go(親Go判断)の全てが必須です。PoC結果をGLMだけでGoへ昇格させない" [];
  reject! negb (bool_decide (field values "evidence-source" = evidenceProducer))
    with unverified "implementationのevidence-sourceは実producer由来の %q だけです(人工fixture・scripted packet・worker/reviewer PASSは不可)"
           [AStr evidenceProducer];
  Ok ().

Definition validateFeasibilityStatus (status : string) (values : gmap string string) :
    result FeasibilityError unit :=
  if bool_decide (status = "") then
    Err (malformed "External feasibility節にstatusがありません(not-applicable/poc/observation/implementation)" [])
  else if bool_decide (status = StatusNotApplicable) then validateNotApplicable values
  else if bool_decide (status = StatusPoC) || bool_decide (status = StatusObservation) then
    validateExploration status values
  else if bool_decide (status = StatusImplementation) then validateImplementation values
  else Err (malformed "External feasibilityのstatus %qは未知です(not-applicable/poc/observation/implementation)"
              [AStr status]).

Definition validateFeasibilityFields (values : gmap string string) :
    result FeasibilityError ExternalFeasibility :=
  let status := field values "status" in
  _ ← validateFeasibilityStatus status values;
  Ok {| ef_Status := status;
        ef_Assumption := field values "assumption";
        ef_EvidenceSource := field values "evidence-source";
        ef_Evidence := field values "evidence";
        ef_GoDecision := field values "go" |}.

Definition ParseExternalFeasibility (content : string) :
    result FeasibilityError ExternalFeasibility :=
  let ls := lines content in
  headingAt ← findFeasibilitySection ls;
  values ← parseFeasibilityValues ls headingAt;
  validateFeasibilityFields values.

(** ** Task path contract *)

(** A well-placed task path: [IMPLEMENTATION_TASKS/] followed by one or more
    proper path segments, no backslash, and the [.md] extension. *)
Definition task_path (path : string) : Prop :=
  ∃ segments, segments ≠ [] ∧
    Forall (λ s, no_char slash s ∧ no_char "\" s ∧ s ≠ "" ∧ s ≠ "." ∧ s ≠ "..") segments ∧
    path = TasksDir +:+ "/" +:+ Join segments "/" ∧ HasSuffix path ".md" = true.

Lemma Split_no_char_other s c d :
  no_char d s ↔ d = c ∧ Split s c = [s] ∧ no_char d s ∨
                d ≠ c ∧ Forall (no_char d) (Split s c).
Proof.
  destruct (decide (d = c)) as [->|Hd].
  { split; [|naive_solver]. intros H. left. by rewrite Split_no_sep. }
  enough (no_char d s ↔ Forall (no_char d) (Split s c)) by naive_solver.
  induction s as [|e s IH]; simpl; [split; [by repeat constructor|done]|].
  case_decide as He.
  - subst. rewrite Forall_cons. naive_solver.
  - rewrite IH. destruct (Split_cons s c) as (l & ls & ->).
    rewrite !Forall_cons; simpl. naive_solver.
Qed.

Lemma Split_double_sep s c :
  Contains s (String c (String c "")) = true → "" ∈ Split s c.
Proof.
  rewrite Contains_true. intros (a & b & ->).
  rewrite app_cons_str, Split_app_sep, app_cons_str, app_nil_l_str. simpl.
  rewrite decide_True by done. set_solver.
Qed.

Lemma bad_segment_false s : bad_segment s = false ↔ s ≠ "" ∧ s ≠ "." ∧ s ≠ "..".
Proof. unfold bad_segment. rewrite bool_decide_eq_false. naive_solver. Qed.

Lemma task_path_rest path :
  task_path path ↔
  ∃ rest, path = TasksDir +:+ "/" +:+ rest ∧ no_char "\" rest ∧
    Forall (λ s, bad_segment s = false) (Split rest slash) ∧ HasSuffix path ".md" = true.
Proof.
  unfold task_path. setoid_rewrite bad_segment_false. split.
  - intros (segs & Hne & Hs & -> & Hmd). exists (Join segs "/"). split_and!; [done| | |done].
    + apply (Split_no_char_other _ slash). right. split; [done|].
      rewrite Split_Join; [|done|]; eapply Forall_impl; [exact Hs|naive_solver|exact Hs|naive_solver].
    + rewrite Split_Join; [|done|]; eapply Forall_impl; [exact Hs|naive_solver|exact Hs|naive_solver].
  - intros (rest & -> & Hb & Hs & Hmd). exists (Split rest slash).
    apply (Split_no_char_other _ slash) in Hb as [(?&_)|[_ Hb]]; [done|].
    split_and!; [apply Split_ne| |by rewrite Join_Split|done].
    pose proof (Split_no_char rest slash) as Hc.
    apply Forall_lookup. intros i s Hi.
    rewrite Forall_lookup in Hb, Hs, Hc. naive_solver.
Qed.

Lemma ValidateActiveTaskPath_iff path :
  ValidateActiveTaskPath path = Ok () ↔ task_path path.
Proof.
  rewrite task_path_rest. unfold ValidateActiveTaskPath. split.
  - intros H. result_inv H. bool_simp.
    apply HasPrefix_true in Hc as [rest Hr]. exists rest.
    rewrite Hr, app_assoc_str in *. clear Hr.
    rewrite <-app_assoc_str, TrimPrefix_app, app_assoc_str in *.
    split_and!; [done|by apply Contains_byte|by apply existsb_false|done].
  - intros (rest & -> & Hb & Hs & Hmd).
    rewrite <-app_assoc_str in *. rewrite HasPrefix_app, TrimPrefix_app, Hmd. simpl.
    apply Contains_byte in Hb. rewrite Hb.
    rewrite (proj2 (existsb_false _ _)) by done.
    rewrite bool_decide_eq_false_2; [simpl|].
    + destruct (Contains rest "//") eqn:E; [|done].
      apply Split_double_sep in E. by eapply Forall_forall in Hs; [|exact E].
    + intros ->. by apply Forall_inv in Hs.
Qed.

Lemma ValidateActiveTaskPath_unit path u :
  ValidateActiveTaskPath path = Ok u ↔ task_path path.
Proof. destruct u. apply ValidateActiveTaskPath_iff. Qed.

(** [ValidateActiveTaskPath] accepts exactly the well-placed task paths. *)
Theorem ValidateActiveTaskPath_spec path :
  ValidateActiveTaskPath path = Ok () ↔
  ∃ segments, segments ≠ [] ∧
    Forall (λ s, no_char slash s ∧ no_char "\" s ∧ s ≠ "" ∧ s ≠ "." ∧ s ≠ "..") segments ∧
    path = TasksDir +:+ "/" +:+ Join segments "/" ∧ HasSuffix path ".md" = true.
Proof. apply ValidateActiveTaskPath_iff. Qed.

(** ** Admission of a feasibility declaration *)

Definition declaration (values : gmap string string) : ExternalFeasibility :=
  {| ef_Status := field values "status";
     ef_Assumption := field values "assumption";
     ef_EvidenceSource := field values "evidence-source";
     ef_Evidence := field values "evidence";
     ef_GoDecision := field values "go" |}.

(** The declarations the contract admits: no external premise at all; an
    exploration that names an assumption and claims no evidence; an
    implementation whose assumption is backed by producer evidence and the
    parent's go decision. *)
Inductive admitted : ExternalFeasibility → Prop :=
  | admitted_not_applicable :
      admitted (Build_ExternalFeasibility StatusNotApplicable "" "" "" "")
  | admitted_exploration status assumption :
      status = StatusPoC ∨ status = StatusObservation → assumption ≠ "" →
      admitted (Build_ExternalFeasibility status assumption "" "" "")
  | admitted_implementation assumption evidence go :
      assumption ≠ "" → evidence ≠ "" → go ≠ "" →
      admitted (Build_ExternalFeasibility StatusImplementation assumption
                  evidenceProducer evidence go).

Lemma validateNotApplicable_Ok values :
  validateNotApplicable values = Ok () ↔
  field values "assumption" = "" ∧ field values "evidence-source" = "" ∧
  field values "evidence" = "" ∧ field values "go" = "".
Proof.
  unfold validateNotApplicable. simpl.
  repeat case_bool_decide; simpl; naive_solver.
Qed.
Lemma validateExploration_Ok status values :
  validateExploration status values = Ok () ↔
  field values "assumption" ≠ "" ∧ field values "evidence-source" = "" ∧
  field values "evidence" = "" ∧ field values "go" = "".
Proof.
  unfold validateExploration. simpl. repeat case_bool_decide; simpl; naive_solver.
Qed.
Lemma validateImplementation_Ok values :
  validateImplementation values = Ok () ↔
  field values "assumption" ≠ "" ∧ field values "evidence-source" = evidenceProducer ∧
  field values "evidence" ≠ "" ∧ field values "go" ≠ "".
Proof.
  unfold validateImplementation. repeat case_bool_decide; simpl; try naive_solver.
  unfold evidenceProducer in *. naive_solver congruence.
Qed.

Lemma validateFeasibilityFields_iff values d :
  validateFeasibilityFields values = Ok d ↔ d = declaration values ∧ admitted d.
Proof.
  unfold validateFeasibilityFields, validateFeasibilityStatus.
  rewrite result_bind_Ok. split.
  - intros ([] & H & [= <-]). split; [done|]. revert H. unfold declaration.
    case_bool_decide; [done|].
    case_bool_decide as Hna; [|case_bool_decide as Hpoc; [|case_bool_decide as Hobs;
      [|case_bool_decide as Himp; [|done]]]]; simpl.
    + intros (-> & -> & -> & ->)%validateNotApplicable_Ok. rewrite Hna. constructor.
    + intros (? & -> & -> & ->)%validateExploration_Ok. constructor; auto.
    + intros (? & -> & -> & ->)%validateExploration_Ok. constructor; auto.
    + intros (? & -> & ? & ?)%validateImplementation_Ok. rewrite Himp. by constructor.
  - intros [-> Ha]. exists (). split; [|done]. unfold declaration in Ha.
    inversion Ha as [E|status a Hs ? E|a e g ??? E]; clear Ha; simplify_eq.
    + replace (field values "status") with StatusNotApplicable by congruence. simpl.
      apply validateNotApplicable_Ok. naive_solver.
    + assert (validateExploration (field values "status") values = Ok ()) as Hv.
      { apply validateExploration_Ok. naive_solver. }
      by destruct Hs as [E|E]; rewrite E in *; simpl.
    + replace (field values "status") with StatusImplementation by congruence. simpl.
      apply validateImplementation_Ok. naive_solver.
Qed.

(** a section's values are admitted exactly when they form an admitted
    declaration, which is the one returned. *)
Theorem validateFeasibilityFields_spec values d :
  validateFeasibilityFields values = Ok d ↔ d = declaration values ∧ admitted d.
Proof. apply validateFeasibilityFields_iff. Qed.

(** The [unverified] rejection (the one callers may surface as "premise not
    yet verified") is raised exactly for an implementation that names its
    assumption but lacks producer evidence or the go decision. *)
Theorem validateFeasibilityFields_unverified values :
  (∃ e, validateFeasibilityFields values = Err e ∧ fe_Kind e = FeasibilityRejectUnverified) ↔
  field values "status" = StatusImplementation ∧ field values "assumption" ≠ "" ∧
  ¬ (field values "evidence-source" = evidenceProducer ∧ field values "evidence" ≠ "" ∧
     field values "go" ≠ "").
Proof.
  unfold validateFeasibilityFields, validateFeasibilityStatus.
  setoid_rewrite result_bind_Err.
  split.
  - intros (e & [H|(? & _ & ?)] & Hk); [|done]. revert H.
    case_bool_decide; [intros; simplify_eq/=; done|].
    case_bool_decide.
    { unfold validateNotApplicable. case_match; intros; simplify_eq/=; done. }
    destruct (bool_decide _ || bool_decide _).
    { unfold validateExploration. repeat case_match; intros; simplify_eq/=; done. }
    case_bool_decide; [|intros; simplify_eq/=; done].
    intros Hv; split; [done|]; revert Hv. unfold validateImplementation.
    repeat case_bool_decide; simpl; intros; simplify_eq/=; try done;
      (split; [done|]); intros (?&?&?); unfold evidenceProducer in *; congruence.
  - intros (-> & Ha & Hn).
    assert (∃ e, validateImplementation values = Err e ∧ fe_Kind e = FeasibilityRejectUnverified)
      as (e & He & Hk); [|by exists e; split; [left|]].
    unfold validateImplementation.
    rewrite (bool_decide_eq_false_2 (field values "assumption" = "")) by done.
    repeat (case_bool_decide; simpl); eauto. by destruct Hn.
Qed.

(** ** Round trip *)

Definition declaration_pairs (d : ExternalFeasibility) : list (string * string) :=
  [("status", ef_Status d); ("assumption", ef_Assumption d);
   ("evidence-source", ef_EvidenceSource d); ("evidence", ef_Evidence d);
   ("go", ef_GoDecision d)].
Definition render_pair (p : string * string) : string := p.1 +:+ String ":" (String " " p.2).
(** One [key: value] line per non-empty field, below the heading. *)
Definition render_declaration (d : ExternalFeasibility) : list string :=
  ExternalFeasibilityHeading :: (render_pair <$> filter (λ p, p.2 ≠ "") (declaration_pairs d)).

(** Values that survive a [key: value] line: trimmed and on one line. *)
Definition clean_value (v : string) : Prop := TrimSpace v = v ∧ no_char LF v.
Definition clean_declaration (d : ExternalFeasibility) : Prop :=
  Forall (λ p, clean_value p.2) (declaration_pairs d).

Lemma known_key_shape key :
  knownFeasibilityKey key = true →
  TrimSpace key = key ∧ no_char ":" key ∧ no_char LF key ∧
  leadingBackticks key = 0 ∧ ∃ c k, key = String c k ∧ graphic c = true ∧ c ≠ "#"%char ∧ c ≠ backtick.
Proof.
  unfold knownFeasibilityKey. rewrite existsb_exists.
  intros (k & Hk & ->%bool_decide_eq_true). simpl in Hk.
  repeat destruct Hk as [<-|Hk]; [..|done];
    (split_and!; [by vm_compute|by vm_compute|by vm_compute|done|eauto 10]).
Qed.

Lemma addFeasibilityValue_render values key v n :
  knownFeasibilityKey key = true → values !! key = None → v ≠ "" → TrimSpace v = v →
  TrimSpace (render_pair (key, v)) = render_pair (key, v) ∧
  addFeasibilityValue values (render_pair (key, v)) n = Ok (<[key := v]> values).
Proof.
  intros Hk Hnone Hne Hv.
  destruct (known_key_shape key Hk) as (Ht & Hc & _ & _ & c & k & E & Hg & _).
  unfold render_pair; simpl. split.
  - rewrite E, app_cons_str. change (String ":" (String " " v)) with (":" +:+ String " " v).
    rewrite <-app_assoc_str. by apply TrimSpace_key_value.
  - unfold addFeasibilityValue. rewrite Cut_byte by done. rewrite Ht, Hk; simpl.
    rewrite Hnone, TrimSpace_blank, Hv by done.
    rewrite !bool_decide_eq_false_2; [done|done|by intros [??]].
Qed.

Lemma render_pair_plain key v :
  knownFeasibilityKey key = true → no_char LF v →
  plain_line (render_pair (key, v)) ∧ no_char LF (render_pair (key, v)).
Proof.
  intros Hk Hv. destruct (known_key_shape key Hk) as (_ & _ & Hl & _ & c & k & E & _ & Hh & Hb).
  unfold plain_line, render_pair, is_h2; simpl. split; [split|].
  - rewrite E, app_cons_str; simpl. by rewrite decide_False.
  - apply not_true_is_false. rewrite HasPrefix_true, E, app_cons_str.
    intros [r Hr]. apply Hh. by injection Hr.
  - apply no_char_app. simpl. naive_solver.
Qed.

Lemma addFeasibilityValue_line values line n :
  is_ok (addFeasibilityValue values line 0) = true →
  addFeasibilityValue values line n = addFeasibilityValue values line 0.
Proof.
  unfold addFeasibilityValue. destruct (Cut line ":") as [[k v] ok].
  by destruct (negb ok || negb (knownFeasibilityKey (TrimSpace k))).
Qed.

Definition add_line (_ : nat) (line : string) (values : gmap string string) :=
  let trimmed := TrimSpace line in
  if bool_decide (trimmed = "") then Ok values else addFeasibilityValue values trimmed 0.

Lemma foldBody_render (ps : list (string * string)) acc i
    (body : nat → string → gmap string string → result FeasibilityError (gmap string string)) :
  (∀ i line values, is_ok (add_line i line values) = true →
    body i line values = add_line i line values) →
  NoDup ps.*1 → Forall (λ p, knownFeasibilityKey p.1 = true ∧ p.2 ≠ "" ∧ TrimSpace p.2 = p.2) ps →
  (∀ k, k ∈ ps.*1 → acc !! k = None) →
  foldBody body (imap (λ j l, (i + j, l)) (render_pair <$> ps)) acc = Ok (list_to_map ps ∪ acc).
Proof.
  intros Hbody. revert acc i. induction ps as [|[k v] ps IH]; intros acc i Hnd Hps Hacc; simpl.
  { by rewrite (left_id_L ∅ (∪)). }
  apply NoDup_cons in Hnd as [Hk Hnd].
  apply Forall_cons in Hps as [(Hkey & Hne & Hv) Hps]; simpl in *.
  destruct (addFeasibilityValue_render acc k v 0) as [Ht Hadd]; [done|apply Hacc; set_solver|done..|].
  assert (add_line 0 (render_pair (k, v)) acc = Ok (<[k:=v]> acc)) as Hal.
  { unfold add_line. rewrite Ht. rewrite bool_decide_eq_false_2; [done|].
    destruct (known_key_shape k Hkey) as (_ & _ & _ & _ & c & k' & -> & _). done. }
  rewrite Hbody by (change (is_ok (add_line 0 (render_pair (k, v)) acc) = true); by rewrite Hal).
  change (add_line (i + 0) (render_pair (k, v)) acc) with (add_line 0 (render_pair (k, v)) acc).
  rewrite Hal; simpl.
  rewrite (imap_ext _ (λ j l, (S i + j, l))) by (intros; simpl; by rewrite Nat.add_succ_r).
  rewrite IH; [|done..|].
  - simpl. rewrite <-insert_union_r, insert_union_l; [done|]. by apply not_elem_of_list_to_map.
  - intros k' Hk'. rewrite lookup_insert_ne by (intros ->; done). apply Hacc. set_solver.
Qed.

Lemma field_filter_nonempty (ps : list (string * string)) k :
  NoDup ps.*1 →
  field (list_to_map (filter (λ p, p.2 ≠ "") ps)) k = field (list_to_map ps) k.
Proof.
  unfold field. induction ps as [|[k' v] ps IH]; intros Hnd; [done|].
  apply NoDup_cons in Hnd as [Hk Hnd]. rewrite filter_cons; simpl.
  destruct (decide (k = k')) as [->|Hne].
  - rewrite lookup_insert_eq. case_decide as Hv; [by rewrite list_to_map_cons, lookup_insert_eq|].
    rewrite IH by done. destruct (decide (v = "")) as [->|]; [simpl|done].
    by rewrite (not_elem_of_list_to_map_1 ps k') by done.
  - rewrite lookup_insert_ne by done.
    case_decide; [rewrite list_to_map_cons, lookup_insert_ne by done|]; by apply IH.
Qed.

Lemma declaration_of_pairs d :
  declaration (list_to_map (filter (λ p, p.2 ≠ "") (declaration_pairs d))) = d.
Proof.
  unfold declaration. rewrite !field_filter_nonempty by (by vm_compute; repeat constructor; set_solver).
  by destruct d.
Qed.

(** The surrounding text: complete lines, balanced fences before the section,
    no second declaration, and a section boundary after it. *)
Definition feasibility_context (pre post : list string) : Prop :=
  Forall (no_char LF) pre ∧ Forall (no_char LF) post ∧ fence_after pre 0 = 0 ∧
  no_heading ExternalFeasibilityHeading (visible pre 0 0) ∧
  no_heading ExternalFeasibilityHeading (visible post 0 0) ∧ section_end post.

Lemma rendered_pairs d :
  clean_declaration d →
  Forall (λ p, p.2 ≠ "" ∧ knownFeasibilityKey p.1 = true ∧ clean_value p.2)
    (filter (λ p, p.2 ≠ "") (declaration_pairs d)).
Proof.
  intros Hd. apply (Forall_filter_keep (λ p, p.2 ≠ "")).
  apply Forall_and. split; [|exact Hd].
  by repeat (apply Forall_cons; split; [by vm_compute|]).
Qed.
Lemma render_declaration_lines d :
  clean_declaration d →
  Forall (no_char LF) (render_declaration d) ∧ Forall plain_line (tail (render_declaration d)).
Proof.
  intros Hd. unfold render_declaration; simpl.
  pose proof (rendered_pairs d Hd) as Hf.
  rewrite Forall_cons, !Forall_fmap. split_and!; [by vm_compute|..];
    eapply Forall_impl; [exact Hf| |exact Hf|]; intros [k v] (_ & Hk & _ & Hv); by apply render_pair_plain.
Qed.

(** Writing an admitted declaration as the lines of a section and parsing the
    file gives the declaration back. *)
Theorem ParseExternalFeasibility_render pre post d :
  admitted d → clean_declaration d → feasibility_context pre post →
  ParseExternalFeasibility (Join (pre ++ render_declaration d ++ post) newline) = Ok d.
Proof.
  intros Ha Hd (Hpre & Hpost & Hf & Hn1 & Hn2 & Hend).
  destruct (render_declaration_lines d Hd) as [HLF Hplain].
  unfold ParseExternalFeasibility, lines.
  rewrite Split_Join; [|by destruct pre|by rewrite !Forall_app].
  set (body := tail (render_declaration d)) in *.
  change (render_declaration d) with (ExternalFeasibilityHeading :: body).
  assert (scanHeadings ExternalFeasibilityHeading
    (pre ++ (ExternalFeasibilityHeading :: body) ++ post) 0 None 0 0 = (Some (length pre), 1)) as Hscan.
  { apply scanHeadings_unique. exists pre, ExternalFeasibilityHeading, (body ++ post).
    split_and!; [done|done|done|by vm_compute|done|]. by apply no_heading_plain_app. }
  unfold findFeasibilitySection. rewrite Hscan; simpl.
  unfold parseFeasibilityValues. rewrite sectionLoop_fold.
  rewrite drop_app, drop_ge by lia. replace (S (length pre) - length pre) with 1 by lia. simpl.
  rewrite drop_0. fold (section_lines (body ++ post) (S (length pre))).
  rewrite section_lines_plain by done. unfold body; cbn [tail render_declaration].
  rewrite foldBody_render.
  - simpl. rewrite (right_id_L ∅ (∪)). apply validateFeasibilityFields_iff.
    by rewrite declaration_of_pairs.
  - intros i line values. unfold add_line. case_bool_decide; [done|].
    intros Hok. by rewrite !addFeasibilityValue_line by done.
  - apply NoDup_fmap_filter. by vm_compute; repeat constructor; set_solver.
  - eapply Forall_impl; [by apply rendered_pairs|]. intros [k v] (? & ? & ? & ?); done.
  - intros k _. apply lookup_empty.
Qed.
Definition sample_declaration : ExternalFeasibility := {|
  ef_Status := StatusImplementation; ef_Assumption := "API stays"; ef_EvidenceSource := "producer";
  ef_Evidence := "run 12"; ef_GoDecision := "yes" |}.
Lemma ParseExternalFeasibility_render_witness :
  let file := Join (["# Task"; ""] ++ render_declaration sample_declaration ++ ["## Goal"; "x"])
                newline in
  ParseExternalFeasibility file = Ok sample_declaration.
Proof.
  intros file. apply ParseExternalFeasibility_render.
  - by apply admitted_implementation.
  - unfold clean_declaration. repeat constructor; vm_compute; intuition discriminate.
  - unfold feasibility_context. split_and!;
      solve [by vm_compute | repeat constructor; vm_compute; intuition discriminate].
Defined.
