(* ===== verification/TaskDependencies.v ===== *)
(** * Task dependencies and review findings

    Models [internal/taskcontract/dependencies.go]: the outstanding and
    fulfilled dependency sections of a task file, the reference notation of
    their items, and the review-findings section. *)
From S2P Require Import Prelude GoStrings TaskLines TaskContract.

Record ReviewFindings := { rf_Present : bool; rf_None : bool }.
Record TaskDependencyState := {
  Outstanding : list string;
  Fulfilled : list string;
}.

Definition TaskDependenciesHeading : string := "## Dependencies".
Definition TaskFulfilledDependenciesHeading : string := "## Fulfilled dependencies".
Definition ReviewFindingsHeading : string := "## Review findings".
Definition reviewFindingsNone : string := "none".

(** [s[i:j]] *)
Definition slice (s : string) (i j : nat) : string := Stdlib.Strings.String.substring i (j - i) s.

(** The second result [false] is [None]. *)
Definition dependencyListItem (line : string) : option string :=
  let trimmed := TrimSpace line in
  if negb (HasPrefix trimmed "- ") then None
  else Some (TrimSpace (TrimPrefix trimmed "- ")).

Definition err_reference (item : string) : error :=
  Errorf "dependency項目 %qがDependencies欄のtask path参照記法(逆引用符1組で囲まれた単一task path、または逆引用符なしの直書き)へ違反しています"
    [AStr item].

(** [("", false, nil)] is [Ok None], [(p, true, nil)] is [Ok (Some p)]. *)
Definition dependencyItemPath (item : string) : result error (option string) :=
  if negb (Contains item (TasksDir +:+ "/")) then Ok None else
  match CountByte item backtick with
  | 0 => Ok (Some item)
  | 2 => if HasPrefix item "`" && HasSuffix item "`"
         then Ok (Some (slice item 1 (String.length item - 1)))
         else Err (err_reference item)
  | _ => Err (err_reference item)
  end.

Definition dependencyStep (line : string) (acc : gset string * list string) :
    result error (gset string * list string) :=
  let '(seen, paths) := acc in
  match dependencyListItem line with
  | None => Ok acc
  | Some item =>
      referenced ← dependencyItemPath item;
      match referenced with
      | None => Ok acc
      | Some path =>
          _ ← ValidateActiveTaskPath path;
          if bool_decide (path ∈ seen) then Ok acc
          else Ok ({[path]} ∪ seen, paths ++ [path])
      end
  end.
Definition parseDependencyPaths (ls : list string) (headingAt : nat) :
    result error (list string) :=
  snd <$> sectionLoop (λ _, dependencyStep) (drop (S headingAt) ls) (S headingAt) 0 (∅, []).

Definition parseTaskDependencySection (ls : list string) (heading : string)
    (required : bool) : result error (list string) :=
  headingAt ← findUniqueTaskSection ls heading;
  match headingAt with
  | None => if required then Err (Errorf "%s節がありません" [AStr heading]) else Ok []
  | Some at_ => parseDependencyPaths ls at_
  end.

Definition ParseTaskDependencyState (content : string) : result error TaskDependencyState :=
  let ls := lines content in
  outstanding ← parseTaskDependencySection ls TaskDependenciesHeading true;
  fulfilled ← parseTaskDependencySection ls TaskFulfilledDependenciesHeading false;
  let fulfilledSet : gset string := list_to_set fulfilled in
  match find (λ path, bool_decide (path ∈ fulfilledSet)) outstanding with
  | Some path => Err (Errorf "dependency %sが%sと%sの両方にあります"
      [AStr path; AStr TaskDependenciesHeading; AStr TaskFulfilledDependenciesHeading])
  | None => Ok {| Outstanding := outstanding; Fulfilled := fulfilled |}
  end.

Definition reviewFindingsBody (ls : list string) (headingAt : nat) : string :=
  match sectionLoop (E := Empty_set) (λ _ line body,
          let trimmed := TrimSpace line in
          if bool_decide (trimmed = "") then Ok body else Ok (body ++ [trimmed]))
        (drop (S headingAt) ls) (S headingAt) 0 [] with
  | Ok body => Join body newline
  | Err e => match e with end
  end.
Definition ParseReviewFindings (content : string) : result error ReviewFindings :=
  let ls := lines content in
  headingAt ← findUniqueTaskSection ls ReviewFindingsHeading;
  match headingAt with
  | None => Ok {| rf_Present := false; rf_None := true |}
  | Some at_ =>
      let body := reviewFindingsBody ls at_ in
      reject! bool_decide (body = "") || bool_decide (body = reviewFindingsNone)
        with Errorf "%s節は未解決findingがある場合だけ置き、findingなしは節自体を省略してください"
               [AStr ReviewFindingsHeading];
      Ok {| rf_Present := true; rf_None := false |}
  end.

(** ** The parsed dependency state *)

Definition dep_fold (ls : list string) (acc : gset string * list string) :
    result error (gset string * list string) :=
  foldBody (λ _, dependencyStep) ((λ l, (0, l)) <$> ls) acc.

Lemma dep_fold_app ls1 ls2 acc : dep_fold (ls1 ++ ls2) acc = dep_fold ls1 acc ≫= dep_fold ls2.
Proof. unfold dep_fold. by rewrite fmap_app, foldBody_app. Qed.

Lemma dep_fold_cons l ls acc : dep_fold (l :: ls) acc = dependencyStep l acc ≫= dep_fold ls.
Proof. done. Qed.

(** A dependency section depends on the visible lines of the file only. *)
Lemma parseTaskDependencySection_view ls heading required :
  parseTaskDependencySection ls heading required =
    let vs := visible_lines ls 0 in
    if decide (1 < heading_count heading vs)
    then Err (Errorf "%s節が複数あります(%d節)" [AStr heading; AInt (heading_count heading vs)])
    else match section_view heading vs with
         | None => if required then Err (Errorf "%s節がありません" [AStr heading]) else Ok []
         | Some body => snd <$> dep_fold body (∅, [])
         end.
Proof.
  unfold parseTaskDependencySection, parseDependencyPaths.
  pose proof (section_parse dependencyStep (∅, [])
    (Err (Errorf "" [])) ls heading) as E. cbv zeta in *.
  destruct (findUniqueTaskSection ls heading) as [[k|]|e] eqn:F; simpl in *.
  - rewrite E. case_decide; [done|]. destruct (section_view _ _) eqn:Hv; [done|].
    apply findUniqueTaskSection_Some in F as (pre & l & post & -> & _ & Hf & Hl & Hpre & _).
    rewrite visible_lines_app, Hf, visible_lines_cons in Hv
      by by apply is_h2_no_backticks, (is_heading_h2 heading).
    rewrite section_view_app in Hv; [done| |done].
    unfold visible_lines. by rewrite Forall_fmap.
  - case_decide; [done|]. by destruct (section_view _ _) eqn:Hv;
      [apply findUniqueTaskSection_None, headings_nil in F;
       apply (f_equal length) in F; rewrite heading_count_visible in F;
       apply section_view_none in F; unfold visible_lines in Hv; rewrite F in Hv|].
  - case_decide; [by injection E as <-|].
    unfold findUniqueTaskSection in F. rewrite scanHeadings_spec in F. simpl in F.
    rewrite heading_count_visible in F. unfold visible_lines in *. by case_decide.
Qed.

Definition dep_invariant (acc : gset string * list string) : Prop :=
  NoDup acc.2 ∧ Forall task_path acc.2 ∧ acc.1 = list_to_set acc.2.

Lemma dependencyStep_invariant line acc acc' :
  dependencyStep line acc = Ok acc' → dep_invariant acc → dep_invariant acc'.
Proof.
  unfold dependencyStep. destruct acc as [seen paths]. intros H (Hnd & Hp & Hs); simpl in *.
  destruct (dependencyListItem line); [|by simplify_eq].
  apply result_bind_Ok in H as ([path|] & _ & H); [|by simplify_eq].
  apply result_bind_Ok in H as ([] & Hv%ValidateActiveTaskPath_unit & H).
  case_bool_decide as Hin; simplify_eq; [done|]. unfold dep_invariant; simpl.
  rewrite NoDup_app, Forall_app, Forall_singleton, list_to_set_app_L; simpl.
  split_and!; [done|set_solver|apply NoDup_singleton|done|done|set_solver].
Qed.
Lemma dep_fold_invariant ls acc acc' :
  dep_fold ls acc = Ok acc' → dep_invariant acc → dep_invariant acc'.
Proof.
  unfold dep_fold. revert acc. induction ls as [|l ls IH]; intros acc; simpl; [by intros [= <-]|].
  rewrite result_bind_Ok. intros (a & Ha & H) Hi. eapply IH; [exact H|].
  by eapply dependencyStep_invariant.
Qed.
Lemma parseTaskDependencySection_Ok ls heading required ps :
  parseTaskDependencySection ls heading required = Ok ps → NoDup ps ∧ Forall task_path ps.
Proof.
  rewrite parseTaskDependencySection_view. cbv zeta. case_decide; [done|].
  destruct (section_view _ _) as [body|].
  - destruct (dep_fold body (∅, [])) as [[s ps']|] eqn:E; [|done]. intros [= <-].
    apply dep_fold_invariant in E as (? & ? & _); [done|].
    by split_and!; [constructor|constructor|].
  - destruct required; [done|]. intros [= <-]. by split; constructor.
Qed.

Lemma ParseTaskDependencyState_sections content st :
  ParseTaskDependencyState content = Ok st →
  parseTaskDependencySection (lines content) TaskDependenciesHeading true = Ok (Outstanding st) ∧
  parseTaskDependencySection (lines content) TaskFulfilledDependenciesHeading false
    = Ok (Fulfilled st) ∧
  ∀ p, p ∈ Outstanding st → p ∉ Fulfilled st.
Proof.
  unfold ParseTaskDependencyState. intros H.
  apply result_bind_Ok in H as (os & Ho & H). apply result_bind_Ok in H as (fs & Hf & H).
  destruct (find _ os) eqn:E; [done|]. simplify_eq; simpl. split_and!; [done..|].
  apply find_none_forall in E. rewrite Forall_forall in E. intros p Hp.
  specialize (E p Hp). apply bool_decide_eq_false in E. set_solver.
Qed.

(** An admitted dependency state lists each path once, every path is a
    well-placed task path, and no path is both outstanding and fulfilled. *)
Theorem ParseTaskDependencyState_sound content st :
  ParseTaskDependencyState content = Ok st →
  NoDup (Outstanding st ++ Fulfilled st) ∧
  Forall task_path (Outstanding st ++ Fulfilled st).
Proof.
  intros (Ho & Hf & Hd)%ParseTaskDependencyState_sections.
  apply parseTaskDependencySection_Ok in Ho as [??], Hf as [??].
  by rewrite NoDup_app, Forall_app.
Qed.
Definition sample_dependencies : string :=
  "## Dependencies
- `IMPLEMENTATION_TASKS/a.md`
- none yet
## Fulfilled dependencies
- IMPLEMENTATION_TASKS/b.md".
Lemma ParseTaskDependencyState_sound_witness :
  let st := {| Outstanding := ["IMPLEMENTATION_TASKS/a.md"];
               Fulfilled := ["IMPLEMENTATION_TASKS/b.md"] |} in
  ParseTaskDependencyState sample_dependencies = Ok st ∧
  NoDup (Outstanding st ++ Fulfilled st) ∧ Forall task_path (Outstanding st ++ Fulfilled st).
Proof.
  split; [vm_compute; reflexivity|].
  apply (ParseTaskDependencyState_sound sample_dependencies). vm_compute. reflexivity.
Defined.
