(* ===== verification/PlanSchedule.v ===== *)
(** * The plan schedule and its closure over the task corpus

    Models [internal/taskcontract/schedule.go] and the closure check of
    [internal/taskcontract/corpus.go]: the ACTIVE, NEXT and BLOCKED sections of
    [IMPLEMENTATION_PLAN.local.md], their admission, and the comparison of the
    schedule with the task files that exist. *)
From S2P Require Import Prelude GoStrings TaskLines TaskContract TaskDependencies.

Inductive planScheduleSection :=
  | planScheduleActive
  | planScheduleNext
  | planScheduleBlocked.
#[export] Instance planScheduleSection_eq_dec : EqDecision planScheduleSection.
Proof. solve_decision. Defined.
(** The string the Go constant holds. *)
Definition section_name (section : planScheduleSection) : string :=
  match section with
  | planScheduleActive => "ACTIVE"
  | planScheduleNext => "NEXT"
  | planScheduleBlocked => "BLOCKED"
  end.

Record PlanSchedule := {
  Active : list string;
  Next : list string;
  Blocked : list string;
  activeErr : option error;
  nextErr : option error;
  blockedErr : option error;
}.

Definition scheduleHeadingMatches (section : planScheduleSection) (heading : string) : bool :=
  match section with
  | planScheduleActive => bool_decide (heading = section_name section)
  | _ => HasPrefix heading (section_name section)
  end.

Definition err_bullet (section : planScheduleSection) (item : string) : error :=
  Errorf "%s欄の項目 %qがbullet構文(単一task pathの直書き、逆引用符、または表示パスとリンク先が一致するMarkdownリンク)へ違反しています"
    [AStr (section_name section); AStr item].

Definition scheduleEntryPath (section : planScheduleSection) (item : string) :
    result error string :=
  let err := Err (err_bullet section item) in
  match CountByte item backtick with
  | 0 => if negb (ContainsAny item "[]()") then Ok item else err
  | 2 =>
      if HasPrefix item "`" && HasSuffix item "`"
      then Ok (slice item 1 (String.length item - 1))
      else if HasPrefix item "[`" then
        let '(label, destination, ok) := Cut (slice item 2 (String.length item)) "`](" in
        if ok && bool_decide (destination = label +:+ ")") then Ok label else err
      else err
  | _ => err
  end.

Definition err_schedule_line (section : planScheduleSection) (trimmed : string) : error :=
  Errorf "IMPLEMENTATION_PLAN.local.mdの%s欄の行 %qがschedule list記法(`- `bulletとblank行のみ)へ違反しています"
    [AStr (section_name section); AStr trimmed].

Fixpoint planLoop (section : planScheduleSection) (ls : list string) (inSection : bool)
    (entries : list string) : result error (list string) :=
  match ls with
  | [] => Ok entries
  | line :: ls =>
      if HasPrefix line "## " then
        if inSection then Ok entries else
        let heading := TrimSpace (TrimPrefix line "## ") in
        planLoop section ls (scheduleHeadingMatches section heading) entries
      else if negb inSection then planLoop section ls inSection entries else
      let trimmed := TrimSpace line in
      if bool_decide (trimmed = "") then planLoop section ls inSection entries else
      reject! negb (HasPrefix trimmed "- ") with err_schedule_line section trimmed;
      path ← scheduleEntryPath section (TrimSpace (TrimPrefix trimmed "- "));
      planLoop section ls inSection (entries ++ [path])
  end.
Definition parsePlanScheduleSection (planContent : string) (section : planScheduleSection) :
    result error (list string) :=
  planLoop section (lines planContent) false [].

Definition entries_of (r : result error (list string)) : list string :=
  match r with Ok entries => entries | Err _ => [] end.
Definition error_of {A} (r : result error A) : option error :=
  match r with Ok _ => None | Err e => Some e end.

Definition ParsePlanSchedule (planContent : string) : PlanSchedule :=
  let active := parsePlanScheduleSection planContent planScheduleActive in
  let next := parsePlanScheduleSection planContent planScheduleNext in
  let blocked := parsePlanScheduleSection planContent planScheduleBlocked in
  {| Active := entries_of active; Next := entries_of next; Blocked := entries_of blocked;
     activeErr := error_of active; nextErr := error_of next; blockedErr := error_of blocked |}.

Definition ActiveEntries (s : PlanSchedule) : result error (list string) :=
  match activeErr s with Some e => Err e | None => Ok (Active s) end.
Definition NonActiveEntries (s : PlanSchedule) : result error (list string * list string) :=
  match nextErr s, blockedErr s with
  | Some e, _ => Err e
  | None, Some e => Err e
  | None, None => Ok (Next s, Blocked s)
  end.

Definition ActiveTask (s : PlanSchedule) : result error string :=
  match activeErr s with
  | Some e => Err e
  | None =>
      match Active s with
      | [] => Err (Errorf "IMPLEMENTATION_PLAN.local.mdのACTIVE欄にtask fileがありません" [])
      | [path] => _ ← ValidateActiveTaskPath path; Ok path
      | paths => Err (Errorf "IMPLEMENTATION_PLAN.local.mdのACTIVE欄が一意ではありません(%d件)"
                        [AInt (length paths)])
      end
  end.

Definition containsSchedulePath (entries : list string) (target : string) : bool :=
  existsb (λ entry, bool_decide (entry = target)) entries.

(** [for _, path := range entries { if err := ValidateActiveTaskPath(path) ... }] *)
Fixpoint validatePaths (entries : list string) : result error unit :=
  match entries with
  | [] => Ok ()
  | path :: entries => _ ← ValidateActiveTaskPath path; validatePaths entries
  end.

Definition ValidateComplete (s : PlanSchedule) : result error string :=
  active ← ActiveTask s;
  match nextErr s, blockedErr s with
  | Some e, _ => Err e
  | None, Some e => Err e
  | None, None =>
      _ ← validatePaths (Next s);
      _ ← validatePaths (Blocked s);
      reject! containsSchedulePath (Next s) active || containsSchedulePath (Blocked s) active
        with Errorf "ACTIVE task file %s がNEXT/BLOCKEDへ重複して記載されています" [AStr active];
      Ok active
  end.

(** ** Closure over the corpus *)

Record TaskCorpusEntry := { tc_Path : string; tc_Regular : bool }.

Record ScheduleClosureFailure := {
  cf_Kind : string;
  cf_Path : string;
  cf_Reason : error;
}.

Definition ScheduleClosureScheduleParse : string := "schedule-parse".
Definition ScheduleClosureInvalidTaskPath : string := "invalid-task-path".
Definition ScheduleClosureDuplicateEntry : string := "duplicate-schedule-entry".
Definition ScheduleClosureMissingTask : string := "missing-task".
Definition ScheduleClosureNonRegularTask : string := "non-regular-task".
Definition ScheduleClosureUnscheduledTask : string := "unscheduled-task".

Definition parseError (s : PlanSchedule) : option error :=
  match activeErr s, nextErr s, blockedErr s with
  | Some e, _, _ => Some e
  | None, Some e, _ => Some e
  | None, None, Some e => Some e
  | None, None, None => None
  end.

(** All scheduled paths, in section order. *)
Definition scheduled (s : PlanSchedule) : list string := Active s ++ Next s ++ Blocked s.

Definition count_path (counts : gmap string nat) (path : string) : gmap string nat :=
  <[path := S (default 0 (counts !! path))]> counts.
Definition scheduleEntryCounts (s : PlanSchedule) : gmap string nat :=
  foldl count_path ∅ (scheduled s).

Definition corpus_map (entries : list TaskCorpusEntry) : gmap string bool :=
  foldl (λ m e, <[tc_Path e := tc_Regular e]> m) ∅ entries.

Definition failure (kind path fmt : string) (args : list arg) : ScheduleClosureFailure :=
  {| cf_Kind := kind; cf_Path := path; cf_Reason := Errorf fmt args |}.

Definition scheduledPathFailures (counts : gmap string nat) (corpus : gmap string bool)
    (path : string) : list ScheduleClosureFailure :=
  match ValidateActiveTaskPath path with
  | Err err =>
      [failure ScheduleClosureInvalidTaskPath path
         "schedule項目 %sがtask path配置契約に違反しています: %v" [AStr path; AErr err]]
  | Ok _ =>
      let count := default 0 (counts !! path) in
      (if decide (1 < count)
       then [failure ScheduleClosureDuplicateEntry path
               "task %sがPlanのscheduleへ重複して列挙されています(%d回)" [AStr path; AInt count]]
       else []) ++
      match corpus !! path with
      | None => [failure ScheduleClosureMissingTask path
                   "schedule項目 %sがcurrent task corpusへ存在しません" [AStr path]]
      | Some false => [failure ScheduleClosureNonRegularTask path
                         "task %sはregular fileではありません" [AStr path]]
      | Some true => []
      end
  end.
Definition scheduledClosureFailures (s : PlanSchedule) (entries : list TaskCorpusEntry) :
    list ScheduleClosureFailure :=
  let corpus := corpus_map entries in
  let counts := scheduleEntryCounts s in
  let paths := merge_sort String.le (elements (dom counts)) in
  paths ≫= scheduledPathFailures counts corpus.

Definition unscheduledClosureFailures (s : PlanSchedule) (entries : list TaskCorpusEntry) :
    list ScheduleClosureFailure :=
  let scheduled := scheduleEntryCounts s in
  entries ≫= λ entry,
    match scheduled !! tc_Path entry with
    | Some _ => []
    | None =>
        if negb (tc_Regular entry) then
          [failure ScheduleClosureNonRegularTask (tc_Path entry)
             "task %sはregular fileではありません" [AStr (tc_Path entry)]]
        else
          [failure ScheduleClosureUnscheduledTask (tc_Path entry)
             "task %sがPlanのACTIVE/NEXT/BLOCKEDいずれにも列挙されていません" [AStr (tc_Path entry)]]
    end.

(** [sort.Slice] by path, then kind: failures with equal keys are equal. *)
Definition failure_le (f g : ScheduleClosureFailure) : Prop :=
  if decide (cf_Path f = cf_Path g) then String.le (cf_Kind f) (cf_Kind g)
  else String.le (cf_Path f) (cf_Path g).
#[export] Instance failure_le_dec : RelDecision failure_le.
Proof. intros f g. unfold failure_le. case_decide; apply _. Defined.

Definition ClosureFailures (s : PlanSchedule) (entries : list TaskCorpusEntry) :
    list ScheduleClosureFailure :=
  match parseError s with
  | Some err =>
      [failure ScheduleClosureScheduleParse ""
         "IMPLEMENTATION_PLAN.local.mdのscheduleを解析できないためclosureを検証できません: %s" [AErr err]]
  | None =>
      merge_sort failure_le
        (scheduledClosureFailures s entries ++ unscheduledClosureFailures s entries)
  end.

(** ** Admission of a complete schedule *)

Lemma validatePaths_Ok l : validatePaths l = Ok () ↔ Forall task_path l.
Proof.
  induction l as [|p l IH]; simpl; [done|]. rewrite result_bind_Ok, Forall_cons, <-IH.
  setoid_rewrite ValidateActiveTaskPath_unit. split; [by intros (_ & ? & ?)|]. intros [? ?]. by exists ().
Qed.
Lemma containsSchedulePath_true l p : containsSchedulePath l p = true ↔ p ∈ l.
Proof.
  unfold containsSchedulePath. rewrite existsb_exists. setoid_rewrite bool_decide_eq_true.
  rewrite list_elem_of_In. naive_solver.
Qed.
Lemma containsSchedulePath_false l p : containsSchedulePath l p = false ↔ p ∉ l.
Proof. by rewrite <-not_true_iff_false, containsSchedulePath_true. Qed.

Lemma ActiveTask_Ok s a :
  ActiveTask s = Ok a ↔ activeErr s = None ∧ Active s = [a] ∧ task_path a.
Proof.
  unfold ActiveTask. destruct (activeErr s); [naive_solver|].
  destruct (Active s) as [|p [|q l]]; [naive_solver| |naive_solver].
  rewrite result_bind_Ok. setoid_rewrite ValidateActiveTaskPath_unit. naive_solver.
Qed.

Lemma ValidateComplete_iff s a :
  ValidateComplete s = Ok a ↔
  parseError s = None ∧ Active s = [a] ∧ Forall task_path (scheduled s) ∧
  a ∉ Next s ++ Blocked s.
Proof.
  unfold ValidateComplete, scheduled, parseError. rewrite result_bind_Ok.
  setoid_rewrite ActiveTask_Ok. rewrite not_elem_of_app. split.
  - intros (a' & (-> & -> & Ha) & H).
    destruct (nextErr s), (blockedErr s); try done. result_inv H.
    apply orb_false_iff in Hc as [?%containsSchedulePath_false ?%containsSchedulePath_false].
    repeat match goal with u : () |- _ => destruct u end.
    rewrite Forall_cons, Forall_app, <-!validatePaths_Ok. by split_and!.
  - intros (He & HA & Hp & HnN & HnB).
    destruct (activeErr s), (nextErr s), (blockedErr s); try done.
    rewrite HA, !Forall_app, Forall_singleton, <-!validatePaths_Ok in Hp.
    destruct Hp as (Ha & HN & HB). exists a. split; [done|].
    rewrite HN, HB; simpl.
    by rewrite !(proj2 (containsSchedulePath_false _ _)).
Qed.

(** a schedule is complete exactly when every section parses, it has one
    ACTIVE task, every scheduled path is well placed, and the ACTIVE task is
    in no other section. *)
Theorem ValidateComplete_spec s a :
  ValidateComplete s = Ok a ↔
  parseError s = None ∧ Active s = [a] ∧ Forall task_path (scheduled s) ∧
  a ∉ Next s ++ Blocked s.
Proof. apply ValidateComplete_iff. Qed.

(** ** Counting *)

Definition occ (p : string) (l : list string) : nat := length (filter (p =.) l).

Lemma occ_elem p l : p ∈ l ↔ 0 < occ p l.
Proof.
  unfold occ. induction l as [|q l IH]; [split; [by intros ?%elem_of_nil|simpl; lia]|].
  rewrite elem_of_cons, filter_cons. case_decide; simpl; [split; [lia|auto]|]. naive_solver.
Qed.
Lemma occ_NoDup l : NoDup l ↔ ∀ p, occ p l ≤ 1.
Proof.
  induction l as [|q l IH].
  { split; [intros _ p; unfold occ; simpl; lia|constructor]. }
  rewrite NoDup_cons, IH, occ_elem. unfold occ. split.
  - intros [Hq Hl] p. rewrite filter_cons. specialize (Hl p). case_decide; simpl; [subst; lia|done].
  - intros H. split.
    + specialize (H q). rewrite filter_cons_True in H by done. simpl in H. lia.
    + intros p. specialize (H p). rewrite filter_cons in H. case_decide; simpl in H; lia.
Qed.

Lemma counts_lookup l (m : gmap string nat) p :
  default 0 (foldl count_path m l !! p) = default 0 (m !! p) + occ p l ∧
  (is_Some (foldl count_path m l !! p) ↔ is_Some (m !! p) ∨ p ∈ l).
Proof.
  revert m. induction l as [|q l IH]; intros m; simpl.
  { unfold occ; simpl. rewrite elem_of_nil. split; [lia|naive_solver]. }
  destruct (IH (count_path m q)) as [-> ->]. unfold count_path, occ.
  rewrite filter_cons, elem_of_cons. destruct (decide (p = q)) as [->|].
  - rewrite lookup_insert_eq; simpl. split; [lia|naive_solver].
  - rewrite lookup_insert_ne by done. naive_solver.
Qed.
Lemma scheduleEntryCounts_default s p : default 0 (scheduleEntryCounts s !! p) = occ p (scheduled s).
Proof. unfold scheduleEntryCounts. by rewrite (proj1 (counts_lookup _ _ _)), lookup_empty. Qed.
Lemma scheduleEntryCounts_None s p : scheduleEntryCounts s !! p = None ↔ p ∉ scheduled s.
Proof.
  rewrite eq_None_not_Some. unfold scheduleEntryCounts.
  rewrite (proj2 (counts_lookup _ _ _)), lookup_empty. split; [auto|].
  intros ? [[]%is_Some_None|]; done.
Qed.

Lemma corpus_lookup entries (m : gmap string bool) p :
  NoDup (tc_Path <$> entries) → (∀ e, e ∈ entries → m !! tc_Path e = None) →
  foldl (λ m e, <[tc_Path e := tc_Regular e]> m) m entries !! p = Some true ↔
  m !! p = Some true ∨ ∃ e, e ∈ entries ∧ tc_Path e = p ∧ tc_Regular e = true.
Proof.
  revert m. induction entries as [|e entries IH]; intros m Hnd Hm; simpl.
  { split; [auto|]. intros [?|(e & []%elem_of_nil & _)]; done. }
  rewrite fmap_cons, NoDup_cons in Hnd. destruct Hnd as [He Hnd]. rewrite IH; [|done|].
  - setoid_rewrite elem_of_cons. destruct (decide (tc_Path e = p)) as [<-|Hne].
    + rewrite lookup_insert_eq, (Hm e) by set_solver. split.
      * intros [[= ?]|(e' & ? & ? & ?)]; eauto 10.
      * intros [?|(e' & [->|He'] & Hp & Hr)]; [done|by left; f_equal|by right; eauto].
    + rewrite lookup_insert_ne by done. naive_solver.
  - intros e' He'. rewrite lookup_insert_ne.
    + apply Hm. set_solver.
    + intros Hp. apply He. rewrite Hp. by apply list_elem_of_fmap_2.
Qed.

Lemma merge_sort_nil_iff {A} (R : relation A) `{RelDecision A A R} l :
  merge_sort R l = [] ↔ l = [].
Proof.
  split; [|by intros ->]. intros E. pose proof (merge_sort_Permutation R l) as P.
  rewrite E in P. by apply Permutation_nil_l in P.
Qed.
Lemma bind_nil {A B} (f : A → list B) l : l ≫= f = [] ↔ Forall (λ x, f x = []) l.
Proof.
  induction l as [|x l IH]; [done|]. rewrite bind_cons, Forall_cons, <-IH.
  split; [apply app_nil|by intros [-> ->]].
Qed.

Lemma scheduledPathFailures_nil counts corpus p :
  scheduledPathFailures counts corpus p = [] ↔
  task_path p ∧ default 0 (counts !! p) ≤ 1 ∧ corpus !! p = Some true.
Proof.
  unfold scheduledPathFailures. rewrite <-(ValidateActiveTaskPath_unit p ()).
  destruct (ValidateActiveTaskPath p) as [[]|]; [|naive_solver].
  destruct (corpus !! p) as [[]|]; case_decide; simpl; naive_solver lia.
Qed.

Lemma ClosureFailures_nil_iff s entries :
  NoDup (tc_Path <$> entries) →
  ClosureFailures s entries = [] ↔
  parseError s = None ∧ Forall task_path (scheduled s) ∧
  scheduled s ≡ₚ (tc_Path <$> entries) ∧ Forall (λ e, tc_Regular e = true) entries.
Proof.
  intros Hnd. unfold ClosureFailures. destruct (parseError s); [naive_solver|].
  rewrite merge_sort_nil_iff, app_nil.
  unfold scheduledClosureFailures, unscheduledClosureFailures. rewrite !bind_nil.
  setoid_rewrite scheduledPathFailures_nil. rewrite !Forall_forall.
  setoid_rewrite merge_sort_Permutation. setoid_rewrite elem_of_elements.
  setoid_rewrite elem_of_dom. unfold corpus_map.
  setoid_rewrite corpus_lookup; [|done|intros; apply lookup_empty].
  setoid_rewrite scheduleEntryCounts_default. setoid_rewrite lookup_empty.
  setoid_rewrite <-not_eq_None_Some. setoid_rewrite scheduleEntryCounts_None.
  split.
  - intros [Hs Hu].
    assert (∀ p, p ∈ scheduled s → task_path p ∧ occ p (scheduled s) ≤ 1 ∧
      ∃ e, e ∈ entries ∧ tc_Path e = p ∧ tc_Regular e = true) as Hs'.
    { intros p Hp. destruct (Hs p) as (? & ? & [?|?]); [tauto|done..]. }
    assert (∀ e, e ∈ entries → tc_Path e ∈ scheduled s) as Hu'.
    { intros e He. specialize (Hu e He). destruct (scheduleEntryCounts s !! tc_Path e) eqn:E.
      - apply dec_stable. rewrite <-scheduleEntryCounts_None. congruence.
      - by destruct (tc_Regular e). }
    split_and!; [done|naive_solver|..].
    + apply NoDup_Permutation; [|done|].
      * apply occ_NoDup. intros p. destruct (decide (p ∈ scheduled s)); [naive_solver|].
        assert (¬ 0 < occ p (scheduled s)) by (by rewrite <-occ_elem). lia.
      * intros p. rewrite list_elem_of_fmap. naive_solver.
    + intros e He. destruct (Hs' _ (Hu' _ He)) as (_ & _ & e' & He' & Hp & Hr).
      assert (e' = e) as <-; [|done].
      apply list_elem_of_lookup in He as [i Hi], He' as [j Hj].
      assert (i = j) as <-; [|congruence].
      eapply NoDup_lookup; [exact Hnd|..]; rewrite list_lookup_fmap; [by rewrite Hi|by rewrite Hj; simpl; f_equal].
  - intros (_ & Hp & Hperm & Hr). split.
    + intros p Hsome. assert (p ∈ scheduled s) as Hin by (apply dec_stable; tauto).
      split_and!; [by apply Hp| |].
      * apply occ_NoDup. by rewrite Hperm.
      * right. rewrite Hperm in Hin. apply list_elem_of_fmap in Hin as (e & -> & He). eauto.
    + intros e He. destruct (scheduleEntryCounts s !! tc_Path e) eqn:E; [done|].
      apply scheduleEntryCounts_None in E. destruct E. rewrite Hperm.
      by apply list_elem_of_fmap_2.
Qed.
(** Over a corpus of distinct files, the closure check reports nothing
    exactly when the schedule parses, every scheduled path is well placed, and
    the schedule lists each task file once and nothing else, all of them
    regular files. *)
Theorem ClosureFailures_nil s entries :
  NoDup (tc_Path <$> entries) →
  ClosureFailures s entries = [] ↔
  parseError s = None ∧ Forall task_path (scheduled s) ∧
  scheduled s ≡ₚ (tc_Path <$> entries) ∧ Forall (λ e, tc_Regular e = true) entries.
Proof. apply ClosureFailures_nil_iff. Qed.
Lemma ClosureFailures_nil_witness :
  let s := ParsePlanSchedule "## ACTIVE
- IMPLEMENTATION_TASKS/a.md
## NEXT
- `IMPLEMENTATION_TASKS/b.md`" in
  let entries := [{| tc_Path := "IMPLEMENTATION_TASKS/b.md"; tc_Regular := true |};
                  {| tc_Path := "IMPLEMENTATION_TASKS/a.md"; tc_Regular := true |}] in
  ClosureFailures s entries = [] ∧ scheduled s ≡ₚ tc_Path <$> entries.
Proof.
  intros s entries. assert (ClosureFailures s entries = []) as E by (vm_compute; reflexivity).
  split; [exact E|]. refine (proj1 (proj2 (proj2 (proj1 (ClosureFailures_nil s entries _) E)))).
  change (tc_Path <$> entries) with ["IMPLEMENTATION_TASKS/b.md"; "IMPLEMENTATION_TASKS/a.md"].
  apply NoDup_cons. split; [|apply NoDup_singleton]. intros E'%list_elem_of_singleton. discriminate E'.
Defined.
