(* ===== verification/Retirement.v ===== *)
(** * Retiring a task from the plan and from its dependents

    Models [internal/taskcontract/retirement.go].  [RetireTaskDependency] moves
    a task from the outstanding to the fulfilled dependencies of a dependent
    task file; [RetirePlanTask] removes a task from the schedule and promotes
    its successor.  The theorems say what the edited files parse to. *)
From S2P Require Import Prelude GoStrings TaskLines TaskContract TaskDependencies PlanSchedule.

(** [lines[i:j]] *)
Definition sub_list {A} (l : list A) (i j : nat) : list A := take (j - i) (drop i l).

Fixpoint h2_from (ls : list string) (index : nat) : nat :=
  match ls with
  | [] => index
  | line :: ls => if HasPrefix line "## " then index else h2_from ls (S index)
  end.
(** [start + 1], where an absent section is Go's [-1]. *)
Definition below (start : option nat) : nat :=
  match start with None => 0 | Some k => S k end.
Definition retirementSectionEnd (ls : list string) (start : option nat) : nat :=
  h2_from (drop (below start) ls) (below start).

Definition err_parent_decision (line : string) : error :=
  Errorf "dependency retirement requires parent decision for %q" [AStr line].
Definition err_ambiguous (line : string) : error :=
  Errorf "ambiguous dependency retirement item %q" [AStr line].

Fixpoint retirementBodyLoop (ls : list string) (remove : string) (seen : gset string)
    (body : list string) : result error (list string) :=
  match ls with
  | [] => Ok body
  | line :: ls =>
      let trimmed := TrimSpace line in
      if bool_decide (trimmed = "") || bool_decide (trimmed = "none")
      then retirementBodyLoop ls remove seen body else
      match dependencyListItem line with
      | None => Err (err_parent_decision line)
      | Some item =>
          match dependencyItemPath item with
          | Ok (Some path) =>
              reject! bool_decide (path ∈ seen) with err_ambiguous line;
              retirementBodyLoop ls remove ({[path]} ∪ seen)
                (if bool_decide (path = remove) then body else body ++ [line])
          | _ => Err (err_ambiguous line)
          end
      end
  end.
Definition retirementDependencyBody (ls : list string) (remove : string) :
    result error (list string) :=
  body ← retirementBodyLoop ls remove ∅ [];
  let body := if decide (length body = 0) then ["none"] else body in
  Ok ([""] ++ body ++ [""]).

Definition dependencyEntry (path : string) : string := "- `" +:+ path +:+ "`".

(** The file with the outstanding reference removed, before the fulfilled
    section is updated. *)
Definition removeOutstanding (ls : list string) (path : string) : result error (list string) :=
  start ← findUniqueTaskSection ls TaskDependenciesHeading;
  let end_ := retirementSectionEnd ls start in
  body ← retirementDependencyBody (sub_list ls (below start) end_) path;
  Ok (take (below start) ls ++ body ++ drop end_ ls).

(** Recording the reference as fulfilled; [old] are the fulfilled paths. *)
Definition addFulfilled (ls : list string) (old : list string) (path : string) :
    result error (list string) :=
  fulfilled ← findUniqueTaskSection ls TaskFulfilledDependenciesHeading;
  let entry := dependencyEntry path in
  match fulfilled with
  | None => Ok (ls ++ [""; TaskFulfilledDependenciesHeading; ""; entry; ""])
  | Some k =>
      let end_ := retirementSectionEnd ls fulfilled in
      body ← retirementDependencyBody (sub_list ls (S k) end_) "";
      let body := if decide (length old = 0) then [""; entry; ""] else body ++ [entry; ""] in
      Ok (take (S k) ls ++ body ++ drop end_ ls)
  end.

Definition RetireTaskDependency (content path : string) : result error (string * bool) :=
  state ← ParseTaskDependencyState content;
  if negb (containsSchedulePath (Outstanding state) path) then Ok (content, false) else
  ls ← removeOutstanding (lines content) path;
  ls ← addFulfilled ls (Fulfilled state) path;
  let result := Join ls newline in
  _ ← ParseTaskDependencyState result;
  Ok (result, true).

(** ** The plan schedule *)

(** Go's empty section is [None]. *)
Definition retirementPlanSection (line : string) : option planScheduleSection :=
  let heading := TrimSpace (TrimPrefix line "## ") in
  find (λ section, scheduleHeadingMatches section heading)
    [planScheduleActive; planScheduleNext; planScheduleBlocked].

Definition linkEntry (successor : string) : string :=
  "- [`" +:+ successor +:+ "`](" +:+ successor +:+ ")".

Definition retirementPlanLine (line : string) (section : planScheduleSection)
    (target successor : string) : result error string :=
  path ← scheduleEntryPath section (TrimSpace (TrimPrefix (TrimSpace line) "- "));
  if bool_decide (path = target) then
    if bool_decide (section = planScheduleActive) then
      if HasPrefix (TrimSpace line) "- [`" then Ok (linkEntry successor)
      else Ok (dependencyEntry successor)
    else Ok ""
  else if negb (bool_decide (successor = "")) && bool_decide (path = successor)
          && bool_decide (section = planScheduleNext) then Ok ""
  else Ok line.

(** [(updated, removed)] *)
Definition retirePlanScheduleLine (line : string) (section : option planScheduleSection)
    (target successor : string) : result error (string * bool) :=
  match section with
  | None => Ok (line, false)
  | Some section =>
      if bool_decide (TrimSpace line = "") || HasPrefix line "## " then Ok (line, false) else
      updated ← retirementPlanLine line section target successor;
      Ok (updated, bool_decide (updated = ""))
  end.

(** [result] is the output so far; its last element decides whether an empty
    line would start a run of blanks. *)
Fixpoint retireLoop (ls : list string) (section : option planScheduleSection)
    (target successor : string) (result : list string) : Prelude.result error (list string) :=
  match ls with
  | [] => Ok result
  | line :: ls =>
      let section := if HasPrefix line "## " then retirementPlanSection line else section in
      '(updated, removed) ← retirePlanScheduleLine line section target successor;
      if (removed : bool) || bool_decide (section ≠ None) && bool_decide (updated = "")
           && bool_decide (last result = Some "")
      then retireLoop ls section target successor result
      else retireLoop ls section target successor (result ++ [updated])
  end.
Definition retirePlanScheduleLines (plan target successor : string) :
    result error (list string) :=
  retireLoop (lines plan) None target successor [].

Definition err_not_mechanical : error :=
  Errorf "terminal schedule retirement is not mechanically determined" [].

Definition validateTerminalScheduleRetirement (plan target successor : string) :
    result error unit :=
  let schedule := ParsePlanSchedule plan in
  active ← ValidateComplete schedule;
  let count := length (filter (λ path, path = target) ([active] ++ Next schedule ++ Blocked schedule)) in
  reject! negb (bool_decide (count = 1))
    || bool_decide (active = target) &&
       (bool_decide (length (Next schedule) = 0) ||
        negb (bool_decide (head (Next schedule) = Some successor)))
    || negb (bool_decide (active = target)) && negb (bool_decide (successor = ""))
  with err_not_mechanical;
  Ok ().

Definition validateTerminalScheduleRetirementResult (plan target successor : string) :
    result error unit :=
  let schedule := ParsePlanSchedule plan in
  active ← ValidateComplete schedule;
  reject! existsb (λ path, bool_decide (path = target) ||
      negb (bool_decide (successor = "")) && bool_decide (path = successor)
      && negb (bool_decide (active = successor)))
    ([active] ++ Next schedule ++ Blocked schedule)
  with Errorf "terminal schedule retirement retained a retired or duplicated entry" [];
  reject! negb (bool_decide (successor = "")) && negb (bool_decide (active = successor))
  with Errorf "terminal schedule retirement did not promote the successor" [];
  Ok ().

Definition RetirePlanTask (plan target successor : string) : result error string :=
  _ ← validateTerminalScheduleRetirement plan target successor;
  result ← retirePlanScheduleLines plan target successor;
  let updated := Join result newline in
  _ ← validateTerminalScheduleRetirementResult updated target successor;
  Ok updated.

(** ** Quoted references *)

Lemma substring_prefix a b : Stdlib.Strings.String.substring 0 (String.length a) (a +:+ b) = a.
Proof. induction a as [|c a IH]; [by destruct b|]. rewrite app_cons_str; simpl. by rewrite IH. Qed.
Lemma substring_full a : Stdlib.Strings.String.substring 0 (String.length a) a = a.
Proof. rewrite <-(app_nil_r_str a) at 2. apply substring_prefix. Qed.

Definition quoted (p : string) : string := "`" +:+ p +:+ "`".

Lemma slice_quoted p : slice (quoted p) 1 (String.length (quoted p) - 1) = p.
Proof.
  unfold slice, quoted. rewrite !length_app_str. simpl.
  replace (String.length p + 1 - 0 - 1) with (String.length p) by lia.
  change (Stdlib.Strings.String.substring 0 (String.length p) (p +:+ "`") = p).
  apply substring_prefix.
Qed.
Lemma quoted_prefix_suffix p :
  HasPrefix (quoted p) "`" = true ∧ HasSuffix (quoted p) "`" = true.
Proof.
  split; [apply HasPrefix_app|]. unfold quoted. rewrite <-app_assoc_str. apply HasSuffix_app.
Qed.
Lemma quoted_count p : CountByte (quoted p) backtick = 2 + CountByte p backtick.
Proof. unfold quoted. rewrite !CountByte_app. simpl. lia. Qed.
Lemma quoted_inv item :
  HasPrefix item "`" = true → HasSuffix item "`" = true → CountByte item backtick = 2 →
  ∃ p, item = quoted p ∧ no_char backtick p.
Proof.
  rewrite HasPrefix_true, HasSuffix_true. intros [r ->] [q Hq] Hc.
  destruct q as [|c q].
  - rewrite app_nil_l_str in Hq. rewrite Hq in Hc. done.
  - rewrite app_cons_str in Hq. injection Hq as <- Hr. rewrite app_nil_l_str in Hr. subst r.
    exists q. split; [done|]. apply CountByte_zero. fold (quoted q) in Hc. rewrite quoted_count in Hc. lia.
Qed.

(** A schedule entry's path has no backtick and is a factor of the item. *)
Lemma scheduleEntryPath_clean section item p :
  scheduleEntryPath section item = Ok p →
  no_char backtick p ∧ ∀ c, no_char c item → no_char c p.
Proof.
  unfold scheduleEntryPath. destruct (CountByte item backtick) as [|[|[|n]]] eqn:E; try done.
  - case_match; [|done]. intros [= ->]. split; [by apply CountByte_zero|done].
  - destruct (HasPrefix item "`" && HasSuffix item "`") eqn:Eq.
    + apply andb_true_iff in Eq as [H1 H2].
      destruct (quoted_inv item H1 H2 E) as (q & -> & Hq). rewrite slice_quoted.
      intros [= ->]. split; [done|]. unfold quoted. intros c. rewrite !no_char_app. tauto.
    + destruct (HasPrefix item "[`") eqn:Hp; [|done].
      destruct (Cut (slice item 2 (String.length item)) "`](") as [[l d] ok] eqn:Ec.
      destruct ok; simpl; [|done]. case_bool_decide as Hd; [|done]. intros [= ->].
      apply HasPrefix_true in Hp as [r ->]. apply Cut_found in Ec.
      assert (slice ("[`" +:+ r) 2 (String.length ("[`" +:+ r)) = r) as Hr.
      { unfold slice. rewrite length_app_str. simpl. rewrite Nat.sub_0_r.
        change (Stdlib.Strings.String.substring 0 (String.length r) r = r). apply substring_full. }
      rewrite Hr in Ec. rewrite Ec in E |- *. rewrite !CountByte_app in E. simpl in E.
      split; [apply CountByte_zero; lia|]. intros c. rewrite !no_char_app. tauto.
Qed.
Lemma scheduleEntryPath_quoted section p :
  no_char backtick p → scheduleEntryPath section (quoted p) = Ok p.
Proof.
  intros Hp%CountByte_zero. unfold scheduleEntryPath. 
  destruct (quoted_prefix_suffix p) as [H1 H2].
  by rewrite quoted_count, Hp, H1, H2, slice_quoted.
Qed.
Lemma scheduleEntryPath_link section p :
  no_char backtick p →
  scheduleEntryPath section ("[`" +:+ p +:+ "`](" +:+ p +:+ ")") = Ok p.
Proof.
  intros Hp. unfold scheduleEntryPath.
  assert (CountByte ("[`" +:+ p +:+ "`](" +:+ p +:+ ")") backtick = 2) as ->.
  { apply CountByte_zero in Hp. rewrite !CountByte_app, Hp. done. }
  assert (slice ("[`" +:+ p +:+ "`](" +:+ p +:+ ")") 2
    (String.length ("[`" +:+ p +:+ "`](" +:+ p +:+ ")")) = p +:+ "`](" +:+ p +:+ ")") as ->.
  { unfold slice. rewrite length_app_str. simpl. rewrite Nat.sub_0_r. apply substring_full. }
  assert (HasPrefix ("[`" +:+ p +:+ "`](" +:+ p +:+ ")") "`" = false) as ->.
  { apply not_true_is_false. rewrite HasPrefix_true. by intros [? [=]]. }
  rewrite HasPrefix_app. simpl.
  assert (Cut (p +:+ "`](" +:+ p +:+ ")") "`](" = (p, p +:+ ")", true)) as ->.
  { unfold Cut.
    assert (cut_at (p +:+ "`](" +:+ p +:+ ")") "`](" = Some (p, p +:+ ")")) as ->; [|done].
    generalize (p +:+ ")") as t. intros t. clear section.
    induction p as [|c p IH]; [done|]. destruct Hp as [Hc Hp].
    rewrite app_cons_str. simpl. rewrite decide_False by done. by rewrite (IH Hp). }
  simpl. by rewrite bool_decide_eq_true_2.
Qed.

(** The two entry lines retirement writes, as the plan parser reads them. *)
Lemma entry_line_reads line section p :
  no_char backtick p → line = dependencyEntry p ∨ line = linkEntry p →
  HasPrefix line "## " = false ∧ TrimSpace line = line ∧ HasPrefix line "- " = true ∧
  scheduleEntryPath section (TrimSpace (TrimPrefix line "- ")) = Ok p.
Proof.
  intros Hp Hl.
  assert (∃ r, line = "- " +:+ r ∧ starts_graphic r = true ∧ ends_graphic r = true ∧ r ≠ "" ∧
    scheduleEntryPath section r = Ok p) as (r & -> & Hs & He & Hne & Hr).
  { destruct Hl as [-> | ->].
    - exists (quoted p). split_and!; [done|done| |done|by apply scheduleEntryPath_quoted].
      unfold quoted. rewrite <-app_assoc_str. by rewrite ends_graphic_app.
    - exists ("[`" +:+ p +:+ "`](" +:+ p +:+ ")").
      split_and!; [done|done| |done|by apply scheduleEntryPath_link].
      rewrite <-!app_assoc_str. by rewrite ends_graphic_app. }
  split_and!.
  - apply not_true_is_false. rewrite HasPrefix_true. by intros [? [=]].
  - apply TrimSpace_id; [done|]. by rewrite ends_graphic_app.
  - apply HasPrefix_app.
  - rewrite TrimPrefix_app, TrimSpace_id by done. done.
Qed.

(** ** The retired schedule *)

(** What happens to a section's entries. *)
Definition retire_entries (section : planScheduleSection) (target successor : string)
    (entries : list string) : list string :=
  match section with
  | planScheduleActive => (λ p, if decide (p = target) then successor else p) <$> entries
  | planScheduleNext => filter (λ p, p ≠ target ∧ ¬ (successor ≠ "" ∧ p = successor)) entries
  | planScheduleBlocked => filter (λ p, p ≠ target) entries
  end.

Lemma retire_entries_app section target successor l1 l2 :
  retire_entries section target successor (l1 ++ l2) =
    retire_entries section target successor l1 ++ retire_entries section target successor l2.
Proof. destruct section; simpl; [apply fmap_app|apply filter_app|apply filter_app]. Qed.

Lemma planLoop_acc section ls b es r :
  planLoop section ls b es = Ok r →
  ∃ new, r = es ++ new ∧ ∀ es', planLoop section ls b es' = Ok (es' ++ new).
Proof.
  revert b es. induction ls as [|l ls IH]; intros b es; simpl.
  { intros [= <-]. exists []. split; [by rewrite app_nil_r|]. intros. by rewrite app_nil_r. }
  destruct (HasPrefix l "## "); [destruct b|].
  - intros [= <-]. exists []. split; [by rewrite app_nil_r|]. intros. by rewrite app_nil_r.
  - apply IH.
  - destruct b; simpl; [|apply IH]. case_bool_decide; [apply IH|].
    destruct (HasPrefix (TrimSpace l) "- "); simpl; [|done].
    destruct (scheduleEntryPath section _) as [p|]; simpl; [|done].
    intros (new & -> & Hnew)%IH. exists (p :: new). split; [by rewrite <-app_assoc|].
    intros es'. by rewrite Hnew, <-app_assoc.
Qed.

Lemma planLoop_entries_forall section (P : string → Prop) ls b es r :
  planLoop section ls b es = Ok r →
  (∀ item p, scheduleEntryPath section item = Ok p → no_char LF item → P p) →
  Forall (no_char LF) ls → Forall P es → Forall P r.
Proof.
  intros H HP. revert b es H. induction ls as [|l ls IH]; intros b es; simpl.
  { by intros [= <-]. }
  intros H [Hl Hls]%Forall_cons Hes. revert H.
  destruct (HasPrefix l "## "); [destruct b; [by intros [= <-]|intros; by eapply IH]|].
  destruct b; simpl; [|intros; by eapply IH]. case_bool_decide; [intros; by eapply IH|].
  destruct (HasPrefix (TrimSpace l) "- ") eqn:Hpre; simpl; [|done].
  destruct (scheduleEntryPath section _) as [p|] eqn:E; simpl; [|done].
  intros H'. eapply IH; [exact H'|done|]. apply Forall_app. split; [done|].
  apply Forall_singleton. apply (HP _ _ E).
  apply TrimSpace_no_char. apply HasPrefix_true in Hpre as [r' Hr'].
  apply TrimSpace_no_char in Hl. rewrite Hr' in Hl |- *. rewrite TrimPrefix_app.
  by apply no_char_app in Hl as [_ ?].
Qed.

Lemma retirementPlanSection_match section line :
  scheduleHeadingMatches section (TrimSpace (TrimPrefix line "## ")) = true →
  retirementPlanSection line = Some section.
Proof.
  unfold retirementPlanSection. generalize (TrimSpace (TrimPrefix line "## ")) as h. intros h.
  unfold find, scheduleHeadingMatches, section_name. destruct section.
  - by intros ->.
  - intros H. rewrite H. rewrite bool_decide_eq_false_2; [done|].
    intros ->. done.
  - intros H. rewrite H. apply HasPrefix_true in H as [r ->].
    rewrite bool_decide_eq_false_2 by done.
    assert (HasPrefix ("BLOCKED" +:+ r) "NEXT" = false) as ->; [|done].
    apply not_true_is_false. rewrite HasPrefix_true. by intros [? [=]].
Qed.

(** One line of a section: what is written, and how the plan parser reads it
    back.  [reads line new] holds when the parser, inside [section], takes the
    line as the entries [new]. *)
Definition reads (section : planScheduleSection) (line : string) (new : list string) : Prop :=
  HasPrefix line "## " = false ∧
  ∀ ls es, planLoop section (line :: ls) true es = planLoop section ls true (es ++ new).

Lemma reads_blank section line : TrimSpace line = "" → HasPrefix line "## " = false → reads section line [].
Proof.
  intros Ht Hh. split; [done|]. intros ls es. simpl. rewrite Hh; simpl.
  rewrite bool_decide_eq_true_2 by done. by rewrite app_nil_r.
Qed.
Lemma reads_entry section line p :
  HasPrefix line "## " = false → HasPrefix (TrimSpace line) "- " = true →
  scheduleEntryPath section (TrimSpace (TrimPrefix (TrimSpace line) "- ")) = Ok p →
  reads section line [p].
Proof.
  intros Hh Hp He. split; [done|]. intros ls es. simpl. rewrite Hh; simpl.
  rewrite bool_decide_eq_false_2.
  - rewrite Hp; simpl. by rewrite He.
  - intros E. rewrite E in Hp. done.
Qed.

(** Retiring a line never turns it into a heading; what the parser read from
    the line becomes [retire_entries] of it. *)
Lemma retirePlanScheduleLine_reads line c target successor updated removed :
  retirePlanScheduleLine line (Some c) target successor = Ok (updated, removed) →
  HasPrefix line "## " = false → no_char backtick successor →
  HasPrefix updated "## " = false ∧
  ∀ ls es r, planLoop c (line :: ls) true es = Ok r →
    ∃ new, planLoop c (line :: ls) true es = planLoop c ls true (es ++ new) ∧
      if removed then retire_entries c target successor new = []
      else reads c updated (retire_entries c target successor new).
Proof.
  intros H Hh Hs. unfold retirePlanScheduleLine in H. rewrite Hh, orb_false_r in H.
  case_bool_decide as Hblank.
  { simplify_eq. split; [done|]. intros ls es r _. exists [].
    destruct (reads_blank c updated Hblank Hh) as [_ E]. rewrite E. split; [done|].
    by destruct c; apply reads_blank. }
  unfold retirementPlanLine in H. rewrite result_bind_Ok in H.
  destruct H as (u & Hu & [= <- <-]). rewrite result_bind_Ok in Hu.
  destruct Hu as (p & Hp & Hu).
  assert (HasPrefix u "## " = false ∧
    (HasPrefix (TrimSpace line) "- " = true →
     if bool_decide (u = "") then retire_entries c target successor [p] = []
     else reads c u (retire_entries c target successor [p]))) as [Hu1 Hu2].
  { case_bool_decide as Ht.
    - case_bool_decide as Hc.
      + subst c p. assert (u = dependencyEntry successor ∨ u = linkEntry successor) as Hue.
        { destruct (HasPrefix (TrimSpace line) "- [`"); simplify_eq; auto. }
        destruct (entry_line_reads u planScheduleActive successor Hs Hue) as (E1 & E2 & E3 & E4).
        split; [done|]. intros _. rewrite bool_decide_eq_false_2 by by destruct Hue as [-> | ->].
        simpl. rewrite decide_True by done. apply reads_entry; by rewrite ?E2.
      + simplify_eq. split; [done|]. intros _. rewrite bool_decide_eq_true_2 by done.
        destruct c; simpl; [done|by rewrite filter_cons_False by tauto..].
    - destruct (negb (bool_decide (successor = "")) && bool_decide (p = successor) &&
          bool_decide (c = planScheduleNext)) eqn:Hc; simplify_eq.
      + bool_simp. subst. split; [done|]. intros _. rewrite bool_decide_eq_true_2 by done.
        simpl. by rewrite filter_cons_False by tauto.
      + split; [done|]. intros Hpre. rewrite bool_decide_eq_false_2 by (by intros ->).
        assert (retire_entries c target successor [p] = [p]) as ->.
        { destruct c; simpl.
          - by rewrite decide_False.
          - rewrite filter_cons_True; [done|]. split; [done|]. intros [? ->].
            by rewrite (bool_decide_eq_false_2 (successor = "")), !bool_decide_eq_true_2 in Hc.
          - by rewrite filter_cons_True. }
        by apply reads_entry. }
  split; [done|]. intros ls es r Hr. exists [p].
  assert (HasPrefix (TrimSpace line) "- " = true) as Hpre.
  { revert Hr. simpl. rewrite Hh; simpl. rewrite bool_decide_eq_false_2 by done.
    by destruct (HasPrefix (TrimSpace line) "- "). }
  split; [by apply (reads_entry c line p)|]. by apply Hu2.
Qed.

Lemma retireLoop_section section ls cur target successor acc out :
  retireLoop ls cur target successor acc = Ok out → no_char backtick successor →
  ∃ tail, out = acc ++ tail ∧
    ∀ inSection es es' new, (inSection = true → cur = Some section) →
      planLoop section ls inSection es = Ok (es ++ new) →
      planLoop section tail inSection es' =
        Ok (es' ++ retire_entries section target successor new).
Proof.
  intros H Hs. revert cur acc H. induction ls as [|line ls IH]; intros cur acc H; simpl in H.
  { simplify_eq. exists []. split; [by rewrite app_nil_r|]. intros b es es' new _ [= E].
    apply app_self_nil in E. subst new. destruct section; simpl; by rewrite app_nil_r. }
  set (cur' := if HasPrefix line "## " then _ else cur) in H.
  apply result_bind_Ok in H as ([updated removed] & Hline & H).
  assert (∃ written, (written = [updated] ∧ removed = false ∨ written = [] ∧ (removed = true ∨ updated = "" ∧ cur' ≠ None))
    ∧ retireLoop ls cur' target successor (acc ++ written) = Ok out) as (written & Hw & H').
  { destruct (removed || _) eqn:E; [|exists [updated]; split; [left; by destruct removed|done]].
    exists []. rewrite app_nil_r. split; [|done]. right. split; [done|].
    destruct removed; [by left|right]. simpl in E.
    rewrite !andb_true_iff, !bool_decide_eq_true in E. tauto. }
  destruct (IH cur' _ H') as (tl & -> & Htl). exists (written ++ tl).
  split; [by rewrite app_assoc|]. intros b es es' new Hb Hplan. clear H H' IH.
  unfold cur' in *. clear cur'. destruct (HasPrefix line "## ") eqn:Hh.
  - assert (updated = line ∧ removed = false) as [-> ->].
    { unfold retirePlanScheduleLine in Hline. destruct (retirementPlanSection line); [|by simplify_eq].
      rewrite Hh, orb_true_r in Hline. by simplify_eq. }
    assert (line ≠ "") as Hne by (by intros ->).
    destruct Hw as [[-> _]|[_ [?|[? _]]]]; [|done..]. simpl in *. rewrite Hh in *.
    destruct b.
    + injection Hplan as E. apply app_self_nil in E.
      subst new. destruct section; simpl; by rewrite app_nil_r.
    + apply (Htl _ es); [|done]. apply retirementPlanSection_match.
  - destruct b.
    + rewrite (Hb eq_refl) in *.
      destruct (retirePlanScheduleLine_reads _ _ _ _ _ _ Hline Hh Hs) as [_ Hr].
      destruct (Hr _ _ _ Hplan) as (n1 & E & Hn1). rewrite E in Hplan.
      destruct (planLoop_acc _ _ _ _ _ Hplan) as (n2 & En & Hn2).
      rewrite <-app_assoc in En. apply app_inv_head in En. subst new.
      rewrite retire_entries_app.
      assert (planLoop section (written ++ tl) true es' =
        planLoop section tl true (es' ++ retire_entries section target successor n1)) as ->.
      { destruct Hw as [[-> ->]|[-> Hw]]; [apply Hn1|]. simpl. f_equal.
        assert (retire_entries section target successor n1 = []) as ->; [|by rewrite app_nil_r].
        destruct removed; [done|]. destruct Hw as [?|[-> _]]; [done|].
        destruct Hn1 as [_ Hn1]. specialize (Hn1 [] []). by injection Hn1. }
      rewrite app_assoc. by apply (Htl true (es ++ n1)).
    + assert (HasPrefix updated "## " = false) as Hu.
      { destruct cur as [c|]; [|by simplify_eq/=].
        by destruct (retirePlanScheduleLine_reads _ _ _ _ _ _ Hline Hh Hs). }
      assert (planLoop section (written ++ tl) false es' = planLoop section tl false es') as ->.
      { destruct Hw as [[-> _]|[-> _]]; [|done]. simpl. by rewrite Hu. }
      simpl in Hplan. rewrite Hh in Hplan. by apply (Htl false es).
Qed.

Lemma retireLoop_no_char c ls cur target successor acc out :
  retireLoop ls cur target successor acc = Ok out →
  no_char c successor → no_char c "- [`](" → no_char c ")" →
  Forall (no_char c) ls → Forall (no_char c) acc → Forall (no_char c) out.
Proof.
  intros H Hs H1 H2 Hls. revert cur acc H.
  induction Hls as [|line ls Hl _ IH]; intros cur acc H Hacc; simpl in H; [by simplify_eq|].
  set (cur' := if HasPrefix line "## " then _ else cur) in H. clearbody cur'.
  apply result_bind_Ok in H as ([updated removed] & Hline & H).
  assert (no_char c updated) as Hu.
  { unfold retirePlanScheduleLine in Hline. destruct cur' as [s|]; [|by simplify_eq].
    destruct (_ || _); [by simplify_eq|]. result_inv Hline.
    unfold retirementPlanLine in Ha. result_inv Ha.
    simpl in H1. clear H. unfold dependencyEntry, linkEntry in *.
    repeat case_match; simplify_eq; rewrite ?no_char_app; simpl; tauto. }
  destruct (_ || _) in H; apply (IH _ _ H); [done|].
  apply Forall_app. by rewrite Forall_singleton.
Qed.

Lemma parsePlanScheduleSection_Join section out :
  Forall (no_char LF) out →
  parsePlanScheduleSection (Join out newline) section = planLoop section out false [].
Proof.
  intros H. unfold parsePlanScheduleSection, lines. destruct out as [|l out]; [done|].
  by rewrite (Split_Join _ LF).
Qed.

Lemma parsePlanScheduleSection_clean plan section es :
  parsePlanScheduleSection plan section = Ok es →
  Forall (λ p, no_char backtick p ∧ no_char LF p) es.
Proof.
  intros H. eapply planLoop_entries_forall; [exact H| | |constructor].
  - intros item p Hp%scheduleEntryPath_clean Hitem. naive_solver.
  - apply Split_no_char.
Qed.

Lemma retirePlanScheduleLines_section plan target successor out section es :
  retirePlanScheduleLines plan target successor = Ok out →
  no_char backtick successor → no_char LF successor →
  parsePlanScheduleSection plan section = Ok es →
  parsePlanScheduleSection (Join out newline) section =
    Ok (retire_entries section target successor es).
Proof.
  intros H Hb Hl Hp. rewrite parsePlanScheduleSection_Join.
  - destruct (retireLoop_section section _ _ _ _ _ _ H Hb) as (tl & -> & Htl). simpl.
    rewrite (Htl false [] [] es); done.
  - eapply retireLoop_no_char; [exact H|done|by vm_compute; intuition discriminate..| |constructor].
    apply Split_no_char.
Qed.

Lemma parse_sections plan :
  parseError (ParsePlanSchedule plan) = None →
  parsePlanScheduleSection plan planScheduleActive = Ok (Active (ParsePlanSchedule plan)) ∧
  parsePlanScheduleSection plan planScheduleNext = Ok (Next (ParsePlanSchedule plan)) ∧
  parsePlanScheduleSection plan planScheduleBlocked = Ok (Blocked (ParsePlanSchedule plan)).
Proof.
  unfold ParsePlanSchedule, parseError; simpl.
  destruct (parsePlanScheduleSection plan planScheduleActive),
    (parsePlanScheduleSection plan planScheduleNext),
    (parsePlanScheduleSection plan planScheduleBlocked); done.
Qed.

Lemma validateTerminalScheduleRetirement_Ok plan target successor :
  validateTerminalScheduleRetirement plan target successor = Ok () →
  let s := ParsePlanSchedule plan in
  parseError s = None ∧ occ target (scheduled s) = 1 ∧
  (∃ active, Active s = [active] ∧
    (active = target ∧ head (Next s) = Some successor ∨ active ≠ target ∧ successor = "")).
Proof.
  unfold validateTerminalScheduleRetirement. cbv zeta. intros H.
  apply result_bind_Ok in H as (active & HA & H).
  apply ValidateComplete_iff in HA as (He & HA & _).
  destruct (_ || _) eqn:E in H; [done|]. bool_simp. unfold occ, scheduled. rewrite HA.
  split_and!; [done| |].
  - rewrite <-H0. f_equal. apply list_filter_iff. intros; split; congruence.
  - exists active. split; [done|].
    destruct (decide (active = target)) as [->|Hne].
    + left. rewrite (bool_decide_eq_true_2 (target = target)) in * by done.
      simpl in *. bool_simp. done.
    + right. rewrite (bool_decide_eq_false_2 (active = target)) in * by done.
      simpl in *. bool_simp. done.
Qed.

Lemma validateTerminalScheduleRetirementResult_Ok plan target successor :
  validateTerminalScheduleRetirementResult plan target successor = Ok () →
  let s := ParsePlanSchedule plan in
  parseError s = None ∧ target ∉ scheduled s ∧ Forall task_path (scheduled s) ∧
  ∃ active, Active s = [active] ∧ (successor ≠ "" → active = successor).
Proof.
  unfold validateTerminalScheduleRetirementResult. cbv zeta. intros H.
  apply result_bind_Ok in H as (active & HA & H).
  apply ValidateComplete_iff in HA as (He & HA & Hp & _).
  destruct (existsb _ _) eqn:E in H; [done|].
  destruct (_ && _) eqn:E2 in H; [done|].
  apply existsb_false in E. split_and!; [done| |done|].
  - unfold scheduled. rewrite HA. intros Ht. rewrite Forall_forall in E.
    specialize (E _ Ht). by rewrite bool_decide_eq_true_2 in E.
  - exists active. split; [done|]. intros Hne. rewrite bool_decide_eq_false_2 in E2 by done.
    simpl in E2. by bool_simp.
Qed.

Lemma successor_clean plan target successor :
  validateTerminalScheduleRetirement plan target successor = Ok () →
  no_char backtick successor ∧ no_char LF successor.
Proof.
  intros (He & _ & active & _ & [[_ H]|[_ ->]])%validateTerminalScheduleRetirement_Ok; [|done].
  apply parse_sections in He as (_ & Hn & _). apply parsePlanScheduleSection_clean in Hn.
  destruct (Next _) as [|p l]; simplify_eq/=. by apply Forall_cons in Hn as [? _].
Qed.

(** Retiring a task from the plan rewrites the parsed schedule exactly as
    intended: the successor (if any) replaces the target in ACTIVE, both leave
    NEXT, the target leaves BLOCKED, every other entry keeps its section and
    its order, and the result is a complete schedule without the target. *)
Theorem RetirePlanTask_schedule plan target successor plan' :
  RetirePlanTask plan target successor = Ok plan' →
  let s := ParsePlanSchedule plan in let s' := ParsePlanSchedule plan' in
  parseError s' = None ∧ target ∉ scheduled s' ∧
  (target ∈ Active s → Active s' = [successor]) ∧
  Active s' = retire_entries planScheduleActive target successor (Active s) ∧
  Next s' = retire_entries planScheduleNext target successor (Next s) ∧
  Blocked s' = retire_entries planScheduleBlocked target successor (Blocked s).
Proof.
  unfold RetirePlanTask. intros H.
  apply result_bind_Ok in H as ([] & Hv & H). apply result_bind_Ok in H as (out & Hout & H).
  apply result_bind_Ok in H as ([] & Hr & [= <-]).
  destruct (successor_clean _ _ _ Hv) as [Hb Hl].
  apply validateTerminalScheduleRetirementResult_Ok in Hr as (He' & Ht & _).
  apply validateTerminalScheduleRetirement_Ok in Hv as (He & _ & active & HA & Hc).
  destruct (parse_sections _ He) as (PA & PN & PB).
  destruct (parse_sections _ He') as (PA' & PN' & PB'). cbv zeta.
  apply (retirePlanScheduleLines_section _ _ _ _ _ _ Hout Hb Hl) in PA, PN, PB.
  rewrite PA in PA'. rewrite PN in PN'. rewrite PB in PB'.
  apply (inj Ok) in PA', PN', PB'.
  split_and!; try done. rewrite <-PA', HA. intros ?%list_elem_of_singleton. subst active.
  simpl. by rewrite decide_True.
Qed.

(** ** Dependency lines *)

(** [dep_lines ls ps]: every line of [ls] is blank, [none], or a reference, and
    the references are [ps] in order. *)
Inductive dep_lines : list string → list string → Prop :=
  | dep_nil : dep_lines [] []
  | dep_skip l ls ps :
      TrimSpace l = "" ∨ TrimSpace l = "none" → dep_lines ls ps → dep_lines (l :: ls) ps
  | dep_item l item p ls ps :
      dependencyListItem l = Some item → dependencyItemPath item = Ok (Some p) →
      task_path p → dep_lines ls ps → dep_lines (l :: ls) (p :: ps).
#[local] Hint Constructors dep_lines : go.

Lemma dep_lines_app ls1 ls2 ps1 ps2 :
  dep_lines ls1 ps1 → dep_lines ls2 ps2 → dep_lines (ls1 ++ ls2) (ps1 ++ ps2).
Proof. induction 1; simpl; eauto with go. Qed.
Lemma dep_lines_filter_nil : dep_lines ["none"] [].
Proof. apply dep_skip; [by right|constructor]. Qed.

Lemma dependencyListItem_prefix l item :
  dependencyListItem l = Some item → HasPrefix (TrimSpace l) "- " = true.
Proof. unfold dependencyListItem. by destruct (HasPrefix (TrimSpace l) "- "). Qed.

(** Blank, [none] and list lines neither open a fence nor start a section. *)
Lemma plain_line_trim l :
  TrimSpace l = "" ∨ TrimSpace l = "none" ∨ HasPrefix (TrimSpace l) "- " = true → plain_line l.
Proof.
  intros Hl. assert (∀ c r, l = String c r → graphic c = true → c ≠ backtick ∧ c ≠ "#"%char) as Hc.
  { intros c r -> Hg. destruct (TrimSpace_first c r Hg) as [x Hx]. rewrite Hx in Hl.
    destruct Hl as [?|[?|[y Hy]%HasPrefix_true]]; [done|by simplify_eq|].
    injection Hy as -> _. done. }
  split.
  - destruct l as [|c r]; [done|]. simpl. case_decide as Hb; [|done]. subst c.
    by destruct (Hc _ _ eq_refl eq_refl).
  - apply not_true_is_false. unfold is_h2. intros [r ->]%HasPrefix_true.
    by destruct (Hc _ _ eq_refl eq_refl).
Qed.
Lemma dep_lines_plain ls ps : dep_lines ls ps → Forall plain_line ls.
Proof.
  induction 1 as [|l ls ps Hl _ IH|l item p ls ps Hi _ _ _ IH]; constructor; try done;
    apply plain_line_trim; [naive_solver|]. right; right. by eapply dependencyListItem_prefix.
Qed.
Lemma retirementBodyLoop_plain ls remove seen acc kept :
  retirementBodyLoop ls remove seen acc = Ok kept → Forall plain_line ls.
Proof.
  revert seen acc. induction ls as [|l ls IH]; intros seen acc; simpl; [done|].
  destruct (bool_decide (TrimSpace l = "") || bool_decide (TrimSpace l = "none")) eqn:E.
  - apply orb_true_iff in E. rewrite !bool_decide_eq_true in E. intros H%IH.
    constructor; [apply plain_line_trim; naive_solver|done].
  - destruct (dependencyListItem l) eqn:Ei; [|done].
    destruct (dependencyItemPath _) as [[]|]; [|done..]. destruct (bool_decide (_ ∈ _)); [done|].
    intros H%IH. constructor; [|done]. apply plain_line_trim. right; right.
    by eapply dependencyListItem_prefix.
Qed.
Lemma retirementBodyLoop_incl P ls remove seen acc kept :
  retirementBodyLoop ls remove seen acc = Ok kept →
  Forall P ls → Forall P acc → Forall P kept.
Proof.
  intros H Hls. revert seen acc H.
  induction Hls as [|l ls Hl _ IH]; intros seen acc; simpl; [by intros [= <-]|].
  destruct (_ || _); [apply IH|]. destruct (dependencyListItem l); [|done].
  destruct (dependencyItemPath _) as [[]|]; [|done..]. destruct (bool_decide (_ ∈ _)); [done|].
  intros H Hacc. apply (IH _ _ H). case_bool_decide; [done|].
  apply Forall_app. by rewrite Forall_singleton.
Qed.

Lemma dep_skip_step l acc :
  TrimSpace l = "" ∨ TrimSpace l = "none" → dependencyStep l acc = Ok acc.
Proof.
  unfold dependencyStep, dependencyListItem. destruct acc. by intros [-> | ->].
Qed.

Lemma dep_lines_fold ls ps seen acc :
  dep_lines ls ps → NoDup ps → (∀ p, p ∈ ps → p ∉ seen) →
  dep_fold ls (seen, acc) = Ok (list_to_set ps ∪ seen, acc ++ ps).
Proof.
  intros H. revert seen acc.
  induction H as [|l ls ps Hl _ IH|l item p ls ps Hi Hr Hp _ IH]; intros seen acc Hnd Hs;
    rewrite ?dep_fold_cons.
  - unfold dep_fold; simpl. rewrite app_nil_r. do 2 f_equal. set_solver.
  - rewrite dep_skip_step by done. simpl. by apply IH.
  - unfold dependencyStep. rewrite Hi, Hr; simpl. rewrite (proj2 (ValidateActiveTaskPath_unit p ()) Hp); simpl.
    rewrite bool_decide_eq_false_2 by (apply Hs; set_solver). simpl.
    apply NoDup_cons in Hnd as [Hp' Hnd]. rewrite IH; [|done|set_solver].
    rewrite <-app_assoc. do 2 f_equal. set_solver.
Qed.

(** A body both accepted by the retirement and parsed: its references are what
    the parser read, and the kept lines reference the others. *)
Lemma retirementBodyLoop_lines ls remove seen seen' kept0 acc kept r :
  retirementBodyLoop ls remove seen kept0 = Ok kept → dep_fold ls (seen', acc) = Ok r →
  ∃ ps k, dep_lines ls ps ∧ NoDup ps ∧ (∀ p, p ∈ ps → p ∉ seen) ∧
    kept = kept0 ++ k ∧ dep_lines k (filter (λ p, p ≠ remove) ps).
Proof.
  revert seen seen' kept0 acc.
  induction ls as [|l ls IH]; intros seen seen' kept0 acc; rewrite ?dep_fold_cons;
    cbn [retirementBodyLoop].
  { intros [= <-] _. exists [], []. rewrite app_nil_r.
    split_and!; [constructor|constructor|set_solver|done|constructor]. }
  destruct (bool_decide (TrimSpace l = "") || bool_decide (TrimSpace l = "none")) eqn:E.
  { apply orb_true_iff in E. rewrite !bool_decide_eq_true in E.
    rewrite dep_skip_step by done. cbn. intros H1 H2.
    destruct (IH _ _ _ _ H1 H2) as (ps & k & ? & ? & ? & ? & ?). exists ps, k. eauto 10 with go. }
  unfold dependencyStep at 1.
  destruct (dependencyListItem l) as [item|] eqn:Ei; [|done].
  destruct (dependencyItemPath item) as [[p|]|] eqn:Er; [|done..].
  cbn. destruct (bool_decide (p ∈ seen)) eqn:Hin; [done|]. bool_simp. intros H1 H2.
  apply result_bind_Ok in H2 as ([seen2 acc2] & Hstep & H2).
  apply result_bind_Ok in Hstep as ([] & Hp%ValidateActiveTaskPath_unit & _).
  destruct (IH _ _ _ _ H1 H2) as (ps & k & Hps & Hnd & Hs & -> & Hk).
  exists (p :: ps). assert (p ∉ ps) by (intros ?%Hs; set_solver).
  case_bool_decide as Hr.
  - exists k. rewrite filter_cons_False by tauto.
    split_and!; [eauto with go|by constructor| |done|done].
    intros q [->|Hq]%elem_of_cons; [done|]. specialize (Hs _ Hq). set_solver.
  - exists (l :: k). rewrite <-app_assoc, filter_cons_True by done.
    split_and!; [eauto with go|by constructor| |done|eauto with go].
    intros q [->|Hq]%elem_of_cons; [done|]. specialize (Hs _ Hq). set_solver.
Qed.

Lemma retirementDependencyBody_lines ls remove body acc r :
  retirementDependencyBody ls remove = Ok body → dep_fold ls (∅, []) = Ok (acc, r) →
  dep_lines ls r ∧ NoDup r ∧ dep_lines body (filter (λ p, p ≠ remove) r).
Proof.
  unfold retirementDependencyBody. intros H Hf.
  apply result_bind_Ok in H as (kept & Hk & [= <-]).
  destruct (retirementBodyLoop_lines _ _ _ _ _ _ _ _ Hk Hf) as (ps & k & Hps & Hnd & _ & -> & Hk').
  rewrite (dep_lines_fold _ _ _ _ Hps Hnd) in Hf by set_solver. simplify_eq/=.
  split_and!; [done..|]. apply dep_skip; [by left|].
  rewrite <-(app_nil_r (filter _ _)). apply dep_lines_app; [|by apply dep_skip; [left|constructor]].
  case_decide as Hl; [|done]. destruct k; [|done]. inversion Hk'. apply dep_lines_filter_nil.
Qed.

(** The entry written for a parsed reference. *)
Lemma dep_lines_path c ls ps :
  dep_lines ls ps → Forall (no_char c) ls → Forall (λ p, no_char backtick p ∧ no_char c p) ps.
Proof.
  induction 1 as [|l ls ps Hl _ IH|l item p ls ps Hi Hr _ _ IH]; [done| |];
    intros [Hc ?]%Forall_cons; [by apply IH|].
  constructor; [|by apply IH].
  assert (no_char c item) as Hitem.
  { pose proof (dependencyListItem_prefix _ _ Hi) as [r Hpre]%HasPrefix_true.
    unfold dependencyListItem in Hi. rewrite Hpre, HasPrefix_app in Hi. simpl in Hi.
    rewrite TrimPrefix_app in Hi. simplify_eq. apply TrimSpace_no_char.
    apply TrimSpace_no_char in Hc. rewrite Hpre in Hc. by apply no_char_app in Hc as [_ ?]. }
  unfold dependencyItemPath in Hr. destruct (negb _); [done|].
  destruct (CountByte item backtick) as [|[|[|n]]] eqn:E; simplify_eq.
  - split; [by apply CountByte_zero|done].
  - destruct (HasPrefix item "`" && HasSuffix item "`") eqn:Eq; [|done].
    apply andb_true_iff in Eq as [H1 H2].
    destruct (quoted_inv item H1 H2 E) as (q & -> & Hq).
    rewrite slice_quoted in Hr. simplify_eq. split; [done|].
    unfold quoted in Hitem. rewrite !no_char_app in Hitem. tauto.
Qed.

(** ** Replacing the body of a section *)

Lemma h2_from_spec ls i :
  ∃ n, h2_from ls i = i + n ∧ n ≤ length ls ∧ section_end (drop n ls).
Proof.
  revert i. induction ls as [|l ls IH]; intros i; simpl; [exists 0; by rewrite Nat.add_0_r|].
  destruct (HasPrefix l "## ") eqn:E; [exists 0; rewrite Nat.add_0_r; split_and!; [done|lia|done]|].
  destruct (IH (S i)) as (n & -> & ? & ?). exists (S n). split_and!; [lia|lia|done].
Qed.

(** The split of a file at a section: text before, heading, body, text after. *)
Record section_split (heading : string) (ls : list string) (k : nat)
    (pre : list string) (h : string) (body post : list string) : Prop := {
  ss_ls : ls = pre ++ h :: body ++ post;
  ss_take : take (S k) ls = pre ++ [h];
  ss_drop : drop (retirementSectionEnd ls (Some k)) ls = post;
  ss_body : sub_list ls (S k) (retirementSectionEnd ls (Some k)) = body;
  ss_fence : fence_after pre 0 = 0;
  ss_heading : is_heading heading h = true;
  ss_pre : Forall (λ l, is_heading heading l = false) (visible_lines pre 0);
  ss_end : section_end post;
}.
Lemma section_split_found heading ls k :
  findUniqueTaskSection ls heading = Ok (Some k) →
  ∃ pre h body post, section_split heading ls k pre h body post.
Proof.
  intros (pre & h & rest & -> & -> & Hf & Hh & Hpre & _)%findUniqueTaskSection_Some.
  assert (drop (S (length pre)) (pre ++ h :: rest) = rest) as Hd.
  { rewrite drop_app_ge by lia. by replace (S (length pre) - length pre) with 1 by lia. }
  destruct (h2_from_spec rest (S (length pre))) as (n & Hn & Hle & Hend).
  exists pre, h, (take n rest), (drop n rest).
  assert (retirementSectionEnd (pre ++ h :: rest) (Some (length pre)) = S (length pre) + n) as He.
  { unfold retirementSectionEnd; simpl. by rewrite Hd. }
  constructor; rewrite ?He; try done.
  - by rewrite take_drop.
  - rewrite take_app_ge by lia. by replace (S (length pre) - length pre) with 1 by lia.
  - by rewrite <-drop_drop, Hd.
  - unfold sub_list. rewrite Hd. f_equal. lia.
  - unfold visible_lines. by rewrite Forall_fmap.
Qed.

(** The visible text around a plain body. *)
Lemma visible_split_section heading h pre body post :
  fence_after pre 0 = 0 → is_heading heading h = true → Forall plain_line body →
  visible_lines (pre ++ h :: body ++ post) 0 =
    visible_lines pre 0 ++ h :: body ++ visible_lines post 0.
Proof.
  intros Hf Hh Hb. rewrite visible_lines_app, Hf.
  rewrite visible_lines_cons by by apply is_h2_no_backticks, (is_heading_h2 heading).
  by rewrite visible_lines_app, fence_after_plain, (visible_lines_plain body).
Qed.
Lemma fence_split_section heading h pre body post :
  fence_after pre 0 = 0 → is_heading heading h = true → Forall plain_line body →
  fence_after (pre ++ h :: body ++ post) 0 = fence_after post 0.
Proof.
  intros Hf Hh Hb. rewrite fence_after_app, Hf. simpl.
  rewrite h2_outside by by eapply is_heading_h2. simpl.
  by rewrite fence_after_app, fence_after_plain.
Qed.
Lemma section_end_visible post : section_end post → section_end (visible_lines post 0).
Proof.
  destruct post as [|l post]; [done|]. simpl. intros Hl.
  by rewrite visible_lines_cons by by apply is_h2_no_backticks.
Qed.

Lemma heading_count_app heading l1 l2 :
  heading_count heading (l1 ++ l2) = heading_count heading l1 + heading_count heading l2.
Proof. unfold heading_count. by rewrite filter_app, length_app. Qed.
Lemma heading_count_plain heading body : Forall plain_line body → heading_count heading body = 0.
Proof.
  intros H. unfold heading_count. induction H as [|l body [_ Hl] _ IH]; [done|].
  rewrite filter_cons_False; [done|]. intros ?%is_heading_h2. congruence.
Qed.
Lemma take_until_section body post :
  Forall plain_line body → section_end post → take_until is_h2 (body ++ post) = body.
Proof.
  intros Hb Hp. assert (Forall (λ l, is_h2 l = false) body).
  { eapply Forall_impl; [exact Hb|]. by intros l [_ ?]. }
  destruct post as [|l post]; [by rewrite app_nil_r, take_until_none|]. by apply take_until_app.
Qed.

Lemma replace_body_count K A h B B' C :
  Forall plain_line B → Forall plain_line B' →
  heading_count K (A ++ h :: B ++ C) = heading_count K (A ++ h :: B' ++ C).
Proof.
  intros HB HB'. change (h :: B ++ C) with ([h] ++ B ++ C).
  change (h :: B' ++ C) with ([h] ++ B' ++ C). rewrite !heading_count_app.
  by rewrite (heading_count_plain K B), (heading_count_plain K B').
Qed.
Lemma replace_body_same heading A h B C :
  Forall (λ l, is_heading heading l = false) A → is_heading heading h = true →
  Forall plain_line B → section_end C →
  section_view heading (A ++ h :: B ++ C) = Some B.
Proof. intros. rewrite section_view_app by done. by rewrite take_until_section. Qed.
Lemma replace_body_other K A h B B' C :
  is_heading K h = false → is_h2 h = true → Forall plain_line B → Forall plain_line B' →
  section_view K (A ++ h :: B ++ C) = section_view K (A ++ h :: B' ++ C).
Proof.
  intros Hk Hh HB HB'. induction A as [|a A IH]; simpl.
  - rewrite Hk.
    assert (∀ B0, Forall plain_line B0 → section_view K (B0 ++ C) = section_view K C) as E.
    { induction 1 as [|l B0 [_ Hl] _ IH]; simpl; [done|].
      rewrite (not_true_is_false (is_heading K l)); [done|]. intros ?%is_heading_h2. congruence. }
    by rewrite !E.
  - destruct (is_heading K a); [|done]. do 1 f_equal. clear IH.
    induction A as [|b A IH]; simpl; [by rewrite Hh|]. by rewrite IH.
Qed.

(** ** The retired dependency state *)

Definition parses (ls : list string) (heading : string) (required : bool) (ps : list string) : Prop :=
  parseTaskDependencySection ls heading required = Ok ps.

Lemma parses_view ls heading required ps :
  parses ls heading required ps ↔
  heading_count heading (visible_lines ls 0) ≤ 1 ∧
  match section_view heading (visible_lines ls 0) with
  | None => required = false ∧ ps = []
  | Some b => ∃ seen, dep_fold b (∅, []) = Ok (seen, ps)
  end.
Proof.
  unfold parses. rewrite parseTaskDependencySection_view. cbv zeta.
  case_decide; [split; [done|lia]|]. destruct (section_view _ _) as [b|].
  - destruct (dep_fold b _) as [[seen ps']|]; split; try naive_solver.
    intros [= ->]. split; [lia|eauto].
  - destruct required; naive_solver lia.
Qed.

Lemma is_heading_other heading K h : is_heading heading h = true → K ≠ heading → is_heading K h = false.
Proof.
  unfold is_heading. intros [Hh E]%andb_true_iff Hne. apply bool_decide_eq_true in E.
  rewrite Hh; simpl. apply bool_decide_eq_false. congruence.
Qed.

(** Rewriting the body of one dependency section. *)
Lemma replace_parses heading ls k pre h body post remove body' required ps :
  section_split heading ls k pre h body post →
  parses ls heading required ps →
  retirementDependencyBody body remove = Ok body' →
  Forall plain_line body ∧ NoDup ps ∧ dep_lines body ps ∧
  dep_lines body' (filter (λ p, p ≠ remove) ps) ∧
  ∀ new qs, dep_lines new qs → NoDup qs →
    let ls' := take (S k) ls ++ new ++ post in
    parses ls' heading required qs ∧ fence_after ls' 0 = fence_after ls 0 ∧
    (∀ K, heading_count K (visible_lines ls' 0) = heading_count K (visible_lines ls 0)) ∧
    ∀ K r ps, K ≠ heading → parses ls K r ps → parses ls' K r ps.
Proof.
  intros S [Hc Hv]%parses_view Hb. destruct S as [Hls Htake _ _ Hf Hh Hpre Hend].
  assert (Forall plain_line body) as Hplain.
  { unfold retirementDependencyBody in Hb. apply result_bind_Ok in Hb as (kept & Hk & _).
    by eapply retirementBodyLoop_plain. }
  rewrite Hls, (visible_split_section heading) in Hv by done.
  rewrite replace_body_same in Hv; [|done..|by apply section_end_visible].
  destruct Hv as [seen Hfold].
  destruct (retirementDependencyBody_lines _ _ _ _ _ Hb Hfold) as (HL & Hnd & HL').
  split_and!; [done..|]. intros new qs Hnew Hqs. cbv zeta.
  pose proof (dep_lines_plain _ _ Hnew) as Hnp.
  rewrite Htake, <-app_assoc; simpl.
  assert (∀ K, heading_count K (visible_lines (pre ++ h :: new ++ post) 0) =
    heading_count K (visible_lines ls 0)) as Hcount.
  { intros K. rewrite Hls, !(visible_split_section heading) by done. by apply replace_body_count. }
  split_and!.
  - apply parses_view. rewrite Hcount. split; [done|].
    rewrite (visible_split_section heading) by done.
    rewrite replace_body_same; [|done..|by apply section_end_visible].
    eexists. by rewrite (dep_lines_fold _ _ _ _ Hnew Hqs) by set_solver.
  - by rewrite Hls, !(fence_split_section heading).
  - done.
  - intros K r ps' HK [Hc' Hv']%parses_view. apply parses_view. rewrite Hcount. split; [done|].
    rewrite Hls in Hv'. rewrite (visible_split_section heading) in * by done.
    rewrite (replace_body_other K _ h new body); [done| |by eapply is_heading_h2|done..].
    by eapply is_heading_other.
Qed.

Lemma parses_found ls heading ps :
  parses ls heading true ps → ∃ k, findUniqueTaskSection ls heading = Ok (Some k).
Proof.
  unfold parses, parseTaskDependencySection.
  destruct (findUniqueTaskSection ls heading) as [[k|]|]; simpl; [eauto|done..].
Qed.
Lemma parses_NoDup ls heading required ps :
  parses ls heading required ps → NoDup ps ∧ Forall task_path ps.
Proof. apply parseTaskDependencySection_Ok. Qed.

Lemma retirementDependencyBody_no_char c ls remove body :
  retirementDependencyBody ls remove = Ok body → no_char c "none" →
  Forall (no_char c) ls → Forall (no_char c) body.
Proof.
  unfold retirementDependencyBody. intros H Hn Hls.
  apply result_bind_Ok in H as (kept & Hk & [= <-]).
  apply (retirementBodyLoop_incl (no_char c)) in Hk; [|done|constructor].
  constructor; [done|]. apply Forall_app. split; [|by repeat constructor].
  case_decide; [by apply Forall_singleton|done].
Qed.

Lemma removeOutstanding_parses ls path ls1 os fs required :
  removeOutstanding ls path = Ok ls1 →
  parses ls TaskDependenciesHeading true os →
  parses ls TaskFulfilledDependenciesHeading required fs → Forall (no_char LF) ls →
  parses ls1 TaskDependenciesHeading true (filter (λ p, p ≠ path) os) ∧
  parses ls1 TaskFulfilledDependenciesHeading required fs ∧
  fence_after ls1 0 = fence_after ls 0 ∧ Forall (no_char LF) ls1 ∧
  (∀ K, heading_count K (visible_lines ls1 0) = heading_count K (visible_lines ls 0)) ∧
  Forall (λ p, no_char backtick p ∧ no_char LF p) os.
Proof.
  intros H Ho Hf Hls. unfold removeOutstanding in H.
  destruct (parses_found _ _ _ Ho) as [k Hk].
  apply result_bind_Ok in H as (start & Hk' & H). rewrite Hk in Hk'. apply (inj Ok) in Hk' as <-.
  cbv zeta in H. apply result_bind_Ok in H as (body' & Hb & H). apply (inj Ok) in H as <-.
  destruct (section_split_found _ _ _ Hk) as (pre & h & body & post & S).
  pose proof (ss_body _ _ _ _ _ _ _ S) as Eb. pose proof (ss_drop _ _ _ _ _ _ _ S) as Ed.
  unfold below in Hb |- *. rewrite Eb in Hb. rewrite Ed.
  destruct (replace_parses _ _ _ _ _ _ _ _ _ _ _ S Ho Hb) as (_ & Hnd & HL & HL' & Hnew).
  destruct (Hnew body' _ HL') as (H1 & H2 & Hcount & H3); [by apply NoDup_filter|].
  rewrite (ss_ls _ _ _ _ _ _ _ S) in Hls.
  apply Forall_app in Hls as [Hpre [Hh [Hbody Hpost]%Forall_app]%Forall_cons].
  split_and!; [done|by apply H3|done| |done|by eapply dep_lines_path].
  rewrite (ss_take _ _ _ _ _ _ _ S). rewrite !Forall_app, Forall_singleton.
  split_and!; try done. by eapply retirementDependencyBody_no_char.
Qed.

Lemma dependencyEntry_reads p ls ps :
  task_path p → no_char backtick p → dep_lines ls ps →
  dep_lines (dependencyEntry p :: ls) (p :: ps).
Proof.
  intros Hp Hb Hl.
  destruct (entry_line_reads (dependencyEntry p) planScheduleActive p Hb) as (_ & E2 & E3 & _);
    [by left|].
  apply (dep_item _ (quoted p)); [| |done|done].
  - unfold dependencyListItem. rewrite E2, E3. simpl. f_equal.
    change (dependencyEntry p) with ("- " +:+ quoted p).
    rewrite TrimPrefix_app. apply TrimSpace_id; [done|].
    unfold quoted. rewrite <-app_assoc_str. by rewrite ends_graphic_app.
  - unfold dependencyItemPath. destruct (quoted_prefix_suffix p) as [H1 H2].
    assert (Contains (quoted p) (TasksDir +:+ "/") = true) as ->.
    { apply Contains_true. destruct Hp as (segs & _ & _ & -> & _). unfold quoted.
      exists "`", (Join segs "/" +:+ "`"). by rewrite !app_assoc_str. }
    rewrite quoted_count, (proj2 (CountByte_zero p _) Hb), H1, H2, slice_quoted. done.
Qed.

Lemma parses_absent ls heading :
  findUniqueTaskSection ls heading = Ok None ↔ section_view heading (visible_lines ls 0) = None.
Proof.
  rewrite findUniqueTaskSection_None, section_view_none, <-headings_nil.
  unfold visible_lines. rewrite <-heading_count_visible. by destruct (headings _ _).
Qed.

Lemma plain_blank : Forall plain_line [""].
Proof. apply Forall_singleton. by split; vm_compute. Qed.

(** Appending plain lines and a new section extends at most the last body. *)
Lemma section_view_snoc_h2 heading vs b extra h rest :
  section_view heading vs = Some b → is_h2 h = true → Forall plain_line extra →
  section_view heading (vs ++ extra ++ h :: rest) = Some b ∨
  section_view heading (vs ++ extra ++ h :: rest) = Some (b ++ extra).
Proof.
  intros H Hh He. induction vs as [|v vs IH]; [done|]. simpl in *.
  destruct (is_heading heading v); [|by apply IH]. simplify_eq. clear IH.
  induction vs as [|w vs IH]; simpl.
  - right. f_equal. by apply (take_until_section extra (h :: rest)).
  - destruct (is_h2 w); [by left|]. destruct IH as [IH|IH]; simplify_eq; rewrite IH; auto.
Qed.

Lemma addFulfilled_parses ls old path ls2 os :
  addFulfilled ls old path = Ok ls2 →
  parses ls TaskDependenciesHeading true os →
  parses ls TaskFulfilledDependenciesHeading false old →
  task_path path → no_char backtick path → path ∉ old →
  fence_after ls 0 = 0 ∨ findUniqueTaskSection ls TaskFulfilledDependenciesHeading ≠ Ok None →
  parses ls2 TaskDependenciesHeading true os ∧
  parses ls2 TaskFulfilledDependenciesHeading false (old ++ [path]).
Proof.
  intros H Ho Hf Hp Hb Hnin Hfence. unfold addFulfilled in H.
  assert (dep_lines [dependencyEntry path; ""] [path]) as He.
  { apply dependencyEntry_reads; [done..|]. apply dep_skip; [by left|constructor]. }
  assert (NoDup (old ++ [path])) as Hnd.
  { apply parses_NoDup in Hf as [? _]. apply NoDup_app.
    split_and!; [done|set_solver|apply NoDup_singleton]. }
  apply result_bind_Ok in H as ([k|] & Hk & H); cbv zeta in H.
  - apply result_bind_Ok in H as (body' & Hbody & H). apply (inj Ok) in H as <-.
    destruct (section_split_found _ _ _ Hk) as (pre & h & body & post & S).
    pose proof (ss_body _ _ _ _ _ _ _ S) as Eb. pose proof (ss_drop _ _ _ _ _ _ _ S) as Ed.
    rewrite Eb in Hbody. rewrite Ed.
    destruct (replace_parses _ _ _ _ _ _ _ _ _ _ _ S Hf Hbody) as (_ & _ & _ & HL' & Hnew).
    set (new := if decide (length old = 0) then _ else _).
    assert (dep_lines new (old ++ [path])) as Hlines.
    { subst new. case_decide as Hl.
      - destruct old; [|done]. apply dep_skip; [by left|done].
      - apply dep_lines_app; [|done]. rewrite (filter_true (λ p, p ≠ "")) in HL'; [done|].
        apply parses_NoDup in Hf as [_ Ht]. eapply Forall_impl; [exact Ht|].
        intros p (? & _ & _ & -> & _). done. }
    destruct (Hnew new _ Hlines Hnd) as (H1 & _ & _ & H3). split; [by apply H3|done].
  - apply (inj Ok) in H as <-. destruct Hfence as [Hfence|]; [|done].
    set (tail := [""; _; ""; _; ""]).
    assert (visible_lines (ls ++ tail) 0 = visible_lines ls 0 ++ tail) as Ev.
    { rewrite visible_lines_app, Hfence. done. }
    apply parses_view in Ho as [Hc Hv]. apply parses_view in Hf as [Hc' Hv'].
    assert (section_view TaskFulfilledDependenciesHeading (visible_lines ls 0) = None) as Hno.
    { by apply parses_absent. }
    rewrite Hno in Hv'. destruct Hv' as [_ ->].
    apply section_view_none in Hno.
    rewrite !parses_view, !Ev, !heading_count_app, Hno. split.
    + split; [by rewrite Nat.add_0_r|]. destruct (section_view _ _) as [b|] eqn:E in Hv; [|naive_solver].
      destruct Hv as [seen Hv].
      destruct (section_view_snoc_h2 _ _ b [""] TaskFulfilledDependenciesHeading
        [""; dependencyEntry path; ""] E) as [E'|E']; [done|apply plain_blank|..];
        (match type of E' with _ = ?r =>
           change (section_view TaskDependenciesHeading (visible_lines ls 0 ++ tail) = r) in E' end);
        rewrite E'; exists seen; by rewrite ?dep_fold_app, Hv.
    + split; [by change (heading_count TaskFulfilledDependenciesHeading tail) with 1|].
      change tail with ([""] ++ TaskFulfilledDependenciesHeading :: [""; dependencyEntry path; ""]).
      rewrite app_assoc, section_view_app; [|apply Forall_app; split|done].
      * exists ({[path]} ∪ ∅). change (take_until _ _) with [""; dependencyEntry path; ""].
        rewrite (dep_lines_fold _ [path]); [simpl; do 2 f_equal; set_solver| | |set_solver].
        -- apply dep_skip; [by left|done].
        -- apply NoDup_singleton.
      * unfold visible_lines. rewrite Forall_fmap. apply (proj1 (findUniqueTaskSection_None _ _) Hk).
      * apply Forall_singleton. by vm_compute.
Qed.

Lemma addFulfilled_no_char ls old path ls2 :
  addFulfilled ls old path = Ok ls2 →
  no_char LF path → Forall (no_char LF) ls → Forall (no_char LF) ls2.
Proof.
  intros H Hp Hls. unfold addFulfilled in H.
  assert (no_char LF (dependencyEntry path)) as He.
  { unfold dependencyEntry. rewrite !no_char_app. simpl. intuition discriminate. }
  apply result_bind_Ok in H as ([k|] & Hk & H); cbv zeta in H.
  - apply result_bind_Ok in H as (body' & Hbody & H). apply (inj Ok) in H as <-.
    rewrite !Forall_app. split_and!; [by apply Forall_take| |by apply Forall_drop].
    case_decide; [by repeat (apply Forall_cons; split)|].
    apply Forall_app. split; [|by repeat (apply Forall_cons; split)].
    eapply retirementDependencyBody_no_char; [exact Hbody|by vm_compute; intuition discriminate|].
    by apply Forall_take, Forall_drop.
  - apply (inj Ok) in H as <-. apply Forall_app. split; [done|].
    by repeat (apply Forall_cons; split).
Qed.

(** Whether the file can take the fulfilled record: it has a fulfilled section,
    or no fence is left open at its end. *)
Definition fulfillable (content : string) : Prop :=
  fence_after (lines content) 0 = 0 ∨
  findUniqueTaskSection (lines content) TaskFulfilledDependenciesHeading ≠ Ok None.

(** Retiring an outstanding dependency moves exactly that path: the edited
    file's outstanding paths are the others in order, and the path is appended
    to the fulfilled ones; a path that is not outstanding leaves the file
    untouched. *)
Theorem RetireTaskDependency_moves content path content' changed st :
  ParseTaskDependencyState content = Ok st → fulfillable content →
  RetireTaskDependency content path = Ok (content', changed) →
  (changed = true ↔ path ∈ Outstanding st) ∧
  if changed then
    ParseTaskDependencyState content' =
      Ok {| Outstanding := filter (λ p, p ≠ path) (Outstanding st);
            Fulfilled := Fulfilled st ++ [path] |}
  else content' = content.
Proof.
  intros Hst Hok H. unfold RetireTaskDependency in H. rewrite Hst in H. cbn [mbind result_bind] in H.
  destruct (negb _) eqn:E in H.
  { apply negb_true_iff, containsSchedulePath_false in E. by simplify_eq. }
  apply negb_false_iff, containsSchedulePath_true in E.
  apply result_bind_Ok in H as (l1 & H1 & H). apply result_bind_Ok in H as (l2 & H2 & H).
  cbv zeta in H. apply result_bind_Ok in H as (st' & H3 & H). simplify_eq. split; [done|].
  rewrite H3. apply ParseTaskDependencyState_sections in Hst as (Ho & Hf & Hd).
  pose proof (parses_NoDup _ _ _ _ Ho) as [_ Hpaths].
  destruct (removeOutstanding_parses _ _ _ _ _ _ H1 Ho Hf) as (Ho1 & Hf1 & Hfe & Hl1 & _ & Hc);
    [apply Split_no_char|].
  rewrite Forall_forall in Hpaths, Hc. destruct (Hc _ E) as [Hb Hl].
  assert (Forall (no_char LF) l2) as Hl2.
  { eapply addFulfilled_no_char; [exact H2|done..]. }
  apply addFulfilled_parses with (os := filter (λ p, p ≠ path) (Outstanding st)) in H2
    as [Ho2 Hf2]; [|by auto..|].
  - apply ParseTaskDependencyState_sections in H3 as (Ho3 & Hf3 & _).
    unfold lines in Ho3, Hf3. rewrite (Split_Join _ LF) in Ho3, Hf3.
    + unfold parses in *. rewrite Ho2 in Ho3. rewrite Hf2 in Hf3. simplify_eq.
      destruct st'; simpl in *; by subst.
    + intros ->. by vm_compute in Ho2.
    + done.
    + intros ->. by vm_compute in Ho2.
    + done.
  - rewrite Hfe. destruct Hok as [?|Hsome]; [by left|right]. intros Hnone.
    assert (parses (lines content) TaskFulfilledDependenciesHeading true (Fulfilled st)) as Ht.
    { unfold parses, parseTaskDependencySection in *.
      by destruct (findUniqueTaskSection _ TaskFulfilledDependenciesHeading) as [[]|]. }
    destruct (removeOutstanding_parses _ _ _ _ _ _ H1 Ho Ht) as (_ & Ht1 & _);
      [apply Split_no_char|].
    destruct (parses_found _ _ _ Ht1) as [k Hk]. congruence.
Qed.

(** *** A fence that is left open

    In a fence nothing is visible, so what is appended there changes no section. *)
Lemma visible_fenced ls i fence :
  fence ≠ 0 → Forall (λ l, leadingBackticks l = 0) ls → visible ls i fence = [].
Proof.
  intros Hf Hls. revert i. induction Hls as [|l ls Hl _ IH]; intros i; [done|].
  simpl. unfold lineOutsideFence. rewrite Hl, decide_True, decide_False by lia. apply IH.
Qed.
Lemma visible_append_fenced ls1 ls2 :
  fence_after ls1 0 ≠ 0 → Forall (λ l, leadingBackticks l = 0) ls2 →
  visible_lines (ls1 ++ ls2) 0 = visible_lines ls1 0.
Proof.
  intros Hf Hls. rewrite visible_lines_app. unfold visible_lines at 2. by rewrite visible_fenced, app_nil_r.
Qed.
Lemma addFulfilled_fenced ls old path :
  findUniqueTaskSection ls TaskFulfilledDependenciesHeading = Ok None → fence_after ls 0 ≠ 0 →
  ∃ ls2, addFulfilled ls old path = Ok ls2 ∧ ∀ K r ps, parses ls K r ps → parses ls2 K r ps.
Proof.
  intros Hn Hf. unfold addFulfilled. rewrite Hn. eexists. split; [reflexivity|]. intros K r ps.
  rewrite !parses_view, visible_append_fenced; [done|done|by repeat constructor].
Qed.
Lemma ParseTaskDependencyState_intro content os :
  parses (lines content) TaskDependenciesHeading true os →
  parses (lines content) TaskFulfilledDependenciesHeading false [] →
  ParseTaskDependencyState content = Ok {| Outstanding := os; Fulfilled := [] |}.
Proof.
  unfold parses, ParseTaskDependencyState. cbv zeta. intros -> ->. cbn [mbind result_bind].
  by replace (find _ os) with (@None string) by (by induction os).
Qed.
(** C37: A fence that is left open swallows the record.  When a task file ends inside an
    unterminated code fence and has no section of fulfilled dependencies, retiring an
    outstanding dependency whose section can be rewritten succeeds and reports that
    the file has changed, but the record is appended inside the fence: the parser of
    the same package reads the new file as one in which that dependency is not
    outstanding any more and nothing is fulfilled. *)
Theorem RetireTaskDependency_open_fence_loses_record content st path ls :
  ParseTaskDependencyState content = Ok st → path ∈ Outstanding st →
  fence_after (lines content) 0 ≠ 0 →
  findUniqueTaskSection (lines content) TaskFulfilledDependenciesHeading = Ok None →
  removeOutstanding (lines content) path = Ok ls →
  ∃ content', RetireTaskDependency content path = Ok (content', true) ∧
    ParseTaskDependencyState content' =
      Ok {| Outstanding := filter (λ p, p ≠ path) (Outstanding st); Fulfilled := [] |}.
Proof.
  intros Hst Hin Hfence Hnone Hls. unfold RetireTaskDependency. rewrite Hst. cbn [mbind result_bind].
  replace (containsSchedulePath (Outstanding st) path) with true by (symmetry; by apply containsSchedulePath_true).
  rewrite Hls. cbn [negb mbind result_bind].
  apply ParseTaskDependencyState_sections in Hst as (Ho & Hf & _).
  assert (Fulfilled st = []) as Hst by (unfold parseTaskDependencySection in Hf; rewrite Hnone in Hf; by injection Hf).
  rewrite Hst in *.
  destruct (removeOutstanding_parses _ _ _ _ _ _ Hls Ho Hf) as (Ho1 & Hf1 & Hfe & Hl1 & Hcount & Hc);
    [apply Split_no_char|].
  assert (findUniqueTaskSection ls TaskFulfilledDependenciesHeading = Ok None) as Hn1.
  { apply parses_absent, section_view_none. rewrite Hcount. by apply section_view_none, parses_absent. }
  destruct (addFulfilled_fenced ls [] path Hn1) as (ls2 & E2 & Hparse); [by rewrite Hfe|].
  rewrite E2. cbn [mbind result_bind]. cbv zeta. apply Hparse in Ho1, Hf1.
  rewrite Forall_forall in Hc. destruct (Hc _ Hin) as [_ Hl].
  assert (lines (Join ls2 newline) = ls2) as El.
  { unfold lines. apply Split_Join; [intros ->; by vm_compute in Ho1|by eapply addFulfilled_no_char]. }
  assert (ParseTaskDependencyState (Join ls2 newline) =
    Ok {| Outstanding := filter (λ p, p ≠ path) (Outstanding st); Fulfilled := [] |}) as Hfinal
    by (apply ParseTaskDependencyState_intro; by rewrite El).
  exists (Join ls2 newline). by rewrite Hfinal.
Qed.

(** ** Concrete runs *)

Definition sample_task : string :=
  "# Task
## Dependencies
- `IMPLEMENTATION_TASKS/a.md`
- `IMPLEMENTATION_TASKS/b.md`
## Notes
text".
Definition sample_task_retired : string :=
  "# Task
## Dependencies

- `IMPLEMENTATION_TASKS/b.md`

## Notes
text

## Fulfilled dependencies

- `IMPLEMENTATION_TASKS/a.md`
".
Lemma RetireTaskDependency_moves_witness :
  RetireTaskDependency sample_task "IMPLEMENTATION_TASKS/a.md" = Ok (sample_task_retired, true) ∧
  ParseTaskDependencyState sample_task_retired =
    Ok {| Outstanding := ["IMPLEMENTATION_TASKS/b.md"]; Fulfilled := ["IMPLEMENTATION_TASKS/a.md"] |}.
Proof.
  split; [vm_compute; reflexivity|].
  refine (proj2 (RetireTaskDependency_moves sample_task "IMPLEMENTATION_TASKS/a.md"
    sample_task_retired true
    {| Outstanding := ["IMPLEMENTATION_TASKS/a.md"; "IMPLEMENTATION_TASKS/b.md"]; Fulfilled := [] |}
    _ _ _)).
  - vm_compute; reflexivity.
  - left. vm_compute. reflexivity.
  - vm_compute; reflexivity.
Defined.

(** Why [fulfillable] is needed: with a fence left open after the dependencies
    and no fulfilled section, the record lands inside the fence. *)
Definition sample_task_open_fence : string :=
  "## Dependencies
- `IMPLEMENTATION_TASKS/a.md`
## Notes
```
text".
Lemma RetireTaskDependency_open_fence_loses_record_witness :
  ∃ content', RetireTaskDependency sample_task_open_fence "IMPLEMENTATION_TASKS/a.md" = Ok (content', true) ∧
    ParseTaskDependencyState content' = Ok {| Outstanding := []; Fulfilled := [] |}.
Proof.
  destruct (RetireTaskDependency_open_fence_loses_record sample_task_open_fence
    {| Outstanding := ["IMPLEMENTATION_TASKS/a.md"]; Fulfilled := [] |} "IMPLEMENTATION_TASKS/a.md"
    ["## Dependencies"; ""; "none"; ""; "## Notes"; "```"; "text"]) as (content' & Hretire & Hparse).
  - vm_compute. reflexivity.
  - left.
  - vm_compute. discriminate.
  - vm_compute. reflexivity.
  - vm_compute. reflexivity.
  - exists content'. split; [exact Hretire|]. rewrite Hparse. reflexivity.
Defined.

Definition sample_plan : string :=
  "# Plan
## ACTIVE
- `IMPLEMENTATION_TASKS/a.md`
## NEXT
- [`IMPLEMENTATION_TASKS/b.md`](IMPLEMENTATION_TASKS/b.md)
- IMPLEMENTATION_TASKS/c.md
## BLOCKED
- IMPLEMENTATION_TASKS/d.md
".
Definition sample_plan_retired : string :=
  "# Plan
## ACTIVE
- `IMPLEMENTATION_TASKS/b.md`
## NEXT
- IMPLEMENTATION_TASKS/c.md
## BLOCKED
- IMPLEMENTATION_TASKS/d.md
".
Lemma RetirePlanTask_schedule_witness :
  RetirePlanTask sample_plan "IMPLEMENTATION_TASKS/a.md" "IMPLEMENTATION_TASKS/b.md"
    = Ok sample_plan_retired ∧
  Next (ParsePlanSchedule sample_plan_retired) =
    retire_entries planScheduleNext "IMPLEMENTATION_TASKS/a.md" "IMPLEMENTATION_TASKS/b.md"
      (Next (ParsePlanSchedule sample_plan)).
Proof.
  split; [vm_compute; reflexivity|].
  refine (proj1 (proj2 (proj2 (proj2 (proj2 (RetirePlanTask_schedule sample_plan
    "IMPLEMENTATION_TASKS/a.md" "IMPLEMENTATION_TASKS/b.md" sample_plan_retired _)))))).
  vm_compute; reflexivity.
Defined.
