(* ===== verification/TaskSections.v ===== *)
(** * The remaining task and plan sections

    Models [goal.go], [execution_authority.go], [darwin_acceptance.go] and the
    validation half of [machine_acceptance.go] of [internal/taskcontract]: the
    plan's GOAL status, the task's execution mode, its Darwin tests and its
    machine-verifiable acceptance requirements.  The theorems relate each
    parser to the lines of its section. *)
From S2P Require Import Prelude GoStrings TaskLines TaskContract.

(** ** Plan goal *)

Record PlanGoal := { pg_Present : bool; pg_Status : string }.

Definition PlanGoalHeading : string := "## GOAL".
Definition GoalStatusActive : string := "active".
Definition GoalStatusCompleted : string := "completed".
Definition goalStatusKey : string := "status".
Definition goalStatusValues : list string := [GoalStatusActive; GoalStatusCompleted].

Definition knownGoalStatus (value : string) : bool :=
  existsb (λ known, bool_decide (value = known)) goalStatusValues.

Definition findGoalSection (ls : list string) : result error (option nat) :=
  let '(headingAt, sections) := scanHeadings PlanGoalHeading ls 0 None 0 0 in
  if decide (1 < sections) then Err (Errorf "GOAL節が複数あります(%d節)" [AInt sections])
  else Ok headingAt.

(** The accumulator is Go's [status, seen]; [status] is only read once [seen]. *)
Definition goalStep (line : string) (seen : option string) : result error (option string) :=
  let trimmed := TrimSpace line in
  if bool_decide (trimmed = "") || HasPrefix trimmed "-" then Ok seen else
  let '(key, value, _) := Cut trimmed ":" in
  if negb (bool_decide (TrimSpace key = goalStatusKey)) then Ok seen else
  reject! bool_decide (seen ≠ None)
    with Errorf "GOAL節の%sが複数あります" [AStr goalStatusKey];
  let value := TrimSpace value in
  reject! negb (knownGoalStatus value)
    with Errorf "GOAL節の%s %qは未知です(%s)"
           [AStr goalStatusKey; AStr value; AStr (Join goalStatusValues "/")];
  Ok (Some value).
Definition parseGoalStatus (ls : list string) (headingAt : nat) : result error string :=
  status ← sectionLoop (λ _, goalStep) (drop (S headingAt) ls) (S headingAt) 0 None;
  match status with
  | Some status => Ok status
  | None => Err (Errorf "GOAL節に%s: %s形式の行がありません(%s)"
      [AStr goalStatusKey; AStr (Join goalStatusValues "/"); AStr goalStatusKey])
  end.

Definition ParsePlanGoal (planContent : string) : result error PlanGoal :=
  let ls := lines planContent in
  headingAt ← findGoalSection ls;
  match headingAt with
  | None => Ok {| pg_Present := false; pg_Status := "" |}
  | Some at_ =>
      status ← parseGoalStatus ls at_;
      Ok {| pg_Present := true; pg_Status := status |}
  end.

(** ** Execution authority *)

Record ExecutionAuthority := { ea_Present : bool; ea_Mode : string }.

Definition ExecutionAuthorityHeading : string := "## Execution authority".
Definition ExecutionAuthorityModeParentOnly : string := "parent-only".
Definition ExecutionAuthorityModeGLM : string := "glm".

(** [values] only ever holds the key [mode]. *)
Definition authorityStep (index : nat) (line : string) (values : gmap string string) :
    result error (gmap string string) :=
  let trimmed := TrimSpace line in
  if bool_decide (trimmed = "") then Ok values else
  let '(key, value, ok) := Cut trimmed ":" in
  let key := TrimSpace key in
  let value := TrimSpace value in
  reject! negb ok || negb (bool_decide (key = "mode"))
    with Errorf "%s節の%d行目 %qがmode: value形式ではありません"
           [AStr ExecutionAuthorityHeading; AInt (S index); AStr trimmed];
  reject! bool_decide (values !! key ≠ None)
    with Errorf "%s節のkey %qが重複しています" [AStr ExecutionAuthorityHeading; AStr key];
  reject! bool_decide (value = "")
    with Errorf "%s節のkey %qのvalueが空です" [AStr ExecutionAuthorityHeading; AStr key];
  Ok (<[key := value]> values).
Definition parseExecutionAuthorityValues (ls : list string) (headingAt : nat) :
    result error (gmap string string) :=
  sectionLoop authorityStep (drop (S headingAt) ls) (S headingAt) 0 ∅.

Definition ParseExecutionAuthority (content : string) : result error ExecutionAuthority :=
  let ls := lines content in
  headingAt ← findUniqueTaskSection ls ExecutionAuthorityHeading;
  match headingAt with
  | None => Ok {| ea_Present := false; ea_Mode := "" |}
  | Some at_ =>
      values ← parseExecutionAuthorityValues ls at_;
      match values !! "mode" with
      | None => Err (Errorf "%s節にmodeがありません(parent-only/glm)" [AStr ExecutionAuthorityHeading])
      | Some mode =>
          if bool_decide (mode = ExecutionAuthorityModeParentOnly)
             || bool_decide (mode = ExecutionAuthorityModeGLM)
          then Ok {| ea_Present := true; ea_Mode := mode |}
          else Err (Errorf "%s節のmode %qは未知です(parent-only/glm)"
                      [AStr ExecutionAuthorityHeading; AStr mode])
      end
  end.

(** ** Darwin acceptance *)

Definition DarwinAcceptanceHeading : string := "## Darwin acceptance".

(** This loop does not track fences. *)
Fixpoint darwinLoop (ls tests : list string) : result error (list string) :=
  match ls with
  | [] => Ok tests
  | line :: ls =>
      if HasPrefix line "## " then Ok tests else
      if bool_decide (TrimSpace line = "") then darwinLoop ls tests else
      match CutPrefix line "- `" with
      | Some entry =>
          if HasSuffix entry "`" then darwinLoop ls (tests ++ [TrimSuffix entry "`"])
          else Err (Errorf "%s requires a list of package:TestName entries" [AStr DarwinAcceptanceHeading])
      | None => Err (Errorf "%s requires a list of package:TestName entries" [AStr DarwinAcceptanceHeading])
      end
  end.
Definition ParseDarwinAcceptance (content : string) : result error (list string) :=
  let ls := lines content in
  heading ← findUniqueTaskSection ls DarwinAcceptanceHeading;
  match heading with
  | None => Ok []
  | Some at_ =>
      tests ← darwinLoop (drop (S at_) ls) [];
      reject! bool_decide (length tests = 0)
        with Errorf "%s does not declare a test" [AStr DarwinAcceptanceHeading];
      Ok tests
  end.

(** ** Machine acceptance: the section body and the document's admission *)

Definition MachineAcceptanceHeading : string := "## Machine-verifiable acceptance".
Definition MachineAcceptanceSchema : string := "task-machine-acceptance/v1".
Definition MachineFactFailurePathAdvisoryObserved : string := "failure-path-advisory-observed".
Definition MachineFactFailurePathAdvisoryShown : string := "failure-path-advisory-shown".
Definition machineAcceptanceMaxRequirements : nat := 16.

Record MachineAcceptanceRequirement := { mr_ID : string; mr_Fact : string }.
Record machineAcceptanceDocument := {
  md_Schema : string;
  md_Requirements : list MachineAcceptanceRequirement;
}.

Fixpoint machineBodyLoop (ls body : list string) : list string :=
  match ls with
  | [] => body
  | line :: ls => if HasPrefix line "## " then body else machineBodyLoop ls (body ++ [line])
  end.
Definition machineAcceptanceBody (ls : list string) (headingAt : nat) : string :=
  TrimSpace (Join (machineBodyLoop (drop (S headingAt) ls) []) newline).

Definition lower_or_digit (c : ascii) : bool :=
  let n := byte c in ((97 <=? n) && (n <=? 122) || (48 <=? n) && (n <=? 57))%N.
Definition id_tail_byte (c : ascii) : bool :=
  lower_or_digit c || bool_decide (c ∈ ["."; "_"; "-"]%char).
Fixpoint all_bytes (p : ascii → bool) (s : string) : bool :=
  match s with "" => true | String c s => p c && all_bytes p s end.
(** The regular expression [^[a-z0-9][a-z0-9._-]{0,63}$]. *)
Definition machineAcceptanceIDPattern (s : string) : bool :=
  match s with
  | "" => false
  | String c s => lower_or_digit c && all_bytes id_tail_byte s && bool_decide (String.length s ≤ 63)
  end.

Definition machineAcceptanceFacts (fact : string) : bool :=
  bool_decide (fact = MachineFactFailurePathAdvisoryObserved)
  || bool_decide (fact = MachineFactFailurePathAdvisoryShown).

Fixpoint validateRequirements (requirements : list MachineAcceptanceRequirement) (index : nat)
    (seen : gset string) : result error unit :=
  match requirements with
  | [] => Ok ()
  | requirement :: requirements =>
      reject! negb (machineAcceptanceIDPattern (mr_ID requirement))
        with Errorf "%s節requirements[%d]のidが不正です: %q"
               [AStr MachineAcceptanceHeading; AInt index; AStr (mr_ID requirement)];
      reject! bool_decide (mr_ID requirement ∈ seen)
        with Errorf "%s節のrequirement id %qが重複しています"
               [AStr MachineAcceptanceHeading; AStr (mr_ID requirement)];
      reject! negb (machineAcceptanceFacts (mr_Fact requirement))
        with Errorf "%s節requirements[%d]のfactが未対応です: %q"
               [AStr MachineAcceptanceHeading; AInt index; AStr (mr_Fact requirement)];
      validateRequirements requirements (S index) ({[mr_ID requirement]} ∪ seen)
  end.
Definition validateMachineAcceptanceDocument (document : machineAcceptanceDocument) :
    result error unit :=
  reject! negb (bool_decide (md_Schema document = MachineAcceptanceSchema))
    with Errorf "%s節のschemaが不正です: %q" [AStr MachineAcceptanceHeading; AStr (md_Schema document)];
  let requirements := md_Requirements document in
  reject! bool_decide (length requirements = 0)
    with Errorf "%s節のrequirementsが空です" [AStr MachineAcceptanceHeading];
  reject! bool_decide (machineAcceptanceMaxRequirements < length requirements)
    with Errorf "%s節のrequirementsが上限%d件を超えています"
           [AStr MachineAcceptanceHeading; AInt machineAcceptanceMaxRequirements];
  validateRequirements requirements 0 ∅.

(** ** What the sections admit *)

(** The status value of a line of the GOAL section, if it is a status line. *)
Definition goal_value (line : string) : option string :=
  let trimmed := TrimSpace line in
  if bool_decide (trimmed = "") || HasPrefix trimmed "-" then None else
  let '(key, value, _) := Cut trimmed ":" in
  if bool_decide (TrimSpace key = goalStatusKey) then Some (TrimSpace value) else None.

Lemma goalStep_value line seen :
  goalStep line seen =
    match goal_value line with
    | None => Ok seen
    | Some v =>
        reject! bool_decide (seen ≠ None)
          with Errorf "GOAL節の%sが複数あります" [AStr goalStatusKey];
        reject! negb (knownGoalStatus v)
          with Errorf "GOAL節の%s %qは未知です(%s)"
                 [AStr goalStatusKey; AStr v; AStr (Join goalStatusValues "/")];
        Ok (Some v)
    end.
Proof.
  unfold goalStep, goal_value. destruct (_ || _); [done|].
  destruct (Cut _ _) as [[k v] ok]. by destruct (bool_decide (TrimSpace k = _)).
Qed.
Lemma goal_fold body seen r :
  foldBody (λ _, goalStep) ((λ l, (0, l)) <$> body) seen = Ok r ↔
  match seen, omap goal_value body with
  | _, [] => r = seen
  | None, [v] => knownGoalStatus v = true ∧ r = Some v
  | _, _ => False
  end.
Proof.
  revert seen. induction body as [|l body IH]; intros seen; csimpl.
  { destruct seen; naive_solver. }
  rewrite goalStep_value. destruct (goal_value l) as [v|]; [|apply IH].
  destruct seen as [s|]; simpl; [naive_solver|].
  destruct (knownGoalStatus v) eqn:Ev; simpl; [rewrite IH|];
    destruct (omap goal_value body); naive_solver.
Qed.

(** the plan's goal is absent exactly when there is no GOAL section, and is
    otherwise the one known status its section declares: several sections,
    several status lines, none, or an unknown status are rejected. *)
Theorem ParsePlanGoal_spec plan g :
  ParsePlanGoal plan = Ok g ↔
  heading_count PlanGoalHeading (visible_lines (lines plan) 0) ≤ 1 ∧
  match section_view PlanGoalHeading (visible_lines (lines plan) 0) with
  | None => g = {| pg_Present := false; pg_Status := "" |}
  | Some body => ∃ v, omap goal_value body = [v] ∧ knownGoalStatus v = true ∧
      g = {| pg_Present := true; pg_Status := v |}
  end.
Proof.
  unfold ParsePlanGoal, parseGoalStatus. pose proof (unique_section (lines plan) PlanGoalHeading) as U.
  unfold findGoalSection. unfold findUniqueTaskSection in U. cbv zeta in *.
  destruct (scanHeadings _ _ _ _ _ _) as [[k|] n]; case_decide; simpl in *.
  1,3: split; [done|]; intros [? _]; lia.
  - destruct U as (Hc & body & Hv & Hl). rewrite Hv, result_bind_Ok.
    setoid_rewrite result_bind_Ok. setoid_rewrite Hl. setoid_rewrite goal_fold.
    split.
    + intros (s & (o & Ho & Hs) & [= <-]). split; [done|].
      destruct (omap goal_value body) as [|v [|]]; [naive_solver| |done].
      destruct Ho as [? ->]. simplify_eq. eauto.
    + intros (_ & v & E & Hk & ->). exists v. split; [|done]. exists (Some v). by rewrite E.
  - destruct U as [Hc Hv]. rewrite Hv. naive_solver.
Qed.

(** The mode a line of the authority section declares. *)
Definition authority_mode (line : string) : option string :=
  let '(key, value, ok) := Cut (TrimSpace line) ":" in
  if ok && bool_decide (TrimSpace key = "mode") && negb (bool_decide (TrimSpace value = ""))
  then Some (TrimSpace value) else None.
Definition blank_line (line : string) : bool := bool_decide (TrimSpace line = "").

Lemma authorityStep_line line values r :
  authorityStep 0 line values = Ok r ↔
  if blank_line line then r = values
  else ∃ v, values !! "mode" = None ∧ authority_mode line = Some v ∧ r = <["mode" := v]> values.
Proof.
  unfold authorityStep, authority_mode, blank_line.
  destruct (bool_decide (TrimSpace line = "")); [naive_solver|].
  destruct (Cut (TrimSpace line) ":") as [[k v] []]; simpl; [|naive_solver].
  case_bool_decide as Hk; simpl; [rewrite Hk|naive_solver].
  case_bool_decide as Hd; [naive_solver|].
  destruct (bool_decide (TrimSpace v = "")); naive_solver.
Qed.
Lemma authorityStep_index i j l acc r :
  authorityStep i l acc = Ok r → authorityStep j l acc = Ok r.
Proof.
  unfold authorityStep. destruct (bool_decide _); [done|].
  destruct (Cut _ _) as [[? ?] ?]. by destruct (_ || _).
Qed.
Lemma authority_fold body values r :
  foldBody (λ _, authorityStep 0) ((λ l, (0, l)) <$> body) values = Ok r ↔
  match filter (λ l, blank_line l = false) body with
  | [] => r = values
  | [l] => ∃ v, values !! "mode" = None ∧ authority_mode l = Some v ∧ r = <["mode" := v]> values
  | _ => False
  end.
Proof.
  revert values. induction body as [|l body IH]; intros values; [naive_solver|].
  rewrite fmap_cons, foldBody_cons, result_bind_Ok, filter_cons.
  setoid_rewrite authorityStep_line. setoid_rewrite IH.
  destruct (blank_line l); [rewrite decide_False by done; naive_solver|].
  rewrite decide_True by done. destruct (filter _ body) as [|l' [|]]; [naive_solver| |naive_solver].
  split; [|done]. intros (? & (v & _ & _ & ->) & ? & H & _). by rewrite lookup_insert_eq in H.
Qed.

(** A task's execution mode is absent exactly when it has no authority
    section, and is otherwise admitted exactly when the one section consists
    of a single non-blank line declaring [parent-only] or [glm]. *)
Theorem ParseExecutionAuthority_spec content a :
  ParseExecutionAuthority content = Ok a ↔
  heading_count ExecutionAuthorityHeading (visible_lines (lines content) 0) ≤ 1 ∧
  match section_view ExecutionAuthorityHeading (visible_lines (lines content) 0) with
  | None => a = {| ea_Present := false; ea_Mode := "" |}
  | Some body => ∃ line mode, filter (λ l, blank_line l = false) body = [line] ∧
      authority_mode line = Some mode ∧ (mode = "parent-only" ∨ mode = "glm") ∧
      a = {| ea_Present := true; ea_Mode := mode |}
  end.
Proof.
  unfold ParseExecutionAuthority, parseExecutionAuthorityValues.
  pose proof (unique_section (lines content) ExecutionAuthorityHeading) as U. cbv zeta in *.
  destruct (findUniqueTaskSection _ _) as [[k|]|]; simpl in *.
  - destruct U as (Hc & body & -> & Hl). rewrite result_bind_Ok.
    setoid_rewrite sectionLoop_ok_index; [|exact authorityStep_index].
    setoid_rewrite Hl. setoid_rewrite authority_fold.
    destruct (filter _ body) as [|l [|]]; [naive_solver| |naive_solver]. split.
    + intros (values & (v & _ & Hm & ->) & H). rewrite lookup_insert_eq in H.
      destruct (bool_decide _ || bool_decide _) eqn:E; [|done]. simplify_eq.
      split; [done|]. exists l, v. split_and!; [done..| |done]. apply orb_true_iff in E.
      by rewrite !bool_decide_eq_true in E.
    + intros (_ & l' & v & [= <-] & Hm & Hmode & ->). exists (<["mode" := v]> ∅).
      split; [by eauto|]. rewrite lookup_insert_eq. by destruct Hmode as [-> | ->].
  - destruct U as [? ->]. naive_solver.
  - split; [done|]. intros [? _]. lia.
Qed.

Lemma validateRequirements_Ok rs i seen :
  validateRequirements rs i seen = Ok () ↔
  NoDup (mr_ID <$> rs) ∧ Forall (λ r, mr_ID r ∉ seen) rs ∧
  Forall (λ r, machineAcceptanceIDPattern (mr_ID r) = true ∧
               machineAcceptanceFacts (mr_Fact r) = true) rs.
Proof.
  revert i seen. induction rs as [|r rs IH]; intros i seen; csimpl.
  { split; [|done]. intros _. by split_and!; constructor. }
  rewrite NoDup_cons, !Forall_cons.
  destruct (machineAcceptanceIDPattern (mr_ID r)); simpl; [|naive_solver].
  case_bool_decide; [naive_solver|].
  destruct (machineAcceptanceFacts (mr_Fact r)); simpl; [|naive_solver].
  rewrite IH, list_elem_of_fmap, !Forall_forall. split.
  - intros (Hnd & Hs & Hr). repeat split; try done; [| |by apply Hr..].
    + intros (r' & E & Hr'). specialize (Hs r' Hr'). set_solver.
    + intros r' Hr'. specialize (Hs r' Hr'). set_solver.
  - intros ([Hn Hnd] & [_ Hs] & [_ Hr]). split_and!; [done| |done].
    intros r' Hr'. specialize (Hs r' Hr'). rewrite not_elem_of_union, not_elem_of_singleton.
    split; [|done]. intros E. apply Hn. by exists r'.
Qed.

(** a machine-acceptance document is admitted exactly when it has the
    expected schema, between one and sixteen requirements, distinct well-formed
    ids, and known facts. *)
Theorem validateMachineAcceptanceDocument_spec d :
  validateMachineAcceptanceDocument d = Ok () ↔
  md_Schema d = MachineAcceptanceSchema ∧ 1 ≤ length (md_Requirements d) ≤ 16 ∧
  NoDup (mr_ID <$> md_Requirements d) ∧
  Forall (λ r, machineAcceptanceIDPattern (mr_ID r) = true ∧
               machineAcceptanceFacts (mr_Fact r) = true) (md_Requirements d).
Proof.
  unfold validateMachineAcceptanceDocument, machineAcceptanceMaxRequirements.
  case_bool_decide; simpl; [|naive_solver].
  case_bool_decide; simpl; [naive_solver lia|].
  case_bool_decide; simpl; [naive_solver lia|].
  rewrite validateRequirements_Ok. split.
  - intros (? & _ & ?). split_and!; (done || lia).
  - intros (_ & _ & ? & ?). split_and!; [done|by apply Forall_true; set_solver|done].
Qed.

(** A Darwin entry line. *)
Definition darwin_line (test : string) : string := "- `" +:+ test +:+ "`".
Lemma darwinLoop_lines tests post acc :
  section_end post →
  darwinLoop ((darwin_line <$> tests) ++ post) acc = Ok (acc ++ tests).
Proof.
  intros Hp. revert acc. induction tests as [|t tests IH]; intros acc;
    rewrite ?fmap_cons, <-?app_comm_cons; cbn [darwinLoop].
  - rewrite app_nil_r. destruct post as [|l post]; [done|]. simpl in *. unfold is_h2 in Hp. by rewrite Hp.
  - assert (HasPrefix (darwin_line t) "## " = false) as ->.
    { apply not_true_is_false. rewrite HasPrefix_true. by intros [? [=]]. }
    destruct (TrimSpace_first "-" (" `" +:+ t +:+ "`") eq_refl) as [x Hx].
    change (String "-" (" `" +:+ t +:+ "`")) with (darwin_line t) in Hx. rewrite Hx. cbn [bool_decide].
    rewrite bool_decide_eq_false_2 by done.
    assert (CutPrefix (darwin_line t) "- `" = Some (t +:+ "`")) as ->.
    { unfold darwin_line. apply CutPrefix_app. }
    rewrite HasSuffix_app, TrimSuffix_app, IH, <-app_assoc. done.
Qed.

(** A list of tests written as a Darwin acceptance section reads back as
    that list, wherever in a task file the section stands. *)
Theorem ParseDarwinAcceptance_render pre post tests :
  tests ≠ [] → Forall (no_char LF) (pre ++ tests ++ post) → fence_after pre 0 = 0 →
  no_heading DarwinAcceptanceHeading (visible pre 0 0) →
  no_heading DarwinAcceptanceHeading (visible post 0 0) → section_end post →
  ParseDarwinAcceptance
    (Join (pre ++ DarwinAcceptanceHeading :: (darwin_line <$> tests) ++ post) newline) = Ok tests.
Proof.
  intros Hne HLF Hf Hpre Hpost Hend. rewrite !Forall_app in HLF. destruct HLF as (H1 & H2 & H3).
  unfold ParseDarwinAcceptance, lines. rewrite (Split_Join _ LF); [|by destruct pre|].
  - assert (findUniqueTaskSection (pre ++ DarwinAcceptanceHeading :: (darwin_line <$> tests) ++ post)
      DarwinAcceptanceHeading = Ok (Some (length pre))) as ->.
    { apply findUniqueTaskSection_Some.
      exists pre, DarwinAcceptanceHeading, ((darwin_line <$> tests) ++ post).
      split_and!; [done|done|done|by vm_compute|done|].
      apply no_heading_plain_app; [|done]. apply Forall_fmap, Forall_forall. intros t _. split; [done|].
      apply not_true_is_false. unfold is_h2. rewrite HasPrefix_true. by intros [? [=]]. }
    cbn [mbind result_bind]. rewrite drop_app_ge by lia.
    replace (S (length pre) - length pre) with 1 by lia. simpl. rewrite drop_0.
    rewrite darwinLoop_lines by done. simpl. by destruct tests.
  - apply Forall_app. split; [done|]. constructor; [by vm_compute; intuition discriminate|].
    apply Forall_app. split; [|done]. apply Forall_fmap. eapply Forall_impl; [exact H2|].
    intros t Ht. unfold darwin_line; simpl. rewrite !no_char_app; simpl. intuition discriminate.
Qed.
Lemma ParseDarwinAcceptance_render_witness :
  ParseDarwinAcceptance
    (Join (["# Task"] ++ DarwinAcceptanceHeading ::
       (darwin_line <$> ["./internal/app:TestA"; "x:TestB"]) ++ ["## Goal"]) newline)
  = Ok ["./internal/app:TestA"; "x:TestB"].
Proof.
  apply ParseDarwinAcceptance_render; [done| |by vm_compute|..|by vm_compute];
    repeat (apply Forall_cons; split); try apply Forall_nil; try done; by vm_compute; intuition discriminate.
Defined.
