(* ===== verification/TaskGraph.v ===== *)
(** * The task dependency graph

    Models [internal/repositoryproject/graph.go].  [loadTask] is a depth-first
    search that reads each task's dependency section, marks nodes while they
    are on the stack and rejects cycles, self-references and unresolved
    references.  The theorems characterise when a graph is built, what it
    contains, and that the search always terminates. *)
From S2P Require Import Prelude GoStrings TaskLines TaskContract TaskDependencies.

Record Dependency := {
  dep_Task : string;
  dep_Outstanding : list string;
  dep_Fulfilled : list string;
}.
Record Blocker := {
  bl_Task : string;
  bl_Section : string;
  bl_Reason : string;
  bl_Outstanding : list string;
}.
Record taskNode := {
  tn_path : string;
  tn_content : string;
  tn_outstanding : list string;
  tn_fulfilled : list string;
  tn_visiting : bool;
}.
(** Nodes are shared by reference between [nodes] and [byPath]: [byPath] is the
    store, and [nodes] keeps the order of creation by path. *)
Record TaskGraph := { nodes : list string; byPath : gmap string taskNode }.

Definition empty_graph : TaskGraph := {| nodes := []; byPath := ∅ |}.
(** [g.byPath[path] = node; g.nodes = append(g.nodes, node)] *)
Definition add_node (path : string) (node : taskNode) (g : TaskGraph) : TaskGraph :=
  {| nodes := nodes g ++ [path]; byPath := <[path := node]> (byPath g) |}.
(** A write through the node pointer. *)
Definition set_node (path : string) (f : taskNode → taskNode) (g : TaskGraph) : TaskGraph :=
  {| nodes := nodes g; byPath := alter f path (byPath g) |}.
Definition append_outstanding (dependency : string) (n : taskNode) : taskNode :=
  {| tn_path := tn_path n; tn_content := tn_content n;
     tn_outstanding := tn_outstanding n ++ [dependency]; tn_fulfilled := tn_fulfilled n;
     tn_visiting := tn_visiting n |}.
Definition set_fulfilled (fulfilled : list string) (n : taskNode) : taskNode :=
  {| tn_path := tn_path n; tn_content := tn_content n; tn_outstanding := tn_outstanding n;
     tn_fulfilled := fulfilled; tn_visiting := tn_visiting n |}.
Definition end_visit (n : taskNode) : taskNode :=
  {| tn_path := tn_path n; tn_content := tn_content n; tn_outstanding := tn_outstanding n;
     tn_fulfilled := tn_fulfilled n; tn_visiting := false |}.

(** [Err None] is an exhausted search, which [BuildTaskGraph_total] excludes;
    [Err (Some e)] is the Go error [e]. *)
Notation loading := (result (option error)) (only parsing).
Definition failed (fmt : string) (args : list arg) : option error := Some (Errorf fmt args).

(** The loop over the outstanding dependencies of [path]. *)
Fixpoint loadOutstanding (load : string → TaskGraph → loading TaskGraph)
    (contents : gmap string string) (path : string) (outstanding : list string)
    (g : TaskGraph) : loading TaskGraph :=
  match outstanding with
  | [] => Ok g
  | dependency :: outstanding =>
      reject! bool_decide (dependency = path)
        with failed "task %sは自身へのdependencyを持っています" [AStr path];
      reject! bool_decide (contents !! dependency = None)
        with failed "task %sのdependency %sはcurrent treeに存在せず、%sにも明示されていません"
               [AStr path; AStr dependency; AStr TaskFulfilledDependenciesHeading];
      g ← load dependency g;
      loadOutstanding load contents path outstanding
        (set_node path (append_outstanding dependency) g)
  end.

Fixpoint loadTask (fuel : nat) (contents : gmap string string) (path : string)
    (g : TaskGraph) : loading TaskGraph :=
  match fuel with
  | 0 => Err None
  | S fuel =>
      match byPath g !! path with
      | Some node =>
          reject! tn_visiting node
            with failed "task dependency cycleを検出しました: %s" [AStr path];
          Ok g
      | None =>
          match contents !! path with
          | None => Err (failed "task file %sの内容を解決できません" [AStr path])
          | Some content =>
              let g := add_node path {| tn_path := path; tn_content := content;
                tn_outstanding := []; tn_fulfilled := []; tn_visiting := true |} g in
              match ParseTaskDependencyState content with
              | Err err => Err (failed "task %s: %w" [AStr path; AErr err])
              | Ok dependencies =>
                  reject! bool_decide (path ∈ Fulfilled dependencies)
                    with failed "task %sは自身へのfulfilled dependencyを持っています" [AStr path];
                  let g := set_node path (set_fulfilled (Fulfilled dependencies)) g in
                  g ← loadOutstanding (loadTask fuel contents) contents path
                        (Outstanding dependencies) g;
                  Ok (set_node path end_visit g)
              end
          end
      end
  end.

Fixpoint loadEntries (fuel : nat) (contents : gmap string string) (entries : list string)
    (g : TaskGraph) : loading TaskGraph :=
  match entries with
  | [] => Ok g
  | entry :: entries => g ← loadTask fuel contents entry g; loadEntries fuel contents entries g
  end.
(** Each level of the recursion adds a node for a task with content, so the
    number of contents plus one bounds its depth. *)
Definition BuildTaskGraph (entries : list string) (contents : gmap string string) :
    loading TaskGraph :=
  loadEntries (S (size contents)) contents entries empty_graph.

Definition Dependencies (g : TaskGraph) : list Dependency :=
  omap (λ path, node ← byPath g !! path;
    Some {| dep_Task := tn_path node; dep_Outstanding := tn_outstanding node;
            dep_Fulfilled := tn_fulfilled node |}) (nodes g).

Definition NextRunnable (g : TaskGraph) (next : list string) : option string :=
  find (λ entry, match byPath g !! entry with
                 | Some node => bool_decide (length (tn_outstanding node) = 0)
                 | None => false
                 end) next.

Definition next_blocker (g : TaskGraph) (entry : string) : option Blocker :=
  match byPath g !! entry with
  | Some node =>
      if bool_decide (length (tn_outstanding node) = 0) then None
      else Some {| bl_Task := entry; bl_Section := "next"; bl_Reason := "outstanding-dependencies";
                   bl_Outstanding := tn_outstanding node |}
  | None => None
  end.
Definition blocked_blocker (g : TaskGraph) (entry : string) : Blocker :=
  {| bl_Task := entry; bl_Section := "blocked"; bl_Reason := "blocked-section";
     bl_Outstanding := match byPath g !! entry with
                       | Some node => tn_outstanding node
                       | None => []
                       end |}.
Definition Blockers (g : TaskGraph) (next blocked : list string) : list Blocker :=
  omap (next_blocker g) next ++ (blocked_blocker g <$> blocked).

Definition TaskContent (g : TaskGraph) (path : string) : option string :=
  tn_content <$> byPath g !! path.

Definition CompletionScheduleUnmet (next blocked : list string) (activeTask content : string) :
    result error (list string) :=
  findings ← wrap_err (λ err, Errorf "task %s: %w" [AStr activeTask; AErr err])
    (ParseReviewFindings content);
  Ok ((if bool_decide (0 < length next) || bool_decide (0 < length blocked)
       then ["schedule_not_empty"] else []) ++
      (if negb (rf_None findings) then ["open_findings"] else [])).

(** ** Termination *)

Definition unvisited (contents : gmap string string) (g : TaskGraph) : gset string :=
  dom contents ∖ dom (byPath g).

Lemma dom_set_node path f g : dom (byPath (set_node path f g)) = dom (byPath g).
Proof. apply dom_alter_L. Qed.

Lemma loadOutstanding_dom load contents path os g g' :
  (∀ d g g', load d g = Ok g' → dom (byPath g) ⊆ dom (byPath g')) →
  loadOutstanding load contents path os g = Ok g' → dom (byPath g) ⊆ dom (byPath g').
Proof.
  intros Hl. revert g. induction os as [|d os IH]; intros g; simpl; [by intros [= <-]|].
  destruct (bool_decide _); [done|]. destruct (bool_decide _); [done|].
  intros (g1 & H1%Hl & H2%IH)%result_bind_Ok. by rewrite dom_set_node in H2; etrans.
Qed.
Lemma loadTask_dom fuel contents path g g' :
  loadTask fuel contents path g = Ok g' → dom (byPath g) ⊆ dom (byPath g').
Proof.
  revert path g g'. induction fuel as [|fuel IH]; intros path g g'; simpl; [done|].
  destruct (byPath g !! path) as [node|]; [destruct (tn_visiting node); [done|by intros [= <-]]|].
  destruct (contents !! path); [|done]. destruct (ParseTaskDependencyState _); [|done].
  destruct (bool_decide _); [done|].
  intros (g1 & H1 & [= <-])%result_bind_Ok. apply loadOutstanding_dom in H1; [|exact IH].
  rewrite dom_set_node in *. simpl in H1. rewrite dom_insert_L in H1. set_solver.
Qed.

Lemma loadTask_fuel fuel contents path g :
  size (unvisited contents g) < fuel → loadTask fuel contents path g ≠ Err None.
Proof.
  revert path g. induction fuel as [|fuel IH]; intros path g Hf; [lia|]; simpl.
  destruct (byPath g !! path) as [node|] eqn:Hg; [by destruct (tn_visiting node)|].
  destruct (contents !! path) eqn:Hc; [|done]. destruct (ParseTaskDependencyState _); [|done].
  destruct (bool_decide _); [done|]. intros [H|(? & _ & ?)]%result_bind_Err; [|done].
  set (g0 := set_node path _ _) in H.
  assert (size (unvisited contents g0) < fuel) as H0.
  { assert (dom (byPath g0) = {[path]} ∪ dom (byPath g)) as Hd.
    { unfold g0. rewrite dom_set_node. simpl. by rewrite dom_insert_L. }
    apply elem_of_dom_2 in Hc. apply not_elem_of_dom in Hg.
    assert (size (unvisited contents g0) < size (unvisited contents g)); [|lia].
    apply subset_size. unfold unvisited. rewrite Hd. set_solver. }
  clearbody g0. revert g0 H0 H.
  induction (Outstanding a) as [|d os IHos]; intros g0 H0; simpl; [done|].
  destruct (bool_decide _); [done|]. destruct (bool_decide _); [done|].
  intros [H|(g1 & H1 & H)]%result_bind_Err; [by eapply IH|].
  eapply IHos; [|exact H]. unfold unvisited in *. rewrite dom_set_node.
  apply loadTask_dom in H1. eapply Nat.le_lt_trans; [apply subseteq_size|exact H0]. set_solver.
Qed.

(** ** What is reachable, and what resolves *)

Section Graph.
Context (contents : gmap string string).

(** [q] is an outstanding dependency of [p]. *)
Definition edge (p q : string) : Prop :=
  ∃ content deps, contents !! p = Some content ∧
    ParseTaskDependencyState content = Ok deps ∧ q ∈ Outstanding deps.

(** A task resolves when its content parses, it does not claim to have
    fulfilled itself, and all its outstanding dependencies resolve.  Being
    inductive, it excludes cycles. *)
Inductive resolvable : string → Prop :=
  | resolvable_intro p content deps :
      contents !! p = Some content → ParseTaskDependencyState content = Ok deps →
      p ∉ Fulfilled deps → (∀ d, d ∈ Outstanding deps → resolvable d) → resolvable p.

Lemma resolvable_inv p content deps :
  resolvable p → contents !! p = Some content → ParseTaskDependencyState content = Ok deps →
  p ∉ Fulfilled deps ∧ ∀ d, d ∈ Outstanding deps → resolvable d.
Proof. intros [p' c' deps' Hc Hp Hf H] Hc' Hp'. assert (deps' = deps) as -> by congruence. by split. Qed.
Lemma resolvable_content p :
  resolvable p → ∃ content deps, contents !! p = Some content ∧
    ParseTaskDependencyState content = Ok deps.
Proof. intros [p' content deps ? ? _ _]. by exists content, deps. Qed.
Lemma resolvable_edge p q : resolvable p → edge p q → resolvable q.
Proof.
  intros Hr (content & deps & Hc & Hp & Hq). by eapply resolvable_inv in Hr as [_ Hr]; eauto.
Qed.
Lemma resolvable_tc p q : resolvable p → tc edge p q → resolvable q.
Proof. intros Hp H. induction H; eauto using resolvable_edge. Qed.
Lemma resolvable_acyclic p : resolvable p → ¬ tc edge p p.
Proof.
  induction 1 as [p content deps Hc Hp _ _ IH]. intros Hpp.
  assert (∃ q, edge p q ∧ rtc edge q p) as (q & Hpq & Hqp).
  { inversion Hpp; subst; [by exists p|]. eauto using tc_rtc. }
  pose proof Hpq as (content' & deps' & ? & ? & Hq).
  assert (deps' = deps) as -> by congruence.
  apply (IH q Hq). eapply tc_rtc_l; [done|by apply tc_once].
Qed.

(** ** The invariant of the search *)

Definition finished (g : TaskGraph) (p : string) : Prop :=
  ∃ n, byPath g !! p = Some n ∧ tn_visiting n = false.
Definition visiting (g : TaskGraph) (p : string) : Prop :=
  ∃ n, byPath g !! p = Some n ∧ tn_visiting n = true.

(** Nodes carry their task's content; finished nodes carry its dependencies,
    resolve, and have finished dependencies. *)
Record graph_ok (g : TaskGraph) : Prop := {
  gok_node p n : byPath g !! p = Some n → tn_path n = p ∧ contents !! p = Some (tn_content n);
  gok_done p n : byPath g !! p = Some n → tn_visiting n = false →
    resolvable p ∧ ParseTaskDependencyState (tn_content n) =
      Ok {| Outstanding := tn_outstanding n; Fulfilled := tn_fulfilled n |} ∧
    ∀ d, d ∈ tn_outstanding n → finished g d;
  gok_NoDup : NoDup (nodes g);
  gok_nodes p : p ∈ nodes g ↔ is_Some (byPath g !! p);
}.

(** What a completed call may change: nodes are only added, and added
    finished. *)
Record extends (g g' : TaskGraph) : Prop := {
  ext_keep p n : byPath g !! p = Some n → byPath g' !! p = Some n;
  ext_new p : is_Some (byPath g' !! p) → is_Some (byPath g !! p) ∨ finished g' p;
}.

Lemma extends_refl g : extends g g.
Proof. by split; auto. Qed.
Lemma extends_finished g g' p : extends g g' → finished g p → finished g' p.
Proof. intros [Hk _] (n & ? & ?). exists n. auto. Qed.
Lemma extends_trans g1 g2 g3 : extends g1 g2 → extends g2 g3 → extends g1 g3.
Proof.
  intros H12 H23. split.
  - intros p n ?. by apply H23, H12.
  - intros p [Hp|?]%H23; [|by right]. apply H12 in Hp as [?|?]; [by left|right].
    by eapply extends_finished.
Qed.

Lemma finished_set_node path f g p : p ≠ path → finished (set_node path f g) p ↔ finished g p.
Proof. intros Hp. unfold finished, set_node; simpl. by rewrite lookup_alter_ne by done. Qed.
Lemma visiting_not_finished g p : visiting g p → ¬ finished g p.
Proof. intros (n & ? & ?) (n' & ? & ?). simplify_eq. congruence. Qed.

(** Updating a node that is being visited keeps the invariant. *)
Lemma graph_ok_set_visiting path f g :
  graph_ok g → visiting g path →
  (∀ n, tn_path (f n) = tn_path n ∧ tn_content (f n) = tn_content n ∧
        tn_visiting (f n) = tn_visiting n) →
  graph_ok (set_node path f g) ∧ visiting (set_node path f g) path.
Proof.
  intros [Hn Hd HN Hs] (n & Hp & Hv) Hf. destruct (Hf n) as (F1 & F2 & F3).
  assert (visiting (set_node path f g) path) as Hvis.
  { exists (f n). simpl. rewrite lookup_alter_eq, Hp. simpl. by rewrite F3. }
  split; [|done]. split; simpl; [..|done|].
  - intros p n'. destruct (decide (p = path)) as [->|Hne].
    + rewrite lookup_alter_eq, Hp. simpl. intros [= <-]. rewrite F1, F2. by apply Hn.
    + rewrite lookup_alter_ne by done. apply Hn.
  - intros p n'. destruct (decide (p = path)) as [->|Hne].
    + rewrite lookup_alter_eq, Hp. simpl. intros [= <-]. by rewrite F3, Hv.
    + rewrite lookup_alter_ne by done. intros Hp' Hv'.
      destruct (Hd p n' Hp' Hv') as (? & ? & Hfin). split_and!; [done..|].
      intros d Hdd. apply finished_set_node; [|by apply Hfin].
      intros ->. apply Hfin in Hdd. eapply visiting_not_finished; [|done]. by exists n.
  - intros p. rewrite Hs. destruct (decide (p = path)) as [->|Hne].
    + by rewrite lookup_alter_eq, fmap_is_Some.
    + by rewrite lookup_alter_ne.
Qed.

(** Opening a node. *)
Lemma graph_ok_add path content fulfilled g :
  graph_ok g → byPath g !! path = None → contents !! path = Some content →
  let g' := add_node path {| tn_path := path; tn_content := content; tn_outstanding := [];
              tn_fulfilled := fulfilled; tn_visiting := true |} g in
  graph_ok g' ∧ visiting g' path ∧ ∀ p, p ≠ path → byPath g' !! p = byPath g !! p.
Proof.
  intros [Hn Hd HN Hs] Hp Hc. cbv zeta. set (n0 := {| tn_path := path |}).
  assert (∀ p, p ≠ path → byPath (add_node path n0 g) !! p = byPath g !! p) as Hother.
  { intros p Hne. simpl. by rewrite lookup_insert_ne. }
  assert (byPath (add_node path n0 g) !! path = Some n0) as Hself by apply lookup_insert_eq.
  split_and!; [|by exists n0|done]. split.
  - intros p n. destruct (decide (p = path)) as [->|Hne].
    + rewrite Hself. by intros [= <-].
    + rewrite Hother by done. apply Hn.
  - intros p n. destruct (decide (p = path)) as [->|Hne].
    + rewrite Hself. by intros [= <-].
    + rewrite Hother by done. intros Hp' Hv. destruct (Hd p n Hp' Hv) as (? & ? & Hfin).
      split_and!; [done..|]. intros d Hdd. destruct (Hfin d Hdd) as (m & Hm & ?).
      exists m. rewrite Hother; [done|]. intros ->. congruence.
  - simpl. apply NoDup_app. split_and!; [done| |apply NoDup_singleton].
    intros p Hp'%Hs Hin%list_elem_of_singleton. subst. rewrite Hp in Hp'. by destruct Hp'.
  - intros p. simpl. rewrite elem_of_app, list_elem_of_singleton, Hs.
    destruct (decide (p = path)) as [->|Hne].
    + rewrite lookup_insert_eq. naive_solver.
    + rewrite lookup_insert_ne by done. naive_solver.
Qed.

(** ** One call of the search *)

(** What a successful call on [path] does. *)
Record loaded (path : string) (g g' : TaskGraph) : Prop := {
  ld_ok : graph_ok g';
  ld_extends : extends g g';
  ld_finished : finished g' path;
  ld_reach p : is_Some (byPath g' !! p) → is_Some (byPath g !! p) ∨ rtc edge path p;
}.

(** What the loop over the outstanding dependencies of [path] does. *)
Record looped (path : string) (os : list string) (g g' : TaskGraph) : Prop := {
  lp_ok : graph_ok g';
  lp_node n : byPath g !! path = Some n →
    byPath g' !! path = Some (foldl (λ n d, append_outstanding d n) n os);
  lp_keep p n : p ≠ path → byPath g !! p = Some n → byPath g' !! p = Some n;
  lp_new p : p ≠ path → is_Some (byPath g' !! p) → is_Some (byPath g !! p) ∨ finished g' p;
  lp_finished d : d ∈ os → finished g' d;
  lp_reach p : is_Some (byPath g' !! p) →
    is_Some (byPath g !! p) ∨ ∃ d, d ∈ os ∧ rtc edge d p;
}.

Lemma loadOutstanding_ok load path os g g' :
  (∀ d g g', load d g = Ok g' → graph_ok g → loaded d g g') →
  loadOutstanding load contents path os g = Ok g' → graph_ok g → visiting g path →
  looped path os g g'.
Proof.
  intros Hload. revert g. induction os as [|d os IH]; intros g; simpl.
  { intros [= <-] Hg Hv. split; auto; [by intros ? ?%elem_of_nil]. }
  case_bool_decide as Hd; [done|]. destruct (bool_decide _); [done|].
  intros (g1 & H1 & H)%result_bind_Ok Hg Hv.
  destruct (Hload _ _ _ H1 Hg) as [Hg1 He1 Hf1 Hr1].
  assert (visiting g1 path) as Hv1.
  { destruct Hv as (n & Hn & ?). exists n. split; [by apply He1|done]. }
  destruct (graph_ok_set_visiting path (append_outstanding d) g1 Hg1 Hv1) as [Hg2 Hv2]; [done|].
  destruct (IH _ H Hg2 Hv2) as [Hok Hnode Hkeep Hnew Hfin Hreach].
  assert (∀ p, p ≠ path → byPath (set_node path (append_outstanding d) g1) !! p = byPath g1 !! p)
    as Hother by (intros; by apply lookup_alter_ne).
  assert (∀ p, p ≠ path → finished g1 p → finished g' p) as Hmono.
  { intros p Hp (n & ? & ?). exists n. split; [|done]. apply Hkeep; [done|]. by rewrite Hother. }
  split; [done|..].
  - intros n Hn. apply He1 in Hn. apply Hnode. simpl. by rewrite lookup_alter_eq, Hn.
  - intros p n Hp Hn. apply Hkeep; [done|]. rewrite Hother by done. by apply He1.
  - intros p Hp [H'|?]%Hnew; [|by right|done]. rewrite Hother in H' by done.
    apply He1 in H' as [?|?]; [by left|right]. by apply Hmono.
  - intros d' [->|Hd']%elem_of_cons; [by apply Hmono|by apply Hfin].
  - intros p [H'|(d' & ? & ?)]%Hreach.
    + assert (is_Some (byPath g1 !! p)) as [?|?]%Hr1; [|by left|right; exists d; set_solver].
      destruct (decide (p = path)) as [->|]; [by destruct Hv1 as (? & ? & _); eexists|].
      by rewrite Hother in H'.
    + right. exists d'. set_solver.
Qed.

Lemma append_outstanding_fold os n :
  foldl (λ n d, append_outstanding d n) n os =
    {| tn_path := tn_path n; tn_content := tn_content n;
       tn_outstanding := tn_outstanding n ++ os; tn_fulfilled := tn_fulfilled n;
       tn_visiting := tn_visiting n |}.
Proof.
  revert n. induction os as [|d os IH]; intros n; simpl.
  - rewrite app_nil_r. by destruct n.
  - rewrite IH; simpl. by rewrite <-app_assoc.
Qed.

(** Closing the node of [path] once its dependencies are finished. *)
Lemma loaded_close path content deps g0 g g' :
  graph_ok g0 → byPath g0 !! path = None →
  contents !! path = Some content → ParseTaskDependencyState content = Ok deps →
  path ∉ Fulfilled deps →
  (∀ p, p ≠ path → byPath g !! p = byPath g0 !! p) →
  byPath g !! path = Some {| tn_path := path; tn_content := content; tn_outstanding := [];
    tn_fulfilled := Fulfilled deps; tn_visiting := true |} →
  looped path (Outstanding deps) g g' →
  loaded path g0 (set_node path end_visit g').
Proof.
  intros Hg0 Hnone Hc Hp Hf Hother Hself [[Gn Gd GN Gs] Hnode Hkeep Hnew Hfin Hreach].
  specialize (Hnode _ Hself). rewrite append_outstanding_fold in Hnode. simpl in Hnode.
  assert (∀ p, p ≠ path → byPath (set_node path end_visit g') !! p = byPath g' !! p) as Ho.
  { intros. by apply lookup_alter_ne. }
  assert (byPath (set_node path end_visit g') !! path = Some {| tn_path := path;
    tn_content := content; tn_outstanding := Outstanding deps; tn_fulfilled := Fulfilled deps;
    tn_visiting := false |}) as Hs.
  { simpl. by rewrite lookup_alter_eq, Hnode. }
  assert (∀ p, finished g' p → finished (set_node path end_visit g') p) as Hmono.
  { intros p (n & Hn & Hv). exists n. split; [|done]. rewrite Ho; [done|]. intros ->. by simplify_eq/=. }
  split.
  - split.
    + intros p n. destruct (decide (p = path)) as [->|Hne].
      * rewrite Hs. by intros [= <-].
      * rewrite Ho by done. apply Gn.
    + intros p n. destruct (decide (p = path)) as [->|Hne].
      * rewrite Hs. intros [= <-] _. simpl. split_and!.
        -- econstructor; [done..|]. intros d Hd.
           destruct (Hfin d Hd) as (m & Hm & Hv). by destruct (Gd d m Hm Hv).
        -- rewrite Hp. by destruct deps.
        -- intros d Hd. by apply Hmono, Hfin.
      * rewrite Ho by done. intros Hn Hv. destruct (Gd p n Hn Hv) as (? & ? & ?). eauto 10.
    + done.
    + intros p. rewrite Gs. destruct (decide (p = path)) as [->|Hne].
      * rewrite Hs, Hnode. naive_solver.
      * by rewrite Ho.
  - split.
    + intros p n Hn. assert (p ≠ path) by congruence. rewrite Ho by done.
      apply Hkeep; [done|]. by rewrite Hother.
    + intros p. destruct (decide (p = path)) as [->|Hne].
      * intros _. right. by eexists.
      * rewrite Ho by done. intros [?|?]%Hnew; [left|right; by apply Hmono|done].
        by rewrite <-Hother.
  - by eexists.
  - intros p Hp'. destruct (decide (p = path)) as [->|Hne]; [right; constructor|].
    rewrite Ho in Hp' by done. apply Hreach in Hp' as [?|(d & Hd & Hr)].
    + left. by rewrite <-Hother.
    + right. eapply rtc_l; [|done]. by exists content, deps.
Qed.

Lemma loadTask_ok fuel path g g' :
  loadTask fuel contents path g = Ok g' → graph_ok g → loaded path g g'.
Proof.
  revert path g g'. induction fuel as [|fuel IH]; intros path g g'; simpl; [done|].
  destruct (byPath g !! path) as [node|] eqn:Hn.
  { destruct (tn_visiting node) eqn:Hv; [done|]. intros [= <-] Hg.
    split; [done|apply extends_refl|by exists node|by left]. }
  destruct (contents !! path) as [content|] eqn:Hc; [|done].
  destruct (ParseTaskDependencyState content) as [deps|] eqn:Hp; [|done].
  case_bool_decide as Hf; [done|]. intros (g1 & H1 & [= <-])%result_bind_Ok Hg.
  destruct (graph_ok_add path content [] g Hg Hn Hc) as (Ha & Hva & Hoa).
  destruct (graph_ok_set_visiting path (set_fulfilled (Fulfilled deps)) _ Ha Hva)
    as [Hb Hvb]; [done|].
  apply loadOutstanding_ok in H1; [|exact IH|done|done].
  eapply loaded_close; [exact Hg|done..| | |exact H1].
  - intros p Hne. rewrite <-(Hoa p Hne). by apply lookup_alter_ne.
  - simpl. by rewrite lookup_alter_eq, lookup_insert_eq.
Qed.

(** A failing call: the task does not resolve, given that everything being
    visited depends on it. *)
Lemma loadTask_failed fuel path g e :
  loadTask fuel contents path g = Err (Some e) → graph_ok g →
  (∀ v, visiting g v → tc edge v path) → ¬ resolvable path.
Proof.
  revert path g. induction fuel as [|fuel IH]; intros path g; simpl; [done|].
  destruct (byPath g !! path) as [node|] eqn:Hn.
  { destruct (tn_visiting node) eqn:Hv; [|done]. intros _ _ Hvis Hr.
    apply (resolvable_acyclic path Hr), Hvis. by exists node. }
  destruct (contents !! path) as [content|] eqn:Hc; cycle 1.
  { intros _ _ _ (? & ? & ? & ?)%resolvable_content. congruence. }
  destruct (ParseTaskDependencyState content) as [deps|] eqn:Hp; cycle 1.
  { intros _ _ _ (? & ? & ? & ?)%resolvable_content. congruence. }
  case_bool_decide as Hf.
  { intros _ _ _ Hr. by destruct (resolvable_inv _ _ _ Hr Hc Hp). }
  intros [H|(? & _ & ?)]%result_bind_Err Hg Hvis; [|done]. intros Hr.
  destruct (resolvable_inv _ _ _ Hr Hc Hp) as [_ Hdeps].
  destruct (graph_ok_add path content [] g Hg Hn Hc) as (Ha & Hva & Hoa).
  destruct (graph_ok_set_visiting path (set_fulfilled (Fulfilled deps)) _ Ha Hva)
    as [Hb Hvb]; [done|].
  assert (∀ v, visiting (set_node path (set_fulfilled (Fulfilled deps))
    (add_node path {| tn_path := path; tn_content := content; tn_outstanding := [];
       tn_fulfilled := []; tn_visiting := true |} g)) v → v = path ∨ tc edge v path) as Hvs.
  { intros v (n & Hv & ?). destruct (decide (v = path)) as [|Hne]; [by left|right].
    apply Hvis. exists n. split; [|done]. rewrite <-(Hoa v Hne), <-Hv. symmetry.
    by apply lookup_alter_ne. }
  revert H Hb Hvb Hvs. generalize (set_node path (set_fulfilled (Fulfilled deps))
    (add_node path {| tn_path := path; tn_content := content; tn_outstanding := [];
       tn_fulfilled := []; tn_visiting := true |} g)).
  assert (∀ d, d ∈ Outstanding deps → edge path d) as Hedge by (intros d ?; by exists content, deps).
  revert Hdeps Hedge. clear Ha Hva Hoa Hvis Hn Hg. clear Hp Hf.
  induction (Outstanding deps) as [|d os IHos]; intros Hdeps Hedge g0; simpl; [done|].
  case_bool_decide as Hd.
  { intros _ _ _ _. apply (resolvable_acyclic path Hr), tc_once. rewrite <-Hd at 2.
    apply Hedge. set_solver. }
  case_bool_decide as Hcd.
  { intros _ _ _ _. assert (resolvable d) as (? & ? & ? & _)%resolvable_content by (apply Hdeps; set_solver).
    congruence. }
  intros [H|(g1 & H1 & H)]%result_bind_Err Hg0 Hv0 Hvs0.
  - eapply IH; [exact H|done| |apply Hdeps; set_solver].
    assert (edge path d) by (apply Hedge; set_solver).
    intros v [->|Hv]%Hvs0; [by apply tc_once|by eapply tc_r].
  - pose proof (loadTask_ok _ _ _ _ H1 Hg0) as [Hg1 He1 _ _].
    assert (visiting g1 path) as Hv1.
    { destruct Hv0 as (n & ? & ?). exists n. split; [by apply He1|done]. }
    destruct (graph_ok_set_visiting path (append_outstanding d) g1 Hg1 Hv1) as [Hg2 Hv2]; [done|].
    eapply IHos; [set_solver..|exact H|done|done|].
    intros v (n & Hv & Hvn). destruct (decide (v = path)) as [|Hne]; [by left|].
    apply Hvs0. simpl in Hv. rewrite lookup_alter_ne in Hv by done.
    destruct (ext_new _ _ He1 v) as [[n' Hn']|Hfin]; [by eexists|..].
    + exists n'. split; [done|]. apply He1 in Hn'. congruence.
    + exfalso. eapply visiting_not_finished; [|exact Hfin]. by exists n.
Qed.
End Graph.

Lemma graph_ok_empty contents : graph_ok contents empty_graph.
Proof.
  split; simpl.
  - intros p n. by rewrite lookup_empty.
  - intros p n. by rewrite lookup_empty.
  - constructor.
  - intros p. rewrite lookup_empty, elem_of_nil. by split; [|intros [? ?]].
Qed.

Lemma empty_lookup p : byPath empty_graph !! p = None.
Proof. apply lookup_empty. Qed.

Lemma loadEntries_ok fuel contents entries g g' :
  loadEntries fuel contents entries g = Ok g' → graph_ok contents g →
  graph_ok contents g' ∧ extends g g' ∧ (∀ e, e ∈ entries → finished g' e) ∧
  ∀ p, is_Some (byPath g' !! p) →
    is_Some (byPath g !! p) ∨ ∃ e, e ∈ entries ∧ rtc (edge contents) e p.
Proof.
  revert g. induction entries as [|e es IH]; intros g; simpl.
  { intros [= <-] Hg. split_and!; [done|apply extends_refl|by intros ? ?%elem_of_nil|by left]. }
  intros (g1 & H1 & H)%result_bind_Ok Hg.
  destruct (loadTask_ok _ _ _ _ _ H1 Hg) as [Hg1 He1 Hf1 Hr1].
  destruct (IH _ H Hg1) as (Hg2 & He2 & Hf2 & Hr2). split_and!; [done|by eapply extends_trans|..].
  - intros e' [->|?]%elem_of_cons; [by eapply extends_finished|by apply Hf2].
  - intros p [[?|?]%Hr1|(e' & ? & ?)]%Hr2; [by left|right; exists e; set_solver|right; exists e'; set_solver].
Qed.
Lemma loadEntries_failed fuel contents entries g e :
  loadEntries fuel contents entries g = Err (Some e) → graph_ok contents g →
  (∀ v, ¬ visiting g v) → ¬ Forall (resolvable contents) entries.
Proof.
  revert g. induction entries as [|en es IH]; intros g; simpl; [done|].
  intros [H|(g1 & H1 & H)]%result_bind_Err Hg Hv; rewrite Forall_cons; intros [Hr Hrs].
  - eapply loadTask_failed; [exact H|exact Hg| |exact Hr]. by intros v ?%Hv.
  - destruct (loadTask_ok _ _ _ _ _ H1 Hg) as [Hg1 He1 _ _]. eapply IH; [exact H|done| |done].
    intros v (n & Hn & Hvn). destruct (ext_new _ _ He1 v) as [[n' Hn']|Hfin]; [by eexists|..].
    + apply (Hv v). exists n'. split; [done|]. apply He1 in Hn'. congruence.
    + eapply visiting_not_finished; [|exact Hfin]. by exists n.
Qed.
Lemma loadEntries_fuel fuel contents entries g :
  size (unvisited contents g) < fuel → loadEntries fuel contents entries g ≠ Err None.
Proof.
  revert g. induction entries as [|e es IH]; intros g Hf; simpl; [done|].
  intros [H|(g1 & H1 & H)]%result_bind_Err; [by apply loadTask_fuel in H|].
  eapply IH; [|exact H]. apply loadTask_dom in H1. eapply Nat.le_lt_trans; [|exact Hf].
  apply subseteq_size. unfold unvisited. set_solver.
Qed.
Lemma BuildTaskGraph_fuel entries contents : BuildTaskGraph entries contents ≠ Err None.
Proof.
  apply loadEntries_fuel. assert (size (unvisited contents empty_graph) ≤ size contents); [|lia].
  rewrite <-(size_dom contents). apply subseteq_size. unfold unvisited. set_solver.
Qed.
Lemma BuildTaskGraph_iff entries contents :
  is_ok (BuildTaskGraph entries contents) = true ↔ Forall (resolvable contents) entries.
Proof.
  pose proof (BuildTaskGraph_fuel entries contents) as Ht.
  destruct (BuildTaskGraph entries contents) as [g|[e|]] eqn:E; [| |done]; simpl.
  - split; [|done]. intros _. apply loadEntries_ok in E as (Hg & _ & Hf & _);
      [|apply graph_ok_empty].
    apply Forall_forall. intros en (n & Hn & Hv)%Hf. by destruct (gok_done _ _ Hg _ _ Hn Hv).
  - split; [done|]. intros Hr. exfalso.
    eapply loadEntries_failed; [exact E|apply graph_ok_empty| |exact Hr].
    intros v (n & Hn & _). by rewrite empty_lookup in Hn.
Qed.

(** Building the task graph always terminates with a graph or an error. *)
Theorem BuildTaskGraph_total entries contents : BuildTaskGraph entries contents ≠ Err None.
Proof. apply BuildTaskGraph_fuel. Qed.

(** C36: a graph is built exactly when every entry resolves: its file and those
    of all tasks it transitively waits for exist and parse, none claims to have
    fulfilled itself, and no task waits for itself through any chain. *)
Theorem BuildTaskGraph_succeeds entries contents :
  is_ok (BuildTaskGraph entries contents) = true ↔ Forall (resolvable contents) entries.
Proof. apply BuildTaskGraph_iff. Qed.

Lemma BuildTaskGraph_graph entries contents g :
  BuildTaskGraph entries contents = Ok g →
  graph_ok contents g ∧ (∀ p n, byPath g !! p = Some n → tn_visiting n = false) ∧
  ∀ p, is_Some (byPath g !! p) ↔ ∃ e, e ∈ entries ∧ rtc (edge contents) e p.
Proof.
  intros (Hg & He & Hf & Hr)%loadEntries_ok; [|apply graph_ok_empty].
  assert (∀ p n, byPath g !! p = Some n → tn_visiting n = false) as Hv.
  { intros p n Hn. destruct (ext_new _ _ He p) as [[n' Hn']|(n' & ? & ?)]; [by eexists|..].
    - by rewrite empty_lookup in Hn'.
    - congruence. }
  split_and!; [done..|]. intros p. split.
  - intros [[n Hn]|?]%Hr; [|done]. by rewrite empty_lookup in Hn.
  - intros (e & Hin & Hrtc). apply Hf in Hin as (n & Hn & Hvn).
    assert (is_Some (byPath g !! e)) as Hs by by eexists. clear n Hn Hvn.
    induction Hrtc as [|x y z (content & deps & Hc & Hp & Hy) _ IH]; [done|]. apply IH.
    destruct Hs as [n Hn]. destruct (gok_node _ _ Hg _ _ Hn) as [_ Hc'].
    destruct (gok_done _ _ Hg _ _ Hn (Hv _ _ Hn)) as (_ & Hp' & Hfin).
    assert (tn_content n = content) as Ec by congruence. rewrite Ec, Hp in Hp'.
    apply (inj Ok) in Hp' as ->. destruct (Hfin y Hy) as (m & Hm & _). by eexists.
Qed.

Lemma elem_of_Dependencies g d :
  d ∈ Dependencies g ↔ ∃ p n, p ∈ nodes g ∧ byPath g !! p = Some n ∧
    d = {| dep_Task := tn_path n; dep_Outstanding := tn_outstanding n;
           dep_Fulfilled := tn_fulfilled n |}.
Proof.
  unfold Dependencies. rewrite list_elem_of_omap. split.
  - intros (p & Hp & H). destruct (byPath g !! p) as [n|] eqn:E; simplify_eq/=. eauto 10.
  - intros (p & n & Hp & Hn & ->). exists p. by rewrite Hn.
Qed.
Lemma Dependencies_tasks g :
  (∀ p, p ∈ nodes g → ∃ n, byPath g !! p = Some n ∧ tn_path n = p) →
  dep_Task <$> Dependencies g = nodes g.
Proof.
  unfold Dependencies. induction (nodes g) as [|p l IH]; intros H; csimpl; [done|].
  destruct (H p) as (n & Hn & Hp); [set_solver|]. rewrite Hn; csimpl. rewrite Hp. f_equal.
  apply IH. intros q ?. apply H. set_solver.
Qed.

Lemma BuildTaskGraph_Dependencies_iff entries contents g :
  BuildTaskGraph entries contents = Ok g →
  NoDup (dep_Task <$> Dependencies g) ∧
  ∀ d, d ∈ Dependencies g ↔
    (∃ e, e ∈ entries ∧ rtc (edge contents) e (dep_Task d)) ∧
    ∃ content, contents !! dep_Task d = Some content ∧
      ParseTaskDependencyState content =
        Ok {| Outstanding := dep_Outstanding d; Fulfilled := dep_Fulfilled d |}.
Proof.
  intros (Hg & Hv & Hr)%BuildTaskGraph_graph. split.
  - rewrite Dependencies_tasks; [by apply Hg|].
    intros p [n Hn]%(gok_nodes _ _ Hg). exists n. split; [done|]. by apply (gok_node _ _ Hg).
  - intros d. rewrite elem_of_Dependencies. split.
    + intros (p & n & Hp & Hn & ->); simpl. destruct (gok_node _ _ Hg _ _ Hn) as [-> Hc].
      split; [by apply Hr; eexists|]. exists (tn_content n). split; [done|].
      by destruct (gok_done _ _ Hg _ _ Hn (Hv _ _ Hn)) as (_ & ? & _).
    + intros [Hreach (content & Hc & Hp)]. apply Hr in Hreach as [n Hn].
      destruct (gok_node _ _ Hg _ _ Hn) as [Hpath Hc'].
      destruct (gok_done _ _ Hg _ _ Hn (Hv _ _ Hn)) as (_ & Hp' & _).
      exists (dep_Task d), n. split_and!; [apply (gok_nodes _ _ Hg); by eexists|done|].
      assert (content = tn_content n) as -> by congruence. rewrite Hp in Hp'.
      apply (inj Ok) in Hp'. injection Hp' as E1 E2. destruct d; simpl in *. congruence.
Qed.

(** The dependencies a graph reports are exactly the tasks reachable from
    its entries, each once, with the outstanding and fulfilled paths their
    files declare. *)
Theorem BuildTaskGraph_Dependencies entries contents g :
  BuildTaskGraph entries contents = Ok g →
  NoDup (dep_Task <$> Dependencies g) ∧
  ∀ d, d ∈ Dependencies g ↔
    (∃ e, e ∈ entries ∧ rtc (edge contents) e (dep_Task d)) ∧
    ∃ content, contents !! dep_Task d = Some content ∧
      ParseTaskDependencyState content =
        Ok {| Outstanding := dep_Outstanding d; Fulfilled := dep_Fulfilled d |}.
Proof. apply BuildTaskGraph_Dependencies_iff. Qed.

(** ** Runnable and blocked entries *)

Definition runnable (g : TaskGraph) (entry : string) : Prop :=
  ∃ n, byPath g !! entry = Some n ∧ tn_outstanding n = [].

Lemma NextRunnable_find g next :
  match NextRunnable g next with
  | Some t => ∃ pre post, next = pre ++ t :: post ∧ Forall (λ p, ¬ runnable g p) pre ∧ runnable g t
  | None => Forall (λ p, ¬ runnable g p) next
  end.
Proof.
  unfold NextRunnable. induction next as [|p next IH]; simpl; [done|].
  assert ((match byPath g !! p with
     | Some node => bool_decide (length (tn_outstanding node) = 0) | None => false end) =
     true ↔ runnable g p) as Hp.
  { unfold runnable. destruct (byPath g !! p) as [n|]; [|naive_solver].
    rewrite bool_decide_eq_true, length_zero_iff_nil. naive_solver. }
  destruct (match byPath g !! p with Some _ => _ | None => _ end).
  - exists [], next. split_and!; [done|constructor|by apply Hp].
  - assert (¬ runnable g p) as Hn by (intros ?%Hp; done).
    destruct (find _ next) as [t|]; [|by constructor].
    destruct IH as (pre & post & -> & ? & ?). exists (p :: pre), post.
    split_and!; [done|by constructor|done].
Qed.

(** Over a graph built from the schedule, the next runnable task is the
    first NEXT entry without outstanding dependencies; when there is none,
    the blockers name every NEXT and BLOCKED entry, so a schedule that cannot
    proceed always says why. *)
Theorem NextRunnable_or_blocked entries contents g next blocked :
  BuildTaskGraph entries contents = Ok g → (∀ p, p ∈ next → p ∈ entries) →
  match NextRunnable g next with
  | Some t => ∃ pre post, next = pre ++ t :: post ∧
      Forall (λ p, ¬ runnable g p) pre ∧ runnable g t
  | None => bl_Task <$> Blockers g next blocked = next ++ blocked
  end.
Proof.
  intros (_ & _ & Hr)%BuildTaskGraph_graph Hin. pose proof (NextRunnable_find g next) as H.
  destruct (NextRunnable g next) as [t|]; [done|]. unfold Blockers. rewrite fmap_app. f_equal.
  - induction H as [|p next Hp _ IH]; [done|]. csimpl.
    destruct (proj2 (Hr p)) as [n Hn].
    { exists p. split; [apply Hin; set_solver|constructor]. }
    assert (next_blocker g p = Some {| bl_Task := p; bl_Section := "next";
      bl_Reason := "outstanding-dependencies"; bl_Outstanding := tn_outstanding n |}) as ->.
    { unfold next_blocker. rewrite Hn, bool_decide_eq_false_2; [done|].
      rewrite length_zero_iff_nil. intros ?. apply Hp. by exists n. }
    csimpl. f_equal. apply IH. intros q ?. apply Hin. set_solver.
  - rewrite <-list_fmap_compose. apply list_fmap_id.
Qed.

(** completion has nothing unmet exactly when NEXT and BLOCKED are empty and
    the task has no review-findings section. *)
Theorem CompletionScheduleUnmet_ready next blocked task content :
  CompletionScheduleUnmet next blocked task content = Ok [] ↔
  next = [] ∧ blocked = [] ∧
  ParseReviewFindings content = Ok {| rf_Present := false; rf_None := true |}.
Proof.
  unfold CompletionScheduleUnmet.
  assert (∀ f, ParseReviewFindings content = Ok f → rf_None f = negb (rf_Present f)) as Hf.
  { unfold ParseReviewFindings. intros f (h & _ & H)%result_bind_Ok.
    destruct h as [k|]; [|by simplify_eq/=]. cbv zeta in H.
    destruct (_ || _) in H; [done|]. by simplify_eq/=. }
  destruct (ParseReviewFindings content) as [[p n]|] eqn:E; simpl; [|naive_solver].
  specialize (Hf _ eq_refl). simpl in Hf. subst n. 
  destruct next, blocked, p; simpl; naive_solver.
Qed.

Definition sample_contents : gmap string string :=
  <["IMPLEMENTATION_TASKS/a.md" := "## Dependencies
- `IMPLEMENTATION_TASKS/b.md`
"]> (<["IMPLEMENTATION_TASKS/b.md" := "## Dependencies
none
"]> ∅).
Definition sample_graph : TaskGraph :=
  match BuildTaskGraph ["IMPLEMENTATION_TASKS/a.md"] sample_contents with
  | Ok g => g | Err _ => empty_graph
  end.
Lemma BuildTaskGraph_Dependencies_witness :
  BuildTaskGraph ["IMPLEMENTATION_TASKS/a.md"] sample_contents = Ok sample_graph ∧
  NoDup (dep_Task <$> Dependencies sample_graph) ∧
  dep_Task <$> Dependencies sample_graph =
    ["IMPLEMENTATION_TASKS/a.md"; "IMPLEMENTATION_TASKS/b.md"].
Proof.
  split; [vm_compute; reflexivity|]. split; [|vm_compute; reflexivity].
  refine (proj1 (BuildTaskGraph_Dependencies ["IMPLEMENTATION_TASKS/a.md"] sample_contents _ _)).
  vm_compute; reflexivity.
Defined.
Lemma NextRunnable_or_blocked_witness :
  BuildTaskGraph ["IMPLEMENTATION_TASKS/a.md"] sample_contents = Ok sample_graph ∧
  bl_Task <$> Blockers sample_graph ["IMPLEMENTATION_TASKS/a.md"] ["x"] =
    ["IMPLEMENTATION_TASKS/a.md"; "x"].
Proof.
  assert (BuildTaskGraph ["IMPLEMENTATION_TASKS/a.md"] sample_contents = Ok sample_graph) as H
    by (vm_compute; reflexivity).
  split; [exact H|].
  exact (NextRunnable_or_blocked _ _ _ ["IMPLEMENTATION_TASKS/a.md"] ["x"] H (λ p Hp, Hp)).
Defined.
