(* ===== verification/ProjectPlan.v ===== *)
(** * Project state, post-completion plans and continuations

    Models [plan.go], [continuation.go], [task_attribution.go],
    [selected_task_continuation.go] and the admission half of [observation.go]
    of [internal/repositoryproject]: what a plan admits, what the parent must do
    next, and when completion or stopping is admitted. *)
From S2P Require Import Prelude GoStrings TaskLines TaskContract TaskDependencies PlanSchedule.
From S2P Require Import TaskSections TaskGraph.

(** ** Plans *)

Record ProjectStatePlan := {
  sp_Goal : PlanGoal;
  sp_Schedule : PlanSchedule;
  sp_Active : list string;
  sp_Next : list string;
  sp_Blocked : list string;
}.
Inductive PostCompletionKind :=
  | PostCompletionUnset
  | PostCompletionTerminal
  | PostCompletionContinue
  | PostCompletionBlocked
  | PostCompletionExhausted
  | PostCompletionGraph.
#[export] Instance PostCompletionKind_eq_dec : EqDecision PostCompletionKind.
Proof. solve_decision. Defined.
Record PostCompletionPlan := {
  pc_Kind : PostCompletionKind;
  pc_Goal : PlanGoal;
  pc_Schedule : PlanSchedule;
  pc_Active : list string;
  pc_Next : list string;
  pc_Blocked : list string;
}.
Record FinalHeadPlan := {
  fh_Schedule : PlanSchedule;
  fh_ActiveTask : string;
  fh_Tasks : list string;
}.
Definition set_kind (kind : PostCompletionKind) (p : PostCompletionPlan) : PostCompletionPlan :=
  {| pc_Kind := kind; pc_Goal := pc_Goal p; pc_Schedule := pc_Schedule p;
     pc_Active := pc_Active p; pc_Next := pc_Next p; pc_Blocked := pc_Blocked p |}.

Definition completedGoalScheduleError (active next blocked : nat) : error :=
  Errorf "completed GOALではACTIVE/NEXT/BLOCKEDを空にする必要があります(active=%d next=%d blocked=%d)"
    [AInt active; AInt next; AInt blocked].
Definition activeNotUniqueError (active : nat) : error :=
  Errorf "IMPLEMENTATION_PLAN.local.mdのACTIVE欄が一意ではありません(%d件)" [AInt active].

Definition goal_completed (goal : PlanGoal) : bool :=
  pg_Present goal && bool_decide (pg_Status goal = GoalStatusCompleted).
Definition nonempty {A} (l : list A) : bool := bool_decide (0 < length l).

Definition PrepareProjectState (plan : string) : result error ProjectStatePlan :=
  goal ← ParsePlanGoal plan;
  let schedule := ParsePlanSchedule plan in
  '(next, blocked) ← NonActiveEntries schedule;
  if goal_completed goal then
    active ← ActiveEntries schedule;
    reject! nonempty active || nonempty next || nonempty blocked
      with completedGoalScheduleError (length active) (length next) (length blocked);
    Ok {| sp_Goal := goal; sp_Schedule := schedule; sp_Active := []; sp_Next := []; sp_Blocked := [] |}
  else
    activeTask ← ValidateComplete schedule;
    Ok {| sp_Goal := goal; sp_Schedule := schedule; sp_Active := [activeTask];
          sp_Next := next; sp_Blocked := blocked |}.

Definition classifyNonGoalPostCompletion (prepared : PostCompletionPlan) :
    result error PostCompletionPlan :=
  if bool_decide (length (pc_Active prepared) = 1) then
    Ok (set_kind PostCompletionContinue prepared)
  else if bool_decide (1 < length (pc_Active prepared)) then
    Err (activeNotUniqueError (length (pc_Active prepared)))
  else if bool_decide (length (pc_Next prepared) ≠ 0) then
    Err (Errorf "GOALのないPlanの完了同期にはACTIVE昇格済み・BLOCKEDのみ・空scheduleのいずれかが必要です(active=0 next=%d blocked=%d)"
           [AInt (length (pc_Next prepared)); AInt (length (pc_Blocked prepared))])
  else if bool_decide (length (pc_Blocked prepared) ≠ 0) then
    Ok (set_kind PostCompletionBlocked prepared)
  else Ok (set_kind PostCompletionExhausted prepared).

Definition PreparePostCompletion (plan : string) : result error PostCompletionPlan :=
  goal ← ParsePlanGoal plan;
  let schedule := ParsePlanSchedule plan in
  active ← ActiveEntries schedule;
  '(next, blocked) ← NonActiveEntries schedule;
  let prepared := {| pc_Kind := PostCompletionUnset; pc_Goal := goal; pc_Schedule := schedule;
    pc_Active := active; pc_Next := next; pc_Blocked := blocked |} in
  if goal_completed goal then
    reject! bool_decide (length active ≠ 0) || bool_decide (length next ≠ 0)
        || bool_decide (length blocked ≠ 0)
      with completedGoalScheduleError (length active) (length next) (length blocked);
    Ok (set_kind PostCompletionTerminal prepared)
  else if negb (pg_Present goal) then classifyNonGoalPostCompletion prepared else
  reject! bool_decide (1 < length active) with activeNotUniqueError (length active);
  Ok (set_kind PostCompletionGraph prepared).

Definition Entries (p : PostCompletionPlan) : list string :=
  pc_Active p ++ pc_Next p ++ pc_Blocked p.
Definition RequiresTaskGraph (p : PostCompletionPlan) : bool :=
  bool_decide (pc_Kind p = PostCompletionGraph) || bool_decide (pc_Kind p = PostCompletionBlocked).
Definition NonGoalCompletionSyncApplied (prepared : PostCompletionPlan) (completedTask : string) :
    bool :=
  if pg_Present (pc_Goal prepared) then true else
  if bool_decide (completedTask = "") then false else
  negb (existsb (λ entries, existsb (λ path, bool_decide (path = completedTask)) entries)
          [pc_Active prepared; pc_Next prepared; pc_Blocked prepared]).

Definition prepareFinalHeadSchedule (schedule : PlanSchedule) : result error FinalHeadPlan :=
  activePath ← ValidateComplete schedule;
  Ok {| fh_Schedule := schedule; fh_ActiveTask := activePath;
        fh_Tasks := [activePath] ++ Next schedule ++ Blocked schedule |}.
Definition PrepareFinalHead (plan : string) : result error FinalHeadPlan :=
  prepareFinalHeadSchedule (ParsePlanSchedule plan).

Definition ValidateClosure (schedule : PlanSchedule) (entries : list TaskCorpusEntry)
    (prefix : string) : result error unit :=
  match ClosureFailures schedule entries with
  | [] => Ok ()
  | failures => Err (Errorf "%s: %s" [AStr prefix; AErrs (cf_Reason <$> failures)])
  end.
Definition ValidateActiveTaskContent (content : string) : result FeasibilityError unit :=
  _ ← ParseExternalFeasibility content; Ok ().

(** The digest is computed by [sha256], a parameter. *)
Record ObservationCapabilityPolicy := {
  oc_Status : string;
  oc_Admitted : bool;
  oc_AuthorityDigest : string;
}.
Definition EvaluateObservationCapability (hex_sha256 : string → string) (content : string) :
    result FeasibilityError ObservationCapabilityPolicy :=
  declaration ← ParseExternalFeasibility content;
  Ok {| oc_Status := ef_Status declaration;
        oc_Admitted := bool_decide (ef_Status declaration = StatusPoC)
                       || bool_decide (ef_Status declaration = StatusObservation);
        oc_AuthorityDigest := hex_sha256 content |}.

(** ** Continuations *)

Inductive ContinuationState :=
  | ContinuationContinueNow
  | ContinuationBlocked
  | ContinuationTerminal
  | ContinuationExplicitStop
  | ContinuationDeferredByVerifiedAutomation
  | ContinuationUnknown.
#[export] Instance ContinuationState_eq_dec : EqDecision ContinuationState.
Proof. solve_decision. Defined.

Record Continuation := {
  co_State : ContinuationState;
  co_Task : string;
  co_RequiredAction : string;
  co_Reason : string;
  co_Blocker : option Blocker;
}.
Record ParentRequestCompletionProjection := {
  pr_CompletionAdmitted : bool;
  pr_StopAdmitted : bool;
  pr_Continuation : Continuation;
}.
Record CompletionView := { cv_Ready : bool; cv_Unmet : list string }.
Record ContinuationProjectView := {
  pv_PlanPresent : bool;
  pv_ProjectReady : bool;
  pv_GoalPresent : bool;
  pv_GoalCompleted : bool;
  pv_Active : list string;
  pv_NextRunnable : option string;
  pv_Blockers : list Blocker;
  pv_Completion : option CompletionView;
}.
Record ContinuationLifecycle := {
  cl_Interrupted : bool;
  cl_InterruptedResumeValid : bool;
  cl_PinnedTask : string;
  cl_TaskAbsent : bool;
  cl_TaskComplete : bool;
  cl_ParentActionKnown : bool;
  cl_RequiredAction : string;
  cl_NoRequiredAction : bool;
  cl_TemporaryBlockReason : string;
  cl_GoalTerminalCompatible : bool;
}.

Definition ReasonPlanAbsent : string := "plan-absent".
Definition ReasonProjectStateIncomplete : string := "project-state-incomplete".
Definition ReasonLifecycleInconsistent : string := "lifecycle-inconsistent".
Definition ReasonUserInterruption : string := "user-interruption".
Definition ReasonGoalCompleted : string := "goal-completed".
Definition ReasonGoalLifecycleInconsistent : string := "goal-lifecycle-inconsistent".
Definition ReasonActiveTaskUnresolved : string := "active-task-unresolved".
Definition ReasonActiveTaskNotStarted : string := "active-task-not-started".
Definition ReasonActiveTaskMismatch : string := "active-task-mismatch".
Definition ReasonCurrentTask : string := "current-task".
Definition ReasonContinuationScopeUnbound : string := "continuation-scope-unbound".
Definition ReasonNextRunnable : string := "next-runnable".
Definition ReasonScheduleExhausted : string := "schedule-exhausted".
Definition ReasonGoalAcceptancePending : string := "goal-acceptance-pending".
Definition ReasonCompletionStateInconsistent : string := "completion-state-inconsistent".
Definition ReasonPostCompletionActive : string := "post-local-completion-active".
Definition ActionStart : string := "start".

Definition continuation (state : ContinuationState) (task action reason : string)
    (blocker : option Blocker) : Continuation :=
  {| co_State := state; co_Task := task; co_RequiredAction := action; co_Reason := reason;
     co_Blocker := blocker |}.
Definition UnknownContinuation (reason : string) : Continuation :=
  continuation ContinuationUnknown "" "" reason None.
Definition FirstBlocker (blockers : list Blocker) : option Blocker := head blockers.

Definition interruptedContinuation (project : ContinuationProjectView)
    (lifecycle : ContinuationLifecycle) : Continuation :=
  if negb (cl_InterruptedResumeValid lifecycle) then
    UnknownContinuation ReasonLifecycleInconsistent
  else
    let task := match pv_Active project with
                | [active] => if bool_decide (cl_PinnedTask lifecycle = "") then active
                              else cl_PinnedTask lifecycle
                | _ => cl_PinnedTask lifecycle
                end in
    continuation ContinuationExplicitStop task (cl_RequiredAction lifecycle)
      ReasonUserInterruption None.

Definition currentTaskContinuation (task requiredAction : string) (noRequiredAction : bool) :
    Continuation :=
  continuation ContinuationContinueNow task
    (if negb noRequiredAction then requiredAction else "") ReasonCurrentTask None.

Definition completedActiveContinuation (project : ContinuationProjectView) (activeTask : string) :
    Continuation :=
  if negb (pv_GoalPresent project) then UnknownContinuation ReasonContinuationScopeUnbound else
  match pv_NextRunnable project with
  | Some task => continuation ContinuationContinueNow task "" ReasonNextRunnable None
  | None =>
      match FirstBlocker (pv_Blockers project) with
      | Some blocker =>
          continuation ContinuationBlocked (bl_Task blocker) "" (bl_Reason blocker) (Some blocker)
      | None =>
          match pv_Completion project with
          | None => UnknownContinuation ReasonProjectStateIncomplete
          | Some completion =>
              if cv_Ready completion then
                continuation ContinuationContinueNow activeTask "" ReasonGoalAcceptancePending None
              else match cv_Unmet completion with
                   | unmet :: _ => continuation ContinuationContinueNow activeTask "" unmet None
                   | [] => UnknownContinuation ReasonCompletionStateInconsistent
                   end
          end
      end
  end.

Definition activeContinuation (project : ContinuationProjectView)
    (lifecycle : ContinuationLifecycle) (activeTask : string) : Continuation :=
  if cl_TaskAbsent lifecycle then
    if negb (bool_decide (cl_PinnedTask lifecycle = "")) then
      UnknownContinuation ReasonActiveTaskMismatch
    else continuation ContinuationContinueNow activeTask "" ReasonActiveTaskNotStarted None
  else if negb (bool_decide (cl_PinnedTask lifecycle = activeTask)) then
    UnknownContinuation ReasonActiveTaskMismatch
  else if negb (cl_ParentActionKnown lifecycle) then
    UnknownContinuation ReasonLifecycleInconsistent
  else if negb (bool_decide (cl_TemporaryBlockReason lifecycle = "")) then
    continuation ContinuationBlocked activeTask (cl_RequiredAction lifecycle)
      (cl_TemporaryBlockReason lifecycle) None
  else if negb (cl_TaskComplete lifecycle) || negb (cl_NoRequiredAction lifecycle) then
    currentTaskContinuation activeTask (cl_RequiredAction lifecycle) (cl_NoRequiredAction lifecycle)
  else completedActiveContinuation project activeTask.

Definition DeriveContinuation (project : ContinuationProjectView)
    (lifecycle : ContinuationLifecycle) : Continuation :=
  if cl_Interrupted lifecycle then interruptedContinuation project lifecycle else
  if negb (pv_PlanPresent project) then UnknownContinuation ReasonPlanAbsent else
  if negb (pv_ProjectReady project) then UnknownContinuation ReasonProjectStateIncomplete else
  if pv_GoalPresent project && pv_GoalCompleted project then
    if negb (cl_GoalTerminalCompatible lifecycle) then
      UnknownContinuation ReasonGoalLifecycleInconsistent
    else continuation ContinuationTerminal "" "" ReasonGoalCompleted None
  else match pv_Active project with
       | [activeTask] => activeContinuation project lifecycle activeTask
       | _ => UnknownContinuation ReasonActiveTaskUnresolved
       end.

Definition ParentRequestProjection (c : Continuation) (blockedStopAdmitted : bool) :
    ParentRequestCompletionProjection :=
  match co_State c with
  | ContinuationTerminal =>
      {| pr_CompletionAdmitted := true; pr_StopAdmitted := true; pr_Continuation := c |}
  | ContinuationBlocked =>
      {| pr_CompletionAdmitted := false; pr_StopAdmitted := blockedStopAdmitted; pr_Continuation := c |}
  | ContinuationDeferredByVerifiedAutomation | ContinuationExplicitStop =>
      {| pr_CompletionAdmitted := false; pr_StopAdmitted := true; pr_Continuation := c |}
  | _ => {| pr_CompletionAdmitted := false; pr_StopAdmitted := false; pr_Continuation := c |}
  end.
Definition admittedCompletionProjection (c : Continuation) : ParentRequestCompletionProjection :=
  {| pr_CompletionAdmitted := true; pr_StopAdmitted := true; pr_Continuation := c |}.

(** A nil [*TaskGraph] is [None]. *)
Definition nonGoalBlockedProjection (prepared : PostCompletionPlan) (graph : option TaskGraph) :
    ParentRequestCompletionProjection :=
  match graph with
  | None => ParentRequestProjection (UnknownContinuation ReasonProjectStateIncomplete) true
  | Some g =>
      match FirstBlocker (Blockers g (pc_Next prepared) (pc_Blocked prepared)) with
      | None => ParentRequestProjection (UnknownContinuation ReasonActiveTaskUnresolved) true
      | Some blocker => admittedCompletionProjection
          (continuation ContinuationBlocked (bl_Task blocker) "" (bl_Reason blocker) (Some blocker))
      end
  end.

Definition PostCompletionProjection (prepared : PostCompletionPlan) (graph : option TaskGraph) :
    ParentRequestCompletionProjection :=
  let unresolved := ParentRequestProjection (UnknownContinuation ReasonActiveTaskUnresolved) true in
  match pc_Kind prepared with
  | PostCompletionTerminal =>
      ParentRequestProjection (continuation ContinuationTerminal "" "" ReasonGoalCompleted None) true
  | PostCompletionContinue =>
      match pc_Active prepared with
      | [active] => ParentRequestProjection
          (continuation ContinuationContinueNow active ActionStart ReasonPostCompletionActive None) false
      | _ => unresolved
      end
  | PostCompletionBlocked => nonGoalBlockedProjection prepared graph
  | PostCompletionExhausted => admittedCompletionProjection
      (continuation ContinuationTerminal "" "" ReasonScheduleExhausted None)
  | _ =>
      match pc_Active prepared with
      | [active] => ParentRequestProjection
          (continuation ContinuationContinueNow active ActionStart ReasonPostCompletionActive None) true
      | _ =>
          match graph with
          | None => unresolved
          | Some g =>
              match NextRunnable g (pc_Next prepared) with
              | Some runnable => ParentRequestProjection
                  (continuation ContinuationContinueNow runnable ActionStart ReasonNextRunnable None) true
              | None =>
                  match FirstBlocker (Blockers g (pc_Next prepared) (pc_Blocked prepared)) with
                  | Some blocker => ParentRequestProjection
                      (continuation ContinuationBlocked (bl_Task blocker) "" (bl_Reason blocker)
                         (Some blocker)) true
                  | None => unresolved
                  end
              end
          end
      end
  end.

(** ** Task attribution *)

Record TaskAttribution := {
  ta_LifecycleTask : string;
  ta_AuthorityTask : string;
  ta_ActiveTask : string;
  ta_Matches : bool;
  ta_Handover : bool;
  ta_Reason : string;
  ta_LegalNextAction : string;
}.
Definition attribution (lifecycleTask authorityTask activeTask : string) (matches handover : bool)
    (reason action : string) : TaskAttribution :=
  {| ta_LifecycleTask := lifecycleTask; ta_AuthorityTask := authorityTask;
     ta_ActiveTask := activeTask; ta_Matches := matches; ta_Handover := handover;
     ta_Reason := reason; ta_LegalNextAction := action |}.

Definition DeriveTaskAttribution (lifecycleTask activeTask : string) (c : Continuation) :
    TaskAttribution :=
  let result := attribution lifecycleTask "" activeTask in
  if bool_decide (activeTask = "") then result false false ReasonActiveTaskUnresolved "" else
  if bool_decide (lifecycleTask = "") then
    result false false ReasonActiveTaskNotStarted
      (if bool_decide (co_State c = ContinuationContinueNow) && bool_decide (co_Task c = activeTask)
       then ActionStart else "")
  else if bool_decide (lifecycleTask = activeTask) then
    result true false ReasonCurrentTask (co_RequiredAction c)
  else if bool_decide (co_State c = ContinuationContinueNow) && bool_decide (co_Task c = activeTask)
          && bool_decide (co_RequiredAction c = ActionStart) then
    result false true (co_Reason c) ActionStart
  else result false false ReasonActiveTaskMismatch "".

Definition BindTaskAuthority (a : TaskAttribution) (authorityTask : string) : TaskAttribution :=
  let bound := attribution (ta_LifecycleTask a) authorityTask (ta_ActiveTask a) in
  if negb (bool_decide (authorityTask = "")) && negb (bool_decide (authorityTask = ta_LifecycleTask a))
  then bound false false ReasonActiveTaskMismatch ""
  else if ta_Handover a && bool_decide (authorityTask = "") then
    bound (ta_Matches a) false ReasonActiveTaskMismatch ""
  else bound (ta_Matches a) (ta_Handover a) (ta_Reason a) (ta_LegalNextAction a).

(** ** A single selected task *)

Record SelectedTaskContinuationInput := {
  si_Task : string;
  si_RequiredAction : string;
  si_StartRequired : bool;
  si_TemporaryBlockReason : string;
  si_Interrupted : bool;
}.
Definition SelectedTaskParentRequestProjection (input : SelectedTaskContinuationInput) :
    ParentRequestCompletionProjection :=
  let project c := {| pr_CompletionAdmitted := false; pr_StopAdmitted := false; pr_Continuation := c |} in
  if bool_decide (si_Task input = "") then project (UnknownContinuation ReasonActiveTaskUnresolved) else
  let requiredAction := if si_StartRequired input then ActionStart else si_RequiredAction input in
  let '(state, reason) := (ContinuationContinueNow, ReasonCurrentTask) in
  let '(state, reason) :=
    if bool_decide (si_TemporaryBlockReason input = "") then (state, reason)
    else (ContinuationBlocked, si_TemporaryBlockReason input) in
  let '(state, reason) :=
    if si_Interrupted input then (ContinuationExplicitStop, ReasonUserInterruption)
    else (state, reason) in
  project (continuation state (si_Task input) requiredAction reason None).

(** ** When completion and stopping are admitted *)

#[local] Arguments Blockers : simpl never.
#[local] Arguments NextRunnable : simpl never.

(** The projection of a derived continuation admits completion exactly when
    the request was not interrupted, the project is ready, its goal is
    completed, and the lifecycle is compatible with that. *)
Theorem DeriveContinuation_completion project lifecycle blocked :
  pr_CompletionAdmitted
    (ParentRequestProjection (DeriveContinuation project lifecycle) blocked) = true ↔
  cl_Interrupted lifecycle = false ∧ pv_PlanPresent project = true ∧
  pv_ProjectReady project = true ∧ pv_GoalPresent project = true ∧
  pv_GoalCompleted project = true ∧ cl_GoalTerminalCompatible lifecycle = true.
Proof.
  unfold DeriveContinuation, interruptedContinuation, activeContinuation,
    completedActiveContinuation, currentTaskContinuation.
  destruct (cl_Interrupted lifecycle), (pv_PlanPresent project), (pv_ProjectReady project),
    (pv_GoalPresent project), (pv_GoalCompleted project), (cl_GoalTerminalCompatible lifecycle);
    simpl; repeat (case_match; simpl); naive_solver.
Qed.

(** Stopping is admitted exactly for a completed goal, for a valid user
    interruption, and, if the caller admits blocked stops, for a blocked
    continuation. *)
Theorem DeriveContinuation_stop project lifecycle blocked :
  pr_StopAdmitted
    (ParentRequestProjection (DeriveContinuation project lifecycle) blocked) = true ↔
  co_State (DeriveContinuation project lifecycle) = ContinuationTerminal ∨
  cl_Interrupted lifecycle = true ∧ cl_InterruptedResumeValid lifecycle = true ∨
  blocked = true ∧ co_State (DeriveContinuation project lifecycle) = ContinuationBlocked.
Proof.
  unfold DeriveContinuation, interruptedContinuation, activeContinuation,
    completedActiveContinuation, currentTaskContinuation.
  destruct (cl_Interrupted lifecycle), (cl_InterruptedResumeValid lifecycle),
    (pv_PlanPresent project), (pv_ProjectReady project), (pv_GoalPresent project),
    (pv_GoalCompleted project), (cl_GoalTerminalCompatible lifecycle);
    simpl; repeat (case_match; simpl); naive_solver.
Qed.

(** A continuation that goes on names a task: the pinned or active one, or
    the next runnable one; a blocked one carries its reason. *)
Theorem DeriveContinuation_target project lifecycle :
  let c := DeriveContinuation project lifecycle in
  co_State c = ContinuationContinueNow →
  pv_Active project = [co_Task c] ∨
  pv_NextRunnable project = Some (co_Task c) ∧ cl_TaskComplete lifecycle = true ∧
    cl_NoRequiredAction lifecycle = true ∧ pv_Active project = [cl_PinnedTask lifecycle].
Proof.
  unfold DeriveContinuation, interruptedContinuation, activeContinuation,
    completedActiveContinuation, currentTaskContinuation. cbv zeta.
  destruct (cl_Interrupted lifecycle); [by destruct (cl_InterruptedResumeValid lifecycle)|].
  destruct (pv_PlanPresent project); [|done]. destruct (pv_ProjectReady project); [|done]. simpl.
  destruct (pv_GoalPresent project && pv_GoalCompleted project);
    [by destruct (cl_GoalTerminalCompatible lifecycle)|].
  destruct (pv_Active project) as [|active [|]]; [done| |done].
  destruct (cl_TaskAbsent lifecycle); [by repeat case_match; simpl; auto|].
  case_bool_decide as Hp; [|done]. simpl. destruct (cl_ParentActionKnown lifecycle); [|done]. simpl.
  case_bool_decide; [|done]. simpl.
  destruct (cl_TaskComplete lifecycle), (cl_NoRequiredAction lifecycle); simpl; auto.
  destruct (pv_GoalPresent project); [|done]. simpl.
  destruct (pv_NextRunnable project); simpl; [subst; auto|].
  repeat (case_match; simpl); auto; done.
Qed.
Lemma DeriveContinuation_target_witness :
  let project := {| pv_PlanPresent := true; pv_ProjectReady := true; pv_GoalPresent := true;
    pv_GoalCompleted := false; pv_Active := ["a"]; pv_NextRunnable := Some "b";
    pv_Blockers := []; pv_Completion := None |} in
  let lifecycle := {| cl_Interrupted := false; cl_InterruptedResumeValid := false;
    cl_PinnedTask := "a"; cl_TaskAbsent := false; cl_TaskComplete := true;
    cl_ParentActionKnown := true; cl_RequiredAction := ""; cl_NoRequiredAction := true;
    cl_TemporaryBlockReason := ""; cl_GoalTerminalCompatible := false |} in
  co_Task (DeriveContinuation project lifecycle) = "b" ∧
  (pv_Active project = [co_Task (DeriveContinuation project lifecycle)] ∨
   pv_NextRunnable project = Some (co_Task (DeriveContinuation project lifecycle)) ∧
   cl_TaskComplete lifecycle = true ∧
   cl_NoRequiredAction lifecycle = true ∧ pv_Active project = [cl_PinnedTask lifecycle]).
Proof. intros project lifecycle. split; [reflexivity|]. apply DeriveContinuation_target. reflexivity. Defined.

(** After a task, completion is admitted exactly for a completed goal, an
    exhausted schedule, and a goal-less plan whose blockers are known; whatever
    is admitted as complete may also stop. *)
Theorem PostCompletionProjection_completion prepared graph :
  let p := PostCompletionProjection prepared graph in
  (pr_CompletionAdmitted p = true ↔
   pc_Kind prepared = PostCompletionTerminal ∨ pc_Kind prepared = PostCompletionExhausted ∨
   pc_Kind prepared = PostCompletionBlocked ∧
     ∃ g, graph = Some g ∧ Blockers g (pc_Next prepared) (pc_Blocked prepared) ≠ []) ∧
  (pr_CompletionAdmitted p = true → pr_StopAdmitted p = true).
Proof.
  unfold PostCompletionProjection, nonGoalBlockedProjection, FirstBlocker. cbv zeta.
  destruct (pc_Kind prepared); destruct graph as [g|];
    try destruct (Blockers g (pc_Next prepared) (pc_Blocked prepared)) eqn:?; simpl;
    repeat (case_match; simpl); try naive_solver.
  split; [|done]. split; [|done]. intros _. right; right. split; [done|]. exists g. by split; [|congruence].
Qed.

(** binding an authority to a derived attribution: a match means the
    lifecycle runs the active task and no other task holds the authority; a
    handover means the authority is the finished lifecycle task and the active
    task may only be started; nothing is both. *)
Theorem BindTaskAuthority_sound lifecycleTask activeTask authorityTask c :
  let a := BindTaskAuthority (DeriveTaskAttribution lifecycleTask activeTask c) authorityTask in
  (ta_Matches a = true ↔ lifecycleTask = activeTask ∧ activeTask ≠ "" ∧
     (authorityTask = "" ∨ authorityTask = lifecycleTask)) ∧
  (ta_Handover a = true ↔ lifecycleTask ≠ activeTask ∧ lifecycleTask ≠ "" ∧ activeTask ≠ "" ∧
     authorityTask = lifecycleTask ∧ co_State c = ContinuationContinueNow ∧
     co_Task c = activeTask ∧ co_RequiredAction c = ActionStart) ∧
  (ta_Handover a = true → ta_LegalNextAction a = ActionStart).
Proof.
  unfold BindTaskAuthority, DeriveTaskAttribution. cbv zeta.
  repeat (case_bool_decide; simpl); naive_solver.
Qed.

(** a prepared project state has exactly one active task over a complete
    schedule, unless the goal is completed, and then the schedule is empty. *)
Theorem PrepareProjectState_spec plan p :
  PrepareProjectState plan = Ok p ↔
  ∃ goal, ParsePlanGoal plan = Ok goal ∧ let s := ParsePlanSchedule plan in
    parseError s = None ∧
    if goal_completed goal then
      scheduled s = [] ∧ p = {| sp_Goal := goal; sp_Schedule := s; sp_Active := [];
                                sp_Next := []; sp_Blocked := [] |}
    else ∃ a, Active s = [a] ∧ Forall task_path (scheduled s) ∧ a ∉ Next s ++ Blocked s ∧
      p = {| sp_Goal := goal; sp_Schedule := s; sp_Active := Active s;
             sp_Next := Next s; sp_Blocked := Blocked s |}.
Proof.
  unfold PrepareProjectState. rewrite result_bind_Ok.
  f_equiv; intros goal. apply and_iff_compat_l. cbv zeta.
  generalize (ParsePlanSchedule plan). intros s.
  destruct (goal_completed goal).
  - unfold NonActiveEntries, ActiveEntries, parseError, scheduled, nonempty.
    destruct (activeErr s), (nextErr s), (blockedErr s); simpl; try naive_solver.
    destruct (Active s), (Next s), (Blocked s); simpl; naive_solver.
  - pose proof (ValidateComplete_iff s) as V. unfold NonActiveEntries, parseError in *.
    destruct (nextErr s), (blockedErr s); simpl; try (destruct (activeErr s); naive_solver).
    destruct (ValidateComplete s) as [a|e]; simpl.
    + destruct (proj1 (V a) eq_refl) as (He & HA & Hp & Hn). rewrite HA. split.
      * intros [= <-]. split; [done|]. by exists a.
      * intros (_ & a' & [= <-] & _ & _ & ->). done.
    + split; [done|]. intros (He & a & HA & Hp & Hn & _).
      assert (Err e = Ok a) by (apply V; by split_and!). done.
Qed.

Lemma PreparePostCompletion_inv plan p :
  PreparePostCompletion plan = Ok p →
  ∃ goal, ParsePlanGoal plan = Ok goal ∧ let s := ParsePlanSchedule plan in
    parseError s = None ∧ pc_Goal p = goal ∧ pc_Active p = Active s ∧ pc_Next p = Next s ∧
    pc_Blocked p = Blocked s ∧
    match pc_Kind p with
    | PostCompletionUnset => False
    | PostCompletionTerminal => goal_completed goal = true ∧ Entries p = []
    | PostCompletionContinue => pg_Present goal = false ∧ length (pc_Active p) = 1
    | PostCompletionBlocked =>
        pg_Present goal = false ∧ pc_Active p = [] ∧ pc_Next p = [] ∧ pc_Blocked p ≠ []
    | PostCompletionExhausted => pg_Present goal = false ∧ Entries p = []
    | PostCompletionGraph =>
        pg_Present goal = true ∧ goal_completed goal = false ∧ length (pc_Active p) ≤ 1
    end.
Proof.
  unfold PreparePostCompletion. intros (goal & Hg & H)%result_bind_Ok.
  exists goal. split; [done|]. cbv zeta in *. revert H. generalize (ParsePlanSchedule plan). intros s.
  unfold ActiveEntries, NonActiveEntries, parseError, classifyNonGoalPostCompletion, Entries.
  destruct (activeErr s), (nextErr s), (blockedErr s); simpl; try done.
  destruct (goal_completed goal) eqn:Hc.
  - destruct (Active s), (Next s), (Blocked s); simpl; try done. by intros [= <-].
  - destruct (pg_Present goal) eqn:Hp; simpl.
    + case_bool_decide; [done|]. intros [= <-]; simpl. repeat split; lia.
    + destruct (Active s) as [|? [|]]; simpl; [|by intros [= <-]|done].
      destruct (Next s); simpl; [|done]. destruct (Blocked s); simpl; by intros [= <-].
Qed.

(** the kind of a post-completion plan says which of the five situations the
    plan is in: a completed goal over an empty schedule, one promoted task,
    only blocked tasks, nothing left, or a live goal to be resolved over the
    task graph. *)
Theorem PreparePostCompletion_kind plan p :
  PreparePostCompletion plan = Ok p →
  ∃ goal, ParsePlanGoal plan = Ok goal ∧ let s := ParsePlanSchedule plan in
    parseError s = None ∧ pc_Goal p = goal ∧ pc_Active p = Active s ∧ pc_Next p = Next s ∧
    pc_Blocked p = Blocked s ∧
    match pc_Kind p with
    | PostCompletionUnset => False
    | PostCompletionTerminal => goal_completed goal = true ∧ Entries p = []
    | PostCompletionContinue => pg_Present goal = false ∧ length (pc_Active p) = 1
    | PostCompletionBlocked =>
        pg_Present goal = false ∧ pc_Active p = [] ∧ pc_Next p = [] ∧ pc_Blocked p ≠ []
    | PostCompletionExhausted => pg_Present goal = false ∧ Entries p = []
    | PostCompletionGraph =>
        pg_Present goal = true ∧ goal_completed goal = false ∧ length (pc_Active p) ≤ 1
    end.
Proof. apply PreparePostCompletion_inv. Qed.
Definition sample_blocked_plan : string := "# Plan
## ACTIVE
## NEXT
## BLOCKED
- IMPLEMENTATION_TASKS/d.md
".
Definition sample_blocked_prepared : PostCompletionPlan := {|
  pc_Kind := PostCompletionBlocked; pc_Goal := {| pg_Present := false; pg_Status := "" |};
  pc_Schedule := ParsePlanSchedule sample_blocked_plan;
  pc_Active := []; pc_Next := []; pc_Blocked := ["IMPLEMENTATION_TASKS/d.md"] |}.
Lemma PreparePostCompletion_kind_witness :
  PreparePostCompletion sample_blocked_plan = Ok sample_blocked_prepared ∧
  ∃ goal, ParsePlanGoal sample_blocked_plan = Ok goal.
Proof.
  assert (PreparePostCompletion sample_blocked_plan = Ok sample_blocked_prepared) as H
    by (vm_compute; reflexivity).
  split; [exact H|]. destruct (PreparePostCompletion_kind _ _ H) as (goal & Hg & _). by exists goal.
Defined.
