(* ===== verification/TerminalMetadata.v ===== *)
(** * Retiring a terminal task from the repository metadata

    Models [internal/repositoryproject/retirement.go]: the plan, every task file
    that depends on the target, and the target's own file are changed together.
    Go iterates maps in an unspecified order; the order is a parameter, and the
    theorems show that the result does not depend on it and that the edited
    repository is closed again. *)
From S2P Require Import Prelude GoStrings TaskLines TaskContract TaskDependencies PlanSchedule.
From S2P Require Import Retirement TaskSections TaskGraph ProjectPlan.

Record TerminalMetadataChange := {
  tm_Path : string;
  tm_NewBytes : string;
  tm_Delete : bool;
}.
Record TerminalMetadata := {
  tm_Changes : list TerminalMetadataChange;
  tm_Successor : string;
}.
Definition planFile : string := "IMPLEMENTATION_PLAN.local.md".

Definition corpus_entries (tasks : list (string * string)) : list TaskCorpusEntry :=
  (λ p, {| tc_Path := p.1; tc_Regular := true |}) <$> tasks.

Definition insert_pair (m : gmap string string) (p : string * string) : gmap string string :=
  <[p.1 := p.2]> m.
Lemma foldl_insert_pair_lookup m l k v :
  NoDup l.*1 →
  foldl insert_pair m l !! k = Some v ↔ (k, v) ∈ l ∨ k ∉ l.*1 ∧ m !! k = Some v.
Proof.
  revert m. induction l as [|[k' v'] l IH]; intros m Hnd; csimpl.
  { rewrite !elem_of_nil. tauto. }
  apply NoDup_cons in Hnd as [Hk' Hnd]. rewrite IH by done. rewrite !elem_of_cons.
  unfold insert_pair; simpl. destruct (decide (k = k')) as [->|Hne].
  - rewrite lookup_insert_eq. split.
    + intros [H|[_ [= ->]]]; [|by auto]. by left; right.
    + intros [[[= ->]|H]|[H _]]; [by right|by left|]. destruct H; by left.
  - rewrite lookup_insert_ne by done. naive_solver.
Qed.

Section Retire.
(** The order in which the n-th range statement visits a map. *)
Context (range : nat → gmap string string → list (string * string)).

Definition validateRetirementCorpus (n : nat) (schedule : PlanSchedule)
    (tasks : gmap string string) : loading unit :=
  let entries := corpus_entries (range n tasks) in
  _ ← wrap_err Some (ValidateComplete schedule);
  _ ← wrap_err Some (ValidateClosure schedule entries "terminal metadata corpus is invalid");
  _ ← BuildTaskGraph (Active schedule ++ Next schedule ++ Blocked schedule) tasks;
  Ok ().

Fixpoint retireInboundLoop (tasks : list (string * string)) (target : string)
    (updatedTasks : gmap string string) (changedPaths : list string) :
    result error (gmap string string * list string) :=
  match tasks with
  | [] => Ok (updatedTasks, changedPaths)
  | (path, content) :: tasks =>
      if bool_decide (path = target) then retireInboundLoop tasks target updatedTasks changedPaths
      else
        '(updated, changed) ← wrap_err
          (λ err, Errorf "retire inbound dependency %s: %w" [AStr path; AErr err])
          (RetireTaskDependency content target);
        retireInboundLoop tasks target (<[path := updated]> updatedTasks)
          (if (changed : bool) then changedPaths ++ [path] else changedPaths)
  end.
Definition retireInboundDependencies (n : nat) (tasks : gmap string string) (target : string)
    (changedPaths : list string) : result error (gmap string string * list string) :=
  retireInboundLoop (range n tasks) target ∅ changedPaths.

Definition terminalRetirementSuccessor (schedule : PlanSchedule) (tasks : gmap string string)
    (blocker : bool) : result error string :=
  if blocker then Ok "" else
  match Next schedule with
  | [] => Err (Errorf "terminal focus has no mechanical NEXT successor; parent scheduling decision required" [])
  | successor :: _ =>
      match ParseTaskDependencyState (default "" (tasks !! successor)) with
      | Ok deps =>
          reject! bool_decide (length (Outstanding deps) ≠ 0)
            with Errorf "first NEXT requires dependency/priority decision" [];
          Ok successor
      | Err _ => Err (Errorf "first NEXT requires dependency/priority decision" [])
      end
  end.

Fixpoint terminalChangesLoop (plan : string) (tasks : gmap string string)
    (changedPaths : list string) (target : string) (changes : list TerminalMetadataChange) :
    result error (list TerminalMetadataChange) :=
  match changedPaths with
  | [] => Ok changes
  | path :: changedPaths =>
      change ← (if bool_decide (path = target) then
                  Ok {| tm_Path := path; tm_NewBytes := ""; tm_Delete := true |}
                else if bool_decide (path = planFile) then
                  Ok {| tm_Path := path; tm_NewBytes := plan; tm_Delete := false |}
                else match tasks !! path with
                     | None => Err (Errorf "terminal metadata changed Task is missing: %s" [AStr path])
                     | Some content =>
                         Ok {| tm_Path := path; tm_NewBytes := content; tm_Delete := false |}
                     end);
      terminalChangesLoop plan tasks changedPaths target (changes ++ [change])
  end.
Definition terminalMetadataChanges (plan : string) (tasks : gmap string string)
    (changedPaths : list string) (target : string) : result error (list TerminalMetadataChange) :=
  terminalChangesLoop plan tasks (merge_sort String.le changedPaths) target [].

Definition RetireTerminalMetadata (plan : string) (tasks : gmap string string) (target : string)
    (blocker : bool) : loading TerminalMetadata :=
  let schedule := ParsePlanSchedule plan in
  active ← wrap_err Some (ValidateComplete schedule);
  reject! bool_decide (tasks !! target = None)
      || eqb blocker (bool_decide (active = target))
    with failed "terminal Task/focus identity is invalid" [];
  _ ← validateRetirementCorpus 0 schedule tasks;
  '(updatedTasks, changedPaths) ← wrap_err Some
    (retireInboundDependencies 1 tasks target [target; planFile]);
  successor ← wrap_err Some (terminalRetirementSuccessor schedule updatedTasks blocker);
  updatedPlan ← wrap_err Some (RetirePlanTask plan target successor);
  _ ← validateRetirementCorpus 2 (ParsePlanSchedule updatedPlan) updatedTasks;
  changes ← wrap_err Some (terminalMetadataChanges updatedPlan updatedTasks changedPaths target);
  Ok {| tm_Changes := changes; tm_Successor := successor |}.

(** ** The change list *)

Definition change_of (plan : string) (tasks : gmap string string) (target path : string) :
    TerminalMetadataChange :=
  if bool_decide (path = target) then {| tm_Path := path; tm_NewBytes := ""; tm_Delete := true |}
  else {| tm_Path := path; tm_Delete := false;
          tm_NewBytes := if bool_decide (path = planFile) then plan
                         else default "" (tasks !! path) |}.
Definition change_known (tasks : gmap string string) (target : string) (paths : list string) :
    Prop := Forall (λ p, p = target ∨ p = planFile ∨ is_Some (tasks !! p)) paths.

Lemma terminalChangesLoop_Ok plan tasks paths target acc r :
  terminalChangesLoop plan tasks paths target acc = Ok r ↔
  change_known tasks target paths ∧ r = acc ++ (change_of plan tasks target <$> paths).
Proof.
  unfold change_known. revert acc. induction paths as [|p paths IH]; intros acc;
    cbn [terminalChangesLoop].
  { rewrite app_nil_r. naive_solver. }
  rewrite Forall_cons, fmap_cons, result_bind_Ok. setoid_rewrite IH. unfold change_of at 2.
  setoid_rewrite <-app_assoc.
  repeat case_bool_decide; simpl; [naive_solver..|].
  destruct (tasks !! p) as [c|] eqn:E; simpl; [naive_solver|].
  split; [naive_solver|]. intros [[[?|[?|[? ?]]] _] _]; congruence.
Qed.
Lemma merge_sort_paths l1 l2 : l1 ≡ₚ l2 → merge_sort String.le l1 = merge_sort String.le l2.
Proof.
  intros E. apply (Sorted_unique String.le); [apply Sorted_merge_sort, _..|].
  by rewrite !merge_sort_Permutation.
Qed.
Lemma terminalMetadataChanges_Ok plan tasks paths target r :
  terminalMetadataChanges plan tasks paths target = Ok r ↔
  change_known tasks target paths ∧
  r = change_of plan tasks target <$> merge_sort String.le paths.
Proof.
  unfold terminalMetadataChanges. rewrite terminalChangesLoop_Ok.
  apply and_iff_compat_r. unfold change_known. by rewrite merge_sort_Permutation.
Qed.

(** ** Order-free descriptions *)

Context (Hrange : ∀ n m, range n m ≡ₚ map_to_list m).

(** The plan and the task files agree: a complete schedule listing each file
    once, every scheduled task resolvable. *)
Record corpus_closed (s : PlanSchedule) (tasks : gmap string string) : Prop := {
  cc_parse : parseError s = None;
  cc_active : ∃ a, Active s = [a] ∧ a ∉ Next s ++ Blocked s;
  cc_paths : Forall task_path (scheduled s);
  cc_corpus : scheduled s ≡ₚ (map_to_list tasks).*1;
  cc_resolvable : Forall (resolvable tasks) (scheduled s);
}.

Lemma range_entries n tasks :
  let entries := corpus_entries (range n tasks) in
  tc_Path <$> entries ≡ₚ (map_to_list tasks).*1 ∧ NoDup (tc_Path <$> entries) ∧
  Forall (λ e, tc_Regular e = true) entries.
Proof.
  cbv zeta. unfold corpus_entries. rewrite <-list_fmap_compose.
  assert ((tc_Path ∘ (λ p : string * string, {| tc_Path := p.1; tc_Regular := true |})) <$> range n tasks
    ≡ₚ (map_to_list tasks).*1) as E by (by rewrite Hrange).
  split_and!; [done| |by apply Forall_fmap, Forall_true].
  rewrite E. apply NoDup_fst_map_to_list.
Qed.

Lemma validateRetirementCorpus_Ok n s tasks :
  validateRetirementCorpus n s tasks = Ok () ↔ corpus_closed s tasks.
Proof.
  unfold validateRetirementCorpus, ValidateClosure.
  destruct (range_entries n tasks) as (Hperm & Hnd & Hreg).
  set (entries := corpus_entries _) in *. pose proof (ClosureFailures_nil_iff s entries Hnd) as Hcl.
  pose proof (BuildTaskGraph_iff (Active s ++ Next s ++ Blocked s) tasks) as Hg.
  rewrite is_ok_true in Hg. split.
  - intros (a & Ha & H)%result_bind_Ok. apply wrap_err_Ok, ValidateComplete_iff in Ha as (? & HA & Hp & Hn).
    apply result_bind_Ok in H as ([] & Hc & H). apply wrap_err_Ok in Hc.
    apply result_bind_Ok in H as (g & Hb & _).
    destruct (ClosureFailures s entries); [|done]. destruct (proj1 Hcl eq_refl) as (_ & _ & Hs & _).
    split; [done|by exists a|done|by rewrite Hs|]. apply Hg. by exists g.
  - intros [Hp (a & HA & Hn) Hpaths Hs Hr].
    rewrite (proj2 (ValidateComplete_iff s a)) by done. cbn [wrap_err mbind result_bind].
    rewrite (proj2 Hcl) by (by rewrite Hperm). cbn [wrap_err mbind result_bind].
    destruct (proj2 Hg Hr) as [g ->]. done.
Qed.

Definition retired (target content : string) : string :=
  match RetireTaskDependency content target with Ok (c, _) => c | Err _ => content end.
Definition inbound_changed (target : string) (p : string * string) : bool :=
  negb (bool_decide (p.1 = target)) &&
  match RetireTaskDependency p.2 target with Ok (_, changed) => changed | Err _ => false end.

Lemma retireInboundLoop_Ok l target U C r :
  retireInboundLoop l target U C = Ok r ↔
  Forall (λ p, p.1 = target ∨ is_ok (RetireTaskDependency p.2 target) = true) l ∧
  r = (foldl insert_pair U (prod_map id (retired target) <$> filter (λ p, p.1 ≠ target) l),
       C ++ (filter (λ p, inbound_changed target p = true) l).*1).
Proof.
  revert U C. induction l as [|[p c] l IH]; intros U C; cbn [retireInboundLoop].
  { simpl. rewrite app_nil_r. split; [intros [= <-]; split; [constructor|done]|]. by intros [_ ->]. }
  assert (inbound_changed target (p, c) = negb (bool_decide (p = target)) &&
    match RetireTaskDependency c target with Ok (_, changed) => changed | Err _ => false end) as Ech
    by done.
  rewrite Forall_cons, !filter_cons, Ech. cbn [fst snd]. clear Ech.
  case_bool_decide as Hp; cbn [negb andb].
  - rewrite IH. repeat case_decide; naive_solver.
  - rewrite (decide_True (P := p ≠ target)) by done. rewrite result_bind_Ok. setoid_rewrite wrap_err_Ok.
    assert (∀ u ch, RetireTaskDependency c target = Ok (u, ch) → retired target c = u) as Eu.
    { unfold retired. by intros u ch ->. }
    destruct (RetireTaskDependency c target) as [[u ch]|e] eqn:E; [|naive_solver].
    rewrite fmap_cons. cbn [foldl]. unfold insert_pair at 2. cbn [prod_map fst snd id].
    rewrite (Eu u ch eq_refl). split.
    + intros (? & [= <-] & [? ->]%IH). split; [auto|]. f_equal.
      destruct ch; [rewrite decide_True by done|rewrite decide_False by done];
        rewrite ?fmap_cons, <-?app_assoc; done.
    + intros [[_ ?] ->]. eexists. split; [done|]. apply IH. split; [done|]. f_equal.
      destruct ch; [rewrite decide_True by done|rewrite decide_False by done];
        rewrite ?fmap_cons, <-?app_assoc; done.
Qed.

(** The updated tasks, whatever the order. *)
Definition retired_tasks (target : string) (tasks : gmap string string) : gmap string string :=
  retired target <$> delete target tasks.

Lemma retireInboundDependencies_Ok n tasks target C r :
  retireInboundDependencies n tasks target C = Ok r ↔
  (∀ p c, tasks !! p = Some c → p ≠ target → is_ok (RetireTaskDependency c target) = true) ∧
  r = (retired_tasks target tasks,
       C ++ (filter (λ p, inbound_changed target p = true) (range n tasks)).*1).
Proof.
  unfold retireInboundDependencies. rewrite retireInboundLoop_Ok.
  assert (∀ p c, (p, c) ∈ range n tasks ↔ tasks !! p = Some c) as Hin.
  { intros p c. rewrite Hrange. apply elem_of_map_to_list. }
  assert (foldl insert_pair ∅ (prod_map id (retired target) <$>
    filter (λ p, p.1 ≠ target) (range n tasks)) = retired_tasks target tasks) as ->.
  { apply map_eq. intros k. apply option_eq. intros v. rewrite foldl_insert_pair_lookup.
    - rewrite lookup_empty. unfold retired_tasks. rewrite lookup_fmap, fmap_Some.
      setoid_rewrite lookup_delete_Some. rewrite list_elem_of_fmap.
      setoid_rewrite list_elem_of_filter. split.
      + intros [([k' c] & [= -> ->] & Hne & Hk%Hin)|[_ ?]]; [|done]. exists c. naive_solver.
      + intros (c & [Hne Hk] & ->). left. exists (k, c). split; [done|].
        split; [simpl; congruence|]. by apply Hin.
    - rewrite <-list_fmap_compose. apply (NoDup_fmap_filter fst). rewrite Hrange.
      apply NoDup_fst_map_to_list. }
  rewrite Forall_forall. split; intros [H ->]; (split; [|done]).
  - intros p c Hp%Hin Hne. by destruct (H (p, c) Hp).
  - intros [p c] Hp%Hin. destruct (decide (p = target)); [by left|right]. by eapply H.
Qed.

Definition changed_paths (n : nat) (tasks : gmap string string) (target : string) : list string :=
  [target; planFile] ++ (filter (λ p, inbound_changed target p = true) (range n tasks)).*1.

Lemma RetireTerminalMetadata_Ok plan tasks target blocker md :
  RetireTerminalMetadata plan tasks target blocker = Ok md ↔
  let s := ParsePlanSchedule plan in let tasks' := retired_tasks target tasks in
  ∃ active plan', ValidateComplete s = Ok active ∧ is_Some (tasks !! target) ∧
    blocker = negb (bool_decide (active = target)) ∧ corpus_closed s tasks ∧
    (∀ p c, tasks !! p = Some c → p ≠ target → is_ok (RetireTaskDependency c target) = true) ∧
    terminalRetirementSuccessor s tasks' blocker = Ok (tm_Successor md) ∧
    RetirePlanTask plan target (tm_Successor md) = Ok plan' ∧
    corpus_closed (ParsePlanSchedule plan') tasks' ∧
    change_known tasks' target (changed_paths 1 tasks target) ∧
    tm_Changes md = change_of plan' tasks' target <$>
      merge_sort String.le (changed_paths 1 tasks target).
Proof.
  unfold RetireTerminalMetadata. cbv zeta. rewrite result_bind_Ok. setoid_rewrite wrap_err_Ok.
  split.
  - intros (active & Ha & H). destruct (_ || _) eqn:Hid in H; [done|].
    apply orb_false_iff in Hid as [Ht%bool_decide_eq_false Hb].
    apply result_bind_Ok in H as ([] & Hc%validateRetirementCorpus_Ok & H).
    apply result_bind_Ok in H as ([U C] & Hu & H). apply wrap_err_Ok in Hu.
    apply retireInboundDependencies_Ok in Hu as [Hok [= -> ->]].
    apply result_bind_Ok in H as (succ & Hs & H). apply wrap_err_Ok in Hs.
    apply result_bind_Ok in H as (plan' & Hp & H). apply wrap_err_Ok in Hp.
    apply result_bind_Ok in H as ([] & Hc'%validateRetirementCorpus_Ok & H).
    apply result_bind_Ok in H as (changes & Hch & H). apply wrap_err_Ok in Hch.
    apply (inj Ok) in H as <-. simpl. apply terminalMetadataChanges_Ok in Hch as [Hk ->].
    exists active, plan'. split_and!; try done.
    + by apply not_eq_None_Some.
    + by destruct blocker, (bool_decide (active = target)).
  - intros (active & plan' & Ha & Ht & Hb & Hc & Hok & Hs & Hp & Hc' & Hk & Hch).
    exists active. split; [done|].
    rewrite bool_decide_eq_false_2 by by apply not_eq_None_Some. simpl.
    assert (eqb blocker (bool_decide (active = target)) = false) as ->.
    { subst blocker. by destruct (bool_decide (active = target)). }
    apply (validateRetirementCorpus_Ok 0) in Hc. rewrite Hc. cbn [mbind result_bind].
    rewrite (proj2 (retireInboundDependencies_Ok 1 _ _ _ _) (conj Hok eq_refl)).
    cbn [wrap_err mbind result_bind]. rewrite Hs. cbn [wrap_err mbind result_bind].
    rewrite Hp. cbn [wrap_err mbind result_bind].
    apply (validateRetirementCorpus_Ok 2) in Hc'. rewrite Hc'. cbn [mbind result_bind].
    pose proof (proj2 (terminalMetadataChanges_Ok _ _ _ _ _) (conj Hk Hch)) as E.
    unfold changed_paths in E. cbn [app] in *. rewrite E. simpl. by destruct md.
Qed.
End Retire.

(** ** Theorems *)

(** Go may visit a map in any order, each entry once. *)
Definition lawful_range (range : nat → gmap string string → list (string * string)) : Prop :=
  ∀ n m, range n m ≡ₚ map_to_list m.

(** the retirement of a terminal task does not depend on the order in which
    maps are visited. *)
Theorem RetireTerminalMetadata_order range range' plan tasks target blocker md :
  lawful_range range → lawful_range range' →
  RetireTerminalMetadata range plan tasks target blocker = Ok md ↔
  RetireTerminalMetadata range' plan tasks target blocker = Ok md.
Proof.
  intros Hr Hr'. rewrite (RetireTerminalMetadata_Ok range Hr), (RetireTerminalMetadata_Ok range' Hr').
  assert (changed_paths range 1 tasks target ≡ₚ changed_paths range' 1 tasks target) as Hc.
  { unfold changed_paths. by rewrite (Hr 1 tasks), (Hr' 1 tasks). }
  cbv zeta. rewrite (merge_sort_paths _ _ Hc). unfold change_known. by setoid_rewrite Hc.
Qed.

(** What applying the changes does to the plan and the task files. *)
Definition apply_change (repo : string * gmap string string) (c : TerminalMetadataChange) :
    string * gmap string string :=
  if tm_Delete c then (repo.1, delete (tm_Path c) repo.2)
  else if bool_decide (tm_Path c = planFile) then (tm_NewBytes c, repo.2)
  else (repo.1, <[tm_Path c := tm_NewBytes c]> repo.2).

Lemma apply_change_of plan' tasks' target q repo :
  apply_change repo (change_of plan' tasks' target q) =
    if decide (q = target) then (repo.1, delete q repo.2)
    else if decide (q = planFile) then (plan', repo.2)
    else (repo.1, <[q := default "" (tasks' !! q)]> repo.2).
Proof.
  unfold apply_change, change_of. case_decide; [by rewrite bool_decide_eq_true_2|].
  rewrite bool_decide_eq_false_2 by done. simpl.
  case_decide; [by rewrite !bool_decide_eq_true_2|by rewrite !bool_decide_eq_false_2].
Qed.
Lemma apply_changes_spec plan' tasks' target paths repo :
  target ≠ planFile →
  let repo' := foldl apply_change repo (change_of plan' tasks' target <$> paths) in
  repo'.1 = (if bool_decide (planFile ∈ paths) then plan' else repo.1) ∧
  repo'.2 !! planFile = repo.2 !! planFile ∧
  ∀ p, p ≠ planFile → repo'.2 !! p =
    if bool_decide (p ∈ paths) then
      if bool_decide (p = target) then None else Some (default "" (tasks' !! p))
    else repo.2 !! p.
Proof.
  intros Ht. revert repo. induction paths as [|q paths IH]; intros [pl ts].
  { by split_and!. }
  cbv zeta. rewrite fmap_cons. cbn [foldl].
  destruct (IH (apply_change (pl, ts) (change_of plan' tasks' target q))) as (E1 & E3 & E2).
  rewrite apply_change_of in *. cbn [fst snd] in *. split_and!.
  - rewrite E1. repeat case_decide; repeat case_bool_decide; simpl; try done; exfalso; set_solver.
  - rewrite E3. repeat case_decide; simpl; rewrite ?lookup_delete_ne, ?lookup_insert_ne by congruence; done.
  - intros p Hp. rewrite E2 by done.
    destruct (decide (p ∈ paths)).
    { by rewrite (bool_decide_eq_true_2 (p ∈ paths)), (bool_decide_eq_true_2 (p ∈ q :: paths)) by set_solver. }
    rewrite (bool_decide_eq_false_2 (p ∈ paths)) by done.
    destruct (decide (p = q)) as [->|Hne].
    + rewrite (bool_decide_eq_true_2 (q ∈ _)) by set_solver.
      case_decide; simpl; [by rewrite lookup_delete_eq, bool_decide_eq_true_2|].
      rewrite decide_False, bool_decide_eq_false_2 by done. simpl. by rewrite lookup_insert_eq.
    + rewrite (bool_decide_eq_false_2 (p ∈ _)) by set_solver.
      repeat case_decide; simpl; rewrite ?lookup_delete_ne, ?lookup_insert_ne; done.
Qed.

Lemma RetireTaskDependency_unchanged content path c :
  RetireTaskDependency content path = Ok (c, false) → c = content.
Proof.
  unfold RetireTaskDependency. intros H. apply result_bind_Ok in H as (st & _ & H).
  destruct (negb _) in H; [by simplify_eq|].
  apply result_bind_Ok in H as (l1 & _ & H). apply result_bind_Ok in H as (l2 & _ & H).
  by apply result_bind_Ok in H as (? & _ & ?).
Qed.

(** C35: applying the changes of a successful retirement gives a repository that
    is closed again: the plan has the target retired, its file is gone, every
    other file is kept or has the dependency moved, the schedule lists exactly
    the remaining files, all of them resolve, and none waits for the target. *)
Theorem RetireTerminalMetadata_closed range plan tasks target blocker md :
  lawful_range range →
  RetireTerminalMetadata range plan tasks target blocker = Ok md →
  let '(plan', tasks') := foldl apply_change (plan, tasks) (tm_Changes md) in
  RetirePlanTask plan target (tm_Successor md) = Ok plan' ∧
  tasks' = retired_tasks target tasks ∧
  corpus_closed (ParsePlanSchedule plan') tasks' ∧
  ∀ p q, q ∈ dom tasks' → edge tasks' q p → p ≠ target.
Proof.
  intros Hr (active & plan' & Ha & [tc Ht] & Hb & Hc & Hok & Hs & Hp & Hc' & Hk & ->)%RetireTerminalMetadata_Ok;
    [|done]. cbv zeta in *.
  assert (target ≠ planFile ∧ tasks !! planFile = None) as [Htp Hpt].
  { assert (∀ q, is_Some (tasks !! q) → task_path q) as Hq.
    { intros q [c Hq]. pose proof (cc_paths _ _ Hc) as Hpaths. rewrite Forall_forall in Hpaths.
      apply Hpaths. rewrite (cc_corpus _ _ Hc). apply list_elem_of_fmap.
      exists (q, c). by rewrite elem_of_map_to_list. }
    assert (¬ task_path planFile) as Hn by (intros (? & _ & _ & [=] & _)).
    split; [intros ->; apply Hn, Hq; by eexists|].
    destruct (tasks !! planFile) eqn:E; [|done]. destruct Hn. apply Hq. by eexists. }
  pose proof (apply_changes_spec plan' (retired_tasks target tasks) target
    (merge_sort String.le (changed_paths range 1 tasks target)) (plan, tasks) Htp) as Happ.
  cbv zeta in Happ. destruct (foldl apply_change _ _) as [pl ts]. destruct Happ as (E1 & E3 & E2). simpl in *.
  assert (∀ q, q ∈ merge_sort String.le (changed_paths range 1 tasks target) ↔
    q = target ∨ q = planFile ∨ ∃ c, tasks !! q = Some c ∧ inbound_changed target (q, c) = true) as Hin.
  { intros q. rewrite merge_sort_Permutation. unfold changed_paths.
    rewrite elem_of_app, !elem_of_cons, elem_of_nil, list_elem_of_fmap.
    setoid_rewrite list_elem_of_filter. split.
    - intros [[?|[?|[]]]|([q' c] & -> & Hch & Hin)]; [auto..|].
      rewrite (Hr 1 tasks) in Hin. apply elem_of_map_to_list in Hin. eauto 10.
    - intros [?|[?|(c & Hq & Hch)]]; [auto..|]. right. exists (q, c). split_and!; [done..|].
      rewrite (Hr 1 tasks). by apply elem_of_map_to_list. }
  rewrite bool_decide_eq_true_2 in E1 by (apply Hin; auto). subst pl.
  assert (ts = retired_tasks target tasks) as ->.
  { apply map_eq. intros q. unfold retired_tasks. rewrite lookup_fmap.
    destruct (decide (q = target)) as [->|Hqt].
    { rewrite E2, bool_decide_eq_true_2, bool_decide_eq_true_2, lookup_delete_eq; auto.
      apply Hin; auto. }
    rewrite lookup_delete_ne by done. destruct (decide (q = planFile)) as [->|Hqp].
    { by rewrite E3, Hpt. }
    rewrite E2 by done. rewrite (bool_decide_eq_false_2 (q = target)) by done.
    unfold retired_tasks. rewrite lookup_fmap, lookup_delete_ne by done.
    clear Hb. case_bool_decide as Hq.
    - apply Hin in Hq as [?|[?|(c & Hq & _)]]; [done..|]. by rewrite Hq.
    - destruct (tasks !! q) as [c|] eqn:Hqc; [|done]. simpl. f_equal.
      unfold retired. destruct (RetireTaskDependency c target) as [[c' ch]|] eqn:E; [|done].
      destruct ch; [|symmetry; by eapply RetireTaskDependency_unchanged].
      destruct Hq. apply Hin. right; right. exists c. split; [done|].
      unfold inbound_changed; simpl. rewrite E. by rewrite bool_decide_eq_false_2. }
  split_and!; [done..|]. intros p q Hq He ->.
  assert (resolvable (retired_tasks target tasks) q) as Hres.
  { pose proof (cc_resolvable _ _ Hc') as Hall. rewrite Forall_forall in Hall. apply Hall.
    rewrite (cc_corpus _ _ Hc'). apply elem_of_dom in Hq as [c Hq]. apply list_elem_of_fmap.
    exists (q, c). by rewrite elem_of_map_to_list. }
  apply (resolvable_edge _ _ _ Hres) in He as (c & _ & Hc2 & _)%resolvable_content.
  unfold retired_tasks in Hc2. by rewrite lookup_fmap, lookup_delete_eq in Hc2.
Qed.

(** ** A concrete retirement *)

Definition sample_range (_ : nat) (m : gmap string string) : list (string * string) := map_to_list m.
Lemma sample_range_lawful : lawful_range sample_range.
Proof. intros n m. reflexivity. Qed.

Definition two_task_plan : string := "# Plan
## ACTIVE
- `IMPLEMENTATION_TASKS/a.md`
## NEXT
- IMPLEMENTATION_TASKS/b.md
## BLOCKED
".
Definition two_tasks : gmap string string :=
  <["IMPLEMENTATION_TASKS/a.md" := "## Dependencies
none
"]> (<["IMPLEMENTATION_TASKS/b.md" := "## Dependencies
- `IMPLEMENTATION_TASKS/a.md`
"]> ∅).
Definition two_tasks_retirement : TerminalMetadata :=
  match RetireTerminalMetadata sample_range two_task_plan two_tasks "IMPLEMENTATION_TASKS/a.md" false with
  | Ok md => md
  | Err _ => {| tm_Changes := []; tm_Successor := "" |}
  end.
Lemma RetireTerminalMetadata_closed_witness :
  tm_Path <$> tm_Changes two_tasks_retirement =
    ["IMPLEMENTATION_PLAN.local.md"; "IMPLEMENTATION_TASKS/a.md"; "IMPLEMENTATION_TASKS/b.md"] ∧
  let '(plan', tasks') :=
    foldl apply_change (two_task_plan, two_tasks) (tm_Changes two_tasks_retirement) in
  RetirePlanTask two_task_plan "IMPLEMENTATION_TASKS/a.md" (tm_Successor two_tasks_retirement) = Ok plan' ∧
  tasks' = retired_tasks "IMPLEMENTATION_TASKS/a.md" two_tasks ∧
  corpus_closed (ParsePlanSchedule plan') tasks' ∧
  ∀ p q, q ∈ dom tasks' → edge tasks' q p → p ≠ "IMPLEMENTATION_TASKS/a.md".
Proof.
  split; [vm_compute; reflexivity|].
  apply (RetireTerminalMetadata_closed sample_range two_task_plan two_tasks
    "IMPLEMENTATION_TASKS/a.md" false two_tasks_retirement sample_range_lawful).
  vm_compute. reflexivity.
Defined.
Lemma RetireTerminalMetadata_order_witness :
  RetireTerminalMetadata (λ _ m, reverse (map_to_list m)) two_task_plan two_tasks
    "IMPLEMENTATION_TASKS/a.md" false = Ok two_tasks_retirement.
Proof.
  assert (lawful_range (λ _ m, reverse (map_to_list m))) as H.
  { intros n m. apply reverse_Permutation. }
  apply (RetireTerminalMetadata_order _ _ two_task_plan two_tasks "IMPLEMENTATION_TASKS/a.md" false
    two_tasks_retirement H sample_range_lawful).
  vm_compute. reflexivity.
Defined.
