(* ===== verification/ControllerTypes.v ===== *)
(** * Records of the repository controller

    The data of [internal/controller]: task references, the controller head,
    attempts, leases, project snapshots, findings and blocker episodes, with
    the fields in the order of the Go structs.  A Go string constant type is
    its string, a pointer is an option, [uint64] is an [N] whose arithmetic
    wraps explicitly ([u64]), and [time.Time] is a number of nanoseconds. *)
From coqutil Require Export Datatypes.RecordSetters.
From S2P Require Import Prelude.
Export DoubleBraceUpdate.
#[global] Arguments constant {E} newValue _ /.

Notation Time := Z (only parsing).
Notation ControllerStatus := string (only parsing).
Notation AttemptState := string (only parsing).
Notation MutationSurface := string (only parsing).
Notation TransitionPhase := string (only parsing).
Notation EffectClassification := string (only parsing).
Notation FindingProofClass := string (only parsing).
Notation FindingEvidenceKind := string (only parsing).
Notation FindingDecisionKind := string (only parsing).
Notation FindingDispositionKind := string (only parsing).
Notation FindingIntentKind := string (only parsing).
Notation EpisodeState := string (only parsing).

(** [uint64] arithmetic. *)
Definition u64 (n : N) : N := (n mod 2 ^ 64)%N.

Record SemanticTaskRef := {
  ref_TaskPath : string;
  ref_RequestID : string;
  ref_ContractDigest : string;
}.
Record RequestTaskAuthority := {
  rq_RequestID : string;
  rq_Content : string;
}.
Record ProjectSnapshot := {
  ps_UserRequest : option RequestTaskAuthority;
  ps_CompletedRequest : option RequestTaskAuthority;
  ps_SchemaVersion : Z;
  ps_SnapshotID : string;
  ps_RepositoryIdentity : string;
  ps_HeadOID : string;
  ps_PlanDigest : string;
  ps_TaskCorpusDigest : string;
  ps_SemanticGraphDigest : string;
  ps_ScheduleDigest : string;
  ps_Active : list string;
  ps_Next : list string;
  ps_Blocked : list string;
  ps_Tasks : list SemanticTaskRef;
}.
Record EvidenceObjectRef := {
  eo_Digest : string;
  eo_Kind : string;
  eo_MediaType : string;
  eo_Length : Z;
  eo_LogicalIdentity : string;
  eo_Required : bool;
}.
Record PublicationPolicy := {
  pp_Remote : string;
  pp_RemoteRef : string;
  pp_LocalRef : string;
  pp_RequireInstall : bool;
}.
Record RepositoryControllerHead := {
  hd_UserTerminationRef : option EvidenceObjectRef;
  hd_MetadataLineageRef : option EvidenceObjectRef;
  hd_SchemaVersion : Z;
  hd_RepositoryIdentity : string;
  hd_ControllerGeneration : N;
  hd_Status : ControllerStatus;
  hd_ProjectSnapshotID : string;
  hd_AcceptedCandidateRef : option EvidenceObjectRef;
  hd_ObservedPrefix : string;
  hd_ObservedRemoteTip : string;
  hd_PublicationPolicy : option PublicationPolicy;
  hd_IntegrationTip : string;
  hd_RootTaskRef : option SemanticTaskRef;
  hd_ExecutionTaskRef : option SemanticTaskRef;
  hd_ActiveEpisodeID : string;
  hd_ActiveEpisodeRevision : N;
  hd_LiveAttemptID : string;
  hd_LiveLeaseID : string;
  hd_PendingTransitionID : string;
  hd_EvidenceHeadRef : option EvidenceObjectRef;
  hd_EvidenceLedgerHeadRef : option EvidenceObjectRef;
  hd_EvidenceLedgerSequence : N;
  hd_FailureID : string;
}.
Record ExecutionTrees := {
  xt_IndexTree : string;
  xt_WorktreeTree : string;
  xt_ParentAuthorityDigest : string;
}.
Record RepositoryIdentity := {
  ri_LineageID : string;
  ri_CommonDir : string;
  ri_PrimaryRoot : string;
}.
Record WorkspaceIdentity := {
  wi_ID : string;
  wi_RepositoryID : string;
  wi_Root : string;
  wi_GitDir : string;
}.
Record WorkspaceSnapshot := {
  ws_ID : string;
  ws_Head : string;
  ws_IndexDigest : string;
  ws_WorktreeDigest : string;
  ws_RefDigest : string;
}.
Record AttemptRecord := {
  at_SchemaVersion : Z;
  at_AttemptID : string;
  at_SemanticTaskRef : SemanticTaskRef;
  at_RootTaskRef : SemanticTaskRef;
  at_EpisodeID : string;
  at_EpisodeRevision : N;
  at_PredecessorAttemptID : string;
  at_ResumedFromSealID : string;
  at_ExecutionBaseOID : string;
  at_BaselineSnapshotID : string;
  at_BaselineArchive : EvidenceObjectRef;
  at_BaselineTrees : ExecutionTrees;
  at_WorkspaceSnapshotID : string;
  at_ExecutionAuthority : string;
  at_StartControllerGeneration : N;
  at_PublicationAnchorAtStart : string;
  at_AttemptState : AttemptState;
  at_AttemptSealID : string;
  at_CreatedAt : Time;
}.
Record ExecutionLease := {
  ls_SchemaVersion : Z;
  ls_LeaseID : string;
  ls_AttemptID : string;
  ls_SemanticTaskRef : SemanticTaskRef;
  ls_Purpose : string;
  ls_ControllerGeneration : N;
  ls_EpisodeID : string;
  ls_EpisodeRevision : N;
  ls_WorkspaceID : string;
  ls_ExpectedBaseOID : string;
  ls_ExpectedWorkspaceSnapshotID : string;
  ls_InFlightCallID : string;
  ls_CreatedAt : Time;
}.
Record MutationRecord := {
  mu_SchemaVersion : Z;
  mu_MutationID : string;
  mu_AttemptID : string;
  mu_SourceLeaseID : string;
  mu_TargetLeaseID : string;
  mu_SourceGeneration : N;
  mu_TargetGeneration : N;
  mu_Command : string;
  mu_Outcome : string;
  mu_Before : WorkspaceSnapshot;
  mu_After : WorkspaceSnapshot;
  mu_Surfaces : list MutationSurface;
  mu_CreatedAt : Time;
}.
Record CompletionProgress := {
  cp_AcknowledgementRef : option EvidenceObjectRef;
  cp_FailureRef : option EvidenceObjectRef;
  cp_AbortRemoteOID : string;
  cp_ReadinessRef : option EvidenceObjectRef;
  cp_WriteIntent : bool;
  cp_ObservationRef : option EvidenceObjectRef;
}.
Record TransitionState := {
  ts_Completion : option CompletionProgress;
  ts_SchemaVersion : Z;
  ts_TransitionID : string;
  ts_Phase : TransitionPhase;
  ts_Observed : gmap string string;
  ts_Classifications : gmap string EffectClassification;
  ts_UpdatedAt : Time;
}.
Record FailureRecord := {
  fa_SchemaVersion : Z;
  fa_FailureID : string;
  fa_Reason : string;
  fa_TransitionID : string;
  fa_Generation : N;
  fa_WorkspaceID : string;
  fa_Expected : WorkspaceSnapshot;
  fa_Actual : WorkspaceSnapshot;
  fa_Observed : gmap string string;
  fa_CreatedAt : Time;
}.
Record Admission := {
  ad_Head : RepositoryControllerHead;
  ad_Attempt : AttemptRecord;
  ad_Lease : ExecutionLease;
  ad_Workspace : WorkspaceIdentity;
  ad_Snapshot : WorkspaceSnapshot;
}.
Record EffectExpectation := {
  ef_Surface : MutationSurface;
  ef_Resource : string;
  ef_ExpectedOld : string;
  ef_ExpectedNew : string;
}.
Record TransitionAuthority := {
  ta_ProjectSnapshotID : string;
  ta_RootTaskRef : SemanticTaskRef;
  ta_ExecutionTaskRef : SemanticTaskRef;
  ta_EpisodeID : string;
  ta_EpisodeRevision : N;
  ta_AttemptID : string;
  ta_LeaseID : string;
  ta_WorkspaceID : string;
  ta_WorkspaceSnapshot : WorkspaceSnapshot;
}.
Record TransitionIntent := {
  tn_Kind : string;
  tn_ExpectedGeneration : N;
  tn_Source : Admission;
  tn_Target : TransitionAuthority;
  tn_Effects : list EffectExpectation;
}.
Record TransitionRecord := {
  tr_SchemaVersion : Z;
  tr_TransitionID : string;
  tr_Kind : string;
  tr_OperationDigest : string;
  tr_SourceGeneration : N;
  tr_PreparedGeneration : N;
  tr_CommittedGeneration : N;
  tr_TargetGeneration : N;
  tr_SourceEpisodeID : string;
  tr_SourceEpisodeRevision : N;
  tr_TargetEpisodeID : string;
  tr_TargetEpisodeRevision : N;
  tr_SourceAttemptID : string;
  tr_TargetAttemptID : string;
  tr_SourceLeaseID : string;
  tr_TargetLeaseID : string;
  tr_SourceWorkspaceID : string;
  tr_TargetWorkspaceID : string;
  tr_SourceRootTaskRef : SemanticTaskRef;
  tr_TargetRootTaskRef : SemanticTaskRef;
  tr_SourceExecutionTaskRef : SemanticTaskRef;
  tr_TargetExecutionTaskRef : SemanticTaskRef;
  tr_WorkspaceSnapshotOld : WorkspaceSnapshot;
  tr_WorkspaceSnapshotNew : WorkspaceSnapshot;
  tr_ProjectSnapshotOld : string;
  tr_ProjectSnapshotNew : string;
  tr_Effects : list EffectExpectation;
  tr_CreatedAt : Time;
}.
(** The journal of an operation.  [xo_Payloads] holds the payloads of operations
    whose records are not modelled (runtime disposition, task amendment, parent
    source, user termination, terminal, publication, suspension, rebound,
    evidence): those present, by JSON field name, with their JSON. *)
Record ExecutionOperation := {
  xo_Payloads : gmap string string;
  xo_RuntimeBeforeRef : option EvidenceObjectRef;
  xo_Transition : TransitionRecord;
  xo_Source : Admission;
  xo_Workspace : option WorkspaceIdentity;
  xo_Attempt : option AttemptRecord;
  xo_Lease : option ExecutionLease;
  xo_SealRef : option EvidenceObjectRef;
  xo_CleanupSnapshot : option WorkspaceSnapshot;
  xo_CleanupTrees : option ExecutionTrees;
  xo_CleanupArchive : option EvidenceObjectRef;
}.
Record ExecutionOperationResult := {
  xr_ParentSourceReview : bool;
  xr_SourceSnapshot : option WorkspaceSnapshot;
  xr_TransitionID : string;
  xr_Head : RepositoryControllerHead;
  xr_Admission : option Admission;
  xr_Suspension : option string;
  xr_CandidateRef : option EvidenceObjectRef;
  xr_SealRef : option EvidenceObjectRef;
}.
Record QualityMutationIntent := {
  qi_SchemaVersion : Z;
  qi_Command : string;
  qi_Admission : Admission;
  qi_Output : option WorkspaceSnapshot;
  qi_Provenance : string;
  qi_CreatedAt : Time;
}.
Record MutationAuthority := {
  ma_ControllerGeneration : N;
  ma_AttemptID : string;
  ma_LeaseID : string;
  ma_SemanticTaskRef : SemanticTaskRef;
}.
Record FindingEvidenceRef := {
  fe_Kind : FindingEvidenceKind;
  fe_ID : string;
}.
Record FindingObservationInput := {
  fi_Producer : string;
  fi_ProofClass : FindingProofClass;
  fi_Evidence : list FindingEvidenceRef;
  fi_ProblemKey : string;
}.
Record FindingRecord := {
  fr_SchemaVersion : Z;
  fr_FindingID : string;
  fr_RepositoryIdentity : string;
  fr_ProjectSnapshotID : string;
  fr_SourceAttemptID : string;
  fr_SourceSemanticTaskRef : SemanticTaskRef;
  fr_SourceWorkspaceSnapshotID : string;
  fr_SourceControllerGeneration : N;
  fr_Producer : string;
  fr_ProofClass : FindingProofClass;
  fr_Evidence : list FindingEvidenceRef;
  fr_ProblemKey : string;
  fr_CanonicalFindingID : string;
  fr_ObservedAt : Time;
}.
Record FindingDecision := {
  fd_Kind : FindingDecisionKind;
  fd_TargetTaskRef : option SemanticTaskRef;
  fd_BlockingBoundary : string;
}.
Record FindingDisposition := {
  fp_SchemaVersion : Z;
  fp_DispositionID : string;
  fp_FindingID : string;
  fp_CanonicalFindingID : string;
  fp_Kind : FindingDispositionKind;
  fp_TargetTaskRef : option SemanticTaskRef;
  fp_BlockingBoundary : string;
  fp_ControllerGeneration : N;
  fp_EpisodeID : string;
  fp_EpisodeRevision : N;
  fp_CommittedAt : Time;
}.
Record EpisodeDependencyEdge := {
  ee_BlockedTaskRef : SemanticTaskRef;
  ee_DependencyTaskRef : SemanticTaskRef;
  ee_FindingID : string;
}.
Record BlockerEpisodeRecord := {
  er_SchemaVersion : Z;
  er_EpisodeID : string;
  er_RepositoryIdentity : string;
  er_RootTaskRef : SemanticTaskRef;
  er_ScopeRootTaskRef : SemanticTaskRef;
  er_OpenedByFindingID : string;
  er_CreatedAt : Time;
}.
Record BlockerEpisodeRevision := {
  ev_SchemaVersion : Z;
  ev_EpisodeID : string;
  ev_Revision : N;
  ev_RevisionID : string;
  ev_PreviousRevisionID : string;
  ev_ProjectSnapshotID : string;
  ev_RootTaskRef : SemanticTaskRef;
  ev_ScopeRootTaskRef : SemanticTaskRef;
  ev_TriggerFindingID : string;
  ev_DependencyEdges : list EpisodeDependencyEdge;
  ev_SatisfiedTaskRefs : list SemanticTaskRef;
  ev_ExecutionHistory : list SemanticTaskRef;
  ev_AdmittedClosure : list SemanticTaskRef;
  ev_AdmittedOrder : list SemanticTaskRef;
  ev_SourceControllerGeneration : N;
  ev_SourceAttemptID : string;
  ev_SourceLeaseID : string;
  ev_SourceWorkspaceID : string;
  ev_SourceWorkspaceSnapshotID : string;
  ev_State : EpisodeState;
  ev_CreatedAt : Time;
}.
Record EpisodeScheduleResult := {
  es_Episode : BlockerEpisodeRevision;
  es_Intent : FindingIntentKind;
  es_Reason : string;
  es_NextTaskRef : option SemanticTaskRef;
}.
Record FindingDispositionResult := {
  fs_Finding : FindingRecord;
  fs_Disposition : option FindingDisposition;
  fs_Intent : FindingIntentKind;
  fs_Reason : string;
  fs_Episode : option BlockerEpisodeRevision;
  fs_NextTaskRef : option SemanticTaskRef;
}.
Record findingProblemBinding := {
  pb_SchemaVersion : Z;
  pb_ProblemKey : string;
  pb_CanonicalFindingID : string;
  pb_TargetTaskRef : option SemanticTaskRef;
  pb_UpdatedAt : Time;
}.
Record EpisodeSatisfactionInput := {
  si_EpisodeID : string;
  si_ExpectedRevision : N;
  si_ExpectedControllerGeneration : N;
  si_ProjectSnapshotID : string;
  si_SatisfiedTaskRef : SemanticTaskRef;
}.

Definition controllerSchemaVersion : Z := 1.

Definition ControllerStatusActive : ControllerStatus := "active".
Definition ControllerStatusFailClosed : ControllerStatus := "failed-closed".

Definition AttemptStateLive : AttemptState := "live".
Definition TransitionPhasePrepared : TransitionPhase := "prepared".
Definition TransitionPhaseApplied : TransitionPhase := "applied".
Definition TransitionPhaseCommitted : TransitionPhase := "committed".
Definition TransitionPhaseFinalizing : TransitionPhase := "finalizing".
Definition TransitionPhaseAborted : TransitionPhase := "aborted".
Definition TransitionPhaseFailed : TransitionPhase := "failed-closed".
Definition EffectExpectedOld : EffectClassification := "expected-old".
Definition EffectExpectedNew : EffectClassification := "expected-new".
Definition EffectUnexpected : EffectClassification := "unexpected".
Definition TransitionPhaseFinalized : TransitionPhase := "finalized".

Definition MutationSurfaceSource : MutationSurface := "source".
Definition MutationSurfaceIndex : MutationSurface := "index".
Definition MutationSurfaceHead : MutationSurface := "head".
Definition MutationSurfaceRef : MutationSurface := "ref".
Definition MutationSurfaceHistory : MutationSurface := "history".

(** ** Task references *)
#[export] Instance SemanticTaskRef_eq_dec : EqDecision SemanticTaskRef.
Proof. solve_decision. Defined.

Definition Equal (ref other : SemanticTaskRef) : bool :=
  bool_decide (ref_TaskPath ref = ref_TaskPath other) &&
  bool_decide (ref_RequestID ref = ref_RequestID other) &&
  bool_decide (ref_ContractDigest ref = ref_ContractDigest other).

Definition ref_Empty (ref : SemanticTaskRef) : bool :=
  bool_decide (ref_TaskPath ref = "") && bool_decide (ref_RequestID ref = "") &&
  bool_decide (ref_ContractDigest ref = "").

Definition Identity (ref : SemanticTaskRef) : string :=
  if bool_decide (ref_RequestID ref ≠ "") then "request:" +:+ ref_RequestID ref
  else ref_TaskPath ref.

Lemma Equal_true a b : Equal a b = true ↔ a = b.
Proof.
  unfold Equal. rewrite !andb_true_iff, !bool_decide_eq_true.
  destruct a, b; simpl. naive_solver.
Qed.
Lemma Equal_false a b : Equal a b = false ↔ a ≠ b.
Proof. rewrite <- Equal_true. by destruct (Equal a b). Qed.
Lemma Equal_refl a : Equal a a = true.
Proof. by apply Equal_true. Qed.

(** Go's [==] and [reflect.DeepEqual] on the controller's records. *)
#[export] Instance ref_eq_dec : EqDecision SemanticTaskRef. Proof. solve_decision. Defined.
#[export] Instance object_ref_eq_dec : EqDecision EvidenceObjectRef. Proof. solve_decision. Defined.
#[export] Instance policy_eq_dec : EqDecision PublicationPolicy. Proof. solve_decision. Defined.
#[export] Instance head_eq_dec : EqDecision RepositoryControllerHead. Proof. solve_decision. Defined.
#[export] Instance trees_eq_dec : EqDecision ExecutionTrees. Proof. solve_decision. Defined.
#[export] Instance workspace_eq_dec : EqDecision WorkspaceIdentity. Proof. solve_decision. Defined.
#[export] Instance snapshot_eq_dec : EqDecision WorkspaceSnapshot. Proof. solve_decision. Defined.
#[export] Instance attempt_eq_dec : EqDecision AttemptRecord. Proof. solve_decision. Defined.
#[export] Instance lease_eq_dec : EqDecision ExecutionLease. Proof. solve_decision. Defined.
#[export] Instance admission_eq_dec : EqDecision Admission. Proof. solve_decision. Defined.
#[export] Instance effect_eq_dec : EqDecision EffectExpectation. Proof. solve_decision. Defined.
#[export] Instance transition_eq_dec : EqDecision TransitionRecord. Proof. solve_decision. Defined.
#[export] Instance operation_eq_dec : EqDecision ExecutionOperation. Proof. solve_decision. Defined.
