(* ===== verification/ControllerStore.v ===== *)
(** * The repository controller's store

    Models the persistent state of [internal/controller]: [store.go],
    [mutation_lock.go], the snapshot part of [committed_task.go] and the
    request authority of [request_authority.go], over a disk of JSON
    documents.  Every read and write can fail, an atomic write replaces one
    document or leaves the disk as it was, and what an operation wrote before
    it failed stays written. *)
From S2P Require Import Prelude GoStrings ControllerTypes.
From stdpp Require Import pretty.

(** A plain file: its bytes and its [os.FileMode]. *)
Record FileContent := { fc_Data : string; fc_Mode : N }.
#[export] Instance FileContent_eq_dec : EqDecision FileContent.
Proof. solve_decision. Defined.

(** ** Documents

    A file of the store holds the JSON of one of the controller's records;
    [DocFile] is a plain
    file outside the store, read and written as bytes, [DocOther] any other
    content, which no record decodes from. *)
Inductive Doc : Type :=
  | DocHead (x : RepositoryControllerHead)
  | DocAttempt (x : AttemptRecord)
  | DocLease (x : ExecutionLease)
  | DocTransition (x : TransitionRecord)
  | DocTransitionState (x : TransitionState)
  | DocOperation (x : ExecutionOperation)
  | DocMutation (x : MutationRecord)
  | DocFailure (x : FailureRecord)
  | DocQualityIntent (x : QualityMutationIntent)
  | DocSnapshot (x : ProjectSnapshot)
  | DocFinding (x : FindingRecord)
  | DocDisposition (x : FindingDisposition)
  | DocProblem (x : findingProblemBinding)
  | DocEpisode (x : BlockerEpisodeRecord)
  | DocRevision (x : BlockerEpisodeRevision)
  | DocFile (x : FileContent)
  | DocOther (content : string).

(** The interface between the store and the records it holds: what is written
    reads back. *)
Class Document (A : Type) := {
  to_doc : A → Doc;
  of_doc : Doc → option A;
  of_to_doc x : of_doc (to_doc x) = Some x;
  of_doc_inv doc x : of_doc doc = Some x → doc = to_doc x;
}.
Ltac decode_inv := intros [] ? [= ->]; reflexivity.
#[export] Instance doc_head : Document RepositoryControllerHead :=
  {| to_doc := DocHead; of_doc d := match d with DocHead x => Some x | _ => None end;
     of_to_doc _ := eq_refl; of_doc_inv := ltac:(decode_inv) |}.
#[export] Instance doc_attempt : Document AttemptRecord :=
  {| to_doc := DocAttempt; of_doc d := match d with DocAttempt x => Some x | _ => None end;
     of_to_doc _ := eq_refl; of_doc_inv := ltac:(decode_inv) |}.
#[export] Instance doc_lease : Document ExecutionLease :=
  {| to_doc := DocLease; of_doc d := match d with DocLease x => Some x | _ => None end;
     of_to_doc _ := eq_refl; of_doc_inv := ltac:(decode_inv) |}.
#[export] Instance doc_transition : Document TransitionRecord :=
  {| to_doc := DocTransition; of_doc d := match d with DocTransition x => Some x | _ => None end;
     of_to_doc _ := eq_refl; of_doc_inv := ltac:(decode_inv) |}.
#[export] Instance doc_operation : Document ExecutionOperation :=
  {| to_doc := DocOperation; of_doc d := match d with DocOperation x => Some x | _ => None end;
     of_to_doc _ := eq_refl; of_doc_inv := ltac:(decode_inv) |}.
#[export] Instance doc_transition_state : Document TransitionState :=
  {| to_doc := DocTransitionState;
     of_doc d := match d with DocTransitionState x => Some x | _ => None end;
     of_to_doc _ := eq_refl; of_doc_inv := ltac:(decode_inv) |}.
#[export] Instance doc_mutation : Document MutationRecord :=
  {| to_doc := DocMutation; of_doc d := match d with DocMutation x => Some x | _ => None end;
     of_to_doc _ := eq_refl; of_doc_inv := ltac:(decode_inv) |}.
#[export] Instance doc_failure : Document FailureRecord :=
  {| to_doc := DocFailure; of_doc d := match d with DocFailure x => Some x | _ => None end;
     of_to_doc _ := eq_refl; of_doc_inv := ltac:(decode_inv) |}.
#[export] Instance doc_quality_intent : Document QualityMutationIntent :=
  {| to_doc := DocQualityIntent;
     of_doc d := match d with DocQualityIntent x => Some x | _ => None end;
     of_to_doc _ := eq_refl; of_doc_inv := ltac:(decode_inv) |}.
#[export] Instance doc_snapshot : Document ProjectSnapshot :=
  {| to_doc := DocSnapshot; of_doc d := match d with DocSnapshot x => Some x | _ => None end;
     of_to_doc _ := eq_refl; of_doc_inv := ltac:(decode_inv) |}.
#[export] Instance doc_finding : Document FindingRecord :=
  {| to_doc := DocFinding; of_doc d := match d with DocFinding x => Some x | _ => None end;
     of_to_doc _ := eq_refl; of_doc_inv := ltac:(decode_inv) |}.
#[export] Instance doc_disposition : Document FindingDisposition :=
  {| to_doc := DocDisposition; of_doc d := match d with DocDisposition x => Some x | _ => None end;
     of_to_doc _ := eq_refl; of_doc_inv := ltac:(decode_inv) |}.
#[export] Instance doc_problem : Document findingProblemBinding :=
  {| to_doc := DocProblem; of_doc d := match d with DocProblem x => Some x | _ => None end;
     of_to_doc _ := eq_refl; of_doc_inv := ltac:(decode_inv) |}.
#[export] Instance doc_episode : Document BlockerEpisodeRecord :=
  {| to_doc := DocEpisode; of_doc d := match d with DocEpisode x => Some x | _ => None end;
     of_to_doc _ := eq_refl; of_doc_inv := ltac:(decode_inv) |}.
#[export] Instance doc_revision : Document BlockerEpisodeRevision :=
  {| to_doc := DocRevision; of_doc d := match d with DocRevision x => Some x | _ => None end;
     of_to_doc _ := eq_refl; of_doc_inv := ltac:(decode_inv) |}.
#[export] Instance doc_file : Document FileContent :=
  {| to_doc := DocFile; of_doc d := match d with DocFile x => Some x | _ => None end;
     of_to_doc _ := eq_refl; of_doc_inv := ltac:(decode_inv) |}.

(** ** The disk

    A path is the list of its elements below the store's directory.  The sets
    [unreadable] and [unwritable] are the paths at which the operating system
    refuses a read or a write; [clock] is what [time.Now] returns, and [random]
    what the random source returns, call after call.  [power] is the number of
    changes the machine lives to make: [None] when it does not crash, [Some 0]
    once it has stopped, so that a crash can fall between any two changes. *)
Notation path := (list string) (only parsing).
Record Disk := {
  files : gmap path Doc;
  dirs : gset path;
  unreadable : gset path;
  unwritable : gset path;
  power : option nat;
  clock : nat → Time;
  ticks : nat;
  random : nat → option (nat → ascii);
  draws : nat;
}.

Definition stopped (d : Disk) : bool := bool_decide (power d = Some 0).
(** One change less to make. *)
Definition spend (d : Disk) : option nat := Nat.pred <$> power d.
Definition put_file (p : path) (doc : Doc) (d : Disk) : Disk :=
  d {{ files := <[p := doc]> (files d); power := spend d }}.

(** Operations on the disk: an error keeps what was already written. *)
Definition io (A : Type) : Type := Disk → result error A * Disk.
#[export] Instance io_ret : MRet io := λ A a d, (Ok a, d).
#[export] Instance io_bind : MBind io := λ A B f m d,
  match m d with (Ok a, d) => f a d | (Err e, d) => (Err e, d) end.
Definition fail {A} (e : error) : io A := λ d, (Err e, d).
(** A computation that does not touch the disk. *)
Definition lift {A} (r : result error A) : io A := λ d, (r, d).
(** [return fmt.Errorf("...: %w", err)] *)
Definition io_wrap {A} (f : error → error) (m : io A) : io A := λ d,
  let '(r, d) := m d in (wrap_err f r, d).
(** [x, err := m] where the code goes on in both cases. *)
Definition attempt {A} (m : io A) : io (result error A) := λ d, let '(r, d) := m d in (Ok r, d).

Notation "'refuse!' c 'with' e ; k" := (if (c : bool) then fail e else k)
  (at level 20, c at level 200, e at level 200, k at level 200, right associativity,
   format "'[v' 'refuse!'  c  'with'  e ; '/' k ']'") : go_scope.

Definition err (fmt : string) : error := Errorf fmt [].

(** [os.ErrNotExist], and [errors.Is(err, os.ErrNotExist)], which looks through
    the errors an error wraps. *)
Definition ErrNotExist (p : path) : error := Errorf "file does not exist" (AStr <$> p).
Fixpoint IsNotExist (e : error) : bool :=
  match e with
  | Errorf fmt args =>
      bool_decide (fmt = "file does not exist") ||
      (fix go args := match args with
       | [] => false
       | AErr e :: args => IsNotExist e || go args
       | AErrs es :: args =>
           (fix any es := match es with [] => false | e :: es => IsNotExist e || any es end) es
           || go args
       | _ :: args => go args
       end) args
  end.
(** [errors.Join] *)
Definition Join_errors (es : list error) : error := Errorf "%w" [AErrs es].

Definition exists_file (p : path) : io bool := λ d,
  if bool_decide (p ∈ unreadable d) then (Err (err "stat failed"), d)
  else (Ok (bool_decide (is_Some (files d !! p))), d).

Definition readJSON {A} `{Document A} (p : path) : io A := λ d,
  if bool_decide (p ∈ unreadable d) then (Err (err "read failed"), d)
  else match files d !! p with
       | None => (Err (ErrNotExist p), d)
       | Some doc =>
           match of_doc doc with
           | Some x => (Ok x, d)
           | None => (Err (err "controller JSON does not decode"), d)
           end
       end.

Definition writeJSONAtomic {A} `{Document A} (p : path) (value : A) : io unit := λ d,
  if bool_decide (p ∈ unwritable d) || stopped d then (Err (err "write failed"), d)
  else if bool_decide (removelast p ∈ dirs d) then (Ok (), put_file p (to_doc value) d)
  else (Err (ErrNotExist (removelast p)), d).

(** [os.Remove] *)
Definition remove_file (p : path) : io unit := λ d,
  if bool_decide (p ∈ unwritable d) || stopped d then (Err (err "remove failed"), d)
  else if bool_decide (files d !! p = None) then (Err (ErrNotExist p), d)
  else (Ok (), d {{ files := delete p (files d); power := spend d }}).

(** [os.MkdirAll]: the directory and those above it. *)
Fixpoint prefixes {A} (l : list A) : list (list A) :=
  [] :: match l with [] => [] | x :: l => cons x <$> prefixes l end.
Definition MkdirAll (p : path) : io unit := λ d,
  if bool_decide (p ∈ unwritable d) || stopped d then (Err (err "mkdir failed"), d)
  else (Ok (), d {{ dirs := list_to_set (prefixes p) ∪ dirs d; power := spend d }}).

(** [time.Now().UTC()] *)
Definition Now : io Time := λ d, (Ok (clock d (ticks d)), d {{ ticks := S (ticks d) }}).

(** [s.acquireMutationLock()] and the deferred [Close]: the operation under the
    lock runs alone.  Taking the lock can fail. *)
Definition lockPath : path := ["lock"].
Definition under_lock {A} (m : io A) : io A := λ d,
  if bool_decide (lockPath ∈ unwritable d)
  then (Err (Errorf "acquire repository controller mutation lock: %w" [AErr (err "lock")]), d)
  else m d.

(** Two disks that differ at most in their files, clocks and random sources. *)
Definition same_media (d d' : Disk) : Prop :=
  unreadable d' = unreadable d ∧ unwritable d' = unwritable d ∧ dirs d' = dirs d.

(** ** Generated identifiers ([state/store_util.go]) *)
Definition hexDigit (n : N) : ascii :=
  Stdlib.Strings.Ascii.ascii_of_N (if (n <? 10)%N then 48 + n else 87 + n).
Definition hexByte (c : ascii) : string :=
  String (hexDigit (byte c / 16)) (String (hexDigit (byte c mod 16)) "").
Definition hexBytes (f : nat → ascii) (from to : nat) : string :=
  foldr (λ i s, hexByte (f i) +:+ s) "" (seq from (to - from)).

Definition NewUUID : io string := λ d,
  let d' := d {{ draws := S (draws d) }} in
  match random d (draws d) with
  | None => (Err (Errorf "session UUIDを生成できません: %w" [AErr (err "rand")]), d')
  | Some value =>
      let value i :=
        if (i =? 6)
        then Stdlib.Strings.Ascii.ascii_of_N (N.lor (N.land (byte (value 6)) 15) 64)
        else if (i =? 8)
        then Stdlib.Strings.Ascii.ascii_of_N (N.lor (N.land (byte (value 8)) 63) 128)
        else value i in
      (Ok (hexBytes value 0 4 +:+ "-" +:+ hexBytes value 4 6 +:+ "-" +:+ hexBytes value 6 8 +:+
           "-" +:+ hexBytes value 8 10 +:+ "-" +:+ hexBytes value 10 16), d')
  end.

Definition isLowerHexDigit (char : ascii) : bool :=
  ((48 <=? byte char) && (byte char <=? 57) || (97 <=? byte char) && (byte char <=? 102))%N.

Fixpoint uuidLoop (index : nat) (id : string) : bool :=
  match id with
  | "" => true
  | String c id =>
      (if (index =? 8) || (index =? 13) || (index =? 18) || (index =? 23)
       then Ascii.eqb c "-" else isLowerHexDigit c) && uuidLoop (S index) id
  end.
Definition ValidUUIDFormat (id : string) : bool :=
  (String.length id =? 36) && uuidLoop 0 id.
Definition ValidGeneratedUUID (id : string) : bool :=
  ValidUUIDFormat id &&
  match String.get 14 id with Some c => Ascii.eqb c "4" | None => false end &&
  match String.get 19 id with
  | Some c => bool_decide (c ∈ ["8"%char; "9"%char; "a"%char; "b"%char])
  | None => false
  end.

Lemma hexDigit_lower n : (n < 16)%N → isLowerHexDigit (hexDigit n) = true.
Proof.
  intros Hn. assert (∃ k, k < 16 ∧ n = N.of_nat k) as (k & Hk & ->) by (exists (N.to_nat n); lia).
  do 16 (destruct k as [|k]; [reflexivity|]). lia.
Qed.

Lemma byte_digits c : (byte c / 16 < 16)%N ∧ (byte c mod 16 < 16)%N.
Proof.
  pose proof (Stdlib.Strings.Ascii.N_ascii_bounded c). unfold byte. split.
  - apply N.Div0.div_lt_upper_bound. lia.
  - by apply N.mod_lt.
Qed.

(** The version and variant nibbles that [NewUUID] sets. *)
Lemma version_nibble c :
  hexDigit (byte (Stdlib.Strings.Ascii.ascii_of_N (N.lor (N.land (byte c) 15) 64)) / 16) = "4"%char.
Proof. destruct c as [[] [] [] [] [] [] [] []]; reflexivity. Qed.
Lemma variant_nibble c :
  hexDigit (byte (Stdlib.Strings.Ascii.ascii_of_N (N.lor (N.land (byte c) 63) 128)) / 16)
    ∈ ["8"%char; "9"%char; "a"%char; "b"%char].
Proof. eapply bool_decide_eq_true. destruct c as [[] [] [] [] [] [] [] []]; reflexivity. Qed.

(** ** Reasoning about operations *)
Lemma files_put p doc d : files (put_file p doc d) = <[p := doc]> (files d).
Proof. reflexivity. Qed.
Lemma put_file_static p doc d :
  unreadable (put_file p doc d) = unreadable d ∧ unwritable (put_file p doc d) = unwritable d ∧
  dirs (put_file p doc d) = dirs d.
Proof. done. Qed.
Section IoLemmas.
Context {A B : Type}.
Implicit Types (m : io A) (d : Disk).

Lemma io_bind_Ok m (f : A → io B) d b d' :
  (m ≫= f) d = (Ok b, d') ↔ ∃ a d1, m d = (Ok a, d1) ∧ f a d1 = (Ok b, d').
Proof.
  unfold mbind, io_bind. destruct (m d) as [[a|e] d1]; split.
  - intros E. by exists a, d1.
  - intros (a' & d1' & [= <- <-] & E). done.
  - done.
  - by intros (a' & d1' & ? & ?).
Qed.

Lemma io_bind_step m (f : A → io B) d a d1 : m d = (Ok a, d1) → (m ≫= f) d = f a d1.
Proof. unfold mbind, io_bind. by intros ->. Qed.

Lemma io_bind_fail m (f : A → io B) d e d1 : m d = (Err e, d1) → (m ≫= f) d = (Err e, d1).
Proof. unfold mbind, io_bind. by intros ->. Qed.

Lemma io_wrap_Ok f m d a d' : io_wrap f m d = (Ok a, d') ↔ m d = (Ok a, d').
Proof. unfold io_wrap. destruct (m d) as [[|] ?]; simpl; split; congruence. Qed.

Lemma lift_Ok (r : result error A) d a d' : lift r d = (Ok a, d') ↔ r = Ok a ∧ d' = d.
Proof. unfold lift. split; [intros [= -> ->]; done|by intros [-> ->]]. Qed.

Lemma attempt_Ok m d r d' : attempt m d = (Ok r, d') ↔ m d = (r, d').
Proof. unfold attempt. destruct (m d). split; congruence. Qed.

Lemma readJSON_Ok `{Document A} p d a d' :
  readJSON p d = (Ok a, d') ↔
  p ∉ unreadable d ∧ files d !! p = Some (to_doc a) ∧ d' = d.
Proof.
  unfold readJSON. case_bool_decide; [split; [done|naive_solver]|].
  destruct (files d !! p) as [doc|]; [|naive_solver].
  destruct (of_doc doc) as [x|] eqn:E.
  - apply of_doc_inv in E as ->. split; [naive_solver|]. intros (_ & [= E] & ->).
    assert (x = a) as ->; [|done]. apply (inj Some). by rewrite <- !of_to_doc, E.
  - split; [done|]. intros (_ & [= ->] & _). by rewrite of_to_doc in E.
Qed.

Lemma writeJSONAtomic_Ok `{Document A} p (a : A) d u d' :
  writeJSONAtomic p a d = (Ok u, d') ↔
  p ∉ unwritable d ∧ stopped d = false ∧ removelast p ∈ dirs d ∧ d' = put_file p (to_doc a) d.
Proof.
  unfold writeJSONAtomic. destruct u. case_bool_decide; simpl; [naive_solver|].
  destruct (stopped d); [naive_solver|]. case_bool_decide; naive_solver.
Qed.
(** Whatever comes of a write, it is the new document or nothing. *)
Lemma writeJSONAtomic_run `{Document A} p (a : A) d :
  (∃ e, writeJSONAtomic p a d = (Err e, d)) ∨
  writeJSONAtomic p a d = (Ok (), put_file p (to_doc a) d).
Proof.
  unfold writeJSONAtomic. destruct (_ || _); [left; by eexists|].
  case_bool_decide; [by right|left; by eexists].
Qed.

(** What was written reads back. *)
Lemma readJSON_put `{Document A} p (a : A) d :
  p ∉ unreadable d → readJSON p (put_file p (to_doc a) d) = (Ok a, put_file p (to_doc a) d).
Proof.
  intros Hp. apply readJSON_Ok. split; [done|]. split; [|done].
  by rewrite files_put, lookup_insert_eq.
Qed.
End IoLemmas.

Lemma NewUUID_Ok d id d' :
  NewUUID d = (Ok id, d') → files d' = files d ∧ same_media d d'.
Proof. unfold NewUUID. destruct (random d (draws d)); [|done]. by intros [= _ <-]. Qed.

Lemma Now_Ok d now d' : Now d = (Ok now, d') → files d' = files d ∧ same_media d d'.
Proof. unfold Now. by intros [= _ <-]. Qed.

(** A machine that does not crash. *)
Lemma stays_up_put p doc d : power d = None → power (put_file p doc d) = None.
Proof. simpl. unfold spend. by intros ->. Qed.
Lemma stays_up_Now d now d' : Now d = (Ok now, d') → power d' = power d.
Proof. unfold Now. by intros [= _ <-]. Qed.
Lemma stays_up_NewUUID d id d' : NewUUID d = (Ok id, d') → power d' = power d.
Proof. unfold NewUUID. destruct (random d (draws d)); [|done]. by intros [= _ <-]. Qed.
Lemma up_running d : power d = None → stopped d = false.
Proof. unfold stopped. by intros ->. Qed.

(** Whatever the random source returns, a generated identifier is a
    well-formed version 4 UUID. *)
Theorem NewUUID_valid d :
  match (NewUUID d).1 with
  | Ok id => ValidGeneratedUUID id = true
  | Err _ => random d (draws d) = None
  end.
Proof.
  unfold NewUUID. destruct (random d (draws d)) as [value|]; [|done].
  unfold ValidGeneratedUUID, ValidUUIDFormat, hexBytes, hexByte.
  cbn -[hexDigit byte N.div N.modulo N.land N.lor isLowerHexDigit bool_decide Ascii.eqb].
  repeat (rewrite app_cons_str || rewrite app_nil_l_str).
  cbn -[hexDigit byte N.div N.modulo N.land N.lor isLowerHexDigit bool_decide Ascii.eqb].
  rewrite !hexDigit_lower by apply byte_digits.
  rewrite version_nibble, (bool_decide_true _ (variant_nibble _)). done.
Qed.

(** [io_inv H] turns a successful run into the facts its steps passed. *)
Ltac io_inv1 H :=
  lazymatch type of H with
  | (_ ≫= _) ?d = (Ok _, _) =>
      let a := fresh "a" in let d1 := fresh "d" in let Ha := fresh "Ha" in
      let H' := fresh "H" in
      apply io_bind_Ok in H as (a & d1 & Ha & H'); cbn beta in H'; io_inv1 Ha; io_inv1 H'
  | io_wrap _ _ _ = (Ok _, _) => apply io_wrap_Ok in H; io_inv1 H
  | lift _ _ = (Ok _, _) => let E := fresh "E" in apply lift_Ok in H as [H E]; subst
  | (if ?c then fail _ else _) _ = (Ok _, _) =>
      let Hc := fresh "Hc" in destruct c eqn:Hc; [discriminate H|]; io_inv1 H
  | mret _ _ = (Ok _, _) => injection H as H; subst
  | fail _ _ = (Ok _, _) => discriminate H
  | _ => idtac
  end.
Ltac io_inv H := cbn beta iota zeta in H; io_inv1 H.

(** ** Preservation

    [Preserves R m]: whatever the outcome, [m] moves the disk along the
    preorder [R]; [Preserves eq m] is an operation that only reads. *)
Class Preserves {A} (R : relation Disk) (m : io A) := preserves d : R d (m d).2.
#[global] Hint Mode Preserves + + ! : typeclass_instances.

Section Preserves.
Context {A : Type} (R : relation Disk) `{!PreOrder R}.

#[export] Instance preserves_ret (a : A) : Preserves R (mret a).
Proof. intros d. done. Qed.
#[export] Instance preserves_fail e : Preserves R (fail (A:=A) e).
Proof. intros d. done. Qed.
#[export] Instance preserves_lift (r : result error A) : Preserves R (lift r).
Proof. intros d. done. Qed.
#[export] Instance preserves_wrap f (m : io A) : Preserves R m → Preserves R (io_wrap f m).
Proof. intros Hm d. specialize (Hm d). unfold io_wrap. by destruct (m d). Qed.
#[export] Instance preserves_attempt (m : io A) : Preserves R m → Preserves R (attempt m).
Proof. intros Hm d. specialize (Hm d). unfold attempt. by destruct (m d). Qed.
#[export] Instance preserves_lock (m : io A) : Preserves R m → Preserves R (under_lock m).
Proof. intros Hm d. unfold under_lock. by case_bool_decide. Qed.
Lemma preserves_bind {B} (m : io A) (f : A → io B) :
  Preserves R m → (∀ a, Preserves R (f a)) → Preserves R (m ≫= f).
Proof.
  intros Hm Hf d. specialize (Hm d). unfold mbind, io_bind.
  destruct (m d) as [[a|e] d1]; [|done]. etrans; [exact Hm|apply Hf].
Qed.
#[export] Instance preserves_read `{Document A} p : Preserves R (readJSON (A:=A) p).
Proof.
  intros d. unfold readJSON. case_bool_decide; [done|].
  destruct (files d !! p) as [doc|]; [|done]. by destruct (of_doc doc).
Qed.
End Preserves.
#[export] Instance preserves_exists R `{!PreOrder R} p : Preserves R (exists_file p).
Proof. intros d. unfold exists_file. by case_bool_decide. Qed.

Ltac preserving :=
  repeat lazymatch goal with
  | |- ∀ _, _ => intro
  | |- Preserves _ (_ ≫= _) => apply preserves_bind
  | |- Preserves _ (match ?x with _ => _ end) => destruct x
  | |- Preserves _ (let _ := _ in _) => cbv zeta
  | |- Preserves _ (under_lock _) => notypeclasses refine (preserves_lock _ _ _)
  | |- Preserves _ (io_wrap _ _) => notypeclasses refine (preserves_wrap _ _ _ _)
  | |- Preserves _ (attempt _) => notypeclasses refine (preserves_attempt _ _ _)
  | |- PreOrder _ => apply _
  | |- Preserves _ _ => apply _
  end.

Lemma preserves_eq {A} (m : io A) d r d' : Preserves eq m → m d = (r, d') → d' = d.
Proof. intros Hm E. specialize (Hm d). by rewrite E in Hm. Qed.

(** Operations that only read end in the disk they started from. *)
Ltac same_disk :=
  repeat match goal with
  | E : ?m ?d = (_, ?d') |- _ =>
      is_var d'; assert_fails (constr_eq d d');
      let F := fresh in assert (d' = d) as F by (eapply preserves_eq, E; apply _); subst d'
  end.

(** Run one step, or pass one guard, of an operation in the goal. *)
Lemma pass_guard {A} (c : bool) e (k : io A) d : c = false → (if c then fail e else k) d = k d.
Proof. by intros ->. Qed.
Lemma pass_reject {A E} (c : bool) (e : E) (k : result E A) : c = false → (if c then Err e else k) = k.
Proof. by intros ->. Qed.
Ltac guard_false :=
  repeat match goal with
  | |- (_ || _)%bool = false => apply orb_false_intro
  | |- bool_decide _ = false => apply bool_decide_eq_false
  | |- negb (Equal _ _) = false => apply negb_false_iff, Equal_true
  end; try done; try tauto; try congruence.
Ltac io_step lem := erewrite io_bind_step by (first [exact lem | apply lem]); cbn beta.
Ltac io_pass := rewrite pass_guard by guard_false.

(** ** Digests

    [crypto/sha256] and [encoding/hex] are the parameter [sha256_hex]; the
    interface also holds the marker check of [RequireRequestRepository], which
    only inspects the working tree. *)
Class Host := {
  sha256_hex : string → string;
  RequireRequestRepository : string → result error unit;
}.

Section Store.
Context `{Host}.

Definition digestStrings (values : list string) : string :=
  sha256_hex (foldr (λ value s, value +:+ String "000" s) "" values).
Definition digestBytes (value : string) : string := sha256_hex value.

Definition digestTaskRefs (refs : list SemanticTaskRef) : string :=
  digestStrings ("controller-task-corpus-v1" ::
    (refs ≫= λ ref, [Identity ref; ref_ContractDigest ref])).

Definition projectSnapshotID (snapshot : ProjectSnapshot) : string :=
  digestStrings (
    ["controller-project-snapshot-v3"; ps_RepositoryIdentity snapshot; ps_HeadOID snapshot;
     ps_PlanDigest snapshot; ps_TaskCorpusDigest snapshot; ps_SemanticGraphDigest snapshot;
     ps_ScheduleDigest snapshot; "ACTIVE"] ++ ps_Active snapshot ++
    ["NEXT"] ++ ps_Next snapshot ++ ["BLOCKED"] ++ ps_Blocked snapshot ++
    match ps_UserRequest snapshot with
    | Some r => ["REQUEST"; rq_RequestID r; digestBytes (rq_Content r)] | None => [] end ++
    match ps_CompletedRequest snapshot with
    | Some r => ["COMPLETED-REQUEST"; rq_RequestID r; digestBytes (rq_Content r)] | None => [] end ++
    ["TASKS"] ++ (ps_Tasks snapshot ≫= λ ref, [Identity ref; ref_ContractDigest ref])).

(** ** Request authority *)
Definition requestSnapshotHasProjectAuthority (snapshot : ProjectSnapshot) : bool :=
  bool_decide (ps_PlanDigest snapshot ≠ "") || bool_decide (ps_SemanticGraphDigest snapshot ≠ "") ||
  bool_decide (ps_ScheduleDigest snapshot ≠ "") ||
  bool_decide (length (ps_Active snapshot) + length (ps_Next snapshot) +
               length (ps_Blocked snapshot) ≠ 0).

Definition validateRequestSnapshotTasks (snapshot : ProjectSnapshot)
    (request : RequestTaskAuthority) : result error unit :=
  match ps_CompletedRequest snapshot with
  | Some _ =>
      reject! bool_decide (length (ps_Tasks snapshot) ≠ 0)
        with err "completed request retains selected Task authority";
      Ok ()
  | None =>
      match ps_Tasks snapshot with
      | [task] =>
          reject! bool_decide (ref_TaskPath task ≠ "") ||
                  bool_decide (ref_RequestID task ≠ rq_RequestID request) ||
                  bool_decide (ref_ContractDigest task ≠ digestBytes (rq_Content request))
            with err "canonical request body and task identity differ";
          Ok ()
      | _ => Err (err "active request must have exactly one Task authority")
      end
  end.

Definition validateRequestTaskSnapshot (snapshot : ProjectSnapshot) : result error unit :=
  reject! bool_decide (is_Some (ps_UserRequest snapshot)) &&
          bool_decide (is_Some (ps_CompletedRequest snapshot))
    with err "request authority variants conflict";
  let request := match ps_CompletedRequest snapshot with
                 | Some r => Some r | None => ps_UserRequest snapshot end in
  match request with
  | None =>
      reject! existsb (λ task, bool_decide (ref_RequestID task ≠ "")) (ps_Tasks snapshot)
        with err "request task has no canonical request authority";
      Ok ()
  | Some request =>
      reject! negb (ValidGeneratedUUID (rq_RequestID request)) ||
              bool_decide (TrimSpace (rq_Content request) = "")
        with err "request authority identity or content is invalid";
      reject! requestSnapshotHasProjectAuthority snapshot
        with err "request authority cannot contain project schedule authority";
      validateRequestSnapshotTasks snapshot request
  end.

(** ** The store's records *)
Section Records.
(** [s.identity] *)
Context (identity : RepositoryIdentity).

Definition headPath : path := ["head.json"].
Definition attemptPath (id : string) : path := ["attempts"; id +:+ ".json"].
Definition leasePath (id : string) : path := ["leases"; id +:+ ".json"].
Definition transitionPath (id : string) : path := ["transitions"; id +:+ ".json"].
Definition transitionStatePath (id : string) : path := ["transition-state"; id +:+ ".json"].
Definition mutationPath (id : string) : path := ["mutations"; id +:+ ".json"].
Definition failurePath (id : string) : path := ["failures"; id +:+ ".json"].
Definition projectSnapshotPath (id : string) : path := ["project-snapshots"; id +:+ ".json"].

Definition LoadHead : io RepositoryControllerHead :=
  head ← io_wrap (λ e, Errorf "read repository controller head: %w" [AErr e])
           (readJSON (A:=RepositoryControllerHead) headPath);
  refuse! bool_decide (hd_SchemaVersion head ≠ controllerSchemaVersion) ||
          bool_decide (hd_RepositoryIdentity head ≠ ri_LineageID identity)
    with err "repository controller head identity is invalid";
  refuse! bool_decide (hd_Status head ≠ ControllerStatusActive) &&
          bool_decide (hd_Status head ≠ ControllerStatusFailClosed)
    with Errorf "repository controller status is invalid: %s" [AStr (hd_Status head)];
  mret head.

Definition writeHeadCAS (expected : N) (next : RepositoryControllerHead) : io unit :=
  current ← LoadHead;
  refuse! bool_decide (hd_ControllerGeneration current ≠ expected)
    with Errorf "controller generation CAS failed: got=%d want=%d"
           [AInt (N.to_nat (hd_ControllerGeneration current)); AInt (N.to_nat expected)];
  refuse! bool_decide (hd_SchemaVersion next ≠ controllerSchemaVersion) ||
          bool_decide (hd_RepositoryIdentity next ≠ ri_LineageID identity) ||
          bool_decide (hd_ControllerGeneration next ≤ hd_ControllerGeneration current)%N
    with err "repository controller head replacement is invalid";
  writeJSONAtomic headPath next.

Definition writeAttempt (record : AttemptRecord) : io unit :=
  writeJSONAtomic (attemptPath (at_AttemptID record)) record.
Definition loadAttempt (id : string) : io AttemptRecord :=
  record ← io_wrap (λ e, Errorf "read attempt %s: %w" [AStr id; AErr e])
             (readJSON (A:=AttemptRecord) (attemptPath id));
  refuse! bool_decide (at_SchemaVersion record ≠ controllerSchemaVersion) ||
          bool_decide (at_AttemptID record ≠ id)
    with Errorf "attempt %s identity is invalid" [AStr id];
  mret record.

Definition writeLease (record : ExecutionLease) : io unit :=
  writeJSONAtomic (leasePath (ls_LeaseID record)) record.
Definition loadLease (id : string) : io ExecutionLease :=
  record ← io_wrap (λ e, Errorf "read lease %s: %w" [AStr id; AErr e])
             (readJSON (A:=ExecutionLease) (leasePath id));
  refuse! bool_decide (ls_SchemaVersion record ≠ controllerSchemaVersion) ||
          bool_decide (ls_LeaseID record ≠ id)
    with Errorf "lease %s identity is invalid" [AStr id];
  mret record.

Definition writeTransitionState (record : TransitionState) : io unit :=
  writeJSONAtomic (transitionStatePath (ts_TransitionID record)) record.
Definition loadTransitionState (id : string) : io TransitionState :=
  record ← readJSON (A:=TransitionState) (transitionStatePath id);
  refuse! bool_decide (ts_SchemaVersion record ≠ controllerSchemaVersion) ||
          bool_decide (ts_TransitionID record ≠ id)
    with Errorf "transition state %s identity is invalid" [AStr id];
  mret record.

Definition LoadProjectSnapshot (id : string) : io ProjectSnapshot :=
  snapshot ← io_wrap (λ e, Errorf "read project snapshot %s: %w" [AStr id; AErr e])
               (readJSON (A:=ProjectSnapshot) (projectSnapshotPath id));
  refuse! bool_decide (ps_SchemaVersion snapshot ≠ controllerSchemaVersion) ||
          bool_decide (ps_RepositoryIdentity snapshot ≠ ri_LineageID identity) ||
          bool_decide (ps_SnapshotID snapshot ≠ id) ||
          bool_decide (projectSnapshotID snapshot ≠ id)
    with Errorf "project snapshot %s identity is invalid" [AStr id];
  _ ← lift (validateRequestTaskSnapshot snapshot);
  mret snapshot.

Definition writeProjectSnapshot (snapshot : ProjectSnapshot) : io unit :=
  refuse! bool_decide (ps_SchemaVersion snapshot ≠ controllerSchemaVersion) ||
          bool_decide (ps_RepositoryIdentity snapshot ≠ ri_LineageID identity)
    with err "project snapshot identity is invalid";
  _ ← lift (validateRequestTaskSnapshot snapshot);
  refuse! bool_decide (ps_SnapshotID snapshot = "") ||
          bool_decide (ps_SnapshotID snapshot ≠ projectSnapshotID snapshot)
    with err "project snapshot digest is invalid";
  _ ← io_wrap (λ e, Errorf "create project snapshot store: %w" [AErr e])
        (MkdirAll ["project-snapshots"]);
  present ← exists_file (projectSnapshotPath (ps_SnapshotID snapshot));
  if present : bool then _ ← LoadProjectSnapshot (ps_SnapshotID snapshot); mret ()
  else writeJSONAtomic (projectSnapshotPath (ps_SnapshotID snapshot)) snapshot.

Definition executionTaskAuthority (head : RepositoryControllerHead) (task : SemanticTaskRef)
    : io (option RequestTaskAuthority) :=
  project ← LoadProjectSnapshot (hd_ProjectSnapshotID head);
  match ps_UserRequest project with
  | None =>
      refuse! bool_decide (ref_RequestID task ≠ "")
        with err "request task has project-only authority";
      mret None
  | Some request =>
      refuse! match ps_Tasks project with [t] => negb (Equal t task) | _ => true end
        with err "request task does not match canonical project authority";
      _ ← lift (RequireRequestRepository (ri_PrimaryRoot identity));
      mret (Some request)
  end.

Definition requestTaskAuthority (task : SemanticTaskRef) : io RequestTaskAuthority :=
  head ← LoadHead;
  request ← executionTaskAuthority head task;
  match request with
  | None => fail (err "task is not request-backed")
  | Some request => mret request
  end.

Definition ValidateRequestTask (task : SemanticTaskRef) (request : string) : io unit :=
  authority ← requestTaskAuthority task;
  refuse! bool_decide (rq_Content authority ≠ request)
    with err "runtime request differs from canonical request authority";
  mret ().
(** ** The records' operations *)
Definition head_ok (h : RepositoryControllerHead) : Prop :=
  hd_SchemaVersion h = controllerSchemaVersion ∧ hd_RepositoryIdentity h = ri_LineageID identity.
Definition status_ok (h : RepositoryControllerHead) : Prop :=
  hd_Status h = ControllerStatusActive ∨ hd_Status h = ControllerStatusFailClosed.

Lemma LoadHead_Ok d h d' :
  LoadHead d = (Ok h, d') ↔
  headPath ∉ unreadable d ∧ files d !! headPath = Some (DocHead h) ∧ head_ok h ∧ status_ok h ∧ d' = d.
Proof.
  unfold LoadHead, head_ok, status_ok. split.
  - intros E. io_inv E. bool_simp. apply readJSON_Ok in Ha as (? & ? & ->).
    apply andb_false_iff in Hc0 as [Hc0|Hc0]; apply bool_decide_eq_false, dec_stable in Hc0;
      repeat split; try done; auto.
  - intros (Hr & Hf & [H1 H2] & Hs & ->).
    erewrite io_bind_step by (apply io_wrap_Ok, readJSON_Ok; eauto). cbn beta.
    rewrite (bool_decide_false (_ ≠ controllerSchemaVersion)), (bool_decide_false (_ ≠ ri_LineageID _))
      by tauto. simpl.
    replace (_ && _) with false; [done|]. symmetry. apply andb_false_iff.
    destruct Hs; [left|right]; apply bool_decide_eq_false; tauto.
Qed.

Lemma writeHeadCAS_Ok expected next d u d' :
  writeHeadCAS expected next d = (Ok u, d') ↔
  ∃ current, LoadHead d = (Ok current, d) ∧ hd_ControllerGeneration current = expected ∧
    head_ok next ∧ (hd_ControllerGeneration current < hd_ControllerGeneration next)%N ∧
    headPath ∉ unwritable d ∧ stopped d = false ∧ [] ∈ dirs d ∧ d' = put_file headPath (DocHead next) d.
Proof.
  unfold writeHeadCAS, head_ok. split.
  - intros E. io_inv E. bool_simp. pose proof (proj1 (LoadHead_Ok _ _ _) Ha) as (_ & _ & _ & _ & ->).
    lazymatch goal with E : writeJSONAtomic _ _ _ = _ |- _ =>
      apply writeJSONAtomic_Ok in E as (? & ? & ? & ->) end.
    exists a. repeat split; try done; lia.
  - intros (current & HL & Hg & [H1 H2] & Hlt & Hw & Hst & Hd & ->).
    erewrite io_bind_step by done. cbn beta.
    rewrite (bool_decide_false (_ ≠ expected)) by tauto.
    rewrite (bool_decide_false (_ ≠ controllerSchemaVersion)), (bool_decide_false (_ ≠ ri_LineageID _)),
      (bool_decide_false (_ ≤ _)%N) by (tauto || lia).
    destruct u. by apply writeJSONAtomic_Ok.
Qed.

Lemma loadAttempt_Ok id d r d' :
  loadAttempt id d = (Ok r, d') ↔
  attemptPath id ∉ unreadable d ∧ files d !! attemptPath id = Some (DocAttempt r) ∧
  at_SchemaVersion r = controllerSchemaVersion ∧ at_AttemptID r = id ∧ d' = d.
Proof.
  unfold loadAttempt. split.
  - intros E. io_inv E. bool_simp. apply readJSON_Ok in Ha as (? & ? & ->).
    done.
  - intros (Hr & Hf & H1 & H2 & ->).
    erewrite io_bind_step by (apply io_wrap_Ok, readJSON_Ok; eauto). cbn beta.
    by rewrite (bool_decide_false (_ ≠ controllerSchemaVersion)), (bool_decide_false (_ ≠ id)) by tauto.
Qed.

Lemma loadLease_Ok id d r d' :
  loadLease id d = (Ok r, d') ↔
  leasePath id ∉ unreadable d ∧ files d !! leasePath id = Some (DocLease r) ∧
  ls_SchemaVersion r = controllerSchemaVersion ∧ ls_LeaseID r = id ∧ d' = d.
Proof.
  unfold loadLease. split.
  - intros E. io_inv E. bool_simp. apply readJSON_Ok in Ha as (? & ? & ->).
    done.
  - intros (Hr & Hf & H1 & H2 & ->).
    erewrite io_bind_step by (apply io_wrap_Ok, readJSON_Ok; eauto). cbn beta.
    by rewrite (bool_decide_false (_ ≠ controllerSchemaVersion)), (bool_decide_false (_ ≠ id)) by tauto.
Qed.

(** The request authority of a task only depends on the project snapshot. *)
Lemma LoadProjectSnapshot_local id d d' :
  files d' !! projectSnapshotPath id = files d !! projectSnapshotPath id →
  unreadable d' = unreadable d → (LoadProjectSnapshot id d').1 = (LoadProjectSnapshot id d).1.
Proof.
  intros Hf Hu. unfold LoadProjectSnapshot, io_wrap, readJSON, mbind, io_bind. rewrite Hf, Hu.
  case_bool_decide; [done|]. destruct (files d !! _) as [doc|]; [|done].
  destruct (of_doc doc); [|done]. simpl. destruct (_ || _); [done|].
  unfold lift. by destruct (validateRequestTaskSnapshot _).
Qed.
Lemma executionTaskAuthority_local h h' task d d' :
  hd_ProjectSnapshotID h' = hd_ProjectSnapshotID h →
  files d' !! projectSnapshotPath (hd_ProjectSnapshotID h) =
    files d !! projectSnapshotPath (hd_ProjectSnapshotID h) →
  unreadable d' = unreadable d →
  (executionTaskAuthority h' task d').1 = (executionTaskAuthority h task d).1.
Proof.
  intros Hp Hf Hu. unfold executionTaskAuthority, mbind, io_bind. rewrite Hp.
  pose proof (LoadProjectSnapshot_local _ _ _ Hf Hu) as E.
  destruct (LoadProjectSnapshot _ d') as [r' e'], (LoadProjectSnapshot _ d) as [r e].
  simpl in E. subst r'. destruct r as [s|]; [|done].
  destruct (ps_UserRequest s); [destruct (match ps_Tasks s with [t] => _ | _ => _ end)|
    by destruct (bool_decide _)]; [done|].
  unfold lift. by destruct (RequireRequestRepository _).
Qed.

(** Reading operations leave the disk alone. *)
Section Reads.
Context (R : relation Disk) `{!PreOrder R}.
#[export] Instance LoadHead_reads : Preserves R LoadHead.
Proof. unfold LoadHead. preserving. Qed.
#[export] Instance loadAttempt_reads id : Preserves R (loadAttempt id).
Proof. unfold loadAttempt. preserving. Qed.
#[export] Instance loadLease_reads id : Preserves R (loadLease id).
Proof. unfold loadLease. preserving. Qed.
#[export] Instance loadTransitionState_reads id : Preserves R (loadTransitionState id).
Proof. unfold loadTransitionState. preserving. Qed.
#[export] Instance LoadProjectSnapshot_reads id : Preserves R (LoadProjectSnapshot id).
Proof. unfold LoadProjectSnapshot. preserving. Qed.
#[export] Instance executionTaskAuthority_reads h task : Preserves R (executionTaskAuthority h task).
Proof. unfold executionTaskAuthority. preserving. Qed.
#[export] Instance requestTaskAuthority_reads task : Preserves R (requestTaskAuthority task).
Proof. unfold requestTaskAuthority. preserving. Qed.
End Reads.
End Records.
End Store.
