(* ===== verification/MutationControl.v ===== *)
(** * Mutation authority

    Models [internal/controller/mutation_authority.go], the admission part of
    [admission.go], [mutation_record.go], [mutation_commit.go],
    [mutation_intent.go], [execution.go], [pristine.go] and [failClosedLocked]
    of [transition_state.go].  A caller may mutate a workspace only under the
    live lease of the current controller generation; recording the mutation
    moves the controller to the next generation under a new lease, so that an
    admission is good for one mutation. *)
From S2P Require Import Prelude GoStrings ControllerTypes ControllerStore.

Section Mutation.
Context `{Host} (identity : RepositoryIdentity).
Notation LoadHead := (LoadHead identity).
Notation writeHeadCAS := (writeHeadCAS identity).
Notation executionTaskAuthority := (executionTaskAuthority identity).

Definition admission_authority (a : Admission) : MutationAuthority :=
  {| ma_ControllerGeneration := hd_ControllerGeneration (ad_Head a);
     ma_AttemptID := at_AttemptID (ad_Attempt a);
     ma_LeaseID := ls_LeaseID (ad_Lease a);
     ma_SemanticTaskRef := ls_SemanticTaskRef (ad_Lease a) |}.

Definition MutationAuthorityFromHead (head : RepositoryControllerHead)
    : result error MutationAuthority :=
  match hd_ExecutionTaskRef head with
  | Some task =>
      reject! bool_decide (hd_ControllerGeneration head = 0%N) ||
              bool_decide (hd_LiveAttemptID head = "") || bool_decide (hd_LiveLeaseID head = "")
        with err "repository controller has no complete mutation authority";
      Ok {| ma_ControllerGeneration := hd_ControllerGeneration head;
            ma_AttemptID := hd_LiveAttemptID head; ma_LeaseID := hd_LiveLeaseID head;
            ma_SemanticTaskRef := task |}
  | None => Err (err "repository controller has no complete mutation authority")
  end.

Definition validateMutationAuthorityClaim (head : RepositoryControllerHead)
    (authority : MutationAuthority) : result error unit :=
  reject! bool_decide (ma_ControllerGeneration authority ≠ hd_ControllerGeneration head)
    with Errorf "mutation authority generation is stale: claim=%d controller=%d"
           [AInt (N.to_nat (ma_ControllerGeneration authority));
            AInt (N.to_nat (hd_ControllerGeneration head))];
  reject! bool_decide (ma_AttemptID authority = "") ||
          bool_decide (ma_AttemptID authority ≠ hd_LiveAttemptID head)
    with err "mutation authority attempt is stale";
  reject! bool_decide (ma_LeaseID authority = "") ||
          bool_decide (ma_LeaseID authority ≠ hd_LiveLeaseID head)
    with err "mutation authority lease is stale";
  reject! match hd_ExecutionTaskRef head with
          | Some task => negb (Equal task (ma_SemanticTaskRef authority)) | None => true end
    with err "mutation authority semantic task is stale";
  Ok ().

Definition IsPristine (head : RepositoryControllerHead) : bool :=
  bool_decide (hd_Status head = ControllerStatusActive) &&
  bool_decide (hd_ControllerGeneration head = 0%N) &&
  bool_decide (hd_ProjectSnapshotID head = "") &&
  bool_decide (hd_RootTaskRef head = None) &&
  bool_decide (hd_ExecutionTaskRef head = None) &&
  bool_decide (hd_ActiveEpisodeID head = "") &&
  bool_decide (hd_ActiveEpisodeRevision head = 0%N) &&
  bool_decide (hd_LiveAttemptID head = "") &&
  bool_decide (hd_LiveLeaseID head = "") &&
  bool_decide (hd_PendingTransitionID head = "") &&
  bool_decide (hd_FailureID head = "").

(** ** Admission *)
Definition loadAdmissibleHead (task : SemanticTaskRef) : io RepositoryControllerHead :=
  head ← LoadHead;
  refuse! bool_decide (hd_Status head ≠ ControllerStatusActive)
    with err "repository controller is fail-closed";
  refuse! bool_decide (hd_PendingTransitionID head ≠ "")
    with Errorf "repository controller has pending transition %s" [AStr (hd_PendingTransitionID head)];
  refuse! bool_decide (hd_LiveAttemptID head = "") || bool_decide (hd_LiveLeaseID head = "") ||
          bool_decide (hd_ExecutionTaskRef head = None) || bool_decide (hd_RootTaskRef head = None)
    with err "repository controller has no complete live execution authority";
  refuse! match hd_ExecutionTaskRef head with Some t => negb (Equal t task) | None => true end
    with err "semantic execution task does not match repository controller authority";
  refuse! bool_decide (hd_ProjectSnapshotID head = "")
    with err "repository controller has no project snapshot authority";
  _ ← executionTaskAuthority head task;
  mret head.

Definition loadLiveAttemptAndLease (head : RepositoryControllerHead)
    : io (AttemptRecord * ExecutionLease) :=
  attempt ← loadAttempt (hd_LiveAttemptID head);
  lease ← loadLease (hd_LiveLeaseID head);
  mret (attempt, lease).

Definition validateLiveRecordIdentity (head : RepositoryControllerHead) (task : SemanticTaskRef)
    (attempt : AttemptRecord) (lease : ExecutionLease) : result error unit :=
  reject! bool_decide (at_AttemptState attempt ≠ AttemptStateLive) ||
          bool_decide (at_AttemptID attempt ≠ ls_AttemptID lease) ||
          bool_decide (at_AttemptID attempt ≠ hd_LiveAttemptID head)
    with err "live attempt/lease identity is inconsistent";
  reject! negb (Equal (at_SemanticTaskRef attempt) task) ||
          negb (Equal (ls_SemanticTaskRef lease) task)
    with err "live attempt/lease semantic task is stale";
  reject! match hd_RootTaskRef head with
          | Some root => negb (Equal (at_RootTaskRef attempt) root) | None => true end
    with err "live attempt root task does not match repository controller authority";
  Ok ().

Definition validateLiveLeaseBinding (head : RepositoryControllerHead)
    (workspace : WorkspaceIdentity) (snapshot : WorkspaceSnapshot) (lease : ExecutionLease)
    : result error unit :=
  reject! bool_decide (ls_ControllerGeneration lease ≠ hd_ControllerGeneration head)
    with Errorf "execution lease generation is stale: lease=%d controller=%d"
           [AInt (N.to_nat (ls_ControllerGeneration lease));
            AInt (N.to_nat (hd_ControllerGeneration head))];
  reject! bool_decide (wi_RepositoryID workspace ≠ hd_RepositoryIdentity head) ||
          bool_decide (wi_ID workspace ≠ ls_WorkspaceID lease)
    with err "execution workspace does not match live lease";
  reject! bool_decide (ws_Head snapshot ≠ ls_ExpectedBaseOID lease) ||
          bool_decide (ws_ID snapshot ≠ ls_ExpectedWorkspaceSnapshotID lease)
    with err "execution workspace snapshot does not match live lease";
  Ok ().

Definition validateLiveAuthority (head : RepositoryControllerHead) (task : SemanticTaskRef)
    (workspace : WorkspaceIdentity) (snapshot : WorkspaceSnapshot)
    (attempt : AttemptRecord) (lease : ExecutionLease) : result error unit :=
  _ ← validateLiveRecordIdentity head task attempt lease;
  validateLiveLeaseBinding head workspace snapshot lease.

Definition admitMutation (authority : MutationAuthority) (workspace : WorkspaceIdentity)
    (snapshot : WorkspaceSnapshot) : io Admission :=
  head ← loadAdmissibleHead (ma_SemanticTaskRef authority);
  _ ← lift (validateMutationAuthorityClaim head authority);
  '(attempt, lease) ← loadLiveAttemptAndLease head;
  _ ← lift (validateLiveAuthority head (ma_SemanticTaskRef authority) workspace snapshot attempt lease);
  mret {| ad_Head := head; ad_Attempt := attempt; ad_Lease := lease;
          ad_Workspace := workspace; ad_Snapshot := snapshot |}.
Definition AdmitMutation := admitMutation.

(** ** Recording a mutation *)
Definition changedSurfaces (before after : WorkspaceSnapshot) : list MutationSurface :=
  merge_sort String.le (elements (
    (if bool_decide (ws_WorktreeDigest before ≠ ws_WorktreeDigest after)
     then {[MutationSurfaceSource]} else ∅) ∪
    (if bool_decide (ws_IndexDigest before ≠ ws_IndexDigest after)
     then {[MutationSurfaceIndex]} else ∅) ∪
    (if bool_decide (ws_Head before ≠ ws_Head after)
     then {[MutationSurfaceHead; MutationSurfaceHistory]} else ∅) ∪
    (if bool_decide (ws_RefDigest before ≠ ws_RefDigest after)
     then {[MutationSurfaceRef]} else ∅) : gset MutationSurface)).

Definition recordMutationLocked (admission : Admission) (command outcome : string)
    (after : WorkspaceSnapshot) : io Admission :=
  current ← AdmitMutation (admission_authority admission) (ad_Workspace admission)
              (ad_Snapshot admission);
  refuse! bool_decide (ls_LeaseID (ad_Lease current) ≠ ls_LeaseID (ad_Lease admission))
    with err "execution lease changed before mutation provenance commit";
  mutationID ← NewUUID;
  leaseID ← NewUUID;
  let nextGeneration := u64 (hd_ControllerGeneration (ad_Head current) + 1) in
  leaseTime ← Now;
  let nextLease := (ad_Lease current) {{
    ls_LeaseID := leaseID;
    ls_ControllerGeneration := nextGeneration;
    ls_ExpectedBaseOID := ws_Head after;
    ls_ExpectedWorkspaceSnapshotID := ws_ID after;
    ls_InFlightCallID := "";
    ls_CreatedAt := leaseTime }} in
  recordTime ← Now;
  let record := {|
    mu_SchemaVersion := controllerSchemaVersion;
    mu_MutationID := mutationID;
    mu_AttemptID := at_AttemptID (ad_Attempt current);
    mu_SourceLeaseID := ls_LeaseID (ad_Lease current);
    mu_TargetLeaseID := ls_LeaseID nextLease;
    mu_SourceGeneration := hd_ControllerGeneration (ad_Head current);
    mu_TargetGeneration := nextGeneration;
    mu_Command := command;
    mu_Outcome := outcome;
    mu_Before := ad_Snapshot current;
    mu_After := after;
    mu_Surfaces := changedSurfaces (ad_Snapshot current) after;
    mu_CreatedAt := recordTime |} in
  _ ← writeJSONAtomic (mutationPath mutationID) record;
  _ ← writeLease nextLease;
  let nextHead := (ad_Head current) {{
    hd_ControllerGeneration := nextGeneration;
    hd_LiveLeaseID := ls_LeaseID nextLease }} in
  _ ← writeHeadCAS (hd_ControllerGeneration (ad_Head current)) nextHead;
  mret {| ad_Head := nextHead; ad_Attempt := ad_Attempt current; ad_Lease := nextLease;
          ad_Workspace := ad_Workspace current; ad_Snapshot := after |}.

Definition RecordAdmittedMutation (admission : Admission) (command outcome : string)
    (after : WorkspaceSnapshot) : io Admission :=
  under_lock (recordMutationLocked admission command outcome after).

(** ** Failing closed ([transition_state.go]) *)
Definition failClosedLocked (reason transitionID : string) (workspace : WorkspaceIdentity)
    (expected actual : WorkspaceSnapshot) (observed : gmap string string) : io FailureRecord :=
  head ← LoadHead;
  failureID ← NewUUID;
  now ← Now;
  let failure := {|
    fa_SchemaVersion := controllerSchemaVersion;
    fa_FailureID := failureID;
    fa_Reason := reason;
    fa_TransitionID := transitionID;
    fa_Generation := hd_ControllerGeneration head;
    fa_WorkspaceID := wi_ID workspace;
    fa_Expected := expected;
    fa_Actual := actual;
    fa_Observed := observed;
    fa_CreatedAt := now |} in
  _ ← writeJSONAtomic (failurePath failureID) failure;
  let next := head {{
    hd_ControllerGeneration := u64 (hd_ControllerGeneration head + 1);
    hd_Status := ControllerStatusFailClosed;
    hd_FailureID := failureID;
    hd_LiveLeaseID := "" }} in
  _ ← writeHeadCAS (hd_ControllerGeneration head) next;
  if bool_decide (transitionID ≠ "") then
    stateRecord ← attempt (loadTransitionState transitionID);
    match stateRecord with
    | Err _ => mret failure
    | Ok stateRecord =>
        now ← Now;
        _ ← attempt (writeTransitionState (stateRecord {{
              ts_Phase := TransitionPhaseFailed; ts_Observed := observed; ts_UpdatedAt := now }}));
        mret failure
    end
  else mret failure.

(** ** Staged quality mutations ([mutation_intent.go]) *)
Definition QualityMutationCommand : string := "quality:harnesslint-machine-fix".
Definition qualityMutationIntentPath : path := ["quality-mutation-intent.json"].

Definition sameQualityIntentAdmission (intent : QualityMutationIntent) (admission : Admission) : bool :=
  let a := qi_Admission intent in
  bool_decide (ls_LeaseID (ad_Lease a) = ls_LeaseID (ad_Lease admission)) &&
  bool_decide (at_AttemptID (ad_Attempt a) = at_AttemptID (ad_Attempt admission)) &&
  bool_decide (hd_ControllerGeneration (ad_Head a) = hd_ControllerGeneration (ad_Head admission)) &&
  bool_decide (wi_ID (ad_Workspace a) = wi_ID (ad_Workspace admission)) &&
  bool_decide (ws_ID (ad_Snapshot a) = ws_ID (ad_Snapshot admission)).

Definition sameWorkspaceSnapshot (left right : WorkspaceSnapshot) : bool :=
  bool_decide (ws_ID left = ws_ID right) && bool_decide (ws_Head left = ws_Head right) &&
  bool_decide (ws_IndexDigest left = ws_IndexDigest right) &&
  bool_decide (ws_WorktreeDigest left = ws_WorktreeDigest right) &&
  bool_decide (ws_RefDigest left = ws_RefDigest right).

Definition loadQualityMutationIntent : io (option QualityMutationIntent) :=
  intent ← attempt (readJSON (A:=QualityMutationIntent) qualityMutationIntentPath);
  match intent with
  | Err e => if IsNotExist e then mret None else fail e
  | Ok intent =>
      refuse! bool_decide (qi_SchemaVersion intent ≠ controllerSchemaVersion) ||
              bool_decide (qi_Command intent ≠ QualityMutationCommand)
        with err "quality mutation intent is invalid";
      mret (Some intent)
  end.
Definition writeQualityMutationIntent (intent : QualityMutationIntent) : io unit :=
  writeJSONAtomic qualityMutationIntentPath intent.
Definition removeQualityMutationIntent : io unit :=
  removed ← attempt (remove_file qualityMutationIntentPath);
  match removed with
  | Err e => if IsNotExist e then mret () else fail e
  | Ok _ => mret ()
  end.

(** [os.ReadDir]: the entries of a directory by name. *)
Definition read_dir (dir : string) : io (list string) := λ d,
  if bool_decide ([dir] ∈ unreadable d) then (Err (err "readdir failed"), d)
  else if bool_decide ([dir] ∈ dirs d) then
    (Ok (merge_sort String.le (omap (λ p, match p with [x; name] =>
          if bool_decide (x = dir) then Some name else None | _ => None end)
          (elements (dom (files d))))), d)
  else (Err (ErrNotExist [dir]), d).

Fixpoint findQualityMutationRecord (sourceLeaseID : string) (names : list string)
    : io (option MutationRecord) :=
  match names with
  | [] => mret None
  | name :: names =>
      if negb (HasSuffix name ".json") then findQualityMutationRecord sourceLeaseID names
      else
        record ← readJSON (A:=MutationRecord) ["mutations"; name];
        if bool_decide (mu_SchemaVersion record = controllerSchemaVersion) &&
           bool_decide (mu_SourceLeaseID record = sourceLeaseID) &&
           bool_decide (mu_Command record = QualityMutationCommand)
        then mret (Some record)
        else findQualityMutationRecord sourceLeaseID names
  end.
Definition qualityMutationRecordForLease (sourceLeaseID : string) : io (option MutationRecord) :=
  entries ← attempt (read_dir "mutations");
  match entries with
  | Err e => if IsNotExist e then mret None else fail e
  | Ok names => findQualityMutationRecord sourceLeaseID names
  end.

Definition qualityMutationSettled (intent : QualityMutationIntent) : io bool :=
  head ← LoadHead;
  if bool_decide (hd_LiveLeaseID head ≠ ls_LeaseID (ad_Lease (qi_Admission intent))) ||
     bool_decide (hd_ControllerGeneration head ≠
                  hd_ControllerGeneration (ad_Head (qi_Admission intent)))
  then mret true
  else
    found ← qualityMutationRecordForLease (ls_LeaseID (ad_Lease (qi_Admission intent)));
    mret (bool_decide (is_Some found)).

Definition stageQualityMutationLocked (admission : Admission) : io unit :=
  let stage : io unit :=
    now ← Now;
    writeQualityMutationIntent {|
      qi_SchemaVersion := controllerSchemaVersion; qi_Command := QualityMutationCommand;
      qi_Admission := admission; qi_Output := None; qi_Provenance := ""; qi_CreatedAt := now |} in
  intent ← loadQualityMutationIntent;
  match intent with
  | None => stage
  | Some intent =>
      if bool_decide (qi_Command intent = QualityMutationCommand) &&
         sameQualityIntentAdmission intent admission
      then mret ()
      else
        settled ← qualityMutationSettled intent;
        if settled : bool then _ ← removeQualityMutationIntent; stage
        else fail (Errorf "a different quality mutation intent is already staged for lease %s"
                     [AStr (ls_LeaseID (ad_Lease (qi_Admission intent)))])
  end.
Definition StageQualityMutation (admission : Admission) : io unit :=
  under_lock (stageQualityMutationLocked admission).

Definition PreserveQualityMutationOutput (admission : Admission) (output : WorkspaceSnapshot)
    (provenance : string) : io unit :=
  refuse! bool_decide (provenance = "")
    with err "quality mutation provenance is required before settlement";
  under_lock (
    intent ← loadQualityMutationIntent;
    match intent with
    | None => fail (err "quality mutation output does not match the staged intent")
    | Some intent =>
        refuse! negb (sameQualityIntentAdmission intent admission)
          with err "quality mutation output does not match the staged intent";
        refuse! match qi_Output intent with
                | Some o => bool_decide (ws_ID o ≠ ws_ID output) | None => false end
          with Errorf "staged quality mutation output changed: staged=%s new=%s"
                 [AStr (from_option ws_ID "" (qi_Output intent)); AStr (ws_ID output)];
        writeQualityMutationIntent (intent {{
          qi_Output := Some output; qi_Provenance := provenance }})
    end).

Definition ClearQualityMutationIntent (admission : Admission) : io unit :=
  under_lock (
    intent ← loadQualityMutationIntent;
    match intent with
    | None => mret ()
    | Some intent =>
        refuse! negb (sameQualityIntentAdmission intent admission)
          with err "quality mutation intent belongs to a different admission";
        remove_file qualityMutationIntentPath
    end).

Definition validateQualityIntentIdentity (intent : QualityMutationIntent)
    (workspace : WorkspaceIdentity) : result error unit :=
  let admission := qi_Admission intent in
  reject! bool_decide (wi_ID (ad_Workspace admission) ≠ wi_ID workspace) ||
          bool_decide (wi_RepositoryID (ad_Workspace admission) ≠ wi_RepositoryID workspace)
    with err "staged quality mutation intent belongs to a different workspace";
  reject! bool_decide (at_AttemptID (ad_Attempt admission) = "") ||
          bool_decide (ls_LeaseID (ad_Lease admission) = "") ||
          bool_decide (hd_ControllerGeneration (ad_Head admission) = 0%N) ||
          bool_decide (ws_ID (ad_Snapshot admission) = "")
    with err "staged quality mutation intent is missing its admission identity";
  reject! match qi_Output intent with
          | None => false
          | Some output =>
              bool_decide (ws_Head output ≠ ws_Head (ad_Snapshot admission)) ||
              bool_decide (ws_IndexDigest output ≠ ws_IndexDigest (ad_Snapshot admission)) ||
              bool_decide (ws_RefDigest output ≠ ws_RefDigest (ad_Snapshot admission))
          end
    with err "staged quality mutation output changed protected surfaces outside the worktree";
  Ok ().

(** The staged output, when the intent may be settled for this caller. *)
Definition validateStagedQualityMutation (caller : MutationAuthority)
    (intent : QualityMutationIntent) (workspace : WorkspaceIdentity)
    (snapshot : WorkspaceSnapshot) : io WorkspaceSnapshot :=
  head ← LoadHead;
  _ ← io_wrap (λ e, Errorf "staged quality mutation settlement rejected the caller claim: %w" [AErr e])
        (lift (validateMutationAuthorityClaim head caller));
  _ ← lift (validateQualityIntentIdentity intent workspace);
  match qi_Output intent with
  | None => fail (Errorf "staged quality mutation intent for lease %s lacks preserved provenance"
                    [AStr (ls_LeaseID (ad_Lease (qi_Admission intent)))])
  | Some output =>
      refuse! bool_decide (qi_Provenance intent = "")
        with Errorf "staged quality mutation intent for lease %s lacks preserved provenance"
               [AStr (ls_LeaseID (ad_Lease (qi_Admission intent)))];
      refuse! bool_decide (hd_LiveLeaseID head ≠ ls_LeaseID (ad_Lease (qi_Admission intent))) ||
              bool_decide (hd_ControllerGeneration head ≠
                           hd_ControllerGeneration (ad_Head (qi_Admission intent)))
        with err "staged quality mutation intent is stale for the live controller head";
      refuse! negb (sameWorkspaceSnapshot output snapshot)
        with Errorf "workspace snapshot matches neither the staged quality mutation input %s nor its provenance-preserved output %s"
               [AStr (ws_ID (ad_Snapshot (qi_Admission intent))); AStr (ws_ID output)];
      mret output
  end.

Definition completeExistingQualityMutationRecord (record : MutationRecord) (current : Admission)
    : io unit :=
  now ← Now;
  let nextLease := (ad_Lease current) {{
    ls_LeaseID := mu_TargetLeaseID record;
    ls_ControllerGeneration := mu_TargetGeneration record;
    ls_ExpectedBaseOID := ws_Head (mu_After record);
    ls_ExpectedWorkspaceSnapshotID := ws_ID (mu_After record);
    ls_InFlightCallID := "";
    ls_CreatedAt := now }} in
  _ ← writeLease nextLease;
  let nextHead := (ad_Head current) {{
    hd_ControllerGeneration := mu_TargetGeneration record;
    hd_LiveLeaseID := mu_TargetLeaseID record }} in
  writeHeadCAS (hd_ControllerGeneration (ad_Head current)) nextHead.

Definition completeStagedQualityMutationLocked (intent : QualityMutationIntent)
    (output : WorkspaceSnapshot) : io unit :=
  let staged := qi_Admission intent in
  current ← io_wrap (λ e, Errorf "staged quality mutation admission replay failed: %w" [AErr e])
              (AdmitMutation (admission_authority staged) (ad_Workspace staged) (ad_Snapshot staged));
  refuse! bool_decide (ls_LeaseID (ad_Lease current) ≠ ls_LeaseID (ad_Lease staged))
    with err "execution lease changed before staged quality mutation settlement";
  existing ← qualityMutationRecordForLease (ls_LeaseID (ad_Lease staged));
  match existing with
  | Some existing =>
      refuse! bool_decide (ws_ID (mu_After existing) ≠ ws_ID output)
        with err "partially applied quality mutation record does not match the preserved output";
      completeExistingQualityMutationRecord existing current
  | None => _ ← recordMutationLocked staged QualityMutationCommand "success" output; mret ()
  end.

Definition currentHeadAuthority : io MutationAuthority :=
  head ← LoadHead; lift (MutationAuthorityFromHead head).

(** [None] when no intent is staged. *)
Definition settleQualityMutationLocked (authority : MutationAuthority)
    (workspace : WorkspaceIdentity) (snapshot : WorkspaceSnapshot) : io (option Admission) :=
  intent ← loadQualityMutationIntent;
  match intent with
  | None => mret None
  | Some intent =>
      output ← validateStagedQualityMutation authority intent workspace snapshot;
      _ ← completeStagedQualityMutationLocked intent output;
      _ ← removeQualityMutationIntent;
      nextAuthority ← currentHeadAuthority;
      admission ← AdmitMutation nextAuthority workspace snapshot;
      mret (Some admission)
  end.

Definition AdmitMutationSettlingQualityIntent (authority : MutationAuthority)
    (workspace : WorkspaceIdentity) (snapshot : WorkspaceSnapshot) : io Admission :=
  admitted ← attempt (AdmitMutation authority workspace snapshot);
  match admitted with
  | Ok admission => mret admission
  | Err e =>
      settled ← attempt (under_lock (settleQualityMutationLocked authority workspace snapshot));
      match settled with
      | Err settleErr => fail (Join_errors [e; settleErr])
      | Ok None => fail e
      | Ok (Some admission) => mret admission
      end
  end.

(** ** Admission that fails closed ([execution.go]) *)
Definition failClosedForUnattributedMutation (authority : MutationAuthority)
    (workspace : WorkspaceIdentity) (snapshot : WorkspaceSnapshot) (e : error)
    (settleErr : option error) : io Admission :=
  head ← attempt LoadHead;
  match head with
  | Err _ => fail e
  | Ok head =>
      refuse! bool_decide (hd_Status head ≠ ControllerStatusActive) ||
              bool_decide (hd_LiveLeaseID head = "") with e;
      refuse! negb (is_ok (validateMutationAuthorityClaim head authority)) with e;
      lease ← attempt (loadLease (hd_LiveLeaseID head));
      match lease with
      | Err _ => fail e
      | Ok lease =>
          refuse! bool_decide (ls_WorkspaceID lease ≠ wi_ID workspace) with e;
          refuse! bool_decide (ws_Head snapshot = ls_ExpectedBaseOID lease) &&
                  bool_decide (ws_ID snapshot = ls_ExpectedWorkspaceSnapshotID lease) with e;
          let expected := {| ws_ID := ls_ExpectedWorkspaceSnapshotID lease;
                             ws_Head := ls_ExpectedBaseOID lease;
                             ws_IndexDigest := ""; ws_WorktreeDigest := ""; ws_RefDigest := "" |} in
          failed ← attempt (failClosedLocked
            "unattributed mutation changed the live execution workspace" "" workspace
            expected snapshot ∅);
          match failed, settleErr with
          | Err failErr, _ =>
              fail (Join_errors [e; Errorf "repository controller fail-close failed: %w" [AErr failErr]])
          | Ok _, Some settleErr =>
              fail (Errorf "%w; staged quality mutation settlement was rejected: %w; repository controller entered fail-closed state"
                      [AErr e; AErr settleErr])
          | Ok _, None =>
              fail (Errorf "%w; repository controller entered fail-closed state" [AErr e])
          end
      end
  end.

Definition AdmitMutationOrFailClosed (authority : MutationAuthority)
    (workspace : WorkspaceIdentity) (snapshot : WorkspaceSnapshot) : io Admission :=
  admitted ← attempt (AdmitMutation authority workspace snapshot);
  match admitted with
  | Ok admission => mret admission
  | Err e => λ d,
      if bool_decide (lockPath ∈ unwritable d)
      then fail (Join_errors [e; Errorf "acquire repository controller mutation lock: %w"
                                   [AErr (err "lock")]]) d
      else (
        settled ← attempt (settleQualityMutationLocked authority workspace snapshot);
        match settled with
        | Ok (Some admission) => mret admission
        | Ok None => failClosedForUnattributedMutation authority workspace snapshot e None
        | Err settleErr =>
            failClosedForUnattributedMutation authority workspace snapshot e (Some settleErr)
        end) d
  end.

(** ** The public operations as steps *)
Inductive control_step (d : Disk) : Disk → Prop :=
  | step_record a command outcome after :
      control_step d (RecordAdmittedMutation a command outcome after d).2
  | step_stage a : control_step d (StageQualityMutation a d).2
  | step_preserve a output provenance :
      control_step d (PreserveQualityMutationOutput a output provenance d).2
  | step_clear a : control_step d (ClearQualityMutationIntent a d).2
  | step_settle authority workspace snapshot :
      control_step d (AdmitMutationSettlingQualityIntent authority workspace snapshot d).2
  | step_admit authority workspace snapshot :
      control_step d (AdmitMutationOrFailClosed authority workspace snapshot d).2.

(** *** What the operations do to the head *)
Definition same_head (d d' : Disk) : Prop := files d' !! headPath = files d !! headPath.

(** The head stays, or a head of a later generation takes its place. *)
Definition advances (d d' : Disk) : Prop :=
  same_head d d' ∨ ∃ h h', files d !! headPath = Some (DocHead h) ∧
    files d' !! headPath = Some (DocHead h') ∧
    (hd_ControllerGeneration h < hd_ControllerGeneration h')%N.

Definition closed (d : Disk) : Prop :=
  ∃ h, files d !! headPath = Some (DocHead h) ∧ hd_Status h = ControllerStatusFailClosed.
Definition stays_closed (d d' : Disk) : Prop := closed d → same_head d d'.

#[export] Instance same_head_preorder : PreOrder same_head.
Proof. split; [by intros d|]. unfold same_head. intros d1 d2 d3. congruence. Qed.
#[export] Instance advances_preorder : PreOrder advances.
Proof.
  split; [by left|]. unfold advances, same_head.
  intros d1 d2 d3 [E1|(h1 & h2 & H1 & H2 & Hl)] [E2|(h3 & h4 & H3 & H4 & Hl')].
  - left. congruence.
  - right. exists h3, h4. by rewrite <- E1.
  - right. exists h1, h2. by rewrite E2.
  - right. exists h1, h4. rewrite H2 in H3. injection H3 as ->. repeat split; try done. lia.
Qed.
#[export] Instance stays_closed_preorder : PreOrder stays_closed.
Proof.
  split; [by intros d ?|]. unfold stays_closed, same_head, closed. intros d1 d2 d3 H1 H2 Hc.
  pose proof (H1 Hc) as E. rewrite <- E in Hc. by rewrite (H2 Hc).
Qed.

(** Operations that only read. *)
Section ReadOnly.
Context (R : relation Disk) `{!PreOrder R}.
#[export] Instance preserves_read_dir dir : Preserves R (read_dir dir).
Proof. intros d. unfold read_dir. by repeat case_bool_decide. Qed.
#[export] Instance preserves_find_record lease names :
  Preserves R (findQualityMutationRecord lease names).
Proof. induction names; cbn [findQualityMutationRecord]; preserving. Qed.
#[export] Instance preserves_record_for lease : Preserves R (qualityMutationRecordForLease lease).
Proof. unfold qualityMutationRecordForLease. preserving. Qed.
#[export] Instance preserves_load_intent : Preserves R loadQualityMutationIntent.
Proof. unfold loadQualityMutationIntent. preserving. Qed.
#[export] Instance preserves_settled i : Preserves R (qualityMutationSettled i).
Proof. unfold qualityMutationSettled. preserving. Qed.
#[export] Instance preserves_admissible task : Preserves R (loadAdmissibleHead task).
Proof. unfold loadAdmissibleHead. preserving. Qed.
#[export] Instance preserves_admit authority workspace snapshot :
  Preserves R (admitMutation authority workspace snapshot).
Proof. unfold admitMutation, loadLiveAttemptAndLease. preserving. Qed.
#[export] Instance preserves_validate_staged authority i workspace snapshot :
  Preserves R (validateStagedQualityMutation authority i workspace snapshot).
Proof. unfold validateStagedQualityMutation. preserving. Qed.
End ReadOnly.

(** Relations that only watch the head. *)
Class WatchesHead (R : relation Disk) := watches d d' : same_head d d' → R d d'.
#[export] Instance same_head_watches : WatchesHead same_head.
Proof. by intros d d'. Qed.
#[export] Instance advances_watches : WatchesHead advances.
Proof. by left. Qed.
#[export] Instance stays_closed_watches : WatchesHead stays_closed.
Proof. by intros d d' E _. Qed.

Lemma put_same_head p doc d : p ≠ headPath → same_head d (put_file p doc d).
Proof. intros Hp. unfold same_head. by rewrite files_put, lookup_insert_ne. Qed.

Section Watches.
Context (R : relation Disk) `{!PreOrder R, !WatchesHead R}.
Lemma preserves_put {A} `{Document A} p (x : A) :
  p ≠ headPath → Preserves R (writeJSONAtomic p x).
Proof.
  intros Hp d. apply watches.
  destruct (writeJSONAtomic_run p x d) as [[e ->]| ->]; [done|]. by apply put_same_head.
Qed.
#[export] Instance preserves_now : Preserves R Now.
Proof. intros d. by apply watches. Qed.
#[export] Instance preserves_uuid : Preserves R NewUUID.
Proof. intros d. apply watches. unfold NewUUID. by destruct (random d (draws d)). Qed.
#[export] Instance preserves_mutation id x : Preserves R (writeJSONAtomic (A:=MutationRecord) (mutationPath id) x).
Proof. by apply preserves_put. Qed.
#[export] Instance preserves_lease x : Preserves R (writeLease x).
Proof. by apply preserves_put. Qed.
#[export] Instance preserves_failure id x : Preserves R (writeJSONAtomic (A:=FailureRecord) (failurePath id) x).
Proof. by apply preserves_put. Qed.
#[export] Instance preserves_transition x : Preserves R (writeTransitionState x).
Proof. by apply preserves_put. Qed.
#[export] Instance preserves_write_intent x : Preserves R (writeQualityMutationIntent x).
Proof. by apply preserves_put. Qed.
#[export] Instance preserves_remove_intent : Preserves R (remove_file qualityMutationIntentPath).
Proof.
  intros d. apply watches. unfold remove_file.
  destruct (_ || _); [done|]. case_bool_decide; [done|]. unfold same_head. by apply lookup_delete_ne.
Qed.
#[export] Instance preserves_remove : Preserves R removeQualityMutationIntent.
Proof. unfold removeQualityMutationIntent. preserving. Qed.
End Watches.

(** *** Only an admitted caller moves the head *)
Lemma cas_Err expected next d e d' : writeHeadCAS expected next d = (Err e, d') → d' = d.
Proof.
  unfold ControllerStore.writeHeadCAS.
  pose proof (preserves (m:=LoadHead) (R:=eq) d) as HL. unfold mbind, io_bind.
  destruct (LoadHead d) as [[h|?] d1]; simpl in HL; subst d1; [|by intros [= _ <-]].
  do 2 (destruct (_ : bool); [by intros [= _ <-]|]).
  destruct (writeJSONAtomic_run headPath next d) as [[e' ->]| ->]; by intros [= _ <-].
Qed.
Lemma cas_advances expected next : Preserves advances (writeHeadCAS expected next).
Proof.
  intros d. destruct (writeHeadCAS expected next d) as [[u|e] d'] eqn:E; simpl.
  - apply writeHeadCAS_Ok in E as (h & HL & _ & _ & Hlt & _ & _ & _ & ->).
    apply LoadHead_Ok in HL as (_ & Hf & _). right. exists h, next.
    by rewrite files_put, lookup_insert_eq.
  - left. by rewrite (cas_Err _ _ _ _ _ E).
Qed.
#[export] Existing Instance cas_advances.

#[export] Instance record_advances a command outcome after :
  Preserves advances (recordMutationLocked a command outcome after).
Proof. unfold recordMutationLocked, AdmitMutation. preserving. Qed.
#[export] Instance fail_closed_advances reason tid ws expected actual observed :
  Preserves advances (failClosedLocked reason tid ws expected actual observed).
Proof. unfold failClosedLocked. preserving. Qed.
#[export] Instance complete_advances i output :
  Preserves advances (completeStagedQualityMutationLocked i output).
Proof.
  unfold completeStagedQualityMutationLocked, completeExistingQualityMutationRecord, AdmitMutation.
  preserving.
Qed.
#[export] Instance unattributed_advances authority ws snapshot e e' :
  Preserves advances (failClosedForUnattributedMutation authority ws snapshot e e').
Proof. unfold failClosedForUnattributedMutation. preserving. Qed.

(** *** What admission establishes *)
Definition admitted (d : Disk) (authority : MutationAuthority) (ws : WorkspaceIdentity)
    (snapshot : WorkspaceSnapshot) (a : Admission) : Prop :=
  let h := ad_Head a in let task := ma_SemanticTaskRef authority in
  LoadHead d = (Ok h, d) ∧ hd_Status h = ControllerStatusActive ∧ hd_PendingTransitionID h = "" ∧
  hd_LiveAttemptID h ≠ "" ∧ hd_LiveLeaseID h ≠ "" ∧ hd_ExecutionTaskRef h = Some task ∧
  hd_RootTaskRef h ≠ None ∧ hd_ProjectSnapshotID h ≠ "" ∧
  (∃ request, executionTaskAuthority h task d = (Ok request, d)) ∧
  validateMutationAuthorityClaim h authority = Ok () ∧
  loadAttempt (hd_LiveAttemptID h) d = (Ok (ad_Attempt a), d) ∧
  loadLease (hd_LiveLeaseID h) d = (Ok (ad_Lease a), d) ∧
  validateLiveAuthority h task ws snapshot (ad_Attempt a) (ad_Lease a) = Ok () ∧
  ad_Workspace a = ws ∧ ad_Snapshot a = snapshot.

Lemma admitMutation_Ok authority ws snapshot a d d' :
  admitMutation authority ws snapshot d = (Ok a, d') ↔
  admitted d authority ws snapshot a ∧ d' = d.
Proof.
  unfold admitted. cbv zeta. split.
  - intros E. pose proof (preserves_eq _ _ _ _ _ E) as ->.
    unfold admitMutation, loadAdmissibleHead, loadLiveAttemptAndLease in E. io_inv E.
    same_disk. bool_simp. simpl.
    destruct (hd_ExecutionTaskRef _) as [t|] eqn:Ht; [|done]. bool_simp.
    lazymatch goal with E : Equal _ _ = true |- _ => apply Equal_true in E as -> end.
    repeat match goal with u : () |- _ => destruct u end.
    split; [|done]. repeat split; eauto.
  - intros [(HL & Hs & Hp & Ha & Hl & Ht & Hr & Hps & [request He] & Hc & HA & HL' & Hv & <- & <-) ->].
    unfold admitMutation, loadAdmissibleHead, loadLiveAttemptAndLease.
    erewrite io_bind_step; cycle 1.
    { io_step HL. do 3 io_pass. rewrite Ht. do 2 io_pass. io_step He. done. }
    cbn beta. rewrite Hc. io_step (eq_refl (x:=(Ok () : result error unit, d))).
    erewrite io_bind_step; [|io_step HA; io_step HL'; done].
    cbn beta iota. rewrite Hv. by destruct a.
Qed.

(** *** A closed controller admits nobody *)
Lemma closed_rejects d authority ws snapshot :
  closed d → ∃ e, admitMutation authority ws snapshot d = (Err e, d).
Proof.
  intros (h & Hf & Hs). destruct (admitMutation authority ws snapshot d) as [[a|e] d'] eqn:E.
  - apply admitMutation_Ok in E as [(HL & Ha & _) ->]. exfalso.
    apply LoadHead_Ok in HL as (_ & Hf' & _). rewrite Hf in Hf'. injection Hf' as ->.
    by rewrite Hs in Ha.
  - pose proof (preserves_eq _ _ _ _ _ E) as ->. eauto.
Qed.

#[export] Instance record_stays_closed a command outcome after :
  Preserves stays_closed (recordMutationLocked a command outcome after).
Proof.
  intros d Hc. destruct (closed_rejects d (admission_authority a) (ad_Workspace a) (ad_Snapshot a) Hc)
    as [e E].
  unfold recordMutationLocked, AdmitMutation. by rewrite (io_bind_fail _ _ _ _ _ E).
Qed.
#[export] Instance complete_stays_closed i output :
  Preserves stays_closed (completeStagedQualityMutationLocked i output).
Proof.
  intros d Hc. set (s := qi_Admission i).
  destruct (closed_rejects d (admission_authority s) (ad_Workspace s) (ad_Snapshot s) Hc) as [e E].
  unfold completeStagedQualityMutationLocked, AdmitMutation. fold s.
  erewrite io_bind_fail; [|unfold io_wrap; by rewrite E]. done.
Qed.
#[export] Instance unattributed_stays_closed authority ws snapshot e e' :
  Preserves stays_closed (failClosedForUnattributedMutation authority ws snapshot e e').
Proof.
  intros d (h & Hf & Hs). unfold failClosedForUnattributedMutation.
  destruct (LoadHead d) as [[h'|?] d1] eqn:HL; pose proof (preserves_eq _ _ _ _ _ HL) as ->;
    apply attempt_Ok in HL as HA; rewrite (io_bind_step _ _ _ _ _ HA); [|done].
  apply LoadHead_Ok in HL as (_ & Hf' & _). rewrite Hf in Hf'. injection Hf' as <-.
  cbv beta iota. rewrite (bool_decide_true (_ ≠ _)) by (by rewrite Hs). done.
Qed.

(** *** Every public operation *)
Section Public.
Context (R : relation Disk) `{!PreOrder R, !WatchesHead R}
  `{!∀ a command outcome after, Preserves R (recordMutationLocked a command outcome after),
    !∀ i output, Preserves R (completeStagedQualityMutationLocked i output),
    !∀ authority ws snapshot e e',
       Preserves R (failClosedForUnattributedMutation authority ws snapshot e e')}.

#[export] Instance settle_preserves authority ws snapshot :
  Preserves R (settleQualityMutationLocked authority ws snapshot).
Proof. unfold settleQualityMutationLocked, currentHeadAuthority, AdmitMutation. preserving. Qed.
#[export] Instance record_preserves a command outcome after :
  Preserves R (RecordAdmittedMutation a command outcome after).
Proof. unfold RecordAdmittedMutation. preserving. Qed.
#[export] Instance stage_preserves a : Preserves R (StageQualityMutation a).
Proof. unfold StageQualityMutation, stageQualityMutationLocked. preserving. Qed.
#[export] Instance preserve_preserves a output provenance :
  Preserves R (PreserveQualityMutationOutput a output provenance).
Proof.
  unfold PreserveQualityMutationOutput. destruct (bool_decide _); [apply _|].
  preserving.
Qed.
#[export] Instance clear_preserves a : Preserves R (ClearQualityMutationIntent a).
Proof. unfold ClearQualityMutationIntent. preserving. Qed.
#[export] Instance settling_preserves authority ws snapshot :
  Preserves R (AdmitMutationSettlingQualityIntent authority ws snapshot).
Proof. unfold AdmitMutationSettlingQualityIntent, AdmitMutation. preserving. Qed.
#[export] Instance fail_closed_preserves authority ws snapshot :
  Preserves R (AdmitMutationOrFailClosed authority ws snapshot).
Proof.
  unfold AdmitMutationOrFailClosed, AdmitMutation. apply preserves_bind; [done|apply _|].
  intros [a|e]; [apply _|]. intros d. case_bool_decide; [done|].
  eapply (preserves (m:=attempt _ ≫= _)). Unshelve. preserving.
Qed.

Lemma control_step_preserves d d' : control_step d d' → R d d'.
Proof. destruct 1; match goal with |- R _ (?m _).2 => exact (preserves (m:=m) d) end. Qed.
End Public.

(** The head never moves back, and a closed controller keeps its head for ever. *)
Lemma control_steps_advance d d' : rtc control_step d d' → advances d d'.
Proof. induction 1; [done|]. etrans; [|done]. apply (control_step_preserves advances); [apply _..|done]. Qed.
Lemma control_steps_stay_closed d d' : rtc control_step d d' → stays_closed d d'.
Proof.
  induction 1; [done|]. etrans; [|done].
  apply (control_step_preserves stays_closed); [apply _..|done].
Qed.

(** *** What recording a mutation does *)
Lemma claim_Ok head authority :
  validateMutationAuthorityClaim head authority = Ok () ↔
  ma_ControllerGeneration authority = hd_ControllerGeneration head ∧
  ma_AttemptID authority ≠ "" ∧ ma_AttemptID authority = hd_LiveAttemptID head ∧
  ma_LeaseID authority ≠ "" ∧ ma_LeaseID authority = hd_LiveLeaseID head ∧
  hd_ExecutionTaskRef head = Some (ma_SemanticTaskRef authority).
Proof.
  unfold validateMutationAuthorityClaim. split.
  - intros E. result_inv E. bool_simp. destruct (hd_ExecutionTaskRef head); [|done].
    bool_simp. lazymatch goal with E : Equal _ _ = true |- _ => apply Equal_true in E as -> end.
    done.
  - intros (H1 & H2 & H3 & H4 & H5 & H6). rewrite H6.
    rewrite !pass_reject; [done|guard_false..].
Qed.

Lemma live_identity_Ok head task attempt lease :
  validateLiveRecordIdentity head task attempt lease = Ok () ↔
  at_AttemptState attempt = AttemptStateLive ∧ at_AttemptID attempt = ls_AttemptID lease ∧
  at_AttemptID attempt = hd_LiveAttemptID head ∧ at_SemanticTaskRef attempt = task ∧
  ls_SemanticTaskRef lease = task ∧ hd_RootTaskRef head = Some (at_RootTaskRef attempt).
Proof.
  unfold validateLiveRecordIdentity. split.
  - intros E. result_inv E. bool_simp. destruct (hd_RootTaskRef head); [|done]. bool_simp.
    repeat match goal with E : Equal _ _ = true |- _ => apply Equal_true in E end. by subst.
  - intros (H1 & H2 & H3 & H4 & H5 & H6). rewrite H6. rewrite !pass_reject; [done|guard_false..].
Qed.

Lemma live_binding_Ok head workspace snapshot lease :
  validateLiveLeaseBinding head workspace snapshot lease = Ok () ↔
  ls_ControllerGeneration lease = hd_ControllerGeneration head ∧
  wi_RepositoryID workspace = hd_RepositoryIdentity head ∧ wi_ID workspace = ls_WorkspaceID lease ∧
  ws_Head snapshot = ls_ExpectedBaseOID lease ∧
  ws_ID snapshot = ls_ExpectedWorkspaceSnapshotID lease.
Proof.
  unfold validateLiveLeaseBinding. split.
  - intros E. result_inv E. by bool_simp.
  - intros (H1 & H2 & H3 & H4 & H5). rewrite !pass_reject; [done|guard_false..].
Qed.

Lemma live_authority_Ok head task workspace snapshot attempt lease :
  validateLiveAuthority head task workspace snapshot attempt lease = Ok () ↔
  validateLiveRecordIdentity head task attempt lease = Ok () ∧
  validateLiveLeaseBinding head workspace snapshot lease = Ok ().
Proof.
  unfold validateLiveAuthority. rewrite result_bind_Ok. split; [by intros ([] & ? & ?)|].
  intros [??]. by exists ().
Qed.

Lemma u64_succ g : (g < u64 (g + 1) → u64 (g + 1) = g + 1)%N.
Proof.
  unfold u64. intros Hg. pose proof (N.mod_le (g + 1) (2 ^ 64)). lia.
Qed.

Definition mutation_record (current a' : Admission) (mutationID command outcome : string)
    (now : Time) : MutationRecord := {|
  mu_SchemaVersion := controllerSchemaVersion;
  mu_MutationID := mutationID;
  mu_AttemptID := at_AttemptID (ad_Attempt current);
  mu_SourceLeaseID := ls_LeaseID (ad_Lease current);
  mu_TargetLeaseID := ls_LeaseID (ad_Lease a');
  mu_SourceGeneration := hd_ControllerGeneration (ad_Head current);
  mu_TargetGeneration := hd_ControllerGeneration (ad_Head a');
  mu_Command := command;
  mu_Outcome := outcome;
  mu_Before := ad_Snapshot current;
  mu_After := ad_Snapshot a';
  mu_Surfaces := changedSurfaces (ad_Snapshot current) (ad_Snapshot a');
  mu_CreatedAt := now |}.

Lemma recordMutationLocked_Ok a command outcome after d a' d' :
  recordMutationLocked a command outcome after d = (Ok a', d') →
  ∃ current mutationID now now',
    admitted d (admission_authority a) (ad_Workspace a) (ad_Snapshot a) current ∧
    let g := (hd_ControllerGeneration (ad_Head current) + 1)%N in
    let leaseID := ls_LeaseID (ad_Lease a') in
    a' = {| ad_Head := (ad_Head current) {{ hd_ControllerGeneration := g; hd_LiveLeaseID := leaseID }};
            ad_Attempt := ad_Attempt current;
            ad_Lease := (ad_Lease current) {{
              ls_LeaseID := leaseID; ls_ControllerGeneration := g;
              ls_ExpectedBaseOID := ws_Head after; ls_ExpectedWorkspaceSnapshotID := ws_ID after;
              ls_InFlightCallID := ""; ls_CreatedAt := now }};
            ad_Workspace := ad_Workspace a; ad_Snapshot := after |} ∧
    head_ok identity (ad_Head a') ∧
    files d' = <[headPath := DocHead (ad_Head a')]>
      (<[leasePath leaseID := DocLease (ad_Lease a')]>
      (<[mutationPath mutationID :=
          DocMutation (mutation_record current a' mutationID command outcome now')]> (files d))) ∧
    same_media d d'.
Proof.
  unfold recordMutationLocked, AdmitMutation. intros E. io_inv E.
  apply admitMutation_Ok in Ha as [Hadm ->].
  apply NewUUID_Ok in Ha0 as [F0 M0], Ha1 as [F1 M1]. apply Now_Ok in Ha2 as [F2 M2], Ha3 as [F3 M3].
  unfold writeLease in Ha5. apply writeJSONAtomic_Ok in Ha4 as (_ & _ & _ & ->), Ha5 as (_ & _ & _ & ->).
  apply writeHeadCAS_Ok in Ha6 as (cur & _ & Hg & Hok & Hlt & _ & _ & _ & ->).
  rewrite Hg in Hlt. apply u64_succ in Hlt as Hu. rewrite Hu in *.
  exists a0, a1, a3, a4. split; [done|]. cbv zeta.
  assert (ad_Workspace a0 = ad_Workspace a) as Hw by apply Hadm.
  split; [by rewrite <- Hw|]. split; [exact Hok|]. split.
  - rewrite !files_put, F3, F2, F1, F0. done.
  - unfold same_media in *. rewrite !(proj1 (put_file_static _ _ _)),
      !(proj1 (proj2 (put_file_static _ _ _))), !(proj2 (proj2 (put_file_static _ _ _))).
    intuition congruence.
Qed.

Lemma recordMutationLocked_generation a command outcome after d r d' :
  recordMutationLocked a command outcome after d = (Ok r, d') →
  (∃ h, files d !! headPath = Some (DocHead h) ∧
        hd_ControllerGeneration h = hd_ControllerGeneration (ad_Head a)) ∧
  files d' !! headPath = Some (DocHead (ad_Head r)) ∧
  hd_ControllerGeneration (ad_Head r) = (hd_ControllerGeneration (ad_Head a) + 1)%N.
Proof.
  intros (cur & id & now & now' & Hadm & Ha & _ & Hf & _)%recordMutationLocked_Ok.
  destruct Hadm as (HL & _ & _ & _ & _ & _ & _ & _ & _ & Hc & _).
  apply claim_Ok in Hc as [Hc _]. apply LoadHead_Ok in HL as (_ & Hh & _). simpl in Hc.
  split; [by eexists|]. rewrite Hf, lookup_insert_eq. split; [done|]. rewrite Ha, Hc. done.
Qed.

(** The admission a recorded mutation hands out is admitted again. *)
Lemma recorded_admitted a after d a' d' cur id now command outcome now' :
  unreadable d = ∅ →
  admitted d (admission_authority a) (ad_Workspace a) (ad_Snapshot a) cur →
  let g := (hd_ControllerGeneration (ad_Head cur) + 1)%N in
  let leaseID := ls_LeaseID (ad_Lease a') in
  a' = {| ad_Head := (ad_Head cur) {{ hd_ControllerGeneration := g; hd_LiveLeaseID := leaseID }};
          ad_Attempt := ad_Attempt cur;
          ad_Lease := (ad_Lease cur) {{
            ls_LeaseID := leaseID; ls_ControllerGeneration := g;
            ls_ExpectedBaseOID := ws_Head after; ls_ExpectedWorkspaceSnapshotID := ws_ID after;
            ls_InFlightCallID := ""; ls_CreatedAt := now }};
          ad_Workspace := ad_Workspace a; ad_Snapshot := after |} →
  head_ok identity (ad_Head a') →
  files d' = <[headPath := DocHead (ad_Head a')]>
    (<[leasePath leaseID := DocLease (ad_Lease a')]>
    (<[mutationPath id :=
        DocMutation (mutation_record cur a' id command outcome now')]> (files d))) →
  same_media d d' →
  leaseID ≠ "" → admitted d' (admission_authority a') (ad_Workspace a) after a'.
Proof.
  cbv zeta. intros Hu Hadm Ha Hok Hf HM Hl.
  destruct Hadm as (HL & Hs & Hp & Hat & _ & Ht & Hr & Hps & [req He] & Hc & HA & HLs & Hv & Hw & _).
  destruct HM as (HU & _ & _).
  apply loadAttempt_Ok in HA as (_ & HA & HA1 & HA2 & _).
  apply live_authority_Ok in Hv as [Hi Hb].
  apply live_identity_Ok in Hi as (I1 & I2 & I3 & I4 & I5 & I6).
  apply live_binding_Ok in Hb as (B1 & B2 & B3 & B4 & B5).
  assert (headPath ∉ unreadable d') as Hhr by (rewrite HU, Hu; set_solver).
  set (h' := (ad_Head cur) {{ hd_ControllerGeneration := _; hd_LiveLeaseID := _ }}) in Ha.
  set (l' := (ad_Lease cur) {{ ls_LeaseID := _; ls_ControllerGeneration := _;
    ls_ExpectedBaseOID := _; ls_ExpectedWorkspaceSnapshotID := _; ls_InFlightCallID := _;
    ls_CreatedAt := _ }}) in Ha.
  assert (ad_Head a' = h' ∧ ad_Lease a' = l' ∧ ad_Attempt a' = ad_Attempt cur ∧
          ad_Workspace a' = ad_Workspace a ∧ ad_Snapshot a' = after) as (Eh & El & Ea & Ew & Es)
    by (by rewrite Ha).
  assert (ls_LeaseID (ad_Lease a') = hd_LiveLeaseID (ad_Head a')) as ELl by (by rewrite Eh).
  unfold admitted, admission_authority. cbn [ma_SemanticTaskRef].
  assert (ls_SemanticTaskRef (ad_Lease a') = ma_SemanticTaskRef (admission_authority a)) as Et
    by (rewrite El; exact I5).
  rewrite Et, Ea, Ew, Es, ELl. cbv zeta.
  split; [apply LoadHead_Ok; split; [done|]; rewrite Hf, lookup_insert_eq;
          split; [done|]; split; [done|]; split; [|done]; left; rewrite Eh; exact Hs|].
  rewrite Eh.
  split; [exact Hs|]. split; [exact Hp|]. split; [exact Hat|].
  split; [by rewrite <- Eh, <- ELl|].
  split; [exact Ht|]. split; [exact Hr|]. split; [exact Hps|].
  split.
  { exists req. pose proof (executionTaskAuthority_local identity (ad_Head cur) h'
      (ma_SemanticTaskRef (admission_authority a)) d d') as HX.
    destruct (executionTaskAuthority h' _ d') as [r d2] eqn:E2.
    pose proof (preserves_eq _ _ _ _ _ E2) as ->. rewrite He in HX. simpl in HX.
    rewrite HX; [done..| |done]. rewrite Hf. by rewrite !lookup_insert_ne. }
  apply claim_Ok in Hc as (_ & C1 & C2 & _ & _ & _).
  apply loadLease_Ok in HLs as (_ & _ & HL1 & _ & _).
  split.
  { apply claim_Ok. cbn [ma_ControllerGeneration ma_AttemptID ma_LeaseID ma_SemanticTaskRef].
    rewrite I3. split; [done|]. split; [exact Hat|]. split; [done|].
    split; [by rewrite <- Eh, <- ELl|]. split; [done|exact Ht]. }
  split.
  { apply loadAttempt_Ok. rewrite HU, Hu, Hf. split; [set_solver|].
    by rewrite !lookup_insert_ne. }
  split.
  { apply loadLease_Ok. rewrite <- Eh, <- ELl, El, HU, Hu, Hf.
    split; [set_solver|]. rewrite lookup_insert_ne, <- El, lookup_insert_eq by done.
    split; [by rewrite El|]. split; [by rewrite El|done]. }
  split; [|done]. apply live_authority_Ok. rewrite El. split.
  - by apply live_identity_Ok.
  - by apply live_binding_Ok.
Qed.

(** Recording a mutation hands the authority on: the new admission is the
    controller's next generation, it is admitted in the state the recording
    left, and the mutation is on disk with its source and target. *)
Theorem RecordAdmittedMutation_handover a command outcome after d a' d' :
  unreadable d = ∅ →
  RecordAdmittedMutation a command outcome after d = (Ok a', d') →
  hd_ControllerGeneration (ad_Head a') = (hd_ControllerGeneration (ad_Head a) + 1)%N ∧
  ad_Snapshot a' = after ∧
  (ls_LeaseID (ad_Lease a') ≠ "" →
   AdmitMutation (admission_authority a') (ad_Workspace a) after d' = (Ok a', d')) ∧
  ∃ current mutationID now,
    AdmitMutation (admission_authority a) (ad_Workspace a) (ad_Snapshot a) d = (Ok current, d) ∧
    files d' !! mutationPath mutationID =
      Some (DocMutation (mutation_record current a' mutationID command outcome now)).
Proof.
  intros Hu. unfold RecordAdmittedMutation, under_lock. case_bool_decide; [done|]. intros E.
  destruct (recordMutationLocked_generation _ _ _ _ _ _ _ E) as (_ & _ & Hg).
  apply recordMutationLocked_Ok in E as (cur & id & now & now' & Hadm & Ha & Hok & Hf & HM).
  split; [done|]. split; [by rewrite Ha|]. split; cycle 1.
  { exists cur, id, now'. split; [by apply admitMutation_Ok|].
    by rewrite Hf, !lookup_insert_ne, lookup_insert_eq by done. }
  intros Hl. apply admitMutation_Ok. split; [|done]. by eapply recorded_admitted.
Qed.

(** *** Failing closed *)
Lemma no_intent_settles d authority ws snapshot :
  unreadable d = ∅ → files d !! qualityMutationIntentPath = None →
  settleQualityMutationLocked authority ws snapshot d = (Ok None, d).
Proof.
  intros Hu Hf. unfold settleQualityMutationLocked.
  assert (loadQualityMutationIntent d = (Ok None, d)) as E; [|by rewrite (io_bind_step _ _ _ _ _ E)].
  assert (readJSON (A:=QualityMutationIntent) qualityMutationIntentPath d =
          (Err (ErrNotExist qualityMutationIntentPath), d)) as E
    by (unfold readJSON; by rewrite Hf, Hu).
  apply attempt_Ok in E. unfold loadQualityMutationIntent. by rewrite (io_bind_step _ _ _ _ _ E).
Qed.

Lemma NewUUID_total d value : random d (draws d) = Some value → ∃ id d', NewUUID d = (Ok id, d').
Proof. intros Hr. unfold NewUUID. rewrite Hr. by do 2 eexists. Qed.

Lemma failClosedLocked_closes reason ws expected actual observed d h value :
  LoadHead d = (Ok h, d) → unwritable d = ∅ → power d = None → [] ∈ dirs d → ["failures"] ∈ dirs d →
  random d (draws d) = Some value → (hd_ControllerGeneration h + 1 < 2 ^ 64)%N →
  ∃ failure d', failClosedLocked reason "" ws expected actual observed d = (Ok failure, d') ∧ closed d'.
Proof.
  intros HL Hw Hp Hd Hd' Hr Hg. pose proof HL as (Hu & Hf & Hok & Hs & _)%LoadHead_Ok.
  destruct (NewUUID_total d value Hr) as (id & d1 & E1).
  pose proof (NewUUID_Ok _ _ _ E1) as (F1 & U1 & W1 & D1).
  destruct (Now d1) as [[now|] d2] eqn:E2; [|done].
  pose proof (Now_Ok _ _ _ E2) as (F2 & U2 & W2 & D2).
  rewrite <- (stays_up_NewUUID _ _ _ E1), <- (stays_up_Now _ _ _ E2) in Hp.
  unfold failClosedLocked. rewrite (io_bind_step _ _ _ _ _ HL), (io_bind_step _ _ _ _ _ E1),
    (io_bind_step _ _ _ _ _ E2).
  set (failure := {| fa_SchemaVersion := _ |}). cbv zeta.
  erewrite (io_bind_step _ _ _ ()); cycle 1.
  { apply writeJSONAtomic_Ok. rewrite W2, W1, Hw, D2, D1. split; [set_solver|].
    split; [by apply up_running|]. by split. }
  set (next := h {{ hd_ControllerGeneration := _; hd_Status := _; hd_FailureID := _; hd_LiveLeaseID := _ }}).
  erewrite (io_bind_step _ _ _ ()); cycle 1.
  { apply writeHeadCAS_Ok. exists h. rewrite LoadHead_Ok, files_put, lookup_insert_ne by done.
    rewrite !(proj1 (put_file_static _ _ _)), !(proj1 (proj2 (put_file_static _ _ _))),
      !(proj2 (proj2 (put_file_static _ _ _))).
    rewrite F2, F1, U2, U1, W2, W1, D2, D1, Hw.
    repeat split; try done; try apply Hok; try apply not_elem_of_empty;
      try (by apply up_running, stays_up_put).
    change (hd_ControllerGeneration next) with (u64 (hd_ControllerGeneration h + 1)).
    unfold u64. rewrite N.mod_small by done. lia. }
  simpl. eexists _, _. split; [done|]. exists next. by rewrite files_put, lookup_insert_eq.
Qed.

(** A snapshot that is not the one the live lease expects is not admitted. *)
Lemma other_snapshot_rejected d h lease authority ws snapshot :
  LoadHead d = (Ok h, d) → loadLease (hd_LiveLeaseID h) d = (Ok lease, d) →
  (ws_Head snapshot ≠ ls_ExpectedBaseOID lease ∨ ws_ID snapshot ≠ ls_ExpectedWorkspaceSnapshotID lease) →
  ∃ e, AdmitMutation authority ws snapshot d = (Err e, d).
Proof.
  intros HL Hl Hs. unfold AdmitMutation.
  destruct (admitMutation authority ws snapshot d) as [[a|e] d'] eqn:E;
    pose proof (preserves_eq _ _ _ _ _ E) as ->; [|by eexists].
  exfalso. apply admitMutation_Ok in E as [(HL' & _ & _ & _ & _ & _ & _ & _ & _ & _ & _ & Hl' & Hv & _) _].
  rewrite HL in HL'. injection HL' as EH. rewrite <- EH, Hl in Hl'. injection Hl' as El.
  apply live_authority_Ok in Hv as [_ (_ & _ & _ & ? & ?)%live_binding_Ok].
  rewrite <- El in *. by destruct Hs.
Qed.

Lemma unattributed_closes authority ws snapshot d h lease value e :
  LoadHead d = (Ok h, d) → hd_Status h = ControllerStatusActive →
  validateMutationAuthorityClaim h authority = Ok () →
  loadLease (hd_LiveLeaseID h) d = (Ok lease, d) → ls_WorkspaceID lease = wi_ID ws →
  (ws_Head snapshot ≠ ls_ExpectedBaseOID lease ∨ ws_ID snapshot ≠ ls_ExpectedWorkspaceSnapshotID lease) →
  unwritable d = ∅ → power d = None → [] ∈ dirs d → ["failures"] ∈ dirs d →
  random d (draws d) = Some value → (hd_ControllerGeneration h + 1 < 2 ^ 64)%N →
  ∃ e' d', failClosedForUnattributedMutation authority ws snapshot e None d = (Err e', d') ∧ closed d'.
Proof.
  intros HL Hs Hc Hl Hws Hsn Hw Hp Hd Hd' Hr Hg. unfold failClosedForUnattributedMutation.
  pose proof (proj1 (claim_Ok _ _) Hc) as (_ & _ & _ & Hne & He & _).
  rewrite (io_bind_step _ _ _ _ _ (proj2 (attempt_Ok _ _ _ _) HL)). cbv beta iota.
  rewrite pass_guard by (guard_false; congruence).
  rewrite pass_guard by (by rewrite Hc).
  rewrite (io_bind_step _ _ _ _ _ (proj2 (attempt_Ok _ _ _ _) Hl)). cbv beta iota zeta.
  rewrite pass_guard by guard_false. rewrite pass_guard.
  2:{ apply andb_false_iff. destruct Hsn; [left|right]; by apply bool_decide_eq_false. }
  lazymatch goal with |- context [failClosedLocked ?r ?t ?w ?x ?y ?o] =>
    destruct (failClosedLocked_closes r w x y o d h value HL Hw Hp Hd Hd' Hr Hg) as (f & d1 & E & Hcl) end.
  rewrite (io_bind_step _ _ _ _ _ (proj2 (attempt_Ok _ _ _ _) E)). cbv beta iota.
  by eexists _, d1.
Qed.

(** *** The last generation *)
Definition last_generation : N := (2 ^ 64 - 1)%N.
Definition spent (d d' : Disk) : Prop :=
  (∃ h, files d !! headPath = Some (DocHead h) ∧ hd_ControllerGeneration h = last_generation) →
  same_head d d'.
#[local] Instance spent_preorder : PreOrder spent.
Proof.
  split; [by intros d ?|]. unfold spent, same_head. intros d1 d2 d3 H1 H2 Hl.
  pose proof (H1 Hl) as E. rewrite <- E in Hl. by rewrite (H2 Hl).
Qed.
#[local] Instance spent_watches : WatchesHead spent.
Proof. by intros d d' E _. Qed.
Lemma cas_last expected next d :
  (hd_ControllerGeneration next < 2 ^ 64)%N →
  (∃ h, files d !! headPath = Some (DocHead h) ∧ hd_ControllerGeneration h = last_generation) →
  is_ok (writeHeadCAS expected next d).1 = false.
Proof.
  intros Hb (h & Hf & Hl). destruct (writeHeadCAS expected next d) as [[u|e] d'] eqn:E; [exfalso|done].
  apply writeHeadCAS_Ok in E as (h' & HL & _ & _ & Hlt & _).
  apply LoadHead_Ok in HL as (_ & Hf' & _). rewrite Hf in Hf'. injection Hf' as <-.
  rewrite Hl in Hlt. unfold last_generation in Hlt. lia.
Qed.
Lemma cas_spent expected next :
  (hd_ControllerGeneration next < 2 ^ 64)%N → Preserves spent (writeHeadCAS expected next).
Proof.
  intros Hb d Hl. pose proof (cas_last expected next d Hb Hl) as He.
  destruct (writeHeadCAS expected next d) as [[u|e] d'] eqn:E; [done|].
  by rewrite (cas_Err _ _ _ _ _ E).
Qed.
Lemma u64_lt n : (u64 n < 2 ^ 64)%N.
Proof. by apply N.mod_lt. Qed.

(** C31: the last generation is final.  At generation [2 ^ 64 - 1] the next one wraps
    to zero, and no head is written any more: recording a mutation and failing
    closed both return an error and leave the head as it is. *)
Theorem last_generation_final a command outcome after reason transitionID ws expected actual observed d h :
  LoadHead d = (Ok h, d) → hd_ControllerGeneration h = last_generation →
  (let run := RecordAdmittedMutation a command outcome after d in
   is_ok run.1 = false ∧ same_head d run.2) ∧
  (let run := failClosedLocked reason transitionID ws expected actual observed d in
   is_ok run.1 = false ∧ same_head d run.2).
Proof.
  intros HL Hg. apply LoadHead_Ok in HL as (_ & Hf & _).
  assert (∃ h, files d !! headPath = Some (DocHead h) ∧ hd_ControllerGeneration h = last_generation)
    as Hl by by exists h.
  split.
  - assert (Preserves spent (RecordAdmittedMutation a command outcome after)) as Hp.
    { unfold RecordAdmittedMutation, recordMutationLocked, AdmitMutation.
      preserving; apply cas_spent, u64_lt. }
    split; [|by apply Hp]. destruct (RecordAdmittedMutation _ _ _ _ d) as [[r|e] d'] eqn:E; [exfalso|done].
    specialize (Hp d Hl). rewrite E in Hp. unfold same_head in Hp. simpl in Hp.
    unfold RecordAdmittedMutation, under_lock in E. case_bool_decide; [done|].
    apply recordMutationLocked_generation in E as ((h0 & Hf0 & Hg0) & Hf1 & Hg1).
    rewrite Hp, Hf in Hf1. rewrite Hf in Hf0. injection Hf0 as <-. injection Hf1 as Hr.
    rewrite <- Hr in Hg1. lia.
  - assert (Preserves spent (failClosedLocked reason transitionID ws expected actual observed)) as Hp.
    { unfold failClosedLocked. preserving; apply cas_spent, u64_lt. }
    split; [|by apply Hp].
    destruct (failClosedLocked _ _ _ _ _ _ d) as [[r|e] d'] eqn:E; [exfalso|done].
    unfold failClosedLocked in E. io_inv E.
    lazymatch goal with E : LoadHead d = _ |- _ => apply LoadHead_Ok in E as (_ & Hf' & _) end.
    rewrite Hf in Hf'. injection Hf' as <-.
    lazymatch goal with E : writeHeadCAS _ _ _ = _ |- _ =>
      apply writeHeadCAS_Ok in E as (cur & _ & Hc & _ & Hlt & _) end.
    rewrite Hc, Hg in Hlt. apply N.nlt_0_r in Hlt. done.
Qed.
End Mutation.

(** ** A concrete controller *)
Definition demo_host : Host := {| sha256_hex s := "#" +:+ s; RequireRequestRepository _ := Ok () |}.
Definition demo_identity : RepositoryIdentity :=
  {| ri_LineageID := "repo"; ri_CommonDir := "/r/.git"; ri_PrimaryRoot := "/r" |}.
Definition demo_task : SemanticTaskRef :=
  {| ref_TaskPath := "tasks/a.md"; ref_RequestID := ""; ref_ContractDigest := "c1" |}.
Definition demo_workspace : WorkspaceIdentity :=
  {| wi_ID := "w"; wi_RepositoryID := "repo"; wi_Root := "/r"; wi_GitDir := "/r/.git" |}.
Definition demo_tree (id : string) : WorkspaceSnapshot :=
  {| ws_ID := id; ws_Head := "h"; ws_IndexDigest := "i"; ws_WorktreeDigest := id; ws_RefDigest := "r" |}.
Definition demo_snapshot : ProjectSnapshot :=
  let s := {| ps_UserRequest := None; ps_CompletedRequest := None; ps_SchemaVersion := 1;
    ps_SnapshotID := ""; ps_RepositoryIdentity := "repo"; ps_HeadOID := "h"; ps_PlanDigest := "p";
    ps_TaskCorpusDigest := "t"; ps_SemanticGraphDigest := "g"; ps_ScheduleDigest := "s";
    ps_Active := ["tasks/a.md"]; ps_Next := []; ps_Blocked := []; ps_Tasks := [demo_task] |} in
  s {{ ps_SnapshotID := projectSnapshotID (H:=demo_host) s }}.
Definition demo_head : RepositoryControllerHead := {|
  hd_UserTerminationRef := None; hd_MetadataLineageRef := None; hd_SchemaVersion := 1;
  hd_RepositoryIdentity := "repo"; hd_ControllerGeneration := 1; hd_Status := ControllerStatusActive;
  hd_ProjectSnapshotID := ps_SnapshotID demo_snapshot; hd_AcceptedCandidateRef := None;
  hd_ObservedPrefix := ""; hd_ObservedRemoteTip := ""; hd_PublicationPolicy := None;
  hd_IntegrationTip := "h"; hd_RootTaskRef := Some demo_task; hd_ExecutionTaskRef := Some demo_task;
  hd_ActiveEpisodeID := ""; hd_ActiveEpisodeRevision := 0; hd_LiveAttemptID := "att";
  hd_LiveLeaseID := "lease"; hd_PendingTransitionID := ""; hd_EvidenceHeadRef := None;
  hd_EvidenceLedgerHeadRef := None; hd_EvidenceLedgerSequence := 0; hd_FailureID := "" |}.
Definition demo_attempt : AttemptRecord := {|
  at_SchemaVersion := 1; at_AttemptID := "att"; at_SemanticTaskRef := demo_task;
  at_RootTaskRef := demo_task; at_EpisodeID := ""; at_EpisodeRevision := 0;
  at_PredecessorAttemptID := ""; at_ResumedFromSealID := ""; at_ExecutionBaseOID := "h";
  at_BaselineSnapshotID := "s1";
  at_BaselineArchive := {| eo_Digest := ""; eo_Kind := ""; eo_MediaType := ""; eo_Length := 0;
                           eo_LogicalIdentity := ""; eo_Required := false |};
  at_BaselineTrees := {| xt_IndexTree := ""; xt_WorktreeTree := ""; xt_ParentAuthorityDigest := "" |};
  at_WorkspaceSnapshotID := "s1"; at_ExecutionAuthority := ""; at_StartControllerGeneration := 1;
  at_PublicationAnchorAtStart := ""; at_AttemptState := AttemptStateLive; at_AttemptSealID := "";
  at_CreatedAt := 0 |}.
Definition demo_lease : ExecutionLease := {|
  ls_SchemaVersion := 1; ls_LeaseID := "lease"; ls_AttemptID := "att"; ls_SemanticTaskRef := demo_task;
  ls_Purpose := "root-execution"; ls_ControllerGeneration := 1; ls_EpisodeID := "";
  ls_EpisodeRevision := 0; ls_WorkspaceID := "w"; ls_ExpectedBaseOID := "h";
  ls_ExpectedWorkspaceSnapshotID := "s1"; ls_InFlightCallID := ""; ls_CreatedAt := 0 |}.
Definition demo_disk : Disk := {|
  files := {[ headPath := DocHead demo_head; attemptPath "att" := DocAttempt demo_attempt;
              leasePath "lease" := DocLease demo_lease;
              projectSnapshotPath (ps_SnapshotID demo_snapshot) := DocSnapshot demo_snapshot ]};
  dirs := {[ []; ["attempts"]; ["leases"]; ["transitions"]; ["transition-state"]; ["mutations"];
             ["failures"] ]};
  unreadable := ∅; unwritable := ∅; power := None; clock := Z.of_nat; ticks := 0;
  random n := Some (λ i, Ascii.ascii_of_nat (16 * n + i)); draws := 0 |}.
Definition demo_admission : Admission := {|
  ad_Head := demo_head; ad_Attempt := demo_attempt; ad_Lease := demo_lease;
  ad_Workspace := demo_workspace; ad_Snapshot := demo_tree "s1" |}.
Definition demo_record : result error Admission * Disk :=
  RecordAdmittedMutation (H:=demo_host) demo_identity demo_admission "edit" "ok" (demo_tree "s2") demo_disk.

Lemma RecordAdmittedMutation_handover_witness :
  match demo_record with
  | (Ok a', d') =>
      hd_ControllerGeneration (ad_Head a') = 2%N ∧
      AdmitMutation (H:=demo_host) demo_identity (admission_authority a') demo_workspace
        (demo_tree "s2") d' = (Ok a', d')
  | _ => False
  end.
Proof.
  assert (match demo_record with (Ok a', _) => negb (bool_decide (ls_LeaseID (ad_Lease a') = ""))
          | _ => false end = true) as Hok by (vm_compute; reflexivity).
  destruct demo_record as [[a'|e] d'] eqn:E; [|discriminate Hok].
  destruct (RecordAdmittedMutation_handover (H:=demo_host) demo_identity demo_admission "edit" "ok"
    (demo_tree "s2") demo_disk a' d' eq_refl E) as (Hg & _ & Ha & _).
  split; [exact Hg|]. apply Ha. apply negb_true_iff, bool_decide_eq_false in Hok. exact Hok.
Defined.

Lemma last_generation_final_witness :
  let d := demo_disk {{ files := <[headPath := DocHead (demo_head {{
             hd_ControllerGeneration := last_generation }})]> (files demo_disk) }} in
  is_ok (RecordAdmittedMutation (H:=demo_host) demo_identity demo_admission "edit" "ok"
           (demo_tree "s2") d).1 = false.
Proof.
  intros d. refine (proj1 (proj1 (last_generation_final (H:=demo_host) demo_identity demo_admission "edit" "ok"
    (demo_tree "s2") "" "" demo_workspace (demo_tree "s1") (demo_tree "s2") ∅ d
    (demo_head {{ hd_ControllerGeneration := last_generation }}) _ eq_refl))).
  apply LoadHead_Ok. split; [by apply not_elem_of_empty|]. split; [vm_compute; reflexivity|].
  by repeat split; left.
Defined.

Lemma demo_loads :
  LoadHead demo_identity demo_disk = (Ok demo_head, demo_disk) ∧
  loadLease (hd_LiveLeaseID demo_head) demo_disk = (Ok demo_lease, demo_disk) ∧
  validateMutationAuthorityClaim demo_head (admission_authority demo_admission) = Ok ().
Proof.
  split; [|split; [|vm_compute; reflexivity]].
  - apply LoadHead_Ok. split; [by apply not_elem_of_empty|]. split; [vm_compute; reflexivity|].
    by repeat split; left.
  - apply loadLease_Ok. split; [by apply not_elem_of_empty|]. by split; [vm_compute; reflexivity|].
Qed.
Lemma demo_dirs :
  [] ∈ dirs demo_disk ∧ ["failures"] ∈ dirs demo_disk ∧
  files demo_disk !! qualityMutationIntentPath = None.
Proof. unfold demo_disk; simpl. split; [set_solver|]. split; [set_solver|vm_compute; reflexivity]. Qed.

