(* ===== verification/CrashLogic.v ===== *)
(** * Reasoning about interrupted operations

    Triples over operations on the disk.  [crashes good I P m Q]: from a disk
    in [P], a run of [m] either succeeds in [Q], or it fails, leaves the disk
    in [I] and had a reason, the environment: the disk refused an access, the
    machine stopped, or the outside condition [good] does not hold.  The same
    triple therefore gives the safety of every interruption and the success
    of a run in a healthy environment. *)
From S2P Require Import Prelude ControllerTypes ControllerStore MutationControl.

(** A disk that refuses nothing, on a machine that does not stop. *)
Definition healthy (d : Disk) : Prop := unreadable d = ∅ ∧ unwritable d = ∅ ∧ power d = None.
Definition mend (d : Disk) : Disk := d {{ unreadable := ∅; unwritable := ∅; power := None }}.
(** The same documents, in any environment. *)
Definition same_store (d d' : Disk) : Prop := files d' = files d ∧ dirs d' = dirs d.

Lemma mend_healthy d : healthy (mend d).
Proof. done. Qed.
Lemma mend_store d : same_store d (mend d).
Proof. done. Qed.
#[export] Instance same_store_equiv : Equivalence same_store.
Proof.
  split; [by intros d|by intros d d' []|]. intros d1 d2 d3 [E1 E2] [E3 E4].
  by split; etrans.
Qed.

(** A predicate of the documents alone. *)
Class OfStore (P : Disk → Prop) := of_store d d' : same_store d d' → P d → P d'.
#[global] Hint Mode OfStore ! : typeclass_instances.

Section Crash.
Context (good : Prop) (I : Disk → Prop).

Definition crashes {A} (P : Disk → Prop) (m : io A) (Q : A → Disk → Prop) : Prop :=
  ∀ d, P d → (healthy d → healthy (m d).2) ∧
    match (m d).1 with
    | Ok a => Q a (m d).2
    | Err _ => I (m d).2 ∧ ¬ (good ∧ healthy d)
    end.
(** The operation yields a known value and keeps [P]. *)
Definition yields {A} (P : Disk → Prop) (m : io A) (a : A) : Prop :=
  crashes P m (λ a' d, a' = a ∧ P d).

Context {A : Type}.
Implicit Types (P : Disk → Prop) (m : io A) (Q : A → Disk → Prop).

Lemma crashes_bind {B} P Q (R : B → Disk → Prop) m (f : A → io B) :
  crashes P m Q → (∀ a, crashes (Q a) (f a) R) → crashes P (m ≫= f) R.
Proof.
  intros Hm Hf d HP. destruct (Hm d HP) as [Hh Hr]. unfold mbind, io_bind.
  destruct (m d) as [[a|e] d1]; simpl in *; [|done].
  destruct (Hf a d1 Hr) as [Hh' Hr']. split; [tauto|].
  destruct (f a d1) as [[b|e] d2]; simpl in *; [done|]. tauto.
Qed.
Lemma crashes_consequence (P P' : Disk → Prop) Q (Q' : A → Disk → Prop) m :
  crashes P' m Q' → (∀ d, P d → P' d) → (∀ a d, Q' a d → Q a d) → crashes P m Q.
Proof.
  intros Hm HP HQ d Hd. destruct (Hm d (HP d Hd)) as [Hh Hr]. split; [done|].
  destruct ((m d).1); eauto.
Qed.
Lemma crashes_post P Q (Q' : A → Disk → Prop) m :
  crashes P m Q' → (∀ a d, Q' a d → Q a d) → crashes P m Q.
Proof. intros Hm HQ. by eapply crashes_consequence. Qed.
Lemma crashes_pre P (P' : Disk → Prop) Q m :
  crashes P' m Q → (∀ d, P d → P' d) → crashes P m Q.
Proof. intros Hm HP. by eapply crashes_consequence. Qed.
Lemma crashes_ret P Q (a : A) : (∀ d, P d → Q a d) → crashes P (mret a) Q.
Proof. intros HQ d Hd. by split; [|apply HQ]. Qed.
Lemma crashes_pure (φ : Prop) P Q m : (φ → crashes P m Q) → crashes (λ d, φ ∧ P d) m Q.
Proof. by intros Hm d [Hφ Hd]; apply Hm. Qed.
Lemma crashes_exists {X} (P : X → Disk → Prop) Q m :
  (∀ x, crashes (P x) m Q) → crashes (λ d, ∃ x, P x d) m Q.
Proof. intros Hm d [x Hd]. by apply (Hm x). Qed.
Lemma crashes_wrap f P Q m : crashes P m Q → crashes P (io_wrap f m) Q.
Proof.
  intros Hm d Hd. destruct (Hm d Hd) as [Hh Hr]. unfold io_wrap.
  by destruct (m d) as [[a|e] d1].
Qed.
Lemma crashes_lock P Q m :
  (∀ d, P d → I d) → crashes P m Q → crashes P (under_lock m) Q.
Proof.
  intros HI Hm d Hd. unfold under_lock. case_bool_decide as Hl; [|by apply Hm].
  split; [done|]. split; [by apply HI|]. intros [_ (_ & E & _)]. rewrite E in Hl. set_solver.
Qed.

(** Values *)
Lemma yields_bind {B} P (R : B → Disk → Prop) m (f : A → io B) a :
  yields P m a → crashes P (f a) R → crashes P (m ≫= f) R.
Proof. intros Hm Hf. eapply crashes_bind; [exact Hm|]. intros a' d [-> Hd]. by apply Hf. Qed.
Lemma yields_ret P (a : A) : yields P (mret a) a.
Proof. by apply crashes_ret. Qed.
Lemma yields_wrap f P m a : yields P m a → yields P (io_wrap f m) a.
Proof. apply crashes_wrap. Qed.
Lemma yields_lift P (r : result error A) a : r = Ok a → yields P (lift r) a.
Proof. by intros -> d Hd. Qed.
(** The outside condition fails. *)
Lemma crashes_not_good P Q m :
  ¬ good → (∀ d, P d → (healthy d → healthy (m d).2) ∧ is_ok (m d).1 = false ∧ I (m d).2) →
  crashes P m Q.
Proof.
  intros Hg Hm d Hd. destruct (Hm d Hd) as (Hh & He & HI). split; [done|].
  destruct ((m d).1); [done|]. tauto.
Qed.

(** A read-only operation that succeeds on every healthy disk. *)
Lemma yields_reads P m a :
  Preserves eq m → (∀ d, P d → I d) →
  (∀ d, P d → (∃ e, (m d).1 = Err e ∧ ¬ healthy d) ∨ (m d).1 = Ok a) → yields P m a.
Proof.
  intros Hp HI Hm d Hd. specialize (Hp d). destruct (m d) as [r d'] eqn:E. simpl in *. subst d'.
  split; [done|]. destruct (Hm d Hd) as [(e & He & Hh)|He]; rewrite E in He; simpl in He; subst r.
  - split; [by apply HI|tauto].
  - done.
Qed.
End Crash.

(** On a healthy disk a reading operation yields its value. *)
Lemma yields_run {A} good I P (m : io A) a d :
  yields good I P m a → Preserves eq m → good → P d → healthy d → m d = (Ok a, d).
Proof.
  intros Hm Hp Hg Hd Hh. destruct (Hm d Hd) as [_ Hr]. specialize (Hp d).
  destruct (m d) as [[r|e] d']; simpl in *; subst d'; [by destruct Hr as [-> _]|tauto].
Qed.
Lemma crashes_weaken {A} (good good' : Prop) (I I' P : Disk → Prop) (m : io A) Q :
  (good' → good) → (∀ d, I d → I' d) → crashes good I P m Q → crashes good' I' P m Q.
Proof.
  intros Hg HI Hm d Hd. destruct (Hm d Hd) as [Hh Hr]. split; [done|].
  destruct ((m d).1); [done|]. destruct Hr as [? Hr]. split; [auto|]. tauto.
Qed.

(** ** The operations of the disk *)
Section Disk.
Context (good : Prop) (I : Disk → Prop).

Lemma yields_readJSON {A} `{Document A} P p (a : A) :
  (∀ d, P d → I d) → (∀ d, P d → files d !! p = Some (to_doc a)) → yields good I P (readJSON p) a.
Proof.
  intros HI Hf. apply yields_reads; [apply _|done|]. intros d Hd. unfold readJSON.
  case_bool_decide as Hr; [left; eexists; split; [done|]; intros (E & _); rewrite E in Hr; set_solver|].
  right. by rewrite (Hf d Hd), of_to_doc.
Qed.
Lemma yields_guard {A} P (c : bool) e (k : io A) Q :
  c = false → crashes good I P k Q → crashes good I P (if c then fail e else k) Q.
Proof. by intros ->. Qed.

Lemma crashes_tick P :
  (∀ d, P d → P (d {{ ticks := S (ticks d) }})) → crashes good I P Now (λ _, P).
Proof. intros HP d Hd. split; [done|]. by apply HP. Qed.
Lemma crashes_Now P `{!OfStore P} : crashes good I P Now (λ _, P).
Proof. apply crashes_tick. intros d. by apply (of_store (P:=P)). Qed.
Lemma crashes_NewUUID P (Q : string → Disk → Prop) :
  (∀ d, P d → I (d {{ draws := S (draws d) }})) →
  (∀ d, P d → good → random d (draws d) ≠ None) →
  (∀ d id, P d → NewUUID d = (Ok id, d {{ draws := S (draws d) }}) →
           Q id (d {{ draws := S (draws d) }})) → crashes good I P NewUUID Q.
Proof.
  intros HI Hr HQ d Hd. specialize (Hr d Hd). specialize (HQ d). unfold NewUUID in *.
  destruct (random d (draws d)) as [value|]; simpl.
  - split; [done|]. by apply HQ.
  - split; [done|]. split; [by apply HI|]. by intros [? _]; apply Hr.
Qed.

Lemma crashes_write {A} `{Document A} P Q p (a : A) :
  (∀ d, P d → I d) → (∀ d, P d → good → removelast p ∈ dirs d) →
  (∀ d, P d → removelast p ∈ dirs d → Q (put_file p (to_doc a) d)) →
  crashes good I P (writeJSONAtomic p a) (λ _, Q).
Proof.
  intros HI Hdirs HQ d Hd. unfold writeJSONAtomic.
  destruct (bool_decide (p ∈ unwritable d) || stopped d) eqn:E; simpl.
  - split; [done|]. split; [by apply HI|]. intros [_ (_ & Hw & Hp)].
    rewrite Hw, (up_running _ Hp), bool_decide_false in E by set_solver. done.
  - clear E. case_bool_decide as Hin; simpl.
    + split; [|by apply HQ].
      intros (? & ? & ?). split; [done|]. split; [done|]. by apply stays_up_put.
    + split; [done|]. split; [by apply HI|]. intros [Hg _]. by apply Hin, Hdirs.
Qed.
Lemma crashes_MkdirAll P Q p :
  (∀ d, P d → I d) →
  (∀ d, P d → Q (d {{ dirs := list_to_set (prefixes p) ∪ dirs d; power := spend d }})) →
  crashes good I P (MkdirAll p) (λ _, Q).
Proof.
  intros HI HQ d Hd. unfold MkdirAll.
  destruct (bool_decide (p ∈ unwritable d) || stopped d) eqn:E; simpl.
  - split; [done|]. split; [by apply HI|]. intros [_ (_ & Hw & Hp)].
    rewrite Hw, (up_running _ Hp), bool_decide_false in E by set_solver. done.
  - split; [|by apply HQ]. intros (? & ? & Hp). split; [done|]. split; [done|].
    simpl. unfold spend. by rewrite Hp.
Qed.
End Disk.

(** Run the next step of an operation in the goal with its triple. *)
Ltac yield lem := eapply yields_bind; [lem|].
Ltac guard_pass := apply yields_guard; [guard_false|].

(** ** The records of the store *)
Section Records.
Context `{Host} (identity : RepositoryIdentity) (good : Prop) (I P : Disk → Prop).
Context (HI : ∀ d, P d → I d).

Lemma LoadHead_yields h :
  head_ok identity h → status_ok h → (∀ d, P d → files d !! headPath = Some (DocHead h)) →
  yields good I P (LoadHead identity) h.
Proof.
  intros [H1 H2] Hs Hf. unfold LoadHead.
  yield ltac:(by apply yields_wrap, yields_readJSON).
  guard_pass. apply yields_guard; [|apply yields_ret].
  apply andb_false_iff. rewrite !bool_decide_eq_false. destruct Hs; tauto.
Qed.
Lemma loadAttempt_yields r :
  at_SchemaVersion r = controllerSchemaVersion →
  (∀ d, P d → files d !! attemptPath (at_AttemptID r) = Some (DocAttempt r)) →
  yields good I P (loadAttempt (at_AttemptID r)) r.
Proof.
  intros Hs Hf. unfold loadAttempt. yield ltac:(by apply yields_wrap, yields_readJSON).
  guard_pass. apply yields_ret.
Qed.
Lemma loadLease_yields r :
  ls_SchemaVersion r = controllerSchemaVersion →
  (∀ d, P d → files d !! leasePath (ls_LeaseID r) = Some (DocLease r)) →
  yields good I P (loadLease (ls_LeaseID r)) r.
Proof.
  intros Hs Hf. unfold loadLease. yield ltac:(by apply yields_wrap, yields_readJSON).
  guard_pass. apply yields_ret.
Qed.

(** The authority of a task, once read, reads the same from the same snapshot. *)
Lemma LoadProjectSnapshot_yields sid s d0 d0' :
  LoadProjectSnapshot identity sid d0 = (Ok s, d0') →
  (∀ d, P d → files d !! projectSnapshotPath sid = files d0 !! projectSnapshotPath sid) →
  yields good I P (LoadProjectSnapshot identity sid) s.
Proof.
  intros E Hf. unfold LoadProjectSnapshot in *. io_inv E.
  lazymatch goal with E : readJSON _ _ = _ |- _ => apply readJSON_Ok in E as (_ & Hs & _) end.
  yield ltac:(apply yields_wrap, yields_readJSON; [done|intros d Hd; by rewrite Hf]).
  apply yields_guard; [done|]. yield ltac:(by apply yields_lift). apply yields_ret.
Qed.
Lemma executionTaskAuthority_yields h h' task request d0 d0' :
  executionTaskAuthority identity h task d0 = (Ok request, d0') →
  hd_ProjectSnapshotID h' = hd_ProjectSnapshotID h →
  (∀ d, P d → files d !! projectSnapshotPath (hd_ProjectSnapshotID h) =
              files d0 !! projectSnapshotPath (hd_ProjectSnapshotID h)) →
  yields good I P (executionTaskAuthority identity h' task) request.
Proof.
  intros E Hh Hf. unfold executionTaskAuthority in *. rewrite Hh. io_inv E.
  yield ltac:(by eapply LoadProjectSnapshot_yields).
  destruct (ps_UserRequest _).
  - io_inv H0. yield ltac:(by apply yields_lift). apply yields_ret.
  - io_inv H0. apply yields_ret.
Qed.

(** What was admitted on one disk is admitted wherever the four documents that
    carry the authority are the same. *)
Definition authority_paths (h : RepositoryControllerHead) : list (list string) :=
  [headPath; attemptPath (hd_LiveAttemptID h); leasePath (hd_LiveLeaseID h);
   projectSnapshotPath (hd_ProjectSnapshotID h)].
Lemma AdmitMutation_yields authority workspace snapshot a d0 d0' :
  AdmitMutation identity authority workspace snapshot d0 = (Ok a, d0') →
  (∀ d p, P d → p ∈ authority_paths (ad_Head a) → files d !! p = files d0 !! p) →
  yields good I P (AdmitMutation identity authority workspace snapshot) a.
Proof.
  intros E Hf. unfold AdmitMutation in *.
  apply admitMutation_Ok in E as [(HL & Hs & Hp & Ha & Hl & Ht & Hr & Hps & [request He] & Hc & HA & HL' & Hv & <- & <-) _].
  apply LoadHead_Ok in HL as (_ & Hh & Hok & Hst & _).
  apply loadAttempt_Ok in HA as (_ & HA & As & Ai & _). apply loadLease_Ok in HL' as (_ & HL' & Ls & Li & _).
  unfold admitMutation. yield ltac:(idtac).
  { unfold loadAdmissibleHead. yield ltac:(apply LoadHead_yields; [done..|]).
    { intros d Hd. rewrite Hf; [done..|by left]. }
    guard_pass. guard_pass. apply yields_guard; [rewrite Ht; by rewrite !bool_decide_false by done|].
    apply yields_guard; [rewrite Ht; by apply negb_false_iff, Equal_true|]. guard_pass.
    yield ltac:(eapply executionTaskAuthority_yields; [exact He|done|]).
    { intros d Hd. rewrite Hf; [done..|]. by do 3 right; left. }
    apply yields_ret. }
  yield ltac:(apply yields_lift, Hc). unfold loadLiveAttemptAndLease. yield ltac:(idtac).
  { rewrite <- Ai, <- Li in *.
    yield ltac:(apply loadAttempt_yields; [done|]).
    { intros d Hd. rewrite Hf; [done..|]. rewrite Ai. by right; left. }
    yield ltac:(apply loadLease_yields; [done|]).
    { intros d Hd. rewrite Hf; [done..|]. rewrite Li. by do 2 right; left. }
    apply yields_ret. }
  cbn beta iota. yield ltac:(apply yields_lift, Hv). destruct a. apply yields_ret.
Qed.
End Records.

Lemma AdmitMutation_again `{Host} identity authority workspace snapshot a d0 d0' d :
  AdmitMutation identity authority workspace snapshot d0 = (Ok a, d0') →
  (∀ p, p ∈ authority_paths (ad_Head a) → files d !! p = files d0 !! p) → healthy d →
  AdmitMutation identity authority workspace snapshot d = (Ok a, d).
Proof.
  intros E Hf Hh.
  apply (yields_run True (λ _, True) (λ d', d' = d)); [|unfold AdmitMutation; apply _|done..].
  eapply AdmitMutation_yields; [done|exact E|]. intros ? p -> Hp. by apply Hf.
Qed.

(** ** Errors the code handles

    [attempt m] never fails; when [m] failed, the environment is still to blame
    at the end: no operation heals the disk. *)
Definition no_healing (d d' : Disk) : Prop := healthy d' → healthy d.
#[export] Instance no_healing_preorder : PreOrder no_healing.
Proof. split; [by intros d; unfold no_healing|]. intros d1 d2 d3. unfold no_healing. tauto. Qed.
#[export] Instance no_healing_write {A} `{Document A} p (a : A) : Preserves no_healing (writeJSONAtomic p a).
Proof.
  intros d. destruct (writeJSONAtomic_run p a d) as [[e ->]| ->]; [done|].
  intros (? & ? & Hp). split_and!; [done..|]. simpl in Hp. unfold spend in Hp. by destruct (power d).
Qed.
#[export] Instance no_healing_MkdirAll p : Preserves no_healing (MkdirAll p).
Proof.
  intros d. unfold MkdirAll. destruct (_ || _); [done|].
  intros (? & ? & Hp). split_and!; [done..|]. simpl in Hp. unfold spend in Hp. by destruct (power d).
Qed.
#[export] Instance no_healing_remove p : Preserves no_healing (remove_file p).
Proof.
  intros d. unfold remove_file. destruct (_ || _); [done|]. case_bool_decide; [done|].
  intros (? & ? & Hp). split_and!; [done..|]. simpl in Hp. unfold spend in Hp. by destruct (power d).
Qed.

Section Attempt.
Context (good : Prop).
Definition sick (d : Disk) : Prop := ¬ (good ∧ healthy d).

Lemma crashes_attempt {A} (I I' P : Disk → Prop) (m : io A) Q :
  Preserves no_healing m → crashes good I P m Q →
  crashes good I' P (attempt m) (λ r d, match r with Ok a => Q a d | Err _ => I d ∧ sick d end).
Proof.
  intros Hp Hm d Hd. destruct (Hm d Hd) as [Hh Hr]. specialize (Hp d). unfold attempt, sick, no_healing in *.
  destruct (m d) as [[a|e] d1]; simpl in *; (split; [done|]); [done|]. tauto.
Qed.
Lemma crashes_sick {A} (I P : Disk → Prop) (m : io A) (Q : A → Disk → Prop) :
  Preserves no_healing m → crashes good I P m Q →
  crashes good I (λ d, P d ∧ sick d) m (λ a d, Q a d ∧ sick d).
Proof.
  intros Hp Hm d [Hd Hs]. destruct (Hm d Hd) as [Hh Hr]. split; [done|].
  destruct ((m d).1); [|done]. split; [done|]. intros [Hg Hd']. apply Hs. split; [done|]. by apply (Hp d).
Qed.
Lemma crashes_cases {A} (I P P1 P2 : Disk → Prop) (m : io A) Q :
  (∀ d, P d → P1 d ∨ P2 d) → crashes good I P1 m Q → crashes good I P2 m Q → crashes good I P m Q.
Proof. intros HP H1 H2 d Hd. destruct (HP d Hd); auto. Qed.
Lemma crashes_fail {A} (I P : Disk → Prop) e (Q : A → Disk → Prop) :
  (∀ d, P d → I d ∧ sick d) → crashes good I P (fail e) Q.
Proof. intros HP d Hd. split; [done|]. by apply HP. Qed.
(** On a healthy disk the operation succeeds. *)
Lemma crashes_healthy {A} (I P : Disk → Prop) (m : io A) Q d :
  crashes good I P m Q → good → P d → healthy d → ∃ a d', m d = (Ok a, d') ∧ Q a d' ∧ healthy d'.
Proof.
  intros Hm Hg Hd Hh. destruct (Hm d Hd) as [Hh' Hr]. specialize (Hh' Hh).
  destruct (m d) as [[a|e] d']; simpl in *; [by exists a, d'|]. tauto.
Qed.
(** Whatever happens, one of the two. *)
Lemma crashes_end {A} (I P : Disk → Prop) (m : io A) Q d :
  crashes good I P m Q → P d → (∃ a, Q a (m d).2) ∨ I (m d).2.
Proof.
  intros Hm Hd. destruct (Hm d Hd) as [_ Hr]. destruct ((m d).1) as [a|]; [left; by exists a|right; tauto].
Qed.
End Attempt.

(** ** Operations and predicates of the files alone *)
Definition on_files (Φ : gmap (list string) Doc → Prop) (d : Disk) : Prop := Φ (files d).
#[export] Instance on_files_store Φ : OfStore (on_files Φ).
Proof. intros d d' [E _]. unfold on_files. by rewrite E. Qed.
Lemma elem_of_prefixes_refl {A} (l : list A) : l ∈ prefixes l.
Proof.
  induction l as [|x l IH]; simpl; [by left|]. right. by apply (list_elem_of_fmap_2 (cons x)).
Qed.
Section OnFiles.
Context (good : Prop) (I Φ Ψ : gmap (list string) Doc → Prop).
Lemma crashes_remove (p : list string) :
  (∀ F, Φ F → I F) → (∀ F, Φ F → is_Some (F !! p)) → (∀ F, Φ F → Ψ (delete p F)) →
  crashes good (on_files I) (on_files Φ) (remove_file p) (λ _, on_files Ψ).
Proof.
  intros HI Hp HΨ d Hd. unfold remove_file.
  destruct (bool_decide (p ∈ unwritable d) || stopped d) eqn:E; simpl.
  - split; [done|]. split; [by apply HI|]. intros [_ (_ & Hw & Hpw)].
    rewrite Hw, (up_running _ Hpw), bool_decide_false in E by set_solver. done.
  - destruct (Hp _ Hd) as [doc Hdoc]. rewrite bool_decide_false by (by rewrite Hdoc). simpl. split; [|by apply HΨ].
    intros (? & ? & Hpw). split_and!; [done..|]. simpl. unfold spend. by rewrite Hpw.
Qed.
Lemma crashes_mkdir_write {A} `{Document A} p (a : A) :
  (∀ F, Φ F → I F) → (∀ F, Φ F → Ψ (<[p := to_doc a]> F)) →
  crashes good (on_files I) (on_files Φ) (_ ← MkdirAll (removelast p); writeJSONAtomic p a) (λ _, on_files Ψ).
Proof.
  intros HI HΨ. eapply crashes_bind.
  - apply (crashes_MkdirAll good _ _ (λ d, on_files Φ d ∧ removelast p ∈ dirs d)); [intros d; apply HI|].
    intros d Hd. split; [done|]. simpl. rewrite elem_of_union, elem_of_list_to_set. left. apply elem_of_prefixes_refl.
  - intros []. apply crashes_write; [intros d [Hd _]; by apply HI|by intros d [_ ?]|].
    intros d [Hd _] _. by apply HΨ.
Qed.
End OnFiles.

(** ** Reading

    A reading operation that succeeds succeeds with the same result in any
    healthy environment with the same files. *)
Class Sees {A} (m : io A) := sees d a d' :
  m d = (Ok a, d') → d' = d ∧ ∀ e, files e = files d → healthy e → m e = (Ok a, e).
#[export] Instance sees_ret {A} (a : A) : Sees (mret a).
Proof. intros d a' d' [= <- <-]. done. Qed.
#[export] Instance sees_lift {A} (r : result error A) : Sees (lift r).
Proof. intros d a d' [-> ->]%lift_Ok. done. Qed.
#[export] Instance sees_wrap {A} f (m : io A) : Sees m → Sees (io_wrap f m).
Proof.
  intros Hm d a d' [-> Hr]%io_wrap_Ok%Hm. split; [done|]. intros e He Hh. apply io_wrap_Ok. by apply Hr.
Qed.
Lemma sees_bind {A B} (m : io A) (f : A → io B) : Sees m → (∀ a, Sees (f a)) → Sees (m ≫= f).
Proof.
  intros Hm Hf d b d' (a & d1 & E & E')%io_bind_Ok. apply Hm in E as [-> Hr]. apply Hf in E' as [-> Hr'].
  split; [done|]. intros e He Hh. rewrite (io_bind_step _ _ _ _ _ (Hr e He Hh)). by apply Hr'.
Qed.
#[export] Instance sees_read {A} `{Document A} p : Sees (readJSON (A:=A) p).
Proof.
  intros d a d' (_ & Hf & ->)%readJSON_Ok. split; [done|]. intros e He (Hu & _). apply readJSON_Ok.
  rewrite Hu, He. split; [set_solver|done].
Qed.
