(* ===== verification/Transition.v ===== *)
(** * Two-phase transitions of the controller

    Models [internal/controller]'s [transition_state.go],
    [authority_transition.go], [authority_resolution.go] and
    [continuation_lease.go].  A transition is journalled before it acts: its
    record and its phase are written, then the head is moved to a prepared
    generation that names it as pending; its commit moves the head to the
    committed generation, its finalisation to the target generation, and the
    phase is written after each. *)
From S2P Require Import Prelude GoStrings ControllerTypes ControllerStore MutationControl.

(** ** Effects *)
Definition Key (effect : EffectExpectation) : string :=
  ef_Surface effect +:+ String "000" (ef_Resource effect).

Definition ClassifyTransition (record : TransitionRecord) (actual : gmap string string)
    : gmap string EffectClassification :=
  foldl (λ result effect,
    <[Key effect :=
        match actual !! Key effect with
        | None => EffectUnexpected
        | Some observed =>
            if bool_decide (observed = ef_ExpectedNew effect) then EffectExpectedNew
            else if bool_decide (observed = ef_ExpectedOld effect) then EffectExpectedOld
            else EffectUnexpected
        end]> result) ∅ (tr_Effects record).

(** ** Planning *)
Definition transitionRecord (intent : TransitionIntent) (transitionID : string) (now : Time)
    : TransitionRecord :=
  let source := tn_Source intent in
  let target := tn_Target intent in
  {|
    tr_SchemaVersion := controllerSchemaVersion;
    tr_TransitionID := transitionID;
    tr_Kind := tn_Kind intent;
    tr_OperationDigest := "";
    tr_SourceGeneration := hd_ControllerGeneration (ad_Head source);
    tr_PreparedGeneration := u64 (hd_ControllerGeneration (ad_Head source) + 1);
    tr_CommittedGeneration := u64 (hd_ControllerGeneration (ad_Head source) + 2);
    tr_TargetGeneration := u64 (hd_ControllerGeneration (ad_Head source) + 3);
    tr_SourceEpisodeID := hd_ActiveEpisodeID (ad_Head source);
    tr_SourceEpisodeRevision := hd_ActiveEpisodeRevision (ad_Head source);
    tr_TargetEpisodeID := ta_EpisodeID target;
    tr_TargetEpisodeRevision := ta_EpisodeRevision target;
    tr_SourceAttemptID := at_AttemptID (ad_Attempt source);
    tr_TargetAttemptID := ta_AttemptID target;
    tr_SourceLeaseID := ls_LeaseID (ad_Lease source);
    tr_TargetLeaseID := ta_LeaseID target;
    tr_SourceWorkspaceID := wi_ID (ad_Workspace source);
    tr_TargetWorkspaceID := ta_WorkspaceID target;
    tr_SourceRootTaskRef := at_RootTaskRef (ad_Attempt source);
    tr_TargetRootTaskRef := ta_RootTaskRef target;
    tr_SourceExecutionTaskRef := at_SemanticTaskRef (ad_Attempt source);
    tr_TargetExecutionTaskRef := ta_ExecutionTaskRef target;
    tr_WorkspaceSnapshotOld := ad_Snapshot source;
    tr_WorkspaceSnapshotNew := ta_WorkspaceSnapshot target;
    tr_ProjectSnapshotOld := hd_ProjectSnapshotID (ad_Head source);
    tr_ProjectSnapshotNew := ta_ProjectSnapshotID target;
    tr_Effects := tn_Effects intent;
    tr_CreatedAt := now |}.
Definition buildTransitionRecord (intent : TransitionIntent) (transitionID : string)
    : io TransitionRecord :=
  now ← Now; mret (transitionRecord intent transitionID now).

Definition authorityFromAdmission (admission : Admission) (snapshot : WorkspaceSnapshot)
    : TransitionAuthority := {|
  ta_ProjectSnapshotID := hd_ProjectSnapshotID (ad_Head admission);
  ta_RootTaskRef := at_RootTaskRef (ad_Attempt admission);
  ta_ExecutionTaskRef := at_SemanticTaskRef (ad_Attempt admission);
  ta_EpisodeID := hd_ActiveEpisodeID (ad_Head admission);
  ta_EpisodeRevision := hd_ActiveEpisodeRevision (ad_Head admission);
  ta_AttemptID := at_AttemptID (ad_Attempt admission);
  ta_LeaseID := ls_LeaseID (ad_Lease admission);
  ta_WorkspaceID := wi_ID (ad_Workspace admission);
  ta_WorkspaceSnapshot := snapshot |}.

(** The zero values of Go. *)
Definition noTask : SemanticTaskRef :=
  {| ref_TaskPath := ""; ref_RequestID := ""; ref_ContractDigest := "" |}.
Definition noSnapshot : WorkspaceSnapshot :=
  {| ws_ID := ""; ws_Head := ""; ws_IndexDigest := ""; ws_WorktreeDigest := ""; ws_RefDigest := "" |}.
Definition noAuthority : TransitionAuthority := {|
  ta_ProjectSnapshotID := ""; ta_RootTaskRef := noTask; ta_ExecutionTaskRef := noTask;
  ta_EpisodeID := ""; ta_EpisodeRevision := 0; ta_AttemptID := ""; ta_LeaseID := "";
  ta_WorkspaceID := ""; ta_WorkspaceSnapshot := noSnapshot |}.

Section Transition.
Context `{Host} (identity : RepositoryIdentity).
Notation LoadHead := (LoadHead identity).
Notation writeHeadCAS := (writeHeadCAS identity).
Notation AdmitMutation := (AdmitMutation identity).

Definition validateTransitionSource (intent : TransitionIntent) : io unit :=
  let source := tn_Source intent in
  refuse! bool_decide (hd_ControllerGeneration (ad_Head source) ≠ tn_ExpectedGeneration intent)
    with err "transition source generation does not match expected generation";
  current ← AdmitMutation (admission_authority source) (ad_Workspace source) (ad_Snapshot source);
  refuse! bool_decide (hd_ControllerGeneration (ad_Head current) ≠ tn_ExpectedGeneration intent) ||
          bool_decide (at_AttemptID (ad_Attempt current) ≠ at_AttemptID (ad_Attempt source)) ||
          bool_decide (ls_LeaseID (ad_Lease current) ≠ ls_LeaseID (ad_Lease source)) ||
          bool_decide (wi_ID (ad_Workspace current) ≠ wi_ID (ad_Workspace source)) ||
          bool_decide (ws_ID (ad_Snapshot current) ≠ ws_ID (ad_Snapshot source)) ||
          bool_decide (hd_ProjectSnapshotID (ad_Head current) ≠ hd_ProjectSnapshotID (ad_Head source))
    with err "transition source authority is stale";
  mret ().

Definition prepareContinuationLease (source : ExecutionLease) (snapshot : WorkspaceSnapshot)
    (generation : N) : io ExecutionLease :=
  leaseID ← NewUUID;
  now ← Now;
  let target := source {{
    ls_LeaseID := leaseID;
    ls_ControllerGeneration := generation;
    ls_ExpectedBaseOID := ws_Head snapshot;
    ls_ExpectedWorkspaceSnapshotID := ws_ID snapshot;
    ls_InFlightCallID := "";
    ls_CreatedAt := now }} in
  _ ← writeLease target;
  mret target.

(** ** Preparing *)
Definition persistPreparedTransition (record : TransitionRecord)
    (sourceHead : RepositoryControllerHead) : io unit :=
  _ ← writeJSONAtomic (transitionPath (tr_TransitionID record)) record;
  now ← Now;
  _ ← writeTransitionState {|
        ts_Completion := None;
        ts_SchemaVersion := controllerSchemaVersion;
        ts_TransitionID := tr_TransitionID record;
        ts_Phase := TransitionPhasePrepared;
        ts_Observed := ∅;
        ts_Classifications := ∅;
        ts_UpdatedAt := now |};
  let next := sourceHead {{
    hd_ControllerGeneration := tr_PreparedGeneration record;
    hd_PendingTransitionID := tr_TransitionID record }} in
  writeHeadCAS (hd_ControllerGeneration sourceHead) next.

Definition LoadTransition (id : string) : io (TransitionRecord * TransitionState) :=
  record ← readJSON (A:=TransitionRecord) (transitionPath id);
  transitionState ← loadTransitionState id;
  mret (record, transitionState).

(** ** Applying, committing and finalising *)
Definition markTransitionApplied (record : TransitionRecord) (actual : gmap string string) : io unit :=
  stateRecord ← loadTransitionState (tr_TransitionID record);
  refuse! bool_decide (ts_Phase stateRecord ≠ TransitionPhasePrepared) &&
          bool_decide (ts_Phase stateRecord ≠ TransitionPhaseApplied)
    with Errorf "transition %s cannot be marked applied from %s"
           [AStr (tr_TransitionID record); AStr (ts_Phase stateRecord)];
  now ← Now;
  writeTransitionState (stateRecord {{
    ts_Phase := TransitionPhaseApplied;
    ts_Observed := actual;
    ts_Classifications := ClassifyTransition record actual;
    ts_UpdatedAt := now }}).

(** [mutate] is the caller's change of the head, or nil. *)
Definition commitAuthorityTransitionCoreLocked (record : TransitionRecord)
    (actual : gmap string string) (finalize : bool)
    (mutate : option (RepositoryControllerHead → io RepositoryControllerHead))
    : io RepositoryControllerHead :=
  head ← LoadHead;
  refuse! bool_decide (hd_PendingTransitionID head ≠ tr_TransitionID record) ||
          bool_decide (hd_ControllerGeneration head ≠ tr_PreparedGeneration record)
    with Errorf "transition %s no longer owns controller CAS" [AStr (tr_TransitionID record)];
  let classifications := ClassifyTransition record actual in
  refuse! negb (bool_decide (map_Forall (λ _ classification, classification = EffectExpectedNew)
                               classifications))
    with Errorf "transition %s target effects are not proven" [AStr (tr_TransitionID record)];
  next ← match mutate with Some mutate => mutate head | None => mret head end;
  let next := if finalize
              then next {{ hd_ControllerGeneration := tr_TargetGeneration record;
                           hd_PendingTransitionID := "" }}
              else next {{ hd_ControllerGeneration := tr_CommittedGeneration record }} in
  let phase := if finalize then TransitionPhaseFinalized else TransitionPhaseCommitted in
  _ ← writeHeadCAS (hd_ControllerGeneration head) next;
  transitionState ← loadTransitionState (tr_TransitionID record);
  now ← Now;
  _ ← writeTransitionState {|
        ts_Completion := ts_Completion transitionState;
        ts_SchemaVersion := controllerSchemaVersion;
        ts_TransitionID := tr_TransitionID record;
        ts_Phase := phase;
        ts_Observed := actual;
        ts_Classifications := classifications;
        ts_UpdatedAt := now |};
  mret next.

(** With no evidence to publish, [commitAuthorityTransitionWithEvidenceLocked]
    is the commit alone. *)
Definition commitAuthorityTransitionLocked (record : TransitionRecord)
    (actual : gmap string string) (finalize : bool)
    (mutate : option (RepositoryControllerHead → io RepositoryControllerHead))
    : io RepositoryControllerHead :=
  if finalize then commitAuthorityTransitionCoreLocked record actual true mutate
  else commitAuthorityTransitionCoreLocked record actual false mutate.

Definition finalizeAuthorityTransitionLocked (record : TransitionRecord)
    : io RepositoryControllerHead :=
  head ← LoadHead;
  refuse! bool_decide (hd_PendingTransitionID head ≠ tr_TransitionID record) ||
          bool_decide (hd_ControllerGeneration head ≠ tr_CommittedGeneration record)
    with Errorf "transition %s is not pending finalization" [AStr (tr_TransitionID record)];
  stateRecord ← loadTransitionState (tr_TransitionID record);
  refuse! bool_decide (ts_Phase stateRecord ≠ TransitionPhaseCommitted) &&
          bool_decide (ts_Phase stateRecord ≠ TransitionPhaseFinalizing)
    with Errorf "transition %s cannot finalize from %s"
           [AStr (tr_TransitionID record); AStr (ts_Phase stateRecord)];
  now ← Now;
  let stateRecord := stateRecord {{
    ts_Phase := TransitionPhaseFinalizing; ts_UpdatedAt := now }} in
  _ ← writeTransitionState stateRecord;
  let next := head {{
    hd_ControllerGeneration := tr_TargetGeneration record; hd_PendingTransitionID := "" }} in
  _ ← writeHeadCAS (hd_ControllerGeneration head) next;
  now ← Now;
  _ ← writeTransitionState (stateRecord {{
        ts_Phase := TransitionPhaseFinalized; ts_UpdatedAt := now }});
  mret next.
End Transition.
