(* ===== verification/ExecutionOperation.v ===== *)
(** * Execution operations and the admission of model calls

    Models [internal/controller]'s [execution_operation.go],
    [execution_operation_contract.go], [execution_operation_validation.go],
    [model_call.go] and [model_call_recovery.go].  An operation is a transition
    with its payload, journalled under a digest of its content; each kind has a
    contract, the operations that validate, apply and verify it.  Recovering an
    operation carries its transition from wherever an interrupted run left it
    to its finalised generation.  The contract of model-call admissions is
    modelled; those of the other kinds are the interface [OtherOperations]. *)
From S2P Require Import Prelude GoStrings ControllerTypes ControllerStore MutationControl Transition.

(** ** The working tree

    [ResolveWorkspaceIdentity] and [CaptureWorkspaceSnapshot] of [identity.go]
    ask git about a directory. *)
Class Worktree := {
  ResolveWorkspaceIdentity : string → RepositoryIdentity → result error WorkspaceIdentity;
  CaptureWorkspaceSnapshot : string → result error WorkspaceSnapshot;
}.

(** ** Contracts *)
Inductive executionOperationEffectPolicy :=
  | executionOperationEffectsNone | executionOperationEffectsSingle
  | executionOperationEffectsOneOrMore | executionOperationEffectsInvalid (n : N).

(** A nil function is [None]; calling one panics. *)
Record executionOperationContract := {
  effects : executionOperationEffectPolicy;
  validate : option (ExecutionOperation → io unit);
  apply : option (ExecutionOperation → io unit);
  verifyCommitted : option (ExecutionOperation → RepositoryControllerHead → io unit);
  projectResult : option (ExecutionOperation → RepositoryControllerHead →
                          ExecutionOperationResult → io ExecutionOperationResult);
}.
Definition nil_call : error := err "invalid memory address or nil pointer dereference".
Definition call {A B} (f : option (A → io B)) (a : A) : io B :=
  match f with Some f => f a | None => fail nil_call end.
Definition call2 {A B C} (f : option (A → B → io C)) (a : A) (b : B) : io C :=
  match f with Some f => f a b | None => fail nil_call end.

(** What the model takes from the operations it does not hold: the contracts of
    the other kinds, the end of an aborted publication, the source check of a
    terminal operation, and [json.Marshal] of an operation. *)
Class OtherOperations := {
  other_contract : string → option executionOperationContract;
  finishPublicationAbort : ExecutionOperation → RepositoryControllerHead → TransitionState →
                           io ExecutionOperationResult;
  validateTerminalRecoverySource : ExecutionOperation → RepositoryControllerHead → io unit;
  marshal_operation : ExecutionOperation → result error string;
}.

Definition executionModelCall : string := "model-call-admission".
Definition executionOperationEffectAuthorityIncomplete : string :=
  "execution operation effect authority is incomplete".

Definition validateExecutionOperationContract (contract : executionOperationContract)
    : result error unit :=
  match validate contract, apply contract, verifyCommitted contract with
  | Some _, Some _, Some _ => Ok ()
  | _, _, _ => Err (err "execution operation contract is incomplete")
  end.

Fixpoint effectsLoop (seen : gset string) (effects : list EffectExpectation) : result error unit :=
  match effects with
  | [] => Ok ()
  | effect :: effects =>
      reject! bool_decide (Key effect ∈ seen) with err "execution operation repeats effect authority";
      effectsLoop ({[Key effect]} ∪ seen) effects
  end.
Definition validateExecutionOperationEffects (op : ExecutionOperation)
    (policy : executionOperationEffectPolicy) : result error unit :=
  let effects := tr_Effects (xo_Transition op) in
  _ ← effectsLoop ∅ effects;
  match policy with
  | executionOperationEffectsNone =>
      reject! negb (length effects =? 0) with err executionOperationEffectAuthorityIncomplete; Ok ()
  | executionOperationEffectsSingle =>
      reject! negb (length effects =? 1) with err executionOperationEffectAuthorityIncomplete; Ok ()
  | executionOperationEffectsOneOrMore =>
      reject! length effects =? 0 with err executionOperationEffectAuthorityIncomplete; Ok ()
  | executionOperationEffectsInvalid _ => Err (err "execution operation effect policy is invalid")
  end.

Section Operation.
Context `{Host, Worktree, OtherOperations} (identity : RepositoryIdentity).
Notation LoadHead := (LoadHead identity).
Notation AdmitMutation := (AdmitMutation identity).

Definition executionOperationPath (id : string) : path := ["execution-operations"; id +:+ ".json"].

(** ** Model calls: recovery ([model_call_recovery.go]) *)
Definition validateModelCallLeaseBinding (op : ExecutionOperation) (target : ExecutionLease)
    : result error unit :=
  let source := ad_Lease (xo_Source op) in
  let lease := source {{
    ls_LeaseID := ls_LeaseID target;
    ls_ControllerGeneration := tr_TargetGeneration (xo_Transition op);
    ls_InFlightCallID := ls_InFlightCallID target;
    ls_CreatedAt := ls_CreatedAt target }} in
  reject! bool_decide (ls_LeaseID lease = ls_LeaseID source) || bool_decide (ls_LeaseID lease = "") ||
          bool_decide (ls_InFlightCallID lease = "") || bool_decide (lease ≠ target)
    with err "model-call admission target lease is inconsistent";
  Ok ().

Definition verifyModelCallRecords (op : ExecutionOperation) (lease : ExecutionLease) : io unit :=
  attempt ← loadAttempt (at_AttemptID (ad_Attempt (xo_Source op)));
  source ← loadLease (ls_LeaseID (ad_Lease (xo_Source op)));
  target ← loadLease (ls_LeaseID lease);
  refuse! bool_decide (attempt ≠ ad_Attempt (xo_Source op)) ||
          bool_decide (source ≠ ad_Lease (xo_Source op)) || bool_decide (target ≠ lease)
    with err "model-call admission durable records changed";
  mret ().

Definition verifyModelCallWorkspace (op : ExecutionOperation) : io unit :=
  workspace ← lift (ResolveWorkspaceIdentity (wi_Root (ad_Workspace (xo_Source op))) identity);
  snapshot ← lift (CaptureWorkspaceSnapshot (wi_Root workspace));
  refuse! bool_decide (workspace ≠ ad_Workspace (xo_Source op)) ||
          bool_decide (snapshot ≠ ad_Snapshot (xo_Source op))
    with err "model-call admission workspace changed after prepare";
  mret ().

Definition modelCallTarget (admission : Admission) (lease : ExecutionLease) : TransitionAuthority :=
  (authorityFromAdmission admission (ad_Snapshot admission)) {{ ta_LeaseID := ls_LeaseID lease }}.
Definition modelCallIntent (admission : Admission) (target : TransitionAuthority) : TransitionIntent :=
  {| tn_Kind := executionModelCall; tn_ExpectedGeneration := 0; tn_Source := admission;
     tn_Target := target; tn_Effects := [] |}.
Definition modelCallOperation (record : TransitionRecord) (source : Admission)
    (workspace : option WorkspaceIdentity) (lease : option ExecutionLease) : ExecutionOperation := {|
  xo_Payloads := ∅; xo_RuntimeBeforeRef := None; xo_Transition := record; xo_Source := source;
  xo_Workspace := workspace; xo_Attempt := None; xo_Lease := lease; xo_SealRef := None;
  xo_CleanupSnapshot := None; xo_CleanupTrees := None; xo_CleanupArchive := None |}.

Definition validateModelCallAdmission (op : ExecutionOperation) : io unit :=
  let source := xo_Source op in
  match xo_Lease op with
  | None => fail (err "model-call admission payload is incomplete")
  | Some lease =>
      refuse! bool_decide (xo_Workspace op ≠ Some (ad_Workspace source)) ||
              negb (length (tr_Effects (xo_Transition op)) =? 0) ||
              bool_decide (ls_InFlightCallID (ad_Lease source) ≠ "")
        with err "model-call admission payload is incomplete";
      let expected := modelCallOperation (xo_Transition op) source (xo_Workspace op) (xo_Lease op) in
      refuse! bool_decide (expected ≠ op)
        with err "model-call admission has unrelated operation authority";
      _ ← lift (validateLiveAuthority (ad_Head source) (at_SemanticTaskRef (ad_Attempt source))
                  (ad_Workspace source) (ad_Snapshot source) (ad_Attempt source) (ad_Lease source));
      _ ← lift (validateModelCallLeaseBinding op lease);
      record ← buildTransitionRecord (modelCallIntent source (modelCallTarget source lease))
                 (tr_TransitionID (xo_Transition op));
      let record := record {{
        tr_CreatedAt := tr_CreatedAt (xo_Transition op);
        tr_OperationDigest := tr_OperationDigest (xo_Transition op) }} in
      refuse! bool_decide (record ≠ xo_Transition op)
        with err "model-call admission differs from transition authority";
      verifyModelCallRecords op lease
  end.

Definition applyModelCallAdmission (op : ExecutionOperation) : io unit :=
  head ← LoadHead;
  let expected := (ad_Head (xo_Source op)) {{
    hd_ControllerGeneration := tr_PreparedGeneration (xo_Transition op);
    hd_PendingTransitionID := tr_TransitionID (xo_Transition op) }} in
  refuse! bool_decide (head ≠ expected) with err "model-call admission source authority changed";
  _ ← verifyModelCallWorkspace op;
  _ ← markTransitionApplied (xo_Transition op) ∅;
  _ ← commitAuthorityTransitionLocked identity (xo_Transition op) ∅ false
        (Some (λ next, match xo_Lease op with
                       | Some lease => mret (next {{ hd_LiveLeaseID := ls_LeaseID lease }})
                       | None => fail nil_call end));
  mret ().

Definition verifyCommittedModelCallAdmission (op : ExecutionOperation)
    (head : RepositoryControllerHead) : io unit :=
  match xo_Lease op with
  | None => fail nil_call
  | Some lease =>
      let expected := (ad_Head (xo_Source op)) {{
        hd_ControllerGeneration := hd_ControllerGeneration head;
        hd_LiveLeaseID := ls_LeaseID lease }} in
      let expected :=
        if bool_decide (hd_ControllerGeneration head = tr_CommittedGeneration (xo_Transition op))
        then expected {{ hd_PendingTransitionID := tr_TransitionID (xo_Transition op) }}
        else expected in
      refuse! bool_decide (expected ≠ head)
        with err "committed model-call admission authority is inconsistent";
      verifyModelCallWorkspace op
  end.

(** ** The table of contracts *)
Definition projectExecutionAdmissionResult (op : ExecutionOperation)
    (head : RepositoryControllerHead) (result : ExecutionOperationResult)
    : io ExecutionOperationResult :=
  match xo_Workspace op with
  | None => fail (err "execution operation workspace authority is missing")
  | Some workspace =>
      workspace ← lift (ResolveWorkspaceIdentity (wi_Root workspace) identity);
      snapshot ← lift (CaptureWorkspaceSnapshot (wi_Root workspace));
      authority ← lift (MutationAuthorityFromHead head);
      admission ← AdmitMutation authority workspace snapshot;
      mret (result {{ xr_Admission := Some admission }})
  end.

Definition executionOperationContractTable (kind : string) : option executionOperationContract :=
  if bool_decide (kind = executionModelCall) then Some {|
    effects := executionOperationEffectsNone;
    validate := Some validateModelCallAdmission;
    apply := Some applyModelCallAdmission;
    verifyCommitted := Some verifyCommittedModelCallAdmission;
    projectResult := Some projectExecutionAdmissionResult |}
  else other_contract kind.
Definition lookupExecutionOperationContract (kind : string) : result error executionOperationContract :=
  match executionOperationContractTable kind with
  | None => Err (err "unknown execution operation")
  | Some contract => Ok contract
  end.

(** ** The journal *)
Definition executionOperationDigest (op : ExecutionOperation) : result error string :=
  let op := op {{ xo_Transition := (xo_Transition op) {{ tr_OperationDigest := "" }} }} in
  data ← marshal_operation op;
  Ok (digestStrings ["controller-execution-operation-v1"; data]).

Definition validateExecutionOperation (op : ExecutionOperation) : io executionOperationContract :=
  digest ← lift (executionOperationDigest op);
  refuse! bool_decide (tr_OperationDigest (xo_Transition op) = "") ||
          bool_decide (tr_OperationDigest (xo_Transition op) ≠ digest)
    with err "execution operation content integrity failed";
  contract ← lift (lookupExecutionOperationContract (tr_Kind (xo_Transition op)));
  _ ← lift (validateExecutionOperationContract contract);
  _ ← lift (validateExecutionOperationEffects op (effects contract));
  _ ← call (validate contract) op;
  mret contract.

(** The operation with its digest, which the caller's value also receives. *)
Definition prepareExecutionOperation (op : ExecutionOperation) (head : RepositoryControllerHead)
    : io ExecutionOperation :=
  refuse! bool_decide (hd_Status head ≠ ControllerStatusActive) ||
          bool_decide (hd_PendingTransitionID head ≠ "") ||
          bool_decide (tr_SourceGeneration (xo_Transition op) ≠ hd_ControllerGeneration head)
    with err "execution operation source is unavailable";
  _ ← MkdirAll ["execution-operations"];
  digest ← lift (executionOperationDigest op);
  let op := op {{ xo_Transition := (xo_Transition op) {{ tr_OperationDigest := digest }} }} in
  _ ← writeJSONAtomic (executionOperationPath (tr_TransitionID (xo_Transition op))) op;
  _ ← persistPreparedTransition identity (xo_Transition op) head;
  mret op.

(** ** Recovery *)
Definition executionAlreadyFinalized (op : ExecutionOperation) (head : RepositoryControllerHead) : bool :=
  bool_decide (hd_PendingTransitionID head = "") &&
  bool_decide (hd_ControllerGeneration head = tr_TargetGeneration (xo_Transition op)).
Definition executionPreparedForRecovery (op : ExecutionOperation) (head : RepositoryControllerHead) : bool :=
  bool_decide (hd_Status head = ControllerStatusActive) &&
  bool_decide (hd_ControllerGeneration head = tr_PreparedGeneration (xo_Transition op)).

Definition loadExecutionRecoveryAuthority (op : ExecutionOperation)
    : io (RepositoryControllerHead * TransitionState) :=
  head ← LoadHead;
  refuse! bool_decide (hd_Status head ≠ ControllerStatusActive)
    with err "execution recovery controller failed closed";
  _ ← (if bool_decide (xo_Payloads op !! "terminal" ≠ None) &&
          bool_decide (hd_ControllerGeneration head = tr_PreparedGeneration (xo_Transition op))
       then validateTerminalRecoverySource op head else mret ());
  phase ← loadTransitionState (tr_TransitionID (xo_Transition op));
  mret (head, phase).

Definition reconcileCommittedExecutionPhase (record : TransitionRecord) : io unit :=
  phase ← loadTransitionState (tr_TransitionID record);
  if bool_decide (ts_Phase phase = TransitionPhaseCommitted) ||
     bool_decide (ts_Phase phase = TransitionPhaseFinalizing)
  then mret ()
  else
    refuse! bool_decide (ts_Phase phase ≠ TransitionPhasePrepared) &&
            bool_decide (ts_Phase phase ≠ TransitionPhaseApplied)
      with err "execution transition phase is inconsistent with committed controller";
    now ← Now;
    writeTransitionState (phase {{ ts_Phase := TransitionPhaseCommitted; ts_UpdatedAt := now }}).

Definition reconcileFinalizedExecutionPhase (record : TransitionRecord) : io unit :=
  phase ← loadTransitionState (tr_TransitionID record);
  if bool_decide (ts_Phase phase = TransitionPhaseFinalized) then mret ()
  else
    refuse! bool_decide (ts_Phase phase ≠ TransitionPhaseCommitted) &&
            bool_decide (ts_Phase phase ≠ TransitionPhaseFinalizing)
      with err "finalized controller disagrees with transition phase";
    now ← Now;
    writeTransitionState (phase {{ ts_Phase := TransitionPhaseFinalized; ts_UpdatedAt := now }}).

Definition executionOperationResult (op : ExecutionOperation) (head : RepositoryControllerHead)
    (contract : executionOperationContract) : io ExecutionOperationResult :=
  let result := {|
    xr_ParentSourceReview := bool_decide (xo_Payloads op !! "parent_source" ≠ None);
    xr_SourceSnapshot := None;
    xr_TransitionID := tr_TransitionID (xo_Transition op);
    xr_Head := head;
    xr_Admission := None;
    xr_Suspension := xo_Payloads op !! "suspension";
    xr_CandidateRef := None;
    xr_SealRef := xo_SealRef op |} in
  match projectResult contract with
  | None => mret result
  | Some projectResult => projectResult op head result
  end.

Definition finalizeCommittedExecution (op : ExecutionOperation) (head : RepositoryControllerHead)
    (contract : executionOperationContract) : io ExecutionOperationResult :=
  _ ← call2 (verifyCommitted contract) op head;
  _ ← reconcileCommittedExecutionPhase (xo_Transition op);
  next ← finalizeAuthorityTransitionLocked identity (xo_Transition op);
  executionOperationResult op next contract.

Definition recoverExecutionOperationLocked (op : ExecutionOperation) : io ExecutionOperationResult :=
  contract ← validateExecutionOperation op;
  '(head, phase) ← loadExecutionRecoveryAuthority op;
  if bool_decide (ts_Phase phase = TransitionPhaseAborted)
  then finishPublicationAbort op head phase
  else if executionAlreadyFinalized op head then
    _ ← call2 (verifyCommitted contract) op head;
    _ ← reconcileFinalizedExecutionPhase (xo_Transition op);
    executionOperationResult op head contract
  else
    refuse! bool_decide (hd_PendingTransitionID head ≠ tr_TransitionID (xo_Transition op))
      with err "execution transition no longer owns controller";
    if bool_decide (hd_ControllerGeneration head = tr_CommittedGeneration (xo_Transition op))
    then finalizeCommittedExecution op head contract
    else
      refuse! negb (executionPreparedForRecovery op head)
        with err "execution transition generation is unexpected";
      _ ← call (apply contract) op;
      head ← finalizeAuthorityTransitionLocked identity (xo_Transition op);
      executionOperationResult op head contract.

(** [filepath.Base] *)
Definition Base (path : string) : string :=
  if bool_decide (path = "") then "."
  else default "/" (last (filter (λ element, element ≠ "") (Split path "/"))).

Definition RecoverExecutionOperation (transitionID : string) : io ExecutionOperationResult :=
  under_lock (
    refuse! bool_decide (Base transitionID ≠ transitionID) || bool_decide (transitionID = "")
      with err "invalid execution transition identity";
    op ← readJSON (A:=ExecutionOperation) (executionOperationPath transitionID);
    '(record, _) ← LoadTransition transitionID;
    refuse! bool_decide (xo_Transition op ≠ record) with err "execution operation journal mismatch";
    recoverExecutionOperationLocked op).

(** ** Model calls: binding ([model_call.go]) *)
Definition prepareModelCallTarget (admission : Admission) : io (ExecutionLease * TransitionAuthority) :=
  callID ← NewUUID;
  targetLease ← prepareContinuationLease (ad_Lease admission) (ad_Snapshot admission)
                  (u64 (hd_ControllerGeneration (ad_Head admission) + 3));
  let targetLease := targetLease {{ ls_InFlightCallID := callID }} in
  _ ← writeLease targetLease;
  mret (targetLease, modelCallTarget admission targetLease).

Definition planModelCallAdmission (admission : Admission) : io ExecutionOperation :=
  refuse! bool_decide (ls_InFlightCallID (ad_Lease admission) ≠ "")
    with err "model-call admission requires a quiescent lease";
  _ ← validateTransitionSource identity {|
        tn_Kind := ""; tn_ExpectedGeneration := hd_ControllerGeneration (ad_Head admission);
        tn_Source := admission; tn_Target := noAuthority; tn_Effects := [] |};
  '(lease, target) ← prepareModelCallTarget admission;
  id ← NewUUID;
  record ← buildTransitionRecord (modelCallIntent admission target) id;
  mret (modelCallOperation record admission (Some (ad_Workspace admission)) (Some lease)).

Definition BindModelCall (admission : Admission) : io Admission :=
  under_lock (
    op ← planModelCallAdmission admission;
    op ← prepareExecutionOperation op (ad_Head admission);
    result ← recoverExecutionOperationLocked op;
    match xr_Admission result with
    | None => fail (err "model-call admission has no live authority")
    | Some admission => mret admission
    end).
End Operation.

(** ** Effects *)
Lemma effectsLoop_Ok seen effects :
  effectsLoop seen effects = Ok () ↔
  NoDup (Key <$> effects) ∧ ∀ effect, effect ∈ effects → Key effect ∉ seen.
Proof.
  revert seen. induction effects as [|e effects IH]; intros seen; cbn [effectsLoop fmap list_fmap].
  - split; [|done]. intros _. split; [constructor|set_solver].
  - rewrite NoDup_cons. case_bool_decide as Hin; [split; [done|set_solver]|]. rewrite IH.
    split; [intros [Hn Hs]|intros [[He Hn] Hs]]; (split; [|set_solver]); try done.
    split; [|done]. intros (e' & Ee & He')%list_elem_of_fmap. apply (Hs e' He'). set_solver.
Qed.

Definition classify (actual : gmap string string) (effect : EffectExpectation)
    : EffectClassification :=
  match actual !! Key effect with
  | None => EffectUnexpected
  | Some observed =>
      if bool_decide (observed = ef_ExpectedNew effect) then EffectExpectedNew
      else if bool_decide (observed = ef_ExpectedOld effect) then EffectExpectedOld
      else EffectUnexpected
  end.
Lemma classify_new actual effect :
  classify actual effect = EffectExpectedNew ↔ actual !! Key effect = Some (ef_ExpectedNew effect).
Proof.
  unfold classify. destruct (actual !! Key effect); [|done].
  repeat case_bool_decide; naive_solver.
Qed.
Definition classify_step (actual : gmap string string) (result : gmap string EffectClassification)
    (effect : EffectExpectation) := <[Key effect := classify actual effect]> result.
Lemma classify_fold_ne actual effects result key :
  key ∉ Key <$> effects → foldl (classify_step actual) result effects !! key = result !! key.
Proof.
  revert result. induction effects as [|e effects IH]; intros result Hk; [done|].
  rewrite fmap_cons, not_elem_of_cons in Hk. destruct Hk as [Hne Hk]. simpl. rewrite IH by exact Hk.
  by apply lookup_insert_ne.
Qed.
Lemma classify_fold actual effects result effect :
  NoDup (Key <$> effects) → effect ∈ effects →
  foldl (classify_step actual) result effects !! Key effect = Some (classify actual effect).
Proof.
  revert result. induction effects as [|e effects IH]; intros result Hn He; [set_solver|].
  rewrite fmap_cons, NoDup_cons in Hn. destruct Hn as [Hk Hn]. simpl.
  apply elem_of_cons in He as [->|He]; [|by apply IH].
  rewrite classify_fold_ne by done. apply lookup_insert_eq.
Qed.
Lemma ClassifyTransition_proven record actual :
  NoDup (Key <$> tr_Effects record) →
  map_Forall (λ _ c, c = EffectExpectedNew) (ClassifyTransition record actual) →
  ∀ effect, effect ∈ tr_Effects record → actual !! Key effect = Some (ef_ExpectedNew effect).
Proof.
  intros Hn Hall effect He. apply classify_new.
  apply (Hall (Key effect)). by apply (classify_fold actual).
Qed.

Lemma validateExecutionOperationEffects_Ok op policy :
  validateExecutionOperationEffects op policy = Ok () → NoDup (Key <$> tr_Effects (xo_Transition op)).
Proof.
  unfold validateExecutionOperationEffects. intros E. result_inv E.
  repeat match goal with u : () |- _ => destruct u end.
  lazymatch goal with E : effectsLoop _ _ = _ |- _ => by apply effectsLoop_Ok in E as [? _] end.
Qed.

Lemma commit_head identity expected next (state : TransitionState) d u d1 r d2 now d3 u' d' :
  writeHeadCAS identity expected next d = (Ok u, d1) →
  loadTransitionState (ts_TransitionID state) d1 = (Ok r, d2) → Now d2 = (Ok now, d3) →
  writeTransitionState state d3 = (Ok u', d') →
  (expected < hd_ControllerGeneration next)%N ∧ files d' !! headPath = Some (DocHead next) ∧
  files d' !! transitionStatePath (ts_TransitionID state) = Some (DocTransitionState state).
Proof.
  intros HC HL HN HW. apply writeHeadCAS_Ok in HC as (cur & _ & Hg & _ & Hlt & _ & _ & _ & ->).
  apply preserves_eq in HL; [|apply _]. subst d2. apply Now_Ok in HN as [F _].
  unfold writeTransitionState in HW. apply writeJSONAtomic_Ok in HW as (_ & _ & _ & ->).
  rewrite Hg in Hlt. split; [done|]. rewrite !files_put, F, files_put. by simplify_map_eq.
Qed.

(** C29: a transition commits only with its effects proven.  When the effects of an
    operation pass validation and its commit succeeds, the head was pending on
    that transition in its prepared generation, every effect was observed at its
    expected new value, and the new head, in the committed generation, or in the
    target generation and no longer pending, is on disk with the phase. *)
Theorem commitAuthorityTransitionCoreLocked_spec identity op policy actual finalize mutate d head d' :
  let record := xo_Transition op in
  validateExecutionOperationEffects op policy = Ok () →
  commitAuthorityTransitionCoreLocked identity record actual finalize mutate d = (Ok head, d') →
  (∃ before, files d !! headPath = Some (DocHead before) ∧
     hd_PendingTransitionID before = tr_TransitionID record ∧
     hd_ControllerGeneration before = tr_PreparedGeneration record) ∧
  (∀ effect, effect ∈ tr_Effects record → actual !! Key effect = Some (ef_ExpectedNew effect)) ∧
  (if finalize then hd_ControllerGeneration head = tr_TargetGeneration record ∧
                    hd_PendingTransitionID head = ""
   else hd_ControllerGeneration head = tr_CommittedGeneration record) ∧
  (tr_PreparedGeneration record < hd_ControllerGeneration head)%N ∧
  files d' !! headPath = Some (DocHead head) ∧
  ∃ state, files d' !! transitionStatePath (tr_TransitionID record) = Some (DocTransitionState state) ∧
    ts_Phase state = if finalize then TransitionPhaseFinalized else TransitionPhaseCommitted.
Proof.
  intros record Heff%validateExecutionOperationEffects_Ok E.
  apply io_bind_Ok in E as (before & d1 & HL & E).
  apply LoadHead_Ok in HL as (_ & Hh & _ & _ & ->).
  destruct (_ || _) eqn:Hown in E; [discriminate E|]. cbv zeta in E.
  destruct (negb _) eqn:Hall in E; [discriminate E|]. bool_simp.
  apply io_bind_Ok in E as (m & d1 & _ & E).
  apply io_bind_Ok in E as ([] & d2 & HC & E). apply io_bind_Ok in E as (ts & d3 & HT & E).
  apply io_bind_Ok in E as (now & d4 & HN & E). apply io_bind_Ok in E as ([] & d5 & HW & E).
  injection E as <- <-.
  lazymatch type of HW with writeTransitionState ?s _ = _ =>
    destruct (commit_head identity _ _ s _ _ _ _ _ _ _ _ _ HC HT HN HW) as (Hlt & Hf & Hts) end.
  split; [by exists before|]. split; [by apply ClassifyTransition_proven|].
  split; [by destruct finalize|]. split.
  { lazymatch goal with Hg : hd_ControllerGeneration before = _ |- _ => rewrite Hg in Hlt end. exact Hlt. }
  split; [exact Hf|].
  eexists. split; [exact Hts|]. by destruct finalize.
Qed.

Definition demo_effect : EffectExpectation := {|
  ef_Surface := MutationSurfaceRef; ef_Resource := "refs/candidate"; ef_ExpectedOld := "";
  ef_ExpectedNew := "c2" |}.
Definition demo_effect_operation : ExecutionOperation :=
  modelCallOperation (transitionRecord {|
    tn_Kind := "PROMOTE"; tn_ExpectedGeneration := 1; tn_Source := demo_admission;
    tn_Target := noAuthority; tn_Effects := [demo_effect] |} "t1" 0) demo_admission None None.
Definition demo_commit (actual : string) : result error RepositoryControllerHead * Disk :=
  let record := xo_Transition demo_effect_operation in
  commitAuthorityTransitionCoreLocked demo_identity record {[Key demo_effect := actual]} true None
    (persistPreparedTransition demo_identity record demo_head demo_disk).2.

Lemma commitAuthorityTransitionCoreLocked_spec_witness :
  is_ok (demo_commit "c1").1 = false ∧
  match demo_commit "c2" with
  | (Ok head, d') => hd_ControllerGeneration head = 4%N ∧ files d' !! headPath = Some (DocHead head)
  | _ => False
  end.
Proof.
  split; [vm_compute; reflexivity|].
  assert (is_ok (demo_commit "c2").1 = true) as Hok by (vm_compute; reflexivity).
  destruct (demo_commit "c2") as [[head|e] d'] eqn:E; [|discriminate Hok].
  destruct (commitAuthorityTransitionCoreLocked_spec demo_identity demo_effect_operation
    executionOperationEffectsSingle _ true None _ head d' eq_refl E) as (_ & _ & [Hg _] & _ & Hf & _).
  split; [exact Hg|exact Hf].
Defined.
