(* ===== verification/ControllerHead.v ===== *)
(** * The head of the controller under every operation

    Every change of the head goes through [writeHeadCAS] ([store.go]).  Each
    caller builds the new head from the one it read: bootstrapping, recording,
    preparing, committing, finalising and aborting a transition keep its status,
    failing closed sets it.  [head_step] is one such change, or any change of
    other files; an operation that is not modelled is a sequence of them.
    [operation_step] has the modelled operations by name.  What holds of both
    relations holds of the controller. *)
From S2P Require Import Prelude GoStrings ControllerTypes ControllerStore CrashLogic MutationControl.
From S2P Require Import Transition ExecutionOperation.

(** ** Failing closed on request ([fail_closed.go]) *)
Definition FailClosedAdmission (identity : RepositoryIdentity) (admission : Admission)
    (reason : string) (actual : WorkspaceSnapshot) : io unit :=
  refuse! bool_decide (reason = "") with err "controller fail-close reason is required";
  under_lock (
    current ← LoadHead identity;
    refuse! bool_decide (hd_Status current ≠ ControllerStatusActive) ||
            bool_decide (hd_LiveLeaseID current ≠ ls_LeaseID (ad_Lease admission)) ||
            bool_decide (hd_ControllerGeneration current ≠ hd_ControllerGeneration (ad_Head admission))
      with err "controller fail-close admission is stale";
    _ ← failClosedLocked identity reason (hd_PendingTransitionID current) (ad_Workspace admission)
          (ad_Snapshot admission) actual ∅;
    mret ()).

Section Head.
Context `{Host} (identity : RepositoryIdentity).

(** ** Steps *)
Inductive head_step (d : Disk) : Disk → Prop :=
  | head_kept d' : same_head d d' → head_step d d'
  | head_swapped expected next :
      (closed d → hd_Status next = ControllerStatusFailClosed) →
      head_step d (writeHeadCAS identity expected next d).2.
#[local] Notation head_steps := (rtc head_step).

(** What the caller of a commit may do: change the head it is given except for its
    status, and write other files. *)
Class KeepsStatus (mutate : option (RepositoryControllerHead → io RepositoryControllerHead)) : Prop := {
  mutate_status h : from_option (λ f, ∀ d h' d', f h d = (Ok h', d') → hd_Status h' = hd_Status h)
                      True mutate;
  mutate_head h : from_option (λ f, Preserves same_head (f h)) True mutate;
}.

(** The operations of other kinds change the head in such steps too. *)
Class OthersStep `{OtherOperations} : Prop := {
  others_validate kind c f op : other_contract kind = Some c → validate c = Some f →
    Preserves head_steps (f op);
  others_apply kind c f op : other_contract kind = Some c → apply c = Some f → Preserves head_steps (f op);
  others_verify kind c f op h : other_contract kind = Some c → verifyCommitted c = Some f →
    Preserves head_steps (f op h);
  others_project kind c f op h r : other_contract kind = Some c → projectResult c = Some f →
    Preserves head_steps (f op h r);
  others_abort op h phase : Preserves head_steps (finishPublicationAbort op h phase);
  others_terminal op h : Preserves head_steps (validateTerminalRecoverySource op h);
}.

Inductive operation_step `{OtherOperations} (d : Disk) : Disk → Prop :=
  | operation_mutation d' : control_step identity d d' → operation_step d d'
  | operation_fail_closed a reason actual :
      operation_step d (FailClosedAdmission identity a reason actual d).2
  | operation_fail_locked reason id workspace expected actual observed :
      operation_step d (failClosedLocked identity reason id workspace expected actual observed d).2
  | operation_bind (tree : Worktree) a : operation_step d (BindModelCall identity a d).2
  | operation_recover (tree : Worktree) id : operation_step d (RecoverExecutionOperation identity id d).2
  | operation_commit record actual finalize mutate : KeepsStatus mutate →
      operation_step d (commitAuthorityTransitionCoreLocked identity record actual finalize mutate d).2
  | operation_finalize record : operation_step d (finalizeAuthorityTransitionLocked identity record d).2
  | operation_other d' : head_step d d' → operation_step d d'.

(** ** A closed controller remains closed *)
Definition remains_closed (d d' : Disk) : Prop := closed d → closed d'.
#[export] Instance remains_closed_preorder : PreOrder remains_closed.
Proof. split; [by intros d ?|]. unfold remains_closed. intros d1 d2 d3. auto. Qed.
#[export] Instance remains_closed_watches : WatchesHead remains_closed.
Proof. intros d d' E (h & Hf & Hs). exists h. unfold same_head in E. by rewrite E. Qed.

Lemma stays_remains {A} (m : io A) : Preserves stays_closed m → Preserves remains_closed m.
Proof. intros Hm d Hc. by apply (watches (R:=remains_closed) d), Hc; apply Hm. Qed.

Lemma cas_remains expected next d :
  (closed d → hd_Status next = ControllerStatusFailClosed) →
  remains_closed d (writeHeadCAS identity expected next d).2.
Proof.
  intros Hn Hc. destruct (writeHeadCAS _ expected next d) as [[u|e] d'] eqn:E; simpl.
  - apply writeHeadCAS_Ok in E as (_ & _ & _ & _ & _ & _ & _ & _ & ->).
    exists next. rewrite files_put, lookup_insert_eq. auto.
  - by rewrite (cas_Err _ _ _ _ _ _ E).
Qed.

Lemma head_step_advances d d' : head_step d d' → advances d d'.
Proof. destruct 1; [by left|]. apply (preserves (R:=advances)). Qed.
Lemma head_step_remains d d' : head_step d d' → remains_closed d d'.
Proof. destruct 1; [by apply (watches (R:=remains_closed))|by apply cas_remains]. Qed.

Lemma head_steps_preserve (R : relation Disk) `{!PreOrder R} {A} (m : io A) :
  (∀ d d', head_step d d' → R d d') → Preserves head_steps m → Preserves R m.
Proof. intros HR Hm d. specialize (Hm d). induction Hm; [done|]. etrans; [by apply HR|done]. Qed.

(** ** The operations *)
Section Relation.
Context (R : relation Disk) `{!PreOrder R, !WatchesHead R} (HR : ∀ d d', head_step d d' → R d d').

Lemma fail_closed_locked reason id workspace expected actual observed :
  Preserves R (failClosedLocked identity reason id workspace expected actual observed).
Proof. unfold failClosedLocked. preserving. intros d. by apply HR, head_swapped. Qed.

(** After [LoadHead] the head on the disk is the one that was read. *)
Lemma load_then {A} (f : RepositoryControllerHead → io A) :
  (∀ h d, files d !! headPath = Some (DocHead h) → R d (f h d).2) → Preserves R (LoadHead identity ≫= f).
Proof.
  intros Hf d. unfold mbind, io_bind. destruct (LoadHead identity d) as [[h|e] d'] eqn:E;
    pose proof (preserves_eq _ _ _ _ _ E) as ->; [|done].
  apply LoadHead_Ok in E as (_ & E & _). by apply Hf.
Qed.
(** Steps that leave the head alone, and then the rest from the same head. *)
Lemma keep_then {A B} (h : RepositoryControllerHead) (m : io A) (f : A → io B) d :
  Preserves same_head m → files d !! headPath = Some (DocHead h) →
  (∀ a d1, files d1 !! headPath = Some (DocHead h) → R d1 (f a d1).2) → R d ((m ≫= f) d).2.
Proof.
  intros Hm Hd Hf. specialize (Hm d). unfold mbind, io_bind.
  assert (R d (m d).2) as HRm by by apply watches. unfold same_head in Hm. rewrite Hd in Hm.
  destruct (m d) as [[a|e] d1]; [|done]. simpl in *. etrans; [exact HRm|]. by apply Hf.
Qed.
(** A new head with the status of the one it replaces. *)
Lemma swap_then {A} h expected next (f : () → io A) d :
  files d !! headPath = Some (DocHead h) → hd_Status next = hd_Status h → (∀ u, Preserves R (f u)) →
  R d ((writeHeadCAS identity expected next ≫= f) d).2.
Proof.
  intros Hd Hs Hf. assert (R d (writeHeadCAS identity expected next d).2) as HRm.
  { apply HR, head_swapped. intros (h' & Hf' & Hc). rewrite Hd in Hf'. injection Hf' as <-. by rewrite Hs. }
  unfold mbind, io_bind. destruct (writeHeadCAS _ _ _ d) as [[u|e] d1]; [|done]. etrans; [exact HRm|]. apply Hf.
Qed.

Lemma commit_steps record actual finalize mutate : KeepsStatus mutate →
  Preserves R (commitAuthorityTransitionCoreLocked identity record actual finalize mutate).
Proof.
  intros [Hs Hk]. unfold commitAuthorityTransitionCoreLocked. apply load_then. intros h d Hd.
  case_match; [done|]. cbv zeta. case_match; [done|].
  assert (∀ next d1, files d1 !! headPath = Some (DocHead h) → hd_Status next = hd_Status h →
    R d1 ((let next := if finalize
              then next {{ hd_ControllerGeneration := tr_TargetGeneration record; hd_PendingTransitionID := "" }}
              else next {{ hd_ControllerGeneration := tr_CommittedGeneration record }} in
           let phase := if finalize then TransitionPhaseFinalized else TransitionPhaseCommitted in
           _ ← writeHeadCAS identity (hd_ControllerGeneration h) next;
           transitionState ← loadTransitionState (tr_TransitionID record);
           now ← Now;
           _ ← writeTransitionState {|
                 ts_Completion := ts_Completion transitionState;
                 ts_SchemaVersion := controllerSchemaVersion;
                 ts_TransitionID := tr_TransitionID record; ts_Phase := phase; ts_Observed := actual;
                 ts_Classifications := ClassifyTransition record actual; ts_UpdatedAt := now |};
           mret next) d1).2) as Hrest.
  { intros next d1 Hd1 Hn. cbv zeta. apply (swap_then h); [done|by destruct finalize|preserving]. }
  destruct mutate as [f|]; [|by apply Hrest].
  specialize (Hs h). specialize (Hk h d). simpl in Hs, Hk. unfold mbind at 1, io_bind at 1.
  assert (R d (f h d).2) as HRm by by apply watches. unfold same_head in Hk. rewrite Hd in Hk.
  destruct (f h d) as [[next|e] d1] eqn:E; [|done]. simpl in *. etrans; [exact HRm|]. by eapply Hrest, Hs.
Qed.
Lemma finalize_steps record : Preserves R (finalizeAuthorityTransitionLocked identity record).
Proof.
  unfold finalizeAuthorityTransitionLocked. apply load_then. intros h d Hd. case_match; [done|].
  apply (keep_then h); [apply _|done|]. intros state d1 Hd1. case_match; [done|].
  apply (keep_then h); [apply _|done|]. intros now d2 Hd2. cbv zeta.
  apply (keep_then h); [apply _|done|]. intros u d3 Hd3. apply (swap_then h); [done..|preserving].
Qed.
Lemma fail_closed_steps a reason actual : Preserves R (FailClosedAdmission identity a reason actual).
Proof. unfold FailClosedAdmission. preserving. apply fail_closed_locked. Qed.

(** *** Recovery *)
Context `{OtherOperations, !OthersStep, Worktree}.
#[local] Instance mark_steps record actual : Preserves R (markTransitionApplied record actual).
Proof. unfold markTransitionApplied. preserving. Qed.
Lemma apply_call_steps op : Preserves R (applyModelCallAdmission identity op).
Proof.
  unfold applyModelCallAdmission, verifyModelCallWorkspace, commitAuthorityTransitionLocked. preserving.
  apply commit_steps. split; intros h; simpl; destruct (xo_Lease op).
  - by intros d h' d' [= <- <-].
  - done.
  - apply _.
  - apply _.
Qed.
Lemma table_steps kind c : executionOperationContractTable identity kind = Some c →
  (∀ f op, validate c = Some f → Preserves R (f op)) ∧ (∀ f op, apply c = Some f → Preserves R (f op)) ∧
  (∀ f op h, verifyCommitted c = Some f → Preserves R (f op h)) ∧
  (∀ f op h r, projectResult c = Some f → Preserves R (f op h r)).
Proof.
  unfold executionOperationContractTable. case_bool_decide.
  - intros [= <-]. cbn. split_and!; intros f op *; intros [= <-].
    + unfold validateModelCallAdmission, verifyModelCallRecords, buildTransitionRecord. preserving.
    + apply apply_call_steps.
    + unfold verifyCommittedModelCallAdmission, verifyModelCallWorkspace. preserving.
    + unfold projectExecutionAdmissionResult, AdmitMutation. preserving.
  - intros Hc. split_and!; intros; (apply head_steps_preserve; [done..|]).
    + by eapply others_validate.
    + by eapply others_apply.
    + by eapply others_verify.
    + by eapply others_project.
Qed.

Lemma bind_run {A B} (m : io A) (f : A → io B) d :
  R d (m d).2 → (∀ a d1, m d = (Ok a, d1) → R d1 (f a d1).2) → R d ((m ≫= f) d).2.
Proof.
  intros Hm Hf. unfold mbind, io_bind. destruct (m d) as [[a|e] d1]; [|done].
  etrans; [exact Hm|]. by apply Hf.
Qed.
Lemma call_steps {A B} (f : option (A → io B)) a :
  (∀ f', f = Some f' → Preserves R (f' a)) → Preserves R (call f a).
Proof. intros Hf. destruct f; [by apply Hf|apply _]. Qed.
Lemma call2_steps {A B C} (f : option (A → B → io C)) a b :
  (∀ f', f = Some f' → Preserves R (f' a b)) → Preserves R (call2 f a b).
Proof. intros Hf. destruct f; [by apply Hf|apply _]. Qed.
Lemma validated op c d d' : validateExecutionOperation identity op d = (Ok c, d') →
  executionOperationContractTable identity (tr_Kind (xo_Transition op)) = Some c.
Proof.
  unfold validateExecutionOperation. intros E. io_inv E.
  lazymatch goal with E : lookupExecutionOperationContract _ _ = _ |- _ =>
    unfold lookupExecutionOperationContract in E; by destruct (executionOperationContractTable _ _); simplify_eq end.
Qed.
Lemma validate_steps op : Preserves R (validateExecutionOperation identity op).
Proof.
  unfold validateExecutionOperation. apply preserves_bind; [done|apply _|intros digest].
  case_match; [apply _|]. intros d. apply bind_run; [done|].
  intros c d1 [= Hc <-]. unfold lookupExecutionOperationContract in Hc.
  destruct (executionOperationContractTable _ _) as [c'|] eqn:Ht; [|done]. injection Hc as ->.
  apply table_steps in Ht as (Hv & _). generalize d. 
  change (Preserves R (_ ← lift (validateExecutionOperationContract c);
    _ ← lift (validateExecutionOperationEffects op (effects c)); _ ← call (validate c) op; mret c)).
  preserving. apply call_steps. eauto.
Qed.
Lemma recover_locked_steps op : Preserves R (recoverExecutionOperationLocked identity op).
Proof.
  intros d. unfold recoverExecutionOperationLocked.
  apply bind_run; [apply validate_steps|]. intros c d1 Hc%validated.
  apply table_steps in Hc as (_ & Ha & Hv & Hp).
  assert (∀ h, Preserves R (executionOperationResult op h c)) as Hr.
  { intros h. unfold executionOperationResult. cbv zeta. destruct (projectResult c); [by apply Hp|apply _]. }
  assert (∀ h, Preserves R (call2 (verifyCommitted c) op h)) as Hv' by (intros; apply call2_steps; eauto).
  assert (Preserves R (call (apply c) op)) as Ha' by (apply call_steps; eauto).
  assert (∀ h, Preserves R (finalizeAuthorityTransitionLocked identity h)) as Hf by apply finalize_steps.
  assert (∀ h, Preserves R (validateTerminalRecoverySource op h)) as Ht.
  { intros. apply head_steps_preserve; [done..|]. apply others_terminal. }
  assert (∀ h p, Preserves R (finishPublicationAbort op h p)) as Hab.
  { intros. apply head_steps_preserve; [done..|]. apply others_abort. }
  generalize d1. lazymatch goal with |- ∀ d, R d (?m d).2 => change (Preserves R m) end.
  unfold loadExecutionRecoveryAuthority, finalizeCommittedExecution, reconcileCommittedExecutionPhase,
    reconcileFinalizedExecutionPhase. preserving.
Qed.
Lemma recover_steps id : Preserves R (RecoverExecutionOperation identity id).
Proof. unfold RecoverExecutionOperation, LoadTransition. preserving. apply recover_locked_steps. Qed.
End Relation.

(** ** Binding a model call *)
Section Bind.
Context `{OtherOperations, !OthersStep, Worktree}.
Lemma mkdir_head p d : same_head d (MkdirAll p d).2.
Proof. unfold MkdirAll, same_head. by destruct (_ || _). Qed.
#[local] Instance mkdir_advances p : Preserves advances (MkdirAll p).
Proof. intros d. apply (watches (R:=advances)), mkdir_head. Qed.
Lemma bind_advances a : Preserves advances (BindModelCall identity a).
Proof.
  unfold BindModelCall, planModelCallAdmission, validateTransitionSource, prepareModelCallTarget,
    prepareContinuationLease, buildTransitionRecord, prepareExecutionOperation, persistPreparedTransition, AdmitMutation.
  preserving. all: try (apply (preserves_put advances); unfold executionOperationPath, transitionPath, headPath; discriminate). all: try apply (recover_locked_steps _ head_step_advances).
Qed.
Lemma bind_remains a : Preserves remains_closed (BindModelCall identity a).
Proof.
  intros d Hc. unfold BindModelCall, under_lock. case_bool_decide; [done|].
  destruct (closed_rejects identity d (admission_authority a) (ad_Workspace a) (ad_Snapshot a) Hc) as [e E].
  assert (∃ e, validateTransitionSource identity {|
        tn_Kind := ""; tn_ExpectedGeneration := hd_ControllerGeneration (ad_Head a);
        tn_Source := a; tn_Target := noAuthority; tn_Effects := [] |} d = (Err e, d)) as [e' E'].
  { unfold validateTransitionSource. cbn -[closed]. case_match; [by eexists|].
    exists e. unfold AdmitMutation. by rewrite (io_bind_fail _ _ _ _ _ E). }
  assert (∃ e, planModelCallAdmission identity a d = (Err e, d)) as [e2 E2].
  { unfold planModelCallAdmission. case_match; [by eexists|].
    exists e'. by rewrite (io_bind_fail _ _ _ _ _ E'). }
  by rewrite (io_bind_fail _ _ _ _ _ E2).
Qed.
End Bind.

(** ** What holds of every operation *)
Section Every.
Context `{OtherOperations, !OthersStep}.
Lemma operation_step_preserves (R : relation Disk) `{!PreOrder R, !WatchesHead R} d d' :
  (∀ d d', head_step d d' → R d d') → (∀ d d', control_step identity d d' → R d d') →
  (∀ tree a, Preserves R (BindModelCall (H0:=tree) identity a)) → operation_step d d' → R d d'.
Proof.
  intros HR Hc Hb. destruct 1.
  - by apply Hc.
  - exact (fail_closed_steps R HR _ _ _ d).
  - exact (fail_closed_locked R HR _ _ _ _ _ _ d).
  - exact (Hb _ _ d).
  - exact (recover_steps R HR _ d).
  - by exact (commit_steps R HR _ _ _ _ _ d).
  - exact (finalize_steps R HR _ d).
  - by apply HR.
Qed.
Lemma operations_advance d d' : rtc operation_step d d' → advances d d'.
Proof.
  induction 1 as [|d d1 d2 Hd _ IH]; [done|]. etrans; [|exact IH].
  eapply (operation_step_preserves advances); [exact head_step_advances| |intros; apply bind_advances|exact Hd].
  intros x y. by apply (control_step_preserves identity advances).
Qed.
Lemma operations_remain_closed d d' : rtc operation_step d d' → remains_closed d d'.
Proof.
  induction 1 as [|d d1 d2 Hd _ IH]; [done|]. etrans; [|exact IH].
  eapply (operation_step_preserves remains_closed);
    [exact head_step_remains| |intros; apply bind_remains|exact Hd].
  intros x y Hxy Hc. apply (watches (R:=remains_closed) x); [|done].
  by apply (control_step_preserves identity stays_closed).
Qed.

(** ** The theorems *)

(** C7: an admission is good for one mutation.  Once recording it has succeeded,
    it is refused in every later state of the controller: after any sequence of
    the modelled operations, and of any others as long as they write the head
    through [writeHeadCAS] and leave a closed one closed. *)
Theorem RecordAdmittedMutation_once a command outcome after d a' d' d'' command' outcome' after' :
  RecordAdmittedMutation identity a command outcome after d = (Ok a', d') →
  rtc operation_step d' d'' →
  ∃ e, (RecordAdmittedMutation identity a command' outcome' after' d'').1 = Err e.
Proof.
  unfold RecordAdmittedMutation, under_lock. case_bool_decide; [done|].
  intros (_ & Hf & Hg)%recordMutationLocked_generation Hs%operations_advance.
  case_bool_decide; [by eexists|].
  destruct (recordMutationLocked identity a command' outcome' after' d'') as [[b|e] d3] eqn:E; [|by eexists].
  apply recordMutationLocked_generation in E as ((h & Hh & Hgh) & _). exfalso.
  destruct Hs as [Hs|(h1 & h2 & E1 & E2 & Hlt)].
  - rewrite Hs, Hf in Hh. injection Hh as <-. lia.
  - rewrite Hf in E1. rewrite E2 in Hh. injection E1 as <-. injection Hh as ->. lia.
Qed.

(** C28: a change of the live workspace that no mutation accounts for closes the
    controller, and it remains closed: whatever operations follow - the modelled
    ones, and any others as long as a head they write keeps the status of the
    one they replace - the head on the disk is a failed-closed one, and no caller is
    admitted any more.  The operations of the mutation control do not change the
    head at all. *)
Theorem AdmitMutationOrFailClosed_closes authority ws snapshot d h lease value :
  LoadHead identity d = (Ok h, d) → hd_Status h = ControllerStatusActive →
  validateMutationAuthorityClaim h authority = Ok () →
  loadLease (hd_LiveLeaseID h) d = (Ok lease, d) → ls_WorkspaceID lease = wi_ID ws →
  (ws_Head snapshot ≠ ls_ExpectedBaseOID lease ∨ ws_ID snapshot ≠ ls_ExpectedWorkspaceSnapshotID lease) →
  files d !! qualityMutationIntentPath = None →
  unreadable d = ∅ → unwritable d = ∅ → power d = None → [] ∈ dirs d → ["failures"] ∈ dirs d →
  random d (draws d) = Some value → (hd_ControllerGeneration h + 1 < 2 ^ 64)%N →
  let (r, d') := AdmitMutationOrFailClosed identity authority ws snapshot d in
  is_ok r = false ∧ closed d' ∧
  (∀ d'', rtc operation_step d' d'' →
    closed d'' ∧
    ∀ authority' ws' snapshot', ∃ e, AdmitMutation identity authority' ws' snapshot' d'' = (Err e, d'')) ∧
  ∀ d'', rtc (control_step identity) d' d'' → files d'' !! headPath = files d' !! headPath.
Proof.
  intros HL Hs Hc Hl Hws Hsn Hq Hu Hw Hp Hd Hd' Hr Hg.
  destruct (other_snapshot_rejected identity d h lease authority ws snapshot HL Hl Hsn) as [e He].
  unfold AdmitMutationOrFailClosed. apply attempt_Ok in He.
  rewrite (io_bind_step _ _ _ _ _ He). rewrite bool_decide_false by (rewrite Hw; set_solver).
  rewrite (io_bind_step _ _ _ _ _ (proj2 (attempt_Ok _ _ _ _) (no_intent_settles identity d _ _ _ Hu Hq))).
  destruct (unattributed_closes identity authority ws snapshot d h lease value e) as (e' & d' & E & Hcl); try done.
  rewrite E. split; [done|]. split; [done|]. split.
  - intros d'' Hst. assert (closed d'') as Hcl' by by apply (operations_remain_closed d').
    split; [done|]. intros. by apply closed_rejects.
  - intros d'' Hst. by apply (control_steps_stay_closed identity d').
Qed.
End Every.
End Head.

(** ** A concrete controller *)
Definition no_others : OtherOperations := {|
  other_contract _ := None;
  finishPublicationAbort _ _ _ := fail (err "aborted");
  validateTerminalRecoverySource _ _ := mret ();
  marshal_operation op := Ok (tr_TransitionID (xo_Transition op)) |}.
Definition head_worktree : Worktree := {|
  ResolveWorkspaceIdentity _ _ := Ok demo_workspace;
  CaptureWorkspaceSnapshot _ := Ok (demo_tree "s2") |}.
#[local] Instance no_others_step : OthersStep (H0:=no_others) demo_identity.
Proof. split; try done; intros; apply _. Qed.

(** The admission a mutation was recorded with is refused, also after a model call
    was bound to the new one. *)
Lemma RecordAdmittedMutation_once_witness :
  match demo_record with
  | (Ok a', d') =>
      ∃ e, (RecordAdmittedMutation (H:=demo_host) demo_identity demo_admission "edit" "ok" (demo_tree "s3")
              (BindModelCall (H:=demo_host) (H0:=head_worktree) (H1:=no_others) demo_identity a' d').2).1 = Err e
  | _ => False
  end.
Proof.
  assert (is_ok demo_record.1 = true) as Hok by (vm_compute; reflexivity).
  destruct demo_record as [[a'|e] d'] eqn:E; [|discriminate Hok].
  apply (RecordAdmittedMutation_once (H:=demo_host) demo_identity (H0:=no_others) demo_admission "edit" "ok"
    (demo_tree "s2") demo_disk a' d' _ "edit" "ok" (demo_tree "s3") E).
  eapply rtc_l; [apply (operation_bind _ _ head_worktree)|apply rtc_refl].
Defined.

Lemma AdmitMutationOrFailClosed_closes_witness :
  is_ok (AdmitMutationOrFailClosed (H:=demo_host) demo_identity
           (admission_authority demo_admission) demo_workspace (demo_tree "s9") demo_disk).1 = false.
Proof.
  destruct demo_loads as (HL & Hl & Hc). destruct demo_dirs as (Hd & Hd' & Hq).
  assert (ws_ID (demo_tree "s9") ≠ ls_ExpectedWorkspaceSnapshotID demo_lease) as Hs by discriminate.
  pose proof (AdmitMutationOrFailClosed_closes (H:=demo_host) demo_identity (H0:=no_others)
    (admission_authority demo_admission) demo_workspace (demo_tree "s9") demo_disk demo_head demo_lease
    (λ i, Ascii.ascii_of_nat i) HL eq_refl Hc Hl eq_refl (or_intror Hs) Hq eq_refl eq_refl eq_refl Hd
    Hd' eq_refl eq_refl) as X.
  destruct (AdmitMutationOrFailClosed (H:=demo_host) demo_identity
    (admission_authority demo_admission) demo_workspace (demo_tree "s9") demo_disk) as [r d'].
  exact (proj1 X).
Defined.
