(* ===== verification/ModelCallRecovery.v ===== *)
(** * Crash safety of the admission of model calls

    [BindModelCall] moves the live authority from a quiescent lease to one that
    names the call, through the four steps of a transition.  However often the
    machine stops between any two changes of the disk, the journal is in one of
    the stages below, no lease but the one of its stage is admitted, and
    recovering the operation in a healthy environment ends in the stage
    [Finalized] with the target lease admitted. *)
From S2P Require Import Prelude GoStrings ControllerTypes ControllerStore CrashLogic MutationControl.
From S2P Require Import Transition ExecutionOperation.

(** Building a transition record takes the time. *)
Lemma crashes_record good I P intent id :
  crashes good I P Now (λ _, P) →
  crashes good I P (buildTransitionRecord intent id)
    (λ r d, ∃ now, r = transitionRecord intent id now ∧ P d).
Proof.
  intros Hn. eapply crashes_bind; [exact Hn|]. intros now. apply crashes_ret. intros d Hd. by exists now.
Qed.

Section Recovery.
Context `{Host, OtherOperations} (identity : RepositoryIdentity).
(** The admission the call starts from, the lease it is bound to, the
    transition and its creation time. *)
Context (source : Admission) (lease : ExecutionLease) (id digest : string) (created : Time).
(** The documents outside the head and the phase of the transition. *)
Context (base : gmap (list string) Doc) (D : gset (list string)).

Definition call_record : TransitionRecord :=
  (transitionRecord (modelCallIntent source (modelCallTarget source lease)) id created)
    {{ tr_OperationDigest := digest }}.
Definition call_operation : ExecutionOperation :=
  modelCallOperation call_record source (Some (ad_Workspace source)) (Some lease).

(** ** The stages *)
Inductive stage := Prepared | Committed | Finalized.
Definition stage_head (K : stage) : RepositoryControllerHead :=
  let g := hd_ControllerGeneration (ad_Head source) in
  match K with
  | Prepared => (ad_Head source) {{ hd_ControllerGeneration := (g + 1)%N;
                                    hd_PendingTransitionID := id }}
  | Committed => (ad_Head source) {{ hd_ControllerGeneration := (g + 2)%N;
                                     hd_PendingTransitionID := id;
                                     hd_LiveLeaseID := ls_LeaseID lease }}
  | Finalized => (ad_Head source) {{ hd_ControllerGeneration := (g + 3)%N;
                                     hd_LiveLeaseID := ls_LeaseID lease }}
  end.
(** The phases the transition can be left in. *)
Definition stage_phases (K : stage) : list TransitionPhase :=
  match K with
  | Prepared => [TransitionPhasePrepared; TransitionPhaseApplied]
  | Committed => [TransitionPhaseApplied; TransitionPhaseCommitted; TransitionPhaseFinalizing]
  | Finalized => [TransitionPhaseFinalizing; TransitionPhaseFinalized]
  end.

Definition phase_in (phases : list TransitionPhase) (ts : TransitionState) : Prop :=
  ts_SchemaVersion ts = controllerSchemaVersion ∧ ts_TransitionID ts = id ∧ ts_Phase ts ∈ phases.
Definition at_stage (K : stage) (ts : TransitionState) (d : Disk) : Prop :=
  files d = <[transitionStatePath id := DocTransitionState ts]>
              (<[headPath := DocHead (stage_head K)]> base) ∧ dirs d = D.
Definition in_stage (K : stage) (phases : list TransitionPhase) (d : Disk) : Prop :=
  ∃ ts, phase_in phases ts ∧ at_stage K ts d.
(** Wherever an interruption leaves the journal. *)
Definition journal (d : Disk) : Prop := ∃ K, in_stage K (stage_phases K) d.

(** What preparing the operation established. *)
Record journalled : Prop := {
  j_id : id ≠ "" ∧ Base id = id;
  j_digest : digest ≠ "" ∧ executionOperationDigest call_operation = Ok digest;
  j_quiet : ls_InFlightCallID (ad_Lease source) = "";
  j_live : validateLiveAuthority (ad_Head source) (at_SemanticTaskRef (ad_Attempt source))
             (ad_Workspace source) (ad_Snapshot source) (ad_Attempt source) (ad_Lease source) = Ok ();
  j_task : hd_ExecutionTaskRef (ad_Head source) = Some (at_SemanticTaskRef (ad_Attempt source));
  j_lease : validateModelCallLeaseBinding call_operation lease = Ok ();
  j_bound : (hd_ControllerGeneration (ad_Head source) + 3 < 2 ^ 64)%N;
  j_head : head_ok identity (ad_Head source) ∧ hd_Status (ad_Head source) = ControllerStatusActive ∧
           hd_PendingTransitionID (ad_Head source) = "" ∧ hd_ProjectSnapshotID (ad_Head source) ≠ "" ∧
           hd_LiveAttemptID (ad_Head source) ≠ "";
  j_records : at_SchemaVersion (ad_Attempt source) = controllerSchemaVersion ∧
              ls_SchemaVersion (ad_Lease source) = controllerSchemaVersion;
  j_operation : base !! executionOperationPath id = Some (DocOperation call_operation);
  j_transition : base !! transitionPath id = Some (DocTransition call_record);
  j_attempt : base !! attemptPath (at_AttemptID (ad_Attempt source)) =
                Some (DocAttempt (ad_Attempt source));
  j_source : base !! leasePath (ls_LeaseID (ad_Lease source)) = Some (DocLease (ad_Lease source));
  j_target : base !! leasePath (ls_LeaseID lease) = Some (DocLease lease);
  j_project : ∃ request d, executionTaskAuthority identity (ad_Head source)
                (at_SemanticTaskRef (ad_Attempt source)) d = (Ok request, d) ∧
                files d !! projectSnapshotPath (hd_ProjectSnapshotID (ad_Head source)) =
                  base !! projectSnapshotPath (hd_ProjectSnapshotID (ad_Head source));
  j_dirs : [] ∈ D ∧ ["transition-state"] ∈ D;
}.

(** The working tree is the one the admission was given for. *)
Definition tree_matches `{Worktree} : Prop :=
  ResolveWorkspaceIdentity (wi_Root (ad_Workspace source)) identity = Ok (ad_Workspace source) ∧
  CaptureWorkspaceSnapshot (wi_Root (ad_Workspace source)) = Ok (ad_Snapshot source).

(** The admission a finished recovery returns. *)
Definition final_admission : Admission := {|
  ad_Head := stage_head Finalized; ad_Attempt := ad_Attempt source; ad_Lease := lease;
  ad_Workspace := ad_Workspace source; ad_Snapshot := ad_Snapshot source |}.

(** ** The stages' documents *)
#[local] Instance at_stage_of_store K ts : OfStore (at_stage K ts).
Proof. by intros d d' [E1 E2] [H1 H2]; split; rewrite ?E1, ?E2. Qed.
#[local] Instance in_stage_of_store K phases : OfStore (in_stage K phases).
Proof. intros d d' Hs (ts & ? & Hat). exists ts. split; [done|]. by apply (of_store d). Qed.
Lemma journal_of_store d d' : same_store d d' → journal d → journal d'.
Proof. intros Hs [K Hk]. exists K. by apply (of_store d). Qed.

Lemma at_stage_base K ts d p :
  at_stage K ts d → p ≠ headPath → p ≠ transitionStatePath id → files d !! p = base !! p.
Proof. intros [Hf _] Hp Hs. by rewrite Hf, !lookup_insert_ne. Qed.
Lemma at_stage_head K ts d : at_stage K ts d → files d !! headPath = Some (DocHead (stage_head K)).
Proof. intros [Hf _]. by rewrite Hf, lookup_insert_ne, lookup_insert_eq. Qed.
Lemma at_stage_state K ts d :
  at_stage K ts d → files d !! transitionStatePath id = Some (DocTransitionState ts).
Proof. intros [Hf _]. by rewrite Hf, lookup_insert_eq. Qed.

Lemma phase_in_weaken phases phases' ts :
  phase_in phases ts → bool_decide (Forall (λ p, p ∈ phases') phases) = true → phase_in phases' ts.
Proof.
  intros (? & ? & Hin) Hs%bool_decide_eq_true. split_and!; [done..|].
  by eapply list.Forall_forall in Hs.
Qed.
Lemma at_stage_journal K ts : phase_in (stage_phases K) ts → ∀ d, at_stage K ts d → journal d.
Proof. intros Hp d Hd. exists K, ts. done. Qed.

Section Steps.
Context (J : journalled).

Lemma generations :
  tr_PreparedGeneration call_record = hd_ControllerGeneration (stage_head Prepared) ∧
  tr_CommittedGeneration call_record = hd_ControllerGeneration (stage_head Committed) ∧
  tr_TargetGeneration call_record = hd_ControllerGeneration (stage_head Finalized).
Proof.
  pose proof (j_bound J) as Hb. unfold u64. simpl. unfold u64. rewrite !N.mod_small by lia. done.
Qed.
Lemma stage_head_ok K : head_ok identity (stage_head K) ∧ hd_Status (stage_head K) = ControllerStatusActive.
Proof. destruct (j_head J) as (? & ? & _). by destruct K. Qed.

Section Run.
Context `{Worktree}.
Notation triple := (crashes tree_matches journal).
Notation value := (yields tree_matches journal).

(** *** Reading *)
Lemma LoadHead_stage K ts :
  phase_in (stage_phases K) ts → value (at_stage K ts) (LoadHead identity) (stage_head K).
Proof.
  intros Hp. destruct (stage_head_ok K). apply LoadHead_yields; [by apply at_stage_journal|done|by left|].
  intros d. apply at_stage_head.
Qed.
Lemma loadTransitionState_stage K ts :
  phase_in (stage_phases K) ts → value (at_stage K ts) (loadTransitionState id) ts.
Proof.
  intros Hp. pose proof Hp as (? & ? & _). unfold loadTransitionState.
  yield ltac:(apply yields_readJSON; [by apply at_stage_journal|by intros d; apply at_stage_state]).
  guard_pass. apply yields_ret.
Qed.
Lemma readJSON_base {A} `{Document A} K ts p (a : A) :
  phase_in (stage_phases K) ts → p ≠ headPath → p ≠ transitionStatePath id →
  base !! p = Some (to_doc a) → value (at_stage K ts) (readJSON p) a.
Proof.
  intros Hp ?? Hb. apply yields_readJSON; [by apply at_stage_journal|].
  intros d Hd. by rewrite (at_stage_base K ts).
Qed.
Lemma loadAttempt_stage K ts :
  phase_in (stage_phases K) ts →
  value (at_stage K ts) (loadAttempt (at_AttemptID (ad_Attempt source))) (ad_Attempt source).
Proof.
  intros Hp. apply loadAttempt_yields; [by apply at_stage_journal|apply (j_records J)|].
  intros d Hd. rewrite (at_stage_base K ts) by done. apply (j_attempt J).
Qed.
Lemma loadLease_base K ts l :
  phase_in (stage_phases K) ts → ls_SchemaVersion l = controllerSchemaVersion →
  base !! leasePath (ls_LeaseID l) = Some (DocLease l) →
  value (at_stage K ts) (loadLease (ls_LeaseID l)) l.
Proof.
  intros Hp Hs Hb. apply loadLease_yields; [by apply at_stage_journal|done|].
  intros d Hd. by rewrite (at_stage_base K ts).
Qed.

(** *** Writing *)
Lemma writeTransitionState_stage K ts ts' :
  phase_in (stage_phases K) ts → ts_TransitionID ts' = id →
  triple (at_stage K ts) (writeTransitionState ts') (λ _, at_stage K ts').
Proof.
  intros Hp Hid. unfold writeTransitionState. rewrite Hid. apply crashes_write.
  - by apply at_stage_journal.
  - intros d [_ HD] _. rewrite HD. apply (j_dirs J).
  - intros d [Hf HD] _. split; [|done]. by rewrite files_put, Hf, insert_insert_eq.
Qed.
Lemma writeHeadCAS_stage K K' ts :
  phase_in (stage_phases K) ts →
  (hd_ControllerGeneration (stage_head K) < hd_ControllerGeneration (stage_head K'))%N →
  triple (at_stage K ts) (writeHeadCAS identity (hd_ControllerGeneration (stage_head K)) (stage_head K'))
    (λ _, at_stage K' ts).
Proof.
  intros Hp Hlt. unfold writeHeadCAS. yield ltac:(by apply LoadHead_stage).
  destruct (stage_head_ok K') as [[H1' H2'] _].
  guard_pass. apply yields_guard.
  { rewrite !(bool_decide_false (_ ≠ _)) by tauto. simpl. apply bool_decide_eq_false. lia. }
  apply crashes_write.
  - by apply at_stage_journal.
  - intros d [_ HD] _. rewrite HD. apply (j_dirs J).
  - intros d [Hf HD] _. split; [|done]. rewrite files_put, Hf. apply map_eq. intros p.
    destruct (decide (p = headPath)) as [->|]; [by simplify_map_eq|].
    rewrite lookup_insert_ne by done. destruct (decide (p = transitionStatePath id)) as [->|];
      by simplify_map_eq.
Qed.

(** *** The transition's steps *)
Lemma phase_guard (p a b : TransitionPhase) :
  p ∈ [a; b] → bool_decide (p ≠ a) && bool_decide (p ≠ b) = false.
Proof.
  intros Hp. apply andb_false_iff. rewrite !bool_decide_eq_false. set_unfold in Hp. naive_solver.
Qed.
Ltac among :=
  match goal with
  | Hp : phase_in _ _ |- _ => solve [eapply phase_in_weaken; [exact Hp|reflexivity]]
  end.
Lemma state_in K ts phase phases :
  ts_SchemaVersion ts = controllerSchemaVersion → ts_TransitionID ts = id → ts_Phase ts = phase →
  phase ∈ phases → ∀ d, at_stage K ts d → in_stage K phases d.
Proof. intros ???? d Hd. exists ts. by split; [split_and!; congruence|]. Qed.

Lemma markTransitionApplied_stage ts :
  phase_in (stage_phases Prepared) ts →
  triple (at_stage Prepared ts) (markTransitionApplied call_record ∅)
    (λ _, in_stage Prepared [TransitionPhaseApplied]).
Proof.
  intros Hp. pose proof Hp as (Hs & Hi & Hph). unfold markTransitionApplied.
  yield ltac:(by apply loadTransitionState_stage).
  apply yields_guard; [by apply phase_guard|].
  eapply crashes_bind; [apply crashes_Now, _|]. intros now.
  eapply crashes_post; [by eapply writeTransitionState_stage|]. intros u.
  by apply (state_in _ _ TransitionPhaseApplied); [..|left].
Qed.

Lemma commitAuthorityTransitionLocked_stage ts :
  phase_in [TransitionPhaseApplied] ts →
  triple (at_stage Prepared ts)
    (commitAuthorityTransitionLocked identity call_record ∅ false
       (Some (λ next, match xo_Lease call_operation with
                      | Some lease => mret (next {{ hd_LiveLeaseID := ls_LeaseID lease }})
                      | None => fail nil_call end)))
    (λ _, in_stage Committed [TransitionPhaseCommitted]).
Proof.
  intros Hp. destruct generations as (G1 & G2 & _).
  assert (phase_in (stage_phases Prepared) ts) as HpP by among.
  assert (phase_in (stage_phases Committed) ts) as HpC by among.
  unfold commitAuthorityTransitionLocked, commitAuthorityTransitionCoreLocked. rewrite G1, G2.
  yield ltac:(by apply LoadHead_stage).
  guard_pass. guard_pass.
  eapply yields_bind; [apply yields_ret|].
  eapply crashes_bind; [apply (writeHeadCAS_stage Prepared Committed); [done|simpl; lia]|]. intros [].
  yield ltac:(by apply loadTransitionState_stage).
  eapply crashes_bind; [apply crashes_Now, _|]. intros now.
  eapply crashes_bind; [by eapply writeTransitionState_stage|]. intros [].
  apply crashes_ret. by apply (state_in _ _ TransitionPhaseCommitted); [..|left].
Qed.

Lemma finalizeAuthorityTransitionLocked_stage ts :
  phase_in [TransitionPhaseCommitted; TransitionPhaseFinalizing] ts →
  triple (at_stage Committed ts) (finalizeAuthorityTransitionLocked identity call_record)
    (λ head d, head = stage_head Finalized ∧ in_stage Finalized [TransitionPhaseFinalized] d).
Proof.
  intros Hp. pose proof Hp as (Hs & Hi & Hph). destruct generations as (_ & G2 & G3).
  destruct (j_head J) as (_ & _ & Hpend & _).
  assert (phase_in (stage_phases Committed) ts) as HpC by among.
  unfold finalizeAuthorityTransitionLocked. rewrite G2, G3.
  yield ltac:(by apply LoadHead_stage).
  guard_pass. yield ltac:(by apply loadTransitionState_stage).
  apply yields_guard; [by apply phase_guard|].
  eapply crashes_bind; [apply crashes_Now, _|]. intros now. cbv zeta.
  set (ts' := ts {{ ts_Phase := TransitionPhaseFinalizing; ts_UpdatedAt := now }}).
  eapply crashes_bind; [by eapply (writeTransitionState_stage Committed ts ts')|]. intros [].
  assert (phase_in [TransitionPhaseFinalizing] ts') as Hp' by (split_and!; [done..|by left]).
  replace (_ {{ hd_PendingTransitionID := "" }}) with (stage_head Finalized)
    by (simpl; revert Hpend; generalize (ad_Head source); intros []; simpl; by intros ->).
  eapply crashes_bind.
  { apply (writeHeadCAS_stage Committed Finalized); [among|simpl; lia]. }
  intros []. eapply crashes_bind; [apply crashes_Now, _|]. intros now'.
  eapply crashes_bind.
  { eapply (writeTransitionState_stage Finalized); [among|done]. }
  intros []. apply crashes_ret. intros d Hd. split; [done|].
  by eapply (state_in _ _ TransitionPhaseFinalized), Hd; [..|left].
Qed.

(** *** The phase left behind *)
Lemma reconcileCommittedExecutionPhase_stage ts :
  phase_in (stage_phases Committed) ts →
  triple (at_stage Committed ts) (reconcileCommittedExecutionPhase call_record)
    (λ _, in_stage Committed [TransitionPhaseCommitted; TransitionPhaseFinalizing]).
Proof.
  intros Hp. pose proof Hp as (Hs & Hi & Hph). unfold reconcileCommittedExecutionPhase.
  yield ltac:(by apply loadTransitionState_stage).
  destruct (_ || _) eqn:E.
  - apply crashes_ret. intros d Hd. exists ts. split; [|done]. split_and!; [done..|].
    apply orb_true_iff in E as [E|E]; apply bool_decide_eq_true in E; rewrite E; set_solver.
  - bool_simp. apply yields_guard.
    { apply phase_guard. cbn [stage_phases] in Hph. set_unfold. naive_solver. }
    eapply crashes_bind; [apply crashes_Now, _|]. intros now.
    eapply crashes_post; [by eapply writeTransitionState_stage|]. intros [].
    by apply (state_in _ _ TransitionPhaseCommitted); [..|left].
Qed.
Lemma reconcileFinalizedExecutionPhase_stage ts :
  phase_in (stage_phases Finalized) ts →
  triple (at_stage Finalized ts) (reconcileFinalizedExecutionPhase call_record)
    (λ _, in_stage Finalized [TransitionPhaseFinalized]).
Proof.
  intros Hp. pose proof Hp as (Hs & Hi & Hph). unfold reconcileFinalizedExecutionPhase.
  yield ltac:(by apply loadTransitionState_stage).
  case_bool_decide as E.
  - apply crashes_ret. by apply (state_in _ _ TransitionPhaseFinalized); [..|left].
  - apply yields_guard.
    { apply phase_guard. cbn [stage_phases] in Hph. set_unfold. naive_solver. }
    eapply crashes_bind; [apply crashes_Now, _|]. intros now.
    eapply crashes_post; [by eapply writeTransitionState_stage|]. intros [].
    by apply (state_in _ _ TransitionPhaseFinalized); [..|left].
Qed.

(** *** The contract of model calls *)
Definition call_contract : executionOperationContract := {|
  effects := executionOperationEffectsNone;
  validate := Some validateModelCallAdmission;
  apply := Some (applyModelCallAdmission identity);
  verifyCommitted := Some (verifyCommittedModelCallAdmission identity);
  projectResult := Some (projectExecutionAdmissionResult identity) |}.

Lemma target_schema : ls_SchemaVersion lease = controllerSchemaVersion.
Proof.
  pose proof (j_lease J) as E. unfold validateModelCallLeaseBinding in E. result_inv E. bool_simp.
  lazymatch goal with E : _ = lease |- _ => rewrite <- E end. apply (j_records J).
Qed.

Lemma validateModelCallAdmission_stage K ts :
  phase_in (stage_phases K) ts →
  triple (at_stage K ts) (validateModelCallAdmission call_operation) (λ _, at_stage K ts).
Proof.
  intros Hp. unfold validateModelCallAdmission. cbn [call_operation modelCallOperation xo_Lease xo_Source].
  apply yields_guard.
  { rewrite (j_quiet J). simpl. by rewrite !bool_decide_false by tauto. }
  guard_pass. yield ltac:(apply yields_lift, (j_live J)). yield ltac:(apply yields_lift, (j_lease J)).
  eapply crashes_bind; [apply crashes_record, crashes_Now, _|].
  intros r. apply crashes_exists. intros now. apply crashes_pure. intros ->.
  guard_pass. unfold verifyModelCallRecords. cbn [xo_Source call_operation modelCallOperation].
  yield ltac:(by apply loadAttempt_stage).
  yield ltac:(apply loadLease_base; [done|apply (j_records J)|apply (j_source J)]).
  yield ltac:(apply loadLease_base; [done|apply target_schema|apply (j_target J)]).
  guard_pass. by apply crashes_ret.
Qed.

Lemma validateExecutionOperation_stage K ts :
  phase_in (stage_phases K) ts →
  triple (at_stage K ts) (validateExecutionOperation identity call_operation)
    (λ contract d, contract = call_contract ∧ at_stage K ts d).
Proof.
  intros Hp. destruct (j_digest J) as [Hd1 Hd2]. unfold validateExecutionOperation.
  yield ltac:(by apply yields_lift). apply yields_guard.
  { simpl. by rewrite !bool_decide_false by tauto. }
  yield ltac:(by apply (yields_lift _ _ _ _ call_contract)).
  yield ltac:(by apply (yields_lift _ _ _ _ ())). yield ltac:(by apply (yields_lift _ _ _ _ ())).
  eapply crashes_bind; [by apply validateModelCallAdmission_stage|]. intros [].
  by apply crashes_ret.
Qed.

(** Passing the check of the working tree shows that it matches. *)
Lemma verifyModelCallWorkspace_stage K ts :
  phase_in (stage_phases K) ts →
  triple (at_stage K ts) (verifyModelCallWorkspace identity call_operation)
    (λ _ d, tree_matches ∧ at_stage K ts d).
Proof.
  intros Hp d Hd. pose proof (at_stage_journal _ _ Hp _ Hd) as Hj.
  unfold verifyModelCallWorkspace, tree_matches, mbind, io_bind, lift. simpl.
  destruct (ResolveWorkspaceIdentity _ _) as [w|e]; simpl; [|split; [done|split; [done|naive_solver]]].
  destruct (CaptureWorkspaceSnapshot (wi_Root w)) as [sn|e] eqn:E; simpl.
  - destruct (_ || _) eqn:Ec; simpl.
    + split; [done|]. split; [done|]. intros [[[= ->] E'] _]. rewrite E in E'. injection E' as ->.
      by rewrite !bool_decide_false in Ec by tauto.
    + bool_simp. subst. naive_solver.
  - split; [done|]. split; [done|]. intros [[[= ->] E'] _]. by rewrite E in E'.
Qed.

Lemma applyModelCallAdmission_stage ts :
  phase_in (stage_phases Prepared) ts →
  triple (at_stage Prepared ts) (applyModelCallAdmission identity call_operation)
    (λ _ d, tree_matches ∧ in_stage Committed [TransitionPhaseCommitted] d).
Proof.
  intros Hp. destruct generations as (G1 & _ & _). unfold applyModelCallAdmission.
  cbn [xo_Transition call_operation modelCallOperation xo_Source]. rewrite G1.
  yield ltac:(by apply LoadHead_stage). guard_pass.
  eapply crashes_bind; [by apply verifyModelCallWorkspace_stage|]. intros [].
  apply crashes_pure. intros Ht.
  eapply crashes_bind; [by apply markTransitionApplied_stage|]. intros [].
  apply crashes_exists. intros ts'. apply crashes_pure. intros Hp'.
  eapply crashes_bind; [by apply commitAuthorityTransitionLocked_stage|]. intros h.
  by apply crashes_ret.
Qed.

Lemma verifyCommittedModelCallAdmission_stage K ts :
  phase_in (stage_phases K) ts → K ≠ Prepared →
  triple (at_stage K ts) (verifyCommittedModelCallAdmission identity call_operation (stage_head K))
    (λ _ d, tree_matches ∧ at_stage K ts d).
Proof.
  intros Hp HK. destruct generations as (_ & G2 & _). unfold verifyCommittedModelCallAdmission.
  cbn [xo_Lease call_operation modelCallOperation xo_Transition xo_Source]. rewrite G2.
  apply yields_guard; [|by apply verifyModelCallWorkspace_stage].
  apply bool_decide_eq_false. intros []. destruct K; [done|..]; simpl.
  - by rewrite bool_decide_true.
  - by rewrite bool_decide_false by lia.
Qed.

(** *** The result *)
Definition final_authority : MutationAuthority := {|
  ma_ControllerGeneration := hd_ControllerGeneration (stage_head Finalized);
  ma_AttemptID := at_AttemptID (ad_Attempt source); ma_LeaseID := ls_LeaseID lease;
  ma_SemanticTaskRef := at_SemanticTaskRef (ad_Attempt source) |}.
Lemma live_facts :
  let a := ad_Attempt source in let l := ad_Lease source in let h := ad_Head source in
  at_AttemptState a = AttemptStateLive ∧ at_AttemptID a = ls_AttemptID l ∧
  at_AttemptID a = hd_LiveAttemptID h ∧ ls_SemanticTaskRef l = at_SemanticTaskRef a ∧
  hd_RootTaskRef h = Some (at_RootTaskRef a) ∧
  wi_RepositoryID (ad_Workspace source) = hd_RepositoryIdentity h ∧
  wi_ID (ad_Workspace source) = ls_WorkspaceID l ∧
  ws_Head (ad_Snapshot source) = ls_ExpectedBaseOID l ∧
  ws_ID (ad_Snapshot source) = ls_ExpectedWorkspaceSnapshotID l.
Proof.
  pose proof (j_live J) as HL. apply live_authority_Ok in HL as [HL HB].
  apply live_identity_Ok in HL as (? & ? & ? & _ & ? & ?). apply live_binding_Ok in HB as (_ & ? & ? & ? & ?).
  done.
Qed.
Lemma target_facts :
  ls_LeaseID lease ≠ ls_LeaseID (ad_Lease source) ∧ ls_LeaseID lease ≠ "" ∧ ls_InFlightCallID lease ≠ "" ∧
  lease = (ad_Lease source) {{
    ls_LeaseID := ls_LeaseID lease;
    ls_ControllerGeneration := hd_ControllerGeneration (stage_head Finalized);
    ls_InFlightCallID := ls_InFlightCallID lease;
    ls_CreatedAt := ls_CreatedAt lease }}.
Proof.
  pose proof (j_lease J) as E. destruct generations as (_ & _ & G3).
  unfold validateModelCallLeaseBinding in E. result_inv E. bool_simp. rewrite <- G3. done.
Qed.
Lemma final_validates :
  validateMutationAuthorityClaim (stage_head Finalized) final_authority = Ok () ∧
  validateLiveAuthority (stage_head Finalized) (at_SemanticTaskRef (ad_Attempt source))
    (ad_Workspace source) (ad_Snapshot source) (ad_Attempt source) lease = Ok ().
Proof.
  destruct live_facts as (L1 & L2 & L3 & L4 & L5 & L6 & L7 & L8 & L9).
  destruct target_facts as (_ & T1 & _ & T2). destruct (j_head J) as (_ & _ & _ & _ & Ha).
  split.
  - apply claim_Ok. simpl. rewrite L3. split_and!; try done. apply (j_task J).
  - apply live_authority_Ok. rewrite T2. split.
    + by apply live_identity_Ok.
    + by apply live_binding_Ok.
Qed.

Lemma AdmitMutation_final ts :
  phase_in (stage_phases Finalized) ts →
  value (at_stage Finalized ts)
    (AdmitMutation identity final_authority (ad_Workspace source) (ad_Snapshot source)) final_admission.
Proof.
  intros Hp. destruct (j_head J) as (Hok & Hs & Hpend & Hps & Ha).
  destruct live_facts as (L1 & L2 & L3 & L4 & L5 & _). destruct target_facts as (_ & T1 & _ & _).
  destruct final_validates as [V1 V2]. destruct (j_project J) as (request & d0 & He & Hd0).
  assert (hd_ExecutionTaskRef (stage_head Finalized) = Some (at_SemanticTaskRef (ad_Attempt source)))
    as ET by apply (j_task J).
  assert (hd_RootTaskRef (stage_head Finalized) = Some (at_RootTaskRef (ad_Attempt source))) as ER
    by exact L5.
  unfold AdmitMutation, admitMutation. yield ltac:(idtac).
  { unfold loadAdmissibleHead. yield ltac:(by apply LoadHead_stage).
    guard_pass. guard_pass.
    apply yields_guard; [rewrite ET, ER; by rewrite !bool_decide_false by done|].
    apply yields_guard; [rewrite ET; by apply negb_false_iff, Equal_true|].
    guard_pass.
    yield ltac:(eapply executionTaskAuthority_yields; [by apply at_stage_journal|exact He|done|]).
    { intros d Hd. rewrite Hd0. by eapply at_stage_base. }
    apply yields_ret. }
  yield ltac:(apply yields_lift, V1).
  unfold loadLiveAttemptAndLease. yield ltac:(idtac).
  { change (hd_LiveAttemptID (stage_head Finalized)) with (hd_LiveAttemptID (ad_Head source)).
    change (hd_LiveLeaseID (stage_head Finalized)) with (ls_LeaseID lease).
    rewrite <- L3. yield ltac:(by apply loadAttempt_stage).
    yield ltac:(apply loadLease_base; [done|apply target_schema|apply (j_target J)]).
    apply yields_ret. }
  cbn beta iota. yield ltac:(apply yields_lift, V2). apply yields_ret.
Qed.

Definition final_result : ExecutionOperationResult := {|
  xr_ParentSourceReview := false; xr_SourceSnapshot := None; xr_TransitionID := id;
  xr_Head := stage_head Finalized; xr_Admission := Some final_admission;
  xr_Suspension := None; xr_CandidateRef := None; xr_SealRef := None |}.

Lemma executionOperationResult_stage ts :
  phase_in (stage_phases Finalized) ts → tree_matches →
  value (at_stage Finalized ts)
    (executionOperationResult call_operation (stage_head Finalized) call_contract) final_result.
Proof.
  intros Hp [Hw Hsn]. destruct (j_head J) as (_ & _ & _ & _ & Ha).
  destruct live_facts as (_ & _ & L3 & _). destruct target_facts as (_ & T1 & _ & _).
  unfold executionOperationResult. cbn [projectResult call_contract]. unfold projectExecutionAdmissionResult.
  cbn [xo_Workspace call_operation modelCallOperation].
  yield ltac:(by apply yields_lift). yield ltac:(by apply yields_lift).
  yield ltac:(apply (yields_lift _ _ _ _ final_authority)).
  { unfold MutationAuthorityFromHead.
    replace (hd_ExecutionTaskRef (stage_head Finalized))
      with (Some (at_SemanticTaskRef (ad_Attempt source))) by (symmetry; apply (j_task J)).
    rewrite !bool_decide_false by (done || (simpl; lia)). simpl. unfold final_authority. by rewrite L3. }
  yield ltac:(by apply AdmitMutation_final). apply yields_ret.
Qed.

(** *** Recovery *)
Definition finished (r : ExecutionOperationResult) (d : Disk) : Prop :=
  r = final_result ∧ in_stage Finalized [TransitionPhaseFinalized] d.

Lemma result_finished :
  tree_matches →
  triple (in_stage Finalized [TransitionPhaseFinalized])
    (executionOperationResult call_operation (stage_head Finalized) call_contract) finished.
Proof.
  intros Ht. apply crashes_exists. intros ts. apply crashes_pure. intros Hp.
  eapply crashes_post; [apply executionOperationResult_stage; [among|done]|].
  intros r d [-> Hd]. split; [done|]. by exists ts.
Qed.
Lemma finalize_finished :
  tree_matches →
  triple (in_stage Committed [TransitionPhaseCommitted; TransitionPhaseFinalizing])
    (next ← finalizeAuthorityTransitionLocked identity call_record;
     executionOperationResult call_operation next call_contract) finished.
Proof.
  intros Ht. apply crashes_exists. intros ts. apply crashes_pure. intros Hp.
  eapply crashes_bind; [by apply finalizeAuthorityTransitionLocked_stage|].
  intros h. apply crashes_pure. intros ->. by apply result_finished.
Qed.

Lemma loadExecutionRecoveryAuthority_stage K ts :
  phase_in (stage_phases K) ts →
  value (at_stage K ts) (loadExecutionRecoveryAuthority identity call_operation) (stage_head K, ts).
Proof.
  intros Hp. destruct (stage_head_ok K) as [_ Hs]. unfold loadExecutionRecoveryAuthority.
  yield ltac:(by apply LoadHead_stage). guard_pass.
  yield ltac:(rewrite bool_decide_false by (by intros []); apply yields_ret).
  yield ltac:(by apply loadTransitionState_stage). apply yields_ret.
Qed.

Lemma recoverExecutionOperationLocked_stage K ts :
  phase_in (stage_phases K) ts →
  triple (at_stage K ts) (recoverExecutionOperationLocked identity call_operation) finished.
Proof.
  intros Hp. destruct generations as (G1 & G2 & G3). destruct (j_id J) as [Hid _].
  destruct (j_head J) as (_ & Hs & Hpend & _). pose proof Hp as (_ & _ & Hph).
  unfold recoverExecutionOperationLocked.
  eapply crashes_bind; [by apply validateExecutionOperation_stage|].
  intros c. apply crashes_pure. intros ->.
  yield ltac:(by apply loadExecutionRecoveryAuthority_stage). cbn beta iota.
  rewrite bool_decide_false by (intros E; rewrite E in Hph; revert Hph; by destruct K; set_unfold; naive_solver).
  unfold executionAlreadyFinalized, executionPreparedForRecovery.
  cbn [xo_Transition call_operation modelCallOperation]. rewrite G1, G2, G3. destruct K.
  - rewrite (bool_decide_false (_ = "")) by done. cbn [andb]. guard_pass.
    rewrite bool_decide_false by (simpl; lia).
    apply yields_guard; [by rewrite !bool_decide_true by (exact Hs || done)|].
    eapply crashes_bind; [by apply applyModelCallAdmission_stage|]. intros [].
    apply crashes_pure. intros Ht.
    eapply crashes_pre; [by apply finalize_finished|].
    intros d (ts' & Hp' & Hd). exists ts'. split; [among|done].
  - rewrite (bool_decide_false (_ = "")) by done. cbn [andb]. guard_pass.
    rewrite bool_decide_true by done. unfold finalizeCommittedExecution.
    eapply crashes_bind; [by apply verifyCommittedModelCallAdmission_stage|]. intros [].
    apply crashes_pure. intros Ht.
    eapply crashes_bind; [by apply reconcileCommittedExecutionPhase_stage|]. intros [].
    by apply finalize_finished.
  - rewrite (bool_decide_true (_ = "")) by apply Hpend. rewrite bool_decide_true by done.
    cbn [andb].
    eapply crashes_bind; [by apply verifyCommittedModelCallAdmission_stage|]. intros [].
    apply crashes_pure. intros Ht.
    eapply crashes_bind; [by apply reconcileFinalizedExecutionPhase_stage|]. intros [].
    by apply result_finished.
Qed.

Lemma RecoverExecutionOperation_journal :
  triple journal (RecoverExecutionOperation identity id) finished.
Proof.
  apply crashes_exists. intros K. apply crashes_exists. intros ts. apply crashes_pure. intros Hp.
  destruct (j_id J) as [Hid HB]. unfold RecoverExecutionOperation.
  apply crashes_lock; [by apply at_stage_journal|].
  apply yields_guard; [by rewrite HB, !bool_decide_false by (done || tauto)|].
  yield ltac:(by apply readJSON_base; [..|apply (j_operation J)]).
  unfold LoadTransition. yield ltac:(idtac).
  { yield ltac:(by apply readJSON_base; [..|apply (j_transition J)]).
    yield ltac:(by apply loadTransitionState_stage). apply yields_ret. }
  cbn beta iota. guard_pass. by apply recoverExecutionOperationLocked_stage.
Qed.
End Run.
End Steps.
End Recovery.

(** ** Identifiers as file names *)
Lemma uuidLoop_no_slash s n : uuidLoop n s = true → no_char "/" s.
Proof.
  revert n. induction s as [|c s IH]; intros n; [done|]. cbn [uuidLoop no_char].
  intros [Hc Hs]%andb_true_iff. split; [|by eapply IH]. intros Hs'; subst c.
  by destruct ((n =? 8) || (n =? 13) || (n =? 18) || (n =? 23)).
Qed.
Lemma uuid_Base s : ValidGeneratedUUID s = true → s ≠ "" ∧ Base s = s.
Proof.
  unfold ValidGeneratedUUID, ValidUUIDFormat. intros [[[Hl Hs]%andb_true_iff _]%andb_true_iff _]%andb_true_iff.
  assert (s ≠ "") as Hne by (by intros ->). split; [done|].
  unfold Base. rewrite bool_decide_false by done.
  by rewrite Split_no_sep, filter_cons_True by (eauto using uuidLoop_no_slash).
Qed.

(** ** Binding a model call *)
Section Bind.
Context `{Host, OtherOperations, Worktree} (identity : RepositoryIdentity).
(** The admission, on the disk that admits it. *)
Context (a : Admission) (d0 : Disk).
Context (Hadm : AdmitMutation identity (admission_authority a) (ad_Workspace a) (ad_Snapshot a) d0 =
                (Ok a, d0)).
Context (Hbound : (hd_ControllerGeneration (ad_Head a) + 3 < 2 ^ 64)%N).
Context (Hsha : ∀ s, sha256_hex s ≠ "").
Context (Hfresh : ∀ d uuid d', random d = random d0 → NewUUID d = (Ok uuid, d') →
                  uuid ≠ ls_LeaseID (ad_Lease a)).

(** What a run needs beyond a healthy disk. *)
Definition able : Prop :=
  tree_matches identity a ∧ ls_InFlightCallID (ad_Lease a) = "" ∧ (∀ n, random d0 n ≠ None) ∧
  (∀ op, is_ok (marshal_operation op) = true) ∧
  [] ∈ dirs d0 ∧ ["leases"] ∈ dirs d0 ∧ ["transitions"] ∈ dirs d0 ∧ ["transition-state"] ∈ dirs d0.

Definition untouched (f : gmap (list string) Doc) : Prop :=
  ∀ p, p ∈ authority_paths (ad_Head a) → f !! p = files d0 !! p.
Definition pending (d : Disk) : Prop :=
  ∃ lease id digest created base D,
    journalled identity a lease id digest created base D ∧ journal a lease id base D d.
Definition outcome (d : Disk) : Prop := untouched (files d) ∨ pending d.
Definition holds (f : gmap (list string) Doc) (Df : gset (list string)) (d : Disk) : Prop :=
  files d = f ∧ dirs d = Df ∧ random d = random d0.
Notation triple := (crashes able outcome).

Lemma holds_outcome f Df d : untouched f → holds f Df d → outcome d.
Proof. intros Hu [Hf _]. left. by rewrite Hf. Qed.
Lemma untouched_put f p doc :
  untouched f → p ∉ authority_paths (ad_Head a) → untouched (<[p := doc]> f).
Proof. intros Hu Hp q Hq. rewrite lookup_insert_ne by (by intros ->). by apply Hu. Qed.

Lemma holds_Now f Df : triple (holds f Df) Now (λ _, holds f Df).
Proof. by apply crashes_tick. Qed.
Lemma holds_NewUUID f Df :
  untouched f →
  triple (holds f Df) NewUUID
    (λ id d, (ValidGeneratedUUID id = true ∧ id ≠ ls_LeaseID (ad_Lease a)) ∧ holds f Df d).
Proof.
  intros Hu. apply crashes_NewUUID.
  - intros d Hd. by apply (holds_outcome f Df).
  - intros d (_ & _ & ->) (_ & _ & Hr & _). apply Hr.
  - intros d id Hd E. pose proof (NewUUID_valid d) as Hv. rewrite E in Hv.
    split; [split; [done|]|done]. eapply Hfresh, E. apply Hd.
Qed.
Lemma holds_write {A} `{Document A} f Df p (x : A) :
  untouched f → (able → removelast p ∈ Df) →
  triple (holds f Df) (writeJSONAtomic p x)
    (λ _ d, removelast p ∈ Df ∧ holds (<[p := to_doc x]> f) Df d).
Proof.
  intros Hu Hdir. apply crashes_write.
  - intros d Hd. by apply (holds_outcome f Df).
  - by intros d (_ & -> & _).
  - intros d (<- & <- & Hr) Hin. done.
Qed.

(** *** Planning *)
Definition target_lease (lease : ExecutionLease) : Prop :=
  lease = (ad_Lease a) {{
    ls_LeaseID := ls_LeaseID lease;
    ls_ControllerGeneration := u64 (hd_ControllerGeneration (ad_Head a) + 3);
    ls_ExpectedBaseOID := ws_Head (ad_Snapshot a);
    ls_ExpectedWorkspaceSnapshotID := ws_ID (ad_Snapshot a);
    ls_InFlightCallID := ls_InFlightCallID lease;
    ls_CreatedAt := ls_CreatedAt lease }} ∧
  ValidGeneratedUUID (ls_LeaseID lease) = true ∧ ls_LeaseID lease ≠ ls_LeaseID (ad_Lease a) ∧
  ValidGeneratedUUID (ls_InFlightCallID lease) = true.
Definition planned (lease : ExecutionLease) : gmap (list string) Doc :=
  <[leasePath (ls_LeaseID lease) := DocLease lease]> (files d0).

Lemma lease_path_free id :
  id ≠ ls_LeaseID (ad_Lease a) → leasePath id ∉ authority_paths (ad_Head a).
Proof.
  pose proof Hadm as E. apply admitMutation_Ok in E as [(_ & _ & _ & _ & _ & _ & _ & _ & _ & _ & _ & HL & _) _].
  apply loadLease_Ok in HL as (_ & _ & _ & HL & _). intros Hid Hp. unfold authority_paths in Hp.
  set_unfold. destruct Hp as [[=]|[[=]|[Hp|[[=]|[]]]]].
  unfold leasePath in Hp. injection Hp as Hp. apply app_inj_tail_str in Hp. congruence.
Qed.
Lemma journal_paths_free dir name :
  dir ∈ ["execution-operations"; "transitions"; "transition-state"] →
  [dir; name] ∉ authority_paths (ad_Head a).
Proof. unfold authority_paths. set_unfold. naive_solver. Qed.
Lemma untouched_start : untouched (files d0).
Proof. by intros p. Qed.
Lemma untouched_planned lease : target_lease lease → untouched (planned lease).
Proof. intros (_ & _ & Hl & _). apply untouched_put; [apply untouched_start|by apply lease_path_free]. Qed.

Definition next_lease (leaseID callID : string) (now : Time) : ExecutionLease := (ad_Lease a) {{
  ls_LeaseID := leaseID;
  ls_ControllerGeneration := u64 (hd_ControllerGeneration (ad_Head a) + 3);
  ls_ExpectedBaseOID := ws_Head (ad_Snapshot a);
  ls_ExpectedWorkspaceSnapshotID := ws_ID (ad_Snapshot a);
  ls_InFlightCallID := callID;
  ls_CreatedAt := now }}.
Lemma holds_write_lease leaseID callID now f :
  untouched f → leaseID ≠ ls_LeaseID (ad_Lease a) →
  triple (holds f (dirs d0)) (writeLease (next_lease leaseID callID now))
    (λ _, holds (<[leasePath leaseID := DocLease (next_lease leaseID callID now)]> f) (dirs d0)).
Proof.
  intros Hu Hne. eapply crashes_post; [apply (holds_write f (dirs d0)); [done|]|].
  - by intros (_ & _ & _ & _ & _ & ? & _).
  - by intros [] d [_ ?].
Qed.
Lemma prepareContinuationLease_triple :
  triple (holds (files d0) (dirs d0))
    (prepareContinuationLease (ad_Lease a) (ad_Snapshot a)
       (u64 (hd_ControllerGeneration (ad_Head a) + 3)))
    (λ r d, ∃ leaseID now, (ValidGeneratedUUID leaseID = true ∧ leaseID ≠ ls_LeaseID (ad_Lease a)) ∧
       r = next_lease leaseID "" now ∧ holds (<[leasePath leaseID := DocLease r]> (files d0)) (dirs d0) d).
Proof.
  pose proof untouched_start as Hu. unfold prepareContinuationLease.
  eapply crashes_bind; [by apply holds_NewUUID|]. intros leaseID. apply crashes_pure. intros Hl.
  eapply crashes_bind; [by apply holds_Now|]. intros now. cbv zeta.
  eapply crashes_bind; [apply (holds_write_lease leaseID "" now); [done|apply Hl]|]. intros [].
  apply crashes_ret. intros d Hd. by exists leaseID, now.
Qed.
Lemma prepareModelCallTarget_triple :
  triple (holds (files d0) (dirs d0)) (prepareModelCallTarget a)
    (λ r d, (r.2 = modelCallTarget a r.1 ∧ target_lease r.1) ∧ holds (planned r.1) (dirs d0) d).
Proof.
  pose proof untouched_start as Hu. unfold prepareModelCallTarget.
  eapply crashes_bind; [by apply holds_NewUUID|]. intros callID. apply crashes_pure. intros [Hc _].
  eapply crashes_bind; [apply prepareContinuationLease_triple|]. intros r.
  apply crashes_exists. intros leaseID. apply crashes_exists. intros now.
  apply crashes_pure. intros Hl. apply crashes_pure. intros ->. cbv zeta.
  eapply crashes_bind.
  { apply (holds_write_lease leaseID callID now); [|apply Hl].
    apply untouched_put; [done|apply lease_path_free, Hl]. }
  intros []. rewrite insert_insert_eq. apply crashes_ret. intros d Hd.
  split; [|apply Hd]. destruct Hl. split; [done|]. by unfold target_lease; split_and!.
Qed.

Lemma planModelCallAdmission_triple :
  triple (holds (files d0) (dirs d0)) (planModelCallAdmission identity a)
    (λ op d, ls_InFlightCallID (ad_Lease a) = "" ∧ ∃ lease id created,
       op = modelCallOperation (transitionRecord (modelCallIntent a (modelCallTarget a lease)) id created)
              a (Some (ad_Workspace a)) (Some lease) ∧
       target_lease lease ∧ ValidGeneratedUUID id = true ∧ holds (planned lease) (dirs d0) d).
Proof.
  unfold planModelCallAdmission. case_bool_decide as Hq.
  { intros d Hd. split; [done|]. split; [by apply (holds_outcome (files d0) (dirs d0))|].
    by intros [(_ & ? & _) _]. }
  yield ltac:(idtac).
  { unfold validateTransitionSource. cbn [tn_Source tn_ExpectedGeneration]. guard_pass.
    yield ltac:(eapply AdmitMutation_yields; [|exact Hadm|]).
    { intros d Hd. by apply (holds_outcome (files d0) (dirs d0)). }
    { by intros d p [-> _] _. }
    guard_pass. apply yields_ret. }
  eapply crashes_bind; [by apply prepareModelCallTarget_triple|]. intros [lease target].
  cbn [fst snd]. apply crashes_pure. intros [-> Hl].
  eapply crashes_bind; [by apply holds_NewUUID, untouched_planned|]. intros id.
  apply crashes_pure. intros [Hid _].
  eapply crashes_bind; [apply (crashes_record _ _ (holds (planned lease) (dirs d0))), holds_Now|].
  intros r. apply crashes_exists. intros now. apply crashes_pure. intros ->.
  apply crashes_ret. intros d Hd. split; [done|]. by exists lease, id, now.
Qed.
(** *** Preparing *)
Definition prepared_base (lease : ExecutionLease) (id digest : string) (created : Time)
    : gmap (list string) Doc :=
  <[transitionPath id := DocTransition (call_record a lease id digest created)]>
  (<[executionOperationPath id := DocOperation (call_operation a lease id digest created)]>
   (planned lease)).

Lemma source_admitted :
  let h := ad_Head a in let att := ad_Attempt a in let l := ad_Lease a in
  files d0 !! headPath = Some (DocHead h) ∧ head_ok identity h ∧
  at_AttemptID att = hd_LiveAttemptID h ∧ ls_LeaseID l = hd_LiveLeaseID h ∧
  hd_Status h = ControllerStatusActive ∧ hd_PendingTransitionID h = "" ∧
  hd_ProjectSnapshotID h ≠ "" ∧ hd_LiveAttemptID h ≠ "" ∧
  hd_ExecutionTaskRef h = Some (at_SemanticTaskRef att) ∧
  files d0 !! attemptPath (at_AttemptID att) = Some (DocAttempt att) ∧
  files d0 !! leasePath (ls_LeaseID l) = Some (DocLease l) ∧
  at_SchemaVersion att = controllerSchemaVersion ∧ ls_SchemaVersion l = controllerSchemaVersion ∧
  validateLiveAuthority h (at_SemanticTaskRef att) (ad_Workspace a) (ad_Snapshot a) att l = Ok () ∧
  ∃ request, executionTaskAuthority identity h (at_SemanticTaskRef att) d0 = (Ok request, d0).
Proof.
  pose proof Hadm as E.
  apply admitMutation_Ok in E as
    [(HL & Hs & Hp & Ha & _ & Ht & _ & Hps & [request He] & _ & HA & HL' & Hv & _) _].
  apply LoadHead_Ok in HL as (_ & Hh & Hok & _). apply loadAttempt_Ok in HA as (_ & HA & As & Ai & _).
  apply loadLease_Ok in HL' as (_ & HL' & Ls & Li & _).
  pose proof Hv as Hv'. apply live_authority_Ok in Hv' as [Hv' _].
  apply live_identity_Ok in Hv' as (_ & _ & _ & Et & _).
  cbv zeta. rewrite Et, Ai, Li. split_and!; try done. by exists request.
Qed.

Lemma journalled_prepared lease id digest created D :
  ls_InFlightCallID (ad_Lease a) = "" → target_lease lease → ValidGeneratedUUID id = true →
  executionOperationDigest (call_operation a lease id digest created) = Ok digest →
  [] ∈ D → ["transition-state"] ∈ D →
  journalled identity a lease id digest created (prepared_base lease id digest created) D.
Proof.
  intros Hq (El & Hl & Hne & Hc) Hid Hd HD1 HD2.
  destruct source_admitted as (Hh & Hok & HAl & HLl & Hs & Hp & Hps & Ha & Ht & HA & HL & As & Ls & Hv & request & He).
  pose proof (proj1 (live_authority_Ok _ _ _ _ _ _) Hv) as [_ Hb].
  apply live_binding_Ok in Hb as (_ & _ & _ & Hb1 & Hb2).
  assert (untouched (prepared_base lease id digest created)) as Hkeep.
  { unfold prepared_base. do 2 (apply untouched_put; [|apply journal_paths_free; set_solver]).
    by apply untouched_planned. }
  assert (∀ p doc, p ∈ authority_paths (ad_Head a) → files d0 !! p = Some doc →
    prepared_base lease id digest created !! p = Some doc) as Hbase.
  { intros p doc Hpin <-. by apply Hkeep. }
  split; try done.
  - by apply uuid_Base.
  - split; [|done]. unfold executionOperationDigest in Hd. result_inv Hd. apply Hsha.
  - unfold validateModelCallLeaseBinding. rewrite pass_reject; [done|].
    cbn [xo_Source call_operation modelCallOperation xo_Transition].
    guard_false.
    + simpl. intros E. rewrite E in Hl. discriminate.
    + simpl. intros E. rewrite E in Hc. discriminate.
    + intros []. etrans; [|symmetry; exact El]. rewrite Hb1, Hb2. by destruct (ad_Lease a).
  - unfold prepared_base. by rewrite lookup_insert_ne, lookup_insert_eq.
  - unfold prepared_base. by rewrite lookup_insert_eq.
  - apply Hbase, HA. rewrite HAl. by right; left.
  - apply Hbase, HL. rewrite HLl. by do 2 right; left.
  - unfold prepared_base, planned. by rewrite !lookup_insert_ne, lookup_insert_eq by done.
  - exists request, d0. split; [done|]. symmetry. apply Hkeep. by do 3 right; left.
Qed.
Lemma prepared_commute lease id digest created ts doc :
  <[headPath := doc]> (<[transitionStatePath id := ts]> (prepared_base lease id digest created)) =
  <[transitionStatePath id := ts]> (<[headPath := doc]> (prepared_base lease id digest created)).
Proof. by apply insert_insert_ne. Qed.

(** What a triple leaves once the operation is prepared. *)
Definition prepared (lease : ExecutionLease) (id digest : string) (created : Time)
    (base : gmap (list string) Doc) (D : gset (list string)) (d : Disk) : Prop :=
  journalled identity a lease id digest created base D ∧
  in_stage a lease id base D Prepared [TransitionPhasePrepared] d.

Lemma persistPreparedTransition_triple lease id digest created D :
  ls_InFlightCallID (ad_Lease a) = "" → target_lease lease → ValidGeneratedUUID id = true →
  executionOperationDigest (call_operation a lease id digest created) = Ok digest →
  (able → [] ∈ D ∧ ["transitions"] ∈ D ∧ ["transition-state"] ∈ D) →
  triple
    (holds (<[executionOperationPath id := DocOperation (call_operation a lease id digest created)]>
              (planned lease)) D)
    (persistPreparedTransition identity (call_record a lease id digest created) (ad_Head a))
    (λ _, prepared lease id digest created (prepared_base lease id digest created) D).
Proof.
  intros Hq Hl Hid Hdig HD. destruct source_admitted as (Hh & Hok & _ & _ & Hs & _).
  pose proof (untouched_planned _ Hl) as Hu.
  unfold persistPreparedTransition.
  eapply crashes_bind.
  { apply (holds_write _ _ (transitionPath id)); [|by intros (_ & ? & _)%HD].
    apply untouched_put; [done|]. apply journal_paths_free. set_solver. }
  intros []. apply crashes_pure. intros _. fold (prepared_base lease id digest created).
  assert (untouched (prepared_base lease id digest created)) as Hu'.
  { do 2 (apply untouched_put; [|apply journal_paths_free; set_solver]). done. }
  eapply crashes_bind; [apply holds_Now|]. intros now.
  eapply crashes_bind.
  { apply (holds_write _ _ (transitionStatePath id)); [done|by intros (_ & _ & ?)%HD]. }
  intros []. apply crashes_pure. intros HD2.
  set (ts := {| ts_Completion := _ |}).
  set (f := <[transitionStatePath id := _]> _).
  assert (untouched f) as Huf by (apply untouched_put; [done|apply journal_paths_free; set_solver]).
  replace (tr_PreparedGeneration _) with (hd_ControllerGeneration (ad_Head a) + 1)%N
    by (simpl; unfold u64; by rewrite N.mod_small by lia).
  unfold writeHeadCAS. yield ltac:(apply LoadHead_yields; [|done|by left|]).
  { intros d Hd. by apply (holds_outcome f D). }
  { intros d [-> _]. rewrite Huf by by left. done. }
  guard_pass. apply yields_guard.
  { destruct Hok. rewrite !(bool_decide_false (_ ≠ _)) by tauto. simpl. apply bool_decide_eq_false. lia. }
  apply crashes_write.
  - intros d Hd. by apply (holds_outcome f D).
  - by intros d (_ & -> & _) (? & _ & _)%HD.
  - intros d (Hf & HDd & _) HD1. rewrite HDd in HD1. split; [by apply journalled_prepared|].
    exists ts. split; [split_and!; [done..|by left]|]. split; [|done].
    rewrite files_put, Hf. apply prepared_commute.
Qed.

Lemma prepareExecutionOperation_triple lease id created :
  ls_InFlightCallID (ad_Lease a) = "" → target_lease lease → ValidGeneratedUUID id = true →
  triple (holds (planned lease) (dirs d0))
    (prepareExecutionOperation identity
       (modelCallOperation (transitionRecord (modelCallIntent a (modelCallTarget a lease)) id created)
          a (Some (ad_Workspace a)) (Some lease)) (ad_Head a))
    (λ op d, ∃ digest base D, op = call_operation a lease id digest created ∧
       prepared lease id digest created base D d).
Proof.
  intros Hq Hl Hid. destruct source_admitted as (Hh & Hok & _ & _ & Hs & Hp & _).
  pose proof (untouched_planned _ Hl) as Hu.
  unfold prepareExecutionOperation. apply yields_guard; [by rewrite Hs, Hp, !bool_decide_false by tauto|].
  set (D := list_to_set (prefixes ["execution-operations"]) ∪ dirs d0).
  eapply crashes_bind; [apply (crashes_MkdirAll _ _ _ (holds (planned lease) D))|intros []].
  { intros d Hd. by apply (holds_outcome (planned lease) (dirs d0)). }
  { intros d (Hf & HD & Hr). split_and!; [done| |done]. simpl. unfold D. by rewrite HD. }
  destruct (executionOperationDigest _) as [digest|e] eqn:Ed; cycle 1.
  { intros d Hd. split; [done|]. split; [by apply (holds_outcome (planned lease) D)|].
    intros [(_ & _ & _ & Hm & _) _]. unfold executionOperationDigest in Ed.
    lazymatch type of Ed with (marshal_operation ?o ≫= _) = _ => specialize (Hm o) end.
    by destruct (marshal_operation _). }
  eapply yields_bind; [by apply yields_lift|].
  eapply crashes_bind.
  { apply (holds_write _ _ (executionOperationPath id) (call_operation a lease id digest created));
      [done|intros _; unfold D; set_solver]. }
  intros []. apply crashes_pure. intros _.
  eapply crashes_bind; [apply (persistPreparedTransition_triple lease id digest created D); try done|].
  { unfold able, D. set_unfold. naive_solver. }
  intros []. apply crashes_ret. intros d Hd. by eexists digest, _, D.
Qed.
(** *** Binding *)
Lemma BindModelCall_triple :
  triple (holds (files d0) (dirs d0)) (BindModelCall identity a)
    (λ adm d, ∃ lease id digest created base D,
       (journalled identity a lease id digest created base D ∧ adm = final_admission a lease id) ∧
       in_stage a lease id base D Finalized [TransitionPhaseFinalized] d).
Proof.
  unfold BindModelCall. apply crashes_lock; [intros d; apply holds_outcome, untouched_start|].
  eapply crashes_bind; [apply planModelCallAdmission_triple|]. intros op.
  apply crashes_pure. intros Hq. apply crashes_exists. intros lease. apply crashes_exists. intros id.
  apply crashes_exists. intros created. apply crashes_pure. intros ->. apply crashes_pure. intros Hl.
  apply crashes_pure. intros Hid.
  eapply crashes_bind; [by apply prepareExecutionOperation_triple|]. intros op.
  apply crashes_exists. intros digest. apply crashes_exists. intros base. apply crashes_exists. intros D.
  apply crashes_pure. intros ->. apply crashes_pure. intros J.
  eapply crashes_bind.
  { apply crashes_exists. intros ts. apply crashes_pure. intros Hts.
    eapply (crashes_weaken (tree_matches identity a)), recoverExecutionOperationLocked_stage.
    - by intros [? _].
    - intros d Hd. right. by exists lease, id, digest, created, base, D.
    - exact J.
    - eapply phase_in_weaken; [exact Hts|reflexivity]. }
  intros r. apply crashes_pure. intros ->. cbn [xr_Admission final_result].
  apply crashes_ret. intros d Hd. by exists lease, id, digest, created, base, D.
Qed.
End Bind.

(** ** Interrupted recoveries *)
Section Interrupted.
Context `{Host, OtherOperations} (identity : RepositoryIdentity).

(** The machine restarts, in any environment and on any working tree, and
    recovers the operation; the run can fail or stop anywhere. *)
Inductive interrupted (id : string) : Disk → Disk → Prop :=
  | interrupted_run (W : Worktree) d d1 :
      same_store d d1 → interrupted id d (RecoverExecutionOperation identity id d1).2.

Section Journal.
Context {source lease id digest created base D}
  (J : journalled identity source lease id digest created base D).

Lemma in_stage_journal K phases d :
  in_stage source lease id base D K phases d →
  bool_decide (Forall (λ p, p ∈ stage_phases K) phases) = true → journal source lease id base D d.
Proof. intros (ts & Hp & Hd) Hs. exists K, ts. split; [by eapply phase_in_weaken|done]. Qed.
Lemma journal_interrupted d d' :
  rtc (interrupted id) d d' → journal source lease id base D d → journal source lease id base D d'.
Proof.
  induction 1 as [|d1 d2 d3 [W d d1' Hs] _ IH]; [done|]. intros Hj. apply IH.
  apply (journal_of_store _ _ _ _ _ _ _ Hs) in Hj.
  destruct (RecoverExecutionOperation_journal _ _ _ _ _ _ _ _ J d1' Hj) as [_ Hr].
  destruct ((RecoverExecutionOperation identity id d1').1); [|by destruct Hr].
  destruct Hr as [_ Hr]. by eapply in_stage_journal.
Qed.

(** Only the admission of the final stage is ever granted. *)
Lemma journal_sole d authority workspace snapshot adm :
  journal source lease id base D d →
  AdmitMutation identity authority workspace snapshot d = (Ok adm, d) →
  ad_Head adm = stage_head source lease id Finalized ∧ ad_Lease adm = lease.
Proof.
  intros (K & ts & Hp & Hd) E.
  apply admitMutation_Ok in E as [(HL & _ & Hpend & _ & _ & _ & _ & _ & _ & _ & _ & HLs & _) _].
  apply LoadHead_Ok in HL as (_ & Hh & _). rewrite (at_stage_head _ _ _ _ _ _ _ _ Hd) in Hh.
  injection Hh as Hh. rewrite <- Hh in *. destruct (j_id _ _ _ _ _ _ _ _ J) as [Hid _].
  destruct K; [done..|]. split; [done|].
  apply loadLease_Ok in HLs as (_ & HLs & _). cbn in HLs.
  rewrite (at_stage_base _ _ _ _ _ _ _ _ _ Hd) in HLs by done.
  rewrite (j_target _ _ _ _ _ _ _ _ J) in HLs. by injection HLs.
Qed.

(** A healthy run finishes. *)
Lemma journal_finishes `{Worktree} d :
  journal source lease id base D d → healthy d → tree_matches identity source →
  ∃ d', RecoverExecutionOperation identity id d = (Ok (final_result source lease id), d') ∧
        in_stage source lease id base D Finalized [TransitionPhaseFinalized] d' ∧ healthy d'.
Proof.
  intros Hj Hh Ht.
  destruct (RecoverExecutionOperation_journal _ _ _ _ _ _ _ _ J d Hj) as [Hh' Hr].
  destruct (RecoverExecutionOperation identity id d) as [[r|e] d'].
  - destruct Hr as [Er Hd]. simpl in Er. subst r. exists d'. split; [done|]. split; [exact Hd|]. by apply Hh'.
  - by destruct Hr as [_ []].
Qed.
Lemma finalized_admits d :
  in_stage source lease id base D Finalized [TransitionPhaseFinalized] d → healthy d →
  AdmitMutation identity (admission_authority (final_admission source lease id))
    (ad_Workspace source) (ad_Snapshot source) d = (Ok (final_admission source lease id), d).
Proof.
  intros (ts & Hp & Hd) Hh.
  pose (W := {| ResolveWorkspaceIdentity _ _ := Ok (ad_Workspace source);
                CaptureWorkspaceSnapshot _ := Ok (ad_Snapshot source) |}).
  assert (admission_authority (final_admission source lease id) = final_authority source lease id) as ->.
  { unfold admission_authority, final_authority. cbn [ad_Head ad_Attempt ad_Lease final_admission].
    destruct (live_facts _ _ _ _ _ _ _ _ J) as (_ & _ & _ & L4 & _).
    destruct (target_facts _ _ _ _ _ _ _ _ J) as (_ & _ & _ & El).
    assert (ls_SemanticTaskRef lease = at_SemanticTaskRef (ad_Attempt source)) as ->; [|done].
    rewrite El. exact L4. }
  assert (phase_in id (stage_phases Finalized) ts) as Hp' by (eapply phase_in_weaken; [exact Hp|done]).
  eapply yields_run; [by apply (AdmitMutation_final _ _ _ _ _ _ _ _ J ts)|unfold AdmitMutation; apply _|done..].
Qed.
End Journal.

Lemma pending_recovers {source lease id digest created base D} (r : result error Admission) d0 :
  journalled identity source lease id digest created base D → journal source lease id base D d0 →
  (∀ adm, r = Ok adm → adm = final_admission source lease id) →
  let final := final_admission source lease id in
  (ls_LeaseID lease ≠ ls_LeaseID (ad_Lease source) ∧ ls_InFlightCallID lease ≠ "") ∧
  (∀ adm, r = Ok adm → adm = final) ∧
  ∀ d, rtc (interrupted id) d0 d →
    (∀ authority workspace snapshot adm,
       AdmitMutation identity authority workspace snapshot d = (Ok adm, d) →
       ad_Head adm = ad_Head final ∧ ad_Lease adm = lease) ∧
    ∀ (W : Worktree) d1, same_store d d1 → healthy d1 → tree_matches identity source →
      ∃ d2, RecoverExecutionOperation identity id d1 = (Ok (final_result source lease id), d2) ∧
        AdmitMutation identity (admission_authority final) (ad_Workspace source) (ad_Snapshot source) d2 =
          (Ok final, d2).
Proof.
  intros J Hj Hadm final. destruct (target_facts _ _ _ _ _ _ _ _ J) as (T1 & _ & T2 & _).
  split; [done|]. split; [done|]. intros d Hrtc. pose proof (journal_interrupted J _ _ Hrtc Hj) as Hd. split.
  - intros authority workspace snapshot adm. by apply (journal_sole J).
  - intros W d1 Hs Hh Ht.
    destruct (journal_finishes J d1) as (d2 & E & Hfin & Hh2);
      [by eapply journal_of_store|done..|].
    exists d2. split; [exact E|]. by apply (finalized_admits J).
Qed.

(** C1: the binding of a model call is all or nothing, whatever interrupts it.
    After a run of [BindModelCall] on an admitted source, which may have failed
    or stopped between any two changes of the disk, either the source is still
    admitted, or a transition [id] to a target [lease] with a call in flight is
    journalled.  From then on, after any number of interrupted recoveries, in
    any environment and on any working tree, no admission is granted but the
    final one, of the target lease and the generation three past the source's;
    and one recovery on a healthy disk, over the tree the source was admitted
    for, returns it and leaves it admitted. *)
Theorem BindModelCall_crash_safe `{Worktree} (a : Admission) (d0 : Disk) :
  AdmitMutation identity (admission_authority a) (ad_Workspace a) (ad_Snapshot a) d0 = (Ok a, d0) →
  (hd_ControllerGeneration (ad_Head a) + 3 < 2 ^ 64)%N →
  (∀ s, sha256_hex s ≠ "") →
  (∀ d uuid d', random d = random d0 → NewUUID d = (Ok uuid, d') → uuid ≠ ls_LeaseID (ad_Lease a)) →
  let run := BindModelCall identity a d0 in
  (is_ok run.1 = false ∧
   AdmitMutation identity (admission_authority a) (ad_Workspace a) (ad_Snapshot a) (mend run.2) =
     (Ok a, mend run.2)) ∨
  ∃ id lease,
    let final := final_admission a lease id in
    (ls_LeaseID lease ≠ ls_LeaseID (ad_Lease a) ∧ ls_InFlightCallID lease ≠ "") ∧
    (∀ adm, run.1 = Ok adm → adm = final) ∧
    ∀ d, rtc (interrupted id) run.2 d →
      (∀ authority workspace snapshot adm,
         AdmitMutation identity authority workspace snapshot d = (Ok adm, d) →
         ad_Head adm = ad_Head final ∧ ad_Lease adm = lease) ∧
      ∀ (W : Worktree) d1, same_store d d1 → healthy d1 → tree_matches identity a →
        ∃ d2, RecoverExecutionOperation identity id d1 = (Ok (final_result a lease id), d2) ∧
          AdmitMutation identity (admission_authority final) (ad_Workspace a) (ad_Snapshot a) d2 =
            (Ok final, d2).
Proof.
  intros Hadm Hb Hsha Hfresh run.
  destruct (BindModelCall_triple identity a d0 Hadm Hb Hsha Hfresh d0) as [_ Hr]; [done|].
  fold run in Hr.
  destruct run as [[adm|e] d1] eqn:Erun; simpl in *.
  - right. destruct Hr as (lease & id & digest & created & base & D & (J & ->) & Hd).
    exists id, lease. apply (pending_recovers _ _ J); [by eapply in_stage_journal|by intros ? [= <-]].
  - destruct Hr as [[Hu|(lease & id & digest & created & base & D & J & Hd)] _].
    + left. split; [done|].
      by eapply AdmitMutation_again.
    + right. exists id, lease. by apply (pending_recovers _ _ J).
Qed.

(** C10: undisturbed, a model call is bound.  On a healthy disk, for the admission
    of a quiescent lease over the tree it was given for, [BindModelCall] returns
    the admission of a lease with a call in flight, three generations on; that
    admission is granted again in the state it leaves, and the source's is not,
    for any workspace and snapshot. *)
Theorem BindModelCall_binds `{Worktree} (a : Admission) (d0 : Disk) :
  AdmitMutation identity (admission_authority a) (ad_Workspace a) (ad_Snapshot a) d0 = (Ok a, d0) →
  (hd_ControllerGeneration (ad_Head a) + 3 < 2 ^ 64)%N →
  (∀ s, sha256_hex s ≠ "") →
  (∀ d uuid d', random d = random d0 → NewUUID d = (Ok uuid, d') → uuid ≠ ls_LeaseID (ad_Lease a)) →
  healthy d0 → able identity a d0 →
  ∃ bound d1,
    BindModelCall identity a d0 = (Ok bound, d1) ∧
    hd_ControllerGeneration (ad_Head bound) = (hd_ControllerGeneration (ad_Head a) + 3)%N ∧
    ls_LeaseID (ad_Lease bound) ≠ ls_LeaseID (ad_Lease a) ∧ ls_InFlightCallID (ad_Lease bound) ≠ "" ∧
    AdmitMutation identity (admission_authority bound) (ad_Workspace a) (ad_Snapshot a) d1 = (Ok bound, d1) ∧
    ∀ workspace snapshot,
      is_ok (AdmitMutation identity (admission_authority a) workspace snapshot d1).1 = false.
Proof.
  intros Hadm Hb Hsha Hfresh Hh Hable.
  destruct (BindModelCall_triple identity a d0 Hadm Hb Hsha Hfresh d0) as [Hh1 Hr]; [done|].
  destruct (BindModelCall identity a d0) as [[bound|e] d1]; simpl in *; [|by destruct Hr as [_ []]].
  destruct Hr as (lease & id & digest & created & base & D & (J & ->) & Hd).
  exists (final_admission a lease id), d1. destruct (target_facts _ _ _ _ _ _ _ _ J) as (T1 & _ & T2 & _).
  split_and!; try done; [by apply (finalized_admits J); [|apply Hh1]|].
  intros workspace snapshot.
  destruct (AdmitMutation _ _ _ _ d1) as [[adm|e] d'] eqn:E; [exfalso|done].
  assert (d' = d1) as -> by (eapply preserves_eq, E; unfold AdmitMutation; apply _).
  apply (journal_sole J) in E as E'; [|by eapply in_stage_journal]. destruct E' as [E' _].
  apply admitMutation_Ok in E as [(_ & _ & _ & _ & _ & _ & _ & _ & _ & Hc & _) _].
  apply claim_Ok in Hc as [Hc _]. rewrite E' in Hc. simpl in Hc. lia.
Qed.
End Interrupted.

(** ** A concrete call *)
Definition demo_worktree : Worktree := {|
  ResolveWorkspaceIdentity _ _ := Ok demo_workspace;
  CaptureWorkspaceSnapshot _ := Ok (demo_tree "s1") |}.
Definition demo_others : OtherOperations := {|
  other_contract _ := None;
  finishPublicationAbort _ _ _ := fail (err "aborted");
  validateTerminalRecoverySource _ _ := mret ();
  marshal_operation op := Ok (tr_TransitionID (xo_Transition op)) |}.
(** The machine stops after nine changes: the head is committed, the phase of
    the transition is not. *)
Definition demo_crash : Disk := demo_disk {{ power := Some 9 }}.

Lemma demo_admits d :
  files d = files demo_disk → healthy d →
  AdmitMutation (H:=demo_host) demo_identity (admission_authority demo_admission)
    (ad_Workspace demo_admission) (ad_Snapshot demo_admission) d = (Ok demo_admission, d).
Proof.
  intros Hf Hh. apply (AdmitMutation_again (H:=demo_host) demo_identity _ _ _ _ demo_disk demo_disk);
    [|by intros p _; rewrite Hf|done].
  rewrite (surjective_pairing (AdmitMutation _ _ _ _ demo_disk)). apply pair_equal_spec. split.
  - vm_compute. reflexivity.
  - symmetry. apply (preserves (m:=admitMutation (H:=demo_host) demo_identity _ _ _) (R:=eq) demo_disk).
Qed.
Lemma demo_crash_admits :
  AdmitMutation (H:=demo_host) demo_identity (admission_authority demo_admission)
    (ad_Workspace demo_admission) (ad_Snapshot demo_admission) demo_crash = (Ok demo_admission, demo_crash).
Proof.
  rewrite (surjective_pairing (AdmitMutation _ _ _ _ demo_crash)). apply pair_equal_spec. split.
  - vm_compute. reflexivity.
  - symmetry. apply (preserves (m:=admitMutation (H:=demo_host) demo_identity _ _ _) (R:=eq) demo_crash).
Qed.
Lemma demo_fresh d uuid d' : NewUUID d = (Ok uuid, d') → uuid ≠ ls_LeaseID demo_lease.
Proof. intros E ->. pose proof (NewUUID_valid d) as Hv. rewrite E in Hv. discriminate Hv. Qed.
Lemma demo_able : able (H0:=demo_others) (H1:=demo_worktree) demo_identity demo_admission demo_disk.
Proof. unfold able, tree_matches. split_and!; try done; by (simpl; set_solver). Qed.

Lemma BindModelCall_crash_safe_witness :
  let run := BindModelCall (H:=demo_host) (H0:=demo_worktree) (H1:=demo_others) demo_identity
               demo_admission demo_crash in
  is_ok run.1 = false ∧
  ∃ id lease d2,
    RecoverExecutionOperation (H:=demo_host) (H0:=demo_worktree) (H1:=demo_others) demo_identity id
      (mend run.2) = (Ok (final_result demo_admission lease id), d2).
Proof.
  intros run. split; [vm_compute; reflexivity|].
  destruct (BindModelCall_crash_safe (H:=demo_host) (H0:=demo_others) demo_identity (H1:=demo_worktree)
    demo_admission demo_crash demo_crash_admits eq_refl ltac:(discriminate)
    (λ d uuid d' _, demo_fresh d uuid d')) as [[_ Hl]|(id & lease & _ & _ & Hr)].
  - exfalso. assert (is_ok (AdmitMutation (H:=demo_host) demo_identity (admission_authority demo_admission)
      (ad_Workspace demo_admission) (ad_Snapshot demo_admission) (mend run.2)).1 = false) as E
      by (vm_compute; reflexivity).
    fold run in Hl. rewrite Hl in E. discriminate E.
  - destruct (Hr run.2 (rtc_refl _ _)) as [_ Hrec].
    destruct (Hrec demo_worktree (mend run.2) (mend_store _) (mend_healthy _) ltac:(done)) as (d2 & E & _).
    exists id, lease, d2. exact E.
Defined.

Lemma BindModelCall_binds_witness :
  ∃ bound d1,
    BindModelCall (H:=demo_host) (H0:=demo_worktree) (H1:=demo_others) demo_identity demo_admission
      demo_disk = (Ok bound, d1) ∧ hd_ControllerGeneration (ad_Head bound) = 4%N.
Proof.
  destruct (BindModelCall_binds (H:=demo_host) (H0:=demo_others) demo_identity (H1:=demo_worktree)
    demo_admission demo_disk (demo_admits demo_disk eq_refl (mend_healthy demo_disk)) eq_refl
    ltac:(discriminate) (λ d uuid d' _, demo_fresh d uuid d') (mend_healthy demo_disk) demo_able)
    as (bound & d1 & E & Hg & _).
  exists bound, d1. split; [exact E|exact Hg].
Defined.
