(* ===== verification/CommittedProject.v ===== *)
(** * The committed project

    Models [internal/repositoryprojectcommit/project.go], which reads plan and
    tasks from a git commit, and the part of
    [internal/controller/committed_task.go] that turns it into the
    controller's task references, dependency authority and snapshot.  Running
    [git] is the parameter of the interface [Git]; everything the code does
    with git's output is modelled. *)
From S2P Require Import Prelude GoStrings TaskLines TaskContract TaskDependencies PlanSchedule.
From S2P Require Import TaskSections TaskGraph ProjectPlan ControllerTypes ControllerStore.

(** The output of a git command in a repository. *)
Class Git := git_command : string → list string → result error string.

Record Task := { tk_Path : string; tk_Content : string }.
Record Project := {
  pj_Head : string;
  pj_Plan : string;
  pj_Schedule : PlanSchedule;
  pj_RootTaskPath : string;
  pj_Tasks : list Task;
  pj_graph : TaskGraph;
}.

Record TaskAuthority := {
  au_Task : SemanticTaskRef;
  au_ProjectSnapshotID : string;
  au_Snapshot : ProjectSnapshot;
  au_ExecutionMode : string;
}.

Definition parseTaskCorpusEntry (record : string) : result error (option TaskCorpusEntry) :=
  if bool_decide (record = "") then Ok None
  else
    let '(metadata, path, found) := Cut record "	" in
    if negb found || negb (HasSuffix path ".md") then Ok None
    else
      match Fields metadata with
      | mode :: kind :: _ =>
          Ok (Some {| tc_Path := path;
                      tc_Regular := (bool_decide (mode = "100644") || bool_decide (mode = "100755")) &&
                                    bool_decide (kind = "blob") |})
      | _ => Err (Errorf "committed task corpus entry %q is malformed" [AStr record])
      end.

Fixpoint parseTaskCorpus (records : list string) : result error (list TaskCorpusEntry) :=
  match records with
  | [] => Ok []
  | record :: records =>
      entry ← parseTaskCorpusEntry record;
      entries ← parseTaskCorpus records;
      Ok (match entry with Some e => e :: entries | None => entries end)
  end.

Definition entry_le (a b : TaskCorpusEntry) : Prop := String.le (tc_Path a) (tc_Path b).
#[export] Instance entry_le_dec : RelDecision entry_le.
Proof. intros a b. unfold entry_le. apply _. Defined.

Definition scheduleEntries (schedule : PlanSchedule) : list string :=
  Active schedule ++ Next schedule ++ Blocked schedule.

Section Committed.
Context `{Git}.

Definition gitOutput (root : string) (args : list string) : result error string :=
  output ← wrap_err (λ e, Errorf "git %s: %w" [AStr (Join args " "); AErr e]) (git_command root args);
  Ok (TrimRightByte output LF).

Definition readObject (root revision path : string) : result error string :=
  git_command root ["show"; revision +:+ ":" +:+ path].

Definition taskCorpusEntries (root revision : string) (includeTrees : bool)
    : result error (list TaskCorpusEntry) :=
  output ← wrap_err (λ e, Errorf "enumerate committed task corpus: %w" [AErr e])
    (gitOutput root (["ls-tree"; "-r"] ++ (if includeTrees then ["-t"] else []) ++
                     ["-z"; revision; "--"; TasksDir]));
  entries ← parseTaskCorpus (Split output "000");
  Ok (merge_sort entry_le entries).

Fixpoint loadTasks (root head : string) (entries : list TaskCorpusEntry)
    : result error (list Task * gmap string string) :=
  match entries with
  | [] => Ok ([], ∅)
  | entry :: entries =>
      if negb (tc_Regular entry) then loadTasks root head entries
      else
        content ← wrap_err (λ e, Errorf "read committed semantic task %s: %w"
                                   [AStr (tc_Path entry); AErr e])
                    (readObject root head (tc_Path entry));
        '(tasks, contents) ← loadTasks root head entries;
        Ok ({| tk_Path := tc_Path entry; tk_Content := content |} :: tasks,
            contents ∪ {[tc_Path entry := content]})
  end.

(** The fuel of the graph never runs out ([TaskGraph.BuildTaskGraph_total]), so
    the empty case of its error is unreachable. *)
Definition Load (root revision : string) : result error Project :=
  head ← gitOutput root ["rev-parse"; "--verify"; revision +:+ "^{commit}"];
  let head := TrimSpace head in
  reject! bool_decide (head = "") with err "committed repository revision is empty";
  plan ← wrap_err (λ e, Errorf "read committed implementation plan: %w" [AErr e])
           (readObject root head "IMPLEMENTATION_PLAN.local.md");
  let schedule := ParsePlanSchedule plan in
  rootTaskPath ← ValidateComplete schedule;
  entries ← taskCorpusEntries root head false;
  _ ← ValidateClosure schedule entries "committed Plan/task corpus closure is invalid";
  '(tasks, contents) ← loadTasks root head entries;
  graph ← wrap_err (λ e, Errorf "build committed semantic task graph: %w"
                           (AErr <$> option_list e))
            (BuildTaskGraph (scheduleEntries schedule) contents);
  Ok {| pj_Head := head; pj_Plan := plan; pj_Schedule := schedule;
        pj_RootTaskPath := rootTaskPath; pj_Tasks := tasks; pj_graph := graph |}.

Context `{Host}.

(** ** The controller's view ([committed_task.go]) *)
Definition task_ref (task : Task) : SemanticTaskRef :=
  {| ref_TaskPath := tk_Path task; ref_RequestID := ""; ref_ContractDigest := digestBytes (tk_Content task) |}.

Definition findTaskRef (refs : list SemanticTaskRef) (path : string) : option SemanticTaskRef :=
  find (λ ref, bool_decide (ref_TaskPath ref = path)) refs.

Definition dependency_le (a b : Dependency) : Prop := String.le (dep_Task a) (dep_Task b).
#[export] Instance dependency_le_dec : RelDecision dependency_le.
Proof. intros a b. unfold dependency_le. apply _. Defined.

Definition digestDependencies (dependencies : list Dependency) : string :=
  digestStrings ("controller-semantic-graph-v1" ::
    (merge_sort dependency_le dependencies ≫= λ d,
       [dep_Task d; "outstanding"] ++ merge_sort String.le (dep_Outstanding d) ++
       ["fulfilled"] ++ merge_sort String.le (dep_Fulfilled d))).

Definition digestSchedule (schedule : PlanSchedule) : string :=
  digestStrings (["controller-schedule-v1"; "ACTIVE"] ++ Active schedule ++ ["NEXT"] ++
                 Next schedule ++ ["BLOCKED"] ++ Blocked schedule).

Definition committedTaskExecutionMode (project : Project) : result error ExecutionAuthority :=
  match find (λ task, bool_decide (tk_Path task = pj_RootTaskPath project)) (pj_Tasks project) with
  | Some task =>
      wrap_err (λ e, Errorf "committed root task %s: %w" [AStr (tk_Path task); AErr e])
        (ParseExecutionAuthority (tk_Content task))
  | None => Err (Errorf "committed root task %s is missing from task corpus"
                   [AStr (pj_RootTaskPath project)])
  end.

Definition resolveCommittedTaskAuthority (repoRoot repositoryID head : string)
    : result error TaskAuthority :=
  project ← Load repoRoot head;
  let refs := task_ref <$> pj_Tasks project in
  match findTaskRef refs (pj_RootTaskPath project) with
  | None => Err (Errorf "committed root task %s is missing from task corpus"
                   [AStr (pj_RootTaskPath project)])
  | Some root =>
      authority ← committedTaskExecutionMode project;
      let snapshot := {|
        ps_UserRequest := None;
        ps_CompletedRequest := None;
        ps_SchemaVersion := controllerSchemaVersion;
        ps_SnapshotID := "";
        ps_RepositoryIdentity := repositoryID;
        ps_HeadOID := pj_Head project;
        ps_PlanDigest := digestBytes (pj_Plan project);
        ps_TaskCorpusDigest := digestTaskRefs refs;
        ps_SemanticGraphDigest := digestDependencies (Dependencies (pj_graph project));
        ps_ScheduleDigest := digestSchedule (pj_Schedule project);
        ps_Active := Active (pj_Schedule project);
        ps_Next := Next (pj_Schedule project);
        ps_Blocked := Blocked (pj_Schedule project);
        ps_Tasks := refs |} in
      let snapshot := snapshot {{ ps_SnapshotID := projectSnapshotID snapshot }} in
      Ok {| au_Task := root; au_ProjectSnapshotID := ps_SnapshotID snapshot;
            au_Snapshot := snapshot; au_ExecutionMode := ea_Mode authority |}
  end.

(** [projectDependencyAuthority] of [episode.go]. *)
Definition projectDependencyAuthority (primaryRoot : string) (project : ProjectSnapshot)
    : result error (gmap string SemanticTaskRef * gmap string (list string)) :=
  committed ← Load primaryRoot (ps_HeadOID project);
  Ok (foldl (λ m task, <[tk_Path task := task_ref task]> m) ∅ (pj_Tasks committed),
      foldl (λ m d, <[dep_Task d := dep_Outstanding d]> m) ∅ (Dependencies (pj_graph committed))).

(** ** The dependency authority *)
Lemma loadTasks_paths root head entries tasks contents :
  loadTasks root head entries = Ok (tasks, contents) →
  dom contents = list_to_set (tk_Path <$> tasks).
Proof.
  revert tasks contents. induction entries as [|entry entries IH]; simpl; intros tasks contents.
  - by intros [= <- <-].
  - destruct (tc_Regular entry); simpl; [|apply IH].
    intros (content & _ & E)%result_bind_Ok.
    apply result_bind_Ok in E as ([tasks' contents'] & E & [= <- <-]).
    rewrite dom_union_L, dom_singleton_L, (IH _ _ E). csimpl. set_solver.
Qed.

(** A map filled by a loop over a list. *)
Section Filled.
Context {A V : Type} (k : A → string) (v : A → V).
Let fill := foldl (λ (m : gmap string V) a, <[k a := v a]> m).

Lemma fill_lookup l m p x :
  fill m l !! p = Some x → m !! p = Some x ∨ ∃ a, a ∈ l ∧ k a = p ∧ v a = x.
Proof.
  revert m. induction l as [|a l IH]; simpl; intros m; [by left|].
  intros [H'|(a' & ? & ? & ?)]%IH; [|right; exists a'; set_solver].
  destruct (decide (k a = p)) as [<-|Hp].
  - rewrite lookup_insert_eq in H'. injection H' as <-. right. exists a. set_solver.
  - rewrite lookup_insert_ne in H' by done. by left.
Qed.
Lemma fill_is_Some l m p : p ∈ k <$> l ∨ is_Some (m !! p) → is_Some (fill m l !! p).
Proof.
  revert m. induction l as [|a l IH]; simpl; intros m Hp; [set_solver|].
  apply IH. destruct (decide (k a = p)) as [<-|Hn].
  - right. rewrite lookup_insert_eq. by eexists.
  - rewrite lookup_insert_ne by done. set_solver.
Qed.
End Filled.

(** [q] is an outstanding dependency of [p]. *)
Definition depends (deps : gmap string (list string)) (p q : string) : Prop :=
  ∃ os, deps !! p = Some os ∧ q ∈ os.

Lemma Load_graph root revision pj :
  Load root revision = Ok pj →
  ∃ contents, dom contents = list_to_set (tk_Path <$> pj_Tasks pj) ∧
    BuildTaskGraph (scheduleEntries (pj_Schedule pj)) contents = Ok (pj_graph pj).
Proof.
  unfold Load. intros HL. result_inv HL.
  lazymatch goal with E : loadTasks _ _ _ = Ok ?x, F : (let '(_, _) := ?x in _) = _ |- _ =>
    destruct x as [tasks contents]; apply loadTasks_paths in E; result_inv F end.
  by exists contents.
Qed.

(** The edges of the authority map are the dependencies the task files declare. *)
Lemma depends_edge entries contents g p q :
  BuildTaskGraph entries contents = Ok g →
  depends (foldl (λ m d, <[dep_Task d := dep_Outstanding d]> m) ∅ (Dependencies g)) p q →
  edge contents p q ∧ resolvable contents p.
Proof.
  intros Hg (os & Hos & Hq).
  apply fill_lookup in Hos as [Hos|(d & Hd & <- & <-)]; [by rewrite lookup_empty in Hos|].
  pose proof (proj1 (BuildTaskGraph_iff entries contents)) as Hres. rewrite Hg in Hres.
  specialize (Hres eq_refl). rewrite Forall_forall in Hres.
  apply BuildTaskGraph_Dependencies_iff in Hg as [_ Hg].
  apply Hg in Hd as [(e & He & Hr) (content & Hc & Hp)]. split.
  - by eexists content, _.
  - apply Hres in He. apply rtc_tc in Hr as [<-|Hr]; [done|]. by eapply resolvable_tc.
Qed.

Lemma projectDependencyAuthority_keyed root project refs deps p r :
  projectDependencyAuthority root project = Ok (refs, deps) → refs !! p = Some r → ref_TaskPath r = p.
Proof.
  intros (pj & HL & E)%result_bind_Ok. injection E as <- <-.
  intros [Hr|(t & _ & <- & <-)]%fill_lookup; [by rewrite lookup_empty in Hr|done].
Qed.

(** The dependency authority of a committed project is coherent: every
    reference stands under its own path, every outstanding dependency is a
    committed task, and no task waits for itself through any chain. *)
Theorem projectDependencyAuthority_coherent root project refs deps :
  projectDependencyAuthority root project = Ok (refs, deps) →
  (∀ p r, refs !! p = Some r → ref_TaskPath r = p) ∧
  (∀ p q, depends deps p q → is_Some (refs !! p) ∧ is_Some (refs !! q)) ∧
  (∀ p, ¬ tc (depends deps) p p).
Proof.
  intros Hpa. pose proof Hpa as (pj & HL & E)%result_bind_Ok. injection E as <- <-.
  apply Load_graph in HL as (contents & Hdom & Hg).
  assert (∀ p, p ∈ dom contents → is_Some
    (foldl (λ m task, <[tk_Path task := task_ref task]> m) (∅ : gmap string SemanticTaskRef)
       (pj_Tasks pj) !! p)) as Hrefs.
  { intros p Hp. apply fill_is_Some. left. set_solver. }
  split; [|split].
  - intros p r. by eapply projectDependencyAuthority_keyed.
  - intros p q Hpq. destruct (depends_edge _ _ _ _ _ Hg Hpq) as [He Hres].
    split; apply Hrefs, elem_of_dom.
    + destruct (resolvable_content _ _ Hres) as (c & _ & Hc & _). by eexists.
    + destruct (resolvable_content _ _ (resolvable_edge _ _ _ Hres He)) as (c & _ & Hc & _). by eexists.
  - intros p Hpp. assert (resolvable contents p) as Hres.
    { inversion Hpp; subst; eapply depends_edge; eauto. }
    eapply resolvable_acyclic; [exact Hres|]. clear Hres. revert Hpp. generalize p at 2 4 as q. intros q Hpq.
    induction Hpq as [x y E|x y z E _ IH];
      [apply tc_once|eapply tc_l; [|exact IH]]; exact (proj1 (depends_edge _ _ _ _ _ Hg E)).
Qed.
End Committed.

(** ** A concrete commit *)
Definition demo_plan : string := "# Plan
## ACTIVE
- `IMPLEMENTATION_TASKS/a.md`
## NEXT
- IMPLEMENTATION_TASKS/b.md
## BLOCKED
".
Definition demo_listing : string :=
  "100644 blob 11	IMPLEMENTATION_TASKS/a.md" +:+ String "000"
  ("100644 blob 22	IMPLEMENTATION_TASKS/b.md" +:+ String "000" "").
Definition demo_git : Git := λ root args,
  match args with
  | "rev-parse" :: _ => Ok ("c0ffee" +:+ String LF "")
  | "ls-tree" :: _ => Ok demo_listing
  | ["show"; "c0ffee:IMPLEMENTATION_PLAN.local.md"] => Ok demo_plan
  | ["show"; "c0ffee:IMPLEMENTATION_TASKS/a.md"] => Ok "## Dependencies
none
"
  | ["show"; "c0ffee:IMPLEMENTATION_TASKS/b.md"] => Ok "## Dependencies
- `IMPLEMENTATION_TASKS/a.md`
"
  | _ => Err (err "unknown object")
  end.
Definition demo_committed_host : Host :=
  {| sha256_hex s := s; RequireRequestRepository _ := Ok () |}.
Definition demo_project : ProjectSnapshot := {|
  ps_UserRequest := None; ps_CompletedRequest := None; ps_SchemaVersion := 1; ps_SnapshotID := "s";
  ps_RepositoryIdentity := "repo"; ps_HeadOID := "c0ffee"; ps_PlanDigest := ""; ps_TaskCorpusDigest := "";
  ps_SemanticGraphDigest := ""; ps_ScheduleDigest := ""; ps_Active := []; ps_Next := [];
  ps_Blocked := []; ps_Tasks := [] |}.
Definition demo_authority : result error (gmap string SemanticTaskRef * gmap string (list string)) :=
  projectDependencyAuthority (H:=demo_git) (H0:=demo_committed_host) "/r" demo_project.

Lemma projectDependencyAuthority_coherent_witness :
  match demo_authority with
  | Ok (_, deps) =>
      deps !! "IMPLEMENTATION_TASKS/b.md" = Some ["IMPLEMENTATION_TASKS/a.md"] ∧
      ∀ p, ¬ tc (depends deps) p p
  | Err _ => False
  end.
Proof.
  assert (match demo_authority with
    | Ok (_, deps) => bool_decide (deps !! "IMPLEMENTATION_TASKS/b.md" = Some ["IMPLEMENTATION_TASKS/a.md"])
    | Err _ => false end = true) as Hok by (vm_compute; reflexivity).
  destruct demo_authority as [[refs deps]|e] eqn:E; [|discriminate Hok].
  split; [by apply bool_decide_eq_true in Hok|].
  exact (proj2 (proj2 (projectDependencyAuthority_coherent (H:=demo_git) (H0:=demo_committed_host)
    "/r" demo_project refs deps E))).
Defined.
