(* ===== verification/Episode.v ===== *)
(** * Blocker episodes: planning

    Models the planning half of [internal/controller/episode.go]: when a
    finding blocks the executed task, the controller plans a revision of the
    blocker episode, the closure of the tasks to run first and an order to run
    them in.  The dependency graph it plans over is the committed one together
    with the episode's own unsatisfied edges. *)
From S2P Require Import Prelude GoStrings ControllerTypes ControllerStore CommittedProject.
From stdpp Require Import pretty.

Definition EpisodeStatePlanned : EpisodeState := "planned".
Definition EpisodeStateReplanning : EpisodeState := "replanning".
Definition EpisodeStateResumingRoot : EpisodeState := "resuming-root".
Definition EpisodeStateClosed : EpisodeState := "closed".

(** ** References and edges *)
Fixpoint taskRefIn (refs : list SemanticTaskRef) (candidate : SemanticTaskRef) : bool :=
  match refs with
  | [] => false
  | ref :: refs => if Equal ref candidate then true else taskRefIn refs candidate
  end.
Definition appendTaskRefUnique (refs : list SemanticTaskRef) (candidate : SemanticTaskRef)
    : list SemanticTaskRef :=
  if taskRefIn refs candidate then refs else refs ++ [candidate].

Fixpoint hasEpisodeEdge (edges : list EpisodeDependencyEdge) (candidate : EpisodeDependencyEdge) : bool :=
  match edges with
  | [] => false
  | edge :: edges =>
      if Equal (ee_BlockedTaskRef edge) (ee_BlockedTaskRef candidate) &&
         Equal (ee_DependencyTaskRef edge) (ee_DependencyTaskRef candidate)
      then true else hasEpisodeEdge edges candidate
  end.

Definition appendUniqueString (values : list string) (candidate : string) : list string :=
  if existsb (λ value, bool_decide (value = candidate)) values then values else values ++ [candidate].

(** Adjacent duplicates are dropped; the callers sort first. *)
Fixpoint uniqueLoop (values result : list string) : list string :=
  match values with
  | [] => result
  | value :: values =>
      if match last result with None => true | Some x => bool_decide (x ≠ value) end
      then uniqueLoop values (result ++ [value]) else uniqueLoop values result
  end.
Definition uniqueStrings (values : list string) : list string :=
  if bool_decide (length values < 2) then values else uniqueLoop values [].

Notation Deps := (gmap string (list string)) (only parsing).
(** A missing key of a Go map reads as nil. *)
Definition get (m : Deps) (path : string) : list string := default [] (m !! path).

(** The loop both graphs are built by. *)
Fixpoint addEdges (edges : list EpisodeDependencyEdge) (satisfied : list SemanticTaskRef)
    (m : Deps) : Deps :=
  match edges with
  | [] => m
  | edge :: edges =>
      if taskRefIn satisfied (ee_DependencyTaskRef edge) then addEdges edges satisfied m
      else
        let blocked := ref_TaskPath (ee_BlockedTaskRef edge) in
        addEdges edges satisfied
          (<[blocked := appendUniqueString (get m blocked) (ref_TaskPath (ee_DependencyTaskRef edge))]> m)
  end.
Definition buildEpisodeDependencies (edges : list EpisodeDependencyEdge)
    (satisfied : list SemanticTaskRef) : Deps := addEdges edges satisfied ∅.

(** ** Cycle check

    The state of a path is 0 (unvisited), 1 (on the stack) or 2 (done).
    [Err None] is exhausted fuel; [validateEpisodeAcyclic_spec] shows that it
    does not happen. *)
Notation loading := (result (option error)) (only parsing).
Definition state_of (states : gmap string N) (path : string) : N := default 0%N (states !! path).

Section Visit.
Context (visit : string → gmap string N → loading (gmap string N)).
Fixpoint visitAll (dependencies : list string) (states : gmap string N) : loading (gmap string N) :=
  match dependencies with
  | [] => Ok states
  | dependency :: dependencies => states ← visit dependency states; visitAll dependencies states
  end.
End Visit.

Fixpoint visitEpisodeDependency (fuel : nat) (adjacency : Deps) (path : string)
    (states : gmap string N) : loading (gmap string N) :=
  match fuel with
  | 0 => Err None
  | S fuel =>
      if bool_decide (state_of states path = 1%N) then
        Err (Some (Errorf "blocker dependency cycle detected at %s" [AStr path]))
      else if bool_decide (state_of states path = 2%N) then Ok states
      else
        states ← visitAll (visitEpisodeDependency fuel adjacency) (get adjacency path)
                   (<[path := 1%N]> states);
        Ok (<[path := 2%N]> states)
  end.

(** Every path of the graph: its keys and what they depend on. *)
Definition graph_paths (m : Deps) : gset string :=
  dom m ∪ list_to_set (mjoin (snd <$> map_to_list m)).

(** [range m] is the order in which Go visits the keys of a map. *)
Definition validateEpisodeAcyclic (range : Deps → list string) (canonical : Deps)
    (edges : list EpisodeDependencyEdge) (satisfied : list SemanticTaskRef) : loading unit :=
  let adjacency := addEdges edges satisfied canonical in
  _ ← visitAll (visitEpisodeDependency (S (size (graph_paths adjacency))) adjacency)
        (range adjacency) ∅;
  Ok ().

(** ** Closure *)
Record episodeClosureWalker := {
  wk_refs : gmap string SemanticTaskRef;
  wk_canonical : Deps;
  wk_episodeDependencies : Deps;
  wk_seen : gset string;
  wk_visiting : gset string;
  wk_order : list SemanticTaskRef;
}.

Definition walkDependencies (w : episodeClosureWalker) (path : string) : list string :=
  uniqueStrings (merge_sort String.le
    (get (wk_canonical w) path ++ get (wk_episodeDependencies w) path)).

Section Walk.
Context (walk : string → episodeClosureWalker → loading episodeClosureWalker).
Fixpoint walkAll (dependencies : list string) (w : episodeClosureWalker) : loading episodeClosureWalker :=
  match dependencies with
  | [] => Ok w
  | dependency :: dependencies => w ← walk dependency w; walkAll dependencies w
  end.
End Walk.

Fixpoint walk (fuel : nat) (path : string) (w : episodeClosureWalker) : loading episodeClosureWalker :=
  match fuel with
  | 0 => Err None
  | S fuel =>
      if bool_decide (path ∈ wk_seen w) then Ok w
      else if bool_decide (path ∈ wk_visiting w) then
        Err (Some (Errorf "blocker episode closure contains a cycle at %s" [AStr path]))
      else
        match wk_refs w !! path with
        | None => Err (Some (Errorf "blocker episode dependency %s is outside project authority" [AStr path]))
        | Some ref =>
            w ← walkAll (walk fuel) (walkDependencies w path)
                  (w {{ wk_visiting := {[path]} ∪ wk_visiting w }});
            Ok (w {{ wk_visiting := wk_visiting w ∖ {[path]};
                     wk_seen := {[path]} ∪ wk_seen w;
                     wk_order := wk_order w ++ [ref] }})
        end
  end.

Definition ref_le (a b : SemanticTaskRef) : Prop := String.le (ref_TaskPath a) (ref_TaskPath b).
#[export] Instance ref_le_dec : RelDecision ref_le.
Proof. intros a b. unfold ref_le. apply _. Defined.

Definition buildEpisodeClosure (root : SemanticTaskRef) (refs : gmap string SemanticTaskRef)
    (canonical : Deps) (edges : list EpisodeDependencyEdge) (satisfied : list SemanticTaskRef)
    : loading (list SemanticTaskRef * list SemanticTaskRef) :=
  reject! ref_Empty root with Some (err "blocker episode scope root is empty");
  reject! bool_decide (refs !! ref_TaskPath root = None)
    with Some (err "blocker episode scope root is outside project authority");
  let walker := {|
    wk_refs := refs; wk_canonical := canonical;
    wk_episodeDependencies := buildEpisodeDependencies edges satisfied;
    wk_seen := ∅; wk_visiting := ∅; wk_order := [] |} in
  walker ← walk (S (S (size refs))) (ref_TaskPath root) walker;
  Ok (merge_sort ref_le (wk_order walker), wk_order walker).

(** ** The cycle check finds exactly the cycles *)
Lemma state_of_insert s p n x :
  state_of (<[p := n]> s) x = if bool_decide (x = p) then n else state_of s x.
Proof.
  unfold state_of. case_bool_decide as E; [subst; by rewrite lookup_insert_eq|].
  by rewrite lookup_insert_ne.
Qed.

Section Acyclic.
Context (adjacency : Deps).
(** [q] is a dependency of [p]. *)
Definition successor (p q : string) : Prop := q ∈ get adjacency p.
(** No infinite chain of dependencies starts here. *)
Definition grounded : string → Prop := Acc (λ q p, successor p q).

Lemma grounded_acyclic p : grounded p → ¬ tc successor p p.
Proof. apply Acc_acyclic. Qed.

Definition wf_states (s : gmap string N) : Prop :=
  (∀ x, state_of s x ≤ 2)%N ∧ ∀ x, state_of s x = 2%N → grounded x.
(** What a completed visit may do to the states. *)
Definition grows (s s' : gmap string N) : Prop :=
  wf_states s' ∧ (∀ x, state_of s x ≠ 0%N → state_of s' x = state_of s x) ∧
  ∀ x, state_of s' x = 1%N → state_of s x = 1%N.

Lemma grows_refl s : wf_states s → grows s s.
Proof. intros Hs. split; [done|]. by split. Qed.
Lemma grows_trans s1 s2 s3 : grows s1 s2 → grows s2 s3 → grows s1 s3.
Proof.
  intros (_ & H1 & H1') (W & H2 & H2'). split; [done|]. split; [|by auto].
  intros x Hx. rewrite H2; rewrite H1; done.
Qed.

Lemma visitAll_grows visit deps s s' :
  (∀ p s s', wf_states s → visit p s = Ok s' → grows s s' ∧ state_of s' p = 2%N) →
  wf_states s → visitAll visit deps s = Ok s' →
  grows s s' ∧ ∀ p, p ∈ deps → state_of s' p = 2%N.
Proof.
  intros Hv. revert s. induction deps as [|p deps IH]; intros s Hs; simpl.
  - intros [= <-]. split; [by apply grows_refl|set_solver].
  - intros (s1 & H1 & H2)%result_bind_Ok. apply Hv in H1 as [H1 Hp]; [|done].
    apply IH in H2 as [H2 Hd]; [|apply H1]. split; [by eapply grows_trans|].
    intros q [->|?]%elem_of_cons; [|by auto]. destruct H2 as (_ & H2 & _). by rewrite H2; rewrite Hp.
Qed.

Lemma visit_grows fuel path s s' :
  wf_states s → visitEpisodeDependency fuel adjacency path s = Ok s' →
  grows s s' ∧ state_of s' path = 2%N.
Proof.
  revert path s s'. induction fuel as [|fuel IH]; intros path s s' Hs; simpl; [done|].
  case_bool_decide as H1; [done|]. case_bool_decide as H2.
  { intros [= <-]. split; [by apply grows_refl|done]. }
  assert (state_of s path = 0%N) as H0 by (pose proof (proj1 Hs path); lia).
  intros (s1 & HA & [= <-])%result_bind_Ok.
  apply visitAll_grows in HA as [[[W1 W2] [G1 G2]] Hd]; [|by eauto|].
  2:{ split; intros x; rewrite state_of_insert; case_bool_decide; try lia; apply Hs. }
  assert (grounded path) as Hg by (constructor; intros q Hq; by apply W2, Hd).
  split; [|by rewrite state_of_insert, bool_decide_true].
  split; [split|split].
  - intros x. rewrite state_of_insert. case_bool_decide; [lia|apply W1].
  - intros x. rewrite state_of_insert. case_bool_decide; [by subst|apply W2].
  - intros x Hx. assert (x ≠ path) by congruence. rewrite state_of_insert, bool_decide_false by done.
    rewrite G1; rewrite state_of_insert, bool_decide_false; done.
  - intros x. rewrite state_of_insert. case_bool_decide; [done|]. intros Hx%G2.
    by rewrite state_of_insert, bool_decide_false in Hx.
Qed.

(** The paths on the stack all lead to the visited one, so meeting one of them
    again closes a cycle. *)
Definition stacked (s : gmap string N) (path : string) : Prop :=
  ∀ z, state_of s z = 1%N → tc successor z path.

Lemma visitAll_cycle visit deps s e :
  (∀ p s s', wf_states s → visit p s = Ok s' → grows s s' ∧ state_of s' p = 2%N) →
  (∀ p s e, p ∈ deps → wf_states s → stacked s p → visit p s = Err (Some e) → ∃ z, tc successor z z) →
  wf_states s → (∀ p, p ∈ deps → stacked s p) →
  visitAll visit deps s = Err (Some e) → ∃ z, tc successor z z.
Proof.
  intros Hv He. revert s. induction deps as [|p deps IH]; intros s Hs Hst; simpl; [done|].
  intros [H|(s1 & H1 & H2)]%result_bind_Err.
  - eapply (He p s); [set_solver|done| |done]. apply Hst. set_solver.
  - apply Hv in H1 as [H1 _]; [|done]. eapply IH; [| |  |exact H2].
    + intros q s2 e2 Hq. apply He. set_solver.
    + apply H1.
    + intros q Hq z Hz. apply (Hst q); [set_solver|]. by apply H1.
Qed.

Lemma visit_cycle fuel path s e :
  wf_states s → stacked s path →
  visitEpisodeDependency fuel adjacency path s = Err (Some e) → ∃ z, tc successor z z.
Proof.
  revert path s e. induction fuel as [|fuel IH]; intros path s e Hs Hst; simpl; [done|].
  case_bool_decide as H1; [intros _; exists path; by apply Hst|].
  case_bool_decide as H2; [done|].
  intros [HA|(s1 & _ & ?)]%result_bind_Err; [|done].
  eapply visitAll_cycle; [apply visit_grows| | | |exact HA].
  - intros p s2 e2 _. apply IH.
  - split; intros x; rewrite state_of_insert; case_bool_decide; try lia; apply Hs.
  - intros p Hp z. rewrite state_of_insert. case_bool_decide as E.
    + intros _. subst. by apply tc_once.
    + intros Hz. eapply tc_r; [by apply Hst|done].
Qed.

(** The number of unvisited paths bounds the depth. *)
Definition unvisited (s : gmap string N) : gset string :=
  filter (λ x, state_of s x = 0%N) (graph_paths adjacency).

Lemma graph_paths_successor p q : successor p q → q ∈ graph_paths adjacency.
Proof.
  unfold successor, get, graph_paths. destruct (adjacency !! p) as [ds|] eqn:E; simpl; [|set_solver].
  intros Hq. apply elem_of_union_r, elem_of_list_to_set, list_elem_of_join.
  exists ds. split; [done|]. apply list_elem_of_fmap. exists (p, ds).
  split; [done|]. by apply elem_of_map_to_list.
Qed.

Lemma unvisited_grows s s' : grows s s' → unvisited s' ⊆ unvisited s.
Proof.
  intros (_ & G & _) x. unfold unvisited. rewrite !elem_of_filter. intros [Hx ?]. split; [|done].
  destruct (decide (state_of s x = 0%N)) as [|Hn]; [done|]. apply G in Hn as Hn'. congruence.
Qed.

Lemma visitAll_fuel visit deps s n :
  (∀ p s s', wf_states s → visit p s = Ok s' → grows s s' ∧ state_of s' p = 2%N) →
  (∀ p s, p ∈ deps → wf_states s → size (unvisited s) < n → visit p s ≠ Err None) →
  wf_states s → size (unvisited s) < n → visitAll visit deps s ≠ Err None.
Proof.
  intros Hv Hf. revert s. induction deps as [|p deps IH]; intros s Hs Hn; simpl; [done|].
  intros [H|(s1 & H1 & H2)]%result_bind_Err; [by eapply Hf in H; [|set_solver|..]|].
  apply Hv in H1 as [H1 _]; [|done]. revert H2. apply IH.
  - intros q s2 Hq. apply Hf. set_solver.
  - apply H1.
  - eapply Nat.le_lt_trans; [|exact Hn]. by apply subseteq_size, unvisited_grows.
Qed.

Lemma visit_fuel fuel path s :
  path ∈ graph_paths adjacency → wf_states s → size (unvisited s) < fuel →
  visitEpisodeDependency fuel adjacency path s ≠ Err None.
Proof.
  revert path s. induction fuel as [|fuel IH]; intros path s Hp Hs Hn; simpl; [lia|].
  case_bool_decide as H1; [done|]. case_bool_decide as H2; [done|].
  assert (state_of s path = 0%N) as H0 by (pose proof (proj1 Hs path); lia).
  intros [HA|(s1 & _ & ?)]%result_bind_Err; [|done]. revert HA.
  apply (visitAll_fuel _ _ _ fuel); [apply visit_grows| | |].
  - intros p s2 Hpd. apply IH. by eapply graph_paths_successor.
  - split; intros x; rewrite state_of_insert; case_bool_decide; try lia; apply Hs.
  - eapply Nat.lt_le_trans with (size (unvisited s)); [|lia]. apply subset_size. split.
    + intros x. unfold unvisited. rewrite !elem_of_filter, state_of_insert.
      case_bool_decide; [lia|]. tauto.
    + intros Hsub. assert (path ∈ unvisited s) as Hin by (unfold unvisited; by apply elem_of_filter).
      apply Hsub in Hin. unfold unvisited in Hin. rewrite elem_of_filter, state_of_insert in Hin.
      rewrite bool_decide_true in Hin by done. by destruct Hin.
Qed.
End Acyclic.

Lemma acyclic_iff range canonical edges satisfied :
  (∀ m, range m ≡ₚ elements (dom m)) →
  let adjacency := addEdges edges satisfied canonical in
  match validateEpisodeAcyclic range canonical edges satisfied with
  | Ok _ => ∀ p, ¬ tc (successor adjacency) p p
  | Err (Some _) => ∃ p, tc (successor adjacency) p p
  | Err None => False
  end.
Proof.
  intros Hr adjacency. unfold validateEpisodeAcyclic. fold adjacency.
  assert (wf_states adjacency ∅) as H0 by (split; intros x; unfold state_of; rewrite lookup_empty; done).
  set (visit := visitEpisodeDependency _ adjacency).
  destruct (visitAll visit (range adjacency) ∅) as [s|[e|]] eqn:E; simpl.
  - apply (visitAll_grows adjacency) in E as [HG Hall]; [|apply visit_grows|done].
    intros p. apply grounded_acyclic. constructor. intros q Hq.
    destruct (decide (q ∈ dom adjacency)) as [Hd|Hd].
    + apply HG, Hall. rewrite Hr. by apply elem_of_elements.
    + constructor. intros z Hz. unfold successor, get in Hz.
      apply not_elem_of_dom in Hd. rewrite Hd in Hz. simpl in Hz. set_solver.
  - eapply (visitAll_cycle adjacency); [apply visit_grows| |done| |exact E].
    + intros p s e' _. apply visit_cycle.
    + intros p _ z. unfold state_of. by rewrite lookup_empty.
  - revert E. apply (visitAll_fuel adjacency _ _ _ (S (size (graph_paths adjacency)))).
    + apply visit_grows.
    + intros p s Hp. apply visit_fuel. rewrite Hr in Hp. apply elem_of_elements in Hp.
      unfold graph_paths. set_solver.
    + done.
    + apply Nat.lt_succ_r, subseteq_size. intros x. unfold unvisited. by intros [_ ?]%elem_of_filter.
Qed.

(** C34: the cycle check always ends, and it accepts exactly the dependency graphs
    without a cycle, in whatever order Go visits the map. *)
Theorem validateEpisodeAcyclic_spec range canonical edges satisfied :
  (∀ m, range m ≡ₚ elements (dom m)) →
  (validateEpisodeAcyclic range canonical edges satisfied = Ok () ↔
   ∀ p, ¬ tc (successor (addEdges edges satisfied canonical)) p p) ∧
  validateEpisodeAcyclic range canonical edges satisfied ≠ Err None.
Proof.
  intros Hr. pose proof (acyclic_iff range canonical edges satisfied Hr) as H. cbv zeta in H.
  destruct (validateEpisodeAcyclic _ _ _ _) as [[]|[e|]]; [done| |done].
  split; [|done]. split; [done|]. destruct H as [p Hp]. intros Hn. by destruct (Hn p).
Qed.

(** ** The closure and its order *)
Lemma elem_of_uniqueLoop values result x :
  x ∈ uniqueLoop values result ↔ x ∈ result ∨ x ∈ values.
Proof.
  revert result. induction values as [|v values IH]; intros result; simpl; [set_solver|].
  destruct (last result) as [y|] eqn:E; [case_bool_decide as Hy|]; rewrite IH; try set_solver.
  subst. apply last_Some in E as [l ->]. set_solver.
Qed.
Lemma elem_of_uniqueStrings values x : x ∈ uniqueStrings values ↔ x ∈ values.
Proof. unfold uniqueStrings. case_bool_decide; [done|]. rewrite elem_of_uniqueLoop. set_solver. Qed.

Section Closure.
Context (refs : gmap string SemanticTaskRef) (canonical episodeDependencies : Deps).
Hypothesis refs_keyed : ∀ p r, refs !! p = Some r → ref_TaskPath r = p.

(** [p] waits for [q], in the committed graph or through an episode edge. *)
Definition waits (p q : string) : Prop := q ∈ get canonical p ∨ q ∈ get episodeDependencies p.

Record walker_ok (w : episodeClosureWalker) : Prop := {
  wo_refs : wk_refs w = refs;
  wo_canonical : wk_canonical w = canonical;
  wo_episode : wk_episodeDependencies w = episodeDependencies;
  wo_seen p : p ∈ wk_seen w ↔ p ∈ ref_TaskPath <$> wk_order w;
  wo_nodup : NoDup (ref_TaskPath <$> wk_order w);
  wo_order pre x post : wk_order w = pre ++ x :: post →
    refs !! ref_TaskPath x = Some x ∧
    ∀ q, waits (ref_TaskPath x) q → q ∈ ref_TaskPath <$> pre;
  wo_visiting : wk_seen w ## wk_visiting w;
}.

Lemma elem_of_walkDependencies w p q :
  walker_ok w → (q ∈ walkDependencies w p ↔ waits p q).
Proof.
  intros Hw. unfold walkDependencies, waits. rewrite (wo_canonical _ Hw), (wo_episode _ Hw).
  rewrite elem_of_uniqueStrings, merge_sort_Permutation. set_solver.
Qed.

(** What a completed walk to the paths [ps] does. *)
Definition walked (ps : list string) (w w' : episodeClosureWalker) : Prop :=
  walker_ok w' ∧ wk_visiting w' = wk_visiting w ∧ wk_seen w ⊆ wk_seen w' ∧
  (∀ p, p ∈ ps → p ∈ wk_seen w') ∧
  ∀ q, q ∈ wk_seen w' → q ∈ wk_seen w ∨ ∃ p, p ∈ ps ∧ rtc waits p q.

Lemma walkAll_walked go deps w w' :
  (∀ p w w', walker_ok w → go p w = Ok w' → walked [p] w w') →
  walker_ok w → walkAll go deps w = Ok w' → walked deps w w'.
Proof.
  intros Hgo. revert w. induction deps as [|p deps IH]; intros w Hw; simpl.
  - intros [= <-]. split; [done|]. split; [done|]. set_solver.
  - intros (w1 & (Hw1 & Hv1 & Hs1 & Hp1 & Hr1)%Hgo & H2)%result_bind_Ok; [|done].
    apply IH in H2 as (Hw2 & Hv2 & Hs2 & Hp2 & Hr2); [|done].
    split; [done|]. split; [congruence|]. split; [set_solver|]. split; [set_solver|].
    intros q [[?|(p' & Hp' & ?)]%Hr1|(p' & Hp' & ?)]%Hr2; [by left|right..].
    + apply list_elem_of_singleton in Hp' as ->. exists p. set_solver.
    + exists p'. set_solver.
Qed.

Definition mark (path : string) (w : episodeClosureWalker) : episodeClosureWalker :=
  w {{ wk_visiting := {[path]} ∪ wk_visiting w }}.
Definition finish (path : string) (ref : SemanticTaskRef) (w : episodeClosureWalker)
    : episodeClosureWalker :=
  w {{ wk_visiting := wk_visiting w ∖ {[path]}; wk_seen := {[path]} ∪ wk_seen w;
       wk_order := wk_order w ++ [ref] }}.

Lemma mark_ok path w : walker_ok w → path ∉ wk_seen w → walker_ok (mark path w).
Proof.
  intros [] Hp. constructor; unfold mark; simpl; try done. set_solver.
Qed.

Lemma walk_walked fuel path w w' :
  walker_ok w → walk fuel path w = Ok w' → walked [path] w w'.
Proof.
  revert path w w'. induction fuel as [|fuel IH]; intros path w w' Hw; simpl; [done|].
  case_bool_decide as Hs.
  { intros [= <-]. split; [done|]. split; [done|]. set_solver. }
  case_bool_decide as Hv; [done|].
  destruct (wk_refs w !! path) as [ref|] eqn:Href; [|done].
  assert (ref_TaskPath ref = path) as Hpath by (apply refs_keyed; by rewrite <- (wo_refs _ Hw)).
  intros (w1 & H1 & [= <-])%result_bind_Ok. change (wk_visiting _) with (wk_visiting w) in H1.
  fold (mark path w) in H1. fold (finish path ref w1).
  apply walkAll_walked in H1 as (Hw1 & Hv1 & Hs1 & Hd1 & Hr1); [|by eauto|by apply mark_ok].
  change (wk_visiting (mark path w)) with ({[path]} ∪ wk_visiting w) in Hv1.
  change (wk_seen (mark path w)) with (wk_seen w) in *.
  assert (path ∉ wk_seen w1) as Hn1.
  { pose proof (wo_visiting _ Hw1) as Hdis. rewrite Hv1 in Hdis. set_solver. }
  assert (walker_ok (finish path ref w1)) as Hok.
  { unfold finish. constructor; simpl; try apply Hw1.
    - intros p. rewrite fmap_app, elem_of_union, elem_of_singleton, elem_of_app, (wo_seen _ Hw1).
      simpl. rewrite list_elem_of_singleton, Hpath. tauto.
    - rewrite fmap_app, NoDup_app. split; [apply Hw1|]. split; [|apply NoDup_singleton].
      intros x Hx. simpl. rewrite list_elem_of_singleton, Hpath. intros ->. by apply Hn1, (wo_seen _ Hw1).
    - intros pre x post Hsplit. destruct (decide (post = [])) as [->|Hpost].
      + apply app_inj_tail in Hsplit as [<- <-]. split.
        * rewrite Hpath. by rewrite <- (wo_refs _ Hw).
        * intros q Hq. apply (wo_seen _ Hw1), Hd1. rewrite Hpath in Hq.
          by apply (elem_of_walkDependencies w path q Hw).
      + destruct post as [|y post _] using rev_ind; [done|].
        rewrite app_comm_cons, app_assoc in Hsplit. apply app_inj_tail in Hsplit as [Hsplit _].
        by apply (wo_order _ Hw1 pre x post).
    - pose proof (wo_visiting _ Hw1). rewrite Hv1 in *. set_solver. }
  split; [done|]. split; [|split; [|split]].
  - unfold finish. simpl. rewrite Hv1. set_solver.
  - unfold finish. simpl. set_solver.
  - unfold finish. simpl. set_solver.
  - unfold finish. simpl. intros q [->%elem_of_singleton|[?|(p & Hp & Hpq)]%Hr1]%elem_of_union.
    + right. exists path. split; [set_solver|done].
    + by left.
    + right. exists path. split; [set_solver|]. eapply rtc_l; [|exact Hpq].
      by apply (elem_of_walkDependencies w path p Hw).
Qed.

(** Why a walk fails: something reachable is not a project task, or a chain of
    dependencies returns to where it was. *)
Definition broken (p : string) : Prop :=
  ∃ z, rtc waits p z ∧ (refs !! z = None ∨ tc waits z z).
Definition approaches (w : episodeClosureWalker) (p : string) : Prop :=
  ∀ z, z ∈ wk_visiting w → tc waits z p.

Lemma walkAll_failed go deps w e :
  (∀ p w w', walker_ok w → go p w = Ok w' → walked [p] w w') →
  (∀ p w e, p ∈ deps → walker_ok w → approaches w p → go p w = Err (Some e) → broken p) →
  walker_ok w → (∀ p, p ∈ deps → approaches w p) →
  walkAll go deps w = Err (Some e) → ∃ p, p ∈ deps ∧ broken p.
Proof.
  intros Hgo Hf. revert w. induction deps as [|p deps IH]; intros w Hw Ha; simpl; [done|].
  intros [H|(w1 & H1 & H2)]%result_bind_Err.
  - exists p. split; [set_solver|]. eapply Hf, H; [set_solver|done|]. apply Ha. set_solver.
  - apply Hgo in H1 as (Hw1 & Hv1 & _); [|done].
    apply IH in H2 as (q & Hq & Hb); [exists q; set_solver|set_solver|done|].
    intros q Hq z. rewrite Hv1. apply Ha. set_solver.
Qed.

Lemma walk_failed fuel path w e :
  walker_ok w → approaches w path → walk fuel path w = Err (Some e) → broken path.
Proof.
  revert path w e. induction fuel as [|fuel IH]; intros path w e Hw Ha; simpl; [done|].
  case_bool_decide as Hs; [done|]. case_bool_decide as Hv.
  { intros _. exists path. split; [done|]. right. by apply Ha. }
  destruct (wk_refs w !! path) as [ref|] eqn:Href.
  2:{ intros _. exists path. split; [done|]. left. by rewrite <- (wo_refs _ Hw). }
  intros [H1|(w1 & _ & ?)]%result_bind_Err; [|done]. fold (mark path w) in H1.
  apply walkAll_failed in H1 as (p & Hp & z & Hz & Hb); [|apply walk_walked| |by apply mark_ok|].
  - exists z. split; [|done]. eapply rtc_l; [|exact Hz]. by apply (elem_of_walkDependencies w path p Hw).
  - intros p w2 e2 _. apply IH.
  - intros p Hp z Hz. apply (elem_of_walkDependencies w path p Hw) in Hp.
    unfold mark in Hz. simpl in Hz. apply elem_of_union in Hz as [->%elem_of_singleton|Hz].
    + by apply tc_once.
    + eapply tc_r; [by apply Ha|done].
Qed.

Definition pending (w : episodeClosureWalker) : gset string :=
  dom refs ∖ (wk_seen w ∪ wk_visiting w).

Lemma walkAll_fuel go deps w n :
  (∀ p w w', walker_ok w → go p w = Ok w' → walked [p] w w') →
  (∀ p w, walker_ok w → size (pending w) < n → go p w ≠ Err None) →
  walker_ok w → size (pending w) < n → walkAll go deps w ≠ Err None.
Proof.
  intros Hgo Hf. revert w. induction deps as [|p deps IH]; intros w Hw Hn; simpl; [done|].
  intros [H|(w1 & H1 & H2)]%result_bind_Err; [by eapply Hf in H|].
  apply Hgo in H1 as (Hw1 & Hv1 & Hs1 & _); [|done]. revert H2. apply IH; [done|].
  eapply Nat.le_lt_trans; [|exact Hn]. apply subseteq_size. unfold pending. rewrite Hv1. set_solver.
Qed.

Lemma walk_fuel fuel path w :
  walker_ok w → size (pending w) < fuel → walk fuel path w ≠ Err None.
Proof.
  revert path w. induction fuel as [|fuel IH]; intros path w Hw Hn; simpl; [lia|].
  case_bool_decide as Hs; [done|]. case_bool_decide as Hv; [done|].
  destruct (wk_refs w !! path) as [ref|] eqn:Href; [|done].
  intros [H1|(w1 & _ & ?)]%result_bind_Err; [|done]. fold (mark path w) in H1. revert H1.
  apply (walkAll_fuel _ _ _ fuel); [apply walk_walked|by eauto|by apply mark_ok|].
  apply Nat.lt_le_trans with (size (pending w)); [|lia]. apply subset_size.
  assert (path ∈ dom refs) as Hd by (rewrite <- (wo_refs _ Hw); apply elem_of_dom; by eexists).
  unfold pending, mark. simpl. split; [set_solver|]. intros Hsub.
  specialize (Hsub path). set_solver.
Qed.

(** An order in which everything comes after what it waits for. *)
Definition topological (order : list SemanticTaskRef) : Prop :=
  ∀ pre x post, order = pre ++ x :: post →
    refs !! ref_TaskPath x = Some x ∧ ∀ q, waits (ref_TaskPath x) q → q ∈ ref_TaskPath <$> pre.

Lemma topological_acyclic order p :
  topological order → p ∈ ref_TaskPath <$> order → ¬ tc waits p p.
Proof.
  intros Ht Hp. assert (Acc (λ q p, waits p q) p) as Hacc.
  { revert p Hp. assert (∀ pre post, order = pre ++ post →
      ∀ p, p ∈ ref_TaskPath <$> pre → Acc (λ q p, waits p q) p) as H;
      [|intros p Hp; apply (H order []); [by rewrite app_nil_r|done]].
    induction pre as [|x pre IH] using rev_ind; intros post Ho p; [set_solver|].
    rewrite <- app_assoc in Ho. simpl in Ho. rewrite fmap_app, elem_of_app. intros [Hp|Hp].
    - by eapply IH.
    - simpl in Hp. apply list_elem_of_singleton in Hp as ->. constructor. intros q Hq.
      eapply IH; [exact Ho|]. by apply (Ht pre x post Ho). }
  by apply Acc_acyclic.
Qed.

Definition start : episodeClosureWalker := {|
  wk_refs := refs; wk_canonical := canonical; wk_episodeDependencies := episodeDependencies;
  wk_seen := ∅; wk_visiting := ∅; wk_order := [] |}.
Lemma start_ok : walker_ok start.
Proof.
  constructor; simpl; try done; [set_solver|apply NoDup_nil_2|by intros []].
Qed.
End Closure.

Lemma closure_iff root refs canonical edges satisfied :
  (∀ p r, refs !! p = Some r → ref_TaskPath r = p) →
  let waits := waits canonical (buildEpisodeDependencies edges satisfied) in
  match buildEpisodeClosure root refs canonical edges satisfied with
  | Ok (closure, order) =>
      closure = merge_sort ref_le order ∧ NoDup (ref_TaskPath <$> order) ∧
      (∀ p, p ∈ ref_TaskPath <$> order ↔ rtc waits (ref_TaskPath root) p) ∧
      topological refs canonical (buildEpisodeDependencies edges satisfied) order ∧
      ref_Empty root = false
  | Err (Some _) => ref_Empty root = true ∨
      ∃ z, rtc waits (ref_TaskPath root) z ∧ (refs !! z = None ∨ tc waits z z)
  | Err None => False
  end.
Proof.
  intros Hk. cbv zeta. unfold buildEpisodeClosure. set (eps := buildEpisodeDependencies edges satisfied).
  destruct (ref_Empty root); [by left|]. case_bool_decide as Hroot.
  { right. exists (ref_TaskPath root). split; [done|by left]. }
  change {| wk_refs := refs |} with (start refs canonical eps).
  pose proof (start_ok refs canonical eps Hk) as H0.
  destruct (walk _ (ref_TaskPath root) (start refs canonical eps)) as [w|[e|]] eqn:E; simpl.
  - apply (walk_walked refs canonical eps Hk) in E as (Hw & _ & _ & Hp & Hr); [|done].
    split; [done|]. split; [apply Hw|]. split; [|split; [exact (wo_order _ _ _ _ Hw)|done]].
    intros p. split.
    + intros [?|(q & ->%list_elem_of_singleton & ?)]%(wo_seen _ _ _ _ Hw)%Hr; [set_solver|done].
    + intros Hrtc. apply rtc_ind_r with (P:=λ p, p ∈ ref_TaskPath <$> wk_order w) in Hrtc; [done| |].
      * apply (wo_seen _ _ _ _ Hw), Hp. set_solver.
      * intros y z _ Hyz (x & -> & (pre & post & Ho)%list_elem_of_split)%list_elem_of_fmap.
        rewrite Ho, fmap_app, elem_of_app. left. by apply (wo_order _ _ _ _ Hw pre x post).
  - right. eapply (walk_failed refs canonical eps Hk); [exact H0| |exact E]. intros z. simpl. set_solver.
  - revert E. apply (walk_fuel refs canonical eps Hk); [done|].
    apply Nat.lt_lt_succ_r, Nat.lt_succ_r. rewrite <- size_dom. apply subseteq_size. unfold pending. set_solver.
Qed.

(** C33: planning the closure of a blocker always ends.  It succeeds exactly when
    everything the scope root transitively waits for is a project task and no
    chain of dependencies is circular; the admitted order then lists exactly
    those tasks, each once and after everything it waits for, and the admitted
    closure is the same list sorted by path. *)
Theorem buildEpisodeClosure_spec root refs canonical edges satisfied :
  (∀ p r, refs !! p = Some r → ref_TaskPath r = p) →
  let episode := buildEpisodeDependencies edges satisfied in
  let waits := waits canonical episode in
  let planned := buildEpisodeClosure root refs canonical edges satisfied in
  planned ≠ Err None ∧
  (is_ok planned = true ↔ ref_Empty root = false ∧
     ∀ z, rtc waits (ref_TaskPath root) z → is_Some (refs !! z) ∧ ¬ tc waits z z) ∧
  ∀ closure order, planned = Ok (closure, order) →
    NoDup (ref_TaskPath <$> order) ∧
    (∀ p, p ∈ ref_TaskPath <$> order ↔ rtc waits (ref_TaskPath root) p) ∧
    topological refs canonical episode order ∧
    closure ≡ₚ order ∧ Sorted ref_le closure.
Proof.
  intros Hk. cbv zeta. pose proof (closure_iff root refs canonical edges satisfied Hk) as H. cbv zeta in H.
  destruct (buildEpisodeClosure _ _ _ _ _) as [[closure order]|[e|]]; [|split; [done|]|done].
  - destruct H as (-> & Hnd & Hreach & Ht & Hr). split; [done|]. split.
    + split; [|done]. intros _. split; [done|]. intros z Hz. apply Hreach in Hz. split.
      * apply list_elem_of_fmap in Hz as (x & -> & (pre & post & Ho)%list_elem_of_split).
        destruct (Ht pre x post Ho) as [-> _]. by eexists.
      * by eapply topological_acyclic.
    + intros closure' order' [= <- <-]. split_and!; try done.
      * apply merge_sort_Permutation.
      * apply Sorted_merge_sort. intros a b. apply (total String.le).
  - split; [|done]. split; [done|]. intros [Hne Hall].
    destruct H as [H|(z & Hz & [H|H])]; [congruence|..]; destruct (Hall z Hz) as [Hs Hn]; [|done].
    rewrite H in Hs. by destruct Hs.
Qed.

(** ** A concrete graph: [b] waits for [a] *)
Definition demo_ref (path digest : string) : SemanticTaskRef :=
  {| ref_TaskPath := path; ref_RequestID := ""; ref_ContractDigest := digest |}.
Definition demo_refs : gmap string SemanticTaskRef :=
  {["a" := demo_ref "a" "1"; "b" := demo_ref "b" "2"]}.
Definition demo_canonical : Deps := {["b" := ["a"]]}.
Definition demo_edge : EpisodeDependencyEdge :=
  {| ee_BlockedTaskRef := demo_ref "a" "1"; ee_DependencyTaskRef := demo_ref "b" "2";
     ee_FindingID := "f" |}.

Lemma validateEpisodeAcyclic_spec_witness :
  (validateEpisodeAcyclic (λ m, elements (dom m)) demo_canonical [] [] = Ok () ∧
   ∀ p, ¬ tc (successor (addEdges [] [] demo_canonical)) p p) ∧
  (is_ok (validateEpisodeAcyclic (λ m, elements (dom m)) demo_canonical [demo_edge] []) = false ∧
   ¬ ∀ p, ¬ tc (successor (addEdges [demo_edge] [] demo_canonical)) p p).
Proof.
  split.
  - split; [vm_compute; reflexivity|].
    apply (validateEpisodeAcyclic_spec (λ m, elements (dom m)) demo_canonical [] []
      (λ m, reflexivity _)). vm_compute. reflexivity.
  - split; [vm_compute; reflexivity|]. intros Hall.
    apply (validateEpisodeAcyclic_spec (λ m, elements (dom m)) demo_canonical [demo_edge] []
      (λ m, reflexivity _)) in Hall. vm_compute in Hall. discriminate.
Defined.

Lemma buildEpisodeClosure_spec_witness :
  buildEpisodeClosure (demo_ref "b" "2") demo_refs demo_canonical [] [] =
    Ok ([demo_ref "a" "1"; demo_ref "b" "2"], [demo_ref "a" "1"; demo_ref "b" "2"]) ∧
  topological demo_refs demo_canonical (buildEpisodeDependencies [] [])
    [demo_ref "a" "1"; demo_ref "b" "2"].
Proof.
  assert (buildEpisodeClosure (demo_ref "b" "2") demo_refs demo_canonical [] [] =
    Ok ([demo_ref "a" "1"; demo_ref "b" "2"], [demo_ref "a" "1"; demo_ref "b" "2"])) as E
    by (vm_compute; reflexivity).
  split; [exact E|].
  refine (proj1 (proj2 (proj2 (proj2 (proj2 (buildEpisodeClosure_spec (demo_ref "b" "2") demo_refs
    demo_canonical [] [] _)) _ _ E)))).
  intros p r Hr. unfold demo_refs in Hr. rewrite lookup_insert_Some, lookup_singleton_Some in Hr.
  by destruct Hr as [[<- <-]|(_ & <- & <-)].
Defined.
