(* ===== verification/Findings.v ===== *)
(** * Findings

    Models the store half of [internal/controller/finding.go]: observing a
    finding, the binding of a problem to its canonical finding and target, and
    the committed disposition.  Identities are digests over all fields that
    make a finding what it is, so that observing it again finds it again. *)
From S2P Require Import Prelude GoStrings ControllerTypes ControllerStore MutationControl.
From stdpp Require Import pretty.

Definition FindingProofUnverified : FindingProofClass := "unverified".
Definition FindingProofAttemptMutation : FindingProofClass := "attempt-mutation".
Definition FindingEvidenceMutation : FindingEvidenceKind := "mutation".

Definition FindingDecisionAmbiguous : FindingDecisionKind := "ambiguous".
Definition FindingDecisionSameTask : FindingDecisionKind := "same-task".
Definition FindingDecisionIndependentNonBlocking : FindingDecisionKind := "independent-nonblocking".
Definition FindingDecisionIndependentBlocking : FindingDecisionKind := "independent-blocking".
Definition FindingDecisionDuplicate : FindingDecisionKind := "duplicate-finding".
Definition FindingDecisionNonActionable : FindingDecisionKind := "non-actionable".

Definition FindingDispositionSameTask : FindingDispositionKind := "same-task".
Definition FindingDispositionIndependentNonBlocking : FindingDispositionKind := "independent-nonblocking".
Definition FindingDispositionIndependentBlocking : FindingDispositionKind := "independent-blocking".
Definition FindingDispositionDuplicate : FindingDispositionKind := "duplicate-finding".
Definition FindingDispositionNonActionable : FindingDispositionKind := "non-actionable".

Definition FindingIntentAwaitingDisposition : FindingIntentKind := "awaiting-disposition".
Definition FindingIntentSameTaskCorrection : FindingIntentKind := "same-task-correction".
Definition FindingIntentRegisterNonBlocking : FindingIntentKind := "register-nonblocking".
Definition FindingIntentOpenBlockerEpisode : FindingIntentKind := "open-blocker-episode".
Definition FindingIntentReplanBlockerEpisode : FindingIntentKind := "replan-blocker-episode".
Definition FindingIntentDuplicate : FindingIntentKind := "duplicate-finding".
Definition FindingIntentNoAction : FindingIntentKind := "no-action".
Definition FindingIntentNoRunnable : FindingIntentKind := "no-runnable-dependency".
Definition FindingIntentStartBlockerTask : FindingIntentKind := "start-blocker-task".
Definition FindingIntentResumeBlockerTask : FindingIntentKind := "resume-blocker-task".
Definition FindingIntentResumeRootTask : FindingIntentKind := "resume-root-task".

(** Two references in the order of their kinds, then their ids. *)
Definition evidence_le (a b : FindingEvidenceRef) : Prop :=
  if bool_decide (fe_Kind a ≠ fe_Kind b) then String.le (fe_Kind a) (fe_Kind b)
  else String.le (fe_ID a) (fe_ID b).
#[export] Instance evidence_le_dec : RelDecision evidence_le.
Proof. intros a b. unfold evidence_le. destruct (bool_decide _); apply _. Defined.

Definition canonicalFindingEvidence (evidence : list FindingEvidenceRef) : list FindingEvidenceRef :=
  merge_sort evidence_le evidence.

(** ** Input *)
Definition validateFindingInputShape (input : FindingObservationInput) : result error unit :=
  reject! bool_decide (fi_Producer input = "") with err "finding producer is required";
  reject! bool_decide (fi_ProblemKey input = "") with err "finding problem identity is required";
  reject! bool_decide (fi_ProofClass input = "") with err "finding proof class is required";
  reject! existsb (λ ref, bool_decide (fe_Kind ref = "") || bool_decide (fe_ID ref = ""))
            (fi_Evidence input)
    with err "finding evidence reference is incomplete";
  Ok ().

Section Findings.
Context `{Host} (identity : RepositoryIdentity).
Notation LoadHead := (LoadHead identity).

Definition validateFindingMutationRef (admission : Admission) (ref : FindingEvidenceRef) : io unit :=
  refuse! bool_decide (fe_Kind ref ≠ FindingEvidenceMutation) || bool_decide (fe_ID ref = "")
    with err "attempt-mutation proof contains unsupported evidence";
  mutation ← io_wrap (λ e, Errorf "read finding mutation evidence %s: %w" [AStr (fe_ID ref); AErr e])
               (readJSON (A:=MutationRecord) (mutationPath (fe_ID ref)));
  refuse! bool_decide (mu_SchemaVersion mutation ≠ controllerSchemaVersion) ||
          bool_decide (mu_MutationID mutation ≠ fe_ID ref) ||
          bool_decide (mu_AttemptID mutation ≠ at_AttemptID (ad_Attempt admission)) ||
          bool_decide (mu_TargetGeneration mutation ≠ hd_ControllerGeneration (ad_Head admission)) ||
          bool_decide (mu_TargetLeaseID mutation ≠ ls_LeaseID (ad_Lease admission))
    with Errorf "finding mutation evidence %s is not bound to the current execution attempt"
           [AStr (fe_ID ref)];
  mret ().

Fixpoint validateFindingMutationRefs (admission : Admission) (evidence : list FindingEvidenceRef)
    : io unit :=
  match evidence with
  | [] => mret ()
  | ref :: evidence =>
      _ ← validateFindingMutationRef admission ref; validateFindingMutationRefs admission evidence
  end.
Definition validateFindingMutationEvidence (admission : Admission)
    (evidence : list FindingEvidenceRef) : io unit :=
  refuse! bool_decide (length evidence = 0)
    with err "attempt-mutation proof requires mutation evidence";
  validateFindingMutationRefs admission evidence.

Definition validateFindingInput (admission : Admission) (input : FindingObservationInput) : io unit :=
  _ ← lift (validateFindingInputShape input);
  if bool_decide (fi_ProofClass input = FindingProofUnverified) then mret ()
  else if bool_decide (fi_ProofClass input = FindingProofAttemptMutation) then
    validateFindingMutationEvidence admission (fi_Evidence input)
  else fail (Errorf "unsupported finding proof class %s" [AStr (fi_ProofClass input)]).

(** ** Identities *)
Definition findingID (repositoryIdentity projectSnapshotID attemptID : string)
    (task : SemanticTaskRef) (workspaceSnapshotID : string) (generation : N)
    (producer : string) (proof : FindingProofClass) (evidence : list FindingEvidenceRef)
    (problemKey : string) : string :=
  digestStrings (
    ["controller-finding-v1"; repositoryIdentity; projectSnapshotID; attemptID;
     ref_TaskPath task; ref_ContractDigest task; workspaceSnapshotID; pretty generation;
     producer; proof; problemKey] ++
    (canonicalFindingEvidence evidence ≫= λ ref, [fe_Kind ref; fe_ID ref])).

(** [findingID] over the fields of a record. *)
Definition recordFindingID (finding : FindingRecord) : string :=
  findingID (fr_RepositoryIdentity finding) (fr_ProjectSnapshotID finding)
    (fr_SourceAttemptID finding) (fr_SourceSemanticTaskRef finding)
    (fr_SourceWorkspaceSnapshotID finding) (fr_SourceControllerGeneration finding)
    (fr_Producer finding) (fr_ProofClass finding) (fr_Evidence finding) (fr_ProblemKey finding).

Definition findingDispositionID (disposition : FindingDisposition) : string :=
  digestStrings (
    ["controller-finding-disposition-v1"; fp_FindingID disposition;
     fp_CanonicalFindingID disposition; fp_Kind disposition;
     pretty (fp_ControllerGeneration disposition); fp_BlockingBoundary disposition;
     fp_EpisodeID disposition; pretty (fp_EpisodeRevision disposition)] ++
    match fp_TargetTaskRef disposition with
    | Some ref => [ref_TaskPath ref; ref_ContractDigest ref] | None => [] end).

(** ** The store *)
Definition findingPath (id : string) : path := ["findings"; id +:+ ".json"].
Definition findingDispositionPath (id : string) : path := ["finding-dispositions"; id +:+ ".json"].
Definition findingProblemPath (problemKey : string) : path :=
  ["finding-problems"; digestStrings ["finding-problem-v1"; problemKey] +:+ ".json"].

Fixpoint makeStoreDirs (names : list string) : io unit :=
  match names with
  | [] => mret ()
  | name :: names =>
      _ ← io_wrap (λ e, Errorf "create controller finding store: %w" [AErr e]) (MkdirAll [name]);
      makeStoreDirs names
  end.
Definition ensureFindingStore : io unit :=
  makeStoreDirs ["findings"; "finding-dispositions"; "finding-problems"; "episodes"].

Definition LoadFinding (id : string) : io FindingRecord :=
  finding ← readJSON (A:=FindingRecord) (findingPath id);
  refuse! bool_decide (fr_SchemaVersion finding ≠ controllerSchemaVersion) ||
          bool_decide (fr_RepositoryIdentity finding ≠ ri_LineageID identity) ||
          bool_decide (fr_FindingID finding ≠ id) || bool_decide (recordFindingID finding ≠ id)
    with Errorf "finding %s identity is invalid" [AStr id];
  refuse! bool_decide (fr_CanonicalFindingID finding = "")
    with Errorf "finding %s has no canonical finding identity" [AStr id];
  mret finding.

Definition LoadFindingDisposition (findingID : string) : io FindingDisposition :=
  disposition ← readJSON (A:=FindingDisposition) (findingDispositionPath findingID);
  refuse! bool_decide (fp_SchemaVersion disposition ≠ controllerSchemaVersion) ||
          bool_decide (fp_FindingID disposition ≠ findingID) ||
          bool_decide (fp_DispositionID disposition ≠ findingDispositionID disposition)
    with Errorf "finding disposition %s identity is invalid" [AStr findingID];
  mret disposition.

Definition loadProblemBinding (problemKey : string) : io findingProblemBinding :=
  binding ← readJSON (A:=findingProblemBinding) (findingProblemPath problemKey);
  refuse! bool_decide (pb_SchemaVersion binding ≠ controllerSchemaVersion) ||
          bool_decide (pb_ProblemKey binding ≠ problemKey) ||
          bool_decide (pb_CanonicalFindingID binding = "")
    with err "finding problem binding is invalid";
  mret binding.

Definition loadOrCreateProblemBinding (problemKey findingID : string) : io findingProblemBinding :=
  binding ← attempt (loadProblemBinding problemKey);
  match binding with
  | Ok binding => mret binding
  | Err e =>
      refuse! negb (IsNotExist e) with e;
      now ← Now;
      let binding := {| pb_SchemaVersion := controllerSchemaVersion; pb_ProblemKey := problemKey;
        pb_CanonicalFindingID := findingID; pb_TargetTaskRef := None; pb_UpdatedAt := now |} in
      _ ← writeJSONAtomic (findingProblemPath problemKey) binding;
      mret binding
  end.

Definition bindFindingTarget (finding : FindingRecord) (target : SemanticTaskRef)
    : io findingProblemBinding :=
  binding ← loadProblemBinding (fr_ProblemKey finding);
  match pb_TargetTaskRef binding with
  | Some _ => mret binding
  | None =>
      now ← Now;
      let binding := binding {{ pb_TargetTaskRef := Some target; pb_UpdatedAt := now }} in
      _ ← writeJSONAtomic (findingProblemPath (fr_ProblemKey finding)) binding;
      mret binding
  end.

Definition commitFindingDisposition (finding : FindingRecord) (generation : N)
    (disposition : FindingDisposition) : io FindingDisposition :=
  let disposition := disposition {{
    fp_SchemaVersion := controllerSchemaVersion; fp_FindingID := fr_FindingID finding }} in
  let disposition :=
    if bool_decide (fp_CanonicalFindingID disposition = "")
    then disposition {{ fp_CanonicalFindingID := fr_CanonicalFindingID finding }}
    else disposition in
  let disposition := disposition {{ fp_ControllerGeneration := generation }} in
  let disposition := disposition {{ fp_DispositionID := findingDispositionID disposition }} in
  now ← Now;
  let disposition := disposition {{ fp_CommittedAt := now }} in
  _ ← writeJSONAtomic (findingDispositionPath (fr_FindingID finding)) disposition;
  mret disposition.

(** ** Observing a finding *)
Definition observeFindingLocked (projectSnapshotID : string) (attemptRecord : AttemptRecord)
    (workspaceSnapshotID : string) (generation : N) (input : FindingObservationInput)
    : io FindingRecord :=
  _ ← ensureFindingStore;
  let evidence := canonicalFindingEvidence (fi_Evidence input) in
  let id := findingID (ri_LineageID identity) projectSnapshotID (at_AttemptID attemptRecord)
    (at_SemanticTaskRef attemptRecord) workspaceSnapshotID generation (fi_Producer input)
    (fi_ProofClass input) evidence (fi_ProblemKey input) in
  existing ← attempt (LoadFinding id);
  match existing with
  | Ok existing => mret existing
  | Err e =>
      refuse! negb (IsNotExist e) with e;
      binding ← loadOrCreateProblemBinding (fi_ProblemKey input) id;
      now ← Now;
      let record := {|
        fr_SchemaVersion := controllerSchemaVersion;
        fr_FindingID := id;
        fr_RepositoryIdentity := ri_LineageID identity;
        fr_ProjectSnapshotID := projectSnapshotID;
        fr_SourceAttemptID := at_AttemptID attemptRecord;
        fr_SourceSemanticTaskRef := at_SemanticTaskRef attemptRecord;
        fr_SourceWorkspaceSnapshotID := workspaceSnapshotID;
        fr_SourceControllerGeneration := generation;
        fr_Producer := fi_Producer input;
        fr_ProofClass := fi_ProofClass input;
        fr_Evidence := evidence;
        fr_ProblemKey := fi_ProblemKey input;
        fr_CanonicalFindingID := pb_CanonicalFindingID binding;
        fr_ObservedAt := now |} in
      _ ← writeJSONAtomic (findingPath id) record;
      mret record
  end.

Definition ObserveFinding (admission : Admission) (input : FindingObservationInput)
    : io FindingRecord :=
  under_lock (
    current ← io_wrap (λ e, Errorf "admit finding source: %w" [AErr e])
      (admitMutation identity (admission_authority admission) (ad_Workspace admission)
         (ad_Snapshot admission));
    _ ← validateFindingInput current input;
    observeFindingLocked (hd_ProjectSnapshotID (ad_Head current)) (ad_Attempt current)
      (ws_ID (ad_Snapshot current)) (hd_ControllerGeneration (ad_Head current)) input).

(** [terminalAttemptProven] of [terminal_evidence.go] is a parameter here. *)
Definition ObserveTerminalFinding (terminalAttemptProven : AttemptRecord → io bool)
    (attemptID projectSnapshotID : string) (input : FindingObservationInput) : io FindingRecord :=
  under_lock (
    attemptRecord ← loadAttempt attemptID;
    terminal ← terminalAttemptProven attemptRecord;
    refuse! negb terminal
      with err "post-completion finding requires finalized terminal Task proof";
    project ← LoadProjectSnapshot identity projectSnapshotID;
    head ← LoadHead;
    refuse! bool_decide (ps_SnapshotID project ≠ hd_ProjectSnapshotID head)
      with err "terminal finding project snapshot is stale";
    _ ← lift (validateFindingInputShape input);
    refuse! bool_decide (fi_ProofClass input ≠ FindingProofUnverified)
      with Errorf "post-completion finding proof class %s is not supported" [AStr (fi_ProofClass input)];
    observeFindingLocked projectSnapshotID attemptRecord (at_WorkspaceSnapshotID attemptRecord)
      (at_StartControllerGeneration attemptRecord) input).
End Findings.

(** ** What observing leaves on disk *)
Definition same_files (d d' : Disk) : Prop :=
  files d' = files d ∧ unreadable d' = unreadable d ∧ unwritable d' = unwritable d.
#[export] Instance same_files_preorder : PreOrder same_files.
Proof. split; [done|]. intros x y z (? & ? & ?) (? & ? & ?). split_and!; congruence. Qed.
#[export] Instance MkdirAll_same p : Preserves same_files (MkdirAll p).
Proof. intros d. unfold MkdirAll. by destruct (_ || _). Qed.
#[export] Instance Now_same : Preserves same_files Now.
Proof. by intros d. Qed.
#[export] Instance makeStoreDirs_same names : Preserves same_files (makeStoreDirs names).
Proof. induction names; simpl; preserving. Qed.

Lemma makeStoreDirs_allowed names d u d' :
  makeStoreDirs names d = (Ok u, d') → Forall (λ name, [name] ∉ unwritable d) names.
Proof.
  revert d. induction names as [|name names IH]; intros d; simpl; [done|].
  intros E. apply io_bind_Ok in E as (a & d1 & Ha%io_wrap_Ok & E). constructor.
  - unfold MkdirAll in Ha. by case_bool_decide.
  - apply IH in E. pose proof (MkdirAll_same [name] d) as (_ & _ & Hw). rewrite Ha in Hw.
    simpl in Hw. by rewrite Hw in E.
Qed.
Lemma makeStoreDirs_again names d :
  Forall (λ name, [name] ∉ unwritable d) names → power d = None →
  ∃ d', makeStoreDirs names d = (Ok (), d') ∧ same_files d d'.
Proof.
  revert d. induction names as [|name names IH]; intros d Hn Hp; simpl; [by exists d|].
  apply Forall_cons in Hn as [Hn Hns].
  destruct (MkdirAll [name] d) as [r d1] eqn:E. pose proof (MkdirAll_same [name] d) as Hs.
  rewrite E in Hs. simpl in Hs. assert (r = Ok ()) as ->.
  { unfold MkdirAll in E. rewrite bool_decide_false, up_running in E by done. by injection E as <- _. }
  assert (power d1 = None) as Hp1.
  { unfold MkdirAll in E. destruct (_ || _); [done|]. injection E as <-. simpl. unfold spend. by rewrite Hp. }
  destruct (IH d1) as (d2 & H2 & Hs2); [|done|].
  { destruct Hs as (_ & _ & Hw). by rewrite Hw. }
  exists d2. split; [|by etrans]. by erewrite io_bind_step by (apply io_wrap_Ok; exact E).
Qed.

Section Observation.
Context `{Host} (identity : RepositoryIdentity).

#[export] Instance loadProblemBinding_reads R `{!PreOrder R} k : Preserves R (loadProblemBinding k).
Proof. unfold loadProblemBinding. preserving. Qed.
#[export] Instance LoadFinding_reads R `{!PreOrder R} id : Preserves R (LoadFinding identity id).
Proof. unfold LoadFinding. preserving. Qed.

Lemma LoadFinding_Ok id d finding d' :
  LoadFinding identity id d = (Ok finding, d') ↔
  findingPath id ∉ unreadable d ∧ files d !! findingPath id = Some (DocFinding finding) ∧
  fr_SchemaVersion finding = controllerSchemaVersion ∧
  fr_RepositoryIdentity finding = ri_LineageID identity ∧ fr_FindingID finding = id ∧
  recordFindingID finding = id ∧ fr_CanonicalFindingID finding ≠ "" ∧ d' = d.
Proof.
  unfold LoadFinding. split.
  - intros E. io_inv E. bool_simp.
    lazymatch goal with R : readJSON _ _ = _ |- _ => apply readJSON_Ok in R as (? & ? & ->) end. done.
  - intros (Hr & Hf & H1 & H2 & H3 & H4 & H5 & ->).
    erewrite io_bind_step by (apply readJSON_Ok; eauto). cbn beta.
    by rewrite !bool_decide_false by tauto.
Qed.

(** [os.ErrNotExist] means that the file is missing. *)
Lemma readJSON_absent {A} `{Document A} p d e d' :
  readJSON (A:=A) p d = (Err e, d') → IsNotExist e = true →
  p ∉ unreadable d ∧ files d !! p = None ∧ d' = d.
Proof.
  unfold readJSON. case_bool_decide; [by intros [= <- <-]|].
  destruct (files d !! p) as [doc|]; [|by intros [= <- <-]].
  destruct (of_doc doc); [done|]. by intros [= <- <-].
Qed.
Lemma LoadFinding_absent id d e d' :
  LoadFinding identity id d = (Err e, d') → IsNotExist e = true →
  findingPath id ∉ unreadable d ∧ files d !! findingPath id = None ∧ d' = d.
Proof.
  unfold LoadFinding, mbind, io_bind. destruct (readJSON _ d) as [[finding|e'] d1] eqn:E.
  - destruct (_ || _); [by intros [= <- <-]|]. destruct (bool_decide _); by intros [= <- <-].
  - intros [= <- <-] He. exact (readJSON_absent _ _ _ _ E He).
Qed.
Lemma loadProblemBinding_Ok key d binding d' :
  loadProblemBinding key d = (Ok binding, d') →
  files d !! findingProblemPath key = Some (DocProblem binding) ∧
  pb_CanonicalFindingID binding ≠ "" ∧ d' = d.
Proof.
  unfold loadProblemBinding. intros E. io_inv E. bool_simp.
  lazymatch goal with R : readJSON _ _ = _ |- _ => apply readJSON_Ok in R as (? & ? & ->) end. done.
Qed.
Lemma loadProblemBinding_absent key d e d' :
  loadProblemBinding key d = (Err e, d') → IsNotExist e = true →
  files d !! findingProblemPath key = None ∧ d' = d.
Proof.
  unfold loadProblemBinding, mbind, io_bind. destruct (readJSON _ d) as [[b|e'] d1] eqn:E.
  - destruct (_ || _); by intros [= <- <-].
  - intros [= <- <-] He. by apply (readJSON_absent _ _ _ _ E He).
Qed.

(** The binding of a problem is created once and then only read. *)
Lemma loadOrCreateProblemBinding_run key id d r d' :
  loadOrCreateProblemBinding key id d = (r, d') →
  unreadable d' = unreadable d ∧ unwritable d' = unwritable d ∧
  ((∃ e, r = Err e) ∧ files d' = files d ∨
   ∃ b, r = Ok b ∧ files d' !! findingProblemPath key = Some (DocProblem b) ∧
     (pb_CanonicalFindingID b = id ∨ pb_CanonicalFindingID b ≠ "") ∧
     (files d' = files d ∨ files d !! findingProblemPath key = None ∧
        files d' = <[findingProblemPath key := DocProblem b]> (files d))).
Proof.
  unfold loadOrCreateProblemBinding. unfold attempt, mbind at 1, io_bind at 1.
  destruct (loadProblemBinding key d) as [[b|e] d1] eqn:E.
  - intros [= <- <-]. apply loadProblemBinding_Ok in E as (? & ? & ->). eauto 10.
  - assert (d1 = d) as -> by (eapply preserves_eq, E; apply _).
    destruct (negb (IsNotExist e)) eqn:He; [intros [= <- <-]; eauto 10|].
    apply negb_false_iff in He. apply loadProblemBinding_absent in E as [E _]; [|done].
    unfold mbind, io_bind, Now. set (d1 := d {{ ticks := _ }}). set (b := Build_findingProblemBinding _ _ _ _ _).
    destruct (writeJSONAtomic_run (findingProblemPath key) b d1) as [[e' ->]| ->];
      intros [= <- <-]; (split; [done|]; split; [done|]); [by eauto 10|].
    right. eexists. split; [done|]. rewrite files_put, lookup_insert_eq. simpl. auto 10.
Qed.

(** Every stored finding answers to the canonical finding of its problem. *)
Definition findings_bound (d : Disk) : Prop :=
  ∀ id finding, files d !! findingPath id = Some (DocFinding finding) →
    ∃ binding, files d !! findingProblemPath (fr_ProblemKey finding) = Some (DocProblem binding) ∧
      pb_CanonicalFindingID binding = fr_CanonicalFindingID finding.

Lemma findings_bound_ext d d' : files d' = files d → findings_bound d → findings_bound d'.
Proof. unfold findings_bound. by intros ->. Qed.
Lemma findings_bound_binding d d' key binding :
  files d !! findingProblemPath key = None →
  files d' = <[findingProblemPath key := DocProblem binding]> (files d) →
  findings_bound d → findings_bound d'.
Proof.
  intros Hn Hf Hb id finding. rewrite Hf, lookup_insert_ne by done. intros H'.
  destruct (Hb id finding H') as (b & Hbf & ?). exists b. split; [|done].
  rewrite lookup_insert_ne; [done|]. intros Heq. by rewrite <- Heq, Hn in Hbf.
Qed.
Lemma findings_bound_record d id finding binding :
  files d !! findingProblemPath (fr_ProblemKey finding) = Some (DocProblem binding) →
  pb_CanonicalFindingID binding = fr_CanonicalFindingID finding →
  findings_bound d → findings_bound (put_file (findingPath id) (DocFinding finding) d).
Proof.
  intros Hp Hc Hb id' finding'. rewrite files_put. intros [[_ [= <-]]|[_ H']]%lookup_insert_Some.
  - exists binding. by rewrite lookup_insert_ne.
  - destruct (Hb id' finding' H') as (b & ? & ?). exists b. by rewrite lookup_insert_ne.
Qed.
End Observation.

Section Observe.
Context `{Host} (identity : RepositoryIdentity).
(** A hexadecimal SHA-256 digest has 64 characters. *)
Hypothesis digest_nonempty : ∀ s, sha256_hex s ≠ "".
Context (projectSnapshotID : string) (attemptRecord : AttemptRecord) (workspaceSnapshotID : string).
Context (generation : N) (input : FindingObservationInput).
Notation observe := (observeFindingLocked identity projectSnapshotID attemptRecord
  workspaceSnapshotID generation input).
(** The identity the observation computes. *)
Definition observed_id : string :=
  findingID (ri_LineageID identity) projectSnapshotID (at_AttemptID attemptRecord)
    (at_SemanticTaskRef attemptRecord) workspaceSnapshotID generation (fi_Producer input)
    (fi_ProofClass input) (canonicalFindingEvidence (fi_Evidence input)) (fi_ProblemKey input).

Lemma observed_id_nonempty : observed_id ≠ "".
Proof. apply digest_nonempty. Qed.

Lemma ensureFindingStore_run d r d' :
  ensureFindingStore d = (r, d') →
  same_files d d' ∧ (is_ok r = true → ∀ e, unwritable e = unwritable d → power e = None →
    ∃ e', ensureFindingStore e = (Ok (), e') ∧ same_files e e').
Proof.
  unfold ensureFindingStore. set (names := ["findings"; _; _; _]). intros E. split.
  - pose proof (makeStoreDirs_same names d) as Hs. by rewrite E in Hs.
  - destruct r as [u|]; [|done]. intros _ e He Hp. apply makeStoreDirs_allowed in E.
    apply makeStoreDirs_again; [by rewrite He|done].
Qed.

(** What a run of the observation leaves behind: the binding of its problem at
    most, or the finding itself under its identity. *)
Lemma observe_run d r d' :
  findings_bound d → observe d = (r, d') →
  findings_bound d' ∧ unreadable d' = unreadable d ∧ unwritable d' = unwritable d ∧
  ∀ record, r = Ok record → LoadFinding identity observed_id d' = (Ok record, d').
Proof.
  intros Hb. unfold observeFindingLocked. fold observed_id. unfold mbind at 1, io_bind at 1.
  destruct (ensureFindingStore d) as [[u|e] d1] eqn:E1;
    apply ensureFindingStore_run in E1 as [(Hf1 & <- & <-) _];
    apply (findings_bound_ext _ _ Hf1) in Hb; [|by intros [= <- <-]].
  clear Hf1 d. rename d1 into d. unfold attempt, mbind at 1, io_bind at 1.
  destruct (LoadFinding identity observed_id d) as [[f|e] d1] eqn:E1;
    assert (d1 = d) as -> by (eapply preserves_eq, E1; apply _).
  { intros [= <- <-]. split_and!; [done..|]. by intros ? [= <-]. }
  destruct (negb (IsNotExist e)) eqn:He; [by intros [= <- <-]|]. apply negb_false_iff in He.
  apply LoadFinding_absent in E1 as (Hreadable & Habs & _); [|done].
  unfold mbind at 1, io_bind at 1.
  destruct (loadOrCreateProblemBinding _ _ d) as [rb d2] eqn:E2.
  apply loadOrCreateProblemBinding_run in E2 as (Hr2 & Hw2 & [[[e' ->] Hf2]|(b & -> & Hfb & Hc & Hf2)]).
  { intros [= <- <-]. split; [by eapply findings_bound_ext|done]. }
  assert (findings_bound d2) as Hb2.
  { destruct Hf2 as [?|[? ?]]; [by eapply findings_bound_ext|by eapply findings_bound_binding]. }
  assert (pb_CanonicalFindingID b ≠ "") as Hc' by (destruct Hc as [->|]; [apply digest_nonempty|done]).
  rewrite <- Hr2, <- Hw2. rewrite <- Hr2 in Hreadable. clear Hr2 Hw2 Hf2 Hc Hb.
  unfold mbind, io_bind, Now. set (d3 := d2 {{ ticks := _ }}).
  set (record := Build_FindingRecord _ _ _ _ _ _ _ _ _ _ _ _ _ _).
  assert (findings_bound d3) as Hb3 by (by eapply findings_bound_ext; [|exact Hb2]).
  destruct (writeJSONAtomic_run (findingPath observed_id) record d3) as [[e' ->]| ->];
    intros [= <- <-]; [done|]. split_and!; [by eapply findings_bound_record|done..|].
  intros ? [= <-]. apply LoadFinding_Ok. split_and!; try done. simpl. by rewrite lookup_insert_eq.
Qed.

(** C32: observing findings keeps their problems bound: whatever the outcome, every
    stored finding answers to the canonical finding of its problem, so two
    findings of one problem have the same canonical finding.  And observing is
    idempotent: the same observation made again, on a machine that is up, answers
    with the same record and changes no file. *)
Theorem observeFindingLocked_bound d r d' :
  findings_bound d → observe d = (r, d') →
  findings_bound d' ∧
  (∀ id1 f1 id2 f2, files d' !! findingPath id1 = Some (DocFinding f1) →
     files d' !! findingPath id2 = Some (DocFinding f2) → fr_ProblemKey f1 = fr_ProblemKey f2 →
     fr_CanonicalFindingID f1 = fr_CanonicalFindingID f2) ∧
  ∀ record, r = Ok record → power d' = None →
    ∃ d2, observe d' = (Ok record, d2) ∧ files d2 = files d'.
Proof.
  intros Hb E. pose proof (observe_run _ _ _ Hb E) as (Hb' & _ & Hw & Hrec). split; [done|]. split.
  - intros id1 f1 id2 f2 H1 H2 Hk. apply Hb' in H1 as (b1 & H1 & <-). apply Hb' in H2 as (b2 & H2 & <-).
    rewrite Hk in H1. congruence.
  - intros record -> Hp. specialize (Hrec record eq_refl).
    unfold observeFindingLocked in E. apply io_bind_Ok in E as (u & d1 & E1 & _).
    apply ensureFindingStore_run in E1 as [_ E1]. destruct (E1 eq_refl d' Hw Hp) as (d2 & E2 & Hf2 & Hr2 & _).
    exists d2. split; [|done]. unfold observeFindingLocked. fold observed_id.
    erewrite io_bind_step by exact E2. cbn beta.
    assert (LoadFinding identity observed_id d2 = (Ok record, d2)) as HL.
    { apply LoadFinding_Ok in Hrec as (? & ? & ? & ? & ? & ? & ? & _).
      apply LoadFinding_Ok. rewrite Hf2, Hr2. by split_and!. }
    by erewrite io_bind_step by (apply (proj2 (attempt_Ok _ _ _ _)); exact HL).
Qed.
End Observe.

(** ** A concrete observation on a store without findings *)
Definition demo_digest_host : Host :=
  {| sha256_hex s := "h" +:+ s; RequireRequestRepository _ := Ok () |}.
Definition demo_input : FindingObservationInput := {|
  fi_Producer := "p"; fi_ProofClass := FindingProofUnverified; fi_Evidence := [];
  fi_ProblemKey := "k" |}.
Definition demo_observe : io FindingRecord :=
  observeFindingLocked (H:=demo_digest_host) demo_identity "s" demo_attempt "s1" 1 demo_input.

Lemma demo_store_bound : findings_bound (H:=demo_digest_host) demo_disk.
Proof.
  intros id finding. unfold demo_disk. cbn [files].
  rewrite !lookup_insert_ne by done. by rewrite lookup_singleton_ne.
Qed.

Lemma observeFindingLocked_bound_witness :
  match demo_observe demo_disk with
  | (Ok record, d') => findings_bound (H:=demo_digest_host) d' ∧
      ∃ d2, demo_observe d' = (Ok record, d2) ∧ files d2 = files d'
  | (Err _, _) => False
  end.
Proof.
  assert (is_ok (demo_observe demo_disk).1 && bool_decide (power (demo_observe demo_disk).2 = None) = true)
    as [Hok Hp%bool_decide_eq_true]%andb_true_iff by (vm_compute; reflexivity).
  destruct (demo_observe demo_disk) as [[record|e] d'] eqn:E; [|discriminate Hok].
  destruct (observeFindingLocked_bound (H:=demo_digest_host) demo_identity ltac:(discriminate)
    "s" demo_attempt "s1" 1 demo_input demo_disk (Ok record) d' demo_store_bound E) as (Hb & _ & Hr).
  split; [exact Hb|]. exact (Hr record eq_refl Hp).
Defined.
