(* ===== verification/EpisodeControl.v ===== *)
(** * Blocker episodes: revisions and scheduling

    Models the stateful half of [internal/controller/episode.go] (identities,
    records on disk, planning a revision for a blocking finding, the scheduler
    over an admitted order), [episode_progression.go] (a satisfied task moves
    the episode to its next revision) and [episode_scheduler_authority.go] with
    [episode_scheduler_api.go] (scheduling against the committed project). *)
From S2P Require Import Prelude GoStrings ControllerTypes ControllerStore CommittedProject.
From S2P Require Import MutationControl Findings Episode.
From stdpp Require Import pretty.

(** ** Scheduling over the admitted order *)
Definition schedule_result (episode : BlockerEpisodeRevision) (intent : FindingIntentKind)
    (reason : string) (next : option SemanticTaskRef) : EpisodeScheduleResult :=
  {| es_Episode := episode; es_Intent := intent; es_Reason := reason; es_NextTaskRef := next |}.
Definition unresolvedReason : string :=
  "admitted blocker closure has unresolved work but no runnable task".

Fixpoint dependsOn (edges : list EpisodeDependencyEdge) (blocked dependency : SemanticTaskRef) : bool :=
  match edges with
  | [] => false
  | edge :: edges =>
      if Equal (ee_BlockedTaskRef edge) blocked && Equal (ee_DependencyTaskRef edge) dependency
      then true else dependsOn edges blocked dependency
  end.
Definition dependsTransitively (revision : BlockerEpisodeRevision)
    (blocked dependency : SemanticTaskRef) : bool :=
  dependsOn (ev_DependencyEdges revision) blocked dependency.

Fixpoint edgesSatisfied (revision : BlockerEpisodeRevision) (task : SemanticTaskRef)
    (edges : list EpisodeDependencyEdge) : bool :=
  match edges with
  | [] => true
  | edge :: edges =>
      if negb (Equal (ee_BlockedTaskRef edge) task) then edgesSatisfied revision task edges
      else if negb (taskRefIn (ev_SatisfiedTaskRefs revision) (ee_DependencyTaskRef edge)) then false
      else edgesSatisfied revision task edges
  end.

(** [orderIndex]: the last index of each path; a missing path reads as 0. *)
Fixpoint orderIndex (order : list SemanticTaskRef) (index : nat) (m : gmap string nat) : gmap string nat :=
  match order with
  | [] => m
  | ref :: order => orderIndex order (S index) (<[ref_TaskPath ref := index]> m)
  end.

Definition episodeTaskReady (revision : BlockerEpisodeRevision) (task : SemanticTaskRef) : bool :=
  if negb (edgesSatisfied revision task (ev_DependencyEdges revision)) then false
  else
    let candidateIndex :=
      default 0 (orderIndex (ev_AdmittedOrder revision) 0 ∅ !! ref_TaskPath task) in
    forallb (λ dependency,
      negb (negb (taskRefIn (ev_SatisfiedTaskRefs revision) dependency) &&
            dependsTransitively revision task dependency))
      (take candidateIndex (ev_AdmittedOrder revision)).

Fixpoint scheduleCandidates (revision : BlockerEpisodeRevision) (order : list SemanticTaskRef)
    : option SemanticTaskRef :=
  match order with
  | [] => None
  | candidate :: order =>
      if taskRefIn (ev_SatisfiedTaskRefs revision) candidate then scheduleCandidates revision order
      else if episodeTaskReady revision candidate then Some candidate
      else scheduleCandidates revision order
  end.
Definition scheduleEpisodeRevision (revision : BlockerEpisodeRevision) : EpisodeScheduleResult :=
  match scheduleCandidates revision (ev_AdmittedOrder revision) with
  | Some next =>
      schedule_result revision
        (if taskRefIn (ev_ExecutionHistory revision) next
         then FindingIntentResumeBlockerTask else FindingIntentStartBlockerTask) "" (Some next)
  | None =>
      if taskRefIn (ev_SatisfiedTaskRefs revision) (ev_ScopeRootTaskRef revision)
      then schedule_result revision FindingIntentResumeRootTask "" None
      else schedule_result revision FindingIntentNoRunnable unresolvedReason None
  end.

(** ** Scheduling against the committed project *)
Record episodeScheduleAuthority := {
  ea_project : ProjectSnapshot;
  ea_refs : gmap string SemanticTaskRef;
  ea_dependencies : Deps;
}.

Definition taskPathSatisfied (refs : list SemanticTaskRef) (path : string) : bool :=
  existsb (λ ref, bool_decide (ref_TaskPath ref = path)) refs.
Definition taskPathSet (refs : list SemanticTaskRef) : gset string :=
  list_to_set (ref_TaskPath <$> refs).
Definition stringSet (values : list string) : gset string := list_to_set values.

Fixpoint validateClosureAuthority (revision : BlockerEpisodeRevision)
    (refs : gmap string SemanticTaskRef) (closure : list SemanticTaskRef) : result error unit :=
  match closure with
  | [] => Ok ()
  | ref :: closure =>
      if taskPathSatisfied (ev_SatisfiedTaskRefs revision) (ref_TaskPath ref)
      then validateClosureAuthority revision refs closure
      else
        match refs !! ref_TaskPath ref with
        | None => Err (Errorf "unsatisfied blocker task %s is missing from project authority"
                         [AStr (ref_TaskPath ref)])
        | Some current =>
            reject! negb (Equal current ref)
              with Errorf "unsatisfied blocker task %s has stale semantic authority"
                     [AStr (ref_TaskPath ref)];
            validateClosureAuthority revision refs closure
        end
  end.
Definition validateEpisodeScheduleAuthority (revision : BlockerEpisodeRevision)
    (authority : episodeScheduleAuthority) : result error unit :=
  reject! bool_decide (ev_ProjectSnapshotID revision ≠ ps_SnapshotID (ea_project authority))
    with err "blocker episode project authority is stale";
  validateClosureAuthority revision (ea_refs authority) (ev_AdmittedClosure revision).

(** [None] stands for the empty reason. *)
Fixpoint scheduleStateLoop (revision : BlockerEpisodeRevision) (next blocked : gset string)
    (closure : list SemanticTaskRef) : option string :=
  match closure with
  | [] => None
  | ref :: closure =>
      if taskPathSatisfied (ev_SatisfiedTaskRefs revision) (ref_TaskPath ref)
      then scheduleStateLoop revision next blocked closure
      else if bool_decide (ref_TaskPath ref ∈ blocked) then
        Some ("in-scope blocker task " +:+ ref_TaskPath ref +:+ " is in BLOCKED schedule state")
      else if bool_decide (ref_TaskPath ref ∉ next) then
        Some ("in-scope blocker task " +:+ ref_TaskPath ref +:+ " is outside executable NEXT schedule state")
      else scheduleStateLoop revision next blocked closure
  end.
Definition episodeScheduleStateFailure (revision : BlockerEpisodeRevision) (project : ProjectSnapshot)
    : option string :=
  scheduleStateLoop revision (stringSet (ps_Next project)) (stringSet (ps_Blocked project))
    (ev_AdmittedClosure revision).

Definition episodeTaskReadyAgainstProject (revision : BlockerEpisodeRevision)
    (task : SemanticTaskRef) (canonical : Deps) : bool :=
  if bool_decide (length (get canonical (ref_TaskPath task)) ≠ 0) then false
  else forallb (λ edge,
    negb (bool_decide (ref_TaskPath (ee_BlockedTaskRef edge) = ref_TaskPath task)) ||
    taskPathSatisfied (ev_SatisfiedTaskRefs revision) (ref_TaskPath (ee_DependencyTaskRef edge)))
    (ev_DependencyEdges revision).

Fixpoint resumeLoop (revision : BlockerEpisodeRevision) (authority : episodeScheduleAuthority)
    (scope : gset string) (paths : list string) : option SemanticTaskRef :=
  match paths with
  | [] => None
  | path :: paths =>
      if bool_decide (path ∉ scope) || taskPathSatisfied (ev_SatisfiedTaskRefs revision) path
      then resumeLoop revision authority scope paths
      else
        match ea_refs authority !! path with
        | None => resumeLoop revision authority scope paths
        | Some candidate =>
            if episodeTaskReadyAgainstProject revision candidate (ea_dependencies authority)
            then Some candidate else resumeLoop revision authority scope paths
        end
  end.
(** The history is walked from its end. *)
Definition episodeResumeCandidate (revision : BlockerEpisodeRevision)
    (authority : episodeScheduleAuthority) : option SemanticTaskRef :=
  resumeLoop revision authority (taskPathSet (ev_AdmittedClosure revision))
    (reverse (ref_TaskPath <$> ev_ExecutionHistory revision)).
Definition episodeFreshCandidate (revision : BlockerEpisodeRevision)
    (authority : episodeScheduleAuthority) : option SemanticTaskRef :=
  resumeLoop revision authority
    (taskPathSet (ev_AdmittedClosure revision) ∖ taskPathSet (ev_ExecutionHistory revision))
    (ps_Next (ea_project authority)).

Definition scheduleEpisodeWithAuthority (revision : BlockerEpisodeRevision)
    (authority : episodeScheduleAuthority) : EpisodeScheduleResult :=
  if taskPathSatisfied (ev_SatisfiedTaskRefs revision) (ref_TaskPath (ev_ScopeRootTaskRef revision))
  then schedule_result revision FindingIntentResumeRootTask "" None
  else
    match episodeScheduleStateFailure revision (ea_project authority) with
    | Some reason => schedule_result revision FindingIntentNoRunnable reason None
    | None =>
        match episodeResumeCandidate revision authority with
        | Some next => schedule_result revision FindingIntentResumeBlockerTask "" (Some next)
        | None =>
            match episodeFreshCandidate revision authority with
            | Some next => schedule_result revision FindingIntentStartBlockerTask "" (Some next)
            | None => schedule_result revision FindingIntentNoRunnable unresolvedReason None
            end
        end
    end.

Section EpisodeControl.
Context `{Git, Host} (identity : RepositoryIdentity).
(** The finality check of [terminal_evidence.go], which only reads. *)
Context (ensureTerminalMetadataFinalized : RepositoryControllerHead → io unit).
(** The order in which Go visits a map's keys. *)
Context (range : Deps → list string).
Notation LoadHead := (LoadHead identity).

(** ** Identities *)
Definition blockerEpisodeID (repositoryIdentity : string) (root : SemanticTaskRef)
    (finding : FindingRecord) (target : SemanticTaskRef) : string :=
  digestStrings ["blocker-episode-v1"; repositoryIdentity; ref_TaskPath root;
    ref_ContractDigest root; fr_CanonicalFindingID finding; ref_TaskPath target;
    ref_ContractDigest target].

Definition blockerEpisodeRevisionID (record : BlockerEpisodeRevision) : string :=
  let labelled label (refs : list SemanticTaskRef) :=
    refs ≫= λ ref, [label; ref_TaskPath ref; ref_ContractDigest ref] in
  digestStrings (
    ["blocker-episode-revision-v1"; ev_EpisodeID record; pretty (ev_Revision record);
     ev_PreviousRevisionID record; ev_ProjectSnapshotID record;
     ref_TaskPath (ev_RootTaskRef record); ref_ContractDigest (ev_RootTaskRef record);
     ref_TaskPath (ev_ScopeRootTaskRef record); ref_ContractDigest (ev_ScopeRootTaskRef record);
     ev_TriggerFindingID record; pretty (ev_SourceControllerGeneration record);
     ev_SourceAttemptID record; ev_SourceLeaseID record; ev_SourceWorkspaceID record;
     ev_SourceWorkspaceSnapshotID record; ev_State record] ++
    (ev_DependencyEdges record ≫= λ edge,
       [ref_TaskPath (ee_BlockedTaskRef edge); ref_ContractDigest (ee_BlockedTaskRef edge);
        ref_TaskPath (ee_DependencyTaskRef edge); ref_ContractDigest (ee_DependencyTaskRef edge);
        ee_FindingID edge]) ++
    labelled "satisfied" (ev_SatisfiedTaskRefs record) ++
    labelled "executed" (ev_ExecutionHistory record) ++
    labelled "closure" (ev_AdmittedClosure record) ++
    labelled "order" (ev_AdmittedOrder record)).

(** ** Records on disk *)
(** [fmt.Sprintf("%020d", revision)] *)
Fixpoint pad (width : nat) (s : string) : string :=
  match width with
  | 0 => s
  | S width => if bool_decide (String.length s ≤ width) then String "0" (pad width s) else s
  end.
Definition episodeRecordPath (episodeID : string) : path := ["episodes"; episodeID; "episode.json"].
Definition episodeRevisionDir (episodeID : string) : path := ["episodes"; episodeID; "revisions"].
Definition episodeRevisionPath (episodeID : string) (revision : N) : path :=
  ["episodes"; episodeID; "revisions"; pad 20 (pretty revision) +:+ ".json"].

Definition LoadEpisodeRevision (episodeID : string) (revision : N) : io BlockerEpisodeRevision :=
  record ← readJSON (A:=BlockerEpisodeRevision) (episodeRevisionPath episodeID revision);
  refuse! bool_decide (ev_SchemaVersion record ≠ controllerSchemaVersion) ||
          bool_decide (ev_EpisodeID record ≠ episodeID) ||
          bool_decide (ev_Revision record ≠ revision) ||
          bool_decide (ev_RevisionID record ≠ blockerEpisodeRevisionID record)
    with err "blocker episode revision identity is invalid";
  mret record.

Definition loadEpisodeRecord (episodeID : string) : io BlockerEpisodeRecord :=
  record ← readJSON (A:=BlockerEpisodeRecord) (episodeRecordPath episodeID);
  refuse! bool_decide (er_SchemaVersion record ≠ controllerSchemaVersion) ||
          bool_decide (er_RepositoryIdentity record ≠ ri_LineageID identity) ||
          bool_decide (er_EpisodeID record ≠ episodeID)
    with err "blocker episode record identity is invalid";
  mret record.

Definition writeEpisodeRecord (record : BlockerEpisodeRecord) : io unit :=
  _ ← ensureFindingStore;
  existing ← attempt (loadEpisodeRecord (er_EpisodeID record));
  match existing with
  | Ok existing =>
      refuse! negb (Equal (er_RootTaskRef existing) (er_RootTaskRef record)) ||
              negb (Equal (er_ScopeRootTaskRef existing) (er_ScopeRootTaskRef record)) ||
              bool_decide (er_OpenedByFindingID existing ≠ er_OpenedByFindingID record)
        with err "blocker episode identity collision";
      mret ()
  | Err e =>
      refuse! negb (IsNotExist e) with e;
      writeJSONAtomic (episodeRecordPath (er_EpisodeID record)) record
  end.

Definition writeEpisodeRevision (record : BlockerEpisodeRevision) : io unit :=
  _ ← ensureFindingStore;
  _ ← MkdirAll (episodeRevisionDir (ev_EpisodeID record));
  existing ← attempt (LoadEpisodeRevision (ev_EpisodeID record) (ev_Revision record));
  match existing with
  | Ok existing =>
      refuse! bool_decide (ev_RevisionID existing ≠ ev_RevisionID record)
        with err "blocker episode revision collision";
      mret ()
  | Err e =>
      refuse! negb (IsNotExist e) with e;
      writeJSONAtomic (episodeRevisionPath (ev_EpisodeID record) (ev_Revision record)) record
  end.

(** ** Planning a revision for a blocking finding *)
Definition currentEpisodeRevision (head : RepositoryControllerHead)
    : io (option BlockerEpisodeRevision) :=
  if bool_decide (hd_ActiveEpisodeID head = "") then
    refuse! bool_decide (hd_ActiveEpisodeRevision head ≠ 0%N)
      with err "controller has episode revision without episode identity";
    mret None
  else
    refuse! bool_decide (hd_ActiveEpisodeRevision head = 0%N)
      with err "controller has episode identity without revision";
    revision ← LoadEpisodeRevision (hd_ActiveEpisodeID head) (hd_ActiveEpisodeRevision head);
    mret (Some revision).

Definition validateBlockingAuthority (refs : gmap string SemanticTaskRef)
    (finding : FindingRecord) (target : SemanticTaskRef) : result error unit :=
  reject! match refs !! ref_TaskPath target with
          | Some ref => negb (Equal ref target) | None => true end
    with err "blocker target is not present in project dependency authority";
  reject! match refs !! ref_TaskPath (fr_SourceSemanticTaskRef finding) with
          | Some ref => negb (Equal ref (fr_SourceSemanticTaskRef finding)) | None => true end
    with err "blocker source is not present in project dependency authority";
  Ok ().

(** [head.RootTaskRef] is dereferenced here; the caller has checked it. *)
Definition newBlockingRevision (finding : FindingRecord) (target root : SemanticTaskRef)
    (head : RepositoryControllerHead) (lease : ExecutionLease) (project : ProjectSnapshot)
    (previous : option BlockerEpisodeRevision) : io BlockerEpisodeRevision :=
  now ← Now;
  let revision := {|
    ev_SchemaVersion := controllerSchemaVersion;
    ev_EpisodeID := ""; ev_Revision := 0; ev_RevisionID := ""; ev_PreviousRevisionID := "";
    ev_ProjectSnapshotID := ps_SnapshotID project;
    ev_RootTaskRef := root;
    ev_ScopeRootTaskRef := {| ref_TaskPath := ""; ref_RequestID := ""; ref_ContractDigest := "" |};
    ev_TriggerFindingID := fr_FindingID finding;
    ev_DependencyEdges := []; ev_SatisfiedTaskRefs := []; ev_ExecutionHistory := [];
    ev_AdmittedClosure := []; ev_AdmittedOrder := [];
    ev_SourceControllerGeneration := hd_ControllerGeneration head;
    ev_SourceAttemptID := fr_SourceAttemptID finding;
    ev_SourceLeaseID := ls_LeaseID lease;
    ev_SourceWorkspaceID := ls_WorkspaceID lease;
    ev_SourceWorkspaceSnapshotID := fr_SourceWorkspaceSnapshotID finding;
    ev_State := "";
    ev_CreatedAt := now |} in
  match previous with
  | None =>
      mret (revision {{
        ev_EpisodeID := blockerEpisodeID (ri_LineageID identity) root finding target;
        ev_Revision := 1%N;
        ev_ScopeRootTaskRef := target;
        ev_State := EpisodeStatePlanned }})
  | Some previous =>
      refuse! bool_decide (ev_State previous = EpisodeStateClosed)
        with err "closed blocker episode cannot be replanned";
      refuse! negb (Equal (ev_RootTaskRef previous) root)
        with err "active blocker episode root does not match controller root";
      mret (revision {{
        ev_EpisodeID := ev_EpisodeID previous;
        ev_Revision := u64 (ev_Revision previous + 1);
        ev_PreviousRevisionID := ev_RevisionID previous;
        ev_ScopeRootTaskRef := ev_ScopeRootTaskRef previous;
        ev_DependencyEdges := ev_DependencyEdges previous;
        ev_SatisfiedTaskRefs := ev_SatisfiedTaskRefs previous;
        ev_ExecutionHistory := ev_ExecutionHistory previous;
        ev_State := EpisodeStateReplanning }})
  end.

Definition completeBlockingRevision (revision : BlockerEpisodeRevision) (finding : FindingRecord)
    (target : SemanticTaskRef) (refs : gmap string SemanticTaskRef) (dependencies : Deps)
    : loading BlockerEpisodeRevision :=
  let edge := {| ee_BlockedTaskRef := fr_SourceSemanticTaskRef finding;
                 ee_DependencyTaskRef := target; ee_FindingID := fr_FindingID finding |} in
  let edges := if negb (hasEpisodeEdge (ev_DependencyEdges revision) edge)
               then ev_DependencyEdges revision ++ [edge] else ev_DependencyEdges revision in
  _ ← validateEpisodeAcyclic range dependencies edges (ev_SatisfiedTaskRefs revision);
  '(closure, order) ← buildEpisodeClosure (ev_ScopeRootTaskRef revision) refs dependencies edges
                        (ev_SatisfiedTaskRefs revision);
  let revision := revision {{
    ev_ExecutionHistory :=
      appendTaskRefUnique (ev_ExecutionHistory revision) (fr_SourceSemanticTaskRef finding);
    ev_DependencyEdges := edges;
    ev_AdmittedClosure := closure;
    ev_AdmittedOrder := order }} in
  Ok (revision {{ ev_RevisionID := blockerEpisodeRevisionID revision }}).

(** [Err None], exhausted fuel, never reaches the caller
    ([buildEpisodeClosure_spec], [validateEpisodeAcyclic_spec]). *)
Definition lift_loading {A} (r : loading A) : io A :=
  lift (wrap_err (default (err "fuel")) r).

Definition planBlockingRevision (finding : FindingRecord) (target root : SemanticTaskRef)
    (head : RepositoryControllerHead) (lease : ExecutionLease) (project : ProjectSnapshot)
    (previous : option BlockerEpisodeRevision) : io BlockerEpisodeRevision :=
  '(refs, dependencies) ← lift (projectDependencyAuthority (ri_PrimaryRoot identity) project);
  _ ← lift (validateBlockingAuthority refs finding target);
  revision ← newBlockingRevision finding target root head lease project previous;
  lift_loading (completeBlockingRevision revision finding target refs dependencies).

Definition blockingFindingContext (finding : FindingRecord) (head : RepositoryControllerHead)
    (target : SemanticTaskRef)
    : io (ExecutionLease * ProjectSnapshot * option BlockerEpisodeRevision) :=
  refuse! bool_decide (hd_RootTaskRef head = None) || bool_decide (hd_ExecutionTaskRef head = None) ||
          bool_decide (hd_LiveLeaseID head = "")
    with err "blocking finding requires complete live controller authority";
  lease ← loadLease (hd_LiveLeaseID head);
  refuse! bool_decide (ls_AttemptID lease ≠ fr_SourceAttemptID finding) ||
          negb (Equal (ls_SemanticTaskRef lease) (fr_SourceSemanticTaskRef finding))
    with err "blocking finding source lease is stale";
  project ← LoadProjectSnapshot identity (hd_ProjectSnapshotID head);
  previous ← currentEpisodeRevision head;
  binding ← loadProblemBinding (fr_ProblemKey finding);
  refuse! match pb_TargetTaskRef binding with Some t => negb (Equal t target) | None => false end
    with err "finding problem is already bound to a different semantic target";
  mret (lease, project, previous).

Definition persistBlockingRevision (finding : FindingRecord) (target : SemanticTaskRef)
    (revision : BlockerEpisodeRevision) (previous : option BlockerEpisodeRevision) : io unit :=
  _ ← writeEpisodeRevision revision;
  _ ← match previous with
      | None =>
          writeEpisodeRecord {|
            er_SchemaVersion := controllerSchemaVersion;
            er_EpisodeID := ev_EpisodeID revision;
            er_RepositoryIdentity := ri_LineageID identity;
            er_RootTaskRef := ev_RootTaskRef revision;
            er_ScopeRootTaskRef := ev_ScopeRootTaskRef revision;
            er_OpenedByFindingID := fr_FindingID finding;
            er_CreatedAt := ev_CreatedAt revision |}
      | Some _ => mret ()
      end;
  binding ← bindFindingTarget finding target;
  refuse! match pb_TargetTaskRef binding with Some t => negb (Equal t target) | None => true end
    with err "finding target binding changed during blocker planning";
  mret ().

Definition finding_result (finding : FindingRecord) (disposition : option FindingDisposition)
    (intent : FindingIntentKind) (reason : string) (episode : option BlockerEpisodeRevision)
    (next : option SemanticTaskRef) : FindingDispositionResult :=
  {| fs_Finding := finding; fs_Disposition := disposition; fs_Intent := intent;
     fs_Reason := reason; fs_Episode := episode; fs_NextTaskRef := next |}.

Definition blockingFindingResult (finding : FindingRecord) (disposition : FindingDisposition)
    (revision : BlockerEpisodeRevision) (previous : option BlockerEpisodeRevision)
    : FindingDispositionResult :=
  let schedule := scheduleEpisodeRevision revision in
  let intent := match previous with
                | None => FindingIntentOpenBlockerEpisode
                | Some _ => FindingIntentReplanBlockerEpisode end in
  finding_result finding (Some disposition)
    (if bool_decide (es_Intent schedule = FindingIntentNoRunnable) then FindingIntentNoRunnable else intent)
    (es_Reason schedule) (Some revision) (es_NextTaskRef schedule).

Definition empty_disposition : FindingDisposition := {|
  fp_SchemaVersion := 0; fp_DispositionID := ""; fp_FindingID := ""; fp_CanonicalFindingID := "";
  fp_Kind := ""; fp_TargetTaskRef := None; fp_BlockingBoundary := ""; fp_ControllerGeneration := 0;
  fp_EpisodeID := ""; fp_EpisodeRevision := 0; fp_CommittedAt := 0 |}.

Definition resolveBlockingFinding (finding : FindingRecord) (head : RepositoryControllerHead)
    (decision : FindingDecision) (target : SemanticTaskRef) : io FindingDispositionResult :=
  '(lease, project, previous) ← blockingFindingContext finding head target;
  match hd_RootTaskRef head with
  | None => fail (err "blocking finding requires complete live controller authority")
  | Some root =>
      revision ← planBlockingRevision finding target root head lease project previous;
      _ ← persistBlockingRevision finding target revision previous;
      disposition ← commitFindingDisposition finding (hd_ControllerGeneration head)
        (empty_disposition {{
          fp_Kind := FindingDispositionIndependentBlocking;
          fp_TargetTaskRef := Some target;
          fp_BlockingBoundary := fd_BlockingBoundary decision;
          fp_EpisodeID := ev_EpisodeID revision;
          fp_EpisodeRevision := ev_Revision revision }});
      mret (blockingFindingResult finding disposition revision previous)
  end.

(** ** Scheduling what is on disk *)
Definition scheduleEpisode (episodeID : string) (revision : N) : io EpisodeScheduleResult :=
  head ← LoadHead;
  _ ← ensureTerminalMetadataFinalized head;
  record ← LoadEpisodeRevision episodeID revision;
  mret (scheduleEpisodeRevision record).

Definition scheduleEpisodeAgainstProject (revision : BlockerEpisodeRevision) : io EpisodeScheduleResult :=
  head ← LoadHead;
  _ ← ensureTerminalMetadataFinalized head;
  project ← LoadProjectSnapshot identity (ev_ProjectSnapshotID revision);
  '(refs, dependencies) ← lift (projectDependencyAuthority (ri_PrimaryRoot identity) project);
  let authority := {| ea_project := project; ea_refs := refs; ea_dependencies := dependencies |} in
  _ ← lift (validateEpisodeScheduleAuthority revision authority);
  mret (scheduleEpisodeWithAuthority revision authority).

Definition ScheduleEpisodeWithProjectAuthority (episodeID : string) (revision : N)
    : io EpisodeScheduleResult :=
  legacy ← scheduleEpisode episodeID revision;
  scheduleEpisodeAgainstProject (es_Episode legacy).

(** ** Progression ([episode_progression.go]) *)
Definition projectHasTask (project : ProjectSnapshot) (task : SemanticTaskRef) : bool :=
  existsb (λ candidate, Equal candidate task) (ps_Tasks project).

Definition validateEpisodeSatisfactionInput (input : EpisodeSatisfactionInput) : result error unit :=
  reject! bool_decide (si_EpisodeID input = "") || bool_decide (si_ExpectedRevision input = 0%N) ||
          bool_decide (si_ProjectSnapshotID input = "") || ref_Empty (si_SatisfiedTaskRef input)
    with err "episode satisfaction authority is incomplete";
  Ok ().

Definition validateEpisodeSatisfactionHead (head : RepositoryControllerHead)
    (input : EpisodeSatisfactionInput) : result error unit :=
  reject! bool_decide (hd_Status head ≠ ControllerStatusActive)
    with err "episode satisfaction requires active controller authority";
  reject! bool_decide (hd_ControllerGeneration head ≠ si_ExpectedControllerGeneration input)
    with Errorf "episode satisfaction controller generation is stale: got=%d want=%d"
           [AInt (N.to_nat (si_ExpectedControllerGeneration input));
            AInt (N.to_nat (hd_ControllerGeneration head))];
  reject! bool_decide (hd_ProjectSnapshotID head ≠ si_ProjectSnapshotID input)
    with err "episode satisfaction project snapshot is stale";
  reject! bool_decide (hd_ActiveEpisodeID head ≠ si_EpisodeID input) ||
          bool_decide (hd_ActiveEpisodeRevision head ≠ si_ExpectedRevision input)
    with err "episode satisfaction revision is stale";
  Ok ().

Definition validateEpisodeSatisfactionRevision (head : RepositoryControllerHead)
    (previous : BlockerEpisodeRevision) (project : ProjectSnapshot)
    (input : EpisodeSatisfactionInput) : result error unit :=
  reject! bool_decide (ev_State previous = EpisodeStateClosed)
    with err "closed blocker episode cannot accept satisfaction";
  match hd_RootTaskRef head with
  | None => Err (err "episode satisfaction root authority does not match controller")
  | Some root =>
      reject! bool_decide (ref_TaskPath root ≠ ref_TaskPath (ev_RootTaskRef previous))
        with err "episode satisfaction root authority does not match controller";
      reject! negb (projectHasTask project root)
        with err "episode satisfaction root authority is not in result project snapshot";
      reject! negb (taskRefIn (ev_AdmittedClosure previous) (si_SatisfiedTaskRef input))
        with err "satisfied task is outside admitted blocker closure";
      Ok ()
  end.

Definition validateEpisodeSatisfaction (input : EpisodeSatisfactionInput)
    : io (RepositoryControllerHead * BlockerEpisodeRevision * ProjectSnapshot) :=
  _ ← lift (validateEpisodeSatisfactionInput input);
  head ← LoadHead;
  _ ← lift (validateEpisodeSatisfactionHead head input);
  project ← LoadProjectSnapshot identity (si_ProjectSnapshotID input);
  previous ← LoadEpisodeRevision (si_EpisodeID input) (si_ExpectedRevision input);
  _ ← lift (validateEpisodeSatisfactionRevision head previous project input);
  mret (head, previous, project).

Definition SatisfyEpisodeTask (input : EpisodeSatisfactionInput) : io EpisodeScheduleResult :=
  under_lock (
    '(_, previous, _) ← validateEpisodeSatisfaction input;
    refuse! negb (taskPathSatisfied (ev_SatisfiedTaskRefs previous)
                    (ref_TaskPath (si_SatisfiedTaskRef input)))
      with err "dependency fulfillment requires controller-committed publication";
    scheduleEpisodeAgainstProject previous).

Definition projectRefsByPath (project : ProjectSnapshot) : gmap string SemanticTaskRef :=
  foldl (λ refs ref, <[ref_TaskPath ref := ref]> refs) ∅ (ps_Tasks project).
Definition appendTaskPathUnique (refs : list SemanticTaskRef) (candidate : SemanticTaskRef)
    : list SemanticTaskRef :=
  if taskPathSatisfied refs (ref_TaskPath candidate) then refs else refs ++ [candidate].

Definition rebindEpisodeRef (previous : SemanticTaskRef) (refs : gmap string SemanticTaskRef)
    (satisfied : list SemanticTaskRef) : result error SemanticTaskRef :=
  match refs !! ref_TaskPath previous with
  | Some current => Ok current
  | None =>
      if taskPathSatisfied satisfied (ref_TaskPath previous) then Ok previous
      else Err (Errorf "unsatisfied blocker task %s is missing from result project snapshot"
                  [AStr (ref_TaskPath previous)])
  end.
Fixpoint rebindEpisodeRefs (previous : list SemanticTaskRef) (refs : gmap string SemanticTaskRef)
    (satisfied : list SemanticTaskRef) : result error (list SemanticTaskRef) :=
  match previous with
  | [] => Ok []
  | ref :: previous =>
      rebound ← rebindEpisodeRef ref refs satisfied;
      result ← rebindEpisodeRefs previous refs satisfied;
      Ok (rebound :: result)
  end.
Fixpoint rebindEpisodeEdges (edges : list EpisodeDependencyEdge) (refs : gmap string SemanticTaskRef)
    (satisfied : list SemanticTaskRef) : result error (list EpisodeDependencyEdge) :=
  match edges with
  | [] => Ok []
  | edge :: edges =>
      blocked ← rebindEpisodeRef (ee_BlockedTaskRef edge) refs satisfied;
      dependency ← rebindEpisodeRef (ee_DependencyTaskRef edge) refs satisfied;
      result ← rebindEpisodeEdges edges refs satisfied;
      Ok (edge {{ ee_BlockedTaskRef := blocked; ee_DependencyTaskRef := dependency }} :: result)
  end.

Definition rebindProgressedEpisode (previous : BlockerEpisodeRevision)
    (refs : gmap string SemanticTaskRef) (satisfied : list SemanticTaskRef)
    : result error BlockerEpisodeRevision :=
  scope ← rebindEpisodeRef (ev_ScopeRootTaskRef previous) refs satisfied;
  edges ← rebindEpisodeEdges (ev_DependencyEdges previous) refs satisfied;
  closure ← rebindEpisodeRefs (ev_AdmittedClosure previous) refs satisfied;
  order ← rebindEpisodeRefs (ev_AdmittedOrder previous) refs satisfied;
  Ok (previous {{ ev_ScopeRootTaskRef := scope; ev_DependencyEdges := edges;
                  ev_AdmittedClosure := closure; ev_AdmittedOrder := order }}).

(** [root] is [*head.RootTaskRef], [generation] its generation, [now] the time. *)
Definition progressedEpisodeRevision (previous : BlockerEpisodeRevision) (root : SemanticTaskRef)
    (generation : N) (project : ProjectSnapshot) (task : SemanticTaskRef) (now : Time)
    : result error BlockerEpisodeRevision :=
  let satisfied := if negb (ref_Empty task) then appendTaskPathUnique (ev_SatisfiedTaskRefs previous) task
                   else ev_SatisfiedTaskRefs previous in
  next ← rebindProgressedEpisode previous (projectRefsByPath project) satisfied;
  let next := next {{
    ev_Revision := u64 (ev_Revision previous + 1);
    ev_RevisionID := "";
    ev_PreviousRevisionID := ev_RevisionID previous;
    ev_ProjectSnapshotID := ps_SnapshotID project;
    ev_RootTaskRef := root;
    ev_TriggerFindingID := "";
    ev_SatisfiedTaskRefs := satisfied;
    ev_SourceControllerGeneration := generation;
    ev_SourceAttemptID := "";
    ev_SourceLeaseID := "";
    ev_SourceWorkspaceID := "";
    ev_SourceWorkspaceSnapshotID := "";
    ev_State := if taskPathSatisfied satisfied (ref_TaskPath (ev_ScopeRootTaskRef next))
                then EpisodeStateResumingRoot else EpisodeStateReplanning;
    ev_CreatedAt := now }} in
  Ok (next {{ ev_RevisionID := blockerEpisodeRevisionID next }}).
End EpisodeControl.
