(* ===== verification/EpisodeSchedule.v ===== *)
(** * What the blocker episodes promise

    Laws of the definitions of [EpisodeControl]: a revision the planner admits
    always has a next task, the scheduler against the committed project only
    hands out tasks whose dependencies are all met, and satisfying a task keeps
    the episode schedulable and strictly shrinks what is left of it. *)
From S2P Require Import Prelude GoStrings ControllerTypes ControllerStore CommittedProject.
From S2P Require Import MutationControl Findings Episode EpisodeControl.

(** ** Membership tests *)
Lemma taskRefIn_true refs r : taskRefIn refs r = true ↔ r ∈ refs.
Proof.
  induction refs as [|x refs IH]; simpl; [split; [done|set_solver]|].
  rewrite elem_of_cons. destruct (Equal x r) eqn:E.
  - apply Equal_true in E. naive_solver.
  - apply Equal_false in E. rewrite IH. naive_solver.
Qed.
Lemma taskRefIn_false refs r : taskRefIn refs r = false ↔ r ∉ refs.
Proof. rewrite <- taskRefIn_true. by destruct (taskRefIn refs r). Qed.
Lemma taskPathSatisfied_true refs p : taskPathSatisfied refs p = true ↔ p ∈ ref_TaskPath <$> refs.
Proof.
  unfold taskPathSatisfied. rewrite existsb_exists, list_elem_of_fmap.
  setoid_rewrite bool_decide_eq_true. setoid_rewrite <- list_elem_of_In. naive_solver.
Qed.
Lemma taskPathSatisfied_false refs p : taskPathSatisfied refs p = false ↔ p ∉ ref_TaskPath <$> refs.
Proof. rewrite <- taskPathSatisfied_true. by destruct (taskPathSatisfied refs p). Qed.
Lemma elem_of_taskPathSet refs p : p ∈ taskPathSet refs ↔ p ∈ ref_TaskPath <$> refs.
Proof. apply elem_of_list_to_set. Qed.

(** ** The scheduler over the admitted order *)
Section Revision.
Context (revision : BlockerEpisodeRevision).

(** Every edge that blocks the task points to a satisfied one. *)
Definition unblocked (task : SemanticTaskRef) : Prop :=
  ∀ edge, edge ∈ ev_DependencyEdges revision → ee_BlockedTaskRef edge = task →
    ee_DependencyTaskRef edge ∈ ev_SatisfiedTaskRefs revision.

Lemma edgesSatisfied_true task edges :
  edgesSatisfied revision task edges = true ↔
  ∀ edge, edge ∈ edges → ee_BlockedTaskRef edge = task →
    ee_DependencyTaskRef edge ∈ ev_SatisfiedTaskRefs revision.
Proof.
  induction edges as [|edge edges IH]; simpl; [set_solver|].
  setoid_rewrite elem_of_cons.
  destruct (Equal (ee_BlockedTaskRef edge) task) eqn:Hb; simpl.
  - apply Equal_true in Hb.
    destruct (taskRefIn (ev_SatisfiedTaskRefs revision) (ee_DependencyTaskRef edge)) eqn:Hs; simpl.
    + apply taskRefIn_true in Hs. rewrite IH. naive_solver.
    + apply taskRefIn_false in Hs. naive_solver.
  - apply Equal_false in Hb. rewrite IH. naive_solver.
Qed.

Lemma dependsOn_true edges b t :
  dependsOn edges b t = true →
  ∃ edge, edge ∈ edges ∧ ee_BlockedTaskRef edge = b ∧ ee_DependencyTaskRef edge = t.
Proof.
  induction edges as [|edge edges IH]; simpl; [done|].
  destruct (_ && _) eqn:E.
  - apply andb_true_iff in E as [?%Equal_true ?%Equal_true]. exists edge. set_solver.
  - intros (e & ? & ? & ?)%IH. exists e. set_solver.
Qed.

(** The scan of the order before the task never changes the answer: it looks for
    direct edges only, which the first loop has already found satisfied. *)
Lemma episodeTaskReady_direct task : episodeTaskReady revision task = true ↔ unblocked task.
Proof.
  unfold episodeTaskReady, unblocked. rewrite <- edgesSatisfied_true.
  destruct (edgesSatisfied _ _ _) eqn:E; simpl; [|done]. split; [done|]. intros _.
  apply forallb_forall. intros t _. apply negb_true_iff, andb_false_iff.
  destruct (dependsTransitively revision task t) eqn:Hd; [left|by right].
  apply dependsOn_true in Hd as (edge & Hin & Hb & <-). apply negb_false_iff, taskRefIn_true.
  by eapply edgesSatisfied_true.
Qed.

Lemma scheduleCandidates_first pre next post :
  Forall (λ t, t ∈ ev_SatisfiedTaskRefs revision) pre →
  next ∉ ev_SatisfiedTaskRefs revision → unblocked next →
  scheduleCandidates revision (pre ++ next :: post) = Some next.
Proof.
  intros Hpre Hn Hu. induction Hpre as [|t pre Ht _ IH]; simpl.
  - apply taskRefIn_false in Hn. rewrite Hn. apply episodeTaskReady_direct in Hu. by rewrite Hu.
  - apply taskRefIn_true in Ht. by rewrite Ht.
Qed.
Lemma scheduleCandidates_done order :
  Forall (λ t, t ∈ ev_SatisfiedTaskRefs revision) order → scheduleCandidates revision order = None.
Proof. induction 1 as [|t order Ht _ IH]; simpl; [done|]. apply taskRefIn_true in Ht. by rewrite Ht. Qed.
End Revision.

(** ** Planning always leaves something to run *)
Lemma find_split {A} (p : A → bool) l x :
  find p l = Some x →
  ∃ pre post, l = pre ++ x :: post ∧ Forall (λ y, p y = false) pre ∧ p x = true.
Proof.
  induction l as [|y l IH]; simpl; [done|]. destruct (p y) eqn:E.
  - intros [= ->]. by exists [], l.
  - intros (pre & post & -> & ? & ?)%IH. exists (y :: pre), post. auto.
Qed.

Lemma elem_of_addEdges edges satisfied m p q :
  (∃ edge, edge ∈ edges ∧ ee_DependencyTaskRef edge ∉ satisfied ∧
     ref_TaskPath (ee_BlockedTaskRef edge) = p ∧ ref_TaskPath (ee_DependencyTaskRef edge) = q) ∨
  q ∈ get m p → q ∈ get (addEdges edges satisfied m) p.
Proof.
  revert m. induction edges as [|edge edges IH]; intros m; simpl; [set_solver|].
  destruct (taskRefIn satisfied (ee_DependencyTaskRef edge)) eqn:Hs.
  { apply taskRefIn_true in Hs. intros [(e & [->|?]%elem_of_cons & ? & ? & ?)|?]; [done|..]; apply IH.
    - left. by exists e.
    - by right. }
  intros H. apply IH. set (m' := <[_ := _]> m).
  assert (∀ x, x ∈ get m p → x ∈ get m' p) as Hm.
  { intros x. subst m'. unfold get at 2. destruct (decide (ref_TaskPath (ee_BlockedTaskRef edge) = p)) as [<-|Hn].
    - rewrite lookup_insert_eq. simpl. unfold appendUniqueString. destruct (existsb _ _); set_solver.
    - by rewrite lookup_insert_ne. }
  destruct H as [(e & [->|?]%elem_of_cons & ? & <- & <-)|?]; [|left; by exists e|by right; apply Hm].
  right. subst m'. unfold get. rewrite lookup_insert_eq. simpl. unfold appendUniqueString.
  destruct (existsb _ _) eqn:E; [|set_solver].
  apply existsb_exists in E as (x & Hx%list_elem_of_In & ->%bool_decide_eq_true). done.
Qed.

(** The references an earlier revision carries are those of the project. *)
Definition current_refs (refs : gmap string SemanticTaskRef) (scope : SemanticTaskRef)
    (edges : list EpisodeDependencyEdge) (satisfied : list SemanticTaskRef) : Prop :=
  refs !! ref_TaskPath scope = Some scope ∧
  ∀ edge, edge ∈ edges → ee_DependencyTaskRef edge ∉ satisfied →
    refs !! ref_TaskPath (ee_DependencyTaskRef edge) = Some (ee_DependencyTaskRef edge).

(** The next task of a planned revision: the first of its order that is not done. *)
Definition first_unsatisfied (revision : BlockerEpisodeRevision) : option SemanticTaskRef :=
  find (λ t, negb (taskRefIn (ev_SatisfiedTaskRefs revision) t)) (ev_AdmittedOrder revision).

Section Planned.
Context (refs : gmap string SemanticTaskRef) (canonical : gmap string (list string)).
Context (revision : BlockerEpisodeRevision) (closure : list SemanticTaskRef).
Hypothesis refs_keyed : ∀ p r, refs !! p = Some r → ref_TaskPath r = p.
Hypothesis built : buildEpisodeClosure (ev_ScopeRootTaskRef revision) refs canonical
  (ev_DependencyEdges revision) (ev_SatisfiedTaskRefs revision) =
  Ok (closure, ev_AdmittedOrder revision).
Hypothesis current : current_refs refs (ev_ScopeRootTaskRef revision)
  (ev_DependencyEdges revision) (ev_SatisfiedTaskRefs revision).

Lemma order_unblocked pre next post :
  ev_AdmittedOrder revision = pre ++ next :: post →
  Forall (λ t, t ∈ ev_SatisfiedTaskRefs revision) pre → unblocked revision next.
Proof.
  intros Ho Hpre edge He <-.
  destruct (decide (ee_DependencyTaskRef edge ∈ ev_SatisfiedTaskRefs revision)) as [|Hs]; [done|].
  pose proof (closure_iff (ev_ScopeRootTaskRef revision) refs canonical
    (ev_DependencyEdges revision) (ev_SatisfiedTaskRefs revision) refs_keyed) as H.
  cbv zeta in H. rewrite built in H. destruct H as (_ & _ & _ & Ht & _).
  destruct (Ht pre _ post Ho) as [_ Hw].
  assert (ref_TaskPath (ee_DependencyTaskRef edge) ∈ ref_TaskPath <$> pre) as Hin.
  { apply Hw. right. apply elem_of_addEdges. left. by exists edge. }
  apply list_elem_of_fmap in Hin as (x & Hp & Hx). rewrite Forall_forall in Hpre.
  assert (x = ee_DependencyTaskRef edge) as <-; [|by apply Hpre].
  apply (inj Some). rewrite <- (proj2 current edge He Hs), Hp.
  apply list_elem_of_split in Hx as (a & b & ->).
  destruct (Ht a x (b ++ ee_BlockedTaskRef edge :: post)) as [-> _]; [|done].
  rewrite Ho, <- app_assoc. done.
Qed.

Lemma scope_in_order : ev_ScopeRootTaskRef revision ∈ ev_AdmittedOrder revision.
Proof.
  pose proof (closure_iff (ev_ScopeRootTaskRef revision) refs canonical
    (ev_DependencyEdges revision) (ev_SatisfiedTaskRefs revision) refs_keyed) as H.
  cbv zeta in H. rewrite built in H. destruct H as (_ & _ & Hreach & Ht & _).
  assert (ref_TaskPath (ev_ScopeRootTaskRef revision) ∈ ref_TaskPath <$> ev_AdmittedOrder revision)
    as (x & Hp & Hx)%list_elem_of_fmap by by apply Hreach.
  assert (x = ev_ScopeRootTaskRef revision) as <-; [|done].
  apply (inj Some). rewrite <- (proj1 current), Hp.
  apply list_elem_of_split in Hx as (a & b & Ho). by destruct (Ht a x b Ho) as [-> _].
Qed.

Lemma planned_next :
  match first_unsatisfied revision with
  | Some next =>
      es_NextTaskRef (scheduleEpisodeRevision revision) = Some next ∧
      es_Intent (scheduleEpisodeRevision revision) ∈
        [FindingIntentStartBlockerTask; FindingIntentResumeBlockerTask]
  | None => es_Intent (scheduleEpisodeRevision revision) = FindingIntentResumeRootTask
  end.
Proof.
  unfold first_unsatisfied. destruct (find _ _) as [next|] eqn:E.
  - apply find_split in E as (pre & post & Ho & Hpre & Hn%negb_true_iff%taskRefIn_false).
    assert (Forall (λ t, t ∈ ev_SatisfiedTaskRefs revision) pre) as Hs.
    { eapply Forall_impl; [exact Hpre|]. intros t Ht%negb_false_iff. by apply taskRefIn_true. }
    unfold scheduleEpisodeRevision. rewrite Ho at 1 2.
    rewrite (scheduleCandidates_first _ pre next post Hs Hn (order_unblocked _ _ _ Ho Hs)).
    split; [done|]. simpl. destruct (taskRefIn _ next); set_solver.
  - apply find_none_forall in E.
    assert (Forall (λ t, t ∈ ev_SatisfiedTaskRefs revision) (ev_AdmittedOrder revision)) as Hs.
    { eapply Forall_impl; [exact E|]. intros t Ht%negb_false_iff. by apply taskRefIn_true. }
    unfold scheduleEpisodeRevision. rewrite scheduleCandidates_done by done.
    rewrite Forall_forall in Hs. by rewrite (proj2 (taskRefIn_true _ _) (Hs _ scope_in_order)).
Qed.
End Planned.

(** ** The planner *)
Section Planner.
Context `{Git, Host} (identity : RepositoryIdentity) (range : gmap string (list string) → list string).

Lemma newBlockingRevision_fields finding target root head lease project previous d revision d' :
  newBlockingRevision identity finding target root head lease project previous d = (Ok revision, d') →
  ev_ScopeRootTaskRef revision = match previous with None => target | Some p => ev_ScopeRootTaskRef p end ∧
  ev_DependencyEdges revision = match previous with None => [] | Some p => ev_DependencyEdges p end ∧
  ev_SatisfiedTaskRefs revision = match previous with None => [] | Some p => ev_SatisfiedTaskRefs p end.
Proof.
  unfold newBlockingRevision. intros E. io_inv E. destruct previous as [previous|]; lazymatch goal with E : _ = (Ok revision, _) |- _ => io_inv E end; done.
Qed.

Lemma validateBlockingAuthority_Ok refs finding target :
  validateBlockingAuthority refs finding target = Ok () →
  refs !! ref_TaskPath target = Some target ∧
  refs !! ref_TaskPath (fr_SourceSemanticTaskRef finding) = Some (fr_SourceSemanticTaskRef finding).
Proof.
  unfold validateBlockingAuthority. intros E. result_inv E.
  repeat match goal with H : match ?x with _ => _ end = false |- _ => destruct x eqn:?; [|done] end.
  bool_simp.
  repeat match goal with H : Equal _ _ = true |- _ => apply Equal_true in H; subst end. done.
Qed.

Lemma completeBlockingRevision_Ok revision finding target refs deps revision' :
  completeBlockingRevision range revision finding target refs deps = Ok revision' →
  let edge := {| ee_BlockedTaskRef := fr_SourceSemanticTaskRef finding;
                 ee_DependencyTaskRef := target; ee_FindingID := fr_FindingID finding |} in
  (∀ e, e ∈ ev_DependencyEdges revision' → e ∈ ev_DependencyEdges revision ∨ e = edge) ∧
  ev_ScopeRootTaskRef revision' = ev_ScopeRootTaskRef revision ∧
  ev_SatisfiedTaskRefs revision' = ev_SatisfiedTaskRefs revision ∧
  ∃ closure, buildEpisodeClosure (ev_ScopeRootTaskRef revision') refs deps
    (ev_DependencyEdges revision') (ev_SatisfiedTaskRefs revision') =
    Ok (closure, ev_AdmittedOrder revision') ∧ ev_AdmittedClosure revision' = closure.
Proof.
  intros E. unfold completeBlockingRevision in E. result_inv E.
  lazymatch goal with H : (let '(_, _) := ?x in _) = Ok _ |- _ =>
    destruct x as [closure order]; injection H as <- end.
  simpl. split; [|split; [done|split; [done|by exists closure]]].
  intros e. destruct (negb _); set_solver.
Qed.

(** C25: a planned revision always leaves something to run.  Whenever the
    references carried over from the previous revision are still the project's,
    the scheduler hands out the first task of the admitted order that is not yet
    satisfied, or sends the controller back to the root when none is left; it
    never reports that nothing is runnable.  A newly opened episode starts with
    the first task of its order. *)
Theorem planBlockingRevision_runnable finding target root head lease project previous d revision d' :
  planBlockingRevision identity range finding target root head lease project previous d =
    (Ok revision, d') →
  (∀ p refs deps, previous = Some p →
     projectDependencyAuthority (ri_PrimaryRoot identity) project = Ok (refs, deps) →
     current_refs refs (ev_ScopeRootTaskRef p) (ev_DependencyEdges p) (ev_SatisfiedTaskRefs p)) →
  let schedule := scheduleEpisodeRevision revision in
  match first_unsatisfied revision with
  | Some next => es_NextTaskRef schedule = Some next ∧
      es_Intent schedule ∈ [FindingIntentStartBlockerTask; FindingIntentResumeBlockerTask]
  | None => es_Intent schedule = FindingIntentResumeRootTask
  end ∧
  (previous = None →
     first_unsatisfied revision = hd_error (ev_AdmittedOrder revision) ∧
     ev_AdmittedOrder revision ≠ []).
Proof.
  unfold planBlockingRevision. intros E Hcur. apply io_bind_Ok in E as ([refs deps] & d1 & Ha & E).
  apply lift_Ok in Ha as [Hpa ->]. io_inv E.
  lazymatch goal with V : validateBlockingAuthority _ _ _ = Ok ?u, N : newBlockingRevision _ _ _ _ _ _ _ _ _ = _,
    L : lift_loading _ _ = _ |- _ =>
      destruct u; apply validateBlockingAuthority_Ok in V as [Ht _];
      apply newBlockingRevision_fields in N as (Hs & He & Hsat);
      apply lift_Ok in L as [L _]; apply wrap_err_Ok in L;
      apply completeBlockingRevision_Ok in L as (He' & Hs' & Hsat' & closure & Hb & _) end.
  assert (current_refs refs (ev_ScopeRootTaskRef revision) (ev_DependencyEdges revision)
    (ev_SatisfiedTaskRefs revision)) as Hc.
  { rewrite Hs', Hsat', Hs, Hsat. split.
    - destruct previous as [p|]; [by eapply Hcur|done].
    - intros e [He1| ->]%He' Hns; [|done]. rewrite He in He1.
      destruct previous as [p|]; [by eapply (Hcur p)|set_solver]. }
  assert (∀ p r, refs !! p = Some r → ref_TaskPath r = p) as Hk.
  { intros p r. by eapply projectDependencyAuthority_keyed. }
  split; [by eapply planned_next|]. intros ->.
  pose proof (scope_in_order _ _ _ _ Hk Hb Hc) as Hin.
  unfold first_unsatisfied. rewrite Hsat', Hsat.
  destruct (ev_AdmittedOrder revision); [by apply elem_of_nil in Hin|done].
Qed.
End Planner.

(** ** Scheduling against the committed project *)
Section Authority.
Context (revision : BlockerEpisodeRevision) (authority : episodeScheduleAuthority).

Definition satisfied_paths : list string := ref_TaskPath <$> ev_SatisfiedTaskRefs revision.
(** The path stands for a task of the closure that is not done. *)
Definition open_path (path : string) : Prop :=
  path ∈ ref_TaskPath <$> ev_AdmittedClosure revision ∧ path ∉ satisfied_paths.
(** The task may run now: nothing outstanding in the committed graph, and every
    episode edge that blocks it is met. *)
Definition may_run (task : SemanticTaskRef) : Prop :=
  get (ea_dependencies authority) (ref_TaskPath task) = [] ∧
  ∀ edge, edge ∈ ev_DependencyEdges revision →
    ref_TaskPath (ee_BlockedTaskRef edge) = ref_TaskPath task →
    ref_TaskPath (ee_DependencyTaskRef edge) ∈ satisfied_paths.
Definition runnable (path : string) (task : SemanticTaskRef) : Prop :=
  open_path path ∧ ea_refs authority !! path = Some task ∧ may_run task.
(** The schedule of the project lets the whole open closure run. *)
Definition schedule_open : Prop :=
  ∀ path, open_path path →
    path ∈ ps_Next (ea_project authority) ∧ path ∉ ps_Blocked (ea_project authority).

Lemma readyAgainstProject_true task :
  episodeTaskReadyAgainstProject revision task (ea_dependencies authority) = true ↔ may_run task.
Proof.
  unfold episodeTaskReadyAgainstProject, may_run.
  destruct (decide (length (get (ea_dependencies authority) (ref_TaskPath task)) = 0)) as [Hl|Hl].
  2:{ rewrite bool_decide_true by done. split; [done|]. intros [H _]. by rewrite H in Hl. }
  rewrite bool_decide_false by tauto.
  rewrite forallb_forall. setoid_rewrite <- list_elem_of_In.
  setoid_rewrite orb_true_iff. setoid_rewrite taskPathSatisfied_true.
  setoid_rewrite negb_true_iff. setoid_rewrite bool_decide_eq_false.
  apply nil_length_inv in Hl. split.
  - intros H. split; [done|]. intros edge He Hp. by destruct (H edge He).
  - intros [_ H] edge He. destruct (decide (ref_TaskPath (ee_BlockedTaskRef edge) = ref_TaskPath task));
      [right; by apply H|by left].
Qed.

Lemma resumeLoop_spec scope paths :
  match resumeLoop revision authority scope paths with
  | Some task => ∃ path, path ∈ paths ∧ path ∈ scope ∧ path ∉ satisfied_paths ∧
      ea_refs authority !! path = Some task ∧ may_run task
  | None => ∀ path task, path ∈ paths → path ∈ scope → path ∉ satisfied_paths →
      ea_refs authority !! path = Some task → ¬ may_run task
  end.
Proof.
  induction paths as [|path paths IH]; simpl; [set_solver|].
  assert (∀ keep : bool, (keep = true → path ∈ scope ∧ path ∉ satisfied_paths ∧
      ∃ task, ea_refs authority !! path = Some task ∧ may_run task) →
    (keep = false → ∀ task, path ∈ scope → path ∉ satisfied_paths →
      ea_refs authority !! path = Some task → ¬ may_run task) →
    match (if keep then ea_refs authority !! path else resumeLoop revision authority scope paths) with
    | Some task => ∃ path', path' ∈ path :: paths ∧ path' ∈ scope ∧ path' ∉ satisfied_paths ∧
        ea_refs authority !! path' = Some task ∧ may_run task
    | None => ∀ path' task, path' ∈ path :: paths → path' ∈ scope → path' ∉ satisfied_paths →
        ea_refs authority !! path' = Some task → ¬ may_run task
    end) as Hkeep.
  { intros [] Ht Hf.
    - destruct (Ht eq_refl) as (? & ? & task & Hr & ?). rewrite Hr. exists path. split; [apply list_elem_of_here|done].
    - destruct (resumeLoop _ _ _ _) as [next|].
      { destruct IH as (path' & ? & ?). exists path'. split; [by apply list_elem_of_further|done]. }
      intros path' task [->|?]%elem_of_cons; [by apply Hf|by apply IH]. }
  destruct (bool_decide (path ∉ scope) || taskPathSatisfied (ev_SatisfiedTaskRefs revision) path) eqn:Hs.
  { apply (Hkeep false); [done|]. intros _ task ?? _ _.
    apply orb_true_iff in Hs as [Hs%bool_decide_eq_true|Hs%taskPathSatisfied_true]; done. }
  apply orb_false_iff in Hs as [Hs%bool_decide_eq_false Hp%taskPathSatisfied_false].
  apply dec_stable in Hs. destruct (ea_refs authority !! path) as [task|] eqn:Hr.
  2:{ apply (Hkeep false); [done|]. intros _ task _ _. congruence. }
  destruct (episodeTaskReadyAgainstProject _ _ _) eqn:Hready.
  - apply (Hkeep true); [|done]. intros _. apply readyAgainstProject_true in Hready. eauto.
  - apply (Hkeep false); [done|]. intros _ task' _ _ [= <-] Hm%readyAgainstProject_true. congruence.
Qed.

Lemma scheduleStateLoop_None next blocked closure :
  scheduleStateLoop revision next blocked closure = None ↔
  ∀ path, path ∈ ref_TaskPath <$> closure → path ∉ satisfied_paths → path ∈ next ∧ path ∉ blocked.
Proof.
  induction closure as [|ref closure IH]; simpl; [split; [set_solver|done]|].
  setoid_rewrite elem_of_cons.
  destruct (taskPathSatisfied _ _) eqn:Hs.
  { apply taskPathSatisfied_true in Hs. rewrite IH. naive_solver. }
  apply taskPathSatisfied_false in Hs. repeat case_bool_decide; [..|rewrite IH]; naive_solver.
Qed.
Lemma schedule_open_iff :
  episodeScheduleStateFailure revision (ea_project authority) = None ↔ schedule_open.
Proof.
  unfold episodeScheduleStateFailure, schedule_open, open_path, stringSet. rewrite scheduleStateLoop_None.
  setoid_rewrite elem_of_list_to_set. naive_solver.
Qed.

(** C24: against the committed project the scheduler is sound and complete.  With
    the scope root still open it hands out a task exactly when the project's
    schedule admits the whole open closure and some open task may run, that is,
    has no outstanding dependency left, committed or of the episode; the task it
    hands out is such a task, and one already worked on is resumed before a new
    one is started.  Once the scope root is satisfied the root resumes. *)
Theorem scheduleEpisodeWithAuthority_spec :
  let schedule := scheduleEpisodeWithAuthority revision authority in
  let root_done := ref_TaskPath (ev_ScopeRootTaskRef revision) ∈ satisfied_paths in
  let worked_on path := path ∈ ref_TaskPath <$> ev_ExecutionHistory revision in
  (root_done → schedule = schedule_result revision FindingIntentResumeRootTask "" None) ∧
  (¬ root_done →
     (is_Some (es_NextTaskRef schedule) ↔ schedule_open ∧ ∃ path task, runnable path task) ∧
     (es_NextTaskRef schedule = None → es_Intent schedule = FindingIntentNoRunnable) ∧
     ∀ task, es_NextTaskRef schedule = Some task → ∃ path, runnable path task ∧
       (es_Intent schedule = FindingIntentResumeBlockerTask ∧ worked_on path ∨
        es_Intent schedule = FindingIntentStartBlockerTask ∧ ¬ worked_on path ∧
        ∀ path' task', runnable path' task' → ¬ worked_on path')).
Proof.
  cbv zeta. unfold scheduleEpisodeWithAuthority. split.
  { intros Hroot%taskPathSatisfied_true. by rewrite Hroot. }
  intros Hroot%taskPathSatisfied_false. rewrite Hroot.
  destruct (episodeScheduleStateFailure _ _) as [reason|] eqn:Hf; simpl.
  { split; [|done]. split; [by intros []|]. intros [Ho%schedule_open_iff _]. congruence. }
  apply schedule_open_iff in Hf.
  unfold episodeResumeCandidate. pose proof (resumeLoop_spec (taskPathSet (ev_AdmittedClosure revision))
    (reverse (ref_TaskPath <$> ev_ExecutionHistory revision))) as HR.
  destruct (resumeLoop _ _ _ (reverse _)) as [next|]; simpl.
  { setoid_rewrite elem_of_reverse in HR. setoid_rewrite elem_of_taskPathSet in HR.
    destruct HR as (path & ? & ? & ? & ? & ?).
    assert (runnable path next) by done. split; [naive_solver|]. split; [done|].
    intros task [= <-]. exists path. auto. }
  assert (∀ path task, runnable path task → path ∉ ref_TaskPath <$> ev_ExecutionHistory revision) as HN.
  { intros path task ([Hc Hs] & Hr & Hm) Hh. apply (HR path task); [|by apply elem_of_taskPathSet|done..].
    by apply elem_of_reverse. }
  unfold episodeFreshCandidate. pose proof (resumeLoop_spec
    (taskPathSet (ev_AdmittedClosure revision) ∖ taskPathSet (ev_ExecutionHistory revision))
    (ps_Next (ea_project authority))) as HF.
  destruct (resumeLoop _ _ _ (ps_Next _)) as [next|]; simpl.
  - destruct HF as (path & ? & Hsc & ? & ? & ?).
    rewrite elem_of_difference, !elem_of_taskPathSet in Hsc. destruct Hsc. assert (runnable path next) by done.
    split; [naive_solver|]. split; [done|]. intros task [= <-]. exists path. eauto 6.
  - split; [|done]. split; [by intros []|]. intros (_ & path & task & Hrun).
    pose proof (HN path task Hrun). destruct Hrun as ([Hc Hs] & Hr & Hm).
    destruct (HF path task); [by apply Hf|by rewrite elem_of_difference, !elem_of_taskPathSet|done..].
Qed.
End Authority.

(** ** Progression *)
Lemma is_ok_seq {E A B} (m : result E A) (f : A → result E B) b :
  (∀ a, is_ok (f a) = b) → is_ok (m ≫= f) = is_ok m && b.
Proof. intros Hf. destruct m; [apply Hf|done]. Qed.

Section Rebind.
Context (refs : gmap string SemanticTaskRef) (satisfied : list SemanticTaskRef).
Hypothesis refs_keyed : ∀ p r, refs !! p = Some r → ref_TaskPath r = p.

(** The reference can be carried over: the project has the path, or it is done. *)
Definition known (path : string) : Prop :=
  is_Some (refs !! path) ∨ path ∈ ref_TaskPath <$> satisfied.
(** A reference carried over is under its own path, and current unless done. *)
Definition carried (previous ref : SemanticTaskRef) : Prop :=
  ref_TaskPath ref = ref_TaskPath previous ∧
  (ref_TaskPath ref ∈ ref_TaskPath <$> satisfied ∨ refs !! ref_TaskPath ref = Some ref).

Lemma rebindEpisodeRef_known previous :
  is_ok (rebindEpisodeRef previous refs satisfied) = true ↔ known (ref_TaskPath previous).
Proof.
  unfold rebindEpisodeRef, known. destruct (refs !! _); simpl; [naive_solver|].
  rewrite <- taskPathSatisfied_true. destruct (taskPathSatisfied _ _); simpl; [tauto|].
  split; [done|]. by intros [[]|].
Qed.
Lemma rebindEpisodeRef_carried previous ref :
  rebindEpisodeRef previous refs satisfied = Ok ref → carried previous ref.
Proof.
  unfold rebindEpisodeRef, carried. destruct (refs !! _) as [r|] eqn:E.
  - intros [= <-]. rewrite (refs_keyed _ _ E). auto.
  - destruct (taskPathSatisfied _ _) eqn:Hs; [|done]. intros [= <-].
    apply taskPathSatisfied_true in Hs. auto.
Qed.

Lemma rebindEpisodeRefs_known previous :
  is_ok (rebindEpisodeRefs previous refs satisfied) = true ↔
  ∀ p, p ∈ ref_TaskPath <$> previous → known p.
Proof.
  induction previous as [|ref previous IH]; cbn [rebindEpisodeRefs fmap list_fmap];
    [split; [set_solver|done]|].
  rewrite (is_ok_seq _ _ (is_ok (rebindEpisodeRefs previous refs satisfied) && true))
    by (intros; by apply is_ok_seq).
  rewrite !andb_true_iff, IH, rebindEpisodeRef_known. setoid_rewrite elem_of_cons. naive_solver.
Qed.
Definition edge_paths (edge : EpisodeDependencyEdge) : list string :=
  [ref_TaskPath (ee_BlockedTaskRef edge); ref_TaskPath (ee_DependencyTaskRef edge)].
Lemma rebindEpisodeEdges_known edges :
  is_ok (rebindEpisodeEdges edges refs satisfied) = true ↔ ∀ p, p ∈ mjoin (edge_paths <$> edges) → known p.
Proof.
  induction edges as [|edge edges IH]; cbn [rebindEpisodeEdges]; [split; [set_solver|done]|].
  rewrite (is_ok_seq _ _ (is_ok (rebindEpisodeRef (ee_DependencyTaskRef edge) refs satisfied) &&
    (is_ok (rebindEpisodeEdges edges refs satisfied) && true)))
    by (intros; apply is_ok_seq; intros; by apply is_ok_seq).
  rewrite !andb_true_iff, IH, !rebindEpisodeRef_known. simpl.
  setoid_rewrite elem_of_cons. setoid_rewrite elem_of_cons. naive_solver.
Qed.

Lemma rebindEpisodeRefs_carried previous result :
  rebindEpisodeRefs previous refs satisfied = Ok result → Forall2 carried previous result.
Proof.
  revert result. induction previous as [|ref previous IH]; simpl; intros result E; result_inv E; [done|].
  constructor; [by apply rebindEpisodeRef_carried|by apply IH].
Qed.
Lemma rebindEpisodeEdges_carried edges result :
  rebindEpisodeEdges edges refs satisfied = Ok result →
  edge_paths <$> result = edge_paths <$> edges.
Proof.
  revert result. induction edges as [|edge edges IH]; simpl; intros result E; result_inv E; [done|].
  simpl. f_equal; [|by apply IH]. unfold edge_paths. simpl.
  repeat match goal with H : rebindEpisodeRef _ _ _ = Ok _ |- _ =>
    apply rebindEpisodeRef_carried in H as [-> _] end. done.
Qed.
Lemma carried_paths previous result :
  Forall2 carried previous result → ref_TaskPath <$> result = ref_TaskPath <$> previous.
Proof. induction 1 as [|x y l k [Hp _] _ IH]; [done|]. by rewrite !fmap_cons, Hp, IH. Qed.
Lemma carried_authority revision previous result :
  ev_SatisfiedTaskRefs revision = satisfied →
  Forall2 carried previous result → validateClosureAuthority revision refs result = Ok ().
Proof.
  intros Hsat H. induction H as [|x y l k [_ Hy] _ IH]; simpl; [done|].
  destruct (taskPathSatisfied _ _) eqn:Hs; [done|]. apply taskPathSatisfied_false in Hs.
  rewrite Hsat in Hs.
  destruct Hy as [|Hy]; [done|]. by rewrite Hy, Equal_refl.
Qed.
End Rebind.

Lemma projectRefsByPath_lookup project p r :
  projectRefsByPath project !! p = Some r → ref_TaskPath r = p.
Proof.
  unfold projectRefsByPath. intros H.
  apply (fill_lookup ref_TaskPath (λ x, x)) in H as [H|(a & _ & <- & <-)]; [|done].
  by rewrite lookup_empty in H.
Qed.
Lemma projectRefsByPath_known project p :
  is_Some (projectRefsByPath project !! p) ↔ p ∈ ref_TaskPath <$> ps_Tasks project.
Proof.
  unfold projectRefsByPath. split.
  - intros [r H]. apply (fill_lookup ref_TaskPath (λ x, x)) in H as [H|(a & Ha & <- & <-)].
    + by rewrite lookup_empty in H.
    + by apply list_elem_of_fmap_2.
  - intros H. apply (fill_is_Some ref_TaskPath (λ x, x)). by left.
Qed.

(** The open tasks of an episode, counted. *)
Definition open_count (revision : BlockerEpisodeRevision) : nat :=
  length (filter (λ p, p ∉ satisfied_paths revision) (ref_TaskPath <$> ev_AdmittedClosure revision)).
(** Every path a revision mentions. *)
Definition mentioned (revision : BlockerEpisodeRevision) : list string :=
  ref_TaskPath (ev_ScopeRootTaskRef revision) ::
  mjoin (edge_paths <$> ev_DependencyEdges revision) ++
  (ref_TaskPath <$> ev_AdmittedClosure revision) ++ (ref_TaskPath <$> ev_AdmittedOrder revision).
(** What is done once [task] is. *)
Definition done_after (revision : BlockerEpisodeRevision) (task : SemanticTaskRef) (p : string) : Prop :=
  p ∈ satisfied_paths revision ∨ ref_Empty task = false ∧ p = ref_TaskPath task.

Lemma filter_length_shrinks {A} (P Q : A → Prop) `{∀ x, Decision (P x), ∀ x, Decision (Q x)} l x :
  (∀ y, Q y → P y) → x ∈ l → P x → ¬ Q x → length (filter Q l) < length (filter P l).
Proof.
  intros HQP Hx HP HQ.
  assert (∀ k, length (filter Q k) ≤ length (filter P k)) as Hle.
  { induction k as [|y k IH]; [done|]. rewrite !filter_cons.
    repeat case_decide; simpl; try lia. naive_solver. }
  apply list_elem_of_split in Hx as (a & b & ->). rewrite !filter_app, !length_app, !filter_cons.
  rewrite decide_False, decide_True by done. simpl. pose proof (Hle a). pose proof (Hle b). lia.
Qed.

Section Progression.
Context `{Host}.
Context (previous : BlockerEpisodeRevision) (root : SemanticTaskRef) (generation : N).
Context (project : ProjectSnapshot) (task : SemanticTaskRef) (now : Time).
Notation progressed := (progressedEpisodeRevision previous root generation project task now).

Lemma progressed_satisfied :
  let satisfied := if negb (ref_Empty task) then appendTaskPathUnique (ev_SatisfiedTaskRefs previous) task
                   else ev_SatisfiedTaskRefs previous in
  ∀ p, p ∈ ref_TaskPath <$> satisfied ↔ done_after previous task p.
Proof.
  cbv zeta. intros p. unfold done_after, satisfied_paths. destruct (ref_Empty task); simpl; [naive_solver|].
  unfold appendTaskPathUnique. destruct (taskPathSatisfied _ _) eqn:Hs.
  - apply taskPathSatisfied_true in Hs. naive_solver.
  - rewrite fmap_app, elem_of_app. cbn. rewrite list_elem_of_singleton. naive_solver.
Qed.

Lemma progressed_known :
  is_ok progressed = true ↔
  ∀ p, p ∈ mentioned previous → p ∈ ref_TaskPath <$> ps_Tasks project ∨ done_after previous task p.
Proof.
  unfold progressedEpisodeRevision. pose proof progressed_satisfied as Hs.
  set (satisfied := if negb _ then _ else _) in *. cbv zeta in Hs.
  rewrite (is_ok_seq _ _ true) by done. unfold rebindProgressedEpisode.
  set (refs := projectRefsByPath project).
  rewrite (is_ok_seq _ _ (is_ok (rebindEpisodeEdges (ev_DependencyEdges previous) refs satisfied) &&
    (is_ok (rebindEpisodeRefs (ev_AdmittedClosure previous) refs satisfied) &&
     (is_ok (rebindEpisodeRefs (ev_AdmittedOrder previous) refs satisfied) && true))))
    by (intros; apply is_ok_seq; intros; apply is_ok_seq; intros; by apply is_ok_seq).
  rewrite !andb_true_iff, rebindEpisodeRef_known, rebindEpisodeEdges_known, !rebindEpisodeRefs_known.
  unfold mentioned. setoid_rewrite elem_of_cons. setoid_rewrite elem_of_app. setoid_rewrite elem_of_app.
  assert (∀ p, known refs satisfied p ↔ p ∈ ref_TaskPath <$> ps_Tasks project ∨ done_after previous task p)
    as Hk by (intros p; unfold known, refs; by rewrite projectRefsByPath_known, Hs).
  setoid_rewrite Hk. naive_solver.
  all: intros; by eapply projectRefsByPath_lookup.
Qed.

Lemma progressed_fields next :
  progressed = Ok next →
  ev_PreviousRevisionID next = ev_RevisionID previous ∧
  ev_Revision next = u64 (ev_Revision previous + 1) ∧
  ev_ProjectSnapshotID next = ps_SnapshotID project ∧
  (∀ p, p ∈ satisfied_paths next ↔ done_after previous task p) ∧
  mentioned next = mentioned previous ∧
  ref_TaskPath <$> ev_AdmittedClosure next = ref_TaskPath <$> ev_AdmittedClosure previous ∧
  validateClosureAuthority next (projectRefsByPath project) (ev_AdmittedClosure next) = Ok () ∧
  (ev_State next = EpisodeStateResumingRoot ↔
   done_after previous task (ref_TaskPath (ev_ScopeRootTaskRef previous))).
Proof.
  unfold progressedEpisodeRevision, rebindProgressedEpisode. intros E.
  pose proof progressed_satisfied as Hs. set (satisfied := if negb _ then _ else _) in *. cbv zeta in Hs.
  result_inv E. simpl.
  pose proof (projectRefsByPath_lookup project) as Hkey.
  lazymatch goal with E1 : rebindEpisodeRef _ _ _ = Ok _, E2 : rebindEpisodeEdges _ _ _ = Ok _,
    E3 : rebindEpisodeRefs (ev_AdmittedClosure _) _ _ = Ok _,
    E4 : rebindEpisodeRefs (ev_AdmittedOrder _) _ _ = Ok _ |- _ =>
    apply (rebindEpisodeRef_carried _ _ Hkey) in E1 as [P1 _];
    pose proof (rebindEpisodeEdges_carried _ _ Hkey _ _ E2) as P2;
    apply (rebindEpisodeRefs_carried _ _ Hkey) in E3;
    apply (rebindEpisodeRefs_carried _ _ Hkey) in E4;
    pose proof (carried_paths _ _ _ _ E3) as P3; pose proof (carried_paths _ _ _ _ E4) as P4 end.
  split_and!; try done.
  - unfold mentioned. simpl. by rewrite P1, P2, P3, P4.
  - by eapply carried_authority.
  - rewrite <- Hs, <- P1, <- taskPathSatisfied_true. by destruct (taskPathSatisfied _ _).
Qed.

(** C27: a satisfied task moves its episode forward exactly when every path the
    episode mentions is either still a task of the result project or done.  The
    next revision mentions the same paths, is admitted by the scheduler's
    authority check against that project, has exactly the open tasks of the
    previous one without the satisfied task, and resumes the root exactly when the
    scope root is done; satisfying an open task strictly decreases the number of
    open tasks, so an episode is over after finitely many of them. *)
Theorem progressedEpisodeRevision_advances :
  (is_ok progressed = true ↔
   ∀ p, p ∈ mentioned previous → p ∈ ref_TaskPath <$> ps_Tasks project ∨ done_after previous task p) ∧
  ∀ next deps, progressed = Ok next →
    mentioned next = mentioned previous ∧
    validateEpisodeScheduleAuthority next
      {| ea_project := project; ea_refs := projectRefsByPath project; ea_dependencies := deps |} = Ok () ∧
    (∀ p, open_path next p ↔
       open_path previous p ∧ ¬ (ref_Empty task = false ∧ p = ref_TaskPath task)) ∧
    (ev_State next = EpisodeStateResumingRoot ↔
     done_after previous task (ref_TaskPath (ev_ScopeRootTaskRef previous))) ∧
    (ref_Empty task = false → open_path previous (ref_TaskPath task) →
     open_count next < open_count previous).
Proof.
  split; [apply progressed_known|]. intros next deps (_ & _ & Hid & Hs & Hm & Hc & Hv & Hst)%progressed_fields.
  split; [done|]. split; [|split; [|split; [done|]]].
  - unfold validateEpisodeScheduleAuthority. simpl. by rewrite bool_decide_false by tauto.
  - intros p. unfold open_path. rewrite Hc, Hs. unfold done_after. tauto.
  - intros Ht [Hin Hopen]. unfold open_count. rewrite Hc.
    eapply filter_length_shrinks; [|exact Hin|exact Hopen|]; [intros p|]; cbn; rewrite Hs;
      unfold done_after; tauto.
Qed.
End Progression.

(** ** A concrete episode: work on [b] is blocked by a finding about [a] *)
Definition demo_task_ref (path content : string) : SemanticTaskRef :=
  {| ref_TaskPath := path; ref_RequestID := ""; ref_ContractDigest := content |}.
Definition demo_target : SemanticTaskRef :=
  demo_task_ref "IMPLEMENTATION_TASKS/a.md" "## Dependencies
none
".
Definition demo_source : SemanticTaskRef :=
  demo_task_ref "IMPLEMENTATION_TASKS/b.md" "## Dependencies
- `IMPLEMENTATION_TASKS/a.md`
".
Definition demo_finding : FindingRecord := {|
  fr_SchemaVersion := 1; fr_FindingID := "f"; fr_RepositoryIdentity := "repo";
  fr_ProjectSnapshotID := "s"; fr_SourceAttemptID := "att"; fr_SourceSemanticTaskRef := demo_source;
  fr_SourceWorkspaceSnapshotID := "s1"; fr_SourceControllerGeneration := 1; fr_Producer := "p";
  fr_ProofClass := FindingProofUnverified; fr_Evidence := []; fr_ProblemKey := "k";
  fr_CanonicalFindingID := "f"; fr_ObservedAt := 0 |}.
Definition demo_range (m : gmap string (list string)) : list string := elements (dom m).
Definition demo_plan_revision : result error BlockerEpisodeRevision * Disk :=
  planBlockingRevision (H:=demo_git) (H0:=demo_committed_host) demo_identity demo_range demo_finding
    demo_target demo_source demo_head demo_lease demo_project None demo_disk.

Lemma planBlockingRevision_runnable_witness :
  match demo_plan_revision with
  | (Ok revision, _) =>
      first_unsatisfied revision = hd_error (ev_AdmittedOrder revision) ∧
      ev_AdmittedOrder revision ≠ []
  | (Err _, _) => False
  end.
Proof.
  assert (is_ok demo_plan_revision.1 = true) as Hok by (vm_compute; reflexivity).
  destruct demo_plan_revision as [[revision|e] d'] eqn:E; [|discriminate Hok].
  exact (proj2 (planBlockingRevision_runnable (H:=demo_git) (H0:=demo_committed_host) demo_identity
    demo_range demo_finding demo_target demo_source demo_head demo_lease demo_project None demo_disk
    revision d' E (λ p refs deps F, ltac:(discriminate F))) eq_refl).
Defined.

(** The scheduler and the progression on the episode just planned: [a] is open
    and first, and once it is done [b]'s episode resumes its root. *)
Definition demo_project_tasks : ProjectSnapshot :=
  demo_project {{ ps_Tasks := [demo_target; demo_source] }}.

Lemma progressedEpisodeRevision_advances_witness :
  match demo_plan_revision with
  | (Ok revision, _) =>
      match progressedEpisodeRevision (H0:=demo_committed_host) revision demo_source 2
              demo_project_tasks demo_target 1 with
      | Ok next => ev_State next = EpisodeStateResumingRoot ∧ open_count next < open_count revision
      | Err _ => False
      end
  | (Err _, _) => False
  end.
Proof.
  assert (match demo_plan_revision with
    | (Ok revision, _) =>
        is_ok (progressedEpisodeRevision (H0:=demo_committed_host) revision demo_source 2
          demo_project_tasks demo_target 1) &&
        bool_decide (ref_TaskPath demo_target ∈ ref_TaskPath <$> ev_AdmittedClosure revision) &&
        bool_decide (ref_TaskPath demo_target ∉ satisfied_paths revision) &&
        bool_decide (ref_TaskPath (ev_ScopeRootTaskRef revision) = ref_TaskPath demo_target)
    | (Err _, _) => false end = true) as Hok by (vm_compute; reflexivity).
  destruct demo_plan_revision as [[revision|e] d']; [|discriminate Hok].
  rewrite !andb_true_iff, !bool_decide_eq_true in Hok. destruct Hok as [[[Hok Hc] Hs] Hr].
  destruct (progressedEpisodeRevision _ _ _ _ _ _) as [next|e] eqn:E; [|discriminate Hok].
  destruct (proj2 (progressedEpisodeRevision_advances (H:=demo_committed_host) revision demo_source 2
    demo_project_tasks demo_target 1) next ∅ E) as (_ & _ & _ & Hst & Hlt).
  split; [|by apply Hlt]. apply Hst. right. by split.
Defined.

(** The project's schedule admits [a]: it is handed out, and it may run. *)
Definition demo_schedule_authority : episodeScheduleAuthority := {|
  ea_project := demo_project_tasks {{ ps_Next := ["IMPLEMENTATION_TASKS/a.md"] }};
  ea_refs := projectRefsByPath demo_project_tasks;
  ea_dependencies := {["IMPLEMENTATION_TASKS/b.md" := ["IMPLEMENTATION_TASKS/a.md"]]} |}.

Lemma scheduleEpisodeWithAuthority_spec_witness :
  match demo_plan_revision with
  | (Ok revision, _) =>
      es_NextTaskRef (scheduleEpisodeWithAuthority revision demo_schedule_authority) = Some demo_target ∧
      ∃ path, runnable revision demo_schedule_authority path demo_target
  | (Err _, _) => False
  end.
Proof.
  assert (match demo_plan_revision with
    | (Ok revision, _) =>
        bool_decide (es_NextTaskRef (scheduleEpisodeWithAuthority revision demo_schedule_authority) =
          Some demo_target) &&
        bool_decide (ref_TaskPath (ev_ScopeRootTaskRef revision) ∉ satisfied_paths revision)
    | (Err _, _) => false end = true) as Hok by (vm_compute; reflexivity).
  destruct demo_plan_revision as [[revision|e] d']; [|discriminate Hok].
  rewrite andb_true_iff, !bool_decide_eq_true in Hok. destruct Hok as [Hn Hr].
  split; [exact Hn|].
  destruct (proj2 (scheduleEpisodeWithAuthority_spec revision demo_schedule_authority) Hr)
    as (_ & _ & Hall). destruct (Hall demo_target Hn) as (path & Hp & _). by exists path.
Defined.
