(* ===== verification/FindingResolution.v ===== *)
(** * Resolving a finding

    Models [ResolveFinding] and the decisions it dispatches to in
    [internal/controller/finding.go], and [ResolveFindingWithProjectAuthority]
    of [episode_scheduler_api.go], which re-schedules the blocker episode a
    decision opened.  The main results: the first committed disposition of a
    finding is the one every later call answers with, and a decision is only
    carried out for a source that is live or terminally proven. *)
From S2P Require Import Prelude GoStrings ControllerTypes ControllerStore CommittedProject.
From S2P Require Import MutationControl Findings Episode EpisodeControl.

Definition unresolvedFindingResult (finding : FindingRecord) (reason : string)
    : FindingDispositionResult :=
  finding_result finding None FindingIntentAwaitingDisposition reason None None.

Definition committed_intent (disposition : FindingDisposition) : FindingIntentKind :=
  if bool_decide (fp_Kind disposition = FindingDispositionSameTask)
  then FindingIntentSameTaskCorrection
  else if bool_decide (fp_Kind disposition = FindingDispositionIndependentNonBlocking)
  then FindingIntentRegisterNonBlocking
  else if bool_decide (fp_Kind disposition = FindingDispositionIndependentBlocking)
  then if bool_decide (fp_BlockingBoundary disposition ≠ "")
       then FindingIntentOpenBlockerEpisode else FindingIntentNoAction
  else if bool_decide (fp_Kind disposition = FindingDispositionDuplicate)
  then FindingIntentDuplicate
  else FindingIntentNoAction.
Definition resultForCommittedFinding (finding : FindingRecord) (disposition : FindingDisposition)
    : FindingDispositionResult :=
  finding_result finding (Some disposition) (committed_intent disposition) "" None None.

Section FindingResolution.
Context `{Git, Host} (identity : RepositoryIdentity).
(** Checks of other files of the package that only read: the finality checks of
    [terminal_evidence.go] and the revision chain of [finding_source_continuity.go]. *)
Context (ensureTerminalMetadataFinalized : RepositoryControllerHead → io unit).
Context (terminalAttemptProven : AttemptRecord → io bool).
Context (findingSourceContinuedToCurrentAuthority :
  FindingRecord → AttemptRecord → RepositoryControllerHead → io bool).
(** The order in which Go visits a map's keys. *)
Context (range : Deps → list string).
Notation LoadHead := (LoadHead identity).

Definition findingSourceLiveAuthority (finding : FindingRecord) (attemptRecord : AttemptRecord)
    (head : RepositoryControllerHead) : io (bool * bool) :=
  match hd_ExecutionTaskRef head with
  | Some task =>
      if negb (bool_decide (at_AttemptState attemptRecord = AttemptStateLive) &&
               bool_decide (hd_LiveAttemptID head = fr_SourceAttemptID finding))
      then mret (false, false)
      else if Equal task (fr_SourceSemanticTaskRef finding) &&
              bool_decide (hd_ControllerGeneration head = fr_SourceControllerGeneration finding)
      then mret (true, true)
      else
        continued ← findingSourceContinuedToCurrentAuthority finding attemptRecord head;
        if continued : bool then mret (true, false)
        else mret (Equal task (fr_SourceSemanticTaskRef finding), true)
  | None => mret (false, false)
  end.

Definition findingResolutionAuthority (finding : FindingRecord)
    : io (RepositoryControllerHead * bool * bool) :=
  head ← LoadHead;
  sourceAttempt ← loadAttempt (fr_SourceAttemptID finding);
  '(sourceLive, sourceExact) ← findingSourceLiveAuthority finding sourceAttempt head;
  sourceTerminal ← terminalAttemptProven sourceAttempt;
  refuse! negb sourceLive && negb sourceTerminal
    with err "finding source attempt is neither current live execution nor accepted terminal history";
  refuse! sourceExact &&
          bool_decide (hd_ControllerGeneration head ≠ fr_SourceControllerGeneration finding)
    with err "finding source controller generation is stale";
  mret (head, sourceLive, sourceTerminal).

(** ** The decisions *)
Definition resolveNonActionableFinding (finding : FindingRecord) (head : RepositoryControllerHead)
    : io FindingDispositionResult :=
  disposition ← commitFindingDisposition finding (hd_ControllerGeneration head)
    (empty_disposition {{ fp_Kind := FindingDispositionNonActionable }});
  mret (finding_result finding (Some disposition) FindingIntentNoAction "" None None).

Definition resolveSameTaskFinding (finding : FindingRecord) (head : RepositoryControllerHead)
    (sourceLive : bool) : io FindingDispositionResult :=
  if negb sourceLive
  then mret (unresolvedFindingResult finding "same-task correction requires the exact live source attempt")
  else if bool_decide (fr_ProofClass finding ≠ FindingProofAttemptMutation)
  then mret (unresolvedFindingResult finding "same-task proof is insufficient")
  else
    disposition ← commitFindingDisposition finding (hd_ControllerGeneration head)
      (empty_disposition {{
        fp_Kind := FindingDispositionSameTask;
        fp_TargetTaskRef := Some (fr_SourceSemanticTaskRef finding) }});
    mret (finding_result finding (Some disposition) FindingIntentSameTaskCorrection "" None None).

Definition independentFindingTarget (finding : FindingRecord) (head : RepositoryControllerHead)
    (decision : FindingDecision) (blocking sourceLive sourceTerminal : bool) : io SemanticTaskRef :=
  match fd_TargetTaskRef decision with
  | None => fail (err "independent finding requires an exact semantic target task")
  | Some target =>
      refuse! ref_Empty target
        with err "independent finding requires an exact semantic target task";
      refuse! Equal target (fr_SourceSemanticTaskRef finding)
        with err "independent finding target must differ from source execution task";
      refuse! blocking && (negb sourceLive || bool_decide (fd_BlockingBoundary decision = ""))
        with err "blocking finding requires the live source attempt and an exact blocked boundary";
      let projectID :=
        if sourceTerminal && bool_decide (hd_ProjectSnapshotID head = "")
        then fr_ProjectSnapshotID finding else hd_ProjectSnapshotID head in
      project ← LoadProjectSnapshot identity projectID;
      refuse! negb (projectHasTask project target)
        with err "independent finding target is not in current project authority";
      mret target
  end.

Definition resolveNonBlockingFinding (finding : FindingRecord) (head : RepositoryControllerHead)
    (target : SemanticTaskRef) : io FindingDispositionResult :=
  binding ← bindFindingTarget finding target;
  refuse! match pb_TargetTaskRef binding with Some t => negb (Equal t target) | None => true end
    with err "finding problem is already bound to a different semantic target";
  disposition ← commitFindingDisposition finding (hd_ControllerGeneration head)
    (empty_disposition {{
      fp_Kind := FindingDispositionIndependentNonBlocking;
      fp_TargetTaskRef := pb_TargetTaskRef binding }});
  mret (finding_result finding (Some disposition) FindingIntentRegisterNonBlocking "" None None).

Definition resolveIndependentFinding (finding : FindingRecord) (head : RepositoryControllerHead)
    (decision : FindingDecision) (blocking sourceLive sourceTerminal : bool)
    : io FindingDispositionResult :=
  target ← independentFindingTarget finding head decision blocking sourceLive sourceTerminal;
  if blocking
  then resolveBlockingFinding identity range finding head decision target
  else resolveNonBlockingFinding finding head target.

Definition resolveDuplicateFinding (finding : FindingRecord) (head : RepositoryControllerHead)
    : io FindingDispositionResult :=
  if bool_decide (fr_CanonicalFindingID finding = fr_FindingID finding)
  then mret (unresolvedFindingResult finding
               "finding is already the canonical observation for its problem identity")
  else
    binding ← loadProblemBinding (fr_ProblemKey finding);
    committed ← commitFindingDisposition finding (hd_ControllerGeneration head)
      (empty_disposition {{
        fp_Kind := FindingDispositionDuplicate;
        fp_CanonicalFindingID := pb_CanonicalFindingID binding;
        fp_TargetTaskRef := pb_TargetTaskRef binding }});
    mret (finding_result finding (Some committed) FindingIntentDuplicate "" None None).

Definition resolveFindingDecision (finding : FindingRecord) (head : RepositoryControllerHead)
    (decision : FindingDecision) (sourceLive sourceTerminal : bool) : io FindingDispositionResult :=
  if bool_decide (fd_Kind decision = FindingDecisionSameTask)
  then resolveSameTaskFinding finding head sourceLive
  else if bool_decide (fd_Kind decision = FindingDecisionIndependentNonBlocking)
  then resolveIndependentFinding finding head decision false sourceLive sourceTerminal
  else if bool_decide (fd_Kind decision = FindingDecisionIndependentBlocking)
  then
    if sourceTerminal
    then mret (unresolvedFindingResult finding
                 "accepted terminal work cannot be reopened as blocker interruption")
    else resolveIndependentFinding finding head decision true sourceLive false
  else if bool_decide (fd_Kind decision = FindingDecisionDuplicate)
  then resolveDuplicateFinding finding head
  else if bool_decide (fd_Kind decision = FindingDecisionNonActionable)
  then resolveNonActionableFinding finding head
  else fail (Errorf "unsupported finding decision %s" [AStr (fd_Kind decision)]).

Definition ResolveFinding (findingID : string) (decision : FindingDecision)
    : io FindingDispositionResult :=
  under_lock (
    finding ← LoadFinding identity findingID;
    existing ← attempt (LoadFindingDisposition findingID);
    match existing with
    | Ok existing => mret (resultForCommittedFinding finding existing)
    | Err e =>
        refuse! negb (IsNotExist e) with e;
        if bool_decide (fd_Kind decision = FindingDecisionAmbiguous)
        then mret (unresolvedFindingResult finding "semantic disposition remains unresolved")
        else
          '(head, sourceLive, sourceTerminal) ← findingResolutionAuthority finding;
          resolveFindingDecision finding head decision sourceLive sourceTerminal
    end).

(** ** Re-scheduling against the committed project ([episode_scheduler_api.go]) *)
Definition restoreCommittedBlockingEpisode (result : FindingDispositionResult)
    : io FindingDispositionResult :=
  match fs_Episode result, fs_Disposition result with
  | None, Some disposition =>
      if bool_decide (fp_Kind disposition ≠ FindingDispositionIndependentBlocking) then mret result
      else if bool_decide (fp_EpisodeID disposition = "") ||
              bool_decide (fp_EpisodeRevision disposition = 0%N) then mret result
      else
        revision ← LoadEpisodeRevision (fp_EpisodeID disposition) (fp_EpisodeRevision disposition);
        mret (result {{
          fs_Episode := Some revision;
          fs_Intent := if bool_decide (1 < ev_Revision revision)%N
                       then FindingIntentReplanBlockerEpisode
                       else FindingIntentOpenBlockerEpisode }})
  | _, _ => mret result
  end.

Definition ResolveFindingWithProjectAuthority (findingID : string) (decision : FindingDecision)
    : io FindingDispositionResult :=
  result ← ResolveFinding findingID decision;
  result ← restoreCommittedBlockingEpisode result;
  match fs_Episode result with
  | None => mret result
  | Some episode =>
      schedule ← scheduleEpisodeAgainstProject identity ensureTerminalMetadataFinalized episode;
      mret (result {{
        fs_NextTaskRef := es_NextTaskRef schedule;
        fs_Reason := es_Reason schedule;
        fs_Intent := if bool_decide (es_Intent schedule = FindingIntentNoRunnable)
                     then FindingIntentNoRunnable else fs_Intent result }})
  end.
End FindingResolution.

(** ** What a resolution leaves on disk

    Nothing but the observation of findings writes below [findings]. *)
Definition keeps_findings (d d' : Disk) : Prop :=
  unreadable d' = unreadable d ∧ unwritable d' = unwritable d ∧
  ∀ id, files d' !! findingPath id = files d !! findingPath id.
#[export] Instance keeps_findings_preorder : PreOrder keeps_findings.
Proof.
  split; [done|]. intros x y z (H1 & H2 & H3) (H4 & H5 & H6). split_and!; [congruence..|].
  intros id. by rewrite H6, H3.
Qed.

Lemma write_keeps {A} `{Document A} p (x : A) :
  (∀ id, findingPath id ≠ p) → Preserves keeps_findings (writeJSONAtomic p x).
Proof.
  intros Hp d. destruct (writeJSONAtomic_run p x d) as [[e ->]| ->]; [done|].
  split_and!; [done..|]. intros id. simpl. by rewrite lookup_insert_ne.
Qed.
#[export] Instance Now_keeps : Preserves keeps_findings Now.
Proof. by intros d. Qed.
#[export] Instance MkdirAll_keeps p : Preserves keeps_findings (MkdirAll p).
Proof. intros d. unfold MkdirAll. by destruct (_ || _). Qed.
#[export] Instance makeStoreDirs_keeps names : Preserves keeps_findings (makeStoreDirs names).
Proof. induction names; simpl; preserving. Qed.

Section Frame.
Context `{Git, Host} (identity : RepositoryIdentity) (range : Deps → list string).

#[export] Instance LoadEpisodeRevision_reads R `{!PreOrder R} e n : Preserves R (LoadEpisodeRevision e n).
Proof. unfold LoadEpisodeRevision. preserving. Qed.
#[export] Instance loadEpisodeRecord_reads R `{!PreOrder R} e : Preserves R (loadEpisodeRecord identity e).
Proof. unfold loadEpisodeRecord. preserving. Qed.
#[export] Instance LoadFindingDisposition_reads R `{!PreOrder R} id :
  Preserves R (LoadFindingDisposition id).
Proof. unfold LoadFindingDisposition. preserving. Qed.
#[export] Instance bindFindingTarget_keeps finding target :
  Preserves keeps_findings (bindFindingTarget finding target).
Proof. unfold bindFindingTarget. preserving. by apply write_keeps. Qed.
#[export] Instance blockingFindingContext_reads R `{!PreOrder R} finding head target :
  Preserves R (blockingFindingContext identity finding head target).
Proof. unfold blockingFindingContext, currentEpisodeRevision. preserving. Qed.
#[export] Instance planBlockingRevision_keeps finding target root head lease project previous :
  Preserves keeps_findings
    (planBlockingRevision identity range finding target root head lease project previous).
Proof. unfold planBlockingRevision, newBlockingRevision, lift_loading. preserving. Qed.
#[export] Instance persistBlockingRevision_keeps finding target revision previous :
  Preserves keeps_findings (persistBlockingRevision identity finding target revision previous).
Proof.
  unfold persistBlockingRevision, writeEpisodeRevision, writeEpisodeRecord, ensureFindingStore.
  preserving; by apply write_keeps.
Qed.
End Frame.

Section Committed.
Context `{Git, Host} (identity : RepositoryIdentity) (range : Deps → list string).

(** The disposition stands on disk for the finding, under its own digest. *)
Definition committed (finding : FindingRecord) (disposition : FindingDisposition) (d : Disk) : Prop :=
  files d !! findingDispositionPath (fr_FindingID finding) = Some (DocDisposition disposition) ∧
  fp_SchemaVersion disposition = controllerSchemaVersion ∧
  fp_FindingID disposition = fr_FindingID finding ∧
  fp_DispositionID disposition = findingDispositionID disposition.

Lemma commitFindingDisposition_Ok finding generation disposition d disposition' d' :
  commitFindingDisposition finding generation disposition d = (Ok disposition', d') →
  committed finding disposition' d' ∧ keeps_findings d d'.
Proof.
  unfold commitFindingDisposition. intros E. io_inv E.
  lazymatch goal with W : writeJSONAtomic _ _ _ = (Ok _, _), N : Now _ = (Ok _, ?e) |- _ =>
    apply writeJSONAtomic_Ok in W as (_ & _ & _ & ->); unfold Now in N; injection N as <- <- end.
  split.
  - unfold committed. simpl. rewrite lookup_insert_eq. by case_bool_decide.
  - split_and!; [done..|]. intros id. simpl. by rewrite lookup_insert_ne.
Qed.

Lemma committed_loads finding disposition d d' :
  committed finding disposition d →
  files d' !! findingDispositionPath (fr_FindingID finding) =
    files d !! findingDispositionPath (fr_FindingID finding) →
  findingDispositionPath (fr_FindingID finding) ∉ unreadable d' →
  LoadFindingDisposition (fr_FindingID finding) d' = (Ok disposition, d').
Proof.
  intros (Hf & H1 & H2 & H3) Hs Hr. unfold LoadFindingDisposition.
  rewrite Hf in Hs. erewrite io_bind_step by (apply readJSON_Ok; eauto). cbn beta.
  rewrite <- H3. by rewrite !bool_decide_false by tauto.
Qed.

Lemma LoadFindingDisposition_Ok id d disposition d' :
  LoadFindingDisposition id d = (Ok disposition, d') →
  findingDispositionPath id ∉ unreadable d ∧
  files d !! findingDispositionPath id = Some (DocDisposition disposition) ∧
  fp_SchemaVersion disposition = controllerSchemaVersion ∧ fp_FindingID disposition = id ∧
  fp_DispositionID disposition = findingDispositionID disposition ∧ d' = d.
Proof.
  unfold LoadFindingDisposition. intros E. io_inv E. bool_simp.
  lazymatch goal with R : readJSON _ _ = _ |- _ => apply readJSON_Ok in R as (? & ? & ->) end. done.
Qed.
Lemma LoadFindingDisposition_absent id d e d' :
  LoadFindingDisposition id d = (Err e, d') → IsNotExist e = true →
  findingDispositionPath id ∉ unreadable d ∧ d' = d.
Proof.
  unfold LoadFindingDisposition, readJSON, mbind, io_bind. case_bool_decide as Hu; simpl.
  { by intros [= <- <-]. }
  destruct (files d !! _) as [doc|]; simpl.
  - destruct (match doc with DocDisposition x => Some x | _ => None end); simpl; [|by intros [= <- <-]].
    destruct (_ || _); simpl; by intros [= <- <-].
  - intros [= <- <-]. by split.
Qed.
End Committed.

(** ** Every decision commits what it answers

    [resolves finding m]: a successful [m] answers about [finding], and a
    disposition in its answer stands on disk. *)
Definition answers `{Host} (finding : FindingRecord) (result : FindingDispositionResult) (d : Disk) : Prop :=
  fs_Finding result = finding ∧
  ∀ disposition, fs_Disposition result = Some disposition → committed finding disposition d.
Definition resolves `{Host} (finding : FindingRecord) (m : io FindingDispositionResult) : Prop :=
  ∀ d result d', m d = (Ok result, d') → answers finding result d' ∧ keeps_findings d d'.

Section Resolves.
Context `{Git, Host} (identity : RepositoryIdentity) (range : Deps → list string).
Context (finding : FindingRecord).

Lemma resolves_bind {A} (m : io A) k :
  Preserves keeps_findings m → (∀ a, resolves finding (k a)) → resolves finding (m ≫= k).
Proof.
  intros Hm Hk d result d' (a & d1 & E1 & E2)%io_bind_Ok. apply Hk in E2 as [? ?].
  split; [done|]. specialize (Hm d). rewrite E1 in Hm. by etrans.
Qed.
Lemma resolves_fail e : resolves finding (fail e).
Proof. by intros d result d'. Qed.
Lemma resolves_unresolved reason : resolves finding (mret (unresolvedFindingResult finding reason)).
Proof. intros d result d' [= <- <-]. by split. Qed.
Lemma resolves_commit generation disposition (k : FindingDisposition → FindingDispositionResult) :
  (∀ x, fs_Finding (k x) = finding ∧ fs_Disposition (k x) = Some x) →
  resolves finding (x ← commitFindingDisposition finding generation disposition; mret (k x)).
Proof.
  intros Hk d result d' (x & d1 & E1 & E2)%io_bind_Ok. injection E2 as <- <-.
  destruct (Hk x) as [H1 H2]. apply commitFindingDisposition_Ok in E1 as [? ?].
  split; [|done]. split; [done|]. rewrite H2. by intros y [= <-].
Qed.

Ltac resolving :=
  repeat lazymatch goal with
  | |- ∀ _, _ => intro
  | |- resolves _ (fail _) => apply resolves_fail
  | |- resolves _ (mret (unresolvedFindingResult _ _)) => apply resolves_unresolved
  | |- resolves _ (commitFindingDisposition _ _ _ ≫= _) => by apply resolves_commit
  | |- resolves _ (_ ≫= _) => apply resolves_bind; [by preserving|]
  | |- resolves _ (match ?x with _ => _ end) => destruct x
  | |- resolves _ (let _ := _ in _) => cbv zeta
  end.

Lemma independentFindingTarget_keeps head decision b l t :
  Preserves keeps_findings (independentFindingTarget identity finding head decision b l t).
Proof. unfold independentFindingTarget. preserving. Qed.
#[local] Existing Instance independentFindingTarget_keeps.

Lemma resolveFindingDecision_resolves head decision sourceLive sourceTerminal :
  resolves finding
    (resolveFindingDecision identity range finding head decision sourceLive sourceTerminal).
Proof.
  unfold resolveFindingDecision, resolveSameTaskFinding, resolveIndependentFinding,
    resolveBlockingFinding, resolveNonBlockingFinding, resolveDuplicateFinding,
    resolveNonActionableFinding.
  resolving.
Qed.
End Resolves.

(** ** The first disposition is final *)
Section FirstWins.
Context `{Git, Host} (identity : RepositoryIdentity).
Context (terminalAttemptProven : AttemptRecord → io bool).
Context (findingSourceContinuedToCurrentAuthority :
  FindingRecord → AttemptRecord → RepositoryControllerHead → io bool).
Context (range : Deps → list string).
(** The two checks only read. *)
Hypothesis terminal_reads : ∀ a, Preserves eq (terminalAttemptProven a).
Hypothesis continued_reads : ∀ f a h, Preserves eq (findingSourceContinuedToCurrentAuthority f a h).
Notation ResolveFinding := (ResolveFinding identity terminalAttemptProven
  findingSourceContinuedToCurrentAuthority range).

Lemma findingResolutionAuthority_reads finding :
  Preserves eq (findingResolutionAuthority identity terminalAttemptProven
    findingSourceContinuedToCurrentAuthority finding).
Proof. unfold findingResolutionAuthority, findingSourceLiveAuthority. preserving. Qed.

Lemma ResolveFinding_committed id decision d r d1 disposition :
  ResolveFinding id decision d = (Ok r, d1) → fs_Disposition r = Some disposition →
  LoadFinding identity id d1 = (Ok (fs_Finding r), d1) ∧
  findingDispositionPath id ∉ unreadable d1 ∧ committed (fs_Finding r) disposition d1.
Proof.
  unfold FindingResolution.ResolveFinding, under_lock. case_bool_decide; [done|].
  intros (finding & d0 & HF & E)%io_bind_Ok Hd.
  pose proof HF as (Hr & Hf & Hv & Hi & Hid & Hd1 & Hcn & ->)%LoadFinding_Ok.
  apply io_bind_Ok in E as (existing & d2 & HE & E). apply (proj1 (attempt_Ok _ _ _ _)) in HE.
  destruct existing as [existing|e].
  - injection E as <- <-. injection Hd as <-. simpl.
    apply LoadFindingDisposition_Ok in HE as (? & ? & ? & ? & ? & ->).
    split; [done|]. split; [done|]. by rewrite <- Hid in *.
  - destruct (negb (IsNotExist e)) eqn:He; [discriminate E|]. apply negb_false_iff in He.
    apply LoadFindingDisposition_absent in HE as [Hu ->]; [|done].
    destruct (bool_decide _); [injection E as <- <-; discriminate Hd|].
    apply io_bind_Ok in E as ([[head live] terminal] & d2 & HA & E).
    apply preserves_eq in HA as ->; [|apply findingResolutionAuthority_reads].
    apply resolveFindingDecision_resolves in E as [[<- Hc] (Ku & _ & Kf)].
    split; [apply LoadFinding_Ok; by rewrite Ku, Kf|]. rewrite Ku. auto.
Qed.

(** C23: the first disposition of a finding is final.  Once a resolution has
    committed one, every later resolution, whatever its decision and whatever else
    has happened to the store, answers with that disposition and writes nothing,
    as long as the finding and its disposition can still be read. *)
Theorem ResolveFinding_first_wins id decision d r d1 disposition decision' d2 :
  ResolveFinding id decision d = (Ok r, d1) → fs_Disposition r = Some disposition →
  files d2 !! findingPath id = files d1 !! findingPath id →
  files d2 !! findingDispositionPath id = files d1 !! findingDispositionPath id →
  unreadable d2 = unreadable d1 → lockPath ∉ unwritable d2 →
  ResolveFinding id decision' d2 = (Ok (resultForCommittedFinding (fs_Finding r) disposition), d2).
Proof.
  intros HR Hd Hf Hdp Hu Hl. apply ResolveFinding_committed with (disposition:=disposition) in HR
    as (HF & Hur & Hc); [|done].
  apply LoadFinding_Ok in HF as (? & ? & ? & ? & Hid & ? & ? & _).
  unfold FindingResolution.ResolveFinding, under_lock. rewrite bool_decide_false by done.
  erewrite io_bind_step by (apply LoadFinding_Ok; rewrite Hf, Hu; by split_and!). cbn beta.
  assert (LoadFindingDisposition id d2 = (Ok disposition, d2)) as HL.
  { rewrite <- Hid. eapply committed_loads; [exact Hc|by rewrite Hid|by rewrite Hid, Hu]. }
  by erewrite io_bind_step by (apply (proj2 (attempt_Ok _ _ _ _)); exact HL).
Qed.
End FirstWins.

(** ** A concrete finding, first dismissed and then claimed *)
Definition demo_observed : FindingRecord :=
  let finding := {|
    fr_SchemaVersion := 1; fr_FindingID := ""; fr_RepositoryIdentity := "repo";
    fr_ProjectSnapshotID := "s"; fr_SourceAttemptID := "att"; fr_SourceSemanticTaskRef := demo_task;
    fr_SourceWorkspaceSnapshotID := "s1"; fr_SourceControllerGeneration := 1; fr_Producer := "p";
    fr_ProofClass := FindingProofUnverified; fr_Evidence := []; fr_ProblemKey := "k";
    fr_CanonicalFindingID := "f"; fr_ObservedAt := 0 |} in
  finding {{ fr_FindingID := recordFindingID (H:=demo_host) finding }}.
Definition demo_finding_disk : Disk :=
  demo_disk {{
    files := <[findingPath (fr_FindingID demo_observed) := DocFinding demo_observed]> (files demo_disk);
    dirs := {[["finding-dispositions"]]} ∪ dirs demo_disk }}.
Definition demo_dismiss : FindingDecision :=
  {| fd_Kind := FindingDecisionNonActionable; fd_TargetTaskRef := None; fd_BlockingBoundary := "" |}.
Definition demo_claim : FindingDecision :=
  {| fd_Kind := FindingDecisionSameTask; fd_TargetTaskRef := None; fd_BlockingBoundary := "" |}.
Definition demo_resolve : FindingDecision → io FindingDispositionResult :=
  ResolveFinding (H:=demo_git) (H0:=demo_host) demo_identity (λ _, mret true) (λ _ _ _, mret false)
    (λ m, elements (dom m)) (fr_FindingID demo_observed).

Lemma ResolveFinding_first_wins_witness :
  match demo_resolve demo_dismiss demo_finding_disk with
  | (Ok r, d1) => ∃ disposition, fs_Disposition r = Some disposition ∧
      fp_Kind disposition = FindingDispositionNonActionable ∧
      demo_resolve demo_claim d1 = (Ok (resultForCommittedFinding (fs_Finding r) disposition), d1)
  | (Err _, _) => False
  end.
Proof.
  assert (match demo_resolve demo_dismiss demo_finding_disk with
    | (Ok r, d1) => match fs_Disposition r with
        | Some x => bool_decide (fp_Kind x = FindingDispositionNonActionable) | None => false end &&
        bool_decide (lockPath ∉ unwritable d1)
    | (Err _, _) => false end = true) as Hok by (vm_compute; reflexivity).
  destruct (demo_resolve demo_dismiss demo_finding_disk) as [[r|e] d1] eqn:E; [|discriminate Hok].
  apply andb_true_iff in Hok as [Hk Hl%bool_decide_eq_true].
  destruct (fs_Disposition r) as [x|] eqn:Hx; [|discriminate Hk].
  apply bool_decide_eq_true in Hk. exists x. split; [reflexivity|]. split; [exact Hk|].
  exact (ResolveFinding_first_wins (H:=demo_git) (H0:=demo_host) demo_identity (λ _, mret true)
    (λ _ _ _, mret false) (λ m, elements (dom m)) (λ _ _, eq_refl) (λ _ _ _ _, eq_refl)
    (fr_FindingID demo_observed) demo_dismiss demo_finding_disk r d1 x demo_claim d1
    E Hx eq_refl eq_refl eq_refl Hl).
Defined.
