(* ===== verification/Json.v ===== *)
(** * JSON values

    The values [encoding/json] decodes into [any] with [UseNumber]: a number is
    kept as its text, an object is a finite map from keys to values.  The values
    are immutable, so the cloning functions of the code ([cloneJSONValue],
    [cloneMap]) are the identity on them; where an object is shared and changed
    in place, the model says so at the place ([ManagedSettings.ObjectStore]). *)
From S2P Require Import Prelude GoStrings.

Inductive json : Type :=
  | JNull
  | JBool (b : bool)
  | JNumber (text : string)
  | JString (s : string)
  | JArray (items : list json)
  | JObject (fields : gmap string json).

Notation object := (gmap string json).

(** [reflect.DeepEqual] on decoded values. *)
#[export] Instance json_eq_dec : EqDecision json.
Proof.
  refine (fix go (x y : json) : Decision (x = y) :=
   match x, y with
   | JNull, JNull => left _
   | JBool a, JBool b => cast_if (decide (a = b))
   | JNumber a, JNumber b => cast_if (decide (a = b))
   | JString a, JString b => cast_if (decide (a = b))
   | JArray a, JArray b => cast_if (@decide (a = b) (@list_eq_dec _ go a b))
   | JObject a, JObject b => cast_if (@decide (a = b) (@gmap_eq_dec string _ _ json go a b))
   | _, _ => right _
   end); clear go; abstract congruence.
Defined.

#[export] Instance JObject_inj : Inj (=) (=) JObject.
Proof. by intros ?? [= ->]. Qed.

(** [value, ok := x.(map[string]any)] *)
Definition as_object (v : json) : option object :=
  match v with JObject o => Some o | _ => None end.

Lemma as_object_Some v o : as_object v = Some o ↔ v = JObject o.
Proof. destruct v; simpl; split; congruence. Qed.

(** [sortedMapKeys] *)
Definition sortedMapKeys {A} (o : gmap string A) : list string :=
  merge_sort String.le (elements (dom o)).

Lemma elem_of_sortedMapKeys {A} (o : gmap string A) k : k ∈ sortedMapKeys o ↔ is_Some (o !! k).
Proof. unfold sortedMapKeys. by rewrite merge_sort_Permutation, elem_of_elements, elem_of_dom. Qed.
Lemma NoDup_sortedMapKeys {A} (o : gmap string A) : NoDup (sortedMapKeys o).
Proof. unfold sortedMapKeys. rewrite merge_sort_Permutation. apply NoDup_elements. Qed.

(** The fields of an object in the order of their keys. *)
Definition sorted_fields {A} (o : gmap string A) : list (string * A) :=
  omap (λ k, (k,.) <$> o !! k) (sortedMapKeys o).

Lemma elem_of_sorted_fields {A} (o : gmap string A) k v :
  (k, v) ∈ sorted_fields o ↔ o !! k = Some v.
Proof.
  unfold sorted_fields. rewrite list_elem_of_omap. setoid_rewrite elem_of_sortedMapKeys. split.
  - intros (k' & _ & E). destruct (o !! k') eqn:Hk; simplify_eq/=. done.
  - intros E. exists k. rewrite E. by split; [eexists|].
Qed.

(** Induction on the size of a value: the fields of an object are smaller. *)
Fixpoint json_size (v : json) : nat :=
  match v with
  | JArray items => S (foldr (λ x n, json_size x + n) 0 items)
  | JObject fields => S (map_fold (λ _ x n, json_size x + n) 0 fields)
  | _ => 1
  end.
Lemma json_size_field o k v : o !! k = Some v → json_size v < json_size (JObject o).
Proof.
  intros Hk. simpl. rewrite (map_fold_delete_L _ _ k v o) by (done || intros; lia). lia.
Qed.
Lemma json_size_item l v : v ∈ l → json_size v < json_size (JArray l).
Proof.
  simpl. induction l as [|x l IH]; [by intros ?%not_elem_of_nil|].
  intros [->|Hv]%elem_of_cons; simpl; [lia|]. specialize (IH Hv). lia.
Qed.
Lemma json_nested_ind (P : json → Prop) :
  (∀ v, match v with JArray _ | JObject _ => True | _ => P v end) →
  (∀ l, Forall P l → P (JArray l)) → (∀ o, map_Forall (λ _, P) o → P (JObject o)) → ∀ v, P v.
Proof.
  intros Hleaf Harr Hobj v. induction (Wf_nat.well_founded_ltof _ json_size v) as [v _ IH].
  destruct v as [|b|s|s|l|o].
  - apply (Hleaf JNull).
  - apply (Hleaf (JBool b)).
  - apply (Hleaf (JNumber s)).
  - apply (Hleaf (JString s)).
  - apply Harr, Forall_forall. intros v Hv. apply IH. by apply json_size_item.
  - apply Hobj. intros k v Hk. apply IH. by apply (json_size_field o k).
Qed.
Lemma json_object_ind (P : json → Prop) :
  (∀ v, as_object v = None → P v) → (∀ o, map_Forall (λ _, P) o → P (JObject o)) → ∀ v, P v.
Proof.
  intros Hleaf Hobj v. induction (Wf_nat.well_founded_ltof _ json_size v) as [v _ IH].
  destruct v as [| | | | |o]; try by apply Hleaf.
  apply Hobj. intros k v Hk. apply IH. by apply (json_size_field o k).
Qed.

Lemma sorted_fields_fmap {A B} (f : A → B) (o : gmap string A) :
  sorted_fields (f <$> o) = prod_map id f <$> sorted_fields o.
Proof.
  unfold sorted_fields, sortedMapKeys. rewrite dom_fmap_L.
  generalize (merge_sort String.le (elements (dom o))). intros keys.
  induction keys as [|k keys IH]; [done|]. unfold omap in *. simpl. rewrite lookup_fmap.
  destruct (o !! k); simpl; by rewrite IH.
Qed.
(** Each key once. *)
Lemma NoDup_sorted_fields {A} (o : gmap string A) : NoDup (sorted_fields o).*1.
Proof.
  assert ((sorted_fields o).*1 = sortedMapKeys o) as ->; [|apply NoDup_sortedMapKeys].
  unfold sorted_fields. assert (∀ k, k ∈ sortedMapKeys o → is_Some (o !! k)) as Hin
    by (intros k; apply elem_of_sortedMapKeys).
  induction (sortedMapKeys o) as [|k keys IH]; [done|]. simpl.
  destruct (Hin k) as [v Hv]; [by left|]. rewrite Hv. simpl. f_equal. apply IH. intros k' ?. apply Hin. by right.
Qed.

(** ** A text form

    Instances of the codecs of the settings files, for concrete runs: a value's
    code as a sequence of binary digits, a trailing newline ignored. *)
Fixpoint pos_text (p : positive) : string :=
  match p with xH => "" | xO p => String "0" (pos_text p) | xI p => String "1" (pos_text p) end.
Fixpoint text_pos (s : string) : option positive :=
  match s with
  | "" => Some xH
  | String c s =>
      if bool_decide (c = "0"%char) then xO <$> text_pos s
      else if bool_decide (c = "1"%char) then xI <$> text_pos s
      else if bool_decide (c = LF ∧ s = "") then Some xH else None
  end.
Lemma text_pos_text p : text_pos (pos_text p +:+ String LF "") = Some p.
Proof. induction p as [p IH|p IH|]; simpl; rewrite ?IH; reflexivity. Qed.
Definition encode_text {A} `{Countable A} (x : A) : string := pos_text (encode x).
Definition decode_text {A} `{Countable A} (s : string) : option A := text_pos s ≫= decode.
Lemma decode_encode_text {A} `{Countable A} (x : A) : decode_text (encode_text x +:+ String LF "") = Some x.
Proof. unfold decode_text, encode_text. rewrite text_pos_text. apply decode_encode. Qed.

Fixpoint json_tree (v : json) : gen_tree string :=
  match v with
  | JNull => GenNode 0 []
  | JBool b => GenNode (if b then 1 else 2) []
  | JNumber s => GenNode 3 [GenLeaf s]
  | JString s => GenLeaf s
  | JArray l => GenNode 4 (json_tree <$> l)
  | JObject o => GenNode 5 ((λ p : string * gen_tree string, GenNode 6 [GenLeaf p.1; p.2]) <$> map_to_list (json_tree <$> o))
  end.
Fixpoint tree_json (t : gen_tree string) : json :=
  match t with
  | GenLeaf s => JString s
  | GenNode 1 _ => JBool true
  | GenNode 2 _ => JBool false
  | GenNode 3 [GenLeaf s] => JNumber s
  | GenNode 4 ts => JArray (tree_json <$> ts)
  | GenNode 5 ts =>
      JObject (list_to_map ((λ t, match t with
                                  | GenNode _ [GenLeaf k; t] => (k, tree_json t)
                                  | _ => ("", JNull)
                                  end) <$> ts))
  | _ => JNull
  end.
Lemma tree_json_tree v : tree_json (json_tree v) = v.
Proof.
  revert v. apply json_nested_ind; [intros [|[]| | | |]; done|intros l IH|intros o IH].
  - simpl. f_equal. rewrite <- list_fmap_compose. rewrite <- (list_fmap_id l) at 2.
    by apply Forall_fmap_ext.
  - cbn [json_tree tree_json]. f_equal. rewrite map_to_list_fmap, <- !list_fmap_compose.
    rewrite <- (list_to_map_to_list o) at 2. f_equal. rewrite <- (list_fmap_id (map_to_list o)) at 2.
    apply Forall_fmap_ext, Forall_forall. intros [k v] Hk%elem_of_map_to_list. simpl. by rewrite (IH k v Hk).
Qed.
#[export] Instance json_countable : Countable json := inj_countable' json_tree tree_json tree_json_tree.
