(* ===== verification/ManagedSettings.v ===== *)
(** * Managed settings

    Models [internal/settingsmerge/managed.go]: the installer owns the leaves of
    a fragment inside the user's settings object.  For each leaf the managed
    state records its path, what the user had there before ([valueBaseline]) and
    what was applied; installing a new fragment first gives back what the
    recorded baselines say and then applies the new leaves.

    A map key of the code is [json.Marshal] of a path; marshalling is injective
    on the keys that decoding yields, so the model uses the path itself. *)
From S2P Require Import Prelude Json.

(** A leaf's baseline: [vb_FirstMissingPrefix] is the length of the first prefix
    of the path that did not exist, [0] when the value existed. *)
Record valueBaseline := { vb_Exists : bool; vb_Value : json; vb_FirstMissingPrefix : Z }.
Record managedValueState := {
  mv_Path : list string;
  mv_Baseline : valueBaseline;
  mv_Applied : json;
}.
Record managedState := { ms_Version : Z; ms_Values : list managedValueState }.
Record managedLeaf := { ml_Path : list string; ml_Value : json }.
#[export] Instance valueBaseline_eq_dec : EqDecision valueBaseline.
Proof. solve_decision. Defined.
#[export] Instance managedValueState_eq_dec : EqDecision managedValueState.
Proof. solve_decision. Defined.
#[export] Instance managedState_eq_dec : EqDecision managedState.
Proof. solve_decision. Defined.

Definition managedStateVersion : Z := 1.

(** [managedPathDisplay], as the arguments of a format. *)
Definition managedPathDisplay (path : list string) : list arg :=
  match path with [] => [AStr "<root>"] | _ => AStr <$> path end.
(** Indexing or slicing an empty path panics. *)
Definition path_panic : error := Errorf "panic: slice bounds out of range" [].

(** ** The object being merged into

    The code changes one nested map in place.  [object_of] is that map's value,
    [rewrite_at t path o] records that a write at [path] turned it into [o]: an
    implementation can follow the maps that other structures share. *)
Class ObjectStore (M : Type) := {
  object_of : M → object;
  rewrite_at : M → list string → object → M;
  object_of_rewrite t path o : object_of (rewrite_at t path o) = o;
}.
#[export] Instance plain_object : ObjectStore object :=
  {| object_of o := o; rewrite_at _ _ o := o; object_of_rewrite _ _ _ := eq_refl |}.

(** ** Reading and writing at a path

    [above] is the part of the path already walked, for the error messages. *)
Fixpoint value_below (above path : list string) (current : json) : result error (option json) :=
  match path with
  | [] => Ok (Some current)
  | key :: path =>
      match as_object current with
      | None => Err (Errorf "managed Claude setting parent is not an object: %s" (managedPathDisplay above))
      | Some object =>
          match object !! key with
          | None => Ok None
          | Some value => value_below (above ++ [key]) path value
          end
      end
  end.
Definition managedValueAt {M} `{ObjectStore M} (target : M) (path : list string) :
    result error (option json) :=
  value_below [] path (JObject (object_of target)).

Fixpoint set_below (above path : list string) (value : json) (target : object) : result error object :=
  match path with
  | [] => Err path_panic
  | key :: rest =>
      if bool_decide (rest = []) then Ok (<[key := value]> target)
      else match target !! key with
           | None =>
               next ← set_below (above ++ [key]) rest value ∅; Ok (<[key := JObject next]> target)
           | Some child =>
               match as_object child with
               | None => Err (Errorf "cannot manage Claude setting below non-object path %s"
                                (managedPathDisplay (above ++ [key])))
               | Some next =>
                   next ← set_below (above ++ [key]) rest value next;
                   Ok (<[key := JObject next]> target)
               end
           end
  end.
Definition setManagedValue {M} `{ObjectStore M} (target : M) (path : list string) (value : json) :
    result error M :=
  rewrite_at target path <$> set_below [] path value (object_of target).

Fixpoint delete_below (above path : list string) (target : object) : result error object :=
  match path with
  | [] => Err path_panic
  | key :: rest =>
      if bool_decide (rest = []) then Ok (delete key target)
      else match target !! key with
           | None => Ok target
           | Some child =>
               match as_object child with
               | None => Err (Errorf "managed Claude setting parent is not an object: %s"
                                (managedPathDisplay (above ++ [key])))
               | Some next =>
                   next ← delete_below (above ++ [key]) rest next;
                   Ok (<[key := JObject next]> target)
               end
           end
  end.
Definition deleteManagedValue {M} `{ObjectStore M} (target : M) (path : list string) : result error M :=
  rewrite_at target path <$> delete_below [] path (object_of target).

(** ** Baselines *)
Fixpoint capture_below (above path : list string) (current : json) : result error valueBaseline :=
  match path with
  | [] => Ok {| vb_Exists := true; vb_Value := current; vb_FirstMissingPrefix := 0 |}
  | key :: path =>
      match as_object current with
      | None => Err (Errorf "cannot manage Claude setting below non-object path %s" (managedPathDisplay above))
      | Some object =>
          match object !! key with
          | None => Ok {| vb_Exists := false; vb_Value := JNull;
                          vb_FirstMissingPrefix := Z.of_nat (length above) + 1 |}
          | Some value => capture_below (above ++ [key]) path value
          end
      end
  end.
Definition captureManagedBaseline {M} `{ObjectStore M} (target : M) (path : list string) :
    result error valueBaseline :=
  capture_below [] path (JObject (object_of target)).

(** The loop of [restoreManagedBaseline] over the prefixes that installing may
    have created, the longest first. *)
Fixpoint pruneLoop {M} `{ObjectStore M} (target : M) (path : list string) (depths : list nat) :
    result error M :=
  match depths with
  | [] => Ok target
  | depth :: depths =>
      let prefix := take depth path in
      current ← managedValueAt target prefix;
      match current with
      | None => pruneLoop target path depths
      | Some value =>
          match as_object value with
          | None => Ok target
          | Some object =>
              if bool_decide (object ≠ ∅) then Ok target
              else target ← deleteManagedValue target prefix; pruneLoop target path depths
          end
      end
  end.
Definition restoreManagedBaseline {M} `{ObjectStore M} (target : M) (path : list string)
    (baseline : valueBaseline) : result error M :=
  if vb_Exists baseline then setManagedValue target path (vb_Value baseline)
  else
    target ← deleteManagedValue target path;
    let first := Z.to_nat (vb_FirstMissingPrefix baseline) in
    pruneLoop target path (reverse (seq first (length path - first))).

(** ** Leaves of a fragment *)
Fixpoint flattenManagedValue (value : json) (path : list string) : list managedLeaf :=
  match value with
  | JObject object =>
      let below := flattenManagedValue <$> object in
      sorted_fields below ≫= λ '(key, flatten), flatten (path ++ [key])
  | _ => [{| ml_Path := path; ml_Value := value |}]
  end.
Definition flattenManagedObject (fragment : object) : list managedLeaf :=
  sorted_fields fragment ≫= λ '(key, value), flattenManagedValue value [key].

(** ** Reconciliation *)
Fixpoint restorePreviousManagedValues {M} `{ObjectStore M} (target : M)
    (previous : list managedValueState) (desired : list (list string)) : result error M :=
  match previous with
  | [] => Ok target
  | record :: previous =>
      current ← managedValueAt target (mv_Path record);
      let unchanged := bool_decide (current = Some (mv_Applied record)) in
      let remainsManaged := bool_decide (mv_Path record ∈ desired) in
      reject! remainsManaged && negb unchanged
        with Errorf "managed Claude setting was modified after install; refusing to overwrite: %s"
               (managedPathDisplay (mv_Path record));
      target ← (if unchanged then restoreManagedBaseline target (mv_Path record) (mv_Baseline record)
                else Ok target);
      restorePreviousManagedValues target previous desired
  end.

Definition indexManagedValues (values : list managedValueState) : gmap (list string) managedValueState :=
  foldl (λ indexed value, <[mv_Path value := value]> indexed) ∅ values.

Definition managedBaselineForLeaf {M} `{ObjectStore M} (target : M) (leaf : managedLeaf)
    (previous : gmap (list string) managedValueState) : result error valueBaseline :=
  match previous !! ml_Path leaf with
  | Some record => Ok (mv_Baseline record)
  | None => captureManagedBaseline target (ml_Path leaf)
  end.
Fixpoint managedBaselinesForDesired {M} `{ObjectStore M} (target : M) (desired : list managedLeaf)
    (previous : gmap (list string) managedValueState) : result error (list valueBaseline) :=
  match desired with
  | [] => Ok []
  | leaf :: desired =>
      baseline ← managedBaselineForLeaf target leaf previous;
      baselines ← managedBaselinesForDesired target desired previous;
      Ok (baseline :: baselines)
  end.

Fixpoint applyLoop {M} `{ObjectStore M} (target : M) (desired : list managedLeaf)
    (baselines : list valueBaseline) : result error (M * list managedValueState) :=
  match desired, baselines with
  | leaf :: desired, baseline :: baselines =>
      target ← setManagedValue target (ml_Path leaf) (ml_Value leaf);
      '(target, values) ← applyLoop target desired baselines;
      Ok (target, {| mv_Path := ml_Path leaf; mv_Baseline := baseline; mv_Applied := ml_Value leaf |}
                    :: values)
  | _, _ => Ok (target, [])
  end.
Definition applyDesiredManagedValues {M} `{ObjectStore M} (target : M) (desired : list managedLeaf)
    (previous : gmap (list string) managedValueState) : result error (M * managedState) :=
  baselines ← managedBaselinesForDesired target desired previous;
  '(target, values) ← applyLoop target desired baselines;
  Ok (target, {| ms_Version := managedStateVersion; ms_Values := values |}).

Definition reconcileManagedValues {M} `{ObjectStore M} (target : M) (previous : managedState)
    (fragment : object) : result error (M * managedState) :=
  let desired := flattenManagedObject fragment in
  let desiredByPath := ml_Path <$> desired in
  let previousByPath := indexManagedValues (ms_Values previous) in
  target ← restorePreviousManagedValues target (ms_Values previous) desiredByPath;
  applyDesiredManagedValues target desired previousByPath.

(** ** Validation of a state read back *)
Definition validateManagedValueState (record : managedValueState) (seen : gset (list string)) :
    result error (gset (list string)) :=
  let display := managedPathDisplay (mv_Path record) in
  let first := vb_FirstMissingPrefix (mv_Baseline record) in
  reject! bool_decide (mv_Path record = []) with Errorf "managed state contains an empty path" [];
  reject! bool_decide (mv_Path record ∈ seen)
    with Errorf "managed state contains duplicate path %s" display;
  let seen := {[mv_Path record]} ∪ seen in
  if vb_Exists (mv_Baseline record)
  then reject! negb (bool_decide (first = 0%Z))
         with Errorf "managed state contains invalid existing baseline at %s" display; Ok seen
  else reject! bool_decide (first < 1)%Z || bool_decide (Z.of_nat (length (mv_Path record)) < first)%Z
         with Errorf "managed state contains invalid missing baseline at %s" display; Ok seen.
Fixpoint validateLoop (values : list managedValueState) (seen : gset (list string)) : result error unit :=
  match values with
  | [] => Ok ()
  | record :: values => seen ← validateManagedValueState record seen; validateLoop values seen
  end.
Definition validateManagedState (state : managedState) : result error unit :=
  validateLoop (ms_Values state) ∅.

(** ** Nodes

    A place in the settings is absent ([None]) or holds a value.  [at_path] is
    the node below another, [put_node] and [drop_node] are the writes of
    [setManagedValue] and [restoreManagedBaseline] seen from the node above the
    path: [drop_node first] also removes the objects it leaves empty from depth
    [first] on. *)
Notation node := (option json).
Fixpoint at_path (path : list string) (n : node) : node :=
  match path with
  | [] => n
  | key :: path => object ← n ≫= as_object; at_path path (object !! key)
  end.
Definition node_object (n : node) : option object :=
  match n with None => Some ∅ | Some v => as_object v end.
Fixpoint put_node (path : list string) (value : json) (n : node) : option json :=
  match path with
  | [] => Some value
  | key :: path =>
      object ← node_object n;
      child ← put_node path value (object !! key);
      Some (JObject (<[key := child]> object))
  end.
Definition set_child (key : string) (child : node) (o : object) : object :=
  partial_alter (λ _, child) key o.
Fixpoint drop_node (first : nat) (path : list string) (n : node) : option node :=
  match path with
  | [] => Some None
  | key :: path =>
      match n with
      | None => Some None
      | Some v =>
          object ← as_object v;
          child ← drop_node (Nat.pred first) path (object !! key);
          let object := set_child key child object in
          Some (if bool_decide (object = ∅ ∧ first = 0) then None else Some (JObject object))
      end
  end.

(** Two paths that part at some key: neither is a prefix of the other. *)
Fixpoint diverge (p q : list string) : Prop :=
  match p, q with
  | k :: p, k' :: q => k ≠ k' ∨ k = k' ∧ diverge p q
  | _, _ => False
  end.
#[export] Instance diverge_sym : Symmetric diverge.
Proof.
  intros p. induction p as [|k p IH]; intros [|k' q]; simpl; try done.
  intros [?|[-> ?]]; [by left|right; auto].
Qed.
#[export] Instance diverge_dec p q : Decision (diverge p q).
Proof.
  revert q. induction p as [|k p IH]; intros [|k' q]; simpl; try apply _.
Defined.
Lemma diverge_cons k p q : diverge (k :: p) (k :: q) ↔ diverge p q.
Proof. simpl. naive_solver. Qed.
Lemma diverge_app p q a b : diverge p q → diverge (p ++ a) (q ++ b).
Proof.
  revert q. induction p as [|k p IH]; intros [|k' q]; simpl; try done.
  intros [?|[-> ?]]; [by left|right; auto].
Qed.
Lemma diverge_prefix c k k' p q : k ≠ k' → diverge (c ++ k :: p) (c ++ k' :: q).
Proof. intros Hk. induction c; simpl; auto. Qed.

Section Nodes.
Implicit Types (n : node) (o : object).

Lemma lookup_set_child k c o : set_child k c o !! k = c.
Proof. apply lookup_partial_alter_eq. Qed.
Lemma lookup_set_child_ne k k' c o : k ≠ k' → set_child k c o !! k' = o !! k'.
Proof. apply lookup_partial_alter_ne. Qed.
Lemma set_child_Some k v o : set_child k (Some v) o = <[k := v]> o.
Proof. done. Qed.
Lemma set_child_same k c o : o !! k = c → set_child k c o = o.
Proof.
  intros E. apply map_eq. intros j. destruct (decide (k = j)) as [<-|Hj].
  - by rewrite lookup_set_child.
  - by rewrite lookup_set_child_ne.
Qed.
Lemma set_child_twice k c c' o : set_child k c (set_child k c' o) = set_child k c o.
Proof. apply map_eq. intros j. destruct (decide (k = j)) as [<-|Hj];
  by rewrite ?lookup_set_child, ?lookup_set_child_ne by done. Qed.
Lemma set_child_comm k k' c c' o :
  k ≠ k' → set_child k c (set_child k' c' o) = set_child k' c' (set_child k c o).
Proof.
  intros Hk. apply map_eq. intros j. destruct (decide (k = j)) as [->|].
  - by rewrite lookup_set_child, lookup_set_child_ne, lookup_set_child by done.
  - rewrite (lookup_set_child_ne k j) by done. destruct (decide (k' = j)) as [->|].
    + by rewrite !lookup_set_child.
    + by rewrite !lookup_set_child_ne by done.
Qed.
Lemma insert_child_ne k v o : <[k := v]> o ≠ (∅ : object).
Proof. apply insert_non_empty. Qed.

(** What a write leaves at other paths. *)
Lemma put_node_here p v n w : put_node p v n = Some w → at_path p (Some w) = Some v.
Proof.
  revert n w. induction p as [|k p IH]; intros n w; simpl; [by intros [= ->]|].
  intros (o & Ho & (c & Hc & [= <-])%bind_Some)%bind_Some. simpl.
  rewrite lookup_insert_eq. by eapply IH.
Qed.
Lemma put_node_other p q v n w :
  diverge p q → put_node p v n = Some w → at_path q (Some w) = at_path q n.
Proof.
  revert q n w. induction p as [|k p IH]; intros [|k' q] n w; simpl; try done.
  intros Hd (o & Ho & (c & Hc & [= <-])%bind_Some)%bind_Some. simpl.
  transitivity (at_path q (o !! k')).
  - destruct (decide (k = k')) as [<-|Hk].
    + rewrite lookup_insert_eq. apply (IH q); [naive_solver|done].
    + by rewrite lookup_insert_ne.
  - destruct n as [v'|]; simpl in *; [by rewrite Ho|]. injection Ho as <-.
    rewrite lookup_empty. clear. by destruct q.
Qed.
Lemma drop_node_other f p q n x :
  diverge p q → drop_node f p n = Some x → at_path q x = at_path q n.
Proof.
  revert f q n x. induction p as [|k p IH]; intros f [|k' q] n x; simpl; try done.
  intros Hd. destruct n as [v|]; [|by intros [= <-]].
  intros (o & Ho & (c & Hc & [= <-])%bind_Some)%bind_Some. simpl. rewrite Ho. simpl.
  assert (at_path q (set_child k c o !! k') = at_path q (o !! k')) as <-.
  { destruct (decide (k = k')) as [<-|Hk].
    - rewrite lookup_set_child. apply (IH (Nat.pred f) q); [naive_solver|done].
    - by rewrite lookup_set_child_ne. }
  case_bool_decide as E; [|done]. destruct E as [-> _]. rewrite lookup_empty. by destruct q.
Qed.

(** Writes at divergent paths commute. *)
Lemma put_put p q u v n x y :
  diverge p q → put_node p u n = Some x → put_node q v n = Some y →
  ∃ z, put_node p u (Some y) = Some z ∧ put_node q v (Some x) = Some z.
Proof.
  revert q n x y. induction p as [|k p IH]; intros [|k' q] n x y; simpl; try done.
  intros Hd (o & Ho & (c & Hc & [= <-])%bind_Some)%bind_Some. rewrite Ho. simpl.
  intros (c' & Hc' & [= <-])%bind_Some. simpl.
  destruct (decide (k = k')) as [<-|Hk].
  - rewrite !lookup_insert_eq.
    destruct (IH q (o !! k) c c') as (z & -> & ->); [naive_solver|done..|]. simpl.
    by rewrite !insert_insert_eq; eexists.
  - rewrite !lookup_insert_ne, Hc, Hc' by done. simpl. by rewrite insert_insert_ne by done; eexists.
Qed.
Lemma drop_put f p q v n x y :
  diverge p q → drop_node f p n = Some x → put_node q v n = Some y →
  ∃ z, drop_node f p (Some y) = Some (Some z) ∧ put_node q v x = Some z.
Proof.
  revert f q n x y. induction p as [|k p IH]; intros f [|k' q] n x y; simpl; try done.
  intros Hd Hx (o & Ho & (c' & Hc' & [= <-])%bind_Some)%bind_Some. simpl.
  (* the child at [k] before and after, and what dropping leaves of the object *)
  assert (∃ c, drop_node (Nat.pred f) p (o !! k) = Some c ∧ ∃ o', node_object x = Some o' ∧
            o' = set_child k c o) as (c & Hc & o' & Hx' & ->).
  { destruct n as [v'|]; simpl in *.
    - rewrite Ho in Hx. simpl in Hx. apply bind_Some in Hx as (c & Hc & [= <-]).
      exists c. split; [done|]. case_bool_decide as E; simpl; [|by eexists].
      exists ∅. by rewrite (proj1 E).
    - injection Hx as <-. injection Ho as <-. rewrite lookup_empty. exists None. split; [by destruct p|].
      exists ∅. by rewrite set_child_same. }
  rewrite Hx'. simpl. destruct (decide (k = k')) as [<-|Hk].
  - rewrite lookup_insert_eq, lookup_set_child.
    destruct (IH (Nat.pred f) q (o !! k) c c') as (z & -> & ->); [naive_solver|done..|]. simpl.
    rewrite set_child_Some, bool_decide_false by (intros [E _]; by apply insert_child_ne in E).
    rewrite insert_insert_eq. rewrite <- !set_child_Some, set_child_twice. by eexists.
  - rewrite lookup_insert_ne, Hc, lookup_set_child_ne, Hc' by done. simpl.
    rewrite <- !set_child_Some, (set_child_comm k k') by done. rewrite set_child_Some.
    rewrite bool_decide_false by (intros [E _]; by apply insert_child_ne in E). by eexists.
Qed.

(** What a write replaced, a write or a removal brings back. *)
Lemma put_back p v w n x : at_path p n = Some w → put_node p v n = Some x → put_node p w (Some x) = n.
Proof.
  revert n x. induction p as [|k p IH]; intros n x; simpl; [by intros ->|].
  intros (o & Ho & Hw)%bind_Some. destruct n as [v'|]; [|done]. simpl in *. rewrite Ho. simpl.
  intros (c & Hc & [= <-])%bind_Some. simpl. rewrite lookup_insert_eq, (IH _ _ Hw Hc).
  destruct (o !! k) as [u|] eqn:Hk; simpl.
  - rewrite insert_insert_eq, insert_id by done. by apply as_object_Some in Ho as ->.
  - destruct p; simpl in Hw; done.
Qed.
(** The first missing prefix of a path, counted from the node. *)
Fixpoint missing (path : list string) (n : node) : option nat :=
  match n with
  | None => Some 0
  | Some v =>
      match path with
      | [] => None
      | key :: path => object ← as_object v; S <$> missing path (object !! key)
      end
  end.
Lemma drop_back p f v n x : missing p n = Some f → put_node p v n = Some x → drop_node f p (Some x) = Some n.
Proof.
  revert f n x. induction p as [|k p IH]; intros f n x.
  - destruct n; simpl; [done|]. by intros [= <-].
  - destruct n as [u|]; simpl.
    + intros (o & Ho & (g & Hg & ->)%fmap_Some)%bind_Some. rewrite Ho. simpl.
      intros (c & Hc & [= <-])%bind_Some. simpl. rewrite lookup_insert_eq.
      rewrite (IH g (o !! k) c Hg Hc). simpl.
      rewrite bool_decide_false by lia. rewrite <- set_child_Some, set_child_twice, set_child_same by done.
      by apply as_object_Some in Ho as ->.
    + intros [= <-] (c & Hc & [= <-])%bind_Some. simpl. rewrite lookup_insert_eq.
      rewrite lookup_empty in Hc. rewrite (IH 0 None c) by (done || by destruct p). simpl.
      rewrite <- set_child_Some, set_child_twice, set_child_same by apply lookup_empty.
      by rewrite bool_decide_true.
Qed.
(** Whether a node can be dropped does not depend on what is pruned. *)
Lemma drop_node_defined f g p n x : drop_node f p n = Some x → ∃ y, drop_node g p n = Some y.
Proof.
  revert f g n x. induction p as [|k p IH]; intros f g n x; simpl; [by eexists|].
  destruct n as [v|]; [|by eexists].
  intros (o & -> & (c & Hc & _)%bind_Some)%bind_Some. simpl.
  destruct (IH _ (Nat.pred g) _ _ Hc) as [y ->]. by eexists.
Qed.
(** Pruning at depth [f] on top of pruning below it. *)
Lemma drop_node_prune f p n x :
  f < length p → drop_node (S f) p n = Some x →
  drop_node f p n =
    if bool_decide (at_path (take f p) x = Some (JObject ∅))
    then drop_node f (take f p) x else Some x.
Proof.
  revert f n x. induction p as [|k p IH]; intros f n x Hf; simpl in *; [lia|].
  destruct n as [v|]; [|intros [= <-]; by destruct f; simpl; repeat case_bool_decide].
  intros (o & Ho & (c & Hc & [= <-])%bind_Some)%bind_Some. rewrite Ho. simpl.
  rewrite (bool_decide_false (_ ∧ S f = 0)) by lia.
  destruct f as [|f]; simpl.
  - rewrite Hc. simpl. destruct (decide (set_child k c o = ∅)) as [->|Hne].
    + by rewrite !bool_decide_true.
    + rewrite !bool_decide_false; [done|naive_solver..].
  - rewrite (IH f (o !! k) c) by (done || lia). rewrite lookup_set_child.
    case_bool_decide as E; simpl.
    + destruct (drop_node f (take f p) c) as [c'|] eqn:Hd; simpl; [|done].
      rewrite set_child_twice. done.
    + by rewrite bool_decide_false by lia.
Qed.
End Nodes.

(** ** The leaves of a fragment *)
Lemma flatten_object o path :
  flattenManagedValue (JObject o) path =
  sorted_fields o ≫= λ '(key, value), flattenManagedValue value (path ++ [key]).
Proof.
  simpl. rewrite sorted_fields_fmap. induction (sorted_fields o) as [|[k v] l IH]; [done|].
  by rewrite fmap_cons, !bind_cons, IH.
Qed.
Lemma flatten_leaf v path : as_object v = None → flattenManagedValue v path = [{| ml_Path := path; ml_Value := v |}].
Proof. by destruct v. Qed.
Lemma flattenManagedObject_value fragment : flattenManagedObject fragment = flattenManagedValue (JObject fragment) [].
Proof. by rewrite flatten_object. Qed.

(** A leaf of [v] is the value at its path in [v], and no object. *)
Lemma flatten_at v path l :
  l ∈ flattenManagedValue v path →
  ∃ p, ml_Path l = path ++ p ∧ at_path p (Some v) = Some (ml_Value l) ∧ as_object (ml_Value l) = None.
Proof.
  revert path l. induction v as [v Hv|o IH] using json_object_ind; intros path l.
  - rewrite flatten_leaf by done. intros ->%list_elem_of_singleton. exists [].
    by rewrite app_nil_r.
  - rewrite flatten_object. intros ([k v] & Hl & Hk)%list_elem_of_bind. apply elem_of_sorted_fields in Hk.
    destruct (IH k v Hk _ _ Hl) as (p & -> & Hp & Ho). exists (k :: p). simpl.
    rewrite Hk, <- app_assoc. done.
Qed.

Lemma ForallOrdPairs_app {A} (R : relation A) l k :
  ForallOrdPairs R l → ForallOrdPairs R k → (∀ x y, x ∈ l → y ∈ k → R x y) → ForallOrdPairs R (l ++ k).
Proof.
  induction 1 as [|x l Hx Hl IH]; intros Hk HR; simpl; [done|]. constructor.
  - apply Forall_app. split; [done|]. apply Forall_forall. intros y Hy. apply HR; [by left|done].
  - apply IH; [done|]. intros. apply HR; [by right|done].
Qed.

(** The leaves part pairwise: none is above another. *)
Lemma flatten_diverge v path : ForallOrdPairs diverge (ml_Path <$> flattenManagedValue v path).
Proof.
  revert path. induction v as [v Hv|o IH] using json_object_ind; intros path.
  - rewrite flatten_leaf by done. repeat constructor.
  - rewrite flatten_object. pose proof (NoDup_sorted_fields o) as Hnd.
    assert (∀ k v, (k, v) ∈ sorted_fields o → o !! k = Some v) as Hin
      by (intros k v; apply elem_of_sorted_fields).
    induction (sorted_fields o) as [|[k v] fields IHf]; [constructor|].
    rewrite bind_cons, fmap_app. apply NoDup_cons in Hnd as [Hk Hnd]. apply ForallOrdPairs_app.
    + apply (IH k v). apply Hin. by left.
    + apply IHf; [done|]. intros. apply Hin. by right.
    + intros p q (l & -> & Hl)%list_elem_of_fmap
        (l' & -> & ([k' v'] & Hl' & Hk')%list_elem_of_bind)%list_elem_of_fmap.
      apply flatten_at in Hl as (p' & -> & _). apply flatten_at in Hl' as (q' & -> & _).
      rewrite <- !app_assoc. apply diverge_prefix. intros ->. apply Hk.
      by apply (list_elem_of_fmap_2 fst) in Hk'.
Qed.
Lemma flatten_nonempty fragment l : l ∈ flattenManagedObject fragment → ml_Path l ≠ [].
Proof.
  rewrite flattenManagedObject_value. intros (p & -> & Hp & Ho)%flatten_at. simpl.
  intros ->. injection Hp as Hp. by rewrite <- Hp in Ho.
Qed.

(** ** The operations of the code and the nodes *)
Section Refine.
Implicit Types (o : object) (v : json).

Lemma value_below_at above p v r : value_below above p v = Ok r → at_path p (Some v) = r.
Proof.
  revert above v. induction p as [|k p IH]; intros above v; simpl; [by intros [= <-]|].
  destruct (as_object v) as [o|]; [|done]. simpl.
  destruct (o !! k) as [w|]; [by apply IH|]. intros [= <-]. by destruct p.
Qed.
Lemma value_below_some above p v w : at_path p (Some v) = Some w → value_below above p v = Ok (Some w).
Proof.
  revert above v. induction p as [|k p IH]; intros above v; simpl; [by intros [= ->]|].
  destruct (as_object v) as [o|]; [|done]. simpl.
  destruct (o !! k) as [u|]; [apply IH|]. by destruct p.
Qed.
(** A path that can be dropped can be read. *)
Lemma value_below_drop above f p v x :
  drop_node f p (Some v) = Some x → value_below above p v = Ok (at_path p (Some v)).
Proof.
  revert above f v x. induction p as [|k p IH]; intros above f v x; simpl; [done|].
  intros (o & -> & (c & Hc & _)%bind_Some)%bind_Some. simpl.
  destruct (o !! k) as [w|]; [by eapply IH|]. by destruct p.
Qed.
Lemma drop_again f g p n x : drop_node f p n = Some x → ∃ y, drop_node g p x = Some y.
Proof.
  revert f g n x. induction p as [|k p IH]; intros f g n x; simpl; [by eexists|].
  destruct n as [v|]; [|intros [= <-]; by eexists].
  intros (o & _ & (c & Hc & [= <-])%bind_Some)%bind_Some.
  case_bool_decide; [by eexists|]. simpl. rewrite lookup_set_child.
  destruct (IH _ (Nat.pred g) _ _ Hc) as [y ->]. by eexists.
Qed.
Lemma drop_take f g d p n x : drop_node f p n = Some x → ∃ y, drop_node g (take d p) n = Some y.
Proof.
  revert f g d n x. induction p as [|k p IH]; intros f g d n x.
  - rewrite take_nil. by eexists.
  - destruct d as [|d]; [by eexists|]. simpl. destruct n as [v|]; [|by eexists].
    intros (o & -> & (c & Hc & _)%bind_Some)%bind_Some. simpl.
    destruct (IH _ (Nat.pred g) d _ _ Hc) as [y ->]. by eexists.
Qed.

Lemma set_below_put above p v o :
  p ≠ [] →
  match put_node p v (Some (JObject o)) with
  | Some w => ∃ o', w = JObject o' ∧ set_below above p v o = Ok o'
  | None => ∃ e, set_below above p v o = Err e
  end.
Proof.
  revert above o. induction p as [|k p IH]; intros above o Hp; [done|]. simpl.
  case_bool_decide as Hn; [subst p; simpl; by eexists|].
  destruct (o !! k) as [w|] eqn:Hk.
  - destruct (as_object w) as [next|] eqn:Hw.
    + apply as_object_Some in Hw as ->. specialize (IH (above ++ [k]) next Hn).
      destruct (put_node p v _) as [u|]; simpl.
      * destruct IH as (o' & -> & ->). by eexists.
      * destruct IH as [e ->]. by eexists.
    + destruct p as [|k' p]; [done|]. simpl. rewrite Hw. simpl. by eexists.
  - specialize (IH (above ++ [k]) ∅ Hn).
    assert (put_node p v (Some (JObject ∅)) = put_node p v None) as <- by by destruct p.
    destruct (put_node p v _) as [u|]; simpl.
    + destruct IH as (o' & -> & ->). by eexists.
    + destruct IH as [e ->]. by eexists.
Qed.
Lemma delete_below_drop above p o :
  p ≠ [] →
  match drop_node (length p) p (Some (JObject o)) with
  | Some x => ∃ o', x = Some (JObject o') ∧ delete_below above p o = Ok o'
  | None => ∃ e, delete_below above p o = Err e
  end.
Proof.
  revert above o. induction p as [|k p IH]; intros above o Hp; [done|]. simpl.
  case_bool_decide as Hn; [subst p; simpl; rewrite bool_decide_false by lia; by eexists|].
  destruct (o !! k) as [w|] eqn:Hk.
  - destruct (as_object w) as [next|] eqn:Hw.
    + apply as_object_Some in Hw as ->. specialize (IH (above ++ [k]) next Hn).
      destruct (drop_node _ p _) as [u|]; simpl.
      * destruct IH as (o' & -> & ->). rewrite bool_decide_false by lia. by eexists.
      * destruct IH as [e ->]. by eexists.
    + destruct p as [|k' p]; [done|]. simpl. rewrite Hw. simpl. by eexists.
  - destruct p as [|k' p]; [done|]. simpl. rewrite bool_decide_false by lia.
    rewrite set_child_same by done. by eexists.
Qed.
(** The root is not pruned. *)
Lemma drop_root f p o x :
  p ≠ [] → 0 < f → drop_node f p (Some (JObject o)) = Some x → ∃ o', x = Some (JObject o').
Proof.
  intros Hp Hf. destruct p as [|k p]; [done|]. simpl.
  intros (c & _ & [= <-])%bind_Some. rewrite bool_decide_false by lia. by eexists.
Qed.

(** Above a value there are objects with something in them. *)
Lemma value_below_prefix above above' p v w d :
  d < length p → value_below above p v = Ok (Some w) →
  ∃ o, value_below above' (take d p) v = Ok (Some (JObject o)) ∧ o ≠ ∅.
Proof.
  revert above above' p v. induction d as [|d IH]; intros above above' [|k p] v Hd; simpl in *; try lia.
  - destruct (as_object v) as [o|] eqn:Hv; [|done]. apply as_object_Some in Hv as ->.
    destruct (o !! k) as [u|] eqn:Hk; [|done]. intros _. exists o. split; [done|]. intros ->.
    by rewrite lookup_empty in Hk.
  - destruct (as_object v) as [o|]; [|done]. destruct (o !! k) as [u|]; [|done].
    apply IH. lia.
Qed.
Lemma pruneLoop_snoc o p ds d :
  d < length p → Forall (lt d) ds →
  pruneLoop o p (ds ++ [d]) = (r ← pruneLoop o p ds; pruneLoop r p [d]).
Proof.
  intros Hd Hds. revert o. induction Hds as [|e ds He Hds IH]; intros o; [done|].
  change ((e :: ds) ++ [d]) with (e :: (ds ++ [d])). cbn [pruneLoop].
  destruct (managedValueAt o (take e p)) as [[w|]|e'] eqn:Hw; [|apply IH|done]. simpl.
  assert (pruneLoop o p [d] = Ok o) as Hstop.
  { cbn [pruneLoop]. unfold managedValueAt in *. change (object_of o) with o in *.
    destruct (value_below_prefix [] [] (take e p) (JObject o) w d) as (u & Hu & Hne);
      [rewrite length_take; lia|done|].
    rewrite take_take, Nat.min_l in Hu by lia. rewrite Hu. simpl. by rewrite bool_decide_true. }
  destruct (as_object w) as [u|]; [|done]. case_bool_decide; [done|].
  destruct (deleteManagedValue o (take e p)); [apply IH|done].
Qed.

Lemma deleteManagedValue_drop p (o o' : object) :
  p ≠ [] → deleteManagedValue o p = Ok o' ↔
  drop_node (length p) p (Some (JObject o)) = Some (Some (JObject o')).
Proof.
  intros Hp. unfold deleteManagedValue. pose proof (delete_below_drop [] p o Hp) as Hd.
  simpl. destruct (drop_node _ _ _) as [x|].
  - destruct Hd as (o1 & -> & ->). simpl. split; congruence.
  - destruct Hd as [e ->]. done.
Qed.
Lemma pruneLoop_drop n f p o x :
  p ≠ [] → 0 < f → f + n = length p → drop_node (length p) p (Some (JObject o)) = Some (Some (JObject x)) →
  ∃ y, pruneLoop x p (reverse (seq f n)) = Ok y ∧ drop_node f p (Some (JObject o)) = Some (Some (JObject y)).
Proof.
  intros Hp. revert f. induction n as [|n IH]; intros f Hf Hn Hx.
  - assert (f = length p) as -> by lia. by eexists.
  - destruct (IH (S f)) as (y & Hy & Hd); [lia..|done|]. simpl. rewrite reverse_cons, pruneLoop_snoc, Hy; cycle 1.
    { lia. } { apply Forall_forall. intros e. rewrite elem_of_reverse, elem_of_seq. lia. }
    simpl. rewrite (drop_node_prune f p _ _ ltac:(lia) Hd).
    destruct (drop_again _ (length p) _ _ _ Hd) as [z Hz].
    destruct (drop_take _ f f _ _ _ Hz) as [z' Hz'].
    unfold managedValueAt. change (object_of y) with y. rewrite (value_below_drop [] _ _ _ _ Hz').
    simpl.
    assert (take f p ≠ []) as Ht by (destruct p, f; simpl in *; done || lia).
    assert (length (take f p) = f) as Hl by (rewrite length_take; lia).
    destruct (at_path (take f p) (Some (JObject y))) as [w|] eqn:Ew; [|rewrite bool_decide_false by done; by eexists].
    destruct (as_object w) as [u|] eqn:Hu.
    + apply as_object_Some in Hu as ->. case_bool_decide as Hne.
      * rewrite bool_decide_false by congruence. by eexists.
      * subst u. rewrite bool_decide_true by done.
        destruct (drop_root _ _ _ _ Ht Hf Hz') as [y' ->].
        assert (deleteManagedValue y (take f p) = Ok y') as -> by (apply deleteManagedValue_drop; congruence).
        by eexists.
    + rewrite bool_decide_false by (intros [= ->]; done). by eexists.
Qed.

Lemma setManagedValue_put p v (o o' : object) :
  setManagedValue o p v = Ok o' ↔ p ≠ [] ∧ put_node p v (Some (JObject o)) = Some (JObject o').
Proof.
  unfold setManagedValue. destruct (decide (p = [])) as [->|Hp]; [simpl; naive_solver|].
  pose proof (set_below_put [] p v o Hp) as Hd. simpl. destruct (put_node _ _ _) as [x|].
  - destruct Hd as (o1 & -> & ->). simpl. naive_solver.
  - destruct Hd as [e ->]. naive_solver.
Qed.
Lemma managedValueAt_at p (o : object) r : managedValueAt o p = Ok r → at_path p (Some (JObject o)) = r.
Proof. apply value_below_at. Qed.
End Refine.

(** What the code's baseline restores, seen from a node. *)
Definition restore_node (b : valueBaseline) (p : list string) (n : node) : option node :=
  if vb_Exists b then Some <$> put_node p (vb_Value b) n
  else drop_node (Z.to_nat (vb_FirstMissingPrefix b)) p n.
(** A baseline that [validateManagedValueState] accepts for a path. *)
Definition valid_baseline (b : valueBaseline) (p : list string) : Prop :=
  if vb_Exists b then vb_FirstMissingPrefix b = 0%Z
  else (1 ≤ vb_FirstMissingPrefix b ≤ Z.of_nat (length p))%Z.

Lemma restoreManagedBaseline_node b p (o o' : object) :
  p ≠ [] → valid_baseline b p →
  restoreManagedBaseline o p b = Ok o' ↔
  restore_node b p (Some (JObject o)) = Some (Some (JObject o')).
Proof.
  intros Hp. unfold valid_baseline, restoreManagedBaseline, restore_node. destruct (vb_Exists b) eqn:Hb.
  - intros _. rewrite setManagedValue_put. destruct (put_node _ _ _); simpl; naive_solver.
  - intros Hf. set (f := Z.to_nat _). assert (0 < f ∧ f ≤ length p) as [Hf1 Hf2] by lia.
    rewrite result_bind_Ok. split.
    + intros (x & Hx & Hl). apply deleteManagedValue_drop in Hx; [|done].
      destruct (pruneLoop_drop (length p - f) f p o x) as (y & Hy & Hd); [done|lia..|done|]. congruence.
    + intros Hd. destruct (drop_node_defined _ (length p) _ _ _ Hd) as [x Hx].
      destruct (drop_root (length p) p o x) as [o1 ->]; [done|lia|done|].
      exists o1. split; [by apply deleteManagedValue_drop|].
      destruct (pruneLoop_drop (length p - f) f p o o1) as (y & Hy & Hd'); [done|lia..|done|]. congruence.
Qed.
Lemma restore_root b p (o : object) x :
  p ≠ [] → valid_baseline b p → restore_node b p (Some (JObject o)) = Some x → ∃ o', x = Some (JObject o').
Proof.
  intros Hp. unfold valid_baseline, restore_node. destruct (vb_Exists b).
  - intros _ (w & Hw & ->)%fmap_Some. destruct p as [|k p]; [done|]. simpl in Hw.
    apply bind_Some in Hw as (c & _ & [= <-]). by eexists.
  - intros Hf. apply drop_root; [done|lia].
Qed.
Lemma restore_put b p q v n x y :
  diverge p q → restore_node b p n = Some x → put_node q v n = Some y →
  ∃ z, restore_node b p (Some y) = Some (Some z) ∧ put_node q v x = Some z.
Proof.
  unfold restore_node. destruct (vb_Exists b).
  - intros Hd (w & Hw & ->)%fmap_Some Hy. destruct (put_put _ _ _ _ _ _ _ Hd Hw Hy) as (z & -> & ->).
    by eexists.
  - apply drop_put.
Qed.
Lemma restore_other b p q n x :
  diverge p q → restore_node b p n = Some x → at_path q x = at_path q n.
Proof.
  unfold restore_node. destruct (vb_Exists b).
  - intros Hd (w & Hw & ->)%fmap_Some. by eapply put_node_other.
  - apply drop_node_other.
Qed.

(** ** Captured baselines *)
Lemma capture_below_Ok above p v b :
  capture_below above p v = Ok b →
  match missing p (Some v) with
  | None => ∃ w, at_path p (Some v) = Some w ∧ b = {| vb_Exists := true; vb_Value := w; vb_FirstMissingPrefix := 0 |}
  | Some f => b = {| vb_Exists := false; vb_Value := JNull;
                     vb_FirstMissingPrefix := Z.of_nat (length above + f) |} ∧ 1 ≤ f ≤ length p
  end.
Proof.
  revert above v. induction p as [|k p IH]; intros above v; [intros [= <-]; by eexists|].
  cbn [capture_below missing at_path]. simpl. destruct (as_object v) as [o|]; [|done]. simpl.
  destruct (o !! k) as [w|]; simpl.
  - intros Hc. specialize (IH _ _ Hc). destruct (missing p (Some w)) as [f|]; simpl; [|done].
    destruct IH as [-> ?]. rewrite length_app. simpl. split; [|lia]. do 2 f_equal; lia.
  - intros [= <-]. destruct p; simpl; (split; [f_equal; lia|lia]).
Qed.
Lemma captureManagedBaseline_valid (o : object) p b : captureManagedBaseline o p = Ok b → valid_baseline b p.
Proof.
  intros Hc. apply capture_below_Ok in Hc. unfold valid_baseline.
  destruct (missing _ _); [|by destruct Hc as (w & _ & ->)]. destruct Hc as [-> ?]. simpl. lia.
Qed.
(** Restoring a captured baseline takes the write back. *)
Lemma captureManagedBaseline_back (o : object) p b v x :
  captureManagedBaseline o p = Ok b → put_node p v (Some (JObject o)) = Some x →
  restore_node b p (Some x) = Some (Some (JObject o)).
Proof.
  intros Hc Hx. apply capture_below_Ok in Hc. unfold restore_node. simpl in Hc.
  change (object_of o) with o in Hc.
  destruct (missing _ _) as [f|] eqn:Hm.
  - destruct Hc as [-> Hf]. simpl. rewrite Nat2Z.id. by eapply drop_back.
  - destruct Hc as (w & Hw & ->). simpl. by rewrite (put_back _ _ _ _ _ Hw Hx).
Qed.
Lemma put_node_absent p v : ∃ x, put_node p v None = Some x.
Proof. induction p as [|k p [x Hx]]; simpl; [by eexists|]. rewrite lookup_empty, Hx. by eexists. Qed.
Lemma capture_below_put above p u v b : capture_below above p u = Ok b → ∃ x, put_node p v (Some u) = Some x.
Proof.
  revert above u. induction p as [|k p IH]; intros above u; simpl; [by eexists|].
  destruct (as_object u) as [o|]; [|done]. simpl. destruct (o !! k) as [w|].
  - intros Hc. destruct (IH _ _ Hc) as [x ->]. by eexists.
  - intros _. destruct (put_node_absent p v) as [x ->]. by eexists.
Qed.

(** ** What a run applied *)
Definition record_of (leaf : managedLeaf) (b : valueBaseline) : managedValueState :=
  {| mv_Path := ml_Path leaf; mv_Baseline := b; mv_Applied := ml_Value leaf |}.
Fixpoint put_all (values : list managedValueState) (n : node) : option node :=
  match values with
  | [] => Some n
  | r :: values => x ← put_node (mv_Path r) (mv_Applied r) n; put_all values (Some x)
  end.
(** Applying a record to [n] and restoring its baseline is no change. *)
Definition gives_back (n : node) (r : managedValueState) : Prop :=
  mv_Path r ≠ [] ∧ valid_baseline (mv_Baseline r) (mv_Path r) ∧
  ∃ x, put_node (mv_Path r) (mv_Applied r) n = Some x ∧
       restore_node (mv_Baseline r) (mv_Path r) (Some x) = Some n.
(** The settings [t] are [base] with the records applied on top, and the
    records know how to undo it. *)
Definition applied_over (base : object) (values : list managedValueState) (t : object) : Prop :=
  ForallOrdPairs diverge (mv_Path <$> values) ∧
  Forall (gives_back (Some (JObject base))) values ∧
  put_all values (Some (JObject base)) = Some (Some (JObject t)).

Section Applied.
Implicit Types (values : list managedValueState).

Lemma applyLoop_Ok (o : object) desired baselines (o' : object) values :
  length baselines = length desired → applyLoop o desired baselines = Ok (o', values) →
  values = zip_with record_of desired baselines ∧
  put_all values (Some (JObject o)) = Some (Some (JObject o')).
Proof.
  revert baselines o values. induction desired as [|leaf desired IH]; intros [|b bs] o values Hl; try done.
  { by intros [= -> <-]. }
  simpl. intros (o1 & Ho1 & E)%result_bind_Ok.
  apply result_bind_Ok in E as ([o2 vs] & Ho2 & [= -> <-]).
  apply setManagedValue_put in Ho1 as [_ Hput]. apply IH in Ho2 as [-> Hall]; [|by injection Hl].
  split; [done|]. simpl. by rewrite Hput.
Qed.
Lemma put_all_at values o t r :
  ForallOrdPairs diverge (mv_Path <$> values) → r ∈ values → put_all values o = Some t →
  at_path (mv_Path r) t = Some (mv_Applied r).
Proof.
  intros Hd Hr. revert o. induction values as [|r' values IH]; intros o; [by apply not_elem_of_nil in Hr|].
  simpl in *. inversion Hd as [|?? Hhd Htl]; subst. intros (x & Hx & Hall)%bind_Some.
  apply elem_of_cons in Hr as [->|Hr]; [|by eapply IH].
  transitivity (at_path (mv_Path r') (Some x)); [|by eapply put_node_here].
  clear IH Hd Htl Hx. revert x Hall. induction values as [|r'' values IH]; intros x; [by intros [= <-]|].
  simpl in *. apply Forall_cons in Hhd as [? Hhd]. intros (y & Hy & Hall)%bind_Some.
  rewrite (IH Hhd y Hall). eapply put_node_other; [by symmetry|done].
Qed.
(** A write that diverges from every record commutes with applying them. *)
Lemma put_all_put values q v n t y :
  Forall (λ r, diverge (mv_Path r) q) values → put_all values n = Some t → put_node q v n = Some y →
  ∃ z, put_all values (Some y) = Some (Some z) ∧ put_node q v t = Some z.
Proof.
  revert n y. induction values as [|r values IH]; intros n y Hd; simpl.
  { intros [= <-] ->. by eexists. }
  intros (x & Hx & Hall)%bind_Some Hy. apply Forall_cons in Hd as [Hd Hds].
  destruct (put_put _ _ _ _ _ _ _ Hd Hx Hy) as (z & -> & Hz). simpl. by eapply IH.
Qed.
Lemma put_all_restore values b q n t x :
  Forall (λ r, diverge q (mv_Path r)) values → put_all values n = Some t → restore_node b q n = Some x →
  ∃ z, restore_node b q t = Some z ∧ put_all values x = Some z.
Proof.
  revert n x. induction values as [|r values IH]; intros n x Hd; simpl.
  { intros [= <-] ->. by eexists. }
  intros (y & Hy & Hall)%bind_Some Hx. apply Forall_cons in Hd as [Hd Hds].
  destruct (restore_put _ _ _ _ _ _ _ Hd Hx Hy) as (z & Hz & ->). simpl. by eapply IH.
Qed.
Lemma put_all_object values (o : object) t :
  Forall (λ r, mv_Path r ≠ []) values → put_all values (Some (JObject o)) = Some t → ∃ o', t = Some (JObject o').
Proof.
  revert o. induction values as [|r values IH]; intros o Hne; simpl; [intros [= <-]; by eexists|].
  apply Forall_cons in Hne as [Hp Hne]. intros (x & Hx & Hall)%bind_Some.
  destruct (mv_Path r) as [|k p]; [done|]. simpl in Hx. apply bind_Some in Hx as (c & _ & [= <-]). by eapply IH.
Qed.

(** Restoring everything that was applied gives the settings below back,
    whatever is desired next. *)
Lemma restorePrevious_applied base values t desired :
  applied_over base values t → restorePreviousManagedValues t values desired = Ok base.
Proof.
  intros (Hd & Hg & Hall). revert t Hall. induction values as [|r values IH]; intros t; simpl.
  { by intros [= <-]. }
  intros Hall. pose proof (put_all_at (r :: values) _ _ r Hd ltac:(by left) Hall) as Hat. simpl in *.
  inversion Hd as [|?? Hhd Htl]; subst. apply Forall_cons in Hg as [(Hp & Hv & x & Hx & Hr) Hg].
  rewrite Hx in Hall. simpl in Hall.
  destruct (put_all_restore values (mv_Baseline r) (mv_Path r) (Some x) (Some (JObject t)) (Some (JObject base)))
    as (z & Hz & Hall'); [exact (proj1 (Forall_fmap _ _ _) Hhd)|done..|].
  destruct (restore_root _ _ _ _ Hp Hv Hz) as [t' ->].
  unfold managedValueAt. change (object_of t) with t. rewrite (value_below_some _ _ _ _ Hat). simpl.
  rewrite (bool_decide_true (Some _ = Some _)), andb_false_r by done.
  apply restoreManagedBaseline_node in Hz; [|done..]. rewrite Hz. simpl. by apply IH.
Qed.
End Applied.

(** ** Installing into settings no installer manages *)
Definition unmanaged : managedState := {| ms_Version := managedStateVersion; ms_Values := [] |}.

Lemma managedBaselines_length (o : object) desired previous bs :
  managedBaselinesForDesired o desired previous = Ok bs → length bs = length desired.
Proof.
  revert bs. induction desired as [|leaf desired IH]; intros bs; simpl; [by intros [= <-]|].
  intros E. result_inv E. simpl. f_equal. by apply IH.
Qed.
Lemma applyDesired_Ok (o o' : object) desired previous st :
  applyDesiredManagedValues o desired previous = Ok (o', st) →
  ∃ bs, managedBaselinesForDesired o desired previous = Ok bs ∧ length bs = length desired ∧
        ms_Version st = managedStateVersion ∧ ms_Values st = zip_with record_of desired bs ∧
        put_all (ms_Values st) (Some (JObject o)) = Some (Some (JObject o')).
Proof.
  unfold applyDesiredManagedValues. intros (bs & Hbs & E)%result_bind_Ok.
  apply result_bind_Ok in E as ([o1 vs] & Hl & [= -> <-]).
  pose proof (managedBaselines_length _ _ _ _ Hbs) as Hlen.
  destruct (applyLoop_Ok _ _ _ _ _ Hlen Hl) as [-> Hall]. by exists bs.
Qed.
Lemma applyDesired_run (o o' : object) desired previous bs :
  managedBaselinesForDesired o desired previous = Ok bs →
  Forall (λ l, ml_Path l ≠ []) desired →
  put_all (zip_with record_of desired bs) (Some (JObject o)) = Some (Some (JObject o')) →
  applyDesiredManagedValues o desired previous =
    Ok (o', {| ms_Version := managedStateVersion; ms_Values := zip_with record_of desired bs |}).
Proof.
  intros Hbs. unfold applyDesiredManagedValues. rewrite Hbs. simpl.
  pose proof (managedBaselines_length _ _ _ _ Hbs) as Hlen. clear Hbs.
  enough (∀ o, Forall (λ l, ml_Path l ≠ []) desired →
    put_all (zip_with record_of desired bs) (Some (JObject o)) = Some (Some (JObject o')) →
    applyLoop o desired bs = Ok (o', zip_with record_of desired bs)) as Hrun
    by (intros Hne Hall; by rewrite (Hrun o Hne Hall)).
  revert bs Hlen. induction desired as [|leaf desired IH]; intros [|b bs] Hlen o1; try done.
  { by intros _ [= <-]. }
  intros Hne Hall. apply Forall_cons in Hne as [Hp Hne]. simpl in *.
  apply bind_Some in Hall as (x & Hx & Hall).
  assert (∃ o2, x = JObject o2) as [o2 ->].
  { destruct (ml_Path leaf) as [|k p]; [done|]. simpl in Hx. apply bind_Some in Hx as (c & _ & [= <-]). by eexists. }
  assert (setManagedValue o1 (ml_Path leaf) (ml_Value leaf) = Ok o2) as -> by by apply setManagedValue_put.
  simpl. rewrite (IH bs) by (done || lia). done.
Qed.
Lemma paths_of_records desired bs :
  length bs = length desired → mv_Path <$> zip_with record_of desired bs = ml_Path <$> desired.
Proof.
  revert bs. induction desired as [|l desired IH]; intros [|b bs] Hl; try done.
  simpl. f_equal. apply IH. by injection Hl.
Qed.

(** A fresh installation is applied over the settings it found, and each
    baseline is the one captured there. *)
Definition captured_on (o : object) (r : managedValueState) : Prop :=
  captureManagedBaseline o (mv_Path r) = Ok (mv_Baseline r).
Lemma managedBaselines_captured (o : object) desired bs :
  managedBaselinesForDesired o desired ∅ = Ok bs → Forall (captured_on o) (zip_with record_of desired bs).
Proof.
  revert bs. induction desired as [|leaf desired IH]; intros bs; simpl; [intros [= <-]; constructor|].
  intros E. result_inv E. constructor; [|by apply IH].
  unfold managedBaselineForLeaf in *. rewrite lookup_empty in *. done.
Qed.
Lemma captured_gives_back (o : object) r :
  mv_Path r ≠ [] → captured_on o r → gives_back (Some (JObject o)) r.
Proof.
  intros Hp Hc. split; [done|]. split; [by eapply captureManagedBaseline_valid|].
  unfold captured_on, captureManagedBaseline in Hc.
  destruct (capture_below_put _ _ _ (mv_Applied r) _ Hc) as [x Hx]. exists x. split; [done|].
  by eapply captureManagedBaseline_back.
Qed.
Lemma reconcile_unmanaged (t o : object) st fragment :
  reconcileManagedValues t unmanaged fragment = Ok (o, st) →
  applied_over t (ms_Values st) o ∧ Forall (captured_on t) (ms_Values st) ∧
  mv_Path <$> ms_Values st = ml_Path <$> flattenManagedObject fragment.
Proof.
  intros (bs & Hbs & Hl & _ & Hv & Hall)%applyDesired_Ok. rewrite Hv in *.
  change (indexManagedValues _) with (∅ : gmap (list string) managedValueState) in Hbs.
  apply managedBaselines_captured in Hbs. pose proof (paths_of_records _ _ Hl) as Hps.
  split; [|done]. split; [|split; [|done]].
  - rewrite Hps, flattenManagedObject_value. apply flatten_diverge.
  - rewrite Forall_forall in Hbs |- *. intros r Hr. apply captured_gives_back; [|by apply Hbs].
    apply (list_elem_of_fmap_2 mv_Path) in Hr. rewrite Hps in Hr.
    apply list_elem_of_fmap in Hr as (l & -> & Hin). by eapply flatten_nonempty.
Qed.

Lemma indexManagedValues_Some values p r :
  indexManagedValues values !! p = Some r → r ∈ values ∧ mv_Path r = p.
Proof.
  unfold indexManagedValues.
  assert (∀ m : gmap (list string) managedValueState, foldl (λ indexed value, <[mv_Path value := value]> indexed) m values !! p = Some r →
    m !! p = Some r ∨ r ∈ values ∧ mv_Path r = p) as Hm; [|intros E; apply Hm in E; by rewrite lookup_empty in E; destruct E].
  induction values as [|v values IH]; intros m; simpl; [by left|].
  intros [E|[? ?]]%IH; [|right; split; [by right|done]].
  apply lookup_insert_Some in E as [[<- <-]|[_ E]]; [right; split; [by left|done]|by left].
Qed.
(** Baselines kept from a previous run are the ones a fresh run captures. *)
Lemma managedBaselines_kept (o : object) desired values :
  Forall (captured_on o) values →
  managedBaselinesForDesired o desired (indexManagedValues values) = managedBaselinesForDesired o desired ∅.
Proof.
  intros Hv. induction desired as [|leaf desired IH]; [done|]. simpl. rewrite IH.
  unfold managedBaselineForLeaf at 1. destruct (indexManagedValues values !! ml_Path leaf) as [r|] eqn:E.
  - apply indexManagedValues_Some in E as [Hr Hp]. rewrite Forall_forall in Hv.
    unfold managedBaselineForLeaf. by rewrite lookup_empty, <- Hp, (Hv r Hr).
  - unfold managedBaselineForLeaf. by rewrite lookup_empty.
Qed.

(** An upgrade is a reinstallation: with nothing changed in between, moving from
    one fragment to another ends, errors included, as installing the other
    fragment into the settings before the first. *)
Lemma upgrade_is_reinstall (t t1 : object) st1 first second :
  reconcileManagedValues t unmanaged first = Ok (t1, st1) →
  reconcileManagedValues t1 st1 second = reconcileManagedValues t unmanaged second.
Proof.
  intros (Hover & Hcap & _)%reconcile_unmanaged. unfold reconcileManagedValues.
  rewrite (restorePrevious_applied _ _ _ _ Hover). simpl.
  unfold applyDesiredManagedValues. by rewrite (managedBaselines_kept _ _ _ Hcap).
Qed.

(** ** Applying leaves *)
Fixpoint put_leaves (leaves : list managedLeaf) (n : node) : option node :=
  match leaves with
  | [] => Some n
  | l :: leaves => x ← put_node (ml_Path l) (ml_Value l) n; put_leaves leaves (Some x)
  end.
Lemma put_all_leaves desired bs n :
  length bs = length desired → put_all (zip_with record_of desired bs) n = put_leaves desired n.
Proof.
  revert bs n. induction desired as [|l desired IH]; intros [|b bs] n Hl; try done.
  simpl. destruct (put_node _ _ _); simpl; [|done]. apply IH. by injection Hl.
Qed.
(** Whether a write is possible does not depend on writes that diverge from it. *)
Lemma put_node_defined p q u v n x y :
  diverge p q → put_node p u n = Some x → put_node q v (Some x) = Some y → ∃ z, put_node q v n = Some z.
Proof.
  revert q n x y. induction p as [|k p IH]; intros [|k' q] n x y; simpl; try done.
  intros Hd (o & -> & (c & Hc & [= <-])%bind_Some)%bind_Some. simpl. intros (c' & Hc' & _)%bind_Some.
  destruct (decide (k = k')) as [<-|Hk].
  - rewrite lookup_insert_eq in Hc'. destruct (IH q (o !! k) c c') as [z ->]; [naive_solver|done..|].
    by eexists.
  - rewrite lookup_insert_ne in Hc' by done. rewrite Hc'. by eexists.
Qed.
Lemma put_all_defined values q v n t y :
  Forall (λ r, diverge (mv_Path r) q) values → put_all values n = Some t → put_node q v t = Some y →
  ∃ z, put_node q v n = Some z.
Proof.
  revert n. induction values as [|r values IH]; intros n Hd; simpl; [intros [= <-] ->; by eexists|].
  intros (x & Hx & Hall)%bind_Some Hy. apply Forall_cons in Hd as [Hd Hds].
  destruct (IH _ Hds Hall Hy) as [z Hz]. by eapply put_node_defined.
Qed.
Lemma put_leaves_each desired l n t :
  ForallOrdPairs diverge (ml_Path <$> desired) → l ∈ desired → put_leaves desired n = Some t →
  ∃ x, put_node (ml_Path l) (ml_Value l) n = Some x.
Proof.
  revert n. induction desired as [|l' desired IH]; intros n Hd Hl; [by apply not_elem_of_nil in Hl|].
  simpl in *. inversion Hd as [|?? Hhd Htl]; subst. intros (x & Hx & Hall)%bind_Some.
  apply elem_of_cons in Hl as [->|Hl]; [by eexists|].
  destruct (IH _ Htl Hl Hall) as [y Hy]. eapply put_node_defined; [|done|done].
  rewrite Forall_forall in Hhd. apply Hhd. by apply list_elem_of_fmap_2.
Qed.
Lemma capture_below_defined above p u v x : put_node p v (Some u) = Some x → ∃ b, capture_below above p u = Ok b.
Proof.
  revert above u x. induction p as [|k p IH]; intros above u x; simpl; [by eexists|].
  destruct (as_object u) as [o|]; [|done]. simpl. intros (c & Hc & _)%bind_Some.
  destruct (o !! k) as [w|]; [by eapply IH|by eexists].
Qed.
(** Applying succeeds exactly when every leaf can be written; the previous
    state only says which baselines are recorded. *)
Lemma applyDesired_iff (o o' : object) desired previous :
  ForallOrdPairs diverge (ml_Path <$> desired) → Forall (λ l, ml_Path l ≠ []) desired →
  (∃ st, applyDesiredManagedValues o desired previous = Ok (o', st)) ↔
  put_leaves desired (Some (JObject o)) = Some (Some (JObject o')).
Proof.
  intros Hd Hne. split.
  - intros (st & (bs & _ & Hl & _ & Hv & Hall)%applyDesired_Ok). by rewrite Hv, put_all_leaves in Hall.
  - intros Hall. assert (∃ bs, managedBaselinesForDesired o desired previous = Ok bs) as [bs Hbs].
    { pose proof (λ l Hl, put_leaves_each desired l _ _ Hd Hl Hall) as Heach. clear Hall Hd Hne.
      induction desired as [|l desired IH]; [by eexists|]. simpl.
      assert (∃ b, managedBaselineForLeaf o l previous = Ok b) as [b ->].
      { unfold managedBaselineForLeaf. destruct (previous !! _); [by eexists|].
        destruct (Heach l) as [x Hx]; [by left|]. by eapply capture_below_defined. }
      destruct IH as [bs ->]; [intros; apply Heach; by right|]. by eexists. }
    eexists. apply (applyDesired_run _ _ _ _ bs); [done..|].
    by rewrite put_all_leaves by by eapply managedBaselines_length.
Qed.
Lemma applyDesired_flatten (o o' : object) fragment previous :
  (∃ st, applyDesiredManagedValues o (flattenManagedObject fragment) previous = Ok (o', st)) ↔
  put_leaves (flattenManagedObject fragment) (Some (JObject o)) = Some (Some (JObject o')).
Proof.
  apply applyDesired_iff.
  - rewrite flattenManagedObject_value. apply flatten_diverge.
  - apply Forall_forall. intros l. apply flatten_nonempty.
Qed.

(** ** The user's own edits *)
Lemma applied_over_edit (base t t' : object) values q v :
  applied_over base values t → Forall (λ r, diverge (mv_Path r) q) values →
  setManagedValue t q v = Ok t' →
  ∃ base', setManagedValue base q v = Ok base' ∧ applied_over base' values t'.
Proof.
  intros (Hd & Hg & Hall) Hq [Hne Ht]%setManagedValue_put.
  destruct (put_all_defined _ _ _ _ _ _ Hq Hall Ht) as [y Hy].
  assert (∃ base', y = JObject base') as [base' ->].
  { destruct q as [|k q]; [done|]. simpl in Hy. apply bind_Some in Hy as (c & _ & [= <-]). by eexists. }
  exists base'. split; [by apply setManagedValue_put|]. split; [done|]. split.
  - rewrite Forall_forall in Hg, Hq |- *. intros r Hr. specialize (Hq r Hr). simpl in Hq.
    destruct (Hg r Hr) as (Hp & Hv & x & Hx & Hb). split; [done|]. split; [done|].
    destruct (put_put _ _ _ _ _ _ _ Hq Hx Hy) as (z & Hz & Hz'). exists z. split; [done|].
    destruct (restore_put _ _ _ _ _ _ _ Hq Hb Hz') as (z1 & -> & Hz1). congruence.
  - destruct (put_all_put _ _ _ _ _ _ Hq Hall Hy) as (z & -> & Hz). congruence.
Qed.
Lemma upgrade_keeps_edits_lemma (t t1 t2 : object) st1 first q v :
  reconcileManagedValues t unmanaged first = Ok (t1, st1) →
  Forall (λ l, diverge (ml_Path l) q) (flattenManagedObject first) →
  setManagedValue t1 q v = Ok t2 →
  ∃ t', setManagedValue t q v = Ok t' ∧ ∀ second t3,
    (∃ st, reconcileManagedValues t2 st1 second = Ok (t3, st)) ↔
    (∃ st, reconcileManagedValues t' unmanaged second = Ok (t3, st)).
Proof.
  intros (Hover & _ & Hps)%reconcile_unmanaged Hq Ht2.
  assert (Forall (λ r, diverge (mv_Path r) q) (ms_Values st1)) as Hq'.
  { apply (Forall_fmap mv_Path (λ p, diverge p q) (ms_Values st1)). rewrite Hps. by apply Forall_fmap. }
  destruct (applied_over_edit _ _ _ _ _ _ Hover Hq' Ht2) as (t' & Ht' & Hover').
  exists t'. split; [done|]. intros second t3. unfold reconcileManagedValues.
  rewrite (restorePrevious_applied _ _ _ _ Hover'). simpl. by rewrite !applyDesired_flatten.
Qed.

(** ** Any managed state *)
Definition wf_state (values : list managedValueState) : Prop :=
  ForallOrdPairs diverge (mv_Path <$> values) ∧
  Forall (λ r, mv_Path r ≠ [] ∧ valid_baseline (mv_Baseline r) (mv_Path r)) values.

Lemma diverge_irrefl p : ¬ diverge p p.
Proof. induction p; simpl; naive_solver. Qed.
Lemma diverge_NoDup ps : ForallOrdPairs diverge ps → NoDup ps.
Proof.
  induction 1 as [|p ps Hp _ IH]; constructor; [|done]. intros Hin.
  rewrite Forall_forall in Hp. by apply (diverge_irrefl p), Hp.
Qed.
Lemma validateLoop_Ok values seen :
  validateLoop values seen = Ok () ↔
  Forall (λ r, mv_Path r ≠ [] ∧ mv_Path r ∉ seen ∧ valid_baseline (mv_Baseline r) (mv_Path r)) values ∧
  NoDup (mv_Path <$> values).
Proof.
  revert seen. induction values as [|r values IH]; intros seen; simpl; [split; [by repeat constructor|done]|].
  rewrite Forall_cons, NoDup_cons. unfold validateManagedValueState, valid_baseline at 1.
  case_bool_decide as Hp; [naive_solver|]. case_bool_decide as Hs; [naive_solver|].
  transitivity ((valid_baseline (mv_Baseline r) (mv_Path r)) ∧ validateLoop values ({[mv_Path r]} ∪ seen) = Ok ()).
  - unfold valid_baseline. destruct (vb_Exists (mv_Baseline r)).
    + case_bool_decide; simpl; naive_solver.
    + do 2 case_bool_decide; simpl; split; (intros [??] || idtac); try (done || lia).
      all: intros ?; split; [lia|done].
  - rewrite IH. unfold valid_baseline at 1.
    assert (Forall (λ r0, mv_Path r0 ≠ [] ∧ mv_Path r0 ∉ {[mv_Path r]} ∪ seen ∧
                valid_baseline (mv_Baseline r0) (mv_Path r0)) values ↔
      Forall (λ r0, mv_Path r0 ≠ [] ∧ mv_Path r0 ∉ seen ∧ valid_baseline (mv_Baseline r0) (mv_Path r0)) values ∧
      mv_Path r ∉ mv_Path <$> values) as ->; [|unfold valid_baseline; tauto].
    rewrite !Forall_forall, list_elem_of_fmap. setoid_rewrite not_elem_of_union.
    setoid_rewrite not_elem_of_singleton. clear. split.
    + intros Hall. split; [naive_solver|]. intros (y & Hy & Hin). naive_solver.
    + intros [Hall Hn] x Hx. naive_solver.
Qed.
(** What an installer wrote is accepted when it is read back. *)
Lemma wf_state_valid st : wf_state (ms_Values st) → validateManagedState st = Ok ().
Proof.
  intros [Hd Hv]. unfold validateManagedState. apply validateLoop_Ok. split; [|by apply diverge_NoDup].
  apply (Forall_impl _ _ _ Hv). intros r [? ?]. split_and!; [done|set_solver|done].
Qed.

Lemma restorePrevious_spec (t t' : object) values desired :
  wf_state values → restorePreviousManagedValues t values desired = Ok t' →
  Forall (λ r, mv_Path r ∈ desired → at_path (mv_Path r) (Some (JObject t)) = Some (mv_Applied r)) values ∧
  ∀ q, Forall (λ r, diverge (mv_Path r) q ∨ at_path (mv_Path r) (Some (JObject t)) ≠ Some (mv_Applied r)) values →
       at_path q (Some (JObject t')) = at_path q (Some (JObject t)).
Proof.
  revert t. induction values as [|r values IH]; intros t [Hd Hv]; simpl.
  { intros [= <-]. by split. }
  inversion Hd as [|?? Hhd Htl]; subst. apply Forall_cons in Hv as [[Hp Hv] Hvs].
  intros (c & Hc%managedValueAt_at & E)%result_bind_Ok.
  destruct (_ && negb _) eqn:Hrefuse; [done|]. apply result_bind_Ok in E as (t1 & Ht1 & E).
  destruct (IH t1 (conj Htl Hvs) E) as [Hown Hother].
  assert (∀ q, diverge (mv_Path r) q ∨ c ≠ Some (mv_Applied r) →
    at_path q (Some (JObject t1)) = at_path q (Some (JObject t))) as Hstep.
  { intros q Hq. case_bool_decide as Hun; [|by injection Ht1 as ->].
    destruct Hq as [Hq|]; [|done]. apply restoreManagedBaseline_node in Ht1; [|done..].
    by apply (restore_other _ _ q _ _ Hq) in Ht1. }
  assert (∀ r', r' ∈ values → at_path (mv_Path r') (Some (JObject t1)) = at_path (mv_Path r') (Some (JObject t))) as Hsame.
  { intros r' Hr'. apply Hstep. left. rewrite Forall_forall in Hhd. apply Hhd. by apply list_elem_of_fmap_2. }
  split.
  - constructor.
    + intros Hin. rewrite Hc. rewrite (bool_decide_true _ Hin) in Hrefuse. simpl in Hrefuse. by bool_simp.
    + rewrite Forall_forall in Hown |- *. intros r' Hr' Hin. rewrite <- Hsame by done. by apply Hown.
  - intros q [Hq Hqs]%Forall_cons. rewrite Hother; [by apply Hstep; rewrite <- Hc|].
    rewrite Forall_forall in Hqs |- *. intros r' Hr'. rewrite (Hsame r' Hr'). by apply Hqs.
Qed.
Lemma put_leaves_other leaves q n t :
  Forall (λ l, diverge (ml_Path l) q) leaves → put_leaves leaves n = Some t → at_path q t = at_path q n.
Proof.
  revert n. induction leaves as [|l leaves IH]; intros n Hd; simpl; [by intros [= <-]|].
  apply Forall_cons in Hd as [Hd Hds]. intros (x & Hx & Hall)%bind_Some.
  rewrite (IH _ Hds Hall). by eapply put_node_other.
Qed.
Lemma put_leaves_at leaves l n t :
  ForallOrdPairs diverge (ml_Path <$> leaves) → l ∈ leaves → put_leaves leaves n = Some t →
  at_path (ml_Path l) t = Some (ml_Value l).
Proof.
  revert n. induction leaves as [|l' leaves IH]; intros n Hd Hl; [by apply not_elem_of_nil in Hl|].
  simpl in *. inversion Hd as [|?? Hhd Htl]; subst. intros (x & Hx & Hall)%bind_Some.
  apply elem_of_cons in Hl as [->|Hl]; [|by eapply IH].
  transitivity (at_path (ml_Path l') (Some x)); [|by eapply put_node_here].
  eapply put_leaves_other; [|done]. apply (Forall_fmap ml_Path (λ p, diverge p (ml_Path l'))). eapply Forall_impl; [exact Hhd|]. by intros p ?.
Qed.

Lemma managedBaselines_valid (o : object) desired values bs :
  Forall (λ r, valid_baseline (mv_Baseline r) (mv_Path r)) values →
  managedBaselinesForDesired o desired (indexManagedValues values) = Ok bs →
  Forall (λ r, valid_baseline (mv_Baseline r) (mv_Path r)) (zip_with record_of desired bs).
Proof.
  intros Hv. revert bs. induction desired as [|leaf desired IH]; intros bs; simpl; [intros [= <-]; constructor|].
  intros E. result_inv E. constructor; [|by apply IH]. simpl. unfold managedBaselineForLeaf in *.
  destruct (indexManagedValues values !! ml_Path leaf) as [r|] eqn:Hi.
  - apply indexManagedValues_Some in Hi as [Hr <-]. simplify_eq. rewrite Forall_forall in Hv. by apply Hv.
  - by eapply captureManagedBaseline_valid.
Qed.
Lemma reconcile_spec_lemma (t t' : object) previous next fragment :
  wf_state (ms_Values previous) → reconcileManagedValues t previous fragment = Ok (t', next) →
  let desired := flattenManagedObject fragment in
  (* nothing the user changed is overwritten *)
  Forall (λ r, mv_Path r ∈ ml_Path <$> desired → at_path (mv_Path r) (Some (JObject t)) = Some (mv_Applied r))
    (ms_Values previous) ∧
  (* every leaf of the fragment is in force and recorded *)
  Forall (λ l, at_path (ml_Path l) (Some (JObject t')) = Some (ml_Value l)) desired ∧
  (λ r, (mv_Path r, mv_Applied r)) <$> ms_Values next = (λ l, (ml_Path l, ml_Value l)) <$> desired ∧
  (* everything else is as it was *)
  (∀ q, Forall (λ l, diverge (ml_Path l) q) desired →
        Forall (λ r, diverge (mv_Path r) q ∨ at_path (mv_Path r) (Some (JObject t)) ≠ Some (mv_Applied r))
          (ms_Values previous) →
        at_path q (Some (JObject t')) = at_path q (Some (JObject t))) ∧
  wf_state (ms_Values next) ∧ validateManagedState next = Ok ().
Proof.
  intros Hwf (t1 & Ht1 & E)%result_bind_Ok desired.
  destruct (restorePrevious_spec _ _ _ _ Hwf Ht1) as [Hown Hother].
  apply applyDesired_Ok in E as (bs & Hbs & Hl & _ & Hv & Hall). rewrite Hv in Hall.
  rewrite put_all_leaves in Hall by done. fold desired in Hbs, Hl, Hv, Hall.
  assert (ForallOrdPairs diverge (ml_Path <$> desired)) as Hd
    by (unfold desired; rewrite flattenManagedObject_value; apply flatten_diverge).
  assert (wf_state (ms_Values next)) as Hnext.
  { rewrite Hv. split; [by rewrite paths_of_records|]. apply Forall_and. split.
    - apply (Forall_fmap mv_Path (λ p, p ≠ [])). rewrite paths_of_records by done. apply Forall_fmap.
      apply Forall_forall. intros l. apply flatten_nonempty.
    - eapply managedBaselines_valid; [|exact Hbs]. eapply Forall_impl; [apply Hwf|]. by intros r [_ ?]. }
  split; [done|]. split.
  { apply Forall_forall. intros l Hin. by eapply put_leaves_at. }
  split.
  { rewrite Hv. clear -Hl. revert bs Hl. induction desired as [|l desired IH]; intros [|b bs] Hl; try done.
    simpl. f_equal. apply IH. by injection Hl. }
  split; [|split; [done|by apply wf_state_valid]].
  intros q Hq Hq'. rewrite (put_leaves_other _ _ _ _ Hq Hall). by apply Hother.
Qed.

(** ** Reconciling again *)

(** Restoring a value in force and applying it again is no change, whatever the
    baseline. *)
Lemma drop_redo f p u v :
  at_path p (Some u) = Some v → ∃ x, drop_node f p (Some u) = Some x ∧ put_node p v x = Some u.
Proof.
  revert f u. induction p as [|k p IH]; intros f u; simpl; [intros [= ->]; by eexists|].
  intros (o & Ho & Hp)%bind_Some. rewrite Ho. simpl.
  apply as_object_Some in Ho as ->. destruct (o !! k) as [w|] eqn:Hk; [|by destruct p].
  destruct (IH (Nat.pred f) w Hp) as (c & -> & Hput). simpl. eexists. split; [done|].
  assert (node_object (if bool_decide (set_child k c o = ∅ ∧ f = 0) then None
                       else Some (JObject (set_child k c o))) = Some (set_child k c o)) as ->.
  { case_bool_decide as E; [|done]. by destruct E as [-> _]. }
  simpl. rewrite lookup_set_child, Hput. simpl. do 2 f_equal.
  rewrite <- set_child_Some, set_child_twice. by apply set_child_same.
Qed.
Lemma put_twice p v w n x : put_node p w n = Some x → put_node p v (Some x) = put_node p v n.
Proof.
  revert n x. induction p as [|k p IH]; intros n x; simpl; [done|].
  intros (o & -> & (c & Hc & [= <-])%bind_Some)%bind_Some. simpl.
  rewrite lookup_insert_eq, (IH _ _ Hc). destruct (put_node p v (o !! k)); simpl; [|done].
  by rewrite insert_insert_eq.
Qed.
Lemma put_here p u v : at_path p (Some u) = Some v → put_node p v (Some u) = Some u.
Proof.
  intros Hp. destruct (drop_redo 0 p u v Hp) as (x & _ & Hx). by rewrite (put_twice _ _ _ _ _ Hx).
Qed.
Lemma at_path_put p u v w : at_path p (Some u) = Some v → ∃ x, put_node p w (Some u) = Some x.
Proof.
  revert u. induction p as [|k p IH]; intros u; simpl; [by eexists|].
  intros (o & Ho & Hp)%bind_Some. rewrite Ho. simpl.
  destruct (o !! k) as [c|]; [|by destruct p]. destruct (IH c Hp) as [x ->]. by eexists.
Qed.
Lemma restore_redo b p u v :
  at_path p (Some u) = Some v → ∃ x, restore_node b p (Some u) = Some x ∧ put_node p v x = Some u.
Proof.
  intros Hp. unfold restore_node. destruct (vb_Exists b); [|by apply drop_redo].
  destruct (at_path_put p u v (vb_Value b) Hp) as [x Hx]. exists (Some x). rewrite Hx. split; [done|].
  rewrite (put_twice _ _ _ _ _ Hx). by apply put_here.
Qed.
Lemma restorePrevious_redo values (o : object) desired :
  wf_state values →
  Forall (λ r, at_path (mv_Path r) (Some (JObject o)) = Some (mv_Applied r)) values →
  ∃ o', restorePreviousManagedValues o values desired = Ok o' ∧
        put_all values (Some (JObject o')) = Some (Some (JObject o)).
Proof.
  revert o. induction values as [|r values IH]; intros o [Hd Hv] Ha; [by exists o|]. simpl.
  inversion Hd as [|?? Hhd Htl]; subst. apply Forall_cons in Hv as [[Hp Hv] Hvs]. apply Forall_cons in Ha as [Ha Has].
  apply (Forall_fmap mv_Path (diverge (mv_Path r)) values) in Hhd.
  unfold managedValueAt. change (object_of o) with o. rewrite (value_below_some _ _ _ _ Ha). simpl.
  rewrite (bool_decide_true (Some _ = Some _)), andb_false_r by done.
  destruct (restore_redo (mv_Baseline r) _ _ _ Ha) as (x & Hx & Hput).
  destruct (restore_root _ _ _ _ Hp Hv Hx) as [o1 ->].
  assert (restoreManagedBaseline o (mv_Path r) (mv_Baseline r) = Ok o1) as ->
    by by apply restoreManagedBaseline_node.
  destruct (IH o1) as (o2 & Ho2 & Hall); [done| |].
  { rewrite Forall_forall in Has, Hhd |- *. intros r' Hr'. rewrite <- (Has r' Hr').
    apply (restore_other _ _ _ _ _ (Hhd r' Hr') Hx). }
  exists o2. split; [done|].
  assert (Forall (λ r', diverge (mv_Path r') (mv_Path r)) values) as Hsym
    by (eapply Forall_impl; [exact Hhd|]; by intros r' ?).
  destruct (put_all_defined _ _ (mv_Applied r) _ _ (JObject o) Hsym Hall Hput) as [y Hy]. rewrite Hy. simpl.
  destruct (put_all_put _ _ _ _ _ _ Hsym Hall Hy) as (z & Hz & Hz'). congruence.
Qed.
Lemma indexManagedValues_lookup values r :
  NoDup (mv_Path <$> values) → r ∈ values → indexManagedValues values !! mv_Path r = Some r.
Proof.
  intros Hnd Hr. unfold indexManagedValues.
  assert (∀ m : gmap (list string) managedValueState, (r ∈ values ∨ m !! mv_Path r = Some r ∧ mv_Path r ∉ mv_Path <$> values) →
    foldl (λ indexed value, <[mv_Path value := value]> indexed) m values !! mv_Path r = Some r) as Hm; [|by apply Hm; left].
  clear Hr. induction values as [|v values IH]; intros m Hor; simpl.
  { destruct Hor as [?%not_elem_of_nil|[? _]]; done. }
  apply NoDup_cons in Hnd as [Hv Hnd]. apply IH; [done|]. destruct Hor as [[->|Hr]%elem_of_cons|[Hm Hn]].
  - right. by rewrite lookup_insert_eq.
  - by left.
  - right. rewrite fmap_cons, not_elem_of_cons in Hn. destruct Hn. by rewrite lookup_insert_ne.
Qed.
Lemma managedBaselines_recorded (o : object) desired values :
  NoDup (mv_Path <$> values) →
  (λ r, (mv_Path r, mv_Applied r)) <$> values = (λ l, (ml_Path l, ml_Value l)) <$> desired →
  managedBaselinesForDesired o desired (indexManagedValues values) = Ok (mv_Baseline <$> values).
Proof.
  intros Hnd. pose proof (λ r, indexManagedValues_lookup values r Hnd) as Hi. revert Hi.
  generalize (indexManagedValues values) as m. clear Hnd. revert values.
  induction desired as [|l desired IH]; intros [|r values] m Hi E; try done. simpl in *.
  injection E as Hp _ E. unfold managedBaselineForLeaf. rewrite <- Hp, (Hi r) by by left. simpl.
  rewrite (IH values); [done| |done]. intros r' Hr'. apply Hi. by right.
Qed.
Lemma records_rebuilt desired values :
  (λ r, (mv_Path r, mv_Applied r)) <$> values = (λ l, (ml_Path l, ml_Value l)) <$> desired →
  zip_with record_of desired (mv_Baseline <$> values) = values.
Proof.
  revert values. induction desired as [|l desired IH]; intros [|r values] E; try done. simpl in *.
  injection E as Hp Hv E. rewrite IH by done. f_equal. destruct r, l. unfold record_of. simpl in *. by subst.
Qed.
(** Settings in which everything recorded is in force are reconciled already. *)
Lemma reconcile_stable (o : object) st fragment :
  ms_Version st = managedStateVersion → wf_state (ms_Values st) →
  (λ r, (mv_Path r, mv_Applied r)) <$> ms_Values st =
    (λ l, (ml_Path l, ml_Value l)) <$> flattenManagedObject fragment →
  Forall (λ r, at_path (mv_Path r) (Some (JObject o)) = Some (mv_Applied r)) (ms_Values st) →
  reconcileManagedValues o st fragment = Ok (o, st).
Proof.
  intros Hver Hwf E Ha. unfold reconcileManagedValues.
  destruct (restorePrevious_redo _ _ (ml_Path <$> flattenManagedObject fragment) Hwf Ha) as (o' & -> & Hall). simpl.
  rewrite (applyDesired_run o' o _ _ (mv_Baseline <$> ms_Values st)).
  - rewrite records_rebuilt by done. destruct st. simpl in *. by subst.
  - apply managedBaselines_recorded; [|done]. by apply diverge_NoDup, Hwf.
  - apply Forall_forall. intros l. apply flatten_nonempty.
  - by rewrite records_rebuilt.
Qed.
Lemma reconcile_version (t t' : object) previous next fragment :
  reconcileManagedValues t previous fragment = Ok (t', next) → ms_Version next = managedStateVersion.
Proof. intros (t1 & _ & (? & _ & _ & ? & _)%applyDesired_Ok)%result_bind_Ok. done. Qed.
(** What a reconciliation records is in force. *)
Lemma reconcile_in_force (t t' : object) previous next fragment :
  wf_state (ms_Values previous) → reconcileManagedValues t previous fragment = Ok (t', next) →
  Forall (λ r, at_path (mv_Path r) (Some (JObject t')) = Some (mv_Applied r)) (ms_Values next).
Proof.
  intros Hwf E. destruct (reconcile_spec_lemma _ _ _ _ _ Hwf E) as (_ & Hl & Hr & _).
  revert Hr Hl. generalize (flattenManagedObject fragment) as ls. generalize (ms_Values next) as rs.
  induction rs as [|r rs IH]; intros [|l ls] E' Hl; try done. simpl in E'. injection E' as Hp Hv E'.
  apply Forall_cons in Hl as [Hl Hls]. constructor; [by rewrite Hp, Hv|by eapply IH].
Qed.

(** ** Following shared maps changes nothing else *)
Section Store.
Context {M : Type} `{ObjectStore M}.
Implicit Types (t : M) (path : list string).

(** A result on the store that is, on the object alone, another one. *)
Definition shadows (r : result error M) (r' : result error object) : Prop :=
  object_of <$> r = r'.
Lemma shadows_bind {A} (r : result error M) r' (f : M → result error A) (g : object → result error A) :
  shadows r r' → (∀ t, f t = g (object_of t)) → r ≫= f = r' ≫= g.
Proof. intros <- Hf. destruct r; simpl; [apply Hf|done]. Qed.
Lemma setManagedValue_shadows t path v : shadows (setManagedValue t path v) (setManagedValue (object_of t) path v).
Proof.
  unfold shadows, setManagedValue. simpl. destruct (set_below _ _ _ _); simpl; [|done].
  by rewrite object_of_rewrite.
Qed.
Lemma deleteManagedValue_shadows t path : shadows (deleteManagedValue t path) (deleteManagedValue (object_of t) path).
Proof.
  unfold shadows, deleteManagedValue. simpl. destruct (delete_below _ _ _); simpl; [|done].
  by rewrite object_of_rewrite.
Qed.
Lemma pruneLoop_shadows t path ds : shadows (pruneLoop t path ds) (pruneLoop (object_of t) path ds).
Proof.
  revert t. induction ds as [|d ds IH]; intros t; [done|]. cbn [pruneLoop].
  change (managedValueAt t (take d path)) with (managedValueAt (object_of t) (take d path)).
  destruct (managedValueAt _ _) as [[v|]|]; [|apply IH|done]. simpl.
  destruct (as_object v); [|done]. case_bool_decide; [done|].
  pose proof (deleteManagedValue_shadows t (take d path)) as Hd. unfold shadows in *.
  rewrite <- Hd. destruct (deleteManagedValue t _); simpl; [apply IH|done].
Qed.
Lemma restoreManagedBaseline_shadows t path b :
  shadows (restoreManagedBaseline t path b) (restoreManagedBaseline (object_of t) path b).
Proof.
  unfold restoreManagedBaseline. destruct (vb_Exists b); [apply setManagedValue_shadows|].
  pose proof (deleteManagedValue_shadows t path) as Hd. unfold shadows in *. rewrite <- Hd.
  destruct (deleteManagedValue t path); simpl; [apply pruneLoop_shadows|done].
Qed.
Lemma restorePrevious_shadows t previous desired :
  shadows (restorePreviousManagedValues t previous desired)
    (restorePreviousManagedValues (object_of t) previous desired).
Proof.
  revert t. induction previous as [|r previous IH]; intros t; [done|]. cbn [restorePreviousManagedValues].
  change (managedValueAt t (mv_Path r)) with (managedValueAt (object_of t) (mv_Path r)).
  destruct (managedValueAt _ _) as [c|]; [|done]. simpl. destruct (_ && _); [done|].
  pose proof (restoreManagedBaseline_shadows t (mv_Path r) (mv_Baseline r)) as Hd. unfold shadows in *.
  case_bool_decide; [|apply IH]. rewrite <- Hd.
  destruct (restoreManagedBaseline t _ _); simpl; [apply IH|done].
Qed.
Lemma managedBaselines_shadows t desired previous :
  managedBaselinesForDesired t desired previous = managedBaselinesForDesired (object_of t) desired previous.
Proof. induction desired as [|l desired IH]; [done|]. simpl. by rewrite IH. Qed.
Lemma applyLoop_shadows t desired bs :
  prod_map object_of id <$> applyLoop t desired bs = applyLoop (object_of t) desired bs.
Proof.
  revert t bs. induction desired as [|l desired IH]; intros t [|b bs]; try done. cbn [applyLoop].
  pose proof (setManagedValue_shadows t (ml_Path l) (ml_Value l)) as Hd. unfold shadows in Hd. rewrite <- Hd.
  destruct (setManagedValue t _ _) as [t1|]; [|done]. simpl. rewrite <- IH.
  by destruct (applyLoop t1 desired bs) as [[]|].
Qed.
(** The reconciliation of a store is the reconciliation of its object. *)
Lemma reconcileManagedValues_shadows t previous fragment :
  prod_map object_of id <$> reconcileManagedValues t previous fragment =
  reconcileManagedValues (object_of t) previous fragment.
Proof.
  unfold reconcileManagedValues.
  pose proof (restorePrevious_shadows t (ms_Values previous) (ml_Path <$> flattenManagedObject fragment)) as Hd.
  unfold shadows in Hd. rewrite <- Hd. destruct (restorePreviousManagedValues t _ _) as [t1|]; [|done]. simpl.
  unfold applyDesiredManagedValues. rewrite managedBaselines_shadows.
  destruct (managedBaselinesForDesired _ _ _) as [bs|]; [|done]. simpl.
  rewrite <- applyLoop_shadows. by destruct (applyLoop t1 _ bs) as [[]|].
Qed.

(** What every write keeps, a reconciliation keeps. *)
Context (Inv : M → Prop) (Inv_rewrite : ∀ t path o, Inv t → Inv (rewrite_at t path o)).
Definition keeps {A} (get : A → M) (r : result error A) : Prop := match r with Ok a => Inv (get a) | Err _ => True end.
Lemma keeps_rewrite t path (r : result error object) : Inv t → keeps id (rewrite_at t path <$> r).
Proof. intros Ht. destruct r; simpl; auto. Qed.
Lemma pruneLoop_keeps t path ds : Inv t → keeps id (pruneLoop t path ds).
Proof.
  revert t. induction ds as [|d ds IH]; intros t Ht; [done|]. cbn [pruneLoop].
  destruct (managedValueAt _ _) as [[v|]|]; [|by apply IH|done]. simpl.
  destruct (as_object v); [|done]. case_bool_decide; [done|].
  pose proof (keeps_rewrite t (take d path) (delete_below [] (take d path) (object_of t)) Ht) as Hd.
  unfold deleteManagedValue. destruct (delete_below _ _ _); simpl in *; [by apply IH|done].
Qed.
Lemma restoreManagedBaseline_keeps t path b : Inv t → keeps id (restoreManagedBaseline t path b).
Proof.
  intros Ht. unfold restoreManagedBaseline. destruct (vb_Exists b); [by apply keeps_rewrite|].
  unfold deleteManagedValue. destruct (delete_below _ _ _); simpl; [|done].
  apply pruneLoop_keeps, Inv_rewrite, Ht.
Qed.
Lemma restorePrevious_keeps t previous desired : Inv t → keeps id (restorePreviousManagedValues t previous desired).
Proof.
  revert t. induction previous as [|r previous IH]; intros t Ht; [done|]. cbn [restorePreviousManagedValues].
  destruct (managedValueAt _ _) as [c|]; [|done]. simpl. destruct (_ && _); [done|].
  case_bool_decide; [|by apply IH].
  pose proof (restoreManagedBaseline_keeps t (mv_Path r) (mv_Baseline r) Ht) as Hk.
  destruct (restoreManagedBaseline t _ _); simpl in *; [by apply IH|done].
Qed.
Lemma applyLoop_keeps t desired bs : Inv t → keeps fst (applyLoop t desired bs).
Proof.
  revert t bs. induction desired as [|l desired IH]; intros t [|b bs] Ht; try done. cbn [applyLoop].
  unfold setManagedValue. destruct (set_below _ _ _ _); simpl; [|done].
  specialize (IH (rewrite_at t (ml_Path l) a) bs (Inv_rewrite _ _ _ Ht)).
  by destruct (applyLoop _ desired bs) as [[]|].
Qed.
Lemma reconcileManagedValues_keeps t previous fragment :
  Inv t → keeps fst (reconcileManagedValues t previous fragment).
Proof.
  intros Ht. unfold reconcileManagedValues.
  pose proof (restorePrevious_keeps t (ms_Values previous) (ml_Path <$> flattenManagedObject fragment) Ht) as Hk.
  destruct (restorePreviousManagedValues t _ _) as [t1|]; [|done]. simpl in *. unfold applyDesiredManagedValues.
  destruct (managedBaselinesForDesired _ _ _) as [bs|]; [|done]. simpl.
  pose proof (applyLoop_keeps t1 (flattenManagedObject fragment) bs Hk) as Hl. by destruct (applyLoop t1 _ bs) as [[]|].
Qed.
End Store.

(** ** Properties *)

(** C9: an upgrade is a reinstallation.  With nothing changed since a fragment was
    installed into settings nobody managed, installing another fragment ends,
    state and errors included, as installing it into the original settings: every
    managed value, the objects created for it included, is taken back first.
    With [second := first] installing is idempotent, with the empty fragment
    uninstalling restores the original settings. *)
Theorem reconcileManagedValues_upgrade (t t1 : object) st1 first second :
  reconcileManagedValues t unmanaged first = Ok (t1, st1) →
  reconcileManagedValues t1 st1 second = reconcileManagedValues t unmanaged second.
Proof. apply upgrade_is_reinstall. Qed.

(** The user's edits survive an upgrade.  Setting a value next to the managed
    leaves after an installation and then installing another fragment (or none)
    yields the same settings as making the edit first and installing that
    fragment only. *)
Theorem reconcileManagedValues_keeps_edits (t t1 t2 : object) st1 first q v :
  reconcileManagedValues t unmanaged first = Ok (t1, st1) →
  Forall (λ l, diverge (ml_Path l) q) (flattenManagedObject first) →
  setManagedValue t1 q v = Ok t2 →
  ∃ t', setManagedValue t q v = Ok t' ∧ ∀ second t3,
    (∃ st, reconcileManagedValues t2 st1 second = Ok (t3, st)) ↔
    (∃ st, reconcileManagedValues t' unmanaged second = Ok (t3, st)).
Proof. apply upgrade_keeps_edits_lemma. Qed.

(** C26: a reconciliation that succeeds from any managed state overwrites no
    managed value the user changed, puts every leaf of the fragment in force and
    records it, leaves every other place as it was (a retired value the user
    changed included), and writes a state that validation accepts. *)
Theorem reconcileManagedValues_spec (t t' : object) previous next fragment :
  wf_state (ms_Values previous) → reconcileManagedValues t previous fragment = Ok (t', next) →
  let desired := flattenManagedObject fragment in
  Forall (λ r, mv_Path r ∈ ml_Path <$> desired → at_path (mv_Path r) (Some (JObject t)) = Some (mv_Applied r))
    (ms_Values previous) ∧
  Forall (λ l, at_path (ml_Path l) (Some (JObject t')) = Some (ml_Value l)) desired ∧
  (λ r, (mv_Path r, mv_Applied r)) <$> ms_Values next = (λ l, (ml_Path l, ml_Value l)) <$> desired ∧
  (∀ q, Forall (λ l, diverge (ml_Path l) q) desired →
        Forall (λ r, diverge (mv_Path r) q ∨ at_path (mv_Path r) (Some (JObject t)) ≠ Some (mv_Applied r))
          (ms_Values previous) →
        at_path q (Some (JObject t')) = at_path q (Some (JObject t))) ∧
  wf_state (ms_Values next) ∧ validateManagedState next = Ok ().
Proof. apply reconcile_spec_lemma. Qed.

(** A user's settings and two releases of the installer's fragment. *)
Definition demo_settings : object :=
  {["theme" := JString "dark"; "env" := JObject {["A" := JString "1"]}]}.
Definition demo_first : object :=
  {["env" := JObject {["A" := JString "2"; "B" := JString "x"]};
    "hooks" := JObject {["pre" := JObject {["cmd" := JString "go"]}]}]}.
Definition demo_second : object :=
  {["hooks" := JObject {["pre" := JObject {["cmd" := JString "new"]}; "post" := JNull]}]}.
Definition demo_installed : object * managedState :=
  match reconcileManagedValues demo_settings unmanaged demo_first with Ok x => x | Err _ => (∅, unmanaged) end.
Definition demo_edited : object :=
  match setManagedValue demo_installed.1 ["env"; "C"] (JString "mine") with Ok o => o | Err _ => ∅ end.
Lemma demo_installed_ok :
  reconcileManagedValues demo_settings unmanaged demo_first = Ok (demo_installed.1, demo_installed.2).
Proof. vm_cast_no_check (@eq_refl (result error (object * managedState)) (Ok demo_installed)). Qed.
Lemma demo_edited_ok : setManagedValue demo_installed.1 ["env"; "C"] (JString "mine") = Ok demo_edited.
Proof. vm_cast_no_check (@eq_refl (result error object) (Ok demo_edited)). Qed.
Lemma demo_diverge q :
  bool_decide (Forall (λ l, diverge (ml_Path l) q) (flattenManagedObject demo_first)) = true →
  Forall (λ l, diverge (ml_Path l) q) (flattenManagedObject demo_first).
Proof. apply bool_decide_eq_true_1. Qed.

Lemma reconcileManagedValues_upgrade_witness :
  reconcileManagedValues demo_installed.1 demo_installed.2 demo_second =
  reconcileManagedValues demo_settings unmanaged demo_second.
Proof.
  exact (reconcileManagedValues_upgrade demo_settings demo_installed.1 demo_installed.2 demo_first demo_second
           demo_installed_ok).
Defined.
Lemma reconcileManagedValues_keeps_edits_witness :
  ∃ t', setManagedValue demo_settings ["env"; "C"] (JString "mine") = Ok t' ∧ ∀ second t3,
    (∃ st, reconcileManagedValues demo_edited demo_installed.2 second = Ok (t3, st)) ↔
    (∃ st, reconcileManagedValues t' unmanaged second = Ok (t3, st)).
Proof.
  apply (reconcileManagedValues_keeps_edits demo_settings demo_installed.1 demo_edited demo_installed.2 demo_first
           ["env"; "C"] (JString "mine") demo_installed_ok).
  - apply demo_diverge. vm_compute. reflexivity.
  - exact demo_edited_ok.
Defined.
Lemma reconcileManagedValues_spec_witness :
  at_path ["theme"] (Some (JObject demo_installed.1)) = at_path ["theme"] (Some (JObject demo_settings)).
Proof.
  apply (reconcileManagedValues_spec demo_settings demo_installed.1 unmanaged demo_installed.2 demo_first).
  - split; constructor.
  - exact demo_installed_ok.
  - apply demo_diverge. vm_compute. reflexivity.
  - constructor.
Defined.
