(* ===== verification/SettingsTransaction.v ===== *)
(** * Settings transactions

    Models [internal/settingsmerge/transaction.go] and [writeAtomic] of
    [merge.go]: replacing up to three settings files as one recoverable
    transaction.  A journal with the old and the new content of each file is
    written first and removed last; recovery restores the old contents from it.

    The files live on the store's [Disk] as [DocFile]s: a path that holds another
    document stands for something that is no regular file.  A temporary file that
    [os.CreateTemp] leaves behind in a crash is not represented. *)
From S2P Require Import Prelude GoStrings Json ControllerTypes ControllerStore MutationControl CrashLogic.

Notation path := (list string) (only parsing).

Record plannedWrite := { pw_path : path; pw_data : string; pw_mode : N }.
Record fileRestore := { fr_existed : bool; fr_data : string; fr_mode : N }.
Record mergeTransactionFile := {
  tf_Path : path;
  tf_PreExisted : bool;
  tf_PreData : string;
  tf_PreMode : N;
  tf_PostData : string;
  tf_PostMode : N;
}.
#[export] Instance fileRestore_eq_dec : EqDecision fileRestore.
Proof. solve_decision. Defined.
Record mergeTransactionJournal := { tj_Version : Z; tj_Files : list mergeTransactionFile }.

(** [encoding/json] on the journal: what is marshalled decodes to itself, the
    newline behind it ignored. *)
Class JournalCodec := {
  marshalJournal : mergeTransactionJournal → string;
  unmarshalJournal : string → option mergeTransactionJournal;
  unmarshal_marshal j : unmarshalJournal (marshalJournal j +:+ String LF "") = Some j;
}.

(** ** Paths and modes *)
Definition managedStateDir : string := ".codex-worker-orchestrator".
Definition managedStateSuffix : string := ".managed-settings-state.json".
Definition overrideStateFile : string := ".codex-config-claude-env-state.json".
Definition mergeTransactionSuffix : string := ".merge-transaction.json".
Definition mergeTransactionVersion : Z := 1.

(** [filepath.Dir] is [removelast], [filepath.Base] the last element. *)
Definition Base (p : path) : string := default "" (last p).
Definition mergeTransactionPath (targetPath : path) : path :=
  removelast targetPath ++ [managedStateDir; Base targetPath +:+ mergeTransactionSuffix].
Definition ManagedStatePath (targetPath : path) : path :=
  removelast targetPath ++ [managedStateDir; Base targetPath +:+ managedStateSuffix].
Definition statePathFor (targetPath : path) : path := removelast targetPath ++ [overrideStateFile].

(** [os.FileMode.Perm], and [0o600]. *)
Definition Perm (mode : N) : N := N.land mode 511.
Definition mode600 : N := 384.
Definition normalizedFileMode (mode : N) : N := if (mode =? 0)%N then mode600 else Perm mode.

(** ** Files *)
Definition writeAtomic (p : path) (data : string) (mode : N) : io unit :=
  let mode := if (mode =? 0)%N then mode600 else mode in
  _ ← MkdirAll (removelast p);
  writeJSONAtomic p {| fc_Data := data; fc_Mode := mode |}.

Definition absentFile : fileRestore := {| fr_existed := false; fr_data := ""; fr_mode := 0 |}.
Definition captureMergeTransactionFile (p : path) : io fileRestore := λ d,
  if bool_decide (p ∈ unreadable d)
  then (Err (Errorf "capture settings transaction preimage %s: %w" (AStr <$> p)), d)
  else match files d !! p with
       | None => (Ok absentFile, d)
       | Some (DocFile c) =>
           (Ok {| fr_existed := true; fr_data := fc_Data c; fr_mode := Perm (fc_Mode c) |}, d)
       | Some _ => (Err (Errorf "settings transaction path is not a regular file: %s" (AStr <$> p)), d)
       end.

Definition mergeTransactionMatchesPre (current : fileRestore) (file : mergeTransactionFile) : bool :=
  if negb (eqb (fr_existed current) (tf_PreExisted file)) then false
  else if negb (fr_existed current) then true
  else (Perm (fr_mode current) =? Perm (tf_PreMode file))%N &&
       bool_decide (fr_data current = tf_PreData file).
Definition mergeTransactionMatchesPost (current : fileRestore) (file : mergeTransactionFile) : bool :=
  fr_existed current && (Perm (fr_mode current) =? Perm (tf_PostMode file))%N &&
  bool_decide (fr_data current = tf_PostData file).
Definition fileRestoreMatches (left right : fileRestore) : bool :=
  if negb (eqb (fr_existed left) (fr_existed right)) then false
  else if negb (fr_existed left) then true
  else (Perm (fr_mode left) =? Perm (fr_mode right))%N && bool_decide (fr_data left = fr_data right).

(** The loop over a map visits its entries in some order; the model takes one:
    which one only decides which of several errors is reported. *)
Notation snapshots := (gmap (list string) fileRestore).
Fixpoint validateSnapshotLoop (inputs : list (path * fileRestore)) : io unit :=
  match inputs with
  | [] => mret ()
  | (p, expected) :: inputs =>
      current ← captureMergeTransactionFile p;
      refuse! negb (fileRestoreMatches current expected)
        with Errorf "settings merge input changed after planning: %s" (AStr <$> p);
      validateSnapshotLoop inputs
  end.
Definition validateMergeInputSnapshots (inputs : snapshots) : io unit :=
  validateSnapshotLoop (map_to_list inputs).

(** ** The journal *)
Fixpoint buildJournalLoop (plans : list plannedWrite) (inputs : snapshots) (seen : gset path) :
    result error (list mergeTransactionFile) :=
  match plans with
  | [] => Ok []
  | plan :: plans =>
      reject! bool_decide (pw_path plan ∈ seen)
        with Errorf "duplicate settings transaction path %s" (AStr <$> pw_path plan);
      match inputs !! pw_path plan with
      | None => Err (Errorf "settings transaction preimage is missing for %s" (AStr <$> pw_path plan))
      | Some pre =>
          files ← buildJournalLoop plans inputs ({[pw_path plan]} ∪ seen);
          Ok ({| tf_Path := pw_path plan; tf_PreExisted := fr_existed pre; tf_PreData := fr_data pre;
                 tf_PreMode := fr_mode pre; tf_PostData := pw_data plan;
                 tf_PostMode := normalizedFileMode (pw_mode plan) |} :: files)
      end
  end.
Definition buildMergeTransactionJournal (plans : list plannedWrite) (inputs : snapshots) :
    result error mergeTransactionJournal :=
  files ← buildJournalLoop plans inputs ∅;
  Ok {| tj_Version := mergeTransactionVersion; tj_Files := files |}.

Fixpoint capturePlans (plans : list plannedWrite) : io snapshots :=
  match plans with
  | [] => mret ∅
  | plan :: plans =>
      pre ← captureMergeTransactionFile (pw_path plan);
      inputs ← capturePlans plans;
      mret (if bool_decide (is_Some (inputs !! pw_path plan)) then inputs else <[pw_path plan := pre]> inputs)
  end.
Definition newMergeTransactionJournal (plans : list plannedWrite) (provided : list snapshots) :
    io mergeTransactionJournal :=
  refuse! bool_decide (1 < length provided) with err "multiple settings transaction preimage sets";
  inputs ← (match provided with inputs :: _ => mret inputs | [] => capturePlans plans end);
  lift (buildMergeTransactionJournal plans inputs).

Fixpoint journalPathsLoop (allowed seen : gset path) (files : list mergeTransactionFile) : result error unit :=
  match files with
  | [] => Ok ()
  | file :: files =>
      reject! negb (bool_decide (tf_Path file ∈ allowed)) || bool_decide (tf_Path file ∈ seen)
        with Errorf "settings transaction journal contains unexpected path %s" (AStr <$> tf_Path file);
      reject! negb (tf_PreExisted file) &&
              (negb (bool_decide (tf_PreData file = "")) || negb (tf_PreMode file =? 0)%N)
        with Errorf "settings transaction journal has invalid absent preimage for %s" (AStr <$> tf_Path file);
      journalPathsLoop allowed ({[tf_Path file]} ∪ seen) files
  end.
Definition validateMergeTransactionJournal (targetPath : path) (journal : mergeTransactionJournal) :
    result error unit :=
  let allowed : gset path := {[targetPath; statePathFor targetPath; ManagedStatePath targetPath]} in
  reject! bool_decide (tj_Files journal = []) || bool_decide (size allowed < length (tj_Files journal))
    with err "settings transaction journal file set is invalid";
  journalPathsLoop allowed ∅ (tj_Files journal).

Fixpoint validateCurrentLoop (files : list mergeTransactionFile) : io unit :=
  match files with
  | [] => mret ()
  | file :: files =>
      current ← captureMergeTransactionFile (tf_Path file);
      refuse! negb (mergeTransactionMatchesPre current file || mergeTransactionMatchesPost current file)
        with Errorf "settings transaction path changed after interrupted merge: %s" (AStr <$> tf_Path file);
      validateCurrentLoop files
  end.
Definition validateMergeTransactionCurrentFiles (journal : mergeTransactionJournal) : io unit :=
  validateCurrentLoop (tj_Files journal).

Definition removeMergeTransactionJournal (p : path) (operation : string) : io unit :=
  r ← attempt (remove_file p);
  match r with
  | Ok _ => mret ()
  | Err e => refuse! negb (IsNotExist e) with Errorf "%s: %w" [AStr operation; AErr e]; mret ()
  end.

Section Transaction.
Context `{JournalCodec}.

Definition saveMergeTransactionJournal (p : path) (journal : mergeTransactionJournal) : io unit :=
  writeAtomic p (marshalJournal journal +:+ String LF "") mode600.
Definition loadMergeTransactionJournal (p : path) : io mergeTransactionJournal :=
  content ← readJSON (A:=FileContent) p;
  match unmarshalJournal (fc_Data content) with
  | None => fail (err "invalid character in JSON text")
  | Some journal =>
      refuse! negb (bool_decide (tj_Version journal = mergeTransactionVersion))
        with Errorf "unsupported settings transaction journal version %d" [AInt (Z.to_nat (tj_Version journal))];
      mret journal
  end.

(** [writeFn] is [writeAtomic] outside of tests. *)
Context (writeFn : path → string → N → io unit).

Definition restoreMergeTransactionFile (file : mergeTransactionFile) : io unit :=
  current ← captureMergeTransactionFile (tf_Path file);
  if mergeTransactionMatchesPre current file then mret ()
  else
    refuse! negb (mergeTransactionMatchesPost current file)
      with Errorf "settings transaction rollback refused concurrent edit: %s" (AStr <$> tf_Path file);
    if negb (tf_PreExisted file) then
      r ← attempt (remove_file (tf_Path file));
      match r with
      | Ok _ => mret ()
      | Err e => refuse! negb (IsNotExist e) with Errorf "remove %s: %w" ((AStr <$> tf_Path file) ++ [AErr e]); mret ()
      end
    else io_wrap (λ e, Errorf "restore %s: %w" ((AStr <$> tf_Path file) ++ [AErr e]))
           (writeFn (tf_Path file) (tf_PreData file) (tf_PreMode file)).
Fixpoint restoreLoop (files : list mergeTransactionFile) : io (list error) :=
  match files with
  | [] => mret []
  | file :: files =>
      r ← attempt (restoreMergeTransactionFile file);
      errs ← restoreLoop files;
      mret (match r with Ok _ => errs | Err e => e :: errs end)
  end.
Definition restoreMergeTransaction (journal : mergeTransactionJournal) : io unit :=
  errs ← restoreLoop (reverse (tj_Files journal));
  refuse! negb (bool_decide (length errs = 0)) with Join_errors errs; mret ().

Definition recoverSettingsTransaction (targetPath : path) : io unit :=
  let journalPath := mergeTransactionPath targetPath in
  r ← attempt (loadMergeTransactionJournal journalPath);
  match r with
  | Err e => if IsNotExist e then mret () else fail (Errorf "settings transaction journal: %w" [AErr e])
  | Ok journal =>
      _ ← lift (validateMergeTransactionJournal targetPath journal);
      _ ← validateMergeTransactionCurrentFiles journal;
      _ ← io_wrap (λ e, Errorf "recover settings transaction: %w" [AErr e]) (restoreMergeTransaction journal);
      removeMergeTransactionJournal journalPath "remove recovered settings transaction journal"
  end.

Definition rollbackFailedMergeTransaction (journalPath : path) (journal : mergeTransactionJournal)
    (cause : error) : io unit :=
  r ← attempt (restoreMergeTransaction journal);
  match r with
  | Err e => fail (Errorf "%w (rollback failed: %w)" [AErr cause; AErr e])
  | Ok _ =>
      r ← attempt (removeMergeTransactionJournal journalPath
                     "remove settings transaction journal after rollback");
      match r with
      | Err e => fail (Errorf "%w (rollback cleanup failed: %w)" [AErr cause; AErr e])
      | Ok _ => fail cause
      end
  end.

(** [current] is updated in place; its final value is returned. *)
Fixpoint applyMergeTransactionPlans (plans : list plannedWrite) (current : snapshots) : io snapshots :=
  match plans with
  | [] => mret current
  | plan :: plans =>
      _ ← validateMergeInputSnapshots current;
      _ ← writeFn (pw_path plan) (pw_data plan) (pw_mode plan);
      applyMergeTransactionPlans plans
        (<[pw_path plan := {| fr_existed := true; fr_data := pw_data plan;
                              fr_mode := normalizedFileMode (pw_mode plan) |}]> current)
  end.

Definition commitRecoverableTransaction (targetPath : path) (plans : list plannedWrite)
    (inputs : snapshots) : io unit :=
  _ ← validateMergeInputSnapshots inputs;
  journal ← newMergeTransactionJournal plans [inputs];
  let journalPath := mergeTransactionPath targetPath in
  _ ← io_wrap (λ e, Errorf "persist settings transaction journal: %w" [AErr e])
        (saveMergeTransactionJournal journalPath journal);
  r ← attempt (applyMergeTransactionPlans plans inputs);
  match r with
  | Err e => rollbackFailedMergeTransaction journalPath journal e
  | Ok current =>
      r ← attempt (validateMergeInputSnapshots current);
      match r with
      | Err e => rollbackFailedMergeTransaction journalPath journal e
      | Ok _ => removeMergeTransactionJournal journalPath "finalize settings transaction journal"
      end
  end.
End Transaction.

(** ** What the disk shows *)
Notation files_map := (gmap (list string) Doc).
(** What [captureMergeTransactionFile] sees at a path. *)
Definition view (doc : option Doc) : option fileRestore :=
  match doc with
  | None => Some absentFile
  | Some (DocFile c) => Some {| fr_existed := true; fr_data := fc_Data c; fr_mode := Perm (fc_Mode c) |}
  | Some _ => None
  end.
Definition holds (m : snapshots) (F : files_map) : Prop := map_Forall (λ p r, view (F !! p) = Some r) m.

Definition pre_of (f : mergeTransactionFile) : fileRestore :=
  {| fr_existed := tf_PreExisted f; fr_data := tf_PreData f; fr_mode := tf_PreMode f |}.
Definition post_of (f : mergeTransactionFile) : fileRestore :=
  {| fr_existed := true; fr_data := tf_PostData f; fr_mode := tf_PostMode f |}.
(** A snapshot as it is captured from a file that its owner may use. *)
Definition usable (r : fileRestore) : Prop :=
  if fr_existed r then Perm (fr_mode r) = fr_mode r ∧ fr_mode r ≠ 0%N else r = absentFile.
Definition plan_post (plan : plannedWrite) : fileRestore :=
  {| fr_existed := true; fr_data := pw_data plan; fr_mode := normalizedFileMode (pw_mode plan) |}.
(** The snapshots after the plans, as [applyMergeTransactionPlans] leaves them. *)
Definition planned (plans : list plannedWrite) (inputs : snapshots) : snapshots :=
  foldl (λ current plan, <[pw_path plan := plan_post plan]> current) inputs plans.

Lemma Perm_idemp m : Perm (Perm m) = Perm m.
Proof. unfold Perm. by rewrite <- N.land_assoc, N.land_diag. Qed.
Lemma Perm_normalized m : Perm (normalizedFileMode m) = normalizedFileMode m.
Proof. unfold normalizedFileMode. destruct (m =? 0)%N; [done|apply Perm_idemp]. Qed.
(** The mode that [writeAtomic] leaves behind. *)
Lemma Perm_written m : Perm (if (m =? 0)%N then mode600 else m) = normalizedFileMode m.
Proof. unfold normalizedFileMode. by destruct (m =? 0)%N. Qed.
Lemma normalized_usable m : Perm m = m → m ≠ 0%N → normalizedFileMode m = m.
Proof. intros Hp Hm. unfold normalizedFileMode. by rewrite (proj2 (N.eqb_neq _ _) Hm). Qed.

Lemma fileRestoreMatches_refl r : fileRestoreMatches r r = true.
Proof.
  unfold fileRestoreMatches. rewrite eqb_reflx. simpl. destruct (fr_existed r); [|done]. simpl.
  by rewrite N.eqb_refl, bool_decide_true.
Qed.
Lemma view_usable r doc : view doc = Some r → fr_mode r ≠ 0%N ∨ fr_existed r = false → usable r.
Proof.
  destruct doc as [[]|]; try done; simpl; intros [= <-]; unfold usable; simpl; try done.
  intros [?|]; [|done]. split; [apply Perm_idemp|done].
Qed.
Lemma matchesPre_iff r f :
  usable (pre_of f) → (∃ doc, view doc = Some r) → mergeTransactionMatchesPre r f = true ↔ r = pre_of f.
Proof.
  intros Hu [doc Hdoc]. unfold mergeTransactionMatchesPre, usable, view in *. destruct r as [e dt m].
  unfold absentFile in *. simpl in *.
  assert (e = true → Perm m = m) as Hm.
  { destruct doc as [[]|]; simplify_eq/=; [intros _; apply Perm_idemp|done]. }
  assert (e = false → dt = "" ∧ m = 0%N) as Ha by (destruct doc as [[]|]; by simplify_eq/=).
  unfold usable, pre_of in *. simpl in *. destruct e, (tf_PreExisted f); simpl; try (split; congruence).
  - destruct Hu as [Hu _]. rewrite Hm, Hu by done. rewrite andb_true_iff, N.eqb_eq, bool_decide_eq_true.
    split; [intros [-> ->]; done|]. by intros [= -> ->].
  - destruct Ha as [-> ->]; [done|]. injection Hu as -> ->. done.
Qed.
Lemma matchesPost_iff r f :
  Perm (tf_PostMode f) = tf_PostMode f → (∃ doc, view doc = Some r) →
  mergeTransactionMatchesPost r f = true ↔ r = post_of f.
Proof.
  intros Hu [doc Hdoc]. unfold mergeTransactionMatchesPost, view in *. destruct r as [e dt m].
  unfold absentFile in *. simpl in *.
  assert (e = true → Perm m = m) as Hm.
  { destruct doc as [[]|]; simplify_eq/=; [intros _; apply Perm_idemp|done]. }
  unfold post_of. destruct e; simpl; [|split; congruence].
  rewrite Hm, Hu by done. rewrite andb_true_iff, N.eqb_eq, bool_decide_eq_true.
  split; [intros [-> ->]; done|]. by intros [= -> ->].
Qed.

(** ** The entries of a journal *)
Definition entry_for (inputs : snapshots) (plan : plannedWrite) (f : mergeTransactionFile) : Prop :=
  tf_Path f = pw_path plan ∧ inputs !! pw_path plan = Some (pre_of f) ∧ post_of f = plan_post plan.
Lemma buildJournalLoop_run plans inputs seen :
  NoDup (pw_path <$> plans) → Forall (λ plan, pw_path plan ∉ seen ∧ is_Some (inputs !! pw_path plan)) plans →
  ∃ files, buildJournalLoop plans inputs seen = Ok files ∧ Forall2 (entry_for inputs) plans files.
Proof.
  revert seen. induction plans as [|plan plans IH]; intros seen Hnd Hs; simpl; [by exists []|].
  apply NoDup_cons in Hnd as [Hp Hnd]. apply Forall_cons in Hs as [[Hn [pre Hpre]] Hs].
  rewrite bool_decide_false, Hpre by done.
  destruct (IH ({[pw_path plan]} ∪ seen) Hnd) as (files & -> & Hf).
  { rewrite Forall_forall in Hs |- *. intros q Hq. destruct (Hs q Hq) as [? ?]. split; [|done].
    apply not_elem_of_union. split; [|done]. intros E%elem_of_singleton. apply Hp. rewrite <- E.
    by apply list_elem_of_fmap_2. }
  simpl. eexists. split; [done|]. constructor; [|done]. split; [done|]. simpl.
  by destruct pre.
Qed.
Lemma journalPathsLoop_run allowed seen files :
  NoDup (tf_Path <$> files) →
  Forall (λ f, tf_Path f ∈ allowed ∧ tf_Path f ∉ seen ∧ usable (pre_of f)) files →
  journalPathsLoop allowed seen files = Ok ().
Proof.
  revert seen. induction files as [|f files IH]; intros seen Hnd Hs; simpl; [done|].
  apply NoDup_cons in Hnd as [Hp Hnd]. apply Forall_cons in Hs as [(Ha & Hn & Hu) Hs].
  rewrite bool_decide_true, bool_decide_false by done. simpl.
  assert (negb (tf_PreExisted f) && (negb (bool_decide (tf_PreData f = "")) || negb (tf_PreMode f =? 0)%N) = false) as ->.
  { unfold usable in Hu. simpl in Hu. destruct (tf_PreExisted f) eqn:E; [done|].
    injection Hu as _ -> ->. done. }
  apply IH; [done|]. rewrite Forall_forall in Hs |- *. intros g Hg. destruct (Hs g Hg) as (? & ? & ?).
  split_and!; [done| |done]. apply not_elem_of_union. split; [|done]. intros E%elem_of_singleton.
  apply Hp. rewrite <- E. by apply list_elem_of_fmap_2.
Qed.

(** ** The journal is none of the settings files *)
Definition allowed_paths (targetPath : path) : gset path :=
  {[targetPath; statePathFor targetPath; ManagedStatePath targetPath]}.
Lemma string_app_inj a b c : a +:+ b = a +:+ c → b = c.
Proof. induction a as [|x a IH]; [done|]. intros [= E]. by apply IH. Qed.
Lemma journal_not_allowed targetPath p : p ∈ allowed_paths targetPath → p ≠ mergeTransactionPath targetPath.
Proof.
  unfold allowed_paths, mergeTransactionPath. rewrite !elem_of_union, !elem_of_singleton.
  intros [[-> | ->]| ->] E.
  - destruct targetPath as [|x l]; [done|]. apply (f_equal length) in E. rewrite length_app in E. simpl in E.
    assert (S (length (removelast (x :: l))) = length (x :: l)) as Hl; [|simpl in *; lia].
    clear E. revert x. induction l as [|y l IH]; intros x; [done|]. simpl in *. by rewrite IH.
  - unfold statePathFor in E. apply app_inv_head in E. done.
  - unfold ManagedStatePath in E. apply app_inv_head in E. injection E as E. by apply string_app_inj in E.
Qed.

Lemma yields_capture (good : Prop) (I P : Disk → Prop) p r :
  (∀ d, P d → I d) → (∀ d, P d → view (files d !! p) = Some r) →
  yields good I P (captureMergeTransactionFile p) r.
Proof.
  intros HI Hv. apply yields_reads.
  - intros d. unfold captureMergeTransactionFile. case_bool_decide; [done|]. by destruct (files d !! p) as [[]|].
  - done.
  - intros d Hd. specialize (Hv d Hd). unfold captureMergeTransactionFile.
    case_bool_decide as Hr; [left; eexists; split; [done|]; intros (E & _); rewrite E in Hr; set_solver|].
    right. by destruct (files d !! p) as [[]|]; simplify_eq/=.
Qed.
#[export] Instance capture_reads R p : PreOrder R → Preserves R (captureMergeTransactionFile p).
Proof. intros ? d. unfold captureMergeTransactionFile. case_bool_decide; [done|]. by destruct (files d !! p) as [[]|]. Qed.
(** [os.Remove] where a missing file is no error. *)
Lemma remove_missing_crashes (good : Prop) (I Φ Ψ : files_map → Prop) p (wrap : error → error) :
  (∀ F, Φ F → I F) → (∀ F, Φ F → Ψ (delete p F)) →
  crashes good (on_files I) (on_files Φ)
    (r ← attempt (remove_file p);
     match r with Ok _ => mret () | Err e => refuse! negb (IsNotExist e) with wrap e; mret () end)
    (λ _, on_files Ψ).
Proof.
  intros HI HΨ d Hd. unfold remove_file, attempt, mbind, io_bind.
  destruct (bool_decide (p ∈ unwritable d) || stopped d) eqn:E; simpl.
  - split; [done|]. split; [by apply HI|]. intros [_ (_ & Hw & Hp)].
    rewrite Hw, (up_running _ Hp), bool_decide_false in E by set_solver. done.
  - clear E. case_bool_decide as Hf; simpl.
    + split; [done|]. unfold on_files in *. rewrite <- (delete_id (files d) p) by done. by apply HΨ.
    + split; [|by apply HΨ]. intros (? & ? & Hp). split_and!; [done..|]. simpl. unfold spend. by rewrite Hp.
Qed.
#[export] Instance removeJournal_no_healing p operation : Preserves no_healing (removeMergeTransactionJournal p operation).
Proof. unfold removeMergeTransactionJournal. preserving. Qed.

#[export] Instance writeAtomic_no_healing p data mode : Preserves no_healing (writeAtomic p data mode).
Proof. unfold writeAtomic. preserving. Qed.
#[export] Instance restoreFile_no_healing f : Preserves no_healing (restoreMergeTransactionFile writeAtomic f).
Proof. unfold restoreMergeTransactionFile. preserving. Qed.
#[export] Instance restoreLoop_no_healing fs : Preserves no_healing (restoreLoop writeAtomic fs).
Proof. induction fs; simpl; preserving. Qed.
#[export] Instance restore_no_healing j : Preserves no_healing (restoreMergeTransaction writeAtomic j).
Proof. unfold restoreMergeTransaction. preserving. Qed.
#[export] Instance snapshots_reads R inputs : PreOrder R → Preserves R (validateMergeInputSnapshots inputs).
Proof.
  intros HR. unfold validateMergeInputSnapshots. induction (map_to_list inputs) as [|[p r] l IH]; simpl; preserving.
Qed.
#[export] Instance apply_no_healing plans current :
  Preserves no_healing (applyMergeTransactionPlans writeAtomic plans current).
Proof. revert current. induction plans; intros current; simpl; preserving. Qed.

(** ** One transaction *)
Section Run.
Context `{JournalCodec} (targetPath : path) (inputs : snapshots) (plans : list plannedWrite)
  (tfiles : list mergeTransactionFile) (F0 : files_map).
Context (plans_nonempty : plans ≠ []) (plans_distinct : NoDup (pw_path <$> plans)).
Context (inputs_usable : map_Forall (λ _, usable) inputs).
Context (inputs_allowed : ∀ p, is_Some (inputs !! p) → p ∈ allowed_paths targetPath).
Context (entries : Forall2 (entry_for inputs) plans tfiles).

Let journal : mergeTransactionJournal := {| tj_Version := mergeTransactionVersion; tj_Files := tfiles |}.
Let jp : path := mergeTransactionPath targetPath.

(** The tfiles nobody planned to touch. *)
Definition untouched (F : files_map) : Prop := ∀ p, inputs !! p = None → p ≠ jp → F !! p = F0 !! p.
Definition before (F : files_map) : Prop := F !! jp = None ∧ holds inputs F ∧ untouched F.
Definition committed (F : files_map) : Prop := F !! jp = None ∧ holds (planned plans inputs) F ∧ untouched F.
Definition journalled (F : files_map) : Prop :=
  F !! jp = Some (DocFile {| fc_Data := marshalJournal journal +:+ String LF ""; fc_Mode := mode600 |}) ∧ untouched F.
(** Between writing the journal and removing it every file is old or new. *)
Definition between (F : files_map) : Prop :=
  journalled F ∧ ∀ p r, inputs !! p = Some r →
    view (F !! p) = Some r ∨ ∃ f, f ∈ tfiles ∧ tf_Path f = p ∧ view (F !! p) = Some (post_of f).
Definition restored (done : list mergeTransactionFile) (F : files_map) : Prop :=
  between F ∧ ∀ f, f ∈ tfiles → f ∈ done → view (F !! tf_Path f) = Some (pre_of f).

Lemma entry_plan f : f ∈ tfiles → ∃ plan, plan ∈ plans ∧ entry_for inputs plan f.
Proof.
  intros [i Hi]%list_elem_of_lookup. destruct (Forall2_lookup_r _ _ _ _ _ entries Hi) as (plan & Hp & He).
  exists plan. split; [by apply list_elem_of_lookup; exists i|done].
Qed.
Lemma plan_entry plan : plan ∈ plans → ∃ f, f ∈ tfiles ∧ entry_for inputs plan f.
Proof.
  intros [i Hi]%list_elem_of_lookup. destruct (Forall2_lookup_l _ _ _ _ _ entries Hi) as (f & Hp & He).
  exists f. split; [by apply list_elem_of_lookup; exists i|done].
Qed.
Lemma files_paths : tf_Path <$> tfiles = pw_path <$> plans.
Proof.
  apply list_eq_Forall2, Forall2_fmap, Forall2_flip. eapply Forall2_impl; [exact entries|]. by intros plan f [? _].
Qed.
Lemma files_nonempty : tfiles ≠ [].
Proof. intros ->. apply plans_nonempty. by inversion entries. Qed.
Lemma files_distinct f g : f ∈ tfiles → g ∈ tfiles → tf_Path f = tf_Path g → f = g.
Proof.
  pose proof plans_distinct as Hnd. rewrite <- files_paths in Hnd. clear -Hnd.
  revert Hnd. generalize tfiles as l; intros l. induction l as [|h l IH]; intros Hnd; [by intros ?%not_elem_of_nil|]. apply NoDup_cons in Hnd as [Hh Hnd].
  intros [->|Hf]%elem_of_cons [->|Hg]%elem_of_cons E; [done| | |by apply IH].
  - destruct Hh. rewrite E. by apply list_elem_of_fmap_2.
  - destruct Hh. rewrite <- E. by apply list_elem_of_fmap_2.
Qed.
Lemma entry_input f : f ∈ tfiles → inputs !! tf_Path f = Some (pre_of f).
Proof. intros (plan & _ & -> & E & _)%entry_plan. done. Qed.
Lemma entry_usable f : f ∈ tfiles → usable (pre_of f) ∧ Perm (tf_PostMode f) = tf_PostMode f.
Proof.
  intros Hf. split; [by eapply inputs_usable, entry_input|].
  destruct (entry_plan f Hf) as (plan & _ & _ & _ & E). injection E as _ ->. apply Perm_normalized.
Qed.
Lemma input_not_journal p : is_Some (inputs !! p) → p ≠ jp.
Proof. intros Hp. by apply journal_not_allowed, inputs_allowed. Qed.
Lemma untouched_insert p doc F : is_Some (inputs !! p) ∨ p = jp → untouched F → untouched (<[p := doc]> F).
Proof.
  intros Hp Hu q Hq Hqj. rewrite lookup_insert_ne by (intros ->; destruct Hp as [Hp|]; [by rewrite Hq in Hp; destruct Hp|done]).
  by apply Hu.
Qed.
Lemma untouched_delete p F : is_Some (inputs !! p) ∨ p = jp → untouched F → untouched (delete p F).
Proof.
  intros Hp Hu q Hq Hqj. rewrite lookup_delete_ne by (intros ->; destruct Hp as [Hp|]; [by rewrite Hq in Hp; destruct Hp|done]).
  by apply Hu.
Qed.

Context (good : Prop).
Notation writeFn := writeAtomic.

Lemma restored_step done f F F' :
  f ∈ tfiles → restored done F → (∀ q, q ≠ tf_Path f → F' !! q = F !! q) →
  view (F' !! tf_Path f) = Some (pre_of f) → restored (f :: done) F'.
Proof.
  intros Hf [[[Hj Hu] Hb] Hd] Hq Hp. pose proof (entry_input f Hf) as Hin.
  assert (tf_Path f ≠ jp) as Hfj by (apply input_not_journal; by eexists).
  split; [split; [split|]|].
  - by rewrite Hq.
  - intros q Hqi Hqj. rewrite Hq; [by apply Hu|]. intros ->. congruence.
  - intros q r Hr. destruct (decide (q = tf_Path f)) as [->|Hn]; [left; congruence|]. rewrite Hq by done. by apply Hb.
  - intros g Hgf Hg. destruct (decide (tf_Path g = tf_Path f)) as [E|Hn].
    + by rewrite (files_distinct g f Hgf Hf E).
    + apply elem_of_cons in Hg as [->|Hg]; [done|]. rewrite Hq by done. by apply Hd.
Qed.
Lemma restored_between done F : restored done F → between F.
Proof. by intros [? _]. Qed.

Lemma restoreFile_crashes done f :
  f ∈ tfiles →
  crashes good (on_files between) (on_files (restored done)) (restoreMergeTransactionFile writeFn f)
    (λ _, on_files (restored (f :: done))).
Proof.
  intros Hf. pose proof (entry_input f Hf) as Hin. destruct (entry_usable f Hf) as [Hu Hpost].
  apply (crashes_cases _ _ _ (λ d, on_files (restored done) d ∧ view (files d !! tf_Path f) = Some (pre_of f))
                             (λ d, on_files (restored done) d ∧ view (files d !! tf_Path f) = Some (post_of f))).
  { intros d [[Hj Hb] Hd]. destruct (Hb _ _ Hin) as [?|(g & Hg & E & ?)]; [by left|].
    right. rewrite (files_distinct g f Hg Hf E) in *. done. }
  - unfold restoreMergeTransactionFile. eapply yields_bind.
    { apply (yields_capture _ _ _ _ (pre_of f)); [by intros d [? _]; eapply restored_between|by intros d [_ ?]]. }
    intros d [Hr Hv]. rewrite (proj2 (matchesPre_iff _ _ Hu (ex_intro _ _ Hv)) eq_refl).
    split; [done|]. simpl. by apply (restored_step done f (files d)).
  - unfold restoreMergeTransactionFile. eapply yields_bind.
    { apply (yields_capture _ _ _ _ (post_of f)); [by intros d [? _]; eapply restored_between|by intros d [_ ?]]. }
    destruct (mergeTransactionMatchesPre (post_of f) f) eqn:Hpre.
    { intros d [Hr Hv]. split; [done|]. simpl. apply (restored_step done f (files d)); [done..|].
      apply (matchesPre_iff _ _ Hu (ex_intro _ _ Hv)) in Hpre. by rewrite <- Hpre. }
    apply (crashes_pre _ _ _ (on_files (λ F, restored done F ∧ view (F !! tf_Path f) = Some (post_of f)))); [|done].
    assert (mergeTransactionMatchesPost (post_of f) f = true) as ->
      by (unfold mergeTransactionMatchesPost; simpl; by rewrite N.eqb_refl, bool_decide_true).
    simpl. destruct (tf_PreExisted f) eqn:He; simpl.
    + apply crashes_wrap. unfold writeAtomic. apply crashes_mkdir_write; [by intros F [[? _] _]|].
      intros F [Hr Hv]. apply (restored_step done f F); [done..| |].
      { intros q Hq. by rewrite lookup_insert_ne. }
      rewrite lookup_insert_eq. simpl. unfold usable, pre_of in *. simpl in *. rewrite He in *.
      rewrite Perm_written, normalized_usable by apply Hu. done.
    + apply remove_missing_crashes; [by intros F [[? _] _]|].
      intros F [Hr Hv]. apply (restored_step done f F); [done..| |].
      { intros q Hq. by rewrite lookup_delete_ne. }
      rewrite lookup_delete_eq. unfold usable in Hu. simpl in *. rewrite He in Hu. by rewrite Hu.
Qed.

Lemma restoreLoop_crashes done l :
  (∀ f, f ∈ l → f ∈ tfiles) →
  crashes good (on_files between) (on_files (restored done)) (restoreLoop writeFn l)
    (λ errs d, on_files between d ∧ (errs = [] → on_files (restored (reverse l ++ done)) d) ∧
               (errs ≠ [] → sick good d)).
Proof.
  revert done. induction l as [|f l IH]; intros done Hl; simpl.
  { apply crashes_ret. intros d Hd. by split; [eapply restored_between|]. }
  eapply crashes_bind; [apply (crashes_attempt good (on_files between)); [apply _|]|].
  { apply restoreFile_crashes. apply Hl. by left. }
  intros [[]|e].
  - eapply crashes_bind; [apply IH; intros g ?; apply Hl; by right|]. intros errs. apply crashes_ret.
    intros d (? & Hr & ?). split_and!; [done| |done]. intros E. rewrite reverse_cons, <- app_assoc. by apply Hr.
  - eapply crashes_bind.
    { apply crashes_sick; [apply _|]. eapply crashes_pre; [apply (IH []); intros g ?; apply Hl; by right|].
      intros d Hd. split; [exact Hd|]. by intros ? ? ?%not_elem_of_nil. }
    intros errs. apply crashes_ret. intros d ((? & _ & _) & ?). by split_and!.
Qed.
Lemma restore_crashes :
  crashes good (on_files between) (on_files between) (restoreMergeTransaction writeFn journal)
    (λ _, on_files (λ F, journalled F ∧ holds inputs F)).
Proof.
  unfold restoreMergeTransaction. eapply crashes_bind.
  { eapply crashes_pre; [apply (restoreLoop_crashes []); intros f; by rewrite elem_of_reverse|].
    intros d Hd. split; [exact Hd|]. by intros ? ? ?%not_elem_of_nil. }
  intros errs. destruct errs as [|e errs]; simpl.
  - apply crashes_ret. intros d (_ & Hr & _). destruct (Hr eq_refl) as [[Hj Hb] Hd]. split; [done|].
    intros p r Hp. destruct (Hb p r Hp) as [?|(f & Hf & <- & _)]; [done|].
    rewrite (entry_input f Hf) in Hp. injection Hp as <-. apply Hd; [done|].
    simpl. by rewrite app_nil_r, reverse_involutive.
  - apply crashes_fail. intros d (? & _ & Hs). split; [done|]. by apply Hs.
Qed.

(** Every state a run can stop in. *)
Definition settled (F : files_map) : Prop := before F ∨ committed F.
Definition recoverable (F : files_map) : Prop := between F ∨ settled F.

Lemma journal_removed F : journalled F ∧ holds inputs F → before (delete jp F).
Proof.
  intros [[_ Hu] Hh]. split; [apply lookup_delete_eq|]. split; [|by apply untouched_delete; [right|]].
  intros p r Hp. rewrite lookup_delete_ne by (symmetry; apply input_not_journal; by eexists). by apply Hh.
Qed.
Lemma old_between F : journalled F ∧ holds inputs F → between F.
Proof. intros [? Hh]. split; [done|]. intros p r Hp. left. by apply Hh. Qed.

Lemma rollback_crashes cause Q :
  crashes good (on_files recoverable) (λ d, on_files between d ∧ sick good d)
    (rollbackFailedMergeTransaction writeFn jp journal cause) Q.
Proof.
  unfold rollbackFailedMergeTransaction. eapply crashes_bind.
  { apply crashes_sick; [apply _|]. apply crashes_attempt; [apply _|apply restore_crashes]. }
  intros [[]|e].
  - eapply crashes_bind.
    { apply crashes_sick; [apply _|]. apply (crashes_attempt good (on_files recoverable)); [apply _|].
      apply (remove_missing_crashes _ recoverable _ before); [|apply journal_removed].
      intros F HF. left. by apply old_between. }
    intros [[]|e]; apply crashes_fail; intros d [Hd Hs]; (split; [|done]); [by right; left|apply Hd].
  - apply crashes_fail. intros d [[Hd _] Hs]. split; [by left|done].
Qed.

(** The snapshots the code goes by while it applies the plans. *)
Definition mixed (cur : snapshots) : Prop :=
  ∀ p r, inputs !! p = Some r →
    ∃ r', cur !! p = Some r' ∧ (r' = r ∨ ∃ f, f ∈ tfiles ∧ tf_Path f = p ∧ r' = post_of f).
Lemma mixed_between cur F : mixed cur → journalled F ∧ holds cur F → between F.
Proof.
  intros Hm [Hj Hh]. split; [done|]. intros p r Hp. destruct (Hm p r Hp) as (r' & Hr' & Hor).
  specialize (Hh _ _ Hr'). simpl in Hh. destruct Hor as [->|(f & ? & ? & ->)]; [by left|right; by exists f].
Qed.
Lemma mixed_inputs : mixed inputs.
Proof. intros p r Hp. exists r. by split; [|left]. Qed.
Lemma mixed_step cur plan : plan ∈ plans → mixed cur → mixed (<[pw_path plan := plan_post plan]> cur).
Proof.
  intros Hplan Hm p r Hp. destruct (decide (p = pw_path plan)) as [->|Hn].
  - exists (plan_post plan). rewrite lookup_insert_eq. split; [done|]. right.
    destruct (plan_entry plan Hplan) as (f & Hf & E & _ & Hpost). by exists f.
  - rewrite lookup_insert_ne by done. by apply Hm.
Qed.
Lemma validate_snapshots_yields (I P : Disk → Prop) cur :
  (∀ d, P d → I d) → (∀ d, P d → holds cur (files d)) →
  yields good I P (validateMergeInputSnapshots cur) ().
Proof.
  intros HI Hh. unfold validateMergeInputSnapshots.
  assert (∀ l, (∀ p r, (p, r) ∈ l → cur !! p = Some r) → yields good I P (validateSnapshotLoop l) ()) as Hl.
  { intros l. induction l as [|[p r] l IH]; intros Hl; simpl; [apply yields_ret|].
    yield ltac:(apply (yields_capture good I P p r)).
    - done.
    - intros d Hd. apply (Hh d Hd). apply Hl. by left.
    - rewrite fileRestoreMatches_refl. simpl. apply IH. intros q r' Hq. apply Hl. by right. }
  apply Hl. intros p r. by rewrite elem_of_map_to_list.
Qed.
Lemma apply_crashes ps cur :
  (∀ plan, plan ∈ ps → plan ∈ plans) → mixed cur →
  crashes good (on_files between) (on_files (λ F, journalled F ∧ holds cur F))
    (applyMergeTransactionPlans writeFn ps cur)
    (λ cur' d, cur' = planned ps cur ∧ on_files (λ F, journalled F ∧ holds cur' F) d).
Proof.
  revert cur. induction ps as [|plan ps IH]; intros cur Hps Hm; simpl; [by apply crashes_ret|].
  eapply yields_bind.
  { apply validate_snapshots_yields; [intros d; by apply mixed_between|by intros d [_ ?]]. }
  eapply crashes_bind.
  { unfold writeAtomic. apply (crashes_mkdir_write _ _ _
      (λ F, journalled F ∧ holds (<[pw_path plan := plan_post plan]> cur) F)).
    - intros F. by apply mixed_between.
    - intros F [[Hj Hu] Hh].
      assert (is_Some (inputs !! pw_path plan)) as Hin.
      { destruct (plan_entry plan (Hps plan ltac:(by left))) as (f & _ & _ & E & _). by eexists. }
      split; [split|].
      + rewrite lookup_insert_ne; [done|]. by apply input_not_journal.
      + apply untouched_insert; [by left|done].
      + intros p r [[<- <-]|[Hn Hp]]%lookup_insert_Some.
        * rewrite lookup_insert_eq. simpl. by rewrite Perm_written.
        * rewrite lookup_insert_ne by done. by apply Hh. }
  intros []. apply IH; [intros q Hq; apply Hps; by right|]. apply mixed_step; [apply Hps; by left|done].
Qed.

Lemma planned_spec ps cur :
  (∀ plan, plan ∈ ps → plan ∈ plans) → mixed cur → (∀ p, is_Some (cur !! p) → is_Some (inputs !! p)) →
  mixed (planned ps cur) ∧ ∀ p, is_Some (planned ps cur !! p) → is_Some (inputs !! p).
Proof.
  revert cur. induction ps as [|plan ps IH]; intros cur Hps Hm Hd; simpl; [done|]. apply IH.
  - intros q Hq. apply Hps. by right.
  - apply mixed_step; [apply Hps; by left|done].
  - intros p. destruct (plan_entry plan (Hps plan ltac:(by left))) as (f & _ & _ & E & _).
    destruct (decide (p = pw_path plan)) as [->|Hn]; [by eexists|].
    rewrite lookup_insert_ne by done. apply Hd.
Qed.
Lemma journal_built : buildMergeTransactionJournal plans inputs = Ok journal.
Proof.
  unfold buildMergeTransactionJournal.
  destruct (buildJournalLoop_run plans inputs ∅ plans_distinct) as (fs & -> & Hfs).
  { apply Forall_forall. intros plan Hp. split; [set_solver|].
    destruct (plan_entry plan Hp) as (f & _ & _ & E & _). by eexists. }
  simpl. do 2 f_equal. unfold journal. f_equal. clear -Hfs entries. revert tfiles entries.
  induction Hfs as [|plan f ps fs (H1 & H2 & H3) _ IH]; intros l Hl; [by inversion Hl|].
  apply Forall2_cons_inv_l in Hl as (g & l' & (G1 & G2 & G3) & Hl' & ->). f_equal; [|by apply IH].
  rewrite G2 in H2. rewrite <- G3 in H3. destruct f, g. unfold pre_of, post_of in *. simpl in *. congruence.
Qed.

Lemma commit_crashes :
  crashes good (on_files recoverable) (on_files before)
    (commitRecoverableTransaction writeFn targetPath plans inputs) (λ _, on_files committed).
Proof.
  unfold commitRecoverableTransaction. eapply yields_bind.
  { apply validate_snapshots_yields; [intros d ?; by right; left|by intros d (_ & ? & _)]. }
  eapply yields_bind.
  { unfold newMergeTransactionJournal. simpl. apply (yields_bind _ _ _ _ _ _ inputs); [apply yields_ret|].
    apply (yields_lift _ _ _ _ journal). apply journal_built. }
  eapply crashes_bind.
  { apply crashes_wrap. unfold saveMergeTransactionJournal, writeAtomic.
    apply (crashes_mkdir_write _ _ _ (λ F, journalled F ∧ holds inputs F)); [intros F ?; by right; left|].
    intros F (_ & Hh & Hu). split; [split|].
    - apply lookup_insert_eq.
    - by apply untouched_insert; [right|].
    - intros p r Hp. rewrite lookup_insert_ne; [by apply Hh|].
      symmetry. apply input_not_journal. by eexists. }
  destruct (planned_spec plans inputs) as [Hm Hdom]; [done|apply mixed_inputs|done|].
  intros []. eapply crashes_bind.
  { apply (crashes_attempt good (on_files between)); [apply _|].
    apply apply_crashes; [done|apply mixed_inputs]. }
  intros [cur|e]; [|apply rollback_crashes].
  apply crashes_pure. intros ->. eapply crashes_bind.
  { apply (crashes_attempt good (on_files between)); [apply snapshots_reads, _|].
    apply (validate_snapshots_yields _ (on_files (λ F, journalled F ∧ holds (planned plans inputs) F)));
      [intros d; by apply mixed_between|by intros d [_ ?]]. }
  intros [[]|e]; [|apply rollback_crashes].
  apply crashes_pure. intros _. apply remove_missing_crashes.
  - intros F HF. left. by eapply mixed_between.
  - intros F ([_ Hu] & Hh). split; [apply lookup_delete_eq|]. split; [|by apply untouched_delete; [right|]].
    intros p r Hp. rewrite lookup_delete_ne; [by apply Hh|].
    symmetry. apply input_not_journal, Hdom. by eexists.
Qed.

(** ** Recovery *)
Lemma validateCurrent_yields (P : Disk → Prop) l :
  (∀ f, f ∈ l → f ∈ tfiles) → (∀ d, P d → on_files between d) →
  crashes good (on_files between) P (validateCurrentLoop l) (λ _, P).
Proof.
  intros Hl HP. induction l as [|f l IH]; simpl; [by apply crashes_ret|].
  assert (f ∈ tfiles) as Hf by (apply Hl; by left). destruct (entry_usable f Hf) as [Hu Hpost].
  assert (∀ r, (∀ d, P d → True) → mergeTransactionMatchesPre r f || mergeTransactionMatchesPost r f = true →
    crashes good (on_files between) (λ d, P d ∧ view (files d !! tf_Path f) = Some r)
      (current ← captureMergeTransactionFile (tf_Path f);
       refuse! negb (mergeTransactionMatchesPre current f || mergeTransactionMatchesPost current f)
         with Errorf "settings transaction path changed after interrupted merge: %s" (AStr <$> tf_Path f);
       validateCurrentLoop l) (λ _, P)) as Hstep.
  { intros r _ Hr. eapply yields_bind; [apply (yields_capture _ _ _ _ r); [by intros d [? _]; apply HP|by intros d [_ ?]]|].
    rewrite Hr. simpl. eapply crashes_pre; [apply IH; intros g ?; apply Hl; by right|by intros d [? _]]. }
  eapply crashes_cases; [|apply (Hstep (pre_of f))|apply (Hstep (post_of f))].
  - intros d Hd. destruct (HP d Hd) as [_ Hb].
    destruct (Hb _ _ (entry_input f Hf)) as [?|(g & Hg & E & ?)]; [by left|].
    right. by rewrite (files_distinct g f Hg Hf E) in *.
  - done.
  - apply orb_true_iff. left. unfold mergeTransactionMatchesPre. simpl. rewrite eqb_reflx. simpl.
    destruct (tf_PreExisted f); [|done]. simpl. by rewrite N.eqb_refl, bool_decide_true.
  - done.
  - apply orb_true_iff. right. unfold mergeTransactionMatchesPost. simpl. by rewrite N.eqb_refl, bool_decide_true.
Qed.
Lemma journal_valid : validateMergeTransactionJournal targetPath journal = Ok ().
Proof.
  unfold validateMergeTransactionJournal. change (tj_Files journal) with tfiles. fold (allowed_paths targetPath).
  assert (∀ f, f ∈ tfiles → tf_Path f ∈ allowed_paths targetPath) as Ha
    by (intros f Hf; apply inputs_allowed; rewrite (entry_input f Hf); by eexists).
  assert (NoDup (tf_Path <$> tfiles)) as Hnd by (rewrite files_paths; done).
  rewrite pass_reject.
  - apply journalPathsLoop_run; [done|]. apply Forall_forall. intros f Hf.
    split_and!; [by apply Ha|set_solver|by apply entry_usable].
  - apply orb_false_iff. split; [apply bool_decide_eq_false, files_nonempty|].
    apply bool_decide_eq_false.
    assert (length tfiles = size (list_to_set (tf_Path <$> tfiles) : gset (list string))) as ->
      by (rewrite <- (length_fmap tf_Path); symmetry; by apply size_list_to_set).
    apply Nat.le_ngt. apply subseteq_size. intros p Hp. apply elem_of_list_to_set, list_elem_of_fmap in Hp as (f & -> & Hf).
    by apply Ha.
Qed.
Lemma load_journal d :
  journalled (files d) →
  loadMergeTransactionJournal jp d =
    (if bool_decide (jp ∈ unreadable d) then Err (err "read failed") else Ok journal, d).
Proof.
  intros [Hj _]. unfold loadMergeTransactionJournal, readJSON, mbind, io_bind.
  case_bool_decide; [done|]. rewrite Hj. cbn -[marshalJournal jp String.append].
  by rewrite unmarshal_marshal.
Qed.
Lemma recover_journal_crashes :
  crashes good (on_files recoverable) (on_files between)
    (_ ← lift (validateMergeTransactionJournal targetPath journal);
     _ ← validateMergeTransactionCurrentFiles journal;
     _ ← io_wrap (λ e, Errorf "recover settings transaction: %w" [AErr e]) (restoreMergeTransaction writeFn journal);
     removeMergeTransactionJournal jp "remove recovered settings transaction journal") (λ _, on_files settled).
Proof.
  eapply yields_bind; [by apply yields_lift, journal_valid|].
  eapply crashes_bind.
  { eapply crashes_weaken; [done| |apply (validateCurrent_yields (on_files between)); done]. intros d ?. by left. }
  intros []. eapply crashes_bind.
  { apply crashes_wrap. eapply crashes_weaken; [done| |apply restore_crashes]. intros d ?. by left. }
  intros []. apply remove_missing_crashes.
  - intros F HF. left. by apply old_between.
  - intros F HF. left. by apply journal_removed.
Qed.
Lemma recover_crashes :
  crashes good (on_files recoverable) (on_files recoverable)
    (recoverSettingsTransaction writeFn targetPath) (λ _, on_files settled).
Proof.
  apply (crashes_cases _ _ _ (on_files between) (on_files settled)); [by intros d| |].
  - intros d Hd. pose proof (recover_journal_crashes d Hd) as Hr. pose proof (load_journal d (proj1 Hd)) as Hl.
    unfold recoverSettingsTransaction, attempt, mbind, io_bind in *. fold jp. rewrite Hl.
    case_bool_decide as Hu; simpl.
    + split; [done|]. split; [by left|]. intros [_ (E & _)]. rewrite E in Hu. set_solver.
    + exact Hr.
  - intros d Hd. assert (files d !! jp = None) as Hj by by destruct Hd as [[? _]|[? _]].
    unfold recoverSettingsTransaction, loadMergeTransactionJournal, readJSON, attempt, mbind, io_bind.
    fold jp. rewrite Hj. case_bool_decide as Hr; simpl.
    + split; [done|]. split; [by right|]. intros [_ (E & _)]. rewrite E in Hr. set_solver.
    + by split.
Qed.
End Run.

(** ** Properties *)

(** A transaction that may start: no journal is left, the snapshots are what is
    on the disk, and each plan replaces a captured settings file once. *)
Record transaction_ready (targetPath : path) (inputs : snapshots) (plans : list plannedWrite) (d : Disk) : Prop := {
  ready_plans : plans ≠ [];
  ready_distinct : NoDup (pw_path <$> plans);
  ready_inputs : Forall (λ plan, is_Some (inputs !! pw_path plan)) plans;
  ready_usable : map_Forall (λ _, usable) inputs;
  ready_allowed : ∀ p, is_Some (inputs !! p) → p ∈ allowed_paths targetPath;
  ready_journal : files d !! mergeTransactionPath targetPath = None;
  ready_holds : holds inputs (files d);
}.
(** One of the two ends of a transaction, nothing else changed. *)
Definition settled_at (targetPath : path) (snapshot : snapshots) (inputs : snapshots) (d d' : Disk) : Prop :=
  files d' !! mergeTransactionPath targetPath = None ∧ holds snapshot (files d') ∧
  ∀ p, inputs !! p = None → p ≠ mergeTransactionPath targetPath → files d' !! p = files d !! p.
(** Recovery started in some environment, wherever it got. *)
Definition recovery_attempt `{JournalCodec} (targetPath : path) (d d' : Disk) : Prop :=
  ∃ env, same_store d env ∧ d' = (recoverSettingsTransaction writeAtomic targetPath env).2.

Section Theorems.
Context `{JournalCodec} (targetPath : path) (inputs : snapshots) (plans : list plannedWrite) (d : Disk).
Context (R : transaction_ready targetPath inputs plans d).

Lemma ready_entries : ∃ tfiles, Forall2 (entry_for inputs) plans tfiles.
Proof.
  destruct (buildJournalLoop_run plans inputs ∅) as (fs & _ & Hfs); [apply R| |by exists fs].
  eapply Forall_impl; [apply R|]. intros plan ?. split; [set_solver|done].
Qed.
Lemma ready_before : before targetPath inputs (files d) (files d).
Proof. split; [apply R|]. split; [apply R|]. by intros p ??. Qed.
Lemma commit_triple tfiles (good : Prop) :
  Forall2 (entry_for inputs) plans tfiles →
  crashes good (on_files (recoverable targetPath inputs plans tfiles (files d)))
    (on_files (before targetPath inputs (files d))) (commitRecoverableTransaction writeAtomic targetPath plans inputs)
    (λ _, on_files (committed targetPath inputs plans (files d))).
Proof. intros He. apply commit_crashes; try apply R; done. Qed.
Lemma commit_healthy_lemma :
  healthy d → ∃ d', commitRecoverableTransaction writeAtomic targetPath plans inputs d = (Ok (), d') ∧
    settled_at targetPath (planned plans inputs) inputs d d' ∧ healthy d'.
Proof.
  intros Hh. destruct ready_entries as [tfiles He].
  destruct (crashes_healthy True _ _ _ _ d (commit_triple tfiles True He)) as ([] & d' & E & Hc & Hh');
    [done|apply ready_before|done|].
  exists d'. split; [done|]. split; [|done]. by destruct Hc as (? & ? & ?).
Qed.
Lemma commit_crash_lemma d1 env :
  rtc (recovery_attempt targetPath) (commitRecoverableTransaction writeAtomic targetPath plans inputs d).2 d1 →
  same_store d1 env → healthy env →
  ∃ d2, recoverSettingsTransaction writeAtomic targetPath env = (Ok (), d2) ∧
    (settled_at targetPath inputs inputs d d2 ∨ settled_at targetPath (planned plans inputs) inputs d d2).
Proof.
  destruct ready_entries as [tfiles He].
  set (I := on_files (recoverable targetPath inputs plans tfiles (files d))).
  assert (∀ good, crashes good I I (recoverSettingsTransaction writeAtomic targetPath)
            (λ _, on_files (settled targetPath inputs plans (files d)))) as Hrec
    by (intros good; apply recover_crashes; try apply R; done).
  intros Hrtc Hs Hh.
  assert (I (commitRecoverableTransaction writeAtomic targetPath plans inputs d).2) as HI.
  { destruct (crashes_end False _ _ _ _ d (commit_triple tfiles False He)) as [[a Ha]|Ha];
      [apply ready_before|by right; right|exact Ha]. }
  assert (I d1) as H1.
  { revert HI. induction Hrtc as [|a b c (e & He' & ->) _ IH]; [done|]. intros Ha. apply IH; [done|].
    destruct (crashes_end False _ _ _ _ e (Hrec False)) as [[u Hu]|?]; [|by right|done].
    by apply (of_store a). }
  destruct (crashes_healthy True _ _ _ _ env (Hrec True)) as ([] & d2 & E & Hc & _);
    [done|by apply (of_store d1)|done|].
  exists d2. split; [done|]. destruct Hc as [(? & ? & ?)|(? & ? & ?)]; [left|right]; by split.
Qed.
End Theorems.

(** A settings transaction that nothing disturbs replaces exactly the planned
    files, with the planned contents and modes, and removes its journal. *)
Theorem commitRecoverableTransaction_commits `{JournalCodec} targetPath inputs plans d :
  transaction_ready targetPath inputs plans d → healthy d →
  ∃ d', commitRecoverableTransaction writeAtomic targetPath plans inputs d = (Ok (), d') ∧
    settled_at targetPath (planned plans inputs) inputs d d'.
Proof. intros R Hh. destruct (commit_healthy_lemma _ _ _ _ R Hh) as (d' & ? & ? & _). by exists d'. Qed.

(** C3: a settings transaction is atomic under crashes and refused accesses.
    Wherever a commit stopped and however often recovery was then interrupted,
    the first recovery in a healthy environment succeeds, and leaves either every
    file as it was captured or every file as planned, no journal, and all other
    files alone. *)
Theorem commitRecoverableTransaction_crash_safe `{JournalCodec} targetPath inputs plans d d1 env :
  transaction_ready targetPath inputs plans d →
  rtc (recovery_attempt targetPath) (commitRecoverableTransaction writeAtomic targetPath plans inputs d).2 d1 →
  same_store d1 env → healthy env →
  ∃ d2, recoverSettingsTransaction writeAtomic targetPath env = (Ok (), d2) ∧
    (settled_at targetPath inputs inputs d d2 ∨ settled_at targetPath (planned plans inputs) inputs d d2).
Proof. intros R. by apply commit_crash_lemma. Qed.

Lemma validateCurrentLoop_refuses l f d r :
  f ∈ l → view (files d !! tf_Path f) = Some r →
  mergeTransactionMatchesPre r f = false → mergeTransactionMatchesPost r f = false →
  ∃ e, validateCurrentLoop l d = (Err e, d).
Proof.
  intros Hf Hv Hpre Hpost. induction l as [|g l IH]; [by apply not_elem_of_nil in Hf|]. simpl.
  assert (∀ p, (captureMergeTransactionFile p d).2 = d ∧
               (∀ r', (captureMergeTransactionFile p d).1 = Ok r' → view (files d !! p) = Some r')) as Hcap.
  { intros p. unfold captureMergeTransactionFile. case_bool_decide; [done|].
    destruct (files d !! p) as [[]|]; simpl; (split; [done|]); intros ? [= <-]; done. }
  unfold mbind, io_bind. destruct (Hcap (tf_Path g)) as [H1 H2].
  destruct (captureMergeTransactionFile (tf_Path g) d) as [[c|e] d']; simpl in *; subst d'; [|by eexists].
  destruct (negb _) eqn:Hm; [by eexists|]. apply IH.
  apply elem_of_cons in Hf as [->|Hf]; [|done]. specialize (H2 c eq_refl). simplify_eq.
  by rewrite Hpre, Hpost in Hm.
Qed.
(** C30: recovery never overwrites an edit.  When a journal is left behind and one
    of its files is neither what it was before nor what the transaction wrote,
    recovery fails and changes nothing. *)
Theorem recoverSettingsTransaction_refuses_edits `{JournalCodec} targetPath d c j f r :
  files d !! mergeTransactionPath targetPath = Some (DocFile c) → unmarshalJournal (fc_Data c) = Some j →
  f ∈ tj_Files j → view (files d !! tf_Path f) = Some r →
  mergeTransactionMatchesPre r f = false → mergeTransactionMatchesPost r f = false →
  ∃ e, recoverSettingsTransaction writeAtomic targetPath d = (Err e, d).
Proof.
  intros Hj Hu Hf Hv Hpre Hpost.
  unfold recoverSettingsTransaction, loadMergeTransactionJournal, readJSON, attempt, mbind, io_bind.
  case_bool_decide; [by eexists|]. rewrite Hj. simpl. rewrite Hu.
  destruct (negb _); [by eexists|]. simpl.
  destruct (validateMergeTransactionJournal targetPath j); simpl; [|by eexists].
  destruct (validateCurrentLoop_refuses (tj_Files j) f d r Hf Hv Hpre Hpost) as [e E].
  unfold validateMergeTransactionCurrentFiles. rewrite E. by eexists.
Qed.

(** A codec, and a machine that loses power in the middle of a merge. *)
#[export] Instance mergeTransactionFile_eq_dec : EqDecision mergeTransactionFile.
Proof. solve_decision. Defined.
#[export] Instance mergeTransactionFile_countable : Countable mergeTransactionFile.
Proof.
  refine (inj_countable'
    (λ f, (tf_Path f, tf_PreExisted f, tf_PreData f, (tf_PreMode f, tf_PostData f, tf_PostMode f)))
    (λ '(p, e, d, (m, d', m')), Build_mergeTransactionFile p e d m d' m') _).
  by intros [].
Defined.
#[export] Instance demo_journal_codec : JournalCodec.
Proof.
  refine {| marshalJournal j := encode_text (tj_Version j, tj_Files j);
            unmarshalJournal s := p ← decode_text s; Some {| tj_Version := p.1; tj_Files := p.2 |} |}.
  intros []. by rewrite decode_encode_text.
Defined.

Definition demo_target : list string := ["home"; "settings.json"].
Definition demo_disk (power : option nat) : Disk := {|
  files := {[demo_target := DocFile {| fc_Data := "old"; fc_Mode := 420 |};
             ["home"; "notes.txt"] := DocFile {| fc_Data := "mine"; fc_Mode := 420 |}]};
  dirs := {[["home"]]}; unreadable := ∅; unwritable := ∅; power := power;
  clock := Z.of_nat; ticks := 0; random _ := None; draws := 0;
|}.
Definition demo_inputs : snapshots :=
  {[demo_target := {| fr_existed := true; fr_data := "old"; fr_mode := 420 |};
    statePathFor demo_target := absentFile; ManagedStatePath demo_target := absentFile]}.
Definition demo_plans : list plannedWrite :=
  [{| pw_path := demo_target; pw_data := "new"; pw_mode := 420 |};
   {| pw_path := ManagedStatePath demo_target; pw_data := "state"; pw_mode := mode600 |}].
#[export] Instance usable_dec r : Decision (usable r).
Proof. unfold usable. destruct (fr_existed r); apply _. Defined.
Lemma demo_ready power : transaction_ready demo_target demo_inputs demo_plans (demo_disk power).
Proof.
  split; [done|..].
  - apply (bool_decide_eq_true_1 _). vm_compute. reflexivity.
  - apply (bool_decide_eq_true_1 _). vm_compute. reflexivity.
  - apply (bool_decide_eq_true_1 _). vm_compute. reflexivity.
  - assert (map_Forall (λ p _, p ∈ allowed_paths demo_target) demo_inputs) as Ha
      by (apply (bool_decide_eq_true_1 _); vm_compute; reflexivity).
    intros p [r Hr]. exact (Ha p r Hr).
  - vm_compute. reflexivity.
  - apply (bool_decide_eq_true_1 (holds demo_inputs (files (demo_disk None)))). vm_compute. reflexivity.
Qed.
Definition demo_stopped : Disk :=
  (commitRecoverableTransaction writeAtomic demo_target demo_plans demo_inputs (demo_disk (Some 4))).2.
(** The target is written, the managed state is not, the journal is there. *)
Example demo_stopped_between :
  view (files demo_stopped !! demo_target) = Some {| fr_existed := true; fr_data := "new"; fr_mode := 420 |} ∧
  view (files demo_stopped !! ManagedStatePath demo_target) = Some absentFile ∧
  is_Some (files demo_stopped !! mergeTransactionPath demo_target).
Proof. apply (bool_decide_eq_true_1 _). vm_compute. reflexivity. Qed.

Lemma commitRecoverableTransaction_commits_witness :
  ∃ d', commitRecoverableTransaction writeAtomic demo_target demo_plans demo_inputs (demo_disk None) = (Ok (), d') ∧
    settled_at demo_target (planned demo_plans demo_inputs) demo_inputs (demo_disk None) d'.
Proof.
  apply (commitRecoverableTransaction_commits demo_target demo_inputs demo_plans (demo_disk None) (demo_ready None)).
  by split.
Defined.
Lemma commitRecoverableTransaction_crash_safe_witness :
  ∃ d2, recoverSettingsTransaction writeAtomic demo_target (mend demo_stopped) = (Ok (), d2) ∧
    (settled_at demo_target demo_inputs demo_inputs (demo_disk (Some 4)) d2 ∨
     settled_at demo_target (planned demo_plans demo_inputs) demo_inputs (demo_disk (Some 4)) d2).
Proof.
  apply (commitRecoverableTransaction_crash_safe demo_target demo_inputs demo_plans (demo_disk (Some 4)) demo_stopped
           (mend demo_stopped) (demo_ready (Some 4))).
  - apply rtc_refl.
  - apply mend_store.
  - apply mend_healthy.
Defined.
(** After the crash the user edits the target. *)
Definition demo_entry : mergeTransactionFile :=
  {| tf_Path := demo_target; tf_PreExisted := true; tf_PreData := "old"; tf_PreMode := 420;
     tf_PostData := "new"; tf_PostMode := 420 |}.
Definition demo_journal : mergeTransactionJournal :=
  {| tj_Version := mergeTransactionVersion; tj_Files := [demo_entry] |}.
Definition demo_edited : Disk :=
  put_file demo_target (DocFile {| fc_Data := "edited"; fc_Mode := 420 |})
    (put_file (mergeTransactionPath demo_target)
       (DocFile {| fc_Data := marshalJournal demo_journal +:+ String LF ""; fc_Mode := mode600 |}) (demo_disk None)).
Lemma recoverSettingsTransaction_refuses_edits_witness :
  ∃ e, recoverSettingsTransaction writeAtomic demo_target demo_edited = (Err e, demo_edited).
Proof.
  apply (recoverSettingsTransaction_refuses_edits demo_target demo_edited
    {| fc_Data := marshalJournal demo_journal +:+ String LF ""; fc_Mode := mode600 |} demo_journal demo_entry
    {| fr_existed := true; fr_data := "edited"; fr_mode := 420 |}).
  - unfold demo_edited. rewrite !files_put. rewrite lookup_insert_ne by done. apply lookup_insert_eq.
  - apply unmarshal_marshal.
  - by left.
  - reflexivity.
  - reflexivity.
  - reflexivity.
Defined.
