(* ===== verification/SettingsMerge.v ===== *)
(** * Merging settings files

    Models the rest of [internal/settingsmerge] ([merge.go]) and
    [internal/claudeoverride]: one merge reads the user's settings, the
    installer's fragment, the local override of the environment and the two state
    files of the last merge, takes back what the last merge put into [env],
    reconciles the managed values ([ManagedSettings]), puts the override on top
    and commits the changed files as one transaction ([SettingsTransaction]).
    The lock that runs merges one at a time is not represented. *)
From S2P Require Import Prelude GoStrings Json ManagedSettings ControllerTypes ControllerStore MutationControl CrashLogic SettingsTransaction.

Record envBaseline := { eb_Exists : bool; eb_Value : json }.
Record overrideState := { os_Version : Z; os_Env : gmap string envBaseline }.
Record EnvOverride := { eo_Sets : gmap string string; eo_Deletes : list string }.
#[export] Instance envBaseline_eq_dec : EqDecision envBaseline.
Proof. solve_decision. Defined.
#[export] Instance overrideState_eq_dec : EqDecision overrideState.
Proof. solve_decision. Defined.

Definition overrideStateVersion : Z := 1.

(** [encoding/json] on the three kinds of settings files.  A string of the model
    stands for Unicode text, a number for the text of a JSON number; for those,
    what is marshalled decodes to itself.  [parseJSON] is a text that holds a
    single value. *)
Class SettingsCodec := {
  parseJSON : string → option json;
  marshalSettings : object → string;
  unmarshalOverrideState : string → option overrideState;
  marshalOverrideState : overrideState → string;
  unmarshalManagedState : string → option managedState;
  marshalManagedState : managedState → string;
  parse_marshal o : parseJSON (marshalSettings o +:+ String LF "") = Some (JObject o);
  unmarshal_override s : unmarshalOverrideState (marshalOverrideState s +:+ String LF "") = Some s;
  unmarshal_managed s : unmarshalManagedState (marshalManagedState s +:+ String LF "") = Some s;
}.

(** ** The local override ([claudeoverride]) *)
Definition decodeTopLevel (value : json) : result error object :=
  match value with
  | JObject raw =>
      match filter (λ key, key ≠ "env") (sortedMapKeys raw) with
      | key :: _ => Err (Errorf "top-level key %qは許可されません (envのみ)" [AStr key])
      | [] => Ok raw
      end
  | JNull => Err (err "override JSON: top-level nullは許可されません")
  | _ => Err (err "override JSON: top-levelはobjectのみ許可されます")
  end.
Fixpoint decodeEntriesLoop (entries : list (string * json)) : result error EnvOverride :=
  match entries with
  | [] => Ok {| eo_Sets := ∅; eo_Deletes := [] |}
  | (key, value) :: entries =>
      override ← decodeEntriesLoop entries;
      match value with
      | JString typed => Ok {| eo_Sets := <[key := typed]> (eo_Sets override); eo_Deletes := eo_Deletes override |}
      | JNull => Ok {| eo_Sets := eo_Sets override; eo_Deletes := key :: eo_Deletes override |}
      | _ => Err (Errorf "override env %qはstringかnullのみ許可されます" [AStr key])
      end
  end.
Definition decodeEntries (entries : object) : result error EnvOverride :=
  decodeEntriesLoop (sorted_fields entries).
Definition noOverride : EnvOverride := {| eo_Sets := ∅; eo_Deletes := [] |}.
Definition decodeEnv (raw : object) : result error EnvOverride :=
  match raw !! "env" with
  | None => Ok noOverride
  | Some JNull => Err (err "override env: nullは許可されません (objectまたは空object)")
  | Some (JObject entries) => decodeEntries entries
  | Some _ => Err (err "override env: objectのみ許可されます")
  end.

Section Codec.
Context `{SettingsCodec}.

Definition Decode (data : string) : result error EnvOverride :=
  match parseJSON data with
  | None => Err (Errorf "override JSON: %w" [AErr (err "invalid JSON")])
  | Some value => raw ← decodeTopLevel value; decodeEnv raw
  end.
(** [overridePath] is [None] for the empty path. *)
Definition Load (overridePath : option path) : io EnvOverride :=
  match overridePath with
  | None => mret noOverride
  | Some p =>
      r ← attempt (readJSON (A:=FileContent) p);
      match r with
      | Err e => if IsNotExist e then mret noOverride else fail e
      | Ok content => lift (Decode (fc_Data content))
      end
  end.

(** ** Reading the inputs *)
Definition decodeObjectBytes (data : string) : result error object :=
  match parseJSON data with
  | None => Err (err "invalid JSON")
  | Some JNull => Err (err "top-level value must be an object")
  | Some (JObject object) => Ok object
  | Some _ => Err (err "json: cannot unmarshal into Go value of type map[string]interface {}")
  end.
Definition objectFromSnapshot (snapshot : fileRestore) : result error (object * N) :=
  if negb (fr_existed snapshot) then Ok (∅, mode600)
  else object ← decodeObjectBytes (fr_data snapshot); Ok (object, Perm (fr_mode snapshot)).
Definition overrideStateFromSnapshot (snapshot : fileRestore) : result error overrideState :=
  if negb (fr_existed snapshot) then Ok {| os_Version := overrideStateVersion; os_Env := ∅ |}
  else
    match unmarshalOverrideState (fr_data snapshot) with
    | None => Err (Errorf "state JSON: %w" [AErr (err "invalid JSON")])
    | Some state =>
        reject! negb (bool_decide (os_Version state = overrideStateVersion))
          with Errorf "state version %dは未対応 (期待 %d)"
                 [AInt (Z.to_nat (os_Version state)); AInt (Z.to_nat overrideStateVersion)];
        Ok state
    end.
Definition managedStateFromSnapshot (snapshot : fileRestore) : result error managedState :=
  if negb (fr_existed snapshot) then Ok {| ms_Version := managedStateVersion; ms_Values := [] |}
  else
    match unmarshalManagedState (fr_data snapshot) with
    | None => Err (Errorf "state JSON: %w" [AErr (err "invalid JSON")])
    | Some state =>
        reject! negb (bool_decide (ms_Version state = managedStateVersion))
          with Errorf "managed state version %d is unsupported (expected %d)"
                 [AInt (Z.to_nat (ms_Version state)); AInt (Z.to_nat managedStateVersion)];
        _ ← validateManagedState state;
        Ok state
    end.
Definition readObject (p : path) : io (object * N) :=
  content ← readJSON (A:=FileContent) p;
  object ← lift (decodeObjectBytes (fc_Data content));
  mret (object, Perm (fc_Mode content)).

Record preparedMerge := {
  pm_target : object;
  pm_targetMode : N;
  pm_fragment : object;
  pm_override : EnvOverride;
  pm_previousOverride : overrideState;
  pm_previousManaged : managedState;
  pm_overrideStatePath : path;
  pm_managedStatePath : path;
  pm_inputs : snapshots;
}.
Definition wrap1 (format : string) (e : error) : error := Errorf format [AErr e].
Definition prepareMergeInputs (targetPath fragmentPath : path) (overridePath : option path) : io preparedMerge :=
  targetSnapshot ← io_wrap (wrap1 "target JSON: %w") (captureMergeTransactionFile targetPath);
  '(target, targetMode) ← io_wrap (wrap1 "target JSON: %w") (lift (objectFromSnapshot targetSnapshot));
  '(fragment, _) ← io_wrap (wrap1 "fragment JSON: %w") (readObject fragmentPath);
  override ← io_wrap (wrap1 "env override: %w") (Load overridePath);
  let overrideStatePath := statePathFor targetPath in
  overrideSnapshot ← io_wrap (wrap1 "env override state: %w") (captureMergeTransactionFile overrideStatePath);
  previousOverride ← io_wrap (wrap1 "env override state: %w") (lift (overrideStateFromSnapshot overrideSnapshot));
  let managedStatePath := ManagedStatePath targetPath in
  managedSnapshot ← io_wrap (wrap1 "managed state: %w") (captureMergeTransactionFile managedStatePath);
  previousManaged ← io_wrap (wrap1 "managed state: %w") (lift (managedStateFromSnapshot managedSnapshot));
  mret {|
    pm_target := target; pm_targetMode := targetMode; pm_fragment := fragment; pm_override := override;
    pm_previousOverride := previousOverride; pm_previousManaged := previousManaged;
    pm_overrideStatePath := overrideStatePath; pm_managedStatePath := managedStatePath;
    pm_inputs := <[managedStatePath := managedSnapshot]>
                   (<[overrideStatePath := overrideSnapshot]> {[targetPath := targetSnapshot]})
  |}.
End Codec.

(** ** The environment *)
Definition ensureEnvMap (target : object) : object := default ∅ (target !! "env" ≫= as_object).
Definition applyBaseline (key : string) (baseline : envBaseline) (env : object) : object :=
  if eb_Exists baseline then <[key := eb_Value baseline]> env else delete key env.
Definition restoreEnvBaselines (target : object) (state : overrideState) : object :=
  if bool_decide (os_Env state = ∅) then target
  else <["env" := JObject (map_fold applyBaseline (ensureEnvMap target) (os_Env state))]> target.
Definition envBaselineOf (env : object) (key : string) : envBaseline :=
  match env !! key with
  | None => {| eb_Exists := false; eb_Value := JNull |}
  | Some value => {| eb_Exists := true; eb_Value := value |}
  end.
Definition overrides (override : EnvOverride) : bool :=
  negb (bool_decide (eo_Sets override = ∅) && bool_decide (eo_Deletes override = [])).
Definition snapshotEnvBaselines (target : object) (override : EnvOverride) : overrideState :=
  {| os_Version := overrideStateVersion;
     os_Env :=
       if negb (overrides override) then ∅
       else
         let env := default ∅ (target !! "env" ≫= as_object) in
         foldl (λ state key, <[key := envBaselineOf env key]> state)
           (foldl (λ state key, <[key := envBaselineOf env key]> state) ∅ (sortedMapKeys (eo_Sets override)))
           (eo_Deletes override) |}.
Definition applyEnvPatch (target : object) (override : EnvOverride) : object :=
  if negb (overrides override) then target
  else
    let env := foldl (λ env key, delete key env) (ensureEnvMap target) (eo_Deletes override) in
    let env := map_fold (λ key value, <[key := JString value]>) env (eo_Sets override) in
    <["env" := JObject env]> target.

(** ** Shared maps

    [restoreEnvBaselines] puts a baseline's value into the target without
    cloning it: when it is an object, the previous override state and the target
    share it while it stays bound to its key under [env], and what reconciling
    writes below that key changes both.  [sh_cells] are the shared objects,
    [sh_bound] the keys they are still bound to. *)
Record sharedObject := { sh_object : object; sh_cells : gmap string object; sh_bound : gset string }.
Definition object_at_env (o : object) (key : string) : object :=
  default ∅ (at_path ["env"; key] (Some (JObject o)) ≫= as_object).
Definition share_rewrite (t : sharedObject) (p : list string) (o : object) : sharedObject :=
  let bound := match p with
               | ["env"] => ∅
               | ["env"; key] => sh_bound t ∖ {[key]}
               | _ => sh_bound t
               end in
  {| sh_object := o;
     sh_cells := map_imap (λ key cell, Some (if bool_decide (key ∈ bound) then object_at_env o key else cell))
                   (sh_cells t);
     sh_bound := bound |}.
#[export] Instance shared_store : ObjectStore sharedObject :=
  {| object_of := sh_object; rewrite_at := share_rewrite; object_of_rewrite _ _ _ := eq_refl |}.
(** The target after [restoreEnvBaselines], with what it shares. *)
Definition share_baselines (target : object) (state : overrideState) : sharedObject :=
  let cells := omap (λ b, if eb_Exists b then as_object (eb_Value b) else None) (os_Env state) in
  {| sh_object := restoreEnvBaselines target state; sh_cells := cells; sh_bound := dom cells |}.
(** The previous override state once its shared objects were written to. *)
Definition override_after (state : overrideState) (t : sharedObject) : overrideState :=
  {| os_Version := os_Version state;
     os_Env := map_imap (λ key b, Some (match sh_cells t !! key with
                                        | Some cell => {| eb_Exists := eb_Exists b; eb_Value := JObject cell |}
                                        | None => b
                                        end)) (os_Env state) |}.

(** ** The merge *)
Section Merge.
Context `{SettingsCodec, JournalCodec}.

Definition planWrites (targetPath overrideStatePath managedStatePath : path) (targetMode : N) (target : object)
    (nextOverride : overrideState) (nextManaged : managedState) (before : object)
    (previousOverride : overrideState) (previousManaged : managedState) : list plannedWrite * bool :=
  let targetChanged := negb (bool_decide (before = target)) in
  let plan (changed : bool) p data mode :=
    if changed then [{| pw_path := p; pw_data := data +:+ String LF ""; pw_mode := mode |}] else [] in
  (plan targetChanged targetPath (marshalSettings target) targetMode ++
   plan (negb (bool_decide (nextOverride = previousOverride))) overrideStatePath
     (marshalOverrideState nextOverride) mode600 ++
   plan (negb (bool_decide (nextManaged = previousManaged))) managedStatePath
     (marshalManagedState nextManaged) mode600, targetChanged).

Context (writeFn : path → string → N → io unit).
Definition mergeFilesUnlocked (targetPath fragmentPath : path) (overridePath : option path) : io bool :=
  _ ← recoverSettingsTransaction writeFn targetPath;
  prepared ← prepareMergeInputs targetPath fragmentPath overridePath;
  let before := pm_target prepared in
  let target := share_baselines before (pm_previousOverride prepared) in
  '(target, nextManaged) ← lift (reconcileManagedValues target (pm_previousManaged prepared) (pm_fragment prepared));
  let previousOverride := override_after (pm_previousOverride prepared) target in
  let nextOverride := snapshotEnvBaselines (object_of target) (pm_override prepared) in
  let target := applyEnvPatch (object_of target) (pm_override prepared) in
  let '(plans, targetChanged) :=
    planWrites targetPath (pm_overrideStatePath prepared) (pm_managedStatePath prepared) (pm_targetMode prepared)
      target nextOverride nextManaged before previousOverride (pm_previousManaged prepared) in
  if bool_decide (length plans = 0) then mret false
  else
    _ ← commitRecoverableTransaction writeFn targetPath plans (pm_inputs prepared);
    mret targetChanged.
End Merge.

(** ** Taking the override back *)
Section Env.
Implicit Types (target env : object) (override : EnvOverride).

Lemma restore_env_lookup m env k :
  map_fold applyBaseline env m !! k =
  match m !! k with Some b => if eb_Exists b then Some (eb_Value b) else None | None => env !! k end.
Proof.
  revert k. apply (map_fold_weak_ind (λ (env' : object) m, ∀ k, env' !! k =
    match m !! k with Some b => if eb_Exists b then Some (eb_Value b) else None | None => env !! k end)).
  - intros k. by rewrite lookup_empty.
  - intros i b m' env' Hi IH k. unfold applyBaseline. destruct (decide (k = i)) as [->|Hk].
    + rewrite lookup_insert_eq. destruct (eb_Exists b); [apply lookup_insert_eq|apply lookup_delete_eq].
    + rewrite (lookup_insert_ne _ i k) by done. rewrite <- IH.
      destruct (eb_Exists b); [by rewrite lookup_insert_ne|by rewrite lookup_delete_ne].
Qed.
Definition override_keys override : list string := sortedMapKeys (eo_Sets override) ++ eo_Deletes override.
Lemma snapshot_loop_lookup env keys (m : gmap string envBaseline) k :
  foldl (λ state key, <[key := envBaselineOf env key]> state) m keys !! k =
  if bool_decide (k ∈ keys) then Some (envBaselineOf env k) else m !! k.
Proof.
  revert m. induction keys as [|key keys IH]; intros m; [by rewrite bool_decide_false by apply not_elem_of_nil|].
  simpl.
  rewrite IH. destruct (decide (k ∈ keys)) as [Hk|Hk].
  - rewrite !bool_decide_true; [done|by right|done].
  - rewrite (bool_decide_false (k ∈ keys)) by done. destruct (decide (k = key)) as [->|Hn].
    + rewrite bool_decide_true by by left. apply lookup_insert_eq.
    + rewrite bool_decide_false by by intros [?|?]%elem_of_cons. by apply lookup_insert_ne.
Qed.
Lemma snapshot_lookup target override k :
  overrides override = true →
  os_Env (snapshotEnvBaselines target override) !! k =
  if bool_decide (k ∈ override_keys override) then Some (envBaselineOf (ensureEnvMap target) k) else None.
Proof.
  intros Ho. unfold snapshotEnvBaselines, override_keys. simpl. rewrite Ho. simpl.
  rewrite !snapshot_loop_lookup, lookup_empty.
  destruct (decide (k ∈ eo_Deletes override)) as [Hd|Hd].
  - rewrite !bool_decide_true; [done|apply elem_of_app; by right|done].
  - rewrite (bool_decide_false (k ∈ eo_Deletes override)) by done.
    do 2 case_bool_decide; done || (rewrite elem_of_app in *; tauto).
Qed.
Lemma overrides_keys override : overrides override = true → override_keys override ≠ [].
Proof.
  unfold overrides, override_keys. intros Ho [Hs Hd]%app_nil. rewrite Hd in Ho.
  rewrite bool_decide_true in Ho; [done|].
  apply map_eq. intros k. rewrite lookup_empty. apply eq_None_not_Some. intros Hk%elem_of_sortedMapKeys.
  rewrite Hs in Hk. by apply not_elem_of_nil in Hk.
Qed.
Lemma deletes_lookup keys (env : object) k :
  foldl (λ env key, delete key env) env keys !! k = if bool_decide (k ∈ keys) then None else env !! k.
Proof.
  revert env. induction keys as [|key keys IH]; intros env; [by rewrite bool_decide_false by apply not_elem_of_nil|].
  simpl.
  rewrite IH. destruct (decide (k ∈ keys)) as [Hk|Hk].
  - rewrite !bool_decide_true; [done|by right|done].
  - rewrite (bool_decide_false (k ∈ keys)) by done. destruct (decide (k = key)) as [->|Hn].
    + rewrite bool_decide_true by by left. apply lookup_delete_eq.
    + rewrite bool_decide_false by by intros [?|?]%elem_of_cons. by apply lookup_delete_ne.
Qed.
Lemma sets_lookup (sets : gmap string string) env k :
  map_fold (λ key value, <[key := JString value]>) env sets !! k =
  match sets !! k with Some v => Some (JString v) | None => env !! k end.
Proof.
  revert k. apply (map_fold_weak_ind (λ (env' : object) m, ∀ k, env' !! k =
    match m !! k with Some v => Some (JString v) | None => env !! k end)).
  - intros k. by rewrite lookup_empty.
  - intros i v m' env' Hi IH k. destruct (decide (k = i)) as [->|Hk]; [by rewrite !lookup_insert_eq|].
    rewrite !lookup_insert_ne by done. apply IH.
Qed.
(** What an override puts on top of a target, and what is taken back. *)
Definition patched_env target override : object :=
  map_fold (λ key value, <[key := JString value]>)
    (foldl (λ env key, delete key env) (ensureEnvMap target) (eo_Deletes override)) (eo_Sets override).
Lemma applyEnvPatch_on target override :
  overrides override = true → applyEnvPatch target override = <["env" := JObject (patched_env target override)]> target.
Proof. intros Ho. unfold applyEnvPatch. by rewrite Ho. Qed.
Lemma patched_env_other target override k :
  k ∉ override_keys override → patched_env target override !! k = ensureEnvMap target !! k.
Proof.
  unfold override_keys. rewrite elem_of_app. intros Hk. unfold patched_env. rewrite sets_lookup, deletes_lookup.
  rewrite bool_decide_false by tauto. destruct (eo_Sets override !! k) eqn:E; [|done].
  destruct Hk. left. apply elem_of_sortedMapKeys. by eexists.
Qed.
Lemma ensureEnvMap_insert target env : ensureEnvMap (<["env" := JObject env]> target) = env.
Proof. unfold ensureEnvMap. by rewrite lookup_insert_eq. Qed.
(** Whatever the override does, the baselines undo it; an [env] that was no
    object has become one. *)
Lemma restore_patched target override :
  restoreEnvBaselines (applyEnvPatch target override) (snapshotEnvBaselines target override) =
  if overrides override then <["env" := JObject (ensureEnvMap target)]> target else target.
Proof.
  destruct (overrides override) eqn:Ho.
  - rewrite applyEnvPatch_on by done. unfold restoreEnvBaselines.
    rewrite bool_decide_false; cycle 1.
    { destruct (override_keys override) as [|k keys] eqn:Hk; [by apply overrides_keys in Ho|].
      intros E. pose proof (snapshot_lookup target override k Ho) as Hs.
      rewrite E, lookup_empty, Hk, bool_decide_true in Hs by by left. done. }
    rewrite ensureEnvMap_insert, insert_insert_eq. do 2 f_equal. apply map_eq. intros k.
    rewrite restore_env_lookup, snapshot_lookup by done. case_bool_decide as Hk.
    + unfold envBaselineOf. by destruct (ensureEnvMap target !! k).
    + by apply patched_env_other.
  - unfold restoreEnvBaselines, snapshotEnvBaselines, applyEnvPatch. rewrite Ho. simpl.
    by rewrite bool_decide_true.
Qed.
Lemma patch_ensured target override :
  overrides override = true →
  applyEnvPatch (<["env" := JObject (ensureEnvMap target)]> target) override = applyEnvPatch target override ∧
  snapshotEnvBaselines (<["env" := JObject (ensureEnvMap target)]> target) override =
    snapshotEnvBaselines target override.
Proof.
  intros Ho. split.
  - rewrite !applyEnvPatch_on by done. unfold patched_env. by rewrite ensureEnvMap_insert, insert_insert_eq.
  - unfold snapshotEnvBaselines. by rewrite !Ho, lookup_insert_eq.
Qed.
End Env.

(** ** The computation between reading and writing *)
Definition merge_core (before : object) (previous : overrideState) (managed : managedState) (fragment : object)
    (override : EnvOverride) : result error (object * overrideState * managedState * overrideState) :=
  '(target, next) ← reconcileManagedValues (share_baselines before previous) managed fragment;
  Ok (applyEnvPatch (sh_object target) override, snapshotEnvBaselines (sh_object target) override, next,
      override_after previous target).
(** Baselines that share nothing: none is an object. *)
Definition scalar (state : overrideState) : Prop :=
  map_Forall (λ _ b, eb_Exists b = true → as_object (eb_Value b) = None) (os_Env state).
(** A fragment whose [env], if any, is an object. *)
Definition env_shaped (fragment : object) : Prop :=
  ∀ v, fragment !! "env" = Some v → is_Some (as_object v).

Lemma merge_core_plain before previous managed fragment override target next O' after :
  merge_core before previous managed fragment override = Ok (target, O', next, after) →
  ∃ t, reconcileManagedValues (restoreEnvBaselines before previous) managed fragment = Ok (t, next) ∧
       target = applyEnvPatch t override ∧ O' = snapshotEnvBaselines t override.
Proof.
  unfold merge_core. pose proof (reconcileManagedValues_shadows (share_baselines before previous) managed fragment) as Hs.
  destruct (reconcileManagedValues (share_baselines before previous) managed fragment) as [[t n]|]; [|done].
  simpl in Hs. intros [= <- <- <- _]. exists (sh_object t). by rewrite <- Hs.
Qed.
Lemma merge_core_scalar before previous managed fragment override :
  scalar previous →
  merge_core before previous managed fragment override =
    ('(t, next) ← reconcileManagedValues (restoreEnvBaselines before previous) managed fragment;
     Ok (applyEnvPatch t override, snapshotEnvBaselines t override, next, previous)).
Proof.
  intros Hsc. unfold merge_core.
  pose proof (reconcileManagedValues_shadows (share_baselines before previous) managed fragment) as Hs.
  assert (∀ t p o, sh_cells t = ∅ → sh_cells (rewrite_at t p o) = ∅) as Hrw
    by (intros t p o Ht; cbn; by rewrite Ht, map_imap_empty).
  pose proof (reconcileManagedValues_keeps (λ t, sh_cells t = ∅) Hrw (share_baselines before previous) managed fragment) as Hk.
  assert (sh_cells (share_baselines before previous) = ∅) as Hcells.
  { simpl. apply map_eq. intros k. rewrite lookup_omap, lookup_empty.
    destruct (os_Env previous !! k) as [b|] eqn:E; [|done]. simpl. specialize (Hsc _ _ E). simpl in Hsc.
    destruct (eb_Exists b); [by apply Hsc|done]. }
  specialize (Hk Hcells). change (object_of (share_baselines before previous)) with (restoreEnvBaselines before previous) in Hs.
  rewrite <- Hs. destruct (reconcileManagedValues (share_baselines before previous) managed fragment) as [[t n]|]; [|done].
  simpl in *. unfold override_after. do 2 f_equal. destruct previous as [v env]. f_equal. simpl. apply map_eq. intros k.
  rewrite map_lookup_imap, Hk. destruct (env !! k) eqn:E; simpl; rewrite ?E; simpl; [|done]. by rewrite lookup_empty.
Qed.

(** What one merge leaves, the same merge leaves alone. *)
Lemma leaf_not_env fragment l : env_shaped fragment → l ∈ flattenManagedObject fragment → ml_Path l ≠ ["env"].
Proof.
  intros He Hl E. rewrite flattenManagedObject_value in Hl. apply flatten_at in Hl as (p & Hp & Hat & Hno).
  simpl in Hp. rewrite E in Hp. subst p. simpl in Hat. destruct (fragment !! "env") as [v|] eqn:Hf; [|done].
  simpl in Hat. injection Hat as ->. destruct (He _ Hf) as [o Ho]. congruence.
Qed.
Lemma at_path_ensured p (t : object) v :
  p ≠ ["env"] → p ≠ [] → at_path p (Some (JObject t)) = Some v →
  at_path p (Some (JObject (<["env" := JObject (ensureEnvMap t)]> t))) = Some v.
Proof.
  intros Hp Hne. destruct p as [|k p]; [done|]. simpl. destruct (decide (k = "env")) as [->|Hk].
  - rewrite lookup_insert_eq. destruct p as [|k' p]; [done|]. unfold ensureEnvMap. simpl.
    intros (o & Ho & Hat)%bind_Some. rewrite Ho. done.
  - by rewrite lookup_insert_ne.
Qed.
Lemma merge_core_stable before previous managed fragment override target O' next after :
  wf_state (ms_Values managed) → env_shaped fragment → scalar O' →
  merge_core before previous managed fragment override = Ok (target, O', next, after) →
  merge_core target O' next fragment override = Ok (target, O', next, O').
Proof.
  intros Hwf He Hsc Hcore. rewrite merge_core_scalar by done.
  apply merge_core_plain in Hcore as (t & Hrec & -> & ->). rewrite restore_patched.
  set (t1 := if overrides override then <["env" := JObject (ensureEnvMap t)]> t else t).
  destruct (reconcile_spec_lemma _ _ _ _ _ Hwf Hrec) as (_ & _ & Hrecs & _ & Hwf' & _).
  assert (reconcileManagedValues t1 next fragment = Ok (t1, next)) as ->.
  { apply reconcile_stable; [by eapply reconcile_version|done..|].
    pose proof (reconcile_in_force _ _ _ _ _ Hwf Hrec) as Hin. unfold t1.
    destruct (overrides override); [|done]. rewrite Forall_forall in Hin |- *. intros r Hr.
    apply at_path_ensured; [| |by apply Hin].
    - apply (list_elem_of_fmap_2 (λ r, (mv_Path r, mv_Applied r))) in Hr. rewrite Hrecs in Hr.
      apply list_elem_of_fmap in Hr as (l & [= -> _] & Hl). by eapply leaf_not_env.
    - destruct Hwf' as [_ Hv]. rewrite Forall_forall in Hv. by apply Hv. }
  simpl. unfold t1. destruct (overrides override) eqn:Ho; [|done].
  destruct (patch_ensured t override Ho) as [-> ->]. done.
Qed.

(** ** Reading the inputs *)
#[export] Instance sees_capture p : Sees (captureMergeTransactionFile p).
Proof.
  intros d r d'. unfold captureMergeTransactionFile. case_bool_decide as Hu; [done|].
  destruct (files d !! p) as [[]|] eqn:Hp; intros [= <- <-]; (split; [done|]); intros e He (Hr & _);
    rewrite bool_decide_false, He, Hp by (rewrite Hr; set_solver); done.
Qed.
Lemma Load_eq `{SettingsCodec} p d :
  Load (Some p) d =
    (if bool_decide (p ∈ unreadable d) then Err (err "read failed")
     else match files d !! p with
          | None => Ok noOverride
          | Some (DocFile c) => Decode (fc_Data c)
          | Some _ => Err (err "controller JSON does not decode")
          end, d).
Proof.
  unfold Load, readJSON, attempt, mbind, io_bind. case_bool_decide; [done|].
  by destruct (files d !! p) as [[]|].
Qed.
Lemma readObject_eq `{SettingsCodec} p d :
  readObject p d =
    (if bool_decide (p ∈ unreadable d) then Err (err "read failed")
     else match files d !! p with
          | None => Err (ErrNotExist p)
          | Some (DocFile c) => object ← decodeObjectBytes (fc_Data c); Ok (object, Perm (fc_Mode c))
          | Some _ => Err (err "controller JSON does not decode")
          end, d).
Proof.
  unfold readObject, readJSON, lift, mbind, io_bind. case_bool_decide; [done|].
  destruct (files d !! p) as [[]|]; try done. simpl. by destruct (decodeObjectBytes _).
Qed.
#[export] Instance sees_Load `{SettingsCodec} p : Sees (Load p).
Proof.
  destruct p as [p|]; [|apply _]. intros d a d'. rewrite Load_eq. case_bool_decide as Hu; [done|].
  intros [= E <-]. split; [done|]. intros e He (Hr & _).
  rewrite Load_eq, He, bool_decide_false by (rewrite Hr; set_solver). by rewrite E.
Qed.
Ltac seeing :=
  repeat lazymatch goal with
  | |- Sees (_ ≫= _) => apply sees_bind; [|intros ?]
  | |- Sees (let '_ := ?x in _) => destruct x
  | |- Sees _ => apply _
  end.
#[export] Instance sees_readObject `{SettingsCodec} p : Sees (readObject p).
Proof. unfold readObject. seeing. Qed.
#[export] Instance sees_prepare `{SettingsCodec} targetPath fragmentPath overridePath :
  Sees (prepareMergeInputs targetPath fragmentPath overridePath).
Proof. unfold prepareMergeInputs. cbv zeta. seeing. Qed.

Lemma capture_Ok p d r d' :
  captureMergeTransactionFile p d = (Ok r, d') ↔ p ∉ unreadable d ∧ view (files d !! p) = Some r ∧ d' = d.
Proof.
  unfold captureMergeTransactionFile. case_bool_decide; [naive_solver|].
  destruct (files d !! p) as [[]|]; simpl; naive_solver.
Qed.

Lemma wrap_run {A} f (m : io A) d a d' : m d = (Ok a, d') → io_wrap f m d = (Ok a, d').
Proof. apply io_wrap_Ok. Qed.
Lemma lift_run {A} (r : result error A) a d : r = Ok a → lift r d = (Ok a, d).
Proof. by intros ->. Qed.
Section Prepare.
Context `{SettingsCodec} (targetPath fragmentPath : path) (overridePath : option path).
(** The parts of a preparation, each with what it was read from. *)
Record prepared_from (d : Disk) (pm : preparedMerge) : Prop := {
  pf_fragment : ∃ mode, readObject fragmentPath d = (Ok (pm_fragment pm, mode), d);
  pf_override : Load overridePath d = (Ok (pm_override pm), d);
  pf_paths : pm_overrideStatePath pm = statePathFor targetPath ∧ pm_managedStatePath pm = ManagedStatePath targetPath;
  pf_files : ∃ v1 v2 v3,
    view (files d !! targetPath) = Some v1 ∧ view (files d !! statePathFor targetPath) = Some v2 ∧
    view (files d !! ManagedStatePath targetPath) = Some v3 ∧
    objectFromSnapshot v1 = Ok (pm_target pm, pm_targetMode pm) ∧
    overrideStateFromSnapshot v2 = Ok (pm_previousOverride pm) ∧
    managedStateFromSnapshot v3 = Ok (pm_previousManaged pm) ∧
    pm_inputs pm = <[ManagedStatePath targetPath := v3]> (<[statePathFor targetPath := v2]> {[targetPath := v1]});
}.
Ltac prepared_facts :=
  repeat match goal with
  | H : captureMergeTransactionFile _ _ = (Ok _, _) |- _ => apply capture_Ok in H as (_ & H & ->)
  | H : lift _ _ = (Ok _, _) |- _ => apply lift_Ok in H as [H ->]
  | H : ?m ?d = (Ok _, ?d') |- _ =>
      assert_fails (constr_eq d d'); pose proof (proj1 (sees _ _ _ H)); subst d'
  | a : object * N |- _ => destruct a
  | H : _ = Ok _ |- _ => progress (simpl in H)
  | H : ((_ ≫= _) _ = (Ok _, _)) |- _ => progress io_inv H
  end.
Lemma prepare_from d d' pm :
  prepareMergeInputs targetPath fragmentPath overridePath d = (Ok pm, d') → prepared_from d pm.
Proof.
  unfold prepareMergeInputs. cbv zeta. intros E. io_inv E. prepared_facts. simplify_eq.
  split; simpl; [by eexists|done|done|]. by do 3 eexists.
Qed.
Lemma prepare_run d pm : healthy d → prepared_from d pm → prepareMergeInputs targetPath fragmentPath overridePath d = (Ok pm, d).
Proof.
  intros Hh [(mode & Hf) Ho [Hp1 Hp2] (v1 & v2 & v3 & H1 & H2 & H3 & D1 & D2 & D3 & Hi)].
  assert (∀ p v, view (files d !! p) = Some v → captureMergeTransactionFile p d = (Ok v, d)) as Hc.
  { intros p v Hv. apply capture_Ok. split; [|done]. destruct Hh as (-> & _). set_solver. }
  unfold prepareMergeInputs. cbv zeta.
  rewrite (io_bind_step _ _ _ _ _ (wrap_run _ _ _ _ _ (Hc _ _ H1))).
  rewrite (io_bind_step _ _ _ _ _ (wrap_run _ _ _ _ _ (lift_run _ _ d D1))). cbv iota beta.
  rewrite (io_bind_step _ _ _ _ _ (wrap_run _ _ _ _ _ Hf)). cbv iota beta.
  rewrite (io_bind_step _ _ _ _ _ (wrap_run _ _ _ _ _ Ho)).
  rewrite (io_bind_step _ _ _ _ _ (wrap_run _ _ _ _ _ (Hc _ _ H2))).
  rewrite (io_bind_step _ _ _ _ _ (wrap_run _ _ _ _ _ (lift_run _ _ d D2))).
  rewrite (io_bind_step _ _ _ _ _ (wrap_run _ _ _ _ _ (Hc _ _ H3))).
  rewrite (io_bind_step _ _ _ _ _ (wrap_run _ _ _ _ _ (lift_run _ _ d D3))).
  destruct pm. simpl in *. by subst.
Qed.
End Prepare.

#[export] Instance prepare_reads `{SettingsCodec} targetPath fragmentPath overridePath :
  Preserves eq (prepareMergeInputs targetPath fragmentPath overridePath).
Proof. unfold prepareMergeInputs, readObject, Load. preserving. Qed.

(** ** One merge on a disk *)
Section OnDisk.
Context `{SettingsCodec, JournalCodec} (targetPath fragmentPath : path) (overridePath : option path).
Notation merge := (mergeFilesUnlocked writeAtomic targetPath fragmentPath overridePath).
Notation recover := (recoverSettingsTransaction writeAtomic targetPath).
Notation prepare := (prepareMergeInputs targetPath fragmentPath overridePath).
Notation jp := (mergeTransactionPath targetPath).

(** A directory in which merges run: no journal is left, the paths are distinct
    and the settings files may be used by their owner. *)
Record merge_setting (d : Disk) : Prop := {
  mg_journal : files d !! jp = None;
  mg_target : targetPath ≠ statePathFor targetPath;
  mg_fragment : fragmentPath ∉ allowed_paths targetPath ∧ fragmentPath ≠ jp;
  mg_override : ∀ p, overridePath = Some p → p ∉ allowed_paths targetPath ∧ p ≠ jp;
  mg_modes : ∀ p c, p ∈ allowed_paths targetPath → files d !! p = Some (DocFile c) → Perm (fc_Mode c) ≠ 0%N;
}.
Definition core_of (pm : preparedMerge) : result error (object * overrideState * managedState * overrideState) :=
  merge_core (pm_target pm) (pm_previousOverride pm) (pm_previousManaged pm) (pm_fragment pm) (pm_override pm).
Definition plans_of (pm : preparedMerge) (target : object) (O : overrideState) (S : managedState) (after : overrideState) :=
  planWrites targetPath (pm_overrideStatePath pm) (pm_managedStatePath pm) (pm_targetMode pm) target O S
    (pm_target pm) after (pm_previousManaged pm).

Lemma state_not_managed : statePathFor targetPath ≠ ManagedStatePath targetPath.
Proof. intros E. apply app_inv_head in E. done. Qed.
Lemma target_not_managed : targetPath ≠ ManagedStatePath targetPath.
Proof.
  intros E. destruct targetPath as [|x l] eqn:Ht; [done|]. apply (f_equal length) in E. revert E.
  unfold ManagedStatePath. rewrite length_app. simpl length. clear. revert x.
  induction l as [|y l IH]; intros x; [done|]. change (removelast (x :: y :: l)) with (x :: removelast (y :: l)).
  simpl length in *. intros [= E]. apply (IH y). lia.
Qed.
Lemma recover_nothing d : files d !! jp = None → recover d =
  (if bool_decide (jp ∈ unreadable d) then Err (Errorf "settings transaction journal: %w" [AErr (err "read failed")]) else Ok (), d).
Proof.
  intros Hj. unfold recoverSettingsTransaction, loadMergeTransactionJournal, readJSON, attempt, mbind, io_bind.
  rewrite Hj. by case_bool_decide.
Qed.
Lemma merge_run d pm target O S after plans changed :
  recover d = (Ok (), d) → prepare d = (Ok pm, d) → core_of pm = Ok (target, O, S, after) →
  plans_of pm target O S after = (plans, changed) →
  merge d = (if bool_decide (length plans = 0) then mret false
             else _ ← commitRecoverableTransaction writeAtomic targetPath plans (pm_inputs pm); mret changed) d.
Proof.
  intros Hr Hp Hc Hpl. unfold mergeFilesUnlocked. rewrite (io_bind_step _ _ _ _ _ Hr), (io_bind_step _ _ _ _ _ Hp).
  unfold core_of, merge_core in Hc. cbv zeta.
  destruct (reconcileManagedValues _ _ _) as [[t next]|]; [|done]. simpl in Hc. injection Hc as <- <- <- <-.
  rewrite (io_bind_step _ _ d (t, next) d) by done. cbv iota beta. unfold plans_of in Hpl.
  change (object_of t) with (sh_object t). by rewrite Hpl.
Qed.
(** A merge that starts without a journal changes nothing before it commits. *)
Lemma merge_cases d :
  files d !! jp = None →
  (merge d).2 = d ∨
  ∃ pm target O S after plans changed,
    recover d = (Ok (), d) ∧ prepare d = (Ok pm, d) ∧ core_of pm = Ok (target, O, S, after) ∧
    plans_of pm target O S after = (plans, changed) ∧ plans ≠ [] ∧
    merge d = (_ ← commitRecoverableTransaction writeAtomic targetPath plans (pm_inputs pm); mret changed) d.
Proof.
  intros Hj. pose proof (recover_nothing d Hj) as Hr. case_bool_decide as Hu.
  { left. unfold mergeFilesUnlocked. by rewrite (io_bind_fail _ _ _ _ _ Hr). }
  destruct (prepare d) as [[pm|e] d'] eqn:Hp.
  - destruct (sees _ _ _ Hp) as [-> _].
    destruct (core_of pm) as [[[[target O] S] after]|e] eqn:Hc.
    + destruct (plans_of pm target O S after) as [plans changed] eqn:Hpl.
      pose proof (merge_run d pm target O S after plans changed Hr Hp Hc Hpl) as Hm.
      case_bool_decide as Hl; [left; by rewrite Hm|]. right.
      exists pm, target, O, S, after, plans, changed. split_and!; try done. by intros ->.
    + left. unfold mergeFilesUnlocked. rewrite (io_bind_step _ _ _ _ _ Hr), (io_bind_step _ _ _ _ _ Hp).
      unfold core_of, merge_core in Hc. destruct (reconcileManagedValues _ _ _) as [[t next]|]; [done|].
      by rewrite (io_bind_fail _ _ d e0 d).
  - left. unfold mergeFilesUnlocked. rewrite (io_bind_step _ _ _ _ _ Hr), (io_bind_fail _ _ _ _ _ Hp). simpl.
    by apply preserves_eq in Hp; [|apply _].
Qed.
Lemma plans_shape pm target O S after plans changed :
  plans_of pm target O S after = (plans, changed) →
  plans =
    (if negb (bool_decide (pm_target pm = target))
     then [{| pw_path := targetPath; pw_data := marshalSettings target +:+ String LF ""; pw_mode := pm_targetMode pm |}]
     else []) ++
    (if negb (bool_decide (O = after))
     then [{| pw_path := pm_overrideStatePath pm; pw_data := marshalOverrideState O +:+ String LF ""; pw_mode := mode600 |}]
     else []) ++
    (if negb (bool_decide (S = pm_previousManaged pm))
     then [{| pw_path := pm_managedStatePath pm; pw_data := marshalManagedState S +:+ String LF ""; pw_mode := mode600 |}]
     else []).
Proof. by intros [= <- _]. Qed.
Lemma merge_ready d pm target O S after plans changed :
  merge_setting d → prepared_from targetPath fragmentPath overridePath d pm →
  plans_of pm target O S after = (plans, changed) → plans ≠ [] →
  transaction_ready targetPath (pm_inputs pm) plans d.
Proof.
  intros [Hj Ht _ _ Hm] [_ _ [Ho1 Ho2] (v1 & v2 & v3 & H1 & H2 & H3 & _ & _ & _ & Hi)] Hpl%plans_shape Hne.
  pose proof state_not_managed as Hsm. pose proof target_not_managed as Htm.
  assert (∀ p v, p ∈ allowed_paths targetPath → view (files d !! p) = Some v → usable v) as Hu.
  { intros p v Hp Hv. apply (view_usable _ _ Hv). destruct (files d !! p) as [[]|] eqn:E; simplify_eq/=.
    - left. by eapply Hm.
    - by right. }
  assert (∀ p v, pm_inputs pm !! p = Some v → p ∈ allowed_paths targetPath ∧ view (files d !! p) = Some v) as Hin.
  { intros p v. rewrite Hi. unfold allowed_paths.
    destruct (decide (p = ManagedStatePath targetPath)) as [->|]; [|destruct (decide (p = statePathFor targetPath)) as [->|];
      [|destruct (decide (p = targetPath)) as [->|]]]; intros E; simplify_map_eq; (split; [set_solver|done]). }
  split; [done|..|done|].
  - subst plans. rewrite Ho1, Ho2. repeat case_bool_decide; simpl; repeat constructor; set_solver.
  - assert (is_Some (pm_inputs pm !! targetPath) ∧ is_Some (pm_inputs pm !! statePathFor targetPath) ∧
            is_Some (pm_inputs pm !! ManagedStatePath targetPath)) as (I1 & I2 & I3).
    { rewrite Hi. split_and!; rewrite !lookup_insert_is_Some', ?lookup_singleton_is_Some; tauto. }
    subst plans. rewrite Ho1, Ho2. repeat case_bool_decide; simpl; repeat constructor; done.
  - intros p v Hp. destruct (Hin p v Hp) as [? ?]. by eapply Hu.
  - intros p [v Hp]. by destruct (Hin p v Hp).
  - intros p v Hp. by destruct (Hin p v Hp).
Qed.
Lemma inputs_dom d pm p :
  prepared_from targetPath fragmentPath overridePath d pm → p ∈ allowed_paths targetPath → is_Some (pm_inputs pm !! p).
Proof.
  intros [_ _ _ (v1 & v2 & v3 & _ & _ & _ & _ & _ & _ & ->)]. unfold allowed_paths.
  rewrite !elem_of_union, !elem_of_singleton. intros Hp.
  rewrite !lookup_insert_is_Some', lookup_singleton_is_Some. naive_solver.
Qed.

(** Files that look the same: a settings file's content and mode. *)
Definition looks_like (d d' : Disk) : Prop := ∀ p, view (files d !! p) = view (files d' !! p).
Lemma settled_unchanged inputs d d' :
  files d !! jp = None → holds inputs (files d) → settled_at targetPath inputs inputs d d' → looks_like d' d.
Proof.
  intros Hj Hh (Hj' & Hh' & Hu) p. destruct (decide (p = jp)) as [->|Hp]; [by rewrite Hj, Hj'|].
  destruct (inputs !! p) as [r|] eqn:E; [by rewrite (Hh p r E), (Hh' p r E)|]. by rewrite (Hu p E Hp).
Qed.
Lemma settled_same snapshot inputs d1 d2 d d' :
  (∀ p, is_Some (inputs !! p) → is_Some (snapshot !! p)) → files d1 = files d2 →
  settled_at targetPath snapshot inputs d1 d → settled_at targetPath snapshot inputs d2 d' → looks_like d d'.
Proof.
  intros Hs E (Hj & Hh & Hu) (Hj' & Hh' & Hu') p. destruct (decide (p = jp)) as [->|Hp]; [by rewrite Hj, Hj'|].
  destruct (inputs !! p) as [r|] eqn:Ei.
  - destruct (Hs p) as [r' Hr']; [by eexists|]. by rewrite (Hh p r' Hr'), (Hh' p r' Hr').
  - by rewrite (Hu p Ei Hp), (Hu' p Ei Hp), E.
Qed.
Lemma planned_dom plans inputs p : is_Some (inputs !! p) → is_Some (planned plans inputs !! p).
Proof.
  revert inputs. induction plans as [|plan plans IH]; intros inputs Hp; simpl; [done|].
  apply IH, lookup_insert_is_Some'. by right.
Qed.
(** Recovery on a disk without a journal does nothing. *)
Lemma recovery_nothing d d' : files d !! jp = None → rtc (recovery_attempt targetPath) d d' → files d' = files d.
Proof.
  intros Hj Hr. induction Hr as [|a b c (e & [Hf _] & ->) _ IH]; [done|].
  assert (files (recover e).2 = files a) as E by (rewrite recover_nothing by (by rewrite Hf); exact Hf).
  rewrite <- E. apply IH. by rewrite E.
Qed.

Lemma merge_atomic_lemma d d1 env :
  merge_setting d → rtc (recovery_attempt targetPath) (merge d).2 d1 → same_store d1 env → healthy env →
  ∃ d2, recover env = (Ok (), d2) ∧ (looks_like d2 d ∨ looks_like d2 (merge (mend d)).2).
Proof.
  intros Hset Hrtc Hss Hh. pose proof (proj1 Hss) as Hs. pose proof (mg_journal d Hset) as Hj.
  destruct (merge_cases d Hj) as [E|(pm & T & O & S & after & plans & changed & Hr & Hp & Hc & Hpl & Hne & Hm)].
  - rewrite E in Hrtc. apply recovery_nothing in Hrtc; [|done]. exists env. rewrite Hrtc in Hs.
    rewrite recover_nothing by by rewrite Hs. rewrite bool_decide_false by (destruct Hh as (-> & _); set_solver).
    split; [done|]. left. intros p. by rewrite Hs.
  - pose proof (prepare_from _ _ _ _ _ _ Hp) as Hpf.
    pose proof (merge_ready d pm T O S after plans changed Hset Hpf Hpl Hne) as R.
    assert ((merge d).2 = (commitRecoverableTransaction writeAtomic targetPath plans (pm_inputs pm) d).2) as E.
    { rewrite Hm. unfold mbind, io_bind. by destruct (commitRecoverableTransaction _ _ _ _ d) as [[]]. }
    rewrite E in Hrtc.
    destruct (commit_crash_lemma _ _ _ _ R d1 env Hrtc) as (d2 & Hd2 & Hor); [done..|].
    exists d2. split; [done|]. destruct Hor as [Hold|Hnew]; [left|right].
    { apply (settled_unchanged (pm_inputs pm)); [done|by destruct R|exact Hold]. }
    assert (prepare (mend d) = (Ok pm, mend d)) as Hp' by by apply (proj2 (sees _ _ _ Hp)).
    assert (recover (mend d) = (Ok (), mend d)) as Hr'.
    { rewrite recover_nothing by done. by rewrite bool_decide_false by set_solver. }
    assert (transaction_ready targetPath (pm_inputs pm) plans (mend d)) as R' by by destruct R.
    destruct (commit_healthy_lemma _ _ _ _ R' (mend_healthy d)) as (d' & Hd' & Hset' & _).
    rewrite (merge_run (mend d) pm T O S after plans changed Hr' Hp' Hc Hpl).
    rewrite bool_decide_false by by destruct plans.
    rewrite (io_bind_step _ _ _ _ _ Hd'). simpl.
    eapply (settled_same _ _ d (mend d)); [|done|exact Hnew|exact Hset']. intros p. apply planned_dom.
Qed.

Lemma merge_settles d pm target O S after plans changed r d1 :
  merge_setting d → healthy d → prepare d = (Ok pm, d) → core_of pm = Ok (target, O, S, after) →
  plans_of pm target O S after = (plans, changed) → merge d = (Ok r, d1) →
  settled_at targetPath (planned plans (pm_inputs pm)) (pm_inputs pm) d d1 ∧ healthy d1.
Proof.
  intros Hset Hh Hp Hc Hpl Hm. pose proof (mg_journal d Hset) as Hj.
  assert (recover d = (Ok (), d)) as Hr
    by (rewrite recover_nothing by done; rewrite bool_decide_false; [done|destruct Hh as (-> & _); set_solver]).
  pose proof (prepare_from _ _ _ _ _ _ Hp) as Hpf.
  rewrite (merge_run d pm target O S after plans changed Hr Hp Hc Hpl) in Hm.
  case_bool_decide as Hl.
  - injection Hm as _ <-. destruct plans; [|done]. split; [|done]. split; [done|]. split; [|done].
    destruct Hpf as [_ _ _ (v1 & v2 & v3 & H1 & H2 & H3 & _ & _ & _ & ->)]. intros p v. simpl.
    destruct (decide (p = ManagedStatePath targetPath)) as [->|]; [|destruct (decide (p = statePathFor targetPath)) as [->|];
      [|destruct (decide (p = targetPath)) as [->|]]]; intros E; by simplify_map_eq.
  - assert (plans ≠ []) as Hne by by intros ->.
    pose proof (merge_ready d pm target O S after plans changed Hset Hpf Hpl Hne) as R.
    destruct (commit_healthy_lemma _ _ _ _ R Hh) as (d' & Hd' & Hs & Hh').
    rewrite (io_bind_step _ _ _ _ _ Hd') in Hm. by injection Hm as _ <-.
Qed.
(** What the settings files hold after a merge. *)
Lemma planned_views pm target O S after plans changed v1 v2 v3 :
  targetPath ≠ statePathFor targetPath →
  pm_overrideStatePath pm = statePathFor targetPath → pm_managedStatePath pm = ManagedStatePath targetPath →
  plans_of pm target O S after = (plans, changed) →
  let inputs := <[ManagedStatePath targetPath := v3]> (<[statePathFor targetPath := v2]> {[targetPath := v1]}) in
  let written (c : bool) data mode old :=
    if c then old else {| fr_existed := true; fr_data := data +:+ String LF ""; fr_mode := normalizedFileMode mode |} in
  planned plans inputs !! targetPath =
    Some (written (bool_decide (pm_target pm = target)) (marshalSettings target) (pm_targetMode pm) v1) ∧
  planned plans inputs !! statePathFor targetPath =
    Some (written (bool_decide (O = after)) (marshalOverrideState O) mode600 v2) ∧
  planned plans inputs !! ManagedStatePath targetPath =
    Some (written (bool_decide (S = pm_previousManaged pm)) (marshalManagedState S) mode600 v3).
Proof.
  intros Ht Ho Hm ->%plans_shape. pose proof state_not_managed as Hsm. pose proof target_not_managed as Htm.
  rewrite Ho, Hm. repeat case_bool_decide; simpl; unfold plan_post; simpl; by simplify_map_eq.
Qed.
Lemma fragment_untouched d d1 pm snapshot mode :
  merge_setting d → prepared_from targetPath fragmentPath overridePath d pm → healthy d1 →
  settled_at targetPath snapshot (pm_inputs pm) d d1 →
  readObject fragmentPath d = (Ok (pm_fragment pm, mode), d) →
  readObject fragmentPath d1 = (Ok (pm_fragment pm, mode), d1) ∧ Load overridePath d1 = (Ok (pm_override pm), d1).
Proof.
  intros [_ _ [Hf1 Hf2] Ho _] Hpf Hh (_ & _ & Hu) Hread.
  assert (∀ p, p ∉ allowed_paths targetPath → pm_inputs pm !! p = None) as Hno.
  { intros p Hp. destruct Hpf as [_ _ _ (v1 & v2 & v3 & _ & _ & _ & _ & _ & _ & ->)]. unfold allowed_paths in Hp.
    rewrite !lookup_insert_ne, lookup_singleton_ne by set_solver. done. }
  pose proof (Hu fragmentPath (Hno _ Hf1) Hf2) as Ef. split.
  - rewrite readObject_eq in *. rewrite Ef, bool_decide_false by (destruct Hh as (-> & _); set_solver).
    case_bool_decide; [done|]. injection Hread as Hread. by rewrite Hread.
  - pose proof (pf_override _ _ _ _ _ Hpf) as Hl. destruct overridePath as [p|]; [|unfold Load, mret, io_ret in *; congruence].
    rewrite Load_eq in *. destruct (Ho p eq_refl) as [Hp1 Hp2]. rewrite (Hu p (Hno _ Hp1) Hp2).
    rewrite bool_decide_false by (destruct Hh as (-> & _); set_solver).
    case_bool_decide; [done|]. injection Hl as Hl. by rewrite Hl.
Qed.

(** The inputs of the merge after a merge: what the last one computed. *)
Lemma merge_result_lemma d pm target O S after r d1 :
  merge_setting d → healthy d → prepare d = (Ok pm, d) → core_of pm = Ok (target, O, S, after) →
  wf_state (ms_Values (pm_previousManaged pm)) → merge d = (Ok r, d1) →
  healthy d1 ∧ files d1 !! jp = None ∧
  ∃ pm1, prepare d1 = (Ok pm1, d1) ∧ pm_target pm1 = target ∧ pm_previousManaged pm1 = S ∧
    pm_previousOverride pm1 = (if bool_decide (O = after) then pm_previousOverride pm else O) ∧
    pm_fragment pm1 = pm_fragment pm ∧ pm_override pm1 = pm_override pm.
Proof.
  intros Hset Hh Hp Hc Hwf Hm. pose proof (prepare_from _ _ _ _ _ _ Hp) as Hpf.
  destruct (plans_of pm target O S after) as [plans changed] eqn:Hpl.
  destruct (merge_settles _ _ _ _ _ _ _ _ _ _ Hset Hh Hp Hc Hpl Hm) as [Hs Hh1]. split; [done|].
  pose proof Hs as (Hj1 & Hh' & _). split; [done|].
  pose proof Hpf as [(mode & Hf) Ho [Ho1 Hm1] (v1 & v2 & v3 & H1 & H2 & H3 & D1 & D2 & D3 & Hi)].
  destruct (fragment_untouched d d1 pm _ mode Hset Hpf Hh1 Hs Hf) as [Hf1 Hl1].
  destruct (planned_views pm target O S after plans changed v1 v2 v3 (mg_target d Hset) Ho1 Hm1 Hpl) as (P1 & P2 & P3).
  rewrite <- Hi in P1, P2, P3. apply Hh' in P1, P2, P3. simpl in P1, P2, P3.
  apply merge_core_plain in Hc as (t & Hrec & _ & HO).
  destruct (reconcile_spec_lemma _ _ _ _ _ Hwf Hrec) as (_ & _ & _ & _ & _ & Hvalid).
  pose proof (reconcile_version _ _ _ _ _ Hrec) as Hver.
  assert (∃ pm1, prepared_from targetPath fragmentPath overridePath d1 pm1 ∧ pm_target pm1 = target ∧
    pm_previousManaged pm1 = S ∧ pm_previousOverride pm1 = (if bool_decide (O = after) then pm_previousOverride pm else O) ∧
    pm_fragment pm1 = pm_fragment pm ∧ pm_override pm1 = pm_override pm) as (pm1 & Hpm1 & Hrest);
    [|exists pm1; split; [by apply prepare_run|done]].
  match type of P1 with _ = Some ?w => set (w1 := w) in P1 end.
  match type of P2 with _ = Some ?w => set (w2 := w) in P2 end.
  match type of P3 with _ = Some ?w => set (w3 := w) in P3 end.
  exists {| pm_target := target;
            pm_targetMode := if bool_decide (pm_target pm = target) then pm_targetMode pm
                             else Perm (normalizedFileMode (pm_targetMode pm));
            pm_fragment := pm_fragment pm; pm_override := pm_override pm;
            pm_previousOverride := if bool_decide (O = after) then pm_previousOverride pm else O;
            pm_previousManaged := S; pm_overrideStatePath := statePathFor targetPath;
            pm_managedStatePath := ManagedStatePath targetPath;
            pm_inputs := <[ManagedStatePath targetPath := w3]> (<[statePathFor targetPath := w2]> {[targetPath := w1]}) |}.
  split; [|done]. split; simpl; [by eexists|done|done|].
  exists w1, w2, w3. split_and!; [exact P1|exact P2|exact P3|..|reflexivity]; unfold w1, w2, w3.
  - case_bool_decide as E; [by rewrite <- E|]. unfold objectFromSnapshot, decodeObjectBytes. simpl. by rewrite parse_marshal.
  - case_bool_decide as E; [done|]. unfold overrideStateFromSnapshot. simpl. rewrite unmarshal_override.
    by rewrite HO.
  - case_bool_decide as E; [by rewrite E|]. unfold managedStateFromSnapshot. simpl. rewrite unmarshal_managed.
    rewrite Hver. simpl. by rewrite Hvalid.
Qed.
Lemma merge_core_after_scalar before previous managed fragment override target O S after :
  merge_core before previous managed fragment override = Ok (target, O, S, after) → scalar after → after = previous.
Proof.
  intros Hc Hsc. assert (scalar previous) as Hsp; [|by rewrite merge_core_scalar in Hc by done;
    apply result_bind_Ok in Hc as ([t n] & _ & [= _ _ _ ->])].
  unfold merge_core in Hc.
  set (cells := sh_cells (share_baselines before previous)).
  assert (∀ t p o, dom (sh_cells t) = dom cells → dom (sh_cells (rewrite_at t p o)) = dom cells) as Hrw.
  { intros t p o <-. cbn. apply set_eq. intros k. rewrite !elem_of_dom, map_lookup_imap.
    destruct (sh_cells t !! k); simpl; [|done]. split; by eexists. }
  pose proof (reconcileManagedValues_keeps (λ t, dom (sh_cells t) = dom cells) Hrw
    (share_baselines before previous) managed fragment eq_refl) as Hk.
  destruct (reconcileManagedValues (share_baselines before previous) managed fragment) as [[t n]|]; [|done].
  simpl in *. injection Hc as _ _ _ <-. intros k b Hb He. simpl.
  destruct (as_object (eb_Value b)) as [o|] eqn:Ho; [|done]. exfalso.
  assert (is_Some (sh_cells t !! k)) as [cell Hcell].
  { apply elem_of_dom. rewrite Hk. apply elem_of_dom. unfold cells. simpl. rewrite lookup_omap, Hb. simpl.
    rewrite He, Ho. by eexists. }
  specialize (Hsc k {| eb_Exists := eb_Exists b; eb_Value := JObject cell |}). simpl in Hsc.
  rewrite map_lookup_imap, Hb in Hsc. simpl in Hsc. rewrite Hcell in Hsc. by specialize (Hsc eq_refl He).
Qed.
Lemma merge_idempotent_lemma d pm target O S after r d1 :
  merge_setting d → healthy d → prepare d = (Ok pm, d) → core_of pm = Ok (target, O, S, after) →
  wf_state (ms_Values (pm_previousManaged pm)) → env_shaped (pm_fragment pm) → scalar O →
  merge d = (Ok r, d1) → merge d1 = (Ok false, d1).
Proof.
  intros Hset Hh Hp Hc Hwf He Hsc Hm.
  destruct (merge_result_lemma _ _ _ _ _ _ _ _ Hset Hh Hp Hc Hwf Hm)
    as (Hh1 & Hj1 & pm1 & Hp1 & E1 & E2 & E3 & E4 & E5).
  assert (pm_previousOverride pm1 = O) as EO.
  { rewrite E3. case_bool_decide as E; [|done]. symmetry. rewrite E in Hsc |- *. by eapply merge_core_after_scalar. }
  pose proof (merge_core_stable _ _ _ _ _ _ _ _ _ Hwf He Hsc Hc) as Hc1.
  assert (core_of pm1 = Ok (target, O, S, O)) as Hcore by (unfold core_of; by rewrite E1, EO, E2, E4, E5).
  assert (recover d1 = (Ok (), d1)) as Hr
    by (rewrite recover_nothing by done; rewrite bool_decide_false; [done|destruct Hh1 as (-> & _); set_solver]).
  destruct (plans_of pm1 target O S O) as [plans changed] eqn:Hpl.
  rewrite (merge_run d1 pm1 target O S O plans changed Hr Hp1 Hcore Hpl).
  apply plans_shape in Hpl as ->. rewrite E1, E2.
  by rewrite (bool_decide_true (target = target)), (bool_decide_true (O = O)), (bool_decide_true (S = S)).
Qed.
End OnDisk.

(** ** Properties *)

(** C2: a merge is atomic.  A merge that starts without a journal may be
    interrupted anywhere, by a crash or a refused access, and so may the recoveries
    after it: the first recovery in a healthy environment succeeds, and every file
    then holds what it held before the merge, or every file what an undisturbed
    merge would have left. *)
Theorem mergeFilesUnlocked_atomic `{SettingsCodec, JournalCodec} targetPath fragmentPath overridePath d d1 env :
  merge_setting targetPath fragmentPath overridePath d →
  rtc (recovery_attempt targetPath) (mergeFilesUnlocked writeAtomic targetPath fragmentPath overridePath d).2 d1 →
  same_store d1 env → healthy env →
  ∃ d2, recoverSettingsTransaction writeAtomic targetPath env = (Ok (), d2) ∧
    (looks_like d2 d ∨
     looks_like d2 (mergeFilesUnlocked writeAtomic targetPath fragmentPath overridePath (mend d)).2).
Proof. apply merge_atomic_lemma. Qed.

(** What a merge writes, the next merge reads.  After a merge in a healthy
    environment no journal is left, and reading the inputs again gives the
    settings it computed, the managed state it computed, and the override
    baselines it computed unless those were found unchanged. *)
Theorem mergeFilesUnlocked_result `{SettingsCodec, JournalCodec} targetPath fragmentPath overridePath
    d pm target O S after r d1 :
  merge_setting targetPath fragmentPath overridePath d → healthy d →
  prepareMergeInputs targetPath fragmentPath overridePath d = (Ok pm, d) → core_of pm = Ok (target, O, S, after) →
  wf_state (ms_Values (pm_previousManaged pm)) →
  mergeFilesUnlocked writeAtomic targetPath fragmentPath overridePath d = (Ok r, d1) →
  healthy d1 ∧ files d1 !! mergeTransactionPath targetPath = None ∧
  ∃ pm1, prepareMergeInputs targetPath fragmentPath overridePath d1 = (Ok pm1, d1) ∧
    pm_target pm1 = target ∧ pm_previousManaged pm1 = S ∧
    pm_previousOverride pm1 = (if bool_decide (O = after) then pm_previousOverride pm else O) ∧
    pm_fragment pm1 = pm_fragment pm ∧ pm_override pm1 = pm_override pm.
Proof. apply merge_result_lemma. Qed.

(** C8: merging is idempotent.  When the fragment's [env] is an object and no
    overridden variable holds an object, the same merge run again reports no change
    and writes nothing, whatever the local override sets or deletes. *)
Theorem mergeFilesUnlocked_idempotent `{SettingsCodec, JournalCodec} targetPath fragmentPath overridePath
    d pm target O S after r d1 :
  merge_setting targetPath fragmentPath overridePath d → healthy d →
  prepareMergeInputs targetPath fragmentPath overridePath d = (Ok pm, d) → core_of pm = Ok (target, O, S, after) →
  wf_state (ms_Values (pm_previousManaged pm)) → env_shaped (pm_fragment pm) → scalar O →
  mergeFilesUnlocked writeAtomic targetPath fragmentPath overridePath d = (Ok r, d1) →
  mergeFilesUnlocked writeAtomic targetPath fragmentPath overridePath d1 = (Ok false, d1).
Proof. apply merge_idempotent_lemma. Qed.

(** ** Concrete merges *)
#[export] Instance valueBaseline_countable : Countable valueBaseline.
Proof.
  refine (inj_countable' (λ b, (vb_Exists b, vb_Value b, vb_FirstMissingPrefix b))
            (λ '(e, v, f), Build_valueBaseline e v f) _). by intros [].
Defined.
#[export] Instance managedValueState_countable : Countable managedValueState.
Proof.
  refine (inj_countable' (λ r, (mv_Path r, mv_Baseline r, mv_Applied r))
            (λ '(p, b, a), Build_managedValueState p b a) _). by intros [].
Defined.
#[export] Instance envBaseline_countable : Countable envBaseline.
Proof. refine (inj_countable' (λ b, (eb_Exists b, eb_Value b)) (λ '(e, v), Build_envBaseline e v) _). by intros []. Defined.
#[export] Instance demo_settings_codec : SettingsCodec.
Proof.
  refine {| parseJSON := decode_text; marshalSettings o := encode_text (JObject o);
            unmarshalOverrideState s := p ← decode_text s; Some {| os_Version := p.1; os_Env := p.2 |};
            marshalOverrideState s := encode_text (os_Version s, os_Env s);
            unmarshalManagedState s := p ← decode_text s; Some {| ms_Version := p.1; ms_Values := p.2 |};
            marshalManagedState s := encode_text (ms_Version s, ms_Values s) |}.
  - intros o. apply decode_encode_text.
  - intros []. by rewrite decode_encode_text.
  - intros []. by rewrite decode_encode_text.
Defined.

Definition demo_json (o : object) : Doc := DocFile {| fc_Data := marshalSettings o; fc_Mode := 420 |}.
Definition demo_fragment_path : list string := ["repo"; "fragment.json"].
Definition demo_override_path : list string := ["config"; "override.json"].
Definition demo_home (settings fragment override : object) : Disk := {|
  files := {[demo_target := demo_json settings; demo_fragment_path := demo_json fragment;
             demo_override_path := demo_json override]};
  dirs := {[["home"]]}; unreadable := ∅; unwritable := ∅; power := None;
  clock := Z.of_nat; ticks := 0; random _ := None; draws := 0;
|}.
Notation demo_merge := (mergeFilesUnlocked writeAtomic demo_target demo_fragment_path (Some demo_override_path)).

(** *** An object under an overridden variable

    The user keeps an object in [env.K], the local override replaces it, and a
    later fragment manages a value below it.  Reconciling writes through to the
    shared baseline, the override state is not written because it is compared
    with itself, and from then on every merge is refused. *)
Definition demo_shared : Disk :=
  (demo_merge (demo_home {["env" := JObject {["K" := JObject {["x" := JNumber "1"]}]}]} ∅
                 {["env" := JObject {["K" := JString "s"]}]})).2.
Definition demo_shared_upgrade : Disk :=
  put_file demo_fragment_path (demo_json {["env" := JObject {["K" := JObject {["sub" := JString "v"]}]}]}) demo_shared.
(** When a local override replaces an object-valued variable and a later fragment
    manages a value below it, the merge of that fragment succeeds and every
    merge after it, with nothing changed in between, is refused: the restored
    baseline is shared with the settings, so reconciling rewrites it without the
    override state being written. *)
Theorem shared_baseline_blocks_merges :
  is_ok (demo_merge demo_shared_upgrade).1 = true ∧
  is_ok (demo_merge (demo_merge demo_shared_upgrade).2).1 = false.
Proof. vm_compute. done. Qed.

(** *** An ordinary merge *)
Definition demo_start (changes : option nat) : Disk :=
  (demo_home demo_settings demo_first {["env" := JObject {["A" := JString "mine"; "GONE" := JNull]}]})
    {{ power := changes }}.
Definition demo_prepared : preparedMerge :=
  match prepareMergeInputs demo_target demo_fragment_path (Some demo_override_path) (demo_start None) with
  | (Ok pm, _) => pm
  | _ => {| pm_target := ∅; pm_targetMode := 0; pm_fragment := ∅; pm_override := noOverride;
            pm_previousOverride := {| os_Version := 0; os_Env := ∅ |}; pm_previousManaged := unmanaged;
            pm_overrideStatePath := []; pm_managedStatePath := []; pm_inputs := ∅ |}
  end.
Definition demo_outcome : object * overrideState * managedState * overrideState :=
  match core_of demo_prepared with
  | Ok x => x
  | Err _ => (∅, {| os_Version := 0; os_Env := ∅ |}, unmanaged, {| os_Version := 0; os_Env := ∅ |})
  end.
Definition demo_done : Disk := (demo_merge (demo_start None)).2.
Lemma demo_prepared_ok :
  prepareMergeInputs demo_target demo_fragment_path (Some demo_override_path) (demo_start None) =
    (Ok demo_prepared, demo_start None).
Proof. vm_cast_no_check (@eq_refl (result error preparedMerge * Disk) (Ok demo_prepared, demo_start None)). Qed.
Lemma demo_outcome_ok :
  core_of demo_prepared = Ok (demo_outcome.1.1.1, demo_outcome.1.1.2, demo_outcome.1.2, demo_outcome.2).
Proof. vm_cast_no_check (@eq_refl (result error (object * overrideState * managedState * overrideState)) (Ok demo_outcome)). Qed.
Lemma demo_done_ok : demo_merge (demo_start None) = (Ok true, demo_done).
Proof. vm_cast_no_check (@eq_refl (result error bool * Disk) (Ok true, demo_done)). Qed.
Lemma demo_setting power : merge_setting demo_target demo_fragment_path (Some demo_override_path) (demo_start power).
Proof.
  split.
  - vm_compute. reflexivity.
  - done.
  - split; [|done]. apply (bool_decide_eq_true_1 _). vm_compute. reflexivity.
  - intros p [= <-]. split; [|done]. apply (bool_decide_eq_true_1 _). vm_compute. reflexivity.
  - assert (map_Forall (λ _ doc, match doc with DocFile c => negb (Perm (fc_Mode c) =? 0)%N | _ => true end = true)
              (files (demo_start None))) as Hm by (apply (bool_decide_eq_true_1 _); vm_compute; reflexivity).
    intros p c _ Hp. specialize (Hm p _ Hp). simpl in Hm. by apply negb_true_iff, N.eqb_neq in Hm.
Qed.
Lemma demo_wf : wf_state (ms_Values (pm_previousManaged demo_prepared)).
Proof. assert (ms_Values (pm_previousManaged demo_prepared) = []) as -> by (vm_compute; reflexivity). split; constructor. Qed.
#[export] Instance scalar_dec O : Decision (scalar O).
Proof. unfold scalar. apply _. Defined.

Lemma mergeFilesUnlocked_atomic_witness :
  ∃ d2, recoverSettingsTransaction writeAtomic demo_target (mend (demo_merge (demo_start (Some 5))).2) = (Ok (), d2) ∧
    (looks_like d2 (demo_start (Some 5)) ∨ looks_like d2 (demo_merge (mend (demo_start (Some 5)))).2).
Proof.
  apply (mergeFilesUnlocked_atomic demo_target demo_fragment_path (Some demo_override_path) (demo_start (Some 5))
           (demo_merge (demo_start (Some 5))).2 (mend (demo_merge (demo_start (Some 5))).2) (demo_setting (Some 5))).
  - apply rtc_refl.
  - apply mend_store.
  - apply mend_healthy.
Defined.
Lemma mergeFilesUnlocked_result_witness :
  ∃ pm1, prepareMergeInputs demo_target demo_fragment_path (Some demo_override_path) demo_done = (Ok pm1, demo_done) ∧
    pm_target pm1 = demo_outcome.1.1.1.
Proof.
  destruct (mergeFilesUnlocked_result demo_target demo_fragment_path (Some demo_override_path) (demo_start None)
    demo_prepared demo_outcome.1.1.1 demo_outcome.1.1.2 demo_outcome.1.2 demo_outcome.2 true demo_done
    (demo_setting None) ltac:(by split) demo_prepared_ok demo_outcome_ok demo_wf demo_done_ok)
    as (_ & _ & pm1 & Hp & Ht & _).
  exists pm1. split; [exact Hp|exact Ht].
Defined.
Lemma mergeFilesUnlocked_idempotent_witness : demo_merge demo_done = (Ok false, demo_done).
Proof.
  apply (mergeFilesUnlocked_idempotent demo_target demo_fragment_path (Some demo_override_path) (demo_start None)
    demo_prepared demo_outcome.1.1.1 demo_outcome.1.1.2 demo_outcome.1.2 demo_outcome.2 true demo_done
    (demo_setting None) ltac:(by split) demo_prepared_ok demo_outcome_ok demo_wf).
  - intros v Hv. exists (default ∅ (as_object v)). revert v Hv.
    assert (from_option (λ v, bool_decide (is_Some (as_object v))) true (pm_fragment demo_prepared !! "env") = true) as Hb
      by (vm_compute; reflexivity).
    intros v Hv. rewrite Hv in Hb. simpl in Hb. apply bool_decide_eq_true in Hb as [o Ho]. by rewrite Ho.
  - apply (bool_decide_eq_true_1 _). vm_compute. reflexivity.
  - exact demo_done_ok.
Defined.
