(* ===== verification/GoText.v ===== *)
(** * More of Go's text functions

    [path.Clean] and [filepath.Clean] on slash-separated paths, [strings.EqualFold]
    against ASCII text, [strconv.ParseInt] and [strconv.FormatInt] in base 10,
    and [token.IsIdentifier], as far as the session state and the packets use
    them. *)
From Stdlib Require Import DecimalString DecimalZ DecimalFacts DecimalPos.
From S2P Require Import Prelude GoStrings.

(** ** Paths *)
(** One element of a path after another: an empty or [.] element is dropped and
    [..] takes back the element before it, or stays where there is none. *)
Definition cleanStep (rooted : bool) (stack : list string) (part : string) : list string :=
  if bool_decide (part = "" ∨ part = ".") then stack
  else if bool_decide (part = "..") then
    match stack with
    | [] => if rooted then [] else [".."]
    | top :: rest => if bool_decide (top = "..") then ".." :: stack else rest
    end
  else part :: stack.
Definition Clean (path : string) : string :=
  let rooted := HasPrefix path "/" in
  let body := Join (reverse (foldl (cleanStep rooted) [] (Split path "/"%char))) "/" in
  if rooted then "/" +:+ body else if bool_decide (body = "") then "." else body.
Definition IsAbs (path : string) : bool := HasPrefix path "/".

Example clean_examples :
  Clean <$> ["a/b"; "a//b/./c/.."; "../x"; "/../x"; ""; "a/.."; "/"; "x/../../y"] =
  ["a/b"; "a/b"; "../x"; "/x"; "."; "."; "/"; "../y"].
Proof. reflexivity. Qed.

(** ** Letters *)
Definition lower (c : ascii) : ascii :=
  if ((65 <=? byte c) && (byte c <=? 90))%N then Stdlib.Strings.Ascii.ascii_of_N (byte c + 32) else c.
(** [strings.EqualFold s t] for [t] in ASCII.  Two letters outside of ASCII fold
    to ASCII ones: the Kelvin sign to [k] and the long s to [s]. *)
Fixpoint EqualFold (s t : string) : bool :=
  match t, s with
  | "", "" => true
  | String c t, String a s' =>
      (Ascii.eqb (lower a) (lower c) && EqualFold s' t) ||
      match s' with
      | String b s'' =>
          (Ascii.eqb (lower c) "s" && (byte a =? 197)%N && (byte b =? 191)%N && EqualFold s'' t) ||
          match s'' with
          | String b2 s3 =>
              Ascii.eqb (lower c) "k" && (byte a =? 226)%N && (byte b =? 132)%N && (byte b2 =? 170)%N &&
              EqualFold s3 t
          | "" => false
          end
      | "" => false
      end
  | _, _ => false
  end.
Example fold_examples : EqualFold "PaCkeT" "PACKET" = true ∧ EqualFold "nones" "none" = false.
Proof. done. Qed.

(** ** Integers *)
Definition min64 : Z := - 2 ^ 63.
Definition max64 : Z := 2 ^ 63 - 1.
(** [int64] and [int] arithmetic wraps. *)
Definition i64 (z : Z) : Z := (z + 2 ^ 63) `mod` 2 ^ 64 - 2 ^ 63.
Definition FormatInt (z : Z) : string := NilZero.string_of_int (Z.to_int z).
Definition digits (s : string) : option Z := Z.of_uint <$> NilZero.uint_of_string s.
Definition ParseInt (s : string) : option Z :=
  z ← match s with
      | String c r =>
          if Ascii.eqb c "-" then Z.opp <$> digits r
          else if Ascii.eqb c "+" then digits r else digits s
      | "" => None
      end;
  if bool_decide (min64 ≤ z ≤ max64)%Z then Some z else None.

Lemma i64_range z : (min64 ≤ i64 z ≤ max64)%Z.
Proof. unfold i64, min64, max64. pose proof (Z.mod_pos_bound (z + 2 ^ 63) (2 ^ 64)). lia. Qed.
Lemma i64_id z : (min64 ≤ z ≤ max64)%Z → i64 z = z.
Proof. unfold i64, min64, max64. intros ?. rewrite Z.mod_small; lia. Qed.

Lemma string_of_uint_digit d c s :
  NilZero.string_of_uint d = String c s → Ascii.eqb c "-" = false ∧ Ascii.eqb c "+" = false.
Proof. destruct d; simpl; intros [= <- _]; done. Qed.
Lemma digits_uint d : d ≠ Decimal.Nil → digits (NilZero.string_of_uint d) = Some (Z.of_uint d).
Proof. intros Hd. unfold digits. by rewrite NilZero.usu. Qed.

(** A number that was written reads back. *)
Lemma ParseInt_FormatInt z : (min64 ≤ z ≤ max64)%Z → ParseInt (FormatInt z) = Some z.
Proof.
  intros Hz. unfold ParseInt, FormatInt.
  assert (Hn : ∀ d, Z.to_int z = Decimal.Pos d ∨ Z.to_int z = Decimal.Neg d → d ≠ Decimal.Nil).
  { intros d Hd ->. destruct z; simpl in Hd; destruct Hd as [[=]|[= H]];
      (try by apply (Unsigned.to_uint_nonnil p)); done. }
  pose proof (of_to z) as Ho. destruct (Z.to_int z) as [d|d] eqn:E; simpl in *.
  - specialize (Hn d (or_introl eq_refl)).
    destruct (NilZero.string_of_uint d) as [|c s] eqn:Es.
    { pose proof (digits_uint d Hn) as Hu. by rewrite Es in Hu. }
    destruct (string_of_uint_digit _ _ _ Es) as [-> ->]. rewrite <- Es, digits_uint by done.
    simpl. rewrite Ho. by rewrite bool_decide_true.
  - specialize (Hn d (or_intror eq_refl)). rewrite digits_uint by done. simpl.
    change (Z.of_int (Decimal.Neg d)) with (- Z.of_uint d)%Z in Ho. rewrite Ho.
    by rewrite bool_decide_true.
Qed.

(** ** Lines of graphic text *)
Fixpoint all_bytes (p : ascii → bool) (s : string) : bool :=
  match s with "" => true | String c s => p c && all_bytes p s end.
Lemma all_bytes_app p s t : all_bytes p (s +:+ t) = all_bytes p s && all_bytes p t.
Proof. induction s; simpl; [done|]. by rewrite <- andb_assoc, <- IHs. Qed.
Lemma all_bytes_rev p s : all_bytes p (String.rev s) = all_bytes p s.
Proof.
  induction s as [|c s IH]; [done|]. rewrite rev_cons_str, all_bytes_app, IH. simpl.
  rewrite andb_true_r. apply andb_comm.
Qed.
Lemma all_graphic s : all_bytes graphic s = true → starts_graphic s = true ∧ ends_graphic s = true.
Proof.
  assert (H : ∀ s, all_bytes graphic s = true → starts_graphic s = true).
  { intros [|c r]; simpl; [done|]. by intros [? _]%andb_true_iff. }
  intros Hs. split; [by apply H|]. apply H. by rewrite all_bytes_rev.
Qed.
(** A line without blanks around it is read back without its line feed. *)
Lemma TrimSpace_line s :
  starts_graphic s = true → ends_graphic s = true → TrimSpace (s +:+ newline) = s.
Proof.
  intros H1 H2. unfold TrimSpace. destruct s as [|c s]; [done|].
  rewrite TrimLeftSpace_id by done. rewrite <- (TrimRightSpace_id (String c s) H2) at 2.
  unfold TrimRightSpace. f_equal. rewrite rev_append_str. done.
Qed.

Lemma string_of_uint_graphic d : all_bytes graphic (NilZero.string_of_uint d) = true.
Proof.
  assert (∀ d, all_bytes graphic (NilEmpty.string_of_uint d) = true) as H.
  { clear d. intros d. by induction d. }
  destruct d; [done|..]; apply (H (_ _)).
Qed.
Lemma FormatInt_graphic z : all_bytes graphic (FormatInt z) = true.
Proof. unfold FormatInt. destruct (Z.to_int z); simpl; by rewrite string_of_uint_graphic. Qed.
Lemma ParseInt_line z :
  (min64 ≤ z ≤ max64)%Z → ParseInt (TrimSpace (FormatInt z +:+ newline)) = Some z.
Proof.
  intros Hz. destruct (all_graphic _ (FormatInt_graphic z)). rewrite TrimSpace_line by done.
  by apply ParseInt_FormatInt.
Qed.

(** ** Identifiers

    [token.IsIdentifier] is exact on ASCII; the tables of [unicode] decide the
    rest. *)
Class Unicode := { unicode_identifier : string → bool }.
Definition letter (c : ascii) : bool :=
  ((97 <=? byte c) && (byte c <=? 122) || (65 <=? byte c) && (byte c <=? 90) || (byte c =? 95))%N.
Definition digit (c : ascii) : bool := ((48 <=? byte c) && (byte c <=? 57))%N.
Definition keywords : list string :=
  ["break"; "case"; "chan"; "const"; "continue"; "default"; "defer"; "else"; "fallthrough"; "for";
   "func"; "go"; "goto"; "if"; "import"; "interface"; "map"; "package"; "range"; "return"; "select";
   "struct"; "switch"; "type"; "var"].
Definition IsIdentifier `{Unicode} (name : string) : bool :=
  if all_bytes (λ c, byte c <? 128)%N name then
    match name with
    | "" => false
    | String c s => letter c && all_bytes (λ c, letter c || digit c) s && negb (bool_decide (name ∈ keywords))
    end
  else unicode_identifier name.
