(* ===== verification/GoTime.v ===== *)
(** * RFC 3339 times

    [time.Parse(time.RFC3339, ...)] and [Time.Format("2006-01-02 15:04:05")] in a
    fixed zone, as far as the session state uses them.  A time is its number of
    nanoseconds since the zero time, the first of January of the year 1. *)
From S2P Require Import Prelude GoStrings GoText ControllerTypes.

Definition two_digits (n : Z) : string :=
  if (n <? 10)%Z then "0" +:+ FormatInt n else FormatInt n.
Definition digit_value (c : ascii) : option Z := if digit c then Some (Z.of_N (byte c) - 48)%Z else None.

(** ** The calendar *)
Definition isLeap (year : Z) : bool :=
  ((year mod 4 =? 0) && (negb (year mod 100 =? 0) || (year mod 400 =? 0)))%Z.
Definition daysIn (month year : Z) : Z :=
  if bool_decide (month = 2%Z) then (if isLeap year then 29 else 28)%Z
  else if bool_decide (month ∈ [4; 6; 9; 11]%Z) then 30%Z else 31%Z.
(** Days before the first of January of a year, from the year 1 on. *)
Definition daysBeforeYear (year : Z) : Z :=
  let y := (year - 1)%Z in (365 * y + y / 4 - y / 100 + y / 400)%Z.
Fixpoint daysBeforeMonth (month : nat) (year : Z) : Z :=
  match month with
  | 0 | 1 => 0%Z
  | S month => (daysBeforeMonth month year + daysIn (Z.of_nat month) year)%Z
  end.
Definition dayNumber (year month day : Z) : Z :=
  (daysBeforeYear year + daysBeforeMonth (Z.to_nat month) year + (day - 1))%Z.
(** The year and the month of a day. *)
Definition yearOf (days : Z) : Z :=
  let guess := (days / 366)%Z in
  (* The guess is at most one too small for each 366 years or part of them. *)
  let fix up (fuel : nat) (year : Z) :=
    match fuel with
    | 0 => year
    | S fuel => if (daysBeforeYear (year + 1) <=? days)%Z then up fuel (year + 1)%Z else year
    end in
  up (Z.to_nat (Z.abs days / 100000) + 4) (guess + 1)%Z.
Definition monthOf (days year : Z) : nat :=
  let rest := (days - daysBeforeYear year)%Z in
  let fix up (fuel month : nat) :=
    match fuel with
    | 0 => month
    | S fuel => if (daysBeforeMonth (S month) year <=? rest)%Z then up fuel (S month) else month
    end in
  up 11 1.

(** ** Parsing *)
Definition getnum2 (s : string) : option (Z * string) :=
  match s with
  | String a (String b s) => x ← digit_value a; y ← digit_value b; Some ((10 * x + y)%Z, s)
  | _ => None
  end.
(** One or two digits. *)
Definition getnum (s : string) : option (Z * string) :=
  match getnum2 s, s with
  | Some r, _ => Some r
  | None, String a s => x ← digit_value a; Some (x, s)
  | None, "" => None
  end.
Definition literal (c : ascii) (s : string) : option string :=
  match s with String a s => if Ascii.eqb a c then Some s else None | "" => None end.
Fixpoint spanDigits (s : string) : string * string :=
  match s with
  | String c s' => if digit c then let '(ds, rest) := spanDigits s' in (String c ds, rest) else ("", s)
  | "" => ("", "")
  end.
(** The digits after the point as nanoseconds; digits after the ninth are dropped. *)
Fixpoint nanoseconds (width : nat) (ds : string) (n : Z) : Z :=
  match width, ds with
  | 0, _ => n
  | S width, String c ds => nanoseconds width ds (10 * n + default 0 (digit_value c))%Z
  | S width, "" => nanoseconds width "" (10 * n)%Z
  end.
Definition fraction (s : string) : Z * string :=
  match s with
  | String p (String c s' as r) =>
      if (Ascii.eqb p "." || Ascii.eqb p ",") && digit c
      then let '(ds, rest) := spanDigits r in (nanoseconds 9 ds 0, rest)
      else (0%Z, s)
  | _ => (0%Z, s)
  end.
Definition zoneOffset (s : string) : option (Z * string) :=
  match literal "Z" s with
  | Some s => Some (0%Z, s)
  | None =>
      match s with
      | String sign s =>
          '(hr, s) ← getnum2 s; s ← literal ":" s; '(mm, s) ← getnum2 s;
          if (hr >? 24)%Z || (mm >? 60)%Z then None
          else if Ascii.eqb sign "+" then Some (((hr * 60 + mm) * 60)%Z, s)
          else if Ascii.eqb sign "-" then Some ((- ((hr * 60 + mm) * 60))%Z, s)
          else None
      | "" => None
      end
  end.
Definition ParseRFC3339 (s : string) : option Time :=
  '(y1, s) ← getnum2 s; '(y2, s) ← getnum2 s; s ← literal "-" s;
  let year := (100 * y1 + y2)%Z in
  '(month, s) ← getnum2 s; s ← literal "-" s;
  '(day, s) ← getnum2 s; s ← literal "T" s;
  '(hour, s) ← getnum s; s ← literal ":" s;
  '(minute, s) ← getnum2 s; s ← literal ":" s;
  '(second, s) ← getnum2 s;
  let '(ns, s) := fraction s in
  '(offset, s) ← zoneOffset s;
  if bool_decide (s ≠ "") || (month <? 1)%Z || (month >? 12)%Z || (day <? 1)%Z || (day >? daysIn month year)%Z ||
     (hour >=? 24)%Z || (minute >=? 60)%Z || (second >=? 60)%Z then None
  else Some (((dayNumber year month day * 24 + hour) * 3600 + minute * 60 + second - offset) * 1000000000 + ns)%Z.

(** ** Formatting *)
Definition four_digits (n : Z) : string :=
  let s := FormatInt (Z.abs n) in
  (if (n <? 0)%Z then "-" else "") +:+
  (if (Z.abs n <? 10)%Z then "000" else if (Z.abs n <? 100)%Z then "00" else if (Z.abs n <? 1000)%Z then "0" else "")
  +:+ s.
(** [t.In(time.FixedZone("CST", 8*60*60)).Format("2006-01-02 15:04:05")] *)
Definition FormatCST (t : Time) : string :=
  let seconds := (t / 1000000000 + 8 * 3600)%Z in
  let days := (seconds / 86400)%Z in
  let rest := (seconds mod 86400)%Z in
  let year := yearOf days in
  let month := monthOf days year in
  let day := (days - daysBeforeYear year - daysBeforeMonth month year + 1)%Z in
  four_digits year +:+ "-" +:+ two_digits (Z.of_nat month) +:+ "-" +:+ two_digits day +:+ " " +:+
  two_digits (rest / 3600) +:+ ":" +:+ two_digits (rest mod 3600 / 60) +:+ ":" +:+ two_digits (rest mod 60).

Example parse_examples :
  (FormatCST <$> ParseRFC3339 "2026-02-28T23:30:05.25Z") = Some "2026-03-01 07:30:05" ∧
  (FormatCST <$> ParseRFC3339 "2024-02-29T1:00:00-05:30") = Some "2024-02-29 14:30:00" ∧
  ParseRFC3339 "2023-02-29T00:00:00Z" = None ∧ ParseRFC3339 "2023-02-28 00:00:00Z" = None ∧
  ParseRFC3339 "0001-01-01T00:00:00Z" = Some 0%Z ∧
  (FormatCST <$> ParseRFC3339 "9999-12-31T23:59:59Z") = Some "10000-01-01 07:59:59".
Proof. vm_compute. done. Qed.
