(* ===== verification/Packet.v ===== *)
(** * Result packets

    Models [internal/packet] ([result.go], [contract.go], [validate.go] without
    the file checks of artifacts) and the parser of review targets
    ([internal/reviewtarget/target.go]): the result a worker or a reviewer
    reports, the contract of each status, and the validation that collects
    every independent violation.  How [encoding/json] renders a packet is the
    class [MachineEncoder]. *)
From S2P Require Import Prelude GoStrings GoText ControllerTypes ControllerStore.

(** ** Review targets ([reviewtarget/target.go]) *)
Inductive LocatorKind := LocatorLineRange | LocatorWholeDiff | LocatorGoSymbol.
#[export] Instance LocatorKind_eq_dec : EqDecision LocatorKind.
Proof. solve_decision. Defined.
Record Target := {
  tg_Path : string;
  tg_Locator : string;
  tg_Kind : LocatorKind;
  tg_LineStart : Z;
  tg_LineEnd : Z;
  tg_Owner : string;
  tg_Symbol : string;
}.
Definition WholeFileDiffLocator : string := "@diff".
Definition canonicalCorrection : string :=
  "use repository-relative path:N, path:N-M, path:@diff, or for Go source path:TopLevel / path:Type.Member".
Definition parseError (code raw : string) : error :=
  Errorf "review target [%s] %q is not canonical; correction=%s" [AStr code; AStr raw; AStr canonicalCorrection].

Definition relativePath (path : string) : bool :=
  if Contains path "\" then false
  else
    let clean := Clean path in
    bool_decide (clean = path) && negb (bool_decide (clean = "")) && negb (bool_decide (clean = ".")) &&
    negb (bool_decide (clean = "..")) && negb (HasPrefix clean "../") && negb (HasPrefix clean "/").
Definition splitCanonicalTarget (raw : string) : result error (string * string) :=
  reject! bool_decide (raw = "") || negb (bool_decide (TrimSpace raw = raw)) with parseError "shape" raw;
  let '(path, locator, found) := Cut raw ":" in
  reject! negb found || bool_decide (path = "") || bool_decide (locator = "") with parseError "shape" raw;
  reject! negb (bool_decide (TrimSpace path = path)) || negb (bool_decide (TrimSpace locator = locator)) ||
          negb (relativePath path) || ContainsAny path " ,()" with parseError "path" raw;
  Ok (path, locator).
(** [strconv.Atoi] and the test that [strconv.Itoa] gives the text back. *)
Definition canonicalInt (s : string) : option Z :=
  z ← ParseInt s; if bool_decide (FormatInt z = s) then Some z else None.
Definition ParseLineRange (locator : string) : option (Z * Z) :=
  if bool_decide (locator = "") || negb (bool_decide (TrimSpace locator = locator)) then None
  else match Split locator "-"%char with
       | [] => None
       | first :: rest =>
           if bool_decide (1 < length rest) || bool_decide (first = "") then None
           else
             start ← canonicalInt first;
             if bool_decide (start ≤ 0)%Z then None
             else match rest with
                  | last :: _ =>
                      stop ← canonicalInt last;
                      if bool_decide (stop < start)%Z then None else Some (start, stop)
                  | [] => Some (start, start)
                  end
       end.

Section Targets.
Context `{Unicode}.
Definition validGoLocatorIdentifier (value : string) : bool :=
  negb (bool_decide (value = "_")) && IsIdentifier value.
Definition parseGoSymbolLocator (locator : string) : option (string * string) :=
  match Split locator "."%char with
  | [symbol] => if validGoLocatorIdentifier symbol then Some ("", symbol) else None
  | [owner; symbol] =>
      if validGoLocatorIdentifier owner && validGoLocatorIdentifier symbol then Some (owner, symbol) else None
  | _ => None
  end.
Definition parseGoTarget (raw path locator : string) : result error Target :=
  reject! negb (HasSuffix path ".go") with parseError "locator-language" raw;
  match parseGoSymbolLocator locator with
  | None => Err (parseError "locator" raw)
  | Some (owner, symbol) =>
      Ok {| tg_Path := path; tg_Locator := locator; tg_Kind := LocatorGoSymbol;
            tg_LineStart := 0; tg_LineEnd := 0; tg_Owner := owner; tg_Symbol := symbol |}
  end.
Definition ParseTarget (raw : string) : result error Target :=
  '(path, locator) ← splitCanonicalTarget raw;
  match ParseLineRange locator with
  | Some (start, stop) =>
      Ok {| tg_Path := path; tg_Locator := locator; tg_Kind := LocatorLineRange;
            tg_LineStart := start; tg_LineEnd := stop; tg_Owner := ""; tg_Symbol := "" |}
  | None =>
      if bool_decide (locator = WholeFileDiffLocator) then
        Ok {| tg_Path := path; tg_Locator := locator; tg_Kind := LocatorWholeDiff;
              tg_LineStart := 0; tg_LineEnd := 0; tg_Owner := ""; tg_Symbol := "" |}
      else parseGoTarget raw path locator
  end.
Definition Parse (raw : string) : result error (string * string) :=
  target ← ParseTarget raw; Ok (tg_Path target, tg_Locator target).
End Targets.

(** ** Packets ([result.go]) *)
Notation Status := string (only parsing).
Notation Risk := string (only parsing).
Record ParentValidationRequest := { pv_Form : string; pv_WorkingDir : string }.
Record ParentValidationEvidence := {
  pe_ValidationRunID : string;
  pe_Form : string;
  pe_Repository : string;
  pe_WorkingDir : string;
  pe_Head : string;
  pe_IndexDigest : string;
  pe_WorktreeDigest : string;
  pe_Status : string;
  pe_ExitCode : Z;
  pe_DurationMS : Z;
  pe_Log : string;
}.
Record FailurePathAdvisoryFinding := { af_Target : string; af_Class : string; af_Issue : string }.
Record FailurePathAdvisoryIndeterminate := { ai_Target : string; ai_Class : string }.
Record FailurePathAdvisory := {
  fa_CallID : string;
  fa_Findings : list FailurePathAdvisoryFinding;
  fa_Indeterminate : list FailurePathAdvisoryIndeterminate;
  fa_Truncated : bool;
}.
Record Result := {
  rs_Status : Status;
  rs_Risk : Risk;
  rs_Summary : string;
  rs_RequirementCoverage : string;
  rs_Tests : string;
  rs_Unverified : string;
  rs_ParentValidation : string;
  rs_ParentValidationWorkingDir : string;
  rs_ParentValidationEvidence : option ParentValidationEvidence;
  rs_Decision : string;
  rs_Evidence : string;
  rs_Options : string;
  rs_Recommendation : string;
  rs_TestObligations : string;
  rs_Invariants : string;
  rs_TestEvidence : string;
  rs_Issues : string;
  rs_ResidualRisk : string;
  rs_SolQuestion : string;
  rs_Targets : list string;
  rs_Artifacts : list string;
  rs_FailurePathAdvisory : option FailurePathAdvisory;
}.
#[export] Instance ParentValidationEvidence_eq_dec : EqDecision ParentValidationEvidence.
Proof. solve_decision. Defined.
#[export] Instance af_eq_dec : EqDecision FailurePathAdvisoryFinding.
Proof. solve_decision. Defined.
#[export] Instance ai_eq_dec : EqDecision FailurePathAdvisoryIndeterminate.
Proof. solve_decision. Defined.
#[export] Instance FailurePathAdvisory_eq_dec : EqDecision FailurePathAdvisory.
Proof. solve_decision. Defined.
#[export] Instance Result_eq_dec : EqDecision Result.
Proof. solve_decision. Defined.

Definition MaxPacketBytes : nat := 8 * 1024.
Definition MaxFieldBytes : nat := 2048.
Definition ReportOnlyTargets : string := "PACKET".
Definition noneTargetsSentinel : string := "none".

(** ** Contracts ([contract.go]) *)
Inductive machineField :=
  | fieldStatus | fieldRisk | fieldSummary | fieldRequirementCoverage | fieldTests | fieldUnverified
  | fieldParentValidation | fieldParentValidationWorkingDir | fieldParentValidationEvidence
  | fieldDecision | fieldEvidence | fieldOptions | fieldRecommendation | fieldTestObligations
  | fieldInvariants | fieldTestEvidence | fieldIssues | fieldResidualRisk | fieldSolQuestion
  | fieldTargets | fieldArtifacts | fieldFailurePathAdvisory.
Definition field_name (field : machineField) : string :=
  match field with
  | fieldStatus => "status" | fieldRisk => "risk" | fieldSummary => "summary"
  | fieldRequirementCoverage => "requirement_coverage" | fieldTests => "tests"
  | fieldUnverified => "unverified" | fieldParentValidation => "parent_validation"
  | fieldParentValidationWorkingDir => "parent_validation_working_dir"
  | fieldParentValidationEvidence => "parent_validation_evidence"
  | fieldDecision => "decision" | fieldEvidence => "evidence" | fieldOptions => "options"
  | fieldRecommendation => "recommendation" | fieldTestObligations => "test_obligations"
  | fieldInvariants => "invariants" | fieldTestEvidence => "test_evidence" | fieldIssues => "issues"
  | fieldResidualRisk => "residual_risk" | fieldSolQuestion => "sol_question"
  | fieldTargets => "targets" | fieldArtifacts => "artifacts"
  | fieldFailurePathAdvisory => "failure_path_advisory"
  end.
Definition StatusImplemented : Status := "IMPLEMENTED".
Definition StatusNeedsSolDecision : Status := "NEEDS_SOL_DECISION".
Definition StatusPass : Status := "PASS".
Definition StatusFixRequired : Status := "FIX_REQUIRED".
Definition StatusNeedsSolReview : Status := "NEEDS_SOL_REVIEW".
Definition RiskLow : Risk := "LOW".
Definition RiskHigh : Risk := "HIGH".
Definition ParentValidationGoTest : string := "go-test".
Definition ParentValidationGoTestRace : string := "go-test-race".

(** The owner of a field's value; [None] where [machineFieldValue] panics. *)
Definition machineFieldValue (r : Result) (field : machineField) : option string :=
  match field with
  | fieldSummary => Some (rs_Summary r)
  | fieldRequirementCoverage => Some (rs_RequirementCoverage r)
  | fieldTests => Some (rs_Tests r)
  | fieldUnverified => Some (rs_Unverified r)
  | fieldDecision => Some (rs_Decision r)
  | fieldEvidence => Some (rs_Evidence r)
  | fieldOptions => Some (rs_Options r)
  | fieldRecommendation => Some (rs_Recommendation r)
  | fieldTestObligations => Some (rs_TestObligations r)
  | fieldInvariants => Some (rs_Invariants r)
  | fieldTestEvidence => Some (rs_TestEvidence r)
  | fieldIssues => Some (rs_Issues r)
  | fieldResidualRisk => Some (rs_ResidualRisk r)
  | fieldSolQuestion => Some (rs_SolQuestion r)
  | _ => None
  end.
Definition reviewerResultFields : list machineField :=
  [fieldSummary; fieldRequirementCoverage; fieldInvariants; fieldTestEvidence; fieldIssues; fieldResidualRisk].

Record packetStatusContract := {
  sc_risks : list Risk;
  sc_resultFields : list machineField;
  sc_invalidRisk : Risk → error;
}.
Definition invalidLowHighRisk (risk : Risk) : error := Errorf "riskはLOWまたはHIGHで指定してください: %q" [AStr risk].
Definition packetStatusContracts (status : Status) : option packetStatusContract :=
  if bool_decide (status = StatusImplemented) then
    Some {| sc_risks := [RiskLow; RiskHigh];
            sc_resultFields := [fieldSummary; fieldRequirementCoverage; fieldTests; fieldUnverified];
            sc_invalidRisk := invalidLowHighRisk |}
  else if bool_decide (status = StatusNeedsSolDecision) then
    Some {| sc_risks := [RiskHigh];
            sc_resultFields := [fieldDecision; fieldEvidence; fieldOptions; fieldRecommendation; fieldTestObligations];
            sc_invalidRisk _ := err "NEEDS_SOL_DECISIONのriskはHIGHにしてください" |}
  else if bool_decide (status = StatusPass) then
    Some {| sc_risks := [RiskLow];
            sc_resultFields := reviewerResultFields;
            sc_invalidRisk _ := err "PASSのriskはLOWにしてください。高リスクならNEEDS_SOL_REVIEWを返してください" |}
  else if bool_decide (status = StatusFixRequired) then
    Some {| sc_risks := [RiskLow; RiskHigh];
            sc_resultFields := reviewerResultFields;
            sc_invalidRisk := invalidLowHighRisk |}
  else if bool_decide (status = StatusNeedsSolReview) then
    Some {| sc_risks := [RiskHigh];
            sc_resultFields := reviewerResultFields ++ [fieldSolQuestion];
            sc_invalidRisk _ := err "NEEDS_SOL_REVIEWのriskはHIGHにしてください" |}
  else None.
Definition resultFieldsForStatus (status : Status) : list machineField :=
  match packetStatusContracts status with
  | Some contract => sc_resultFields contract
  | None => reviewerResultFields
  end.

Definition workerModelFields : list machineField :=
  [fieldStatus; fieldRisk; fieldSummary; fieldRequirementCoverage; fieldTests; fieldUnverified;
   fieldParentValidation; fieldParentValidationWorkingDir; fieldDecision; fieldEvidence; fieldOptions;
   fieldRecommendation; fieldTestObligations; fieldTargets; fieldArtifacts].
Definition reviewerModelFields : list machineField :=
  [fieldStatus; fieldRisk; fieldSummary; fieldRequirementCoverage; fieldInvariants; fieldTestEvidence;
   fieldIssues; fieldResidualRisk; fieldSolQuestion; fieldDecision; fieldEvidence; fieldOptions;
   fieldRecommendation; fieldTestObligations; fieldTargets; fieldArtifacts].
Record machineContract := {
  mc_name : string;
  mc_modelFields : list machineField;
  mc_statuses : list Status;
  mc_strictRequiredStatus : Status;
}.
Definition workerMachineContract : machineContract :=
  {| mc_name := "worker"; mc_modelFields := workerModelFields;
     mc_statuses := [StatusImplemented; StatusNeedsSolDecision]; mc_strictRequiredStatus := "" |}.
Definition reviewerMachineContract : machineContract :=
  {| mc_name := "reviewer"; mc_modelFields := reviewerModelFields;
     mc_statuses := [StatusPass; StatusFixRequired; StatusNeedsSolReview; StatusNeedsSolDecision];
     mc_strictRequiredStatus := "" |}.
Definition highFloorReviewerMachineContract : machineContract :=
  {| mc_name := "reviewer"; mc_modelFields := reviewerModelFields;
     mc_statuses := [StatusFixRequired; StatusNeedsSolReview; StatusNeedsSolDecision];
     mc_strictRequiredStatus := "" |}.
Definition riskFloorReviewerMachineContract : machineContract :=
  {| mc_name := "reviewer"; mc_modelFields := reviewerModelFields;
     mc_statuses := [StatusNeedsSolReview]; mc_strictRequiredStatus := StatusNeedsSolReview |}.
Definition machineContractAllowsStatus (contract : machineContract) (status : Status) : bool :=
  existsb (λ allowed, bool_decide (status = allowed)) (mc_statuses contract).
Definition statusAllowsRisk (contract : packetStatusContract) (risk : Risk) : bool :=
  existsb (λ allowed, bool_decide (risk = allowed)) (sc_risks contract).

(** ** Packets as JSON *)
Inductive machineValue :=
  | MString (s : string)
  | MStrings (l : list string)
  | MEvidence (e : ParentValidationEvidence)
  | MAdvisory (a : FailurePathAdvisory).
(** [json.Encoder.Encode] without HTML escapes, and without the line feed. *)
Class MachineEncoder := { encodeMachine : gmap string machineValue → result error string }.
Definition AdvisoryVisibleStatus (status : Status) : bool :=
  bool_decide (status = StatusPass ∨ status = StatusNeedsSolReview ∨ status = StatusNeedsSolDecision).
Definition put_field (field : machineField) (value : machineValue) (c : bool) (o : gmap string machineValue) :
    gmap string machineValue := if c then <[field_name field := value]> o else o.
Definition machineObject (r : Result) : gmap string machineValue :=
  let object := {[field_name fieldStatus := MString (rs_Status r); field_name fieldRisk := MString (rs_Risk r)]} in
  let object :=
    foldl (λ o field, match machineFieldValue r field with
                      | Some value => put_field field (MString value) (negb (bool_decide (value = ""))) o
                      | None => o
                      end) object (resultFieldsForStatus (rs_Status r)) in
  let implemented := bool_decide (rs_Status r = StatusImplemented) in
  let requested := implemented && negb (bool_decide (rs_ParentValidation r = "")) in
  let object := put_field fieldParentValidation (MString (rs_ParentValidation r)) requested object in
  let object := put_field fieldParentValidationWorkingDir (MString (rs_ParentValidationWorkingDir r)) requested object in
  let object := match rs_ParentValidationEvidence r with
                | Some e => put_field fieldParentValidationEvidence (MEvidence e) implemented object
                | None => object
                end in
  let object := match rs_FailurePathAdvisory r with
                | Some a => put_field fieldFailurePathAdvisory (MAdvisory a) (AdvisoryVisibleStatus (rs_Status r)) object
                | None => object
                end in
  let object := put_field fieldTargets (MStrings (rs_Targets r)) (negb (bool_decide (rs_Targets r = []))) object in
  put_field fieldArtifacts (MStrings (rs_Artifacts r)) (negb (bool_decide (rs_Artifacts r = []))) object.
Definition MachineJSON `{MachineEncoder} (r : Result) : result error string := encodeMachine (machineObject r).
Definition ByteSize `{MachineEncoder} (r : Result) : nat :=
  match MachineJSON r with Ok data => String.length data | Err _ => 0 end.

(** ** Violations ([validate.go])

    A reason is the error whose text the code keeps. *)
#[export] Instance error_eq_dec : EqDecision error.
Proof.
  unfold EqDecision, RelDecision. fix go 1. intros [f1 a1] [f2 a2]. destruct (decide (f1 = f2)) as [<-|]; [|right; congruence].
  assert (Decision (a1 = a2)) as [<-|]; [|by left|right; congruence].
  revert a2. induction a1 as [|x a1 IH]; intros [|y a2]; [by left|by right|by right|].
  destruct (IH a2) as [<-|]; [|right; congruence].
  assert (Decision (x = y)) as [<-|]; [|by left|right; congruence].
  destruct x as [s|n|e|es], y as [t|m|f|fs]; try (right; congruence).
  - destruct (decide (s = t)) as [<-|]; [by left|right; congruence].
  - destruct (decide (n = m)) as [<-|]; [by left|right; congruence].
  - destruct (go e f) as [<-|]; [by left|right; congruence].
  - assert (Decision (es = fs)) as [<-|]; [|by left|right; congruence].
    clear IH. revert fs. induction es as [|e es IHe]; intros [|f fs]; [by left|by right|by right|].
    destruct (go e f) as [<-|]; [|right; congruence].
    destruct (IHe fs) as [<-|]; [by left|right; congruence].
Defined.
Inductive packetError :=
  | mismatchError (reason : error)
  | constraintError (reason : list error) (reasons : list error) (keys : list string) (category : string).
Definition maxConstraintReasons : nat := 16.
Definition rejectCategoryForKey (key : string) : string :=
  if HasPrefix key "artifact" then "artifacts"
  else if HasPrefix key "multiline-field" || bool_decide (key = "list-element-multiline") then "multiline-field"
  else if HasPrefix key "field-size" || bool_decide (key = "list-element-size") || bool_decide (key = "packet-size")
  then "size"
  else if HasPrefix key "missing-field" then "missing-field"
  else if HasPrefix key "targets" then "targets-none"
  else if Contains key "risk" then "risk"
  else if Contains key "status" then "status"
  else "other".
Definition newConstraintError (key : string) (reason : error) : packetError :=
  constraintError [reason] [reason] [key] (rejectCategoryForKey key).
Definition ConstraintReasons (e : packetError) : list error :=
  match e with
  | constraintError reason reasons _ _ => if bool_decide (reasons = []) then reason else reasons
  | mismatchError _ => []
  end.
Definition ConstraintViolationKeys (e : packetError) : list string :=
  match e with constraintError _ _ keys _ => keys | mismatchError _ => [] end.

Record constraintCollector := {
  cc_reasons : list error;
  cc_keys : list string;
  cc_seen : list error;
  cc_omitted : nat;
  cc_category : string;
}.
Definition newConstraintCollector : constraintCollector :=
  {| cc_reasons := []; cc_keys := []; cc_seen := []; cc_omitted := 0; cc_category := "" |}.
Definition addReason (key : string) (reason : error) (c : constraintCollector) : constraintCollector :=
  if bool_decide (key = "") || bool_decide (reason ∈ cc_seen c) then c
  else
    let c := c {{ cc_seen := reason :: cc_seen c }} in
    let c := if bool_decide (cc_category c = "") then c {{ cc_category := rejectCategoryForKey key }} else c in
    if bool_decide (maxConstraintReasons ≤ length (cc_reasons c)) then c {{ cc_omitted := S (cc_omitted c) }}
    else c {{ cc_reasons := cc_reasons c ++ [reason]; cc_keys := cc_keys c ++ [key] }}.
(** [collector.add(err)]: a violation is collected, any other error returned. *)
Definition add {A} (c : constraintCollector) (r : result packetError A) : result packetError constraintCollector :=
  match r with
  | Ok _ => Ok c
  | Err e =>
      let reasons := ConstraintReasons e in
      let keys := ConstraintViolationKeys e in
      reject! bool_decide (length reasons = 0) || negb (bool_decide (length keys = length reasons)) with e;
      Ok (foldl (λ c '(key, reason), addReason key reason c) c (zip keys reasons))
  end.
Definition collected (c : constraintCollector) : result packetError unit :=
  if bool_decide (cc_reasons c = []) then Ok ()
  else
    let display := cc_reasons c ++
      (if bool_decide (cc_omitted c = 0) then []
       else [Errorf "ほか%d件の独立した違反があります" [AInt (cc_omitted c)]]) in
    Err (constraintError display (cc_reasons c) (cc_keys c) (cc_category c)).

(** ** Validation *)
Definition violation (key : string) (reason : error) : result packetError unit := Err (newConstraintError key reason).
Definition validateMachineStatusRisk (r : Result) (contract : machineContract) : result packetError unit :=
  if negb (machineContractAllowsStatus contract (rs_Status r)) then
    Err (mismatchError (Errorf "%s結果のstatusとして許容されません: %q" [AStr (mc_name contract); AStr (rs_Status r)]))
  else match packetStatusContracts (rs_Status r) with
       | Some statusContract =>
           if statusAllowsRisk statusContract (rs_Risk r) then Ok ()
           else violation ("risk:" +:+ rs_Status r) (sc_invalidRisk statusContract (rs_Risk r))
       | None => Err (mismatchError (err "panic: nil invalidRisk"))
       end.
Definition validateFailurePathAdvisoryField (r : Result) : result packetError unit :=
  if bool_decide (rs_FailurePathAdvisory r = None) then Ok ()
  else violation "failure-path-advisory" (err "failure_path_advisoryはmachine専有fieldです").
Definition validParentValidationForm (form : string) : bool :=
  bool_decide (form = ParentValidationGoTest ∨ form = ParentValidationGoTestRace).
Definition validateParentValidationWorkingDir (workingDir : string) : result packetError unit :=
  if IsAbs workingDir || Contains workingDir "\" || negb (bool_decide (Clean workingDir = workingDir)) ||
     bool_decide (workingDir = "..") || HasPrefix workingDir "../"
  then violation "parent-validation-working-dir"
         (Errorf "parent_validation_working_dirは正規化済みrepository相対pathで指定してください: %q" [AStr workingDir])
  else Ok ().
Definition validateParentValidation (r : Result) : result packetError unit :=
  let form := rs_ParentValidation r in let dir := rs_ParentValidationWorkingDir r in
  if negb (bool_decide (rs_ParentValidationEvidence r = None)) then
    violation "parent-validation-evidence" (err "parent_validation_evidenceはwrapper専用fieldです")
  else if bool_decide (form = "") && bool_decide (dir = "") then Ok ()
  else if negb (bool_decide (rs_Status r = StatusImplemented)) then
    violation "parent-validation-status" (err "parent_validationはIMPLEMENTEDだけで指定できます")
  else if bool_decide (form = "") || bool_decide (dir = "") then
    violation "parent-validation-pair" (err "parent_validationとparent_validation_working_dirは同時に指定してください")
  else if negb (validParentValidationForm form) then
    violation "parent-validation-form" (Errorf "parent_validationは既知のparent gateだけを指定してください: %q" [AStr form])
  else validateParentValidationWorkingDir dir.
Definition validateReviewerParentValidation (r : Result) : result packetError unit :=
  if bool_decide (rs_ParentValidation r = "") && bool_decide (rs_ParentValidationWorkingDir r = "") &&
     bool_decide (rs_ParentValidationEvidence r = None) then Ok ()
  else violation "reviewer-parent-validation" (err "reviewer結果にparent validation fieldは指定できません").

Section Validation.
Context `{Unicode, MachineEncoder}.
(** The element of a target list; the boolean says that it is [none]. *)
Definition validateTargetElement (r : Result) (element : string) (seen : list string) :
    result packetError bool * list string :=
  let trimmed := TrimSpace element in
  let bad key reason := Err (newConstraintError key reason) in
  if bool_decide (trimmed = "") then
    (bad "targets-element-empty"
       (err "TARGETSの要素は空・空白のみにできません: 具体対象または予約値none/PACKETを指定してください"), seen)
  else if bool_decide (trimmed ∈ seen) then
    (bad "targets-duplicate" (err "TARGETSの要素が重複しています: 各対象は1回だけ指定してください"), seen)
  else
    let seen := trimmed :: seen in
    if EqualFold trimmed noneTargetsSentinel then
      (if bool_decide (element = noneTargetsSentinel) then Ok true
       else bad "targets-none-case"
              (err "TARGETSの予約値noneは小文字厳密表現のnoneだけを要素にできます: 大小文字・空白の変形は使えません"), seen)
    else if EqualFold trimmed ReportOnlyTargets &&
            (negb (bool_decide (rs_Status r = StatusFixRequired)) || negb (bool_decide (element = ReportOnlyTargets)) ||
             negb (bool_decide (length (rs_Targets r) = 1))) then
      (bad "targets-packet-reserved"
         (err "TARGETSの予約値PACKETはFIX_REQUIREDの報告再出力専用です: 実装修正では具体対象を指定してください"), seen)
    else if bool_decide (rs_Status r = StatusNeedsSolReview) && negb (is_ok (Parse trimmed)) then
      (bad "targets-review-shape"
         (Errorf "NEEDS_SOL_REVIEWのTARGETSはrepository相対path:locator形式で指定してください: %q" [AStr element]), seen)
    else (Ok false, seen).
Definition validateNoneTarget (r : Result) (hasNone : bool) : result packetError unit :=
  if negb hasNone then Ok ()
  else if bool_decide (1 < length (rs_Targets r)) then
    violation "targets-none-mixed"
      (err "TARGETSの予約値noneは具体対象と混在できません: 対象が概念的なときはnoneだけを要素にしてください")
  else if bool_decide (rs_Status r = StatusNeedsSolReview) then
    violation "targets-none-review"
      (err "NEEDS_SOL_REVIEWのTARGETSはnoneにできません: Solが読むべき最小対象をfile:symbol/行範囲で指定してください")
  else Ok ().
Fixpoint targetsLoop (r : Result) (elements seen : list string) (hasNone : bool) (c : constraintCollector) :
    result packetError (constraintCollector * bool) :=
  match elements with
  | [] => Ok (c, hasNone)
  | element :: elements =>
      let '(verdict, seen) := validateTargetElement r element seen in
      c ← add c verdict;
      targetsLoop r elements seen (hasNone || match verdict with Ok b => b | Err _ => false end) c
  end.
Definition validateTargets (r : Result) : result packetError unit :=
  if bool_decide (length (rs_Targets r) = 0) then
    if bool_decide (rs_Status r = StatusImplemented) then Ok ()
    else violation "targets-empty"
           (Errorf "%sのTARGETSは空にできません: Solが読むべき最小対象をfile:symbol/行範囲で指定してください" [AStr (rs_Status r)])
  else
    '(c, hasNone) ← targetsLoop r (rs_Targets r) [] false newConstraintCollector;
    c ← add c (validateNoneTarget r hasNone);
    collected c.
Definition has_line_break (s : string) : bool := ContainsAny s (String LF (String "013" "")).
Definition fieldReasons (r : Result) (field : machineField) (c : constraintCollector) :
    result packetError constraintCollector :=
  match machineFieldValue r field with
  | None => Err (mismatchError (Errorf "panic: machine field %qにresult value ownerがありません" [AStr (field_name field)]))
  | Some value =>
      let name := field_name field in
      Ok (if bool_decide (TrimSpace value = "") then
            addReason ("missing-field:" +:+ name) (Errorf "結果に必須field %sがありません" [AStr name]) c
          else
            let c := if has_line_break value then
                       addReason ("multiline-field:" +:+ name)
                         (Errorf "field %sに改行を含められません: 複数事項は同じvalue内でセミコロン区切りにしてください" [AStr name]) c
                     else c in
            if bool_decide (MaxFieldBytes < String.length value) then
              addReason ("field-size:" +:+ name)
                (Errorf "field %sは%d bytes以内にしてください" [AStr name; AInt MaxFieldBytes]) c
            else c)
  end.
Fixpoint fieldsReasons (r : Result) (fields : list machineField) (c : constraintCollector) :
    result packetError constraintCollector :=
  match fields with
  | [] => Ok c
  | field :: fields => c ← fieldReasons r field c; fieldsReasons r fields c
  end.
Definition elementReasons (c : constraintCollector) (value : string) : constraintCollector :=
  let c := if has_line_break value then
             addReason "list-element-multiline" (err "TARGETS/ARTIFACTSの各要素に改行を含められません") c
           else c in
  if bool_decide (MaxFieldBytes < String.length value) then
    addReason "list-element-size" (Errorf "TARGETS/ARTIFACTSの各要素は%d bytes以内にしてください" [AInt MaxFieldBytes]) c
  else c.
Definition validateFields (r : Result) (fields : list machineField) : result packetError unit :=
  c ← fieldsReasons r fields newConstraintCollector;
  let c := foldl elementReasons c (rs_Targets r ++ rs_Artifacts r) in
  let size := ByteSize r in
  let c := if bool_decide (MaxPacketBytes < size) then
             addReason "packet-size"
               (Errorf "結果全体はmachine JSONで%d bytes以内にしてください: %d bytes" [AInt MaxPacketBytes; AInt size]) c
           else c in
  collected c.
Definition validateResultConstraints (r : Result) (contract : machineContract)
    (roleCheck : Result → result packetError unit) : result packetError unit :=
  c ← add newConstraintCollector (validateMachineStatusRisk r contract);
  c ← add c (roleCheck r);
  c ← add c (validateFailurePathAdvisoryField r);
  c ← add c (validateFields r (resultFieldsForStatus (rs_Status r)));
  c ← add c (validateTargets r);
  collected c.
Definition ValidateWorkerResult (r : Result) : result packetError unit :=
  validateResultConstraints r workerMachineContract validateParentValidation.
Definition ValidateReviewerResult (r : Result) : result packetError unit :=
  validateResultConstraints r reviewerMachineContract validateReviewerParentValidation.
End Validation.
Definition IsReportOnlyFix (r : Result) : bool :=
  bool_decide (rs_Status r = StatusFixRequired) && bool_decide (rs_Targets r = [ReportOnlyTargets]).
