(* ===== verification/SessionTypes.v ===== *)
(** * Records of the session state

    The data of [internal/state] that the lifecycle of a worker task reads and
    writes: the resume checkpoint, the parent review, task statistics, the call
    log and the small records around them, with the fields in the order of the
    Go structs.  A Go string type is its string, a pointer an option, an integer
    a [Z], [time.Time] a number of nanoseconds (the zero time is [0]) and a
    [float64] its bits. *)
From S2P Require Import Prelude ControllerTypes ControllerStore Packet.

Notation TaskStatus := string (only parsing).
Notation SessionRole := string (only parsing).
Notation ResumeStage := string (only parsing).
Notation ResumeStopKind := string (only parsing).
Definition zeroTime : Time := 0%Z.

(** ** [store.go] *)
Definition WorkerRole : SessionRole := "worker".
Definition ReviewerRole : SessionRole := "reviewer".
Definition TaskStatusActive : TaskStatus := "active".
Definition TaskStatusWaitingDecision : TaskStatus := "waiting-decision".
Definition TaskStatusWaitingSolReview : TaskStatus := "waiting-sol-review".
Definition TaskStatusAwaitingParentCompletion : TaskStatus := "awaiting-parent-completion".
Definition TaskStatusComplete : TaskStatus := "complete".
Definition TaskStatusUserTerminated : TaskStatus := "user-terminated".
Definition TaskStatusRateLimited : TaskStatus := "rate-limited".
Definition TaskStatusProviderUnavailable : TaskStatus := "provider-unavailable".
Definition TaskStatusGuardRecoverable : TaskStatus := "guard-recoverable".
Definition TaskStatusQualityGateRecoverable : TaskStatus := "quality-gate-recoverable".
Definition TaskStatusResultFormatRecoverable : TaskStatus := "result-format-recoverable".
Definition TaskStatusInterrupted : TaskStatus := "interrupted".
Definition TaskStatusNone : TaskStatus := "none".

(** ** [snapshot.go], [retention.go] *)
Record ParentFileState := { pf_Path : string; pf_Exists : bool; pf_SHA256 : string }.
Record GitSnapshot := {
  gs_Head : string;
  gs_IndexDigest : string;
  gs_WorktreeDigest : string;
  gs_WorktreeDigestExcludingParent : string;
  gs_ParentFiles : option (list ParentFileState);
}.
Record SnapshotDigest := {
  sd_Head : string;
  sd_IndexDigest : string;
  sd_WorktreeDigest : string;
  sd_WorktreeDigestExcludingParent : string;
}.
Record SnapshotDiagnostic := {
  sg_Stage : string;
  sg_Previous : option SnapshotDigest;
  sg_Current : option SnapshotDigest;
  sg_Matched : option bool;
  sg_MismatchAxis : string;
  sg_Reason : string;
}.
Record StopDirtyFile := {
  df_Path : string;
  df_IndexSHA : string;
  df_WorktreeSHA : string;
  df_IndexIdentity : string;
  df_WorktreeIdentity : string;
}.
Definition snapshotDigest (s : GitSnapshot) : SnapshotDigest :=
  {| sd_Head := gs_Head s; sd_IndexDigest := gs_IndexDigest s; sd_WorktreeDigest := gs_WorktreeDigest s;
     sd_WorktreeDigestExcludingParent := gs_WorktreeDigestExcludingParent s |}.

(** ** [resume.go] *)
Record GuardRefState := { gr_Name : string; gr_ObjectID : string; gr_Symref : string }.
Record GuardRefChange := { gc_Name : string; gc_Before : option GuardRefState; gc_After : option GuardRefState }.
Record ResumeCheckpoint := {
  ck_Version : Z;
  ck_Stage : ResumeStage;
  ck_Phase : string;
  ck_Role : SessionRole;
  ck_Model : string;
  ck_ReadOnly : bool;
  ck_Effort : string;
  ck_Prompt : string;
  ck_OriginalPrompt : string;
  ck_Request : string;
  ck_Decision : string;
  ck_ActivatedRuleFiles : list string;
  ck_DecisionBoundaryApplied : bool;
  ck_ExecutionMilestoneID : string;
  ck_WorkerResult : option Result;
  ck_CompletedResult : option Result;
  ck_ReviewNumber : Z;
  ck_AutoFixes : Z;
  ck_StopKind : ResumeStopKind;
  ck_ResetAtCST : string;
  ck_ResetAtRFC3339 : string;
  ck_ResultCorrection : bool;
  ck_SummaryRecovered : bool;
  ck_ReportOnly : bool;
  ck_EffectiveRisk : string;
  ck_EffectiveRiskSource : string;
  ck_ProviderUnavailableClassification : string;
  ck_ProviderUnavailableProbes : Z;
  ck_ProviderUnavailableStartedAt : Time;
  ck_GuardFailure : string;
  ck_GuardRefBeforeDigest : string;
  ck_GuardRefAfterDigest : string;
  ck_GuardRefChanges : list GuardRefChange;
  ck_GuardRefChangesTruncated : bool;
  ck_QualityGateFailure : string;
  ck_QualitySurfaceApprovalPending : bool;
  ck_QualitySurfaceApprovalActivated : bool;
  ck_StopGitSnapshot : option GitSnapshot;
  ck_StopDirtyFiles : list StopDirtyFile;
}.
Definition ResumeStageWorker : ResumeStage := "worker".
Definition ResumeStageReview : ResumeStage := "reviewer".
Definition ResumeStageAutoFix : ResumeStage := "auto-fix".
Definition ResumeStopNone : ResumeStopKind := "".
Definition ResumeStopRateLimited : ResumeStopKind := "rate-limited".
Definition ResumeStopProviderUnavailable : ResumeStopKind := "provider-unavailable".
Definition ResumeStopInterrupted : ResumeStopKind := "interrupted".
Definition ResumeStopGuardRecoverable : ResumeStopKind := "guard-recoverable".
Definition ResumeStopQualityGate : ResumeStopKind := "quality-gate-recoverable".
Definition ResumeStopResultFormat : ResumeStopKind := "result-format-recoverable".

(** ** [parent_review.go], [parent_review_state.go] and the review evidence *)
Record ParentReviewOpenState := {
  ro_PacketStatus : string;
  ro_Role : string;
  ro_ModelAlias : string;
  ro_Risk : string;
}.
Record ParentReviewProducer := { pp_Role : string; pp_Model : string }.
Record ParentReviewEvidenceClaim := { cl_Kind : string; cl_Digest : string; cl_Locator : string }.
Record ParentReviewTargetCoverageClaim := {
  tc_Target : string;
  tc_Evidence : ParentReviewEvidenceClaim;
  tc_OwnerCallID : string;
}.
Record ParentReviewEvidenceCoverage := {
  cv_ReviewID : string;
  cv_Lease : Z;
  cv_Snapshot : SnapshotDigest;
  cv_Claims : list ParentReviewTargetCoverageClaim;
}.
Record ParentReviewEvidenceProof := {
  pr_ReviewID : string;
  pr_OwnerCallID : string;
  pr_Snapshot : SnapshotDigest;
  pr_Claims : list ParentReviewEvidenceClaim;
}.
Record ParentReviewBinding := {
  rb_ID : string;
  rb_PacketSHA256 : string;
  rb_Targets : list string;
  rb_SolQuestion : string;
  rb_Snapshot : SnapshotDigest;
  rb_Coverage : option ParentReviewEvidenceCoverage;
  rb_Proof : option ParentReviewEvidenceProof;
}.
Record ParentCompletionOutcome := {
  co_Terminal : string;
  co_Risk : string;
  co_Source : option SnapshotDigest;
  co_Review : option ParentReviewBinding;
}.
Record ParentReviewState := {
  rv_Version : Z;
  rv_TaskID : string;
  rv_Open : option ParentReviewOpenState;
  rv_Review : option ParentReviewBinding;
  rv_Completion : option ParentCompletionOutcome;
}.

(** ** [lifecycle.go], [parent_action_begin.go], [lifecycle_transition.go] *)
Record TaskLifecycleRecord := {
  lr_Version : Z;
  lr_TaskID : string;
  lr_Timestamp : Time;
  lr_From : string;
  lr_To : string;
}.
Record lifecycleFileSnapshot := { sn_name : string; sn_data : string; sn_exists : bool }.
Record ParentActionRollback := {
  rk_status : TaskStatus;
  rk_pending : lifecycleFileSnapshot;
  rk_review : lifecycleFileSnapshot;
}.
Record parentActionBeginSnapshot := { bs_Exists : bool; bs_Data : string }.
Record parentActionBeginRecord := {
  br_Version : Z;
  br_TaskID : string;
  br_SourceStatus : TaskStatus;
  br_Pending : parentActionBeginSnapshot;
  br_Review : parentActionBeginSnapshot;
}.

(** ** [telemetry.go], [stage_timing.go] *)
Record TokenUsage := {
  tu_InputTokens : Z;
  tu_CacheCreationInputTokens : Z;
  tu_CacheReadInputTokens : Z;
  tu_OutputTokens : Z;
}.
Record ResolvedModelUsage := {
  ru_InputTokens : Z;
  ru_CacheCreationInputTokens : Z;
  ru_CacheReadInputTokens : Z;
  ru_OutputTokens : Z;
  ru_CostUSD : N;
}.
Record StageTiming := {
  st_Stage : string;
  st_AttemptID : string;
  st_ClockOrigin : string;
  st_ModelCallID : string;
  st_WriteWallNS : Z;
  st_WriteCalls : Z;
  st_WriteFailures : Z;
}.
Record CallRuntime := {
  cr_WorkerRevision : string;
  cr_WorkerModified : option bool;
  cr_ClaudeBin : string;
  cr_ClaudeBinResolved : string;
  cr_ClaudeBinBytes : Z;
  cr_ClaudeBinModifiedAt : string;
  cr_ClaudeVersion : string;
  cr_ClaudeVersionSource : string;
  cr_ClaudeVersionObservedAt : string;
  cr_InstructionSurfaceDigest : string;
  cr_IsolationSettingsDigest : string;
  cr_SettingEnvKeys : list string;
  cr_EnvironmentObservedAt : string;
}.
Record ModelCallLog := {
  ml_Version : Z;
  ml_CallID : string;
  ml_CallType : string;
  ml_TaskID : string;
  ml_SessionID : string;
  ml_StartedAt : Time;
  ml_CompletedAt : Time;
  ml_Phase : string;
  ml_Role : SessionRole;
  ml_ModelAlias : string;
  ml_ResolvedModelID : string;
  ml_ConfiguredAutoCompactWindowTokens : Z;
  ml_KnownModelContextWindowTokens : Z;
  ml_DeclaredMaxContextWindowTokens : Z;
  ml_ContextWindowSource : string;
  ml_ResolvedModelUsage : gmap string ResolvedModelUsage;
  ml_Effort : string;
  ml_ReadOnly : bool;
  ml_Resumed : bool;
  ml_Outcome : string;
  ml_PacketStatus : string;
  ml_Prompt : string;
  ml_PromptBytes : Z;
  ml_PromptSHA256 : string;
  ml_SystemPromptBytes : Z;
  ml_SystemPromptSHA256 : string;
  ml_SystemPrompt : string;
  ml_Response : string;
  ml_ResponseBytes : Z;
  ml_ResponseSHA256 : string;
  ml_Error : string;
  ml_TopLevelUsage : TokenUsage;
  ml_TreeUsage : TokenUsage;
  ml_WallDurationMS : Z;
  ml_ClaudeDurationMS : Z;
  ml_ClaudeAPIDurationMS : Z;
  ml_TopLevelTurns : Z;
  ml_TotalCostUSD : N;
  ml_WorkerReportedRisk : string;
  ml_ReviewerReportedRisk : string;
  ml_EffectiveRisk : string;
  ml_RiskFloorSource : string;
  ml_RiskFloorCategory : string;
  ml_PacketRejectReason : string;
  ml_ProviderClassification : string;
  ml_ProbeAttempt : Z;
  ml_RetryElapsedMS : Z;
  ml_ResumeSource : string;
  ml_Snapshot : option SnapshotDiagnostic;
  ml_Stage : option StageTiming;
  ml_Runtime : option CallRuntime;
  ml_RetryOf : string;
  ml_RetryReason : string;
  ml_ParentOrigin : string;
  ml_ParentCause : string;
}.

(** ** [stats.go] *)
Record TaskStats := {
  tk_Version : Z;
  tk_TaskID : string;
  tk_StartedAt : Time;
  tk_ArchivedAt : option Time;
  tk_Status : TaskStatus;
  tk_ParentCodexThreadID : string;
  tk_ParentCodexSessionID : string;
  tk_ModelCalls : Z;
  tk_ModelCallsByAlias : gmap string Z;
  tk_ModelDurationMSByAlias : gmap string Z;
  tk_RateLimitsByAlias : gmap string Z;
  tk_InputTokensByAlias : gmap string Z;
  tk_CacheCreationInputTokensByAlias : gmap string Z;
  tk_CacheReadInputTokensByAlias : gmap string Z;
  tk_OutputTokensByAlias : gmap string Z;
  tk_TopLevelTurnsByAlias : gmap string Z;
  tk_CallTreesByResolvedModel : gmap string Z;
  tk_InputTokensByResolvedModel : gmap string Z;
  tk_CacheCreationInputTokensByResolvedModel : gmap string Z;
  tk_CacheReadInputTokensByResolvedModel : gmap string Z;
  tk_OutputTokensByResolvedModel : gmap string Z;
  tk_WorkerCalls : Z;
  tk_ReviewerCalls : Z;
  tk_FailurePathReviewerCalls : Z;
  tk_DecisionCommands : Z;
  tk_FixCommands : Z;
  tk_ResumeCommands : Z;
  tk_AutoFixRounds : Z;
  tk_NeedsSolDecisionPackets : Z;
  tk_NeedsSolReviewPackets : Z;
  tk_PassPackets : Z;
  tk_RateLimits : Z;
  tk_PacketCompactions : Z;
  tk_SolPacketBytes : Z;
  tk_ResultCorrections : Z;
  tk_StructuredRetryExhausted : Z;
  tk_ProviderUnavailable : Z;
  tk_ProviderUnavailableByAlias : gmap string Z;
  tk_RiskFloorByCategory : gmap string Z;
  tk_SnapshotMismatches : Z;
  tk_SnapshotMismatchByAxis : gmap string Z;
  tk_PacketRejectByCategory : gmap string Z;
  tk_ProbeOutcome : gmap string Z;
  tk_RepoSearchCalls : Z;
  tk_RepoSearchQueriesByCategory : gmap string Z;
  tk_RepoSearchOutcomes : gmap string Z;
  tk_RepoSearchResults : Z;
  tk_RepoSearchDurationMS : Z;
  tk_TransientRetries : Z;
  tk_ParentReviewOpen : option ParentReviewOpenState;
  tk_ParentOutcomes : gmap string Z;
  tk_ParentFixOrigins : gmap string Z;
  tk_ParentOutcomesByModel : gmap string Z;
  tk_ParentOutcomesByRisk : gmap string Z;
  tk_AcceptedRisk : string;
  tk_CompletionTerminal : string;
}.
