(* ===== verification/SessionStore.v ===== *)
(** * The session state store

    Models [store.go], [store_util.go], [stats.go] and [stats_recording.go], the
    event and lifecycle logs ([events.go], [lifecycle.go], [telemetry.go]), the
    parent evidence lease ([parentevidence.go]) and the file snapshots of
    [lifecycle_transition.go]: text files in one directory, some of them only
    observations that no operation depends on.

    The store's directory is the root of a [Disk] of plain files.  A path at
    which there is a directory is in [dirs] and refuses to be read or written as
    a file.  Warnings go to the standard error stream and are not modelled. *)
From S2P Require Import Prelude GoStrings GoText ControllerTypes ControllerStore Packet SessionTypes.

(** ** JSON texts

    How [encoding/json] writes the records of the store is the class [JSONText]:
    what was written reads back, with or without the line feed after it, if the
    record is [clean]: its strings are UTF-8 and its times have a year of four
    digits.  [persisted] is what of a record is written, [None] for the records
    that the type's own [UnmarshalJSON] refuses ([forward_schema.go]). *)
Class JSONText (A : Type) (persisted : A → option A) := {
  marshal : A → string;
  unmarshal : string → option A;
  clean : A → Prop;
  unmarshal_marshal a b : clean a → persisted a = Some b → unmarshal (marshal a) = Some b;
  unmarshal_line a b : clean a → persisted a = Some b → unmarshal (marshal a +:+ newline) = Some b;
  unmarshal_trim a b : clean a → persisted a = Some b → unmarshal (TrimSpace (marshal a +:+ newline)) = Some b;
}.
Arguments marshal {A persisted _} a.
Arguments unmarshal {A persisted _} s.
Arguments clean {A persisted _} a.
Definition json_error : error := err "json: cannot unmarshal".
(** Records that are written and never read by the modelled code. *)
Class JSONLog := {
  marshalLifecycle : TaskLifecycleRecord → string;
  marshalCallLog : ModelCallLog → string;
}.

(** ** Files ([store_util.go], [store.go]) *)
Definition Path (name : string) : list string := [name].
Definition plain (data : string) (mode : N) : FileContent := {| fc_Data := data; fc_Mode := mode |}.
Definition mode600 : N := 384.
Definition writeFileAtomic (p : list string) (data : string) (mode : N) : io unit :=
  _ ← MkdirAll (removelast p);
  writeJSONAtomic p (plain data mode).
Definition ReadFile (p : list string) : io string := c ← readJSON p; mret (fc_Data c).
(** [os.Stat] succeeds, and finds a directory. *)
Definition StatDir (p : list string) : io bool := λ d, (Ok (bool_decide (p ∈ dirs d)), d).
Definition Exists (name : string) : io bool := λ d,
  (Ok (bool_decide (Path name ∈ dirs d) ||
       bool_decide (Path name ∉ unreadable d) && bool_decide (is_Some (files d !! Path name))), d).
Definition Read (name : string) : io string := data ← ReadFile (Path name); mret (TrimSpace data).
Definition ReadOr (name fallback : string) : io string :=
  r ← attempt (Read name);
  mret match r with Ok value => if bool_decide (value = "") then fallback else value | Err _ => fallback end.
Definition readExact (name : string) : io string :=
  r ← attempt (ReadFile (Path name));
  mret match r with Ok data => TrimSuffix data newline | Err _ => "" end.
Definition Write (name value : string) : io unit :=
  io_wrap (λ e, Errorf "state %sを書き込めません: %w" [AStr name; AErr e])
    (writeFileAtomic (Path name) (value +:+ newline) mode600).
Definition Touch (name : string) : io unit := Write name "1".
(** [s.Remove(name)] *)
Definition RemoveState (name : string) : io unit :=
  r ← attempt (remove_file (Path name));
  match r with
  | Ok _ => mret ()
  | Err e => refuse! negb (IsNotExist e) with Errorf "state %sを削除できません: %w" [AStr name; AErr e]; mret ()
  end.
Definition TaskID : io string :=
  r ← attempt (Read "task.id");
  match r with
  | Ok taskID => refuse! bool_decide (taskID = "") with err "task.idがありません"; mret taskID
  | Err _ => fail (err "task.idがありません")
  end.
Definition GetTaskStatus : io TaskStatus := ReadOr "task.status" TaskStatusNone.

(** ** Logs ([events.go], [lifecycle.go], [telemetry.go]) *)
Definition file_bytes (doc : option Doc) : string := match doc with Some (DocFile c) => fc_Data c | _ => "" end.
(** [os.OpenFile(path, os.O_CREATE|os.O_APPEND|os.O_WRONLY, 0o600)]: a new file is a
    change, opening one that is there is not. *)
Definition open_append (p : list string) : io unit := λ d,
  if bool_decide (p ∈ unwritable d) then (Err (err "open failed"), d)
  else if bool_decide (files d !! p ≠ None) then (Ok (), d)
  else if stopped d then (Err (err "open failed"), d)
  else if bool_decide (removelast p ∈ dirs d) then (Ok (), put_file p (to_doc (plain "" mode600)) d)
  else (Err (ErrNotExist (removelast p)), d).
(** [file.Chmod(0o600)] *)
Definition chmod600 (p : list string) : io unit := λ d,
  if stopped d then (Err (err "chmod failed"), d)
  else (Ok (), put_file p (to_doc (plain (file_bytes (files d !! p)) mode600)) d).
(** [file.Write(data)]: each byte is a change, so that a write can fail with any part
    of the data in the file. *)
Fixpoint write_bytes (p : list string) (data : string) : io unit := λ d,
  match data with
  | "" => (Ok (), d)
  | String c data =>
      if stopped d then (Err (err "write failed"), d)
      else write_bytes p data (put_file p (to_doc (plain (file_bytes (files d !! p) +:+ String c "") mode600)) d)
  end.
(** [file.Close()] can fail after all the data was written. *)
Definition close_file : io unit := λ d, if stopped d then (Err (err "close failed"), d) else (Ok (), d).
Definition append_file (p : list string) (data : string) : io unit :=
  _ ← open_append p;
  _ ← chmod600 p;
  _ ← write_bytes p data;
  close_file.
Definition appendStateJSONL (p : list string) (data : string) : io unit :=
  _ ← MkdirAll (removelast p);
  append_file p (data +:+ newline).
Definition taskLifecycleLogVersion : Z := 1.
Definition TaskLifecycleLogPath (taskID : string) : list string := ["lifecycle"; taskID +:+ ".jsonl"].
Definition AppendTaskLifecycle `{JSONLog} (record : TaskLifecycleRecord) : io unit :=
  let record := if bool_decide (lr_Version record = 0%Z)
                then record {{ lr_Version := taskLifecycleLogVersion }} else record in
  record ← (if bool_decide (lr_Timestamp record = zeroTime)
            then now ← Now; mret (record {{ lr_Timestamp := now }}) else mret record);
  appendStateJSONL (TaskLifecycleLogPath (lr_TaskID record)) (marshalLifecycle record).
Definition appendTaskStatusLifecycle `{JSONLog} (previous next : TaskStatus) : io unit :=
  taskID ← ReadOr "task.id" "";
  if bool_decide (taskID = "") then mret ()
  else
    now ← Now;
    _ ← attempt (AppendTaskLifecycle
          {| lr_Version := 0; lr_TaskID := taskID; lr_Timestamp := now; lr_From := previous; lr_To := next |});
    mret ().

(** ** Task statistics ([stats.go]) *)
Definition currentStatsFile : string := "task-stats.json".
Definition taskStatsVersion : Z := 3.
Definition emptyStats : TaskStats := {|
  tk_Version := 0; tk_TaskID := ""; tk_StartedAt := zeroTime; tk_ArchivedAt := None; tk_Status := "";
  tk_ParentCodexThreadID := ""; tk_ParentCodexSessionID := ""; tk_ModelCalls := 0;
  tk_ModelCallsByAlias := ∅; tk_ModelDurationMSByAlias := ∅; tk_RateLimitsByAlias := ∅;
  tk_InputTokensByAlias := ∅; tk_CacheCreationInputTokensByAlias := ∅; tk_CacheReadInputTokensByAlias := ∅;
  tk_OutputTokensByAlias := ∅; tk_TopLevelTurnsByAlias := ∅; tk_CallTreesByResolvedModel := ∅;
  tk_InputTokensByResolvedModel := ∅; tk_CacheCreationInputTokensByResolvedModel := ∅;
  tk_CacheReadInputTokensByResolvedModel := ∅; tk_OutputTokensByResolvedModel := ∅;
  tk_WorkerCalls := 0; tk_ReviewerCalls := 0; tk_FailurePathReviewerCalls := 0; tk_DecisionCommands := 0;
  tk_FixCommands := 0; tk_ResumeCommands := 0; tk_AutoFixRounds := 0; tk_NeedsSolDecisionPackets := 0;
  tk_NeedsSolReviewPackets := 0; tk_PassPackets := 0; tk_RateLimits := 0; tk_PacketCompactions := 0;
  tk_SolPacketBytes := 0; tk_ResultCorrections := 0; tk_StructuredRetryExhausted := 0;
  tk_ProviderUnavailable := 0; tk_ProviderUnavailableByAlias := ∅; tk_RiskFloorByCategory := ∅;
  tk_SnapshotMismatches := 0; tk_SnapshotMismatchByAxis := ∅; tk_PacketRejectByCategory := ∅;
  tk_ProbeOutcome := ∅; tk_RepoSearchCalls := 0; tk_RepoSearchQueriesByCategory := ∅;
  tk_RepoSearchOutcomes := ∅; tk_RepoSearchResults := 0; tk_RepoSearchDurationMS := 0;
  tk_TransientRetries := 0; tk_ParentReviewOpen := None; tk_ParentOutcomes := ∅; tk_ParentFixOrigins := ∅;
  tk_ParentOutcomesByModel := ∅; tk_ParentOutcomesByRisk := ∅; tk_AcceptedRisk := "";
  tk_CompletionTerminal := "" |}.

(** [TaskStats.UnmarshalJSON] reads the current version only. *)
Definition persistedStats (stats : TaskStats) : option TaskStats :=
  if bool_decide (tk_Version stats = taskStatsVersion) then Some stats else None.

Section Stats.
Context `{JSONText TaskStats persistedStats, JSONLog}.
Definition decodeTaskStats (data : string) : result error TaskStats :=
  match unmarshal data with
  | None => Err (Errorf "task statsを読めません: %w" [AErr json_error])
  | Some stats =>
      reject! negb (bool_decide (tk_Version stats = taskStatsVersion))
        with Errorf "%w: %d" [AErr (err "unsupported task stats version"); AStr (FormatInt (tk_Version stats))];
      Ok stats
  end.
Definition loadTaskStats : io TaskStats :=
  data ← ReadFile (Path currentStatsFile); lift (decodeTaskStats data).
Definition writeTaskStats (stats : TaskStats) : io unit :=
  writeFileAtomic (Path currentStatsFile) (marshal stats +:+ newline) mode600.
Definition newStats (taskID : string) (now : Time) (status : TaskStatus) : TaskStats :=
  emptyStats {{ tk_Version := taskStatsVersion; tk_TaskID := taskID; tk_StartedAt := now; tk_Status := status }}.
Definition bootstrapTaskStats : io TaskStats :=
  r ← attempt (Read "task.id");
  match r with
  | Ok taskID =>
      refuse! bool_decide (taskID = "") with err "task.idがありません";
      now ← Now;
      status ← GetTaskStatus;
      mret (newStats taskID now status)
  | Err _ => fail (err "task.idがありません")
  end.
Definition InitializeTaskStats (taskID : string) : io unit :=
  now ← Now;
  _ ← attempt (writeTaskStats (newStats taskID now TaskStatusActive));
  mret ().
Definition UpdateTaskStats (update : TaskStats → TaskStats) : io unit :=
  r ← attempt loadTaskStats;
  r ← match r with Ok stats => mret (Ok stats) | Err _ => attempt bootstrapTaskStats end;
  match r with
  | Err _ => mret ()
  | Ok stats => _ ← attempt (writeTaskStats (update stats)); mret ()
  end.
Definition SetTaskStatus (status : TaskStatus) : io unit :=
  previous ← GetTaskStatus;
  _ ← Write "task.status" status;
  _ ← UpdateTaskStats (λ stats, stats {{ tk_Status := status }});
  if bool_decide (previous = status) then mret () else appendTaskStatusLifecycle previous status.

(** ** Counters ([stats_recording.go]) *)
Definition addInt (values : gmap string Z) (key : string) (value : Z) : gmap string Z :=
  if bool_decide (key = "") || bool_decide (value = 0%Z) then values
  else <[key := i64 (default 0%Z (values !! key) + value)]> values.
Definition count (key : string) (values : gmap string Z) : gmap string Z :=
  <[key := i64 (default 0%Z (values !! key) + 1)]> values.
Definition inc (n : Z) : Z := i64 (n + 1).
Definition RecordModelCall (role : SessionRole) (model : string) : io unit :=
  UpdateTaskStats (λ s,
    let s := s {{ tk_ModelCalls := inc (tk_ModelCalls s) }} in
    let s := s {{ tk_ModelCallsByAlias := count model (tk_ModelCallsByAlias s) }} in
    if bool_decide (role = ReviewerRole) then s {{ tk_ReviewerCalls := inc (tk_ReviewerCalls s) }}
    else if bool_decide (role = "failure-path-reviewer")
    then s {{ tk_FailurePathReviewerCalls := inc (tk_FailurePathReviewerCalls s) }}
    else s {{ tk_WorkerCalls := inc (tk_WorkerCalls s) }}).
Definition RecordTransientRetry : io unit :=
  UpdateTaskStats (λ s, s {{ tk_TransientRetries := inc (tk_TransientRetries s) }}).
Definition RecordModelDuration (model : string) (milliseconds : Z) : io unit :=
  UpdateTaskStats (λ s, s {{ tk_ModelDurationMSByAlias :=
    <[model := i64 (default 0%Z (tk_ModelDurationMSByAlias s !! model) + milliseconds)]> (tk_ModelDurationMSByAlias s) }}).
Definition RecordDecision : io unit :=
  UpdateTaskStats (λ s, s {{ tk_DecisionCommands := inc (tk_DecisionCommands s) }}).
Definition RecordFix : io unit := UpdateTaskStats (λ s, s {{ tk_FixCommands := inc (tk_FixCommands s) }}).
Definition RecordResume : io unit :=
  UpdateTaskStats (λ s, s {{ tk_ResumeCommands := inc (tk_ResumeCommands s) }}).
Definition RecordAutoFix : io unit :=
  UpdateTaskStats (λ s, s {{ tk_AutoFixRounds := inc (tk_AutoFixRounds s) }}).
Definition RecordRateLimit (model : string) : io unit :=
  UpdateTaskStats (λ s, s {{ tk_RateLimits := inc (tk_RateLimits s);
                             tk_RateLimitsByAlias := count model (tk_RateLimitsByAlias s) }}).
Definition RecordProviderUnavailable (model : string) : io unit :=
  UpdateTaskStats (λ s, s {{ tk_ProviderUnavailable := inc (tk_ProviderUnavailable s);
                             tk_ProviderUnavailableByAlias := count model (tk_ProviderUnavailableByAlias s) }}).
Definition RecordResultCorrection : io unit :=
  UpdateTaskStats (λ s, s {{ tk_ResultCorrections := inc (tk_ResultCorrections s) }}).
Definition RecordStructuredRetryExhausted : io unit :=
  UpdateTaskStats (λ s, s {{ tk_StructuredRetryExhausted := inc (tk_StructuredRetryExhausted s) }}).
Definition RecordRiskFloor (category : string) : io unit :=
  if bool_decide (category = "") then mret ()
  else UpdateTaskStats (λ s, s {{ tk_RiskFloorByCategory := addInt (tk_RiskFloorByCategory s) category 1 }}).
Definition RecordSnapshotMismatch (axis : string) : io unit :=
  if bool_decide (axis = "") then mret ()
  else UpdateTaskStats (λ s,
    s {{ tk_SnapshotMismatches := inc (tk_SnapshotMismatches s);
         tk_SnapshotMismatchByAxis :=
           foldl (λ m a, addInt m a 1) (tk_SnapshotMismatchByAxis s) (Split axis ","%char) }}).
Definition RecordPacketReject (category : string) : io unit :=
  if bool_decide (category = "") then mret ()
  else UpdateTaskStats (λ s, s {{ tk_PacketRejectByCategory := addInt (tk_PacketRejectByCategory s) category 1 }}).
Definition RecordProbeOutcome (outcome : string) : io unit :=
  if bool_decide (outcome = "") then mret ()
  else UpdateTaskStats (λ s, s {{ tk_ProbeOutcome := addInt (tk_ProbeOutcome s) outcome 1 }}).
End Stats.
