(* ===== verification/ResumeCheckpoint.v ===== *)
(** * The resume checkpoint

    Models [internal/state/resume.go]: the kinds of stop, what a checkpoint of
    each kind may carry, the changes of its stop, and saving and loading it. *)
From S2P Require Import Prelude GoStrings GoText GoTime ControllerTypes ControllerStore Packet SessionTypes SessionStore.

Definition resumeStateFile : string := "resume-state.json".
Definition resumeStateVersion : Z := 6.

(** ** Kinds of stop *)
Definition Valid (kind : ResumeStopKind) : bool :=
  bool_decide (kind ∈ [ResumeStopNone; ResumeStopRateLimited; ResumeStopProviderUnavailable;
                       ResumeStopInterrupted; ResumeStopGuardRecoverable; ResumeStopQualityGate;
                       ResumeStopResultFormat]).
Definition kindIsStopped (kind : ResumeStopKind) : bool :=
  negb (bool_decide (kind = ResumeStopNone)) && Valid kind.
Definition CanInterruptQualitySurfaceApproval (kind : ResumeStopKind) : bool :=
  bool_decide (kind ∈ [ResumeStopRateLimited; ResumeStopProviderUnavailable; ResumeStopInterrupted]).
Definition stopTaskStatus (kind : ResumeStopKind) : TaskStatus :=
  if bool_decide (kind = ResumeStopRateLimited) then TaskStatusRateLimited
  else if bool_decide (kind = ResumeStopProviderUnavailable) then TaskStatusProviderUnavailable
  else if bool_decide (kind = ResumeStopInterrupted) then TaskStatusInterrupted
  else if bool_decide (kind = ResumeStopGuardRecoverable) then TaskStatusGuardRecoverable
  else if bool_decide (kind = ResumeStopQualityGate) then TaskStatusQualityGateRecoverable
  else if bool_decide (kind = ResumeStopResultFormat) then TaskStatusResultFormatRecoverable
  else TaskStatusActive.
Definition ResumeSource (kind : ResumeStopKind) : string :=
  if bool_decide (kind = ResumeStopRateLimited) then "rate-limit"
  else if bool_decide (kind = ResumeStopProviderUnavailable) then "provider-unavailable"
  else if bool_decide (kind = ResumeStopInterrupted) then "user-interrupt"
  else if bool_decide (kind = ResumeStopGuardRecoverable) then "guard-recovery"
  else if bool_decide (kind = ResumeStopQualityGate) then "quality-gate-recovery"
  else if bool_decide (kind = ResumeStopResultFormat) then "result-format-recovery"
  else "".

Implicit Types c : ResumeCheckpoint.
Definition IsStopped c : bool := kindIsStopped (ck_StopKind c).

(** ** Changes of the stop *)
Definition MarkQualitySurfaceApprovalActivated c : result error ResumeCheckpoint :=
  reject! negb (ck_QualitySurfaceApprovalPending c)
    with err "quality-surface approval activation requires a pending approval checkpoint";
  reject! IsStopped c with err "quality-surface approval activation cannot mark a stopped checkpoint";
  Ok (c {{ ck_QualitySurfaceApprovalActivated := true }}).
Definition ContinueActivatedQualitySurfaceApproval c : result error ResumeCheckpoint :=
  reject! negb (ck_QualitySurfaceApprovalPending c) || negb (ck_QualitySurfaceApprovalActivated c) || negb (IsStopped c)
    with err "activated quality-surface approval continuation requires a stopped activated approval checkpoint";
  Ok (c {{ ck_QualitySurfaceApprovalPending := false; ck_QualitySurfaceApprovalActivated := false }}).
Definition clearStopPayload c : ResumeCheckpoint :=
  let clearCompletedResult :=
    bool_decide (ck_StopKind c = ResumeStopGuardRecoverable) || bool_decide (ck_StopKind c = ResumeStopQualityGate) ||
    negb (ck_QualitySurfaceApprovalPending c) in
  let c := c {{ ck_ResetAtCST := ""; ck_ResetAtRFC3339 := ""; ck_ProviderUnavailableClassification := "";
                ck_ProviderUnavailableProbes := 0%Z; ck_ProviderUnavailableStartedAt := zeroTime;
                ck_GuardFailure := ""; ck_GuardRefBeforeDigest := ""; ck_GuardRefAfterDigest := "";
                ck_GuardRefChanges := []; ck_GuardRefChangesTruncated := false; ck_QualityGateFailure := "";
                ck_SummaryRecovered := false }} in
  let c := if clearCompletedResult then c {{ ck_CompletedResult := None }} else c in
  c {{ ck_StopGitSnapshot := None; ck_StopDirtyFiles := [] }}.
Definition SetStopKind (kind : ResumeStopKind) c : ResumeCheckpoint :=
  let retainedSnapshot := ck_StopGitSnapshot c in
  let retainedDirtyFiles := ck_StopDirtyFiles c in
  let retainApprovalEvidence := ck_QualitySurfaceApprovalPending c in
  let c := clearStopPayload c in
  let c := if retainApprovalEvidence
           then c {{ ck_StopGitSnapshot := retainedSnapshot; ck_StopDirtyFiles := retainedDirtyFiles }} else c in
  c {{ ck_StopKind := kind }}.
Definition SetStopRepositoryBoundary (snapshot : GitSnapshot) c : ResumeCheckpoint :=
  c {{ ck_StopGitSnapshot := Some snapshot }}.
Definition ClearStop c : ResumeCheckpoint := (clearStopPayload c) {{ ck_StopKind := ResumeStopNone }}.

(** ** Validation *)
Definition packet_error (e : packetError) : error :=
  match e with
  | mismatchError reason => reason
  | constraintError reasons _ _ _ => Errorf "%s" [AErrs reasons]
  end.
Section Validation.
Context `{Unicode, MachineEncoder}.
Definition validateSummaryRecoveryStop c : result error unit :=
  let refused := err "summary recovery requires an interrupted completed worker report" in
  match ck_CompletedResult c with
  | None => Err refused
  | Some completed =>
      reject! negb (bool_decide (ck_StopKind c = ResumeStopInterrupted)) ||
              negb (bool_decide (ck_Stage c = ResumeStageWorker)) || negb (bool_decide (ck_Role c = WorkerRole)) ||
              ck_ResultCorrection c || negb (bool_decide (rs_Status completed = StatusImplemented)) with refused;
      wrap_err packet_error (ValidateWorkerResult completed)
  end.
Definition validateQualitySurfaceApprovalStop c : result error unit :=
  reject! ck_QualitySurfaceApprovalActivated c && negb (ck_QualitySurfaceApprovalPending c)
    with err "activated quality-surface approval checkpoint must retain the pending approval fact";
  if ck_QualitySurfaceApprovalPending c && IsStopped c then
    reject! negb (CanInterruptQualitySurfaceApproval (ck_StopKind c))
      with Errorf "quality-surface approval checkpoint cannot carry non-transient resume stop kind %q" [AStr (ck_StopKind c)];
    reject! bool_decide (ck_CompletedResult c = None)
      with err "stopped quality-surface approval checkpoint requires the completed worker result";
    Ok ()
  else Ok ().
Definition validateRateLimitStopPayload c : result error unit :=
  if negb (bool_decide (ck_StopKind c = ResumeStopRateLimited)) then
    if bool_decide (ck_ResetAtCST c = "") && bool_decide (ck_ResetAtRFC3339 c = "") then Ok ()
    else Err (Errorf "resume stop payload does not match stop kind %q: rate-limit reset metadata is present" [AStr (ck_StopKind c)])
  else if bool_decide (ck_ResetAtRFC3339 c = "") then Ok ()
  else
    reject! bool_decide (ParseRFC3339 (ck_ResetAtRFC3339 c) = None)
      with Errorf "rate-limit reset_at_rfc3339 is invalid: %w" [AErr (Errorf "parsing time %q" [AStr (ck_ResetAtRFC3339 c)])];
    Ok ().
Definition validateProviderStopPayload c : result error unit :=
  if negb (bool_decide (ck_StopKind c = ResumeStopProviderUnavailable)) then
    if bool_decide (ck_ProviderUnavailableClassification c = "") && bool_decide (ck_ProviderUnavailableProbes c = 0%Z) &&
       bool_decide (ck_ProviderUnavailableStartedAt c = zeroTime) then Ok ()
    else Err (Errorf "resume stop payload does not match stop kind %q: provider metadata is present" [AStr (ck_StopKind c)])
  else
    reject! bool_decide (ck_ProviderUnavailableClassification c = "")
      with err "provider-unavailable resume stop requires provider classification";
    reject! bool_decide (ck_ProviderUnavailableProbes c ≤ 0)%Z
      with err "provider-unavailable resume stop requires a positive probe count";
    reject! bool_decide (ck_ProviderUnavailableStartedAt c = zeroTime)
      with err "provider-unavailable resume stop requires recovery start time";
    Ok ().
Definition validateGuardStopPayload c : result error unit :=
  if bool_decide (ck_StopKind c = ResumeStopGuardRecoverable) then Ok ()
  else
    let guardEvidence :=
      negb (bool_decide (ck_GuardFailure c = "")) || negb (bool_decide (ck_GuardRefBeforeDigest c = "")) ||
      negb (bool_decide (ck_GuardRefAfterDigest c = "")) || negb (bool_decide (length (ck_GuardRefChanges c) = 0)) ||
      ck_GuardRefChangesTruncated c in
    let guardResult :=
      negb (bool_decide (ck_CompletedResult c = None)) && negb (ck_QualitySurfaceApprovalPending c) &&
      negb (bool_decide (ck_StopKind c = ResumeStopQualityGate)) && negb (ck_SummaryRecovered c) in
    reject! guardEvidence || guardResult
      with Errorf "resume stop payload does not match stop kind %q: guard-recovery metadata is present" [AStr (ck_StopKind c)];
    Ok ().
Definition validateQualityGateStopPayload c : result error unit :=
  if bool_decide (ck_StopKind c = ResumeStopQualityGate) then
    reject! bool_decide (ck_QualityGateFailure c = "") || bool_decide (ck_CompletedResult c = None)
      with err "quality-gate recovery checkpoint requires the gate failure and the completed worker result";
    Ok ()
  else
    reject! negb (bool_decide (ck_QualityGateFailure c = ""))
      with Errorf "resume stop payload does not match stop kind %q: quality-gate metadata is present" [AStr (ck_StopKind c)];
    Ok ().
Definition validateStopState c : result error unit :=
  _ ← (if ck_SummaryRecovered c then validateSummaryRecoveryStop c else Ok ());
  reject! negb (Valid (ck_StopKind c)) with Errorf "unknown resume stop kind: %q" [AStr (ck_StopKind c)];
  _ ← validateQualitySurfaceApprovalStop c;
  _ ← validateRateLimitStopPayload c;
  _ ← validateProviderStopPayload c;
  _ ← validateGuardStopPayload c;
  validateQualityGateStopPayload c.
End Validation.

(** ** Saving and loading *)
Definition rateLimitResetAtCST (resetAtRFC3339 : string) : string :=
  if bool_decide (resetAtRFC3339 = "") then ""
  else match ParseRFC3339 resetAtRFC3339 with Some resetAt => FormatCST resetAt | None => "" end.
(** [reset_at_cst] is not written. *)
Definition persistedCheckpoint c : option ResumeCheckpoint := Some (c {{ ck_ResetAtCST := "" }}).
(** What else the code asks of the text: whether [report_only] and [stop_kind]
    are given, and its keys. *)
Class ResumeText := {
  #[global] resume_json :: JSONText ResumeCheckpoint persistedCheckpoint;
  explicitKeys : string → option (bool * bool);
  persistedKeys : string → option (gset string);
  explicit_line c : clean c → explicitKeys (marshal c +:+ newline) = Some (true, true);
  persisted_line c : clean c → ∃ keys, persistedKeys (marshal c +:+ newline) = Some keys ∧
    "stop_parent_files" ∉ keys ∧ "reset_at_cst" ∉ keys;
}.
Definition ErrNoResumeCheckpoint : error := err "resumable task is not available".
(** [errors.Is(err, ErrNoResumeCheckpoint)]: no caller wraps it. *)
Definition IsNoCheckpoint (e : error) : bool := bool_decide (e = ErrNoResumeCheckpoint).

Section Store.
Context `{Unicode, MachineEncoder, ResumeText}.
Definition validateResumePersistedKeys (data : string) : result error unit :=
  match persistedKeys data with
  | None => Err (Errorf "resume stateを読めません: %w" [AErr json_error])
  | Some keys =>
      reject! bool_decide ("stop_parent_files" ∈ keys) with err "resume stateを読めません: legacy stop_parent_files key";
      reject! bool_decide ("reset_at_cst" ∈ keys) with err "resume stateを読めません: legacy reset_at_cst key";
      Ok ()
  end.
Definition SaveResumeCheckpoint c : io unit :=
  refuse! bool_decide (ck_Model c = "") with err "resume state model is required";
  _ ← lift (validateStopState c);
  let c := c {{ ck_Version := resumeStateVersion }} in
  io_wrap (λ e, Errorf "resume stateを書き込めません: %w" [AErr e])
    (writeFileAtomic (Path resumeStateFile) (marshal c +:+ newline) mode600).
Definition decodeResumeCheckpoint (data : string) : result error ResumeCheckpoint :=
  match unmarshal data with
  | None => Err (Errorf "resume stateを読めません: %w" [AErr json_error])
  | Some c =>
      reject! negb (bool_decide (ck_Version c = resumeStateVersion)) with Errorf "unsupported resume state version: %d" [AStr (FormatInt (ck_Version c))];
      match explicitKeys data with
      | None => Err (Errorf "resume stateを読めません: %w" [AErr json_error])
      | Some (reportOnly, stopKind) =>
          reject! negb reportOnly with err "resume state v6にreport_only keyがありません";
          reject! negb stopKind with err "resume state v6にstop_kind keyがありません";
          _ ← validateResumePersistedKeys data;
          reject! bool_decide (ck_Model c = "") with err "resume state model is required";
          _ ← validateStopState c;
          Ok (c {{ ck_ResetAtCST := rateLimitResetAtCST (ck_ResetAtRFC3339 c) }})
      end
  end.
Definition LoadResumeCheckpoint : io ResumeCheckpoint :=
  r ← attempt (ReadFile (Path resumeStateFile));
  match r with
  | Err e => fail (if IsNotExist e then ErrNoResumeCheckpoint else e)
  | Ok data => lift (decodeResumeCheckpoint data)
  end.
Definition ClearResumeCheckpoint : io unit := RemoveState resumeStateFile.
End Store.
