(* ===== verification/ParentReview.v ===== *)
(** * The parent review

    Models [parent_review_state.go], [parent_review.go], [parent_review_evidence.go]
    and [parent_review_coverage.go] of [internal/state], and the parent evidence
    lease of [parentevidence.go]: the review a worker's result opens for the
    parent agent, the evidence that binds it to a snapshot of the working tree,
    and its resolution. *)
From S2P Require Import Prelude GoStrings GoText ControllerTypes ControllerStore Packet SessionTypes SessionStore.

(** What git says of the working tree at a path. *)
Class GitState := { CaptureGitSnapshot : string → result error GitSnapshot }.

Definition parentReviewStateFile : string := "parent-review-state.json".
Definition parentReviewStateVersion : Z := 1.
Definition parentReopenTransactionStateFile : string := "parent-reopen-transaction.json".
Definition workerEndSnapshotFile : string := "snapshot-worker-end.json".
Definition roundCommentNone : string := "none".
Definition SessionRotationTerminalAccept : string := "accept".
Definition SessionRotationTerminalNoGo : string := "no-go".

Definition ParentOutcomeAccepted : string := "accepted".
Definition ParentOutcomeFix : string := "fix".
Definition ParentOutcomeDecision : string := "decision".
Definition ParentOutcomeUnknown : string := "unknown".
Definition ParentOutcomeNoGo : string := "no-go".
Definition ParentOriginUnknown : string := "unknown".
Definition parentOutcomeKinds (kind : string) : bool :=
  bool_decide (kind ∈ [ParentOutcomeAccepted; ParentOutcomeFix; ParentOutcomeDecision; ParentOutcomeUnknown; ParentOutcomeNoGo]).
Definition ValidParentOrigin (value : string) : bool :=
  bool_decide (value ∈ ["codex-review"; "glm-reviewer"; "user-amendment"; "external-review"; "metadata-repair"]).
Definition ValidParentCause (value : string) : bool :=
  bool_decide (value ∈ ["parent-orchestration"; "requirement-preservation"; "worker"; "reviewer"; "sol-gate";
                        "production-wiring"; "test-scenario"; "cross-cutting-invariant"; "unknown"]).

(** ** Evidence ([parent_review_evidence.go], [parent_review_coverage.go]) *)
Definition completeParentReviewSnapshot (s : SnapshotDigest) : bool :=
  negb (bool_decide (sd_Head s = "")) && negb (bool_decide (sd_IndexDigest s = "")) &&
  negb (bool_decide (sd_WorktreeDigest s = "")).
Definition sameParentReviewSnapshot (left right : SnapshotDigest) : bool :=
  bool_decide (sd_Head left = sd_Head right) && bool_decide (sd_IndexDigest left = sd_IndexDigest right) &&
  bool_decide (sd_WorktreeDigest left = sd_WorktreeDigest right).
Definition validParentReviewEvidenceClaim (claim : ParentReviewEvidenceClaim) : bool :=
  bool_decide (cl_Kind claim = "diff" ∨ cl_Kind claim = "source") && negb (bool_decide (cl_Digest claim = "")) &&
  negb (bool_decide (cl_Locator claim = "")).
(** [hex.DecodeString] succeeds. *)
Definition hexDecodes (s : string) : bool :=
  Nat.even (String.length s) && all_bytes (λ c, digit c || ((97 <=? byte c) && (byte c <=? 102))%N ||
                                                  ((65 <=? byte c) && (byte c <=? 70))%N) s.
Definition validateParentReviewBindingIdentity (open : option ParentReviewOpenState) (binding : ParentReviewBinding) :
    result error unit :=
  let invalid := err "parent review evidence binding schema is invalid" in
  reject! match open with
          | None => true
          | Some open => negb (bool_decide (ro_PacketStatus open = StatusNeedsSolReview))
          end
    with Errorf "parent review evidence binding exists without an open %s review" [AStr StatusNeedsSolReview];
  reject! bool_decide (rb_ID binding = "") || negb (ValidUUIDFormat (rb_ID binding)) ||
          negb (bool_decide (String.length (rb_PacketSHA256 binding) = 64)) with invalid;
  reject! bool_decide (length (rb_Targets binding) = 0) || bool_decide (TrimSpace (rb_SolQuestion binding) = "") ||
          negb (completeParentReviewSnapshot (rb_Snapshot binding)) with invalid;
  reject! negb (hexDecodes (rb_PacketSHA256 binding)) with err "parent review packet digest is invalid";
  Ok ().
Fixpoint coverageClaimsLoop (targets : list string) (claims : list ParentReviewTargetCoverageClaim)
    (seen : gset string) : result error unit :=
  match claims with
  | [] => Ok ()
  | covered :: claims =>
      reject! negb (bool_decide (tc_Target covered ∈ targets)) || bool_decide (tc_OwnerCallID covered = "") ||
              negb (validParentReviewEvidenceClaim (tc_Evidence covered))
        with err "parent review evidence coverage claim schema is invalid";
      reject! bool_decide (tc_Target covered ∈ seen)
        with Errorf "parent review evidence coverage has duplicate target %q" [AStr (tc_Target covered)];
      coverageClaimsLoop targets claims ({[tc_Target covered]} ∪ seen)
  end.
Definition validateParentReviewEvidenceCoverage (binding : ParentReviewBinding) : result error unit :=
  match rb_Coverage binding with
  | None => Ok ()
  | Some coverage =>
      reject! negb (bool_decide (cv_ReviewID coverage = rb_ID binding)) || bool_decide (cv_Lease coverage < 0)%Z ||
              negb (sameParentReviewSnapshot (cv_Snapshot coverage) (rb_Snapshot binding)) ||
              bool_decide (length (cv_Claims coverage) = 0)
        with err "parent review evidence coverage schema is invalid";
      coverageClaimsLoop (rb_Targets binding) (cv_Claims coverage) ∅
  end.
Definition validateParentReviewEvidenceProof (binding : ParentReviewBinding) : result error unit :=
  match rb_Proof binding with
  | None => Ok ()
  | Some proof =>
      reject! negb (bool_decide (pr_ReviewID proof = rb_ID binding)) || bool_decide (pr_OwnerCallID proof = "") ||
              negb (sameParentReviewSnapshot (pr_Snapshot proof) (rb_Snapshot binding)) ||
              bool_decide (length (pr_Claims proof) = 0)
        with err "parent review evidence proof schema is invalid";
      reject! existsb (λ claim, negb (validParentReviewEvidenceClaim claim)) (pr_Claims proof)
        with err "parent review evidence claim schema is invalid";
      Ok ()
  end.
Definition validateParentReviewBindingState (state : ParentReviewState) : result error unit :=
  match rv_Review state with
  | None => Ok ()
  | Some binding =>
      _ ← validateParentReviewBindingIdentity (rv_Open state) binding;
      _ ← validateParentReviewEvidenceCoverage binding;
      validateParentReviewEvidenceProof binding
  end.

Definition parentReviewCoverageComplete (binding : ParentReviewBinding) : bool :=
  match rb_Coverage binding with
  | None => false
  | Some coverage =>
      forallb (λ target, bool_decide (target ∈ tc_Target <$> cv_Claims coverage)) (rb_Targets binding) &&
      bool_decide (0 < length (cv_Claims coverage))
  end.
Fixpoint orderedCoverageClaims (targets : list string) (claims : gmap string ParentReviewTargetCoverageClaim)
    (seen : gset string) : list ParentReviewTargetCoverageClaim :=
  match targets with
  | [] => []
  | target :: targets =>
      if bool_decide (target ∈ seen) then orderedCoverageClaims targets claims seen
      else match claims !! target with
           | None => orderedCoverageClaims targets claims seen
           | Some claim => claim :: orderedCoverageClaims targets claims ({[target]} ∪ seen)
           end
  end.
Definition reusableParentReviewCoverage (coverage : option ParentReviewEvidenceCoverage) (reviewID : string)
    (lease : Z) (current : SnapshotDigest) : ParentReviewEvidenceCoverage :=
  let fresh := {| cv_ReviewID := reviewID; cv_Lease := lease; cv_Snapshot := current; cv_Claims := [] |} in
  match coverage with
  | None => fresh
  | Some coverage =>
      if negb (bool_decide (cv_ReviewID coverage = reviewID)) || negb (bool_decide (cv_Lease coverage = lease)) ||
         negb (sameParentReviewSnapshot (cv_Snapshot coverage) current) then fresh else coverage
  end.
Fixpoint mergeClaimsLoop (targets : list string) (claims : list ParentReviewTargetCoverageClaim) (ownerCallID : string)
    (byTarget : gmap string ParentReviewTargetCoverageClaim) :
    result error (gmap string ParentReviewTargetCoverageClaim) :=
  match claims with
  | [] => Ok byTarget
  | claim :: claims =>
      reject! negb (bool_decide (tc_Target claim ∈ targets)) || negb (validParentReviewEvidenceClaim (tc_Evidence claim))
        with Errorf "parent review evidence coverage claim is invalid for target %q" [AStr (tc_Target claim)];
      mergeClaimsLoop targets claims ownerCallID
        (<[tc_Target claim := claim {{ tc_OwnerCallID := ownerCallID }}]> byTarget)
  end.
Definition mergeParentReviewCoverageClaims (targets : list string) (coverage : ParentReviewEvidenceCoverage)
    (claims : list ParentReviewTargetCoverageClaim) (ownerCallID : string) : result error ParentReviewEvidenceCoverage :=
  byTarget ← mergeClaimsLoop targets claims ownerCallID
               (foldl (λ m covered, <[tc_Target covered := covered]> m) ∅ (cv_Claims coverage));
  Ok (coverage {{ cv_Claims := orderedCoverageClaims targets byTarget ∅ }}).
Definition materializeParentReviewCoverageProof (binding : ParentReviewBinding) (reviewID ownerCallID : string)
    (current : SnapshotDigest) : ParentReviewBinding * bool :=
  if parentReviewCoverageComplete binding then
    (binding {{ rb_Proof := Some {|
       pr_ReviewID := reviewID; pr_OwnerCallID := ownerCallID; pr_Snapshot := current;
       pr_Claims := tc_Evidence <$> from_option cv_Claims [] (rb_Coverage binding) |} }}, true)
  else (binding {{ rb_Proof := None }}, false).

(** ** The stored state ([parent_review_state.go]) *)
Definition validParentReviewPacketStatus (status : string) : bool :=
  bool_decide (status ∈ [StatusNeedsSolDecision; StatusNeedsSolReview; StatusPass]).
Definition validateParentCompletionState (state : ParentReviewState) : result error unit :=
  match rv_Completion state with
  | None => Ok ()
  | Some completion =>
      reject! negb (bool_decide (rv_Open state = None)) || negb (bool_decide (rv_Review state = None))
        with err "parent completion outcome exists with an open parent review";
      reject! negb (bool_decide (co_Terminal completion = SessionRotationTerminalAccept)) &&
              negb (bool_decide (co_Terminal completion = SessionRotationTerminalNoGo))
        with Errorf "parent completion outcome has invalid terminal %q" [AStr (co_Terminal completion)];
      reject! negb (bool_decide (co_Risk completion = RiskLow)) && negb (bool_decide (co_Risk completion = RiskHigh))
        with Errorf "parent completion outcome has invalid risk %q" [AStr (co_Risk completion)];
      Ok ()
  end.
Definition validateParentFixDeclaration (origin cause : string) : result error unit :=
  reject! negb (bool_decide (origin = "")) && negb (ValidParentOrigin origin)
    with Errorf "unknown parent fix origin: %s" [AStr origin];
  reject! negb (bool_decide (cause = "")) && negb (ValidParentCause cause)
    with Errorf "unknown parent fix cause: %s" [AStr cause];
  Ok ().
Definition validateParentOutcomeResolution (kind origin cause terminal : string) : result error unit :=
  reject! negb (parentOutcomeKinds kind) with Errorf "unknown parent outcome kind: %s" [AStr kind];
  _ ← (if bool_decide (kind = ParentOutcomeFix) then validateParentFixDeclaration origin cause else Ok ());
  if bool_decide (terminal = "") then Ok ()
  else if bool_decide (kind = ParentOutcomeAccepted) && bool_decide (terminal = SessionRotationTerminalAccept) then Ok ()
  else if bool_decide (kind = ParentOutcomeNoGo) && bool_decide (terminal = SessionRotationTerminalNoGo) then Ok ()
  else Err (Errorf "parent outcome %s cannot resolve completion terminal %s" [AStr kind; AStr terminal]).
Definition parentCompletionOutcome (terminal risk : string) : result error (option ParentCompletionOutcome) :=
  if bool_decide (terminal = "") then Ok None
  else
    let outcome := {| co_Terminal := terminal; co_Risk := risk; co_Source := None; co_Review := None |} in
    _ ← validateParentCompletionState
          {| rv_Version := 0; rv_TaskID := ""; rv_Open := None; rv_Review := None; rv_Completion := Some outcome |};
    Ok (Some outcome).

(** ** Statistics and events ([parent_review.go], [telemetry.go]) *)
Definition zeroUsage : TokenUsage :=
  {| tu_InputTokens := 0; tu_CacheCreationInputTokens := 0; tu_CacheReadInputTokens := 0; tu_OutputTokens := 0 |}.
#[export] Instance TokenUsage_eq_dec : EqDecision TokenUsage.
Proof. solve_decision. Defined.
Definition emptyCallLog : ModelCallLog := {|
  ml_Version := 0; ml_CallID := ""; ml_CallType := ""; ml_TaskID := ""; ml_SessionID := "";
  ml_StartedAt := zeroTime; ml_CompletedAt := zeroTime; ml_Phase := ""; ml_Role := ""; ml_ModelAlias := "";
  ml_ResolvedModelID := ""; ml_ConfiguredAutoCompactWindowTokens := 0; ml_KnownModelContextWindowTokens := 0;
  ml_DeclaredMaxContextWindowTokens := 0; ml_ContextWindowSource := ""; ml_ResolvedModelUsage := ∅;
  ml_Effort := ""; ml_ReadOnly := false; ml_Resumed := false; ml_Outcome := ""; ml_PacketStatus := "";
  ml_Prompt := ""; ml_PromptBytes := 0; ml_PromptSHA256 := ""; ml_SystemPromptBytes := 0;
  ml_SystemPromptSHA256 := ""; ml_SystemPrompt := ""; ml_Response := ""; ml_ResponseBytes := 0;
  ml_ResponseSHA256 := ""; ml_Error := ""; ml_TopLevelUsage := zeroUsage; ml_TreeUsage := zeroUsage;
  ml_WallDurationMS := 0; ml_ClaudeDurationMS := 0; ml_ClaudeAPIDurationMS := 0; ml_TopLevelTurns := 0;
  ml_TotalCostUSD := 0; ml_WorkerReportedRisk := ""; ml_ReviewerReportedRisk := ""; ml_EffectiveRisk := "";
  ml_RiskFloorSource := ""; ml_RiskFloorCategory := ""; ml_PacketRejectReason := "";
  ml_ProviderClassification := ""; ml_ProbeAttempt := 0; ml_RetryElapsedMS := 0; ml_ResumeSource := "";
  ml_Snapshot := None; ml_Stage := None; ml_Runtime := None; ml_RetryOf := ""; ml_RetryReason := "";
  ml_ParentOrigin := ""; ml_ParentCause := "" |}.
Definition ModelCallLogVersion : Z := 3.
Definition CallTypeTask : string := "task".
Definition CallTypeEvent : string := "event".
Definition ModelCallLogPath (taskID : string) : list string := ["telemetry"; taskID +:+ ".jsonl"].
Definition modelCallTreeUsage (value : ModelCallLog) : TokenUsage :=
  if negb (bool_decide (ml_TreeUsage value = zeroUsage)) then ml_TreeUsage value
  else
    let result := map_fold (λ _ usage r, {|
      tu_InputTokens := i64 (tu_InputTokens r + ru_InputTokens usage);
      tu_CacheCreationInputTokens := i64 (tu_CacheCreationInputTokens r + ru_CacheCreationInputTokens usage);
      tu_CacheReadInputTokens := i64 (tu_CacheReadInputTokens r + ru_CacheReadInputTokens usage);
      tu_OutputTokens := i64 (tu_OutputTokens r + ru_OutputTokens usage) |}) zeroUsage (ml_ResolvedModelUsage value) in
    if bool_decide (result = zeroUsage) then ml_TopLevelUsage value else result.
Definition appendModelCallLog `{JSONLog} (value : ModelCallLog) : io unit :=
  appendStateJSONL (ModelCallLogPath (ml_TaskID value)) (marshalCallLog value).
Definition addInt64 := addInt.
Definition tokenUsageStats (value : ModelCallLog) (s : TaskStats) : TaskStats :=
  let alias := ml_ModelAlias value in
  let tree := ml_TreeUsage value in
  let s := s {{ tk_InputTokensByAlias := addInt64 (tk_InputTokensByAlias s) alias (tu_InputTokens tree);
                tk_CacheCreationInputTokensByAlias :=
                  addInt64 (tk_CacheCreationInputTokensByAlias s) alias (tu_CacheCreationInputTokens tree);
                tk_CacheReadInputTokensByAlias :=
                  addInt64 (tk_CacheReadInputTokensByAlias s) alias (tu_CacheReadInputTokens tree);
                tk_OutputTokensByAlias := addInt64 (tk_OutputTokensByAlias s) alias (tu_OutputTokens tree);
                tk_TopLevelTurnsByAlias := addInt (tk_TopLevelTurnsByAlias s) alias (ml_TopLevelTurns value) }} in
  map_fold (λ model usage s,
    s {{ tk_CallTreesByResolvedModel := addInt (tk_CallTreesByResolvedModel s) model 1;
         tk_InputTokensByResolvedModel := addInt64 (tk_InputTokensByResolvedModel s) model (ru_InputTokens usage);
         tk_CacheCreationInputTokensByResolvedModel :=
           addInt64 (tk_CacheCreationInputTokensByResolvedModel s) model (ru_CacheCreationInputTokens usage);
         tk_CacheReadInputTokensByResolvedModel :=
           addInt64 (tk_CacheReadInputTokensByResolvedModel s) model (ru_CacheReadInputTokens usage);
         tk_OutputTokensByResolvedModel :=
           addInt64 (tk_OutputTokensByResolvedModel s) model (ru_OutputTokens usage) }}) s (ml_ResolvedModelUsage value).
Definition recordParentOutcomeFacets (resolved : ParentReviewOpenState) (s : TaskStats) : TaskStats :=
  let model := if bool_decide (ro_ModelAlias resolved = "") then ParentOriginUnknown else ro_ModelAlias resolved in
  let risk := if bool_decide (ro_Risk resolved = "") then ParentOriginUnknown else ro_Risk resolved in
  s {{ tk_ParentOutcomesByModel := addInt (tk_ParentOutcomesByModel s) model 1;
       tk_ParentOutcomesByRisk := addInt (tk_ParentOutcomesByRisk s) risk 1 }}.
Definition recordParentOutcome (kind origin : string) (resolved : ParentReviewOpenState) (s : TaskStats) : TaskStats :=
  let s := s {{ tk_ParentOutcomes := addInt (tk_ParentOutcomes s) kind 1 }} in
  let s := if bool_decide (kind = ParentOutcomeFix)
           then let origin := if bool_decide (origin = "") then ParentOriginUnknown else origin in
                s {{ tk_ParentFixOrigins := addInt (tk_ParentFixOrigins s) origin 1 }}
           else s in
  recordParentOutcomeFacets resolved s.
Definition resolveParentOutcome (kind origin cause : string) (s : TaskStats) :
    result error (option ParentReviewOpenState * TaskStats) :=
  reject! negb (parentOutcomeKinds kind) with Errorf "unknown parent outcome kind: %s" [AStr kind];
  _ ← (if bool_decide (kind = ParentOutcomeFix) then validateParentFixDeclaration origin cause else Ok ());
  match tk_ParentReviewOpen s with
  | None => Ok (None, s)
  | Some resolved =>
      reject! bool_decide (kind = ParentOutcomeAccepted) && bool_decide (ro_PacketStatus resolved = StatusNeedsSolDecision)
        with err "pending Sol decision must be resolved with --decision before --accept";
      Ok (Some resolved, (recordParentOutcome kind origin resolved s) {{ tk_ParentReviewOpen := None }})
  end.
Definition openParentReview (status risk : string) (producer : ParentReviewProducer) (s : TaskStats) : TaskStats :=
  let s := match resolveParentOutcome ParentOutcomeUnknown "" "" s with Ok (_, s) => s | Err _ => s end in
  s {{ tk_ParentReviewOpen := Some {| ro_PacketStatus := status; ro_Role := pp_Role producer;
                                      ro_ModelAlias := pp_Model producer; ro_Risk := risk |} }}.
Definition parentPhaseOfKind (kind : string) : string :=
  if bool_decide (kind = ParentOutcomeAccepted) then "parent-accept"
  else if bool_decide (kind = ParentOutcomeFix) then "parent-fix"
  else if bool_decide (kind = ParentOutcomeDecision) then "parent-decision"
  else "parent-close".

Section Store.
Context `{JSONText TaskStats persistedStats, JSONText ParentReviewState Some, JSONText GitSnapshot Some, JSONLog, GitState}.
Definition recordTokenUsage (value : ModelCallLog) : io unit :=
  if bool_decide (ml_CallType value = CallTypeTask) then UpdateTaskStats (tokenUsageStats value) else mret ().
Definition RecordModelCallLog (value : ModelCallLog) : io unit :=
  let value := if bool_decide (ml_Version value = 0%Z) then value {{ ml_Version := ModelCallLogVersion }} else value in
  value ← (if bool_decide (ml_CallID value = "")
           then r ← attempt NewUUID;
                mret match r with Ok callID => value {{ ml_CallID := callID }} | Err _ => value end
           else mret value);
  let value := value {{ ml_TreeUsage := modelCallTreeUsage value }} in
  _ ← attempt (appendModelCallLog value);
  recordTokenUsage value.
Definition appendParentOutcomeEvent (taskID phase kind origin cause : string) (resolved : ParentReviewOpenState) :
    io unit :=
  now ← Now;
  RecordModelCallLog (emptyCallLog {{
    ml_TaskID := taskID; ml_CallType := CallTypeEvent; ml_StartedAt := now; ml_CompletedAt := now;
    ml_Phase := phase; ml_Role := ro_Role resolved; ml_Outcome := kind; ml_PacketStatus := ro_PacketStatus resolved;
    ml_ModelAlias := ro_ModelAlias resolved; ml_WorkerReportedRisk := ro_Risk resolved;
    ml_ParentOrigin := origin; ml_ParentCause := cause }}).

(** ** The lease of the parent evidence ([parentevidence.go]) *)
Definition parentEvidenceLeasePath : string := "parent-evidence-lease".
Definition parentEvidenceLedgerPath : string := "parent-evidence-ledger.json".
Definition ParentEvidenceLedgerLockFile : string := "parent-evidence-ledger.lock".
(** [repolock.AcquireWait] and the deferred close: the operation runs alone. *)
Definition under_ledger_lock {A} (m : io A) : io A := λ d,
  if bool_decide (Path ParentEvidenceLedgerLockFile ∈ unwritable d)
  then (Err (Errorf "parent evidence ledger lockを取得できません: %w" [AErr (err "lock")]), d)
  else m d.
Definition ParentEvidenceLeaseEpoch : io Z :=
  r ← attempt (ReadFile (Path parentEvidenceLeasePath));
  match r with
  | Err e => if IsNotExist e then mret 0%Z else fail (Errorf "parent evidence leaseを読めません: %w" [AErr e])
  | Ok data =>
      match ParseInt (TrimSpace data) with
      | Some epoch => mret epoch
      | None => fail (Errorf "parent evidence leaseを読めません: %w" [AErr (err "strconv.ParseInt")])
      end
  end.
Definition advanceParentEvidenceLeaseUnlocked : io unit :=
  epoch ← ParentEvidenceLeaseEpoch;
  writeFileAtomic (Path parentEvidenceLeasePath) (FormatInt (i64 (epoch + 1)) +:+ newline) mode600.
Definition AdvanceParentEvidenceLease : io unit := under_ledger_lock advanceParentEvidenceLeaseUnlocked.
Definition ClearParentEvidenceLedger : io unit :=
  r ← attempt (remove_file (Path parentEvidenceLedgerPath));
  match r with
  | Ok _ => mret ()
  | Err e => refuse! negb (IsNotExist e) with Errorf "parent evidence ledgerを削除できません: %w" [AErr e]; mret ()
  end.
Definition RotateParentEvidenceLease : io unit :=
  under_ledger_lock (_ ← ClearParentEvidenceLedger; advanceParentEvidenceLeaseUnlocked).

(** ** Reading and writing the review *)
Definition decodeParentReviewState (data : string) : result error ParentReviewState :=
  match unmarshal data with
  | None => Err (Errorf "parent review stateを読めません: %w" [AErr json_error])
  | Some state =>
      reject! negb (bool_decide (rv_Version state = parentReviewStateVersion)) || bool_decide (rv_TaskID state = "")
        with err "parent review stateのschemaが不正です";
      reject! match rv_Open state with Some open => negb (validParentReviewPacketStatus (ro_PacketStatus open)) | None => false end
        with Errorf "parent review stateのpacket statusが不正です: %s" [AStr (from_option ro_PacketStatus "" (rv_Open state))];
      _ ← validateParentReviewBindingState state;
      _ ← validateParentCompletionState state;
      Ok state
  end.
Definition loadParentReviewState : io ParentReviewState :=
  data ← ReadFile (Path parentReviewStateFile);
  state ← lift (decodeParentReviewState data);
  taskID ← TaskID;
  refuse! negb (bool_decide (rv_TaskID state = taskID)) with err "parent review stateのschemaが不正です";
  mret state.
Definition writeParentReviewState (state : ParentReviewState) : io unit :=
  io_wrap (λ e, Errorf "parent review stateを書き込めません: %w" [AErr e])
    (writeFileAtomic (Path parentReviewStateFile) (marshal state +:+ newline) mode600).
Definition initializeParentReviewState (taskID : string) : io unit :=
  writeParentReviewState {| rv_Version := parentReviewStateVersion; rv_TaskID := taskID;
                            rv_Open := None; rv_Review := None; rv_Completion := None |}.
Definition CurrentParentCompletionOutcome : io (option ParentCompletionOutcome) :=
  state ← loadParentReviewState; mret (rv_Completion state).
Definition CurrentParentReview : io (option ParentReviewOpenState) :=
  r ← attempt (Read "task.id");
  match r with
  | Err e => if IsNotExist e then mret None else fail e
  | Ok taskID =>
      if bool_decide (taskID = "") then mret None
      else state ← loadParentReviewState; mret (rv_Open state)
  end.
Definition CurrentParentReviewLabel : io string :=
  pending ← Exists parentReopenTransactionStateFile;
  refuse! pending with err "parent reopen transition recovery is pending";
  open ← CurrentParentReview;
  mret match open with None => roundCommentNone | Some open => ro_PacketStatus open end.
Definition openParentReviewState (status risk : string) (producer : ParentReviewProducer) : io unit :=
  refuse! negb (validParentReviewPacketStatus status)
    with Errorf "parent review packet statusが不正です: %s" [AStr status];
  state ← loadParentReviewState;
  writeParentReviewState (state {{
    rv_Open := Some {| ro_PacketStatus := status; ro_Role := pp_Role producer;
                       ro_ModelAlias := pp_Model producer; ro_Risk := risk |};
    rv_Review := None; rv_Completion := None }}).
Definition parentReviewResolutionState : io (option (ParentReviewState * ParentReviewOpenState)) :=
  r ← attempt (Read "task.id");
  match r with
  | Err e => if IsNotExist e then mret None else fail e
  | Ok taskID =>
      if bool_decide (taskID = "") then mret None
      else state ← loadParentReviewState; mret ((λ open, (state, open)) <$> rv_Open state)
  end.
Definition LoadWorkerEndSnapshot : io GitSnapshot :=
  data ← ReadFile (Path workerEndSnapshotFile);
  match unmarshal data with
  | Some snapshot => mret snapshot
  | None => fail (Errorf "snapshotを読めません: %w" [AErr json_error])
  end.
Definition bindCompletionSource (completion : ParentCompletionOutcome) (review : option ParentReviewBinding) :
    io ParentCompletionOutcome :=
  match review with
  | Some binding =>
      root ← ReadOr "repo-root" "";
      current ← lift (CaptureGitSnapshot root);
      let source := snapshotDigest current in
      refuse! negb (sameParentReviewSnapshot source (rb_Snapshot binding))
        with err "parent completion source changed during acceptance";
      mret (completion {{ co_Source := Some source; co_Review := Some binding }})
  | None =>
      ended ← Exists workerEndSnapshotFile;
      if ended : bool then
        snapshot ← LoadWorkerEndSnapshot;
        mret (completion {{ co_Source := Some (snapshotDigest snapshot) }})
      else mret completion
  end.
(** The resolved review, or [None] when there is none to resolve. *)
Definition resolveParentReviewStateWithCompletion (kind origin cause terminal : string) :
    io (option ParentReviewOpenState) :=
  _ ← lift (validateParentOutcomeResolution kind origin cause terminal);
  found ← parentReviewResolutionState;
  match found with
  | None => mret None
  | Some (state, resolved) =>
      refuse! bool_decide (kind = ParentOutcomeAccepted) && bool_decide (ro_PacketStatus resolved = StatusNeedsSolDecision)
        with err "pending Sol decision must be resolved with --decision before --accept";
      completion ← lift (parentCompletionOutcome terminal (ro_Risk resolved));
      completion ← match completion with
                   | Some completion =>
                       if bool_decide (terminal = SessionRotationTerminalAccept)
                       then bound ← bindCompletionSource completion (rv_Review state); mret (Some bound)
                       else mret (Some completion)
                   | None => mret None
                   end;
      _ ← writeParentReviewState (state {{ rv_Open := None; rv_Review := None; rv_Completion := completion }});
      mret (Some resolved)
  end.
Definition resolveParentReviewState (kind origin cause : string) : io (option ParentReviewOpenState) :=
  resolveParentReviewStateWithCompletion kind origin cause "".
Definition resolveParentCompletionState (kind terminal : string) : io (option ParentReviewOpenState) :=
  resolveParentReviewStateWithCompletion kind "" "" terminal.
Definition RecordParentOutcome (kind origin cause : string) : io bool :=
  taskID ← TaskID;
  resolved ← resolveParentReviewState kind origin cause;
  match resolved with
  | None => mret false
  | Some resolved =>
      _ ← UpdateTaskStats (λ stats, recordParentOutcome kind origin resolved (stats {{ tk_ParentReviewOpen := None }}));
      _ ← appendParentOutcomeEvent taskID (parentPhaseOfKind kind) kind origin cause resolved;
      mret true
  end.

(** ** Evidence of the open review *)
Definition CurrentParentReviewBinding : io (option ParentReviewBinding) :=
  open ← CurrentParentReview;
  match open with
  | None => mret None
  | Some open =>
      if negb (bool_decide (ro_PacketStatus open = StatusNeedsSolReview)) then mret None
      else state ← loadParentReviewState; mret (rv_Review state)
  end.
Definition captureCurrentParentReviewSnapshot : io SnapshotDigest :=
  repoRoot ← ReadOr "repo-root" "";
  refuse! bool_decide (repoRoot = "") with err "parent review evidence requires repository root";
  snapshot ← io_wrap (λ e, Errorf "parent review evidence cannot capture current Git snapshot: %w" [AErr e])
               (lift (CaptureGitSnapshot repoRoot));
  mret {| sd_Head := gs_Head snapshot; sd_IndexDigest := gs_IndexDigest snapshot;
          sd_WorktreeDigest := gs_WorktreeDigest snapshot; sd_WorktreeDigestExcludingParent := "" |}.
Definition review_under_evidence (reviewID : string) (state : ParentReviewState) : option ParentReviewBinding :=
  match rv_Open state, rv_Review state with
  | Some open, Some binding =>
      if bool_decide (ro_PacketStatus open = StatusNeedsSolReview) && bool_decide (rb_ID binding = reviewID)
      then Some binding else None
  | _, _ => None
  end.
Definition MarkParentReviewEvidence (reviewID ownerCallID : string) (claims : list ParentReviewEvidenceClaim) : io unit :=
  refuse! bool_decide (reviewID = "") || bool_decide (ownerCallID = "") || bool_decide (length claims = 0)
    with err "parent review evidence proof is incomplete";
  state ← loadParentReviewState;
  match review_under_evidence reviewID state with
  | None => fail (err "parent review evidence no longer matches the open review")
  | Some binding =>
      current ← captureCurrentParentReviewSnapshot;
      refuse! negb (sameParentReviewSnapshot current (rb_Snapshot binding))
        with err "parent review evidence snapshot changed; request fresh review evidence";
      writeParentReviewState (state {{ rv_Review := Some (binding {{ rb_Proof := Some {|
        pr_ReviewID := reviewID; pr_OwnerCallID := ownerCallID; pr_Snapshot := current; pr_Claims := claims |} }}) }})
  end.
Definition parentReviewCoverageLeaseCurrent (binding : ParentReviewBinding) : io bool :=
  match rb_Coverage binding with
  | None => mret true
  | Some coverage =>
      lease ← ParentEvidenceLeaseEpoch;
      mret (bool_decide (cv_Lease coverage = lease) && parentReviewCoverageComplete binding)
  end.
Definition ParentReviewAcceptReady : io bool :=
  open ← CurrentParentReview;
  match open with
  | None => mret true
  | Some open =>
      if negb (bool_decide (ro_PacketStatus open = StatusNeedsSolReview)) then mret true
      else
        state ← loadParentReviewState;
        match rv_Review state with
        | None => mret false
        | Some binding =>
            match rb_Proof binding with
            | None => mret false
            | Some proof =>
                if negb (bool_decide (pr_ReviewID proof = rb_ID binding)) then mret false
                else
                  coverageCurrent ← parentReviewCoverageLeaseCurrent binding;
                  if negb coverageCurrent then mret false
                  else
                    current ← captureCurrentParentReviewSnapshot;
                    mret (sameParentReviewSnapshot current (rb_Snapshot binding) &&
                          sameParentReviewSnapshot current (pr_Snapshot proof))
            end
        end
  end.
Definition RequireParentReviewAcceptanceEvidence : io unit :=
  ready ← ParentReviewAcceptReady;
  refuse! negb ready
    with Errorf "%s accept requires matching current target evidence for the open review" [AStr StatusNeedsSolReview];
  mret ().
Definition currentParentReviewCoverageState (reviewID : string) (lease : Z) :
    io (ParentReviewState * ParentReviewBinding * SnapshotDigest) :=
  state ← loadParentReviewState;
  match review_under_evidence reviewID state with
  | None => fail (err "parent review evidence coverage no longer matches the open review")
  | Some binding =>
      currentLease ← ParentEvidenceLeaseEpoch;
      refuse! negb (bool_decide (currentLease = lease))
        with err "parent review evidence lease changed; request fresh review evidence";
      current ← captureCurrentParentReviewSnapshot;
      refuse! negb (sameParentReviewSnapshot current (rb_Snapshot binding))
        with err "parent review evidence snapshot changed; request fresh review evidence";
      mret (state, binding, current)
  end.
Definition AccumulateParentReviewEvidenceCoverage (reviewID ownerCallID : string) (lease : Z)
    (claims : list ParentReviewTargetCoverageClaim) : io bool :=
  refuse! bool_decide (reviewID = "") || bool_decide (ownerCallID = "") || bool_decide (lease < 0)%Z
    with err "parent review evidence coverage identity is incomplete";
  '(state, binding, current) ← currentParentReviewCoverageState reviewID lease;
  let coverage := reusableParentReviewCoverage (rb_Coverage binding) reviewID lease current in
  coverage ← lift (mergeParentReviewCoverageClaims (rb_Targets binding) coverage claims ownerCallID);
  let '(binding, complete) := materializeParentReviewCoverageProof (binding {{ rb_Coverage := Some coverage }})
                                reviewID ownerCallID current in
  let binding := if bool_decide (length (cv_Claims coverage) = 0) then binding {{ rb_Coverage := None }} else binding in
  _ ← writeParentReviewState (state {{ rv_Review := Some binding }});
  mret complete.
End Store.
