(* ===== verification/Lifecycle.v ===== *)
(** * Lifecycle transitions of a worker task

    Models [lifecycle_transition.go] and [parent_action_begin.go] of
    [internal/state]: each transition snapshots the files it will change, changes
    them one after the other, and puts them back when a later change is refused;
    an action of the parent is journalled so that it can be taken back after a
    crash. *)
From S2P Require Import Prelude GoStrings GoText ControllerTypes ControllerStore Packet SessionTypes SessionStore ResumeCheckpoint ParentReview.

(** ** Phases of a worker call ([callstats.go]) *)
Definition WorkerPhaseCategoryNew : string := "worker-new".
Definition WorkerPhaseCategoryExplicitFix : string := "worker-explicit-fix".
Definition WorkerPhaseCategoryAutoFix : string := "worker-auto-fix".
Definition WorkerPhaseCategoryDecision : string := "worker-decision".
Definition workerReportOnlyPhasePrefix : string := "worker-report-only-".
Definition WorkerPhaseCategory (phase : string) : string :=
  if bool_decide (phase = WorkerPhaseCategoryNew) || HasPrefix phase (WorkerPhaseCategoryNew +:+ "-")
  then WorkerPhaseCategoryNew
  else if HasPrefix phase WorkerPhaseCategoryExplicitFix then WorkerPhaseCategoryExplicitFix
  else if HasPrefix phase (WorkerPhaseCategoryAutoFix +:+ "-") || HasPrefix phase workerReportOnlyPhasePrefix
  then WorkerPhaseCategoryAutoFix
  else if HasPrefix phase WorkerPhaseCategoryDecision then WorkerPhaseCategoryDecision
  else phase.

(** ** Snapshots of files *)
Definition pendingDecision : string := "pending-decision".
Definition snapshotLifecycleFile (name : string) : io lifecycleFileSnapshot :=
  r ← attempt (ReadFile (Path name));
  match r with
  | Ok data => mret {| sn_name := name; sn_data := data; sn_exists := true |}
  | Err e =>
      if IsNotExist e then mret {| sn_name := name; sn_data := ""; sn_exists := false |}
      else fail (Errorf "state %sをtransition前に読めません: %w" [AStr name; AErr e])
  end.
Definition restoreLifecycleFile (s : lifecycleFileSnapshot) : io unit :=
  if negb (sn_exists s) then RemoveState (sn_name s)
  else io_wrap (λ e, Errorf "state %sをrollbackできません: %w" [AStr (sn_name s); AErr e])
         (writeFileAtomic (Path (sn_name s)) (sn_data s) mode600).
Fixpoint restoreSnapshots (snapshots : list lifecycleFileSnapshot) : io (list error) :=
  match snapshots with
  | [] => mret []
  | s :: snapshots =>
      r ← attempt (restoreLifecycleFile s);
      errors ← restoreSnapshots snapshots;
      mret (match r with Ok _ => errors | Err e => e :: errors end)
  end.
(** The error of a transition whose files were put back, last one first. *)
Definition rollbackLifecycleFiles {A} (cause : error) (snapshots : list lifecycleFileSnapshot) : io A :=
  errors ← restoreSnapshots (reverse snapshots);
  fail (if bool_decide (errors = []) then cause
        else Errorf "lifecycle transition failed and rollback failed: transition=%w rollback=%w"
               [AErr cause; AErr (Join_errors errors)]).
(** [if err := m; err != nil { return s.rollbackLifecycleFiles(err, snapshots...) }] *)
Definition or_rollback {A} (m : io A) (snapshots : list lifecycleFileSnapshot) : io A :=
  r ← attempt m;
  match r with Ok a => mret a | Err e => rollbackLifecycleFiles e snapshots end.

(** ** The journal of a parent action ([parent_action_begin.go]) *)
Definition parentActionBeginStateFile : string := "parent-action-begin.json".
Definition parentActionBeginStateVersion : Z := 1.
Definition errNoParentActionBegin : error := err "parent action begin transition is not pending".
Definition parentActionSnapshotFromLifecycle (s : lifecycleFileSnapshot) : parentActionBeginSnapshot :=
  {| bs_Exists := sn_exists s; bs_Data := sn_data s |}.
Definition sameParentActionSnapshot (current : lifecycleFileSnapshot) (saved : parentActionBeginSnapshot) : bool :=
  bool_decide (sn_exists current = bs_Exists saved) && bool_decide (sn_data current = bs_Data saved).
Definition validateParentActionBeginSource (record : parentActionBeginRecord) : result error unit :=
  if bool_decide (br_SourceStatus record = TaskStatusWaitingDecision) then
    reject! negb (bs_Exists (br_Pending record))
      with err "parent action begin decision record has no pending decision snapshot";
    Ok ()
  else if bool_decide (br_SourceStatus record = TaskStatusWaitingSolReview) then
    reject! bs_Exists (br_Pending record)
      with err "parent action begin fix record has an unexpected pending decision snapshot";
    Ok ()
  else Err (Errorf "parent action begin record has invalid source status %s" [AStr (br_SourceStatus record)]).
Definition validateParentActionBeginSnapshotShape (record : parentActionBeginRecord) : result error unit :=
  reject! negb (bs_Exists (br_Pending record)) && negb (bool_decide (bs_Data (br_Pending record) = ""))
    with err "parent action begin record has data for a missing pending decision snapshot";
  reject! negb (bs_Exists (br_Review record)) && negb (bool_decide (bs_Data (br_Review record) = ""))
    with err "parent action begin record has data for a missing review snapshot";
  Ok ().

Section Lifecycle.
Context `{Unicode, MachineEncoder, ResumeText, GitState, JSONLog}.
Context `{JSONText TaskStats persistedStats, JSONText ParentReviewState Some, JSONText GitSnapshot Some,
          JSONText parentActionBeginRecord Some}.

Definition validateParentActionBeginReviewSnapshot (record : parentActionBeginRecord) : result error unit :=
  if negb (bs_Exists (br_Review record)) then Ok ()
  else match unmarshal (bs_Data (br_Review record)) with
       | None => Err (Errorf "parent action begin review snapshotを読めません: %w" [AErr json_error])
       | Some review =>
           reject! negb (bool_decide (rv_Version review = parentReviewStateVersion)) ||
                   negb (bool_decide (rv_TaskID review = br_TaskID record))
             with err "parent action begin review snapshotのschemaが不正です";
           reject! match rv_Open review with
                   | Some open => negb (validParentReviewPacketStatus (ro_PacketStatus open)) | None => false end
             with Errorf "parent action begin review snapshotのpacket statusが不正です: %s"
                    [AStr (from_option ro_PacketStatus "" (rv_Open review))];
           _ ← validateParentReviewBindingState review;
           validateParentCompletionState review
       end.
Definition validateParentActionBeginRecord (record : parentActionBeginRecord) : result error unit :=
  reject! negb (bool_decide (br_Version record = parentActionBeginStateVersion))
    with Errorf "unsupported parent action begin record version: %d" [AStr (FormatInt (br_Version record))];
  reject! bool_decide (br_TaskID record = "") with err "parent action begin record has no task identity";
  _ ← validateParentActionBeginSource record;
  _ ← validateParentActionBeginSnapshotShape record;
  validateParentActionBeginReviewSnapshot record.
Definition beginRecord (taskID : string) (rollback : ParentActionRollback) : parentActionBeginRecord :=
  {| br_Version := parentActionBeginStateVersion; br_TaskID := taskID; br_SourceStatus := rk_status rollback;
     br_Pending := parentActionSnapshotFromLifecycle (rk_pending rollback);
     br_Review := parentActionSnapshotFromLifecycle (rk_review rollback) |}.
Definition saveParentActionBegin (rollback : ParentActionRollback) : io unit :=
  refuse! negb (bool_decide (rk_status rollback = TaskStatusWaitingDecision)) &&
          negb (bool_decide (rk_status rollback = TaskStatusWaitingSolReview))
    with Errorf "parent action begin source %s is not a parent waiting state" [AStr (rk_status rollback)];
  refuse! bool_decide (rk_status rollback = TaskStatusWaitingDecision) && negb (sn_exists (rk_pending rollback))
    with err "parent action begin decision source has no pending decision snapshot";
  refuse! bool_decide (rk_status rollback = TaskStatusWaitingSolReview) && sn_exists (rk_pending rollback)
    with err "parent action begin fix source has an unexpected pending decision snapshot";
  pending ← Exists parentActionBeginStateFile;
  refuse! pending with err "parent action begin transition is already pending";
  taskID ← TaskID;
  io_wrap (λ e, Errorf "parent action begin recordを書き込めません: %w" [AErr e])
    (writeFileAtomic (Path parentActionBeginStateFile) (marshal (beginRecord taskID rollback) +:+ newline) mode600).
Definition loadParentActionBegin : io parentActionBeginRecord :=
  r ← attempt (ReadFile (Path parentActionBeginStateFile));
  match r with
  | Err e => fail (if IsNotExist e then errNoParentActionBegin else e)
  | Ok data =>
      match unmarshal data with
      | None => fail (Errorf "parent action begin recordを読めません: %w" [AErr json_error])
      | Some record => _ ← lift (validateParentActionBeginRecord record); mret record
      end
  end.
Definition CommitParentActionBegin : io unit :=
  r ← attempt loadParentActionBegin;
  match r with
  | Err e => if bool_decide (e = errNoParentActionBegin) then mret () else fail e
  | Ok record =>
      taskID ← TaskID;
      refuse! negb (bool_decide (br_TaskID record = taskID))
        with Errorf "parent action begin task identity changed: record=%q current=%q" [AStr (br_TaskID record); AStr taskID];
      status ← GetTaskStatus;
      refuse! negb (bool_decide (status = TaskStatusActive))
        with Errorf "parent action begin commit requires active task, got %s" [AStr status];
      RemoveState parentActionBeginStateFile
  end.
Definition validateParentActionBeginCurrentSnapshots (record : parentActionBeginRecord) : io unit :=
  pending ← snapshotLifecycleFile pendingDecision;
  refuse! negb (sameParentActionSnapshot pending (br_Pending record))
    with err "parent action recovery pending decision no longer matches the begin transaction";
  review ← snapshotLifecycleFile parentReviewStateFile;
  if sameParentActionSnapshot review (br_Review record) then mret ()
  else
    let changed := err "parent action recovery review state no longer matches the begin transaction" in
    refuse! negb (sn_exists review) || negb (bs_Exists (br_Review record)) with changed;
    current ← loadParentReviewState;
    refuse! negb (bool_decide (rv_Open current = None)) || negb (bool_decide (rv_Review current = None)) with changed;
    mret ().
Definition validateParentActionBeginRecovery (record : parentActionBeginRecord) : io TaskStatus :=
  taskID ← TaskID;
  refuse! negb (bool_decide (br_TaskID record = taskID))
    with Errorf "parent action recovery task identity changed: record=%q current=%q" [AStr (br_TaskID record); AStr taskID];
  status ← GetTaskStatus;
  refuse! negb (bool_decide (status = TaskStatusActive)) && negb (bool_decide (status = br_SourceStatus record))
    with Errorf "parent action recovery requires active task or retry of %s, got %s" [AStr (br_SourceStatus record); AStr status];
  _ ← validateParentActionBeginCurrentSnapshots record;
  mret status.
Definition clearParentActionBeginResume (record : parentActionBeginRecord) : io unit :=
  r ← attempt LoadResumeCheckpoint;
  match r with
  | Err e => if IsNoCheckpoint e then mret () else fail e
  | Ok c =>
      refuse! IsStopped c || negb (bool_decide (ck_CompletedResult c = None)) || ck_QualitySurfaceApprovalPending c
        with err "parent action recovery cannot discard a checkpoint after model-call admission";
      refuse! negb (bool_decide (ck_Stage c = ResumeStageWorker)) || negb (bool_decide (ck_Role c = WorkerRole))
        with err "parent action recovery checkpoint is not a worker pre-call checkpoint";
      let expectedPhase := if bool_decide (br_SourceStatus record = TaskStatusWaitingDecision)
                           then WorkerPhaseCategoryDecision else WorkerPhaseCategoryExplicitFix in
      refuse! negb (bool_decide (WorkerPhaseCategory (ck_Phase c) = expectedPhase))
        with Errorf "parent action recovery checkpoint phase %s does not match source %s"
               [AStr (ck_Phase c); AStr (br_SourceStatus record)];
      ClearResumeCheckpoint
  end.
Definition snapshotOf (name : string) (s : parentActionBeginSnapshot) : lifecycleFileSnapshot :=
  {| sn_name := name; sn_data := bs_Data s; sn_exists := bs_Exists s |}.
Definition restoreParentActionBeginSnapshots (record : parentActionBeginRecord) : io unit :=
  _ ← restoreLifecycleFile (snapshotOf parentReviewStateFile (br_Review record));
  restoreLifecycleFile (snapshotOf pendingDecision (br_Pending record)).
Definition RecoverParentActionBeginFromState : io TaskStatus :=
  record ← loadParentActionBegin;
  status ← validateParentActionBeginRecovery record;
  _ ← clearParentActionBeginResume record;
  _ ← restoreParentActionBeginSnapshots record;
  _ ← (if bool_decide (status = TaskStatusActive) then SetTaskStatus (br_SourceStatus record) else mret ());
  _ ← RemoveState parentActionBeginStateFile;
  mret (br_SourceStatus record).

(** ** Actions of the parent *)
Definition joinParentActionRollbackFailure (cause rollbackErr : error) : error :=
  Errorf "parent action begin failed and rollback failed: begin=%w rollback=%w" [AErr cause; AErr rollbackErr].
Definition snapshotParentActionRollback : io ParentActionRollback :=
  pending ← snapshotLifecycleFile pendingDecision;
  review ← snapshotLifecycleFile parentReviewStateFile;
  status ← GetTaskStatus;
  mret {| rk_status := status; rk_pending := pending; rk_review := review |}.
Definition rollbackParentAction {A} (rollback : ParentActionRollback) (cause : error) : io A :=
  let failed := joinParentActionRollbackFailure cause in
  _ ← io_wrap failed (restoreLifecycleFile (rk_review rollback));
  _ ← io_wrap failed (restoreLifecycleFile (rk_pending rollback));
  _ ← io_wrap failed (SetTaskStatus (rk_status rollback));
  _ ← io_wrap failed (RemoveState parentActionBeginStateFile);
  fail cause.
Definition or_rollback_action {A} (m : io A) (rollback : ParentActionRollback) : io A :=
  r ← attempt m;
  match r with Ok a => mret a | Err e => rollbackParentAction rollback e end.
Definition BeginParentDecision : io ParentActionRollback :=
  status ← GetTaskStatus;
  pending ← Exists pendingDecision;
  refuse! negb (bool_decide (status = TaskStatusWaitingDecision)) || negb pending
    with err "parent decision transition requires waiting-decision with pending decision";
  rollback ← snapshotParentActionRollback;
  _ ← saveParentActionBegin rollback;
  _ ← or_rollback_action (SetTaskStatus TaskStatusActive) rollback;
  _ ← RecordDecision;
  _ ← or_rollback_action (RecordParentOutcome ParentOutcomeDecision "" "") rollback;
  mret rollback.
Definition BeginParentFix (origin cause : string) : io ParentActionRollback :=
  status ← GetTaskStatus;
  pending ← Exists pendingDecision;
  refuse! negb (bool_decide (status = TaskStatusWaitingSolReview)) || pending
    with err "parent fix transition requires waiting-sol-review without pending decision";
  rollback ← snapshotParentActionRollback;
  _ ← saveParentActionBegin rollback;
  _ ← or_rollback_action (SetTaskStatus TaskStatusActive) rollback;
  _ ← RecordFix;
  _ ← or_rollback_action (RecordParentOutcome ParentOutcomeFix origin cause) rollback;
  mret rollback.

(** ** Transitions of the worker *)
Definition WaitForDecision : io unit :=
  status ← GetTaskStatus;
  refuse! negb (bool_decide (status = TaskStatusActive))
    with Errorf "wait-for-decision transition requires active task, got %s" [AStr status];
  pending ← snapshotLifecycleFile pendingDecision;
  lease ← snapshotLifecycleFile parentEvidenceLeasePath;
  _ ← AdvanceParentEvidenceLease;
  _ ← or_rollback (Touch pendingDecision) [pending; lease];
  or_rollback (SetTaskStatus TaskStatusWaitingDecision) [pending; lease].
Definition ContinueAfterWorkerResult : io unit :=
  status ← GetTaskStatus;
  refuse! negb (bool_decide (status = TaskStatusActive))
    with Errorf "continue-worker transition requires active task, got %s" [AStr status];
  pending ← snapshotLifecycleFile pendingDecision;
  _ ← RemoveState pendingDecision;
  or_rollback (SetTaskStatus TaskStatusActive) [pending].
Definition FinishReview (status : TaskStatus) : io unit :=
  refuse! negb (bool_decide (status = TaskStatusComplete)) && negb (bool_decide (status = TaskStatusWaitingSolReview))
    with Errorf "review transition cannot enter status %s" [AStr status];
  current ← GetTaskStatus;
  refuse! negb (bool_decide (current = TaskStatusActive))
    with Errorf "review transition requires active task, got %s" [AStr current];
  if negb (bool_decide (status = TaskStatusWaitingSolReview)) then SetTaskStatus status
  else
    lease ← snapshotLifecycleFile parentEvidenceLeasePath;
    _ ← AdvanceParentEvidenceLease;
    or_rollback (SetTaskStatus status) [lease].
Definition WaitForSolReview : io unit :=
  previous ← GetTaskStatus;
  refuse! negb (bool_decide (previous ∈ [TaskStatusNone; TaskStatusActive; TaskStatusWaitingDecision; TaskStatusWaitingSolReview]))
    with Errorf "wait-for-sol-review transition is invalid from %s" [AStr previous];
  if bool_decide (previous = TaskStatusWaitingSolReview) then SetTaskStatus TaskStatusWaitingSolReview
  else
    lease ← snapshotLifecycleFile parentEvidenceLeasePath;
    _ ← AdvanceParentEvidenceLease;
    or_rollback (SetTaskStatus TaskStatusWaitingSolReview) [lease].
Definition verifyPendingDecisionContinuation (phase : string) : io unit :=
  refuse! negb (bool_decide (WorkerPhaseCategory phase = WorkerPhaseCategoryDecision))
    with Errorf "quality-surface review wait cannot clear a pending decision outside the worker-decision continuation, got %s" [AStr phase];
  decision ← attempt (Read "last-decision");
  refuse! match decision with Ok decision => bool_decide (decision = "") | Err _ => true end
    with err "quality-surface review wait requires the saved decision binding behind the pending decision marker";
  mret ().
Definition WaitForQualitySurfaceReview (phase : string) : io unit :=
  pending ← snapshotLifecycleFile pendingDecision;
  _ ← (if sn_exists pending then verifyPendingDecisionContinuation phase else mret ());
  _ ← RemoveState pendingDecision;
  or_rollback WaitForSolReview [pending].
Definition EnterQualitySurfaceApprovalWait (c : ResumeCheckpoint) : io unit :=
  status ← GetTaskStatus;
  refuse! negb (bool_decide (status = TaskStatusActive))
    with Errorf "quality-surface approval wait requires an active task, got %s" [AStr status];
  refuse! negb (ck_QualitySurfaceApprovalPending c) || IsStopped c
    with err "quality-surface approval wait requires an unstopped approval checkpoint";
  refuse! bool_decide (ck_CompletedResult c = None)
    with err "quality-surface approval wait requires a completed worker result";
  resume ← snapshotLifecycleFile resumeStateFile;
  pending ← snapshotLifecycleFile pendingDecision;
  lease ← snapshotLifecycleFile parentEvidenceLeasePath;
  _ ← SaveResumeCheckpoint c;
  _ ← or_rollback (RemoveState pendingDecision) [resume];
  _ ← or_rollback AdvanceParentEvidenceLease [resume; pending; lease];
  or_rollback (SetTaskStatus TaskStatusWaitingSolReview) [resume; pending; lease].
Definition DiscardResumeAndWaitForSolReview : io unit :=
  resume ← snapshotLifecycleFile resumeStateFile;
  _ ← ClearResumeCheckpoint;
  or_rollback WaitForSolReview [resume].
Definition closeApprovedQualitySurfaceReview : io unit :=
  label ← io_wrap (λ e, Errorf "quality-surface activation cannot read parent review state: %w" [AErr e])
            CurrentParentReviewLabel;
  if bool_decide (label = roundCommentNone) then mret ()
  else if bool_decide (label = StatusNeedsSolReview) then
    resolved ← io_wrap (λ e, Errorf "quality-surface activation cannot close the open parent review: %w" [AErr e])
                 (RecordParentOutcome ParentOutcomeAccepted "" "");
    after ← io_wrap (λ e, Errorf "quality-surface activation cannot verify parent review closure: %w" [AErr e])
              CurrentParentReviewLabel;
    refuse! negb resolved || negb (bool_decide (after = roundCommentNone))
      with Errorf "quality-surface activation could not close the open %s review" [AStr StatusNeedsSolReview];
    mret ()
  else fail (Errorf "quality-surface activation requires no open parent review or an open %s review, got %s"
               [AStr StatusNeedsSolReview; AStr label]).
Definition ActivateQualitySurfaceApproval : io unit :=
  status ← GetTaskStatus;
  refuse! negb (bool_decide (status = TaskStatusWaitingSolReview))
    with Errorf "quality-surface activation requires waiting-sol-review, got %s" [AStr status];
  c ← LoadResumeCheckpoint;
  refuse! negb (ck_QualitySurfaceApprovalPending c) || IsStopped c
    with err "quality-surface activation requires retained approval checkpoint";
  stats ← snapshotLifecycleFile currentStatsFile;
  review ← snapshotLifecycleFile parentReviewStateFile;
  resume ← snapshotLifecycleFile resumeStateFile;
  _ ← closeApprovedQualitySurfaceReview;
  _ ← or_rollback ClearResumeCheckpoint [stats; review; resume];
  or_rollback (SetTaskStatus TaskStatusActive) [stats; review; resume].
Definition stopKindClearsPendingDecision (kind : ResumeStopKind) : bool :=
  bool_decide (kind ∈ [ResumeStopGuardRecoverable; ResumeStopQualityGate; ResumeStopResultFormat]).
Definition EnterStop (c : ResumeCheckpoint) : io unit :=
  refuse! negb (IsStopped c) with err "stop transition requires a resumable stop kind";
  let status := stopTaskStatus (ck_StopKind c) in
  refuse! bool_decide (status = TaskStatusActive)
    with Errorf "stop transition has no stopped task status for %q" [AStr (ck_StopKind c)];
  r ← attempt (snapshotLifecycleFile resumeStateFile);
  match r with
  | Err e =>
      isDir ← StatDir (Path resumeStateFile);
      if isDir : bool then SaveResumeCheckpoint c else fail e
  | Ok resume =>
      pending ← snapshotLifecycleFile pendingDecision;
      _ ← SaveResumeCheckpoint c;
      _ ← (if stopKindClearsPendingDecision (ck_StopKind c)
           then or_rollback (RemoveState pendingDecision) [resume] else mret ());
      or_rollback (SetTaskStatus status) [resume; pending]
  end.
Definition BeginResume (c : ResumeCheckpoint) : io unit :=
  refuse! negb (IsStopped c) with err "resume transition requires stopped checkpoint";
  let expected := stopTaskStatus (ck_StopKind c) in
  status ← GetTaskStatus;
  refuse! negb (bool_decide (status = expected))
    with Errorf "resume transition status mismatch: status=%s stop=%s" [AStr status; AStr (ck_StopKind c)];
  saved ← LoadResumeCheckpoint;
  refuse! negb (bool_decide (ck_StopKind saved = ck_StopKind c))
    with Errorf "resume transition checkpoint mismatch: saved=%s requested=%s" [AStr (ck_StopKind saved); AStr (ck_StopKind c)];
  _ ← SetTaskStatus TaskStatusActive;
  RecordResume.
Definition RestoreResumeStop (previous : ResumeCheckpoint) : io unit :=
  status ← GetTaskStatus;
  if negb (bool_decide (status = TaskStatusActive)) then mret ()
  else
    saved ← attempt LoadResumeCheckpoint;
    let c := match saved with Ok saved => if IsStopped saved then saved else previous | Err _ => previous end in
    refuse! negb (IsStopped c) with err "cannot restore resume stop without stopped checkpoint";
    io_wrap (λ e, Errorf "restore resume stop: %w" [AErr e]) (EnterStop c).
Definition CompleteLifecycle : io unit :=
  status ← GetTaskStatus;
  refuse! negb (bool_decide (status = TaskStatusActive))
    with Errorf "complete transition requires active task, got %s" [AStr status];
  SetTaskStatus TaskStatusComplete.

(** ** Completion by the parent ([parent_accept.go], [parent_complete.go],
    [parent_completion_transition.go])

    [build] is the session rotation that goes with a completion: its evaluation
    and [commitSessionRotation]. *)
Record parentCompletionTransitionResult := {
  cp_transitionErr : option error;
  cp_rollbackStatusErr : option error;
  cp_rollbackPendingErr : option error;
}.
Definition completed : parentCompletionTransitionResult :=
  {| cp_transitionErr := None; cp_rollbackStatusErr := None; cp_rollbackPendingErr := None |}.
Definition as_error {A} (r : result error A) : option error := match r with Ok _ => None | Err e => Some e end.
Definition rollbackParentCompletion (previousStatus : TaskStatus) (clearPending : bool) (transitionErr : error) :
    io parentCompletionTransitionResult :=
  status ← attempt (SetTaskStatus previousStatus);
  pending ← (if clearPending then attempt (Touch pendingDecision) else mret (Ok ()));
  mret {| cp_transitionErr := Some transitionErr; cp_rollbackStatusErr := as_error status;
          cp_rollbackPendingErr := as_error pending |}.
Definition commitParentCompletion (status : TaskStatus) (clearPending : bool) (build : option (io unit)) :
    io parentCompletionTransitionResult :=
  previousStatus ← GetTaskStatus;
  removed ← (if clearPending then attempt (RemoveState pendingDecision) else mret (Ok ()));
  match removed with
  | Err e => mret (completed {{ cp_transitionErr := Some e }})
  | Ok _ =>
      set ← attempt (SetTaskStatus status);
      match set with
      | Err e =>
          pending ← (if clearPending then attempt (Touch pendingDecision) else mret (Ok ()));
          mret (completed {{ cp_transitionErr := Some e; cp_rollbackPendingErr := as_error pending }})
      | Ok _ =>
          built ← match build with Some rotation => attempt rotation | None => mret (Ok ()) end;
          match built with
          | Err e => rollbackParentCompletion previousStatus clearPending e
          | Ok _ => mret completed
          end
      end
  end.
Definition join_errors (l : list (option error)) : error := Join_errors (omap id l).
Definition projectParentCompletionOutcome (kind terminal : string) (resolved : ParentReviewOpenState) : io unit :=
  UpdateTaskStats (λ stats,
    let stats := recordParentOutcome kind "" resolved (stats {{ tk_ParentReviewOpen := None }}) in
    stats {{ tk_AcceptedRisk := ro_Risk resolved; tk_CompletionTerminal := terminal }}).
Definition projectCurrentParentCompletionOutcome (outcome : ParentCompletionOutcome) : io unit :=
  UpdateTaskStats (λ stats, stats {{ tk_AcceptedRisk := co_Risk outcome; tk_CompletionTerminal := co_Terminal outcome }}).
Definition AcceptParentReview : io bool :=
  _ ← RequireParentReviewAcceptanceEvidence;
  review ← snapshotLifecycleFile parentReviewStateFile;
  resolved ← resolveParentCompletionState ParentOutcomeAccepted SessionRotationTerminalAccept;
  match resolved with
  | None => mret false
  | Some resolved =>
      taskID ← attempt TaskID;
      match taskID with
      | Err e =>
          restored ← attempt (restoreLifecycleFile review);
          fail (match restored with Ok _ => e | Err r => Join_errors [e; r] end)
      | Ok taskID =>
          result ← commitParentCompletion TaskStatusAwaitingParentCompletion false None;
          match cp_transitionErr result with
          | Some e =>
              restored ← attempt (restoreLifecycleFile review);
              fail (if bool_decide (cp_rollbackStatusErr result = None) && is_ok restored
                    then Errorf "parent accept outcomeを保存できません: %w" [AErr e]
                    else Errorf "parent accept outcomeを保存できずrollbackにも失敗しました: outcome=%w rollback=%w"
                           [AErr e; AErr (join_errors [cp_rollbackStatusErr result; as_error restored])])
          | None =>
              _ ← projectParentCompletionOutcome ParentOutcomeAccepted SessionRotationTerminalAccept resolved;
              _ ← appendParentOutcomeEvent taskID "parent-accept" ParentOutcomeAccepted "" "" resolved;
              mret true
          end
      end
  end.
Definition CompleteParentAwaiting (rotation : option (string → io unit)) : io bool :=
  status ← GetTaskStatus;
  refuse! negb (bool_decide (status = TaskStatusAwaitingParentCompletion))
    with Errorf "parent completion transition requires awaiting-parent-completion, got %s" [AStr status];
  outcome ← io_wrap (λ e, Errorf "parent completion outcome is unreadable: %w" [AErr e]) CurrentParentCompletionOutcome;
  match outcome with
  | None => fail (err "parent completion outcome is unavailable")
  | Some outcome =>
      result ← commitParentCompletion TaskStatusComplete false ((λ r, r (co_Risk outcome)) <$> rotation);
      match cp_transitionErr result with
      | Some e =>
          fail (if bool_decide (cp_rollbackStatusErr result = None) && bool_decide (cp_rollbackPendingErr result = None)
                then Errorf "parent completion outcomeを保存できません: %w" [AErr e]
                else Errorf "parent completion outcomeを保存できずstate rollbackにも失敗しました: outcome=%w rollback=%w"
                       [AErr e; AErr (join_errors [cp_rollbackStatusErr result; cp_rollbackPendingErr result])])
      | None => _ ← projectCurrentParentCompletionOutcome outcome; mret true
      end
  end.
End Lifecycle.
