(* ===== verification/ExecutionMilestones.v ===== *)
(** * Execution units and milestones

    Models [internal/executionunit] ([preflight.go], [state.go]),
    [internal/executionmilestone] ([state.go]), the binding of the task they
    belong to ([internal/state/controller_runtime_binding.go],
    [session_invalidation.go]) and what the workflow does with them
    ([internal/workflow/execution_milestone_state.go],
    [execution_milestone_contract.go], [execution_milestone_flow.go] up to the
    model calls, [execution_unit_decision.go], [execution_progress.go]): a task
    may be worked on in two to eight milestones, done one after the other, and
    revised only at a boundary where the worker has stopped. *)
From S2P Require Import Prelude GoStrings GoText ControllerTypes ControllerStore Packet SessionTypes SessionStore ResumeCheckpoint ParentReview Lifecycle.

(** ** [executionunit/preflight.go] *)
Record MilestoneDefinition := {
  md_ID : string;
  md_Scope : string;
  md_Acceptance : string;
  md_FreshWorker : bool;
}.
#[export] Instance MilestoneDefinition_eq_dec : EqDecision MilestoneDefinition.
Proof. solve_decision. Defined.
Record Decision := {
  de_Decision : string;
  de_ExecutionUnit : string;
  de_Milestones : list MilestoneDefinition;
}.
Definition ExecutionUnitSingle : string := "single".
Definition ExecutionUnitMilestones : string := "milestones".
Definition executionUnitPrefix : string := "EXECUTION_UNIT: ".
Definition milestonesJSONPrefix : string := "MILESTONES_JSON: ".
Definition decisionMarker : string := "DECISION:".
Definition milestoneMaxCount : nat := 8.
Definition milestoneMaxIDBytes : nat := 64.
Definition milestoneMaxTextBytes : nat := 2048.
Definition IsPayload (payload : string) : bool := HasPrefix payload executionUnitPrefix.

(** [json.Decoder.Decode] on the payload, with unknown fields refused: the value
    and the text after it. *)
Class MilestoneDecoder := {
  decodeTaskPlanInput : string → option ((string * list MilestoneDefinition) * string);
  decodeMilestoneInput : string → option (list MilestoneDefinition * string);
}.
Definition json_space (c : ascii) : bool :=
  ((byte c =? 32) || (byte c =? 9) || (byte c =? 10) || (byte c =? 13))%N.
(** The second [Decode] sees [io.EOF] exactly if only blanks are left. *)
Definition decodeJSON {A} (decode : string → option (A * string)) (payload : string) : result error A :=
  match decode payload with
  | None => Err (Errorf "execution milestone payload is invalid: %w" [AErr json_error])
  | Some (input, rest) =>
      reject! negb (all_bytes json_space rest) with err "execution milestone payload has trailing JSON";
      Ok input
  end.
(** [strings.SplitN] *)
Fixpoint SplitN (s sep : string) (n : nat) : list string :=
  match n with
  | 0 => []
  | 1 => [s]
  | S n => match Cut s sep with (before, after, true) => before :: SplitN after sep n | _ => [s] end
  end.

Definition validateMilestoneDefinition (definition : MilestoneDefinition) (seen : gset string) : result error unit :=
  let id := md_ID definition in
  reject! bool_decide (id = "") || bool_decide (milestoneMaxIDBytes < String.length id)
    with Errorf "execution milestone id must be 1-%d bytes" [AInt milestoneMaxIDBytes];
  reject! bool_decide (id ∈ seen) with Errorf "duplicate execution milestone id %q" [AStr id];
  reject! bool_decide (md_Scope definition = "") || bool_decide (milestoneMaxTextBytes < String.length (md_Scope definition))
    with Errorf "execution milestone %q scope must be 1-%d bytes" [AStr id; AInt milestoneMaxTextBytes];
  reject! bool_decide (md_Acceptance definition = "") ||
          bool_decide (milestoneMaxTextBytes < String.length (md_Acceptance definition))
    with Errorf "execution milestone %q acceptance must be 1-%d bytes" [AStr id; AInt milestoneMaxTextBytes];
  Ok ().
Definition trimDefinition (definition : MilestoneDefinition) : MilestoneDefinition :=
  definition {{ md_ID := TrimSpace (md_ID definition); md_Scope := TrimSpace (md_Scope definition);
                md_Acceptance := TrimSpace (md_Acceptance definition) }}.
(** The code trims the definitions of the caller in place; here the trimmed ones
    are returned, and the callers go on with them. *)
Fixpoint definitionsLoop (definitions : list MilestoneDefinition) (seen : gset string) :
    result error (list MilestoneDefinition) :=
  match definitions with
  | [] => Ok []
  | definition :: definitions =>
      let definition := trimDefinition definition in
      _ ← validateMilestoneDefinition definition seen;
      rest ← definitionsLoop definitions ({[md_ID definition]} ∪ seen);
      Ok (definition :: rest)
  end.
Definition ValidateMilestoneDefinitions (definitions : list MilestoneDefinition) : result error (list MilestoneDefinition) :=
  reject! bool_decide (length definitions < 2) || bool_decide (milestoneMaxCount < length definitions)
    with Errorf "execution milestones require 2-%d entries" [AInt milestoneMaxCount];
  definitionsLoop definitions ∅.
Definition validateDecision (input : Decision) : result error Decision :=
  if bool_decide (de_ExecutionUnit input = ExecutionUnitSingle) then
    reject! negb (bool_decide (length (de_Milestones input) = 0))
      with err "execution-unit single cannot include milestone definitions";
    Ok input
  else if bool_decide (de_ExecutionUnit input = ExecutionUnitMilestones) then
    if bool_decide (0 < length (de_Milestones input)) then
      definitions ← ValidateMilestoneDefinitions (de_Milestones input);
      Ok (input {{ de_Milestones := definitions }})
    else Ok input
  else Err (Errorf "execution unit must be %q or %q" [AStr ExecutionUnitSingle; AStr ExecutionUnitMilestones]).

Section Payloads.
Context `{MilestoneDecoder}.
Definition ParseMilestonePayload (payload : string) : result error (list MilestoneDefinition) :=
  definitions ← decodeJSON decodeMilestoneInput payload;
  if bool_decide (0 < length definitions) then ValidateMilestoneDefinitions definitions else Ok definitions.
Definition ParseTaskPlanPayload (payload : string) : result error (string * list MilestoneDefinition) :=
  '(request, definitions) ← decodeJSON decodeTaskPlanInput payload;
  let request := TrimSpace request in
  reject! bool_decide (request = "") with err "execution milestone task request is required";
  definitions ← ValidateMilestoneDefinitions definitions;
  Ok (request, definitions).
Definition ParseDecision (payload : string) : result error Decision :=
  let malformed := err "decision payload must use the machine-owned execution-unit template" in
  match SplitN payload newline 4 with
  | [unit; milestones; marker; decision] =>
      reject! negb (HasPrefix unit executionUnitPrefix) || negb (HasPrefix milestones milestonesJSONPrefix) ||
              negb (bool_decide (marker = decisionMarker)) with malformed;
      let unit := TrimSpace (TrimPrefix unit executionUnitPrefix) in
      let decision := TrimSpace decision in
      reject! bool_decide (decision = "") with err "decision payload is empty";
      definitions ← ParseMilestonePayload (TrimSpace (TrimPrefix milestones milestonesJSONPrefix));
      validateDecision {| de_Decision := decision; de_ExecutionUnit := unit; de_Milestones := definitions |}
  | _ => Err malformed
  end.
End Payloads.

(** ** The task of the session ([controller_runtime_binding.go]) *)
Record ControllerRuntimeBinding := {
  rt_AttemptID : string;
  rt_TaskPath : string;
  rt_RequestID : string;
  rt_TaskContractDigest : string;
}.
Record controllerRuntimeBindingWire := {
  rw_Version : Z;
  rw_AttemptID : string;
  rw_TaskPath : string;
  rw_RequestID : string;
  rw_TaskContractDigest : string;
}.
Definition controllerRuntimeBindingStateFile : string := "controller-runtime-binding.json".
Definition controllerRuntimeBindingVersion : Z := 1.
Definition validateControllerRuntimeBinding (binding : ControllerRuntimeBinding) : result error unit :=
  reject! bool_decide (rt_AttemptID binding = "") with err "controller runtime binding attempt ID is empty";
  reject! Bool.eqb (bool_decide (rt_TaskPath binding = "")) (bool_decide (rt_RequestID binding = "")) ||
          bool_decide (rt_TaskContractDigest binding = "") ||
          negb (bool_decide (rt_RequestID binding = "")) && negb (ValidGeneratedUUID (rt_RequestID binding))
    with err "controller runtime binding semantic task identity is incomplete";
  Ok ().
Section Binding.
Context `{JSONText controllerRuntimeBindingWire Some}.
Definition SaveControllerRuntimeBinding (binding : ControllerRuntimeBinding) : io unit :=
  _ ← lift (validateControllerRuntimeBinding binding);
  io_wrap (λ e, Errorf "controller runtime bindingを書き込めません: %w" [AErr e])
    (writeFileAtomic (Path controllerRuntimeBindingStateFile)
       (marshal {| rw_Version := controllerRuntimeBindingVersion; rw_AttemptID := rt_AttemptID binding;
                   rw_TaskPath := rt_TaskPath binding; rw_RequestID := rt_RequestID binding;
                   rw_TaskContractDigest := rt_TaskContractDigest binding |} +:+ newline) mode600).
Definition decodeRuntimeBinding (data : string) : result error ControllerRuntimeBinding :=
  match unmarshal data with
  | None => Err (Errorf "controller runtime bindingを読めません: %w" [AErr json_error])
  | Some wire =>
      reject! negb (bool_decide (rw_Version wire = controllerRuntimeBindingVersion))
        with Errorf "unsupported controller runtime binding version: %d" [AStr (FormatInt (rw_Version wire))];
      let binding := {| rt_AttemptID := rw_AttemptID wire; rt_TaskPath := rw_TaskPath wire;
                        rt_RequestID := rw_RequestID wire; rt_TaskContractDigest := rw_TaskContractDigest wire |} in
      _ ← validateControllerRuntimeBinding binding;
      Ok binding
  end.
Definition LoadControllerRuntimeBinding : io ControllerRuntimeBinding :=
  data ← ReadFile (Path controllerRuntimeBindingStateFile);
  lift (decodeRuntimeBinding data).
Definition CurrentWorkflowTaskPath : io string :=
  r ← attempt LoadControllerRuntimeBinding;
  match r with
  | Ok binding => mret (rt_TaskPath binding)
  | Err e => if IsNotExist e then ReadOr "active-task" "" else fail e
  end.
Definition ClearControllerRuntimeBinding : io unit := RemoveState controllerRuntimeBindingStateFile.
End Binding.
(** [session_invalidation.go] *)
Definition FailurePathReviewerRole : SessionRole := "failure-path-reviewer".
Definition InvalidateSession (role : SessionRole) : io unit :=
  _ ← RemoveState (role +:+ ".id"); RemoveState (role +:+ ".ready").
Definition InvalidateAllSessions : io unit :=
  _ ← InvalidateSession WorkerRole;
  _ ← InvalidateSession ReviewerRole;
  InvalidateSession FailurePathReviewerRole.

(** ** [executionunit/state.go] *)
Record Disposition := {
  dp_Version : Z;
  dp_TaskID : string;
  dp_ActiveTaskPath : string;
  dp_ExecutionUnit : string;
  dp_UpdatedAt : Time;
}.
Definition DispositionVersion : Z := 1.
Definition ExecutionUnitDispositionStateFile : string := "execution-unit-disposition.json".
Section Dispositions.
Context `{JSONText controllerRuntimeBindingWire Some, JSONText Disposition Some}.
Definition known_unit (unit : string) : bool :=
  bool_decide (unit = ExecutionUnitSingle) || bool_decide (unit = ExecutionUnitMilestones).
Definition RecordDisposition (activeTaskPath executionUnit : string) (now : Time) : io unit :=
  refuse! negb (known_unit executionUnit) with Errorf "unsupported execution-unit disposition %q" [AStr executionUnit];
  taskID ← TaskID;
  let activeTaskPath := TrimSpace activeTaskPath in
  refuse! bool_decide (activeTaskPath = "") with err "execution-unit disposition requires an ACTIVE task";
  Write ExecutionUnitDispositionStateFile
    (marshal {| dp_Version := DispositionVersion; dp_TaskID := taskID; dp_ActiveTaskPath := activeTaskPath;
                dp_ExecutionUnit := executionUnit; dp_UpdatedAt := now |}).
Definition decodeDisposition (data : string) : result error Disposition :=
  match unmarshal data with
  | None => Err (Errorf "read execution-unit disposition: %w" [AErr json_error])
  | Some disposition =>
      reject! negb (bool_decide (dp_Version disposition = DispositionVersion))
        with Errorf "unsupported execution-unit disposition version: %d" [AStr (FormatInt (dp_Version disposition))];
      reject! bool_decide (dp_TaskID disposition = "") || bool_decide (TrimSpace (dp_ActiveTaskPath disposition) = "")
        with err "execution-unit disposition authority is incomplete";
      reject! negb (known_unit (dp_ExecutionUnit disposition))
        with Errorf "unsupported execution-unit disposition %q" [AStr (dp_ExecutionUnit disposition)];
      Ok disposition
  end.
Definition LoadDisposition : io (option Disposition) :=
  r ← attempt (ReadFile (Path ExecutionUnitDispositionStateFile));
  match r with
  | Err e => if IsNotExist e then mret None else fail e
  | Ok data => disposition ← lift (decodeDisposition data); mret (Some disposition)
  end.
Definition CurrentDisposition : io (option Disposition) :=
  found ← LoadDisposition;
  match found with
  | None => mret None
  | Some disposition =>
      taskID ← TaskID;
      refuse! negb (bool_decide (dp_TaskID disposition = taskID))
        with Errorf "execution-unit disposition task identity changed: disposition=%q current=%q"
               [AStr (dp_TaskID disposition); AStr taskID];
      activeTaskPath ← io_wrap (λ e, Errorf "execution-unit disposition task binding is unavailable: %w" [AErr e])
                         CurrentWorkflowTaskPath;
      let activeTaskPath := TrimSpace activeTaskPath in
      refuse! bool_decide (activeTaskPath = "") || negb (bool_decide (dp_ActiveTaskPath disposition = activeTaskPath))
        with Errorf "execution-unit disposition ACTIVE task changed: disposition=%q current=%q"
               [AStr (dp_ActiveTaskPath disposition); AStr activeTaskPath];
      mret (Some disposition)
  end.
End Dispositions.

(** ** [executionmilestone/state.go] *)
Record Completion := {
  cm_CompletedAt : Time;
  cm_CallID : string;
  cm_WorkerSessionID : string;
  cm_Summary : string;
  cm_TaskContractSHA256 : string;
  cm_Snapshot : GitSnapshot;
}.
(** [Record] of the code. *)
Record MilestoneRecord := {
  mr_Definition : MilestoneDefinition;
  mr_Status : string;
  mr_Completion : option Completion;
}.
Record Plan := {
  pl_Version : Z;
  pl_TaskID : string;
  pl_ActiveTaskPath : string;
  pl_TaskContractSHA256 : string;
  pl_CurrentIndex : Z;
  pl_Milestones : list MilestoneRecord;
  pl_UpdatedAt : Time;
}.
Record Revision := {
  re_Status : string;
  re_TaskID : string;
  re_CurrentIndex : Z;
  re_MilestoneCount : Z;
  re_CurrentID : string;
}.
Record revisionAuthority := { ra_taskID : string; ra_activeTaskPath : string; ra_digest : string }.
Definition PlanVersion : Z := 1.
Definition StatusPending : string := "pending".
Definition StatusComplete : string := "complete".
Definition ExecutionMilestonesStateFile : string := "execution-milestones.json".
Definition pendingRecord (definition : MilestoneDefinition) : MilestoneRecord :=
  {| mr_Definition := definition; mr_Status := StatusPending; mr_Completion := None |}.
Definition NewPlan (taskID activeTaskPath digest : string) (definitions : list MilestoneDefinition) (now : Time) : Plan :=
  {| pl_Version := PlanVersion; pl_TaskID := taskID; pl_ActiveTaskPath := activeTaskPath;
     pl_TaskContractSHA256 := digest; pl_CurrentIndex := 0; pl_Milestones := pendingRecord <$> definitions;
     pl_UpdatedAt := now |}.
Definition milestoneCount (plan : Plan) : Z := Z.of_nat (length (pl_Milestones plan)).
Definition pl_done (plan : Plan) : bool := bool_decide (milestoneCount plan ≤ pl_CurrentIndex plan)%Z.
(** [plan.Milestones[plan.CurrentIndex]]; the code looks only where it is there. *)
Definition currentRecord (plan : Plan) : option MilestoneRecord := pl_Milestones plan !! Z.to_nat (pl_CurrentIndex plan).
Definition ValidateCurrent (plan : option Plan) (milestoneID : string) : result error unit :=
  match plan ≫= currentRecord with
  | None => Err (Errorf "execution milestone %q has no active durable plan" [AStr milestoneID])
  | Some current =>
      reject! negb (bool_decide (md_ID (mr_Definition current) = milestoneID)) ||
              negb (bool_decide (mr_Status current = StatusPending))
        with Errorf "execution milestone state mismatch: checkpoint=%q current=%q status=%q"
               [AStr milestoneID; AStr (md_ID (mr_Definition current)); AStr (mr_Status current)];
      Ok ()
  end.
Definition RevisionStatusAllowed (status : TaskStatus) : bool :=
  bool_decide (status ∈ [TaskStatusWaitingDecision; TaskStatusWaitingSolReview; TaskStatusRateLimited;
    TaskStatusProviderUnavailable; TaskStatusGuardRecoverable; TaskStatusQualityGateRecoverable; TaskStatusInterrupted]).
Definition revisionResult (plan : Plan) : Revision :=
  {| re_Status := "updated"; re_TaskID := pl_TaskID plan; re_CurrentIndex := pl_CurrentIndex plan;
     re_MilestoneCount := milestoneCount plan;
     re_CurrentID := match currentRecord plan with Some current => md_ID (mr_Definition current) | None => "" end |}.
Definition revisedRecords (plan : Plan) (definitions : list MilestoneDefinition) : list MilestoneRecord :=
  let index := Z.to_nat (pl_CurrentIndex plan) in
  take index (pl_Milestones plan) ++ (pendingRecord <$> drop index definitions).
(** The completed milestones of the plan, each against the definition in its place. *)
Fixpoint completedLoop (records : list MilestoneRecord) (definitions : list MilestoneDefinition) : result error unit :=
  match records, definitions with
  | record :: records, definition :: definitions =>
      reject! negb (bool_decide (mr_Definition record = definition))
        with Errorf "completed execution milestone %q is immutable" [AStr (md_ID (mr_Definition record))];
      completedLoop records definitions
  | _, _ => Ok ()
  end.
Definition validateCompleted (plan : Plan) (definitions : list MilestoneDefinition) : result error unit :=
  completedLoop (take (Z.to_nat (pl_CurrentIndex plan)) (pl_Milestones plan)) definitions.

(** The file of a task in the repository, and the digest of its text. *)
Class TaskFiles := {
  #[global] task_host :: Host;
  ReadTaskFile : string → string → result error string;
}.

Section Milestones.
Context `{Unicode, MachineEncoder, ResumeText, GitState, JSONLog, TaskFiles}.
Context `{JSONText TaskStats persistedStats, JSONText ParentReviewState Some, JSONText GitSnapshot Some,
          JSONText controllerRuntimeBindingWire Some, JSONText Disposition Some, JSONText Plan Some}.
(** [cfg.RepoRoot] *)
Variable repoRoot : string.

Definition decodePlan (data : string) : result error Plan :=
  match unmarshal data with
  | None => Err (Errorf "read execution milestone state: %w" [AErr json_error])
  | Some plan =>
      reject! negb (bool_decide (pl_Version plan = PlanVersion))
        with Errorf "unsupported execution milestone state version: %d" [AStr (FormatInt (pl_Version plan))];
      reject! bool_decide (pl_CurrentIndex plan < 0)%Z || bool_decide (milestoneCount plan < pl_CurrentIndex plan)%Z
        with Errorf "invalid execution milestone current index: %d" [AStr (FormatInt (pl_CurrentIndex plan))];
      Ok plan
  end.
Definition LoadPlan : io (option Plan) :=
  r ← attempt (ReadFile (Path ExecutionMilestonesStateFile));
  match r with
  | Err e => if IsNotExist e then mret None else fail e
  | Ok data => plan ← lift (decodePlan data); mret (Some plan)
  end.
Definition SavePlan (plan : Plan) : io unit := Write ExecutionMilestonesStateFile (marshal plan).
Definition TaskContractDigest (activeTaskPath : string) : result error string :=
  reject! bool_decide (TrimSpace activeTaskPath = "") with err "execution milestones require a Plan-selected ACTIVE task";
  match ReadTaskFile repoRoot activeTaskPath with
  | Err e => Err (Errorf "read execution milestone ACTIVE task: %w" [AErr e])
  | Ok data => Ok (digestBytes data)
  end.
Definition currentAuthority : io revisionAuthority :=
  taskID ← TaskID;
  activeTaskPath ← CurrentWorkflowTaskPath;
  digest ← lift (TaskContractDigest activeTaskPath);
  mret {| ra_taskID := taskID; ra_activeTaskPath := activeTaskPath; ra_digest := digest |}.
Definition ValidateAuthority (plan : option Plan) : io unit :=
  match plan with
  | None => fail (err "execution milestone plan is missing")
  | Some plan =>
      authority ← currentAuthority;
      refuse! negb (bool_decide (ra_taskID authority = pl_TaskID plan))
        with Errorf "execution milestone task identity changed: plan=%q current=%q"
               [AStr (pl_TaskID plan); AStr (ra_taskID authority)];
      refuse! negb (bool_decide (ra_activeTaskPath authority = pl_ActiveTaskPath plan))
        with Errorf "execution milestone ACTIVE task changed: plan=%q current=%q"
               [AStr (pl_ActiveTaskPath plan); AStr (ra_activeTaskPath authority)];
      refuse! negb (bool_decide (ra_digest authority = pl_TaskContractSHA256 plan))
        with err "execution milestone task contract changed; revise milestones at the parent boundary before continuing";
      mret ()
  end.
Definition HasPending : io bool :=
  found ← LoadPlan;
  match found with
  | None => mret false
  | Some plan => if pl_done plan then mret false else _ ← ValidateAuthority (Some plan); mret true
  end.
Definition preserveStopped (plan : Plan) (definitions : list MilestoneDefinition) : io unit :=
  r ← attempt LoadResumeCheckpoint;
  match r with
  | Err e => if IsNoCheckpoint e then mret () else fail e
  | Ok checkpoint =>
      if bool_decide (ck_ExecutionMilestoneID checkpoint = "") then mret ()
      else
        let mismatch := Errorf "cannot revise the stopped in-flight execution milestone %q"
                          [AStr (ck_ExecutionMilestoneID checkpoint)] in
        match currentRecord plan, definitions !! Z.to_nat (pl_CurrentIndex plan) with
        | Some current, Some definition =>
            refuse! negb (bool_decide (ck_ExecutionMilestoneID checkpoint = md_ID (mr_Definition current))) ||
                    negb (bool_decide (mr_Definition current = definition)) with mismatch;
            mret ()
        | _, _ => fail mismatch
        end
  end.
Definition validateRevisionPlan (plan : Plan) (authority : revisionAuthority) (definitions : list MilestoneDefinition) :
    io unit :=
  refuse! negb (bool_decide (pl_TaskID plan = ra_taskID authority)) ||
          negb (bool_decide (pl_ActiveTaskPath plan = ra_activeTaskPath authority))
    with err "execution milestone plan does not belong to the active task";
  refuse! pl_done plan with err "all execution milestones are already complete";
  refuse! bool_decide (Z.of_nat (length definitions) ≤ pl_CurrentIndex plan)%Z
    with err "revised execution milestones must preserve all completed milestones and one current milestone";
  _ ← lift (validateCompleted plan definitions);
  preserveStopped plan definitions.
Definition prepareRevision (definitions : list MilestoneDefinition) (now : Time) : io Plan :=
  definitions ← lift (ValidateMilestoneDefinitions definitions);
  status ← GetTaskStatus;
  refuse! negb (RevisionStatusAllowed status)
    with err "execution milestones can only be revised at a stopped worker parent boundary";
  found ← LoadPlan;
  authority ← currentAuthority;
  match found with
  | None => mret (NewPlan (ra_taskID authority) (ra_activeTaskPath authority) (ra_digest authority) definitions now)
  | Some plan =>
      _ ← validateRevisionPlan plan authority definitions;
      let plan := plan {{ pl_Milestones := revisedRecords plan definitions;
                          pl_TaskContractSHA256 := ra_digest authority }} in
      mret (if bool_decide (now = zeroTime) then plan else plan {{ pl_UpdatedAt := now }})
  end.
Definition ValidateRevision (definitions : list MilestoneDefinition) : io unit :=
  _ ← prepareRevision definitions zeroTime; mret ().
Definition bindStoppedCheckpoint (plan : Plan) : io unit :=
  match currentRecord plan with
  | None => mret ()
  | Some current =>
      r ← attempt LoadResumeCheckpoint;
      match r with
      | Err e => if IsNoCheckpoint e then mret () else fail e
      | Ok checkpoint =>
          let currentID := md_ID (mr_Definition current) in
          refuse! negb (bool_decide (ck_ExecutionMilestoneID checkpoint = "")) &&
                  negb (bool_decide (ck_ExecutionMilestoneID checkpoint = currentID))
            with Errorf "stopped checkpoint belongs to execution milestone %q, not %q"
                   [AStr (ck_ExecutionMilestoneID checkpoint); AStr currentID];
          SaveResumeCheckpoint (checkpoint {{ ck_ExecutionMilestoneID := currentID }})
      end
  end.
Definition Revise (definitions : list MilestoneDefinition) (now : Time) : io Revision :=
  plan ← prepareRevision definitions now;
  _ ← bindStoppedCheckpoint plan;
  _ ← SavePlan plan;
  mret (revisionResult plan).
Definition Preflight (input : Decision) : io bool :=
  active ← HasPending;
  if bool_decide (de_ExecutionUnit input = ExecutionUnitSingle) then
    refuse! active with err "execution-unit single cannot bypass pending execution milestones"; mret active
  else if bool_decide (de_ExecutionUnit input = ExecutionUnitMilestones) then
    if bool_decide (length (de_Milestones input) = 0) then
      refuse! negb active
        with err "execution-unit milestones requires 2-8 milestone definitions or an existing pending milestone plan";
      mret active
    else _ ← ValidateRevision (de_Milestones input); mret active
  else fail (Errorf "unsupported execution-unit disposition %q" [AStr (de_ExecutionUnit input)]).
Definition SyncTaskContract (taskID activeTaskPath previousDigest digest : string) (now : Time) : io unit :=
  found ← LoadPlan;
  match found with
  | None => mret ()
  | Some plan =>
      refuse! negb (bool_decide (pl_TaskID plan = taskID)) || negb (bool_decide (pl_ActiveTaskPath plan = activeTaskPath))
        with err "execution milestone plan does not belong to the synced Task";
      if bool_decide (pl_TaskContractSHA256 plan = digest) then mret ()
      else
        refuse! negb (bool_decide (pl_TaskContractSHA256 plan = previousDigest))
          with err "execution milestone contract is outside the task authority sync lineage";
        SavePlan (plan {{ pl_TaskContractSHA256 := digest; pl_UpdatedAt := now }})
  end.
End Milestones.

(** ** Milestones in the workflow

    The prompt block of the current milestone
    ([workflow/execution_milestone_contract.go]). *)
Record executionMilestoneCompletedPrompt := {
  mp_ID : string;
  mp_Summary : string;
  mp_CallID : string;
  mp_TaskContractSHA256 : string;
  mp_Snapshot : GitSnapshot;
}.
Record executionMilestonePrompt := {
  mp_TaskAuthority : string;
  mp_ContractSHA256 : string;
  mp_Current : MilestoneDefinition;
  mp_Completed : list executionMilestoneCompletedPrompt;
}.
Definition executionMilestonePromptBegin : string := "BEGIN_EXECUTION_MILESTONE_JSON".
Definition executionMilestonePromptEnd : string := "END_EXECUTION_MILESTONE_JSON".
Definition executionMilestoneInstruction : string :=
  "ACTIVE task remains task-wide authority; implement only current.scope and satisfy current.acceptance. Do not redo completed milestones merely because a new worker begins. If an explicit semantic amendment changed the ACTIVE task after a completed milestone, its recorded task_contract_sha256 will differ from the current task_contract_sha256; amendment work may touch that completed scope only when current.scope explicitly requires the semantic delta. Milestone completion never completes or weakens task-wide Acceptance.".
(** [json.Marshal] of the prompt. *)
Class PromptJSON := { marshalPrompt : executionMilestonePrompt → string }.
Fixpoint completedPrompts (records : list MilestoneRecord) : result error (list executionMilestoneCompletedPrompt) :=
  match records with
  | [] => Ok []
  | record :: records =>
      let missing := Errorf "completed execution milestone %q has no completion evidence" [AStr (md_ID (mr_Definition record))] in
      match mr_Completion record with
      | None => Err missing
      | Some completion =>
          reject! negb (bool_decide (mr_Status record = StatusComplete)) with missing;
          rest ← completedPrompts records;
          Ok ({| mp_ID := md_ID (mr_Definition record); mp_Summary := cm_Summary completion;
                 mp_CallID := cm_CallID completion; mp_TaskContractSHA256 := cm_TaskContractSHA256 completion;
                 mp_Snapshot := cm_Snapshot completion |} :: rest)
      end
  end.
Definition promptBlock (data : string) : string :=
  newline +:+ newline +:+ executionMilestonePromptBegin +:+ newline +:+ data +:+ newline +:+
  executionMilestoneInstruction +:+ newline +:+ executionMilestonePromptEnd +:+ newline.
(** The caller has checked that there is a current milestone. *)
Definition executionMilestonePromptBlock `{PromptJSON} (plan : Plan) (current : MilestoneRecord) : result error string :=
  completed ← completedPrompts (take (Z.to_nat (pl_CurrentIndex plan)) (pl_Milestones plan));
  Ok (promptBlock (marshalPrompt {|
        mp_TaskAuthority := pl_ActiveTaskPath plan; mp_ContractSHA256 := pl_TaskContractSHA256 plan;
        mp_Current := mr_Definition current; mp_Completed := completed |})).
(** One turn of the loop takes a block out: from the first marker to the line
    feeds after the first end behind it. *)
Definition promptMarker : string := newline +:+ newline +:+ executionMilestonePromptBegin.
Definition removePromptBlock (prompt : string) : option string :=
  match cut_at prompt promptMarker with
  | None => None
  | Some (before, after) =>
      match cut_at (promptMarker +:+ after) executionMilestonePromptEnd with
      | None => None
      | Some (_, rest) => Some (before +:+ dropLeading LF rest)
      end
  end.
Fixpoint removePromptBlocks (fuel : nat) (prompt : string) : string :=
  match fuel with
  | 0 => prompt
  | S fuel => match removePromptBlock prompt with Some prompt => removePromptBlocks fuel prompt | None => prompt end
  end.
(** Each turn makes the prompt shorter, so its length is enough fuel. *)
Definition replaceExecutionMilestonePromptBlock (prompt block : string) : string :=
  TrimRightByte (removePromptBlocks (String.length prompt) prompt) LF +:+ block.

(** *** The projection of progress ([workflow/execution_progress.go]) *)
Record ExecutionProgressMilestone := { xm_ID : string; xm_Position : Z; xm_Count : Z }.
Record ExecutionProgressProjection := {
  xp_Status : string;
  xp_Band : string;
  xp_Basis : string;
  xp_Precision : string;
  xp_Reason : string;
  xp_PhaseStage : string;
  xp_CompletedMilestones : list string;
  xp_CurrentMilestone : option ExecutionProgressMilestone;
  xp_PendingMilestones : list string;
}.
Definition invalidMilestoneProgressStateReason : string := "invalid-milestone-state".
Definition indeterminateExecutionProgress (phaseStage basis reason : string) : ExecutionProgressProjection :=
  {| xp_Status := "indeterminate"; xp_Band := ""; xp_Basis := basis; xp_Precision := "unavailable"; xp_Reason := reason;
     xp_PhaseStage := phaseStage; xp_CompletedMilestones := []; xp_CurrentMilestone := None; xp_PendingMilestones := [] |}.
Definition record_consistent (current : Z) (index : nat) (record : MilestoneRecord) : bool :=
  negb (bool_decide (TrimSpace (md_ID (mr_Definition record)) = "")) &&
  if bool_decide (Z.of_nat index < current)%Z
  then bool_decide (mr_Status record = StatusComplete) && bool_decide (is_Some (mr_Completion record))
  else bool_decide (mr_Status record = StatusPending) && negb (bool_decide (is_Some (mr_Completion record))).
Fixpoint consistentLoop (current : Z) (index : nat) (records : list MilestoneRecord) : bool :=
  match records with
  | [] => true
  | record :: records => record_consistent current index record && consistentLoop current (S index) records
  end.
Definition executionProgressMilestonesConsistent (plan : Plan) : bool :=
  consistentLoop (pl_CurrentIndex plan) 0 (pl_Milestones plan).
Definition executionProgressPhaseStage (currentPhase currentRole : string) : string :=
  if bool_decide (currentRole = ReviewerRole) || HasPrefix currentPhase "reviewer-" then "review"
  else if bool_decide (Lifecycle.WorkerPhaseCategory currentPhase = WorkerPhaseCategoryDecision) then "decision"
  else if bool_decide (currentRole = WorkerRole) || HasPrefix currentPhase "worker-" then "implementation"
  else if bool_decide (currentPhase = "") then "unknown"
  else "other".
Definition executionProgressBand (currentIndex milestoneCount : Z) (phaseStage : string) (taskStatus : TaskStatus) : string :=
  if bool_decide (taskStatus = TaskStatusComplete) then "complete"
  else if bool_decide (milestoneCount ≤ currentIndex)%Z then "late"
  else if bool_decide (currentIndex = 0%Z) then
    if bool_decide (phaseStage = "review") || bool_decide (phaseStage = "decision") then "early-to-middle" else "early"
  else if bool_decide (currentIndex = milestoneCount - 1)%Z then
    if bool_decide (phaseStage = "implementation") || bool_decide (phaseStage = "unknown") then "middle-to-late" else "late"
  else
    let completedThirds := (currentIndex * 3)%Z in
    if bool_decide (completedThirds < milestoneCount)%Z then "early-to-middle"
    else if bool_decide (2 * milestoneCount < completedThirds)%Z then "middle-to-late"
    else "middle".

Section Workflow.
Context `{Unicode, MachineEncoder, ResumeText, GitState, JSONLog, TaskFiles, PromptJSON}.
Context `{JSONText TaskStats persistedStats, JSONText ParentReviewState Some, JSONText GitSnapshot Some,
          JSONText controllerRuntimeBindingWire Some, JSONText Disposition Some, JSONText Plan Some}.
(** [w.config.RepoRoot] and [w.lastCallID] *)
Variables repoRoot lastCallID : string.

Definition executionProgressPlanInconsistency (plan : Plan) (taskStatus : TaskStatus) : io string :=
  taskID ← ReadOr "task.id" "";
  mret (if negb (bool_decide (taskID = "")) && negb (bool_decide (pl_TaskID plan = taskID)) then "milestone-task-mismatch"
        else if bool_decide (length (pl_Milestones plan) < 2) || negb (executionProgressMilestonesConsistent plan)
        then invalidMilestoneProgressStateReason
        else if bool_decide (taskStatus = TaskStatusComplete) && negb (bool_decide (pl_CurrentIndex plan = milestoneCount plan))
        then "lifecycle-milestone-inconsistent"
        else "").
Definition projectNonMilestoneExecutionProgress (phaseStage : string) : io ExecutionProgressProjection :=
  r ← attempt CurrentDisposition;
  mret match r with
       | Err _ => indeterminateExecutionProgress phaseStage "machine-state" "execution-unit-disposition-unavailable"
       | Ok None => indeterminateExecutionProgress phaseStage "single-or-untracked-execution-unit" "no-execution-milestones"
       | Ok (Some disposition) =>
           if bool_decide (dp_ExecutionUnit disposition = ExecutionUnitSingle) then
             indeterminateExecutionProgress phaseStage "explicit-single-execution-unit" "single-execution-unit"
           else if bool_decide (dp_ExecutionUnit disposition = ExecutionUnitMilestones) then
             indeterminateExecutionProgress phaseStage "machine-state" "milestone-state-missing"
           else indeterminateExecutionProgress phaseStage "machine-state" "execution-unit-disposition-unavailable"
       end.
Definition record_id (record : MilestoneRecord) : string := md_ID (mr_Definition record).
Definition progressProjection (plan : Plan) (phaseStage : string) (taskStatus : TaskStatus) : ExecutionProgressProjection :=
  let index := Z.to_nat (pl_CurrentIndex plan) in
  let complete := bool_decide (taskStatus = TaskStatusComplete) in
  {| xp_Status := if complete then "complete" else "estimated";
     xp_Band := executionProgressBand (pl_CurrentIndex plan) (milestoneCount plan) phaseStage taskStatus;
     xp_Basis := "execution-milestones+phase"; xp_Precision := if complete then "exact" else "coarse";
     xp_Reason := ""; xp_PhaseStage := phaseStage;
     xp_CompletedMilestones := record_id <$> take index (pl_Milestones plan);
     xp_CurrentMilestone := (λ record, {| xm_ID := record_id record; xm_Position := (pl_CurrentIndex plan + 1)%Z;
                                          xm_Count := milestoneCount plan |}) <$> currentRecord plan;
     xp_PendingMilestones := record_id <$> drop (S index) (pl_Milestones plan) |}.
Definition ProjectExecutionProgress (currentPhase currentRole : string) : io ExecutionProgressProjection :=
  let phaseStage := executionProgressPhaseStage currentPhase currentRole in
  r ← attempt LoadPlan;
  match r with
  | Err _ => mret (indeterminateExecutionProgress phaseStage "machine-state" "milestone-state-unavailable")
  | Ok None => projectNonMilestoneExecutionProgress phaseStage
  | Ok (Some plan) =>
      if bool_decide (length (pl_Milestones plan) = 0) then projectNonMilestoneExecutionProgress phaseStage
      else
        taskStatus ← GetTaskStatus;
        reason ← executionProgressPlanInconsistency plan taskStatus;
        mret (if negb (bool_decide (reason = "")) then indeterminateExecutionProgress phaseStage "machine-state" reason
              else progressProjection plan phaseStage taskStatus)
  end.

(** *** Starting, completing and deciding ([execution_milestone_state.go],
    [execution_milestone_flow.go], [execution_unit_decision.go]) *)
Definition initializeExecutionMilestones (definitions : list MilestoneDefinition) (activeTaskPath : string) : io unit :=
  taskID ← TaskID;
  digest ← lift (TaskContractDigest repoRoot activeTaskPath);
  now ← Now;
  _ ← SavePlan (NewPlan taskID activeTaskPath digest definitions now);
  now ← Now;
  RecordDisposition activeTaskPath ExecutionUnitMilestones now.
Definition completeRecord (completion : Completion) (record : MilestoneRecord) : MilestoneRecord :=
  record {{ mr_Status := StatusComplete; mr_Completion := Some completion }}.
Definition completeCurrentExecutionMilestone (plan : Plan) (result : Result) : io Plan :=
  snapshot ← io_wrap (λ e, Errorf "capture execution milestone completion snapshot: %w" [AErr e])
               (lift (CaptureGitSnapshot repoRoot));
  completedAt ← Now;
  workerSession ← ReadOr "worker.id" "";
  let completion := {| cm_CompletedAt := completedAt; cm_CallID := lastCallID; cm_WorkerSessionID := workerSession;
                       cm_Summary := rs_Summary result; cm_TaskContractSHA256 := pl_TaskContractSHA256 plan;
                       cm_Snapshot := snapshot |} in
  updatedAt ← Now;
  let index := Z.to_nat (pl_CurrentIndex plan) in
  let plan := plan {{ pl_Milestones := alter (completeRecord completion) index (pl_Milestones plan);
                      pl_CurrentIndex := (pl_CurrentIndex plan + 1)%Z; pl_UpdatedAt := updatedAt }} in
  _ ← SavePlan plan;
  mret plan.
(** [startNextExecutionMilestone], which calls the model, is an argument. *)
Definition advanceExecutionMilestone (startNext : Plan → io unit) (result : Result) (checkpoint : ResumeCheckpoint) : io bool :=
  let id := ck_ExecutionMilestoneID checkpoint in
  refuse! bool_decide (id = "") with err "execution milestone result has no checkpoint identity";
  found ← LoadPlan;
  _ ← ValidateAuthority repoRoot found;
  _ ← lift (ValidateCurrent found id);
  match found with
  | None => fail (err "execution milestone plan is missing")
  | Some plan =>
      plan ← completeCurrentExecutionMilestone plan result;
      if pl_done plan then mret false else _ ← startNext plan; mret true
  end.
Definition hasPendingExecutionMilestone : io bool := HasPending repoRoot.
Definition decorateExecutionMilestoneCheckpoint (checkpoint : ResumeCheckpoint) : io ResumeCheckpoint :=
  found ← LoadPlan;
  match found ≫= λ plan, current ← currentRecord plan; Some (plan, current) with
  | None => fail (err "no pending execution milestone is available")
  | Some (plan, current) =>
      _ ← ValidateAuthority repoRoot (Some plan);
      let id := md_ID (mr_Definition current) in
      refuse! negb (bool_decide (ck_ExecutionMilestoneID checkpoint = "")) &&
              negb (bool_decide (ck_ExecutionMilestoneID checkpoint = id))
        with Errorf "execution milestone checkpoint mismatch: checkpoint=%q current=%q"
               [AStr (ck_ExecutionMilestoneID checkpoint); AStr id];
      block ← lift (executionMilestonePromptBlock plan current);
      let original := ck_OriginalPrompt checkpoint in
      mret (checkpoint {{
        ck_ExecutionMilestoneID := id;
        ck_Prompt := replaceExecutionMilestonePromptBlock (ck_Prompt checkpoint) block;
        ck_OriginalPrompt := if bool_decide (original = "") then original
                             else replaceExecutionMilestonePromptBlock original block }})
  end.
Definition validateExecutionMilestoneCheckpointAuthority (checkpoint : ResumeCheckpoint) : io unit :=
  refuse! bool_decide (ck_ExecutionMilestoneID checkpoint = "")
    with err "execution milestone checkpoint has no milestone identity";
  found ← LoadPlan;
  _ ← ValidateAuthority repoRoot found;
  lift (ValidateCurrent found (ck_ExecutionMilestoneID checkpoint)).
Definition recordExecutionUnitDisposition (executionUnit : string) : io unit :=
  activeTaskPath ← CurrentWorkflowTaskPath;
  now ← Now;
  RecordDisposition activeTaskPath executionUnit now.
(** [ExecuteDecision] and [ExecuteDecisionWithExecutionMilestones], which call the
    model, are arguments. *)
Definition executeMilestoneExecutionUnitDecision (continue : string → io unit) (input : Decision) (active : bool) : io unit :=
  if bool_decide (0 < length (de_Milestones input)) then
    let activating := negb active in
    now ← Now;
    revision ← Revise repoRoot (de_Milestones input) now;
    _ ← recordExecutionUnitDisposition ExecutionUnitMilestones;
    let fresh := match de_Milestones input !! Z.to_nat (re_CurrentIndex revision) with
                 | Some definition => md_FreshWorker definition | None => false end in
    _ ← (if activating && fresh then InvalidateSession WorkerRole else mret ());
    continue (de_Decision input)
  else
    refuse! negb active
      with err "execution-unit milestones requires 2-8 milestone definitions or an existing pending milestone plan";
    continue (de_Decision input).
Definition ExecuteDecisionWithExecutionUnitPayload `{MilestoneDecoder} (decide continue : string → io unit)
    (payload : string) : io unit :=
  if negb (IsPayload payload) then continue payload
  else
    input ← lift (ParseDecision payload);
    active ← Preflight repoRoot input;
    if bool_decide (de_ExecutionUnit input = ExecutionUnitSingle) then
      _ ← recordExecutionUnitDisposition ExecutionUnitSingle; decide (de_Decision input)
    else if bool_decide (de_ExecutionUnit input = ExecutionUnitMilestones) then
      executeMilestoneExecutionUnitDecision continue input active
    else fail (Errorf "unsupported execution-unit disposition %q" [AStr (de_ExecutionUnit input)]).
End Workflow.
