(* ===== verification/SessionLogic.v ===== *)
(** * Reasoning about the session state

    Triples with one postcondition for success and one for failure, and the
    predicate [within G N]: the files are those of the map [G], up to the names
    [N] and to the files that are mere observations.  An operation that fails in
    [within G []] has changed nothing.  [or_rollback] gets there from [within G N]
    when it holds snapshots of all of [N]. *)
From S2P Require Import Prelude GoStrings GoText ControllerTypes ControllerStore Packet SessionTypes SessionStore ResumeCheckpoint ParentReview Lifecycle.

(** ** Triples *)
Definition triple {A} (P : Disk → Prop) (m : io A) (Q : A → Disk → Prop) (E : Disk → Prop) : Prop :=
  ∀ d, P d → match m d with (Ok a, d') => Q a d' | (Err _, d') => E d' end.

Section Triples.
Context {A : Type}.
Implicit Types (P E : Disk → Prop) (m : io A) (Q : A → Disk → Prop).

Lemma triple_bind {B} P Q E (R : B → Disk → Prop) m (f : A → io B) :
  triple P m Q E → (∀ a, triple (Q a) (f a) R E) → triple P (m ≫= f) R E.
Proof.
  intros Hm Hf d Hd. specialize (Hm d Hd). unfold mbind, io_bind.
  destruct (m d) as [[a|e] d']; [by apply (Hf a)|done].
Qed.
Lemma triple_ret P (a : A) E (Q : A → Disk → Prop) : (∀ d, P d → Q a d) → triple P (mret a) Q E.
Proof. intros H d Hd. by apply H. Qed.
Lemma triple_fail P e E (Q : A → Disk → Prop) : (∀ d, P d → E d) → triple P (fail e) Q E.
Proof. intros H d Hd. by apply H. Qed.
Lemma triple_wrap P f m Q E : triple P m Q E → triple P (io_wrap f m) Q E.
Proof. intros Hm d Hd. specialize (Hm d Hd). unfold io_wrap. by destruct (m d) as [[|] ?]. Qed.
Lemma triple_attempt P m Q E F :
  triple P m Q E → triple P (attempt m) (λ r d, match r with Ok a => Q a d | Err _ => E d end) F.
Proof. intros Hm d Hd. specialize (Hm d Hd). unfold attempt. by destruct (m d) as [[|] ?]. Qed.
Lemma triple_guard P (c : bool) e m Q E :
  (∀ d, c = true → P d → E d) → (c = false → triple P m Q E) → triple P (if c then fail e else m) Q E.
Proof. intros H1 H2. destruct c; [by apply triple_fail; auto|by apply H2]. Qed.
Lemma triple_consequence P P' Q Q' E E' m :
  triple P' m Q' E' → (∀ d, P d → P' d) → (∀ a d, Q' a d → Q a d) → (∀ d, E' d → E d) → triple P m Q E.
Proof.
  intros Hm HP HQ HE d Hd. specialize (Hm d (HP d Hd)). destruct (m d) as [[|] ?]; auto.
Qed.
Lemma triple_pure (φ : Prop) P Q E m : (φ → triple P m Q E) → triple (λ d, φ ∧ P d) m Q E.
Proof. intros H d [? Hd]. by apply H. Qed.
Lemma triple_reads P m E : Preserves eq m → (∀ d, P d → E d) → triple P m (λ _, P) E.
Proof.
  intros Hm HE d Hd. specialize (Hm d). destruct (m d) as [[|] d']; simpl in *; subst; auto.
Qed.
End Triples.

(** ** Reading operations *)
Section Reads.
#[export] Instance ReadFile_reads p : Preserves eq (ReadFile p).
Proof. unfold ReadFile. preserving. Qed.
#[export] Instance Exists_reads name : Preserves eq (Exists name).
Proof. by intros d. Qed.
#[export] Instance StatDir_reads p : Preserves eq (StatDir p).
Proof. by intros d. Qed.
#[export] Instance Read_reads name : Preserves eq (Read name).
Proof. unfold Read. preserving. Qed.
#[export] Instance ReadOr_reads name fallback : Preserves eq (ReadOr name fallback).
Proof. unfold ReadOr. preserving. Qed.
#[export] Instance TaskID_reads : Preserves eq TaskID.
Proof. unfold TaskID. preserving. Qed.
#[export] Instance GetTaskStatus_reads : Preserves eq GetTaskStatus.
Proof. unfold GetTaskStatus. preserving. Qed.
#[export] Instance ParentEvidenceLeaseEpoch_reads : Preserves eq ParentEvidenceLeaseEpoch.
Proof. unfold ParentEvidenceLeaseEpoch. preserving. Qed.
#[export] Instance snapshotLifecycleFile_reads name : Preserves eq (snapshotLifecycleFile name).
Proof. unfold snapshotLifecycleFile. preserving. Qed.
#[export] Instance verifyPendingDecisionContinuation_reads phase : Preserves eq (verifyPendingDecisionContinuation phase).
Proof. unfold verifyPendingDecisionContinuation. preserving. Qed.

Context `{Unicode, MachineEncoder, ResumeText, GitState, JSONLog}.
Context `{JSONText TaskStats persistedStats, JSONText ParentReviewState Some, JSONText GitSnapshot Some,
          JSONText parentActionBeginRecord Some}.
#[export] Instance LoadResumeCheckpoint_reads : Preserves eq LoadResumeCheckpoint.
Proof. unfold LoadResumeCheckpoint. preserving. Qed.
#[export] Instance loadParentReviewState_reads : Preserves eq loadParentReviewState.
Proof. unfold loadParentReviewState. preserving. Qed.
#[export] Instance CurrentParentReview_reads : Preserves eq CurrentParentReview.
Proof. unfold CurrentParentReview. preserving. Qed.
#[export] Instance CurrentParentReviewLabel_reads : Preserves eq CurrentParentReviewLabel.
Proof. unfold CurrentParentReviewLabel. preserving. Qed.
#[export] Instance CurrentParentCompletionOutcome_reads : Preserves eq CurrentParentCompletionOutcome.
Proof. unfold CurrentParentCompletionOutcome. preserving. Qed.
#[export] Instance parentReviewResolutionState_reads : Preserves eq parentReviewResolutionState.
Proof. unfold parentReviewResolutionState. preserving. Qed.
#[export] Instance LoadWorkerEndSnapshot_reads : Preserves eq LoadWorkerEndSnapshot.
Proof. unfold LoadWorkerEndSnapshot. preserving. Qed.
#[export] Instance bindCompletionSource_reads c review : Preserves eq (bindCompletionSource c review).
Proof. unfold bindCompletionSource. preserving. Qed.
#[export] Instance captureCurrentParentReviewSnapshot_reads : Preserves eq captureCurrentParentReviewSnapshot.
Proof. unfold captureCurrentParentReviewSnapshot. preserving. Qed.
#[export] Instance parentReviewCoverageLeaseCurrent_reads binding : Preserves eq (parentReviewCoverageLeaseCurrent binding).
Proof. unfold parentReviewCoverageLeaseCurrent. preserving. Qed.
#[export] Instance ParentReviewAcceptReady_reads : Preserves eq ParentReviewAcceptReady.
Proof. unfold ParentReviewAcceptReady. preserving. Qed.
#[export] Instance RequireParentReviewAcceptanceEvidence_reads : Preserves eq RequireParentReviewAcceptanceEvidence.
Proof. unfold RequireParentReviewAcceptanceEvidence. preserving. Qed.
#[export] Instance loadParentActionBegin_reads : Preserves eq loadParentActionBegin.
Proof. unfold loadParentActionBegin. preserving. Qed.
End Reads.

(** ** Observations

    The statistics and the logs mirror what happened; no transition reads them. *)
Definition observation (p : list string) : bool :=
  match p with
  | [name] => bool_decide (name = currentStatsFile)
  | dir :: _ => bool_decide (dir = "lifecycle" ∨ dir = "telemetry")
  | [] => false
  end.
Notation fileMap := (gmap (list string) Doc).
Definition statusFile : string := "task.status".
(** What a file says: a plain file of mode [0600]. *)
Definition text (s : string) : Doc := DocFile (plain s mode600).
(** Every file of the state is such a file. *)
Definition plain_state (G : fileMap) : Prop :=
  ∀ name doc, observation (Path name) = false → G !! Path name = Some doc → ∃ s, doc = text s.

(** The disk differs in observations, directories, clocks and random sources. *)
Definition quiet (d d' : Disk) : Prop :=
  unreadable d' = unreadable d ∧ unwritable d' = unwritable d ∧ (power d = None → power d' = None) ∧
  ∀ p, observation p = false → files d' !! p = files d !! p.
Class Quiet (P : Disk → Prop) := quiet_stable d d' : quiet d d' → P d → P d'.
#[global] Hint Mode Quiet ! : typeclass_instances.
Lemma spend_unlimited d : power d = None → spend d = None.
Proof. unfold spend. by intros ->. Qed.
Lemma quiet_put p doc d : observation p = true → quiet d (put_file p doc d).
Proof.
  intros Hp. split; [done|]. split; [done|]. split; [apply spend_unlimited|]. intros q Hq. simpl.
  rewrite lookup_insert_ne; [done|]. intros ->. congruence.
Qed.
#[export] Instance quiet_and P Q : Quiet P → Quiet Q → Quiet (λ d, P d ∧ Q d).
Proof. intros HP HQ d d' Hq []. split; by eapply quiet_stable. Qed.
#[export] Instance quiet_pure (φ : Prop) P : Quiet P → Quiet (λ d, φ ∧ P d).
Proof. intros HP d d' Hq []. split; [done|]. by eapply quiet_stable. Qed.

Lemma reads_triple {A} P (m : io A) : Preserves eq m → triple P m (λ _, P) P.
Proof. intros. by apply triple_reads. Qed.
Lemma weaken_triple {A} P Q (m : io A) φ E : triple P m (λ _ d, φ d ∧ Q d) E → triple P m (λ _, Q) E.
Proof. intros Hm. eapply triple_consequence; eauto. by intros ? ? []. Qed.
Lemma total_attempt {A} P (m : io A) E : triple P m (λ _, P) P → triple P (attempt m) (λ _, P) E.
Proof.
  intros Hm. eapply triple_consequence; [by eapply (triple_attempt _ _ _ _ E)|done| |done]. by intros [] d Hd.
Qed.
Lemma ReadOr_triple P name fallback E : triple P (ReadOr name fallback) (λ _, P) E.
Proof.
  unfold ReadOr. eapply triple_bind; [apply total_attempt, reads_triple, _|]. intros. by apply triple_ret.
Qed.
Lemma ledger_lock_triple {A} P (m : io A) Q (E : Disk → Prop) :
  (∀ d, P d → E d) → triple P m Q E → triple P (under_ledger_lock m) Q E.
Proof. intros HE Hm d Hd. unfold under_ledger_lock. case_bool_decide; [by apply HE|by apply Hm]. Qed.
Lemma triple_and {A} (P E1 E2 : Disk → Prop) (m : io A) Q1 Q2 :
  triple P m Q1 E1 → triple P m Q2 E2 → triple P m (λ a d, Q1 a d ∧ Q2 a d) (λ d, E1 d ∧ E2 d).
Proof. intros H1' H2' d Hd. specialize (H1' d Hd). specialize (H2' d Hd). by destruct (m d) as [[|] ?]. Qed.

(** *** What only observes *)
Section Observations.
Context (P : Disk → Prop) `{!Quiet P}.

Lemma Now_triple E : triple P Now (λ _, P) E.
Proof. intros d Hd. eapply quiet_stable; [|exact Hd]. repeat split; auto. Qed.
Lemma NewUUID_triple : triple P NewUUID (λ _, P) P.
Proof.
  intros d Hd. assert (P (d {{ draws := S (draws d) }})).
  { eapply quiet_stable; [|exact Hd]. repeat split; auto. }
  unfold NewUUID. by destruct (random d (draws d)).
Qed.
Lemma MkdirAll_triple p : triple P (MkdirAll p) (λ _, P) P.
Proof.
  intros d Hd. unfold MkdirAll. destruct (_ || _); [done|]. eapply quiet_stable; [|exact Hd].
  split; [done|]. split; [done|]. split; [apply spend_unlimited|done].
Qed.
Lemma put_stable p doc d : observation p = true → P d → P (put_file p doc d).
Proof. intros Ho Hd. by eapply quiet_stable; [apply quiet_put|]. Qed.
Lemma append_file_triple p data : observation p = true → triple P (append_file p data) (λ _, P) P.
Proof.
  intros Ho. unfold append_file. eapply (triple_bind _ (λ _, P)).
  { intros d Hd. unfold open_append. do 2 (case_bool_decide; [done|]). destruct (stopped d); [done|]. case_bool_decide; first [exact Hd|by apply put_stable]. }
  intros _. eapply (triple_bind _ (λ _, P)).
  { intros d Hd. unfold chmod600. destruct (stopped d); first [exact Hd|by apply put_stable]. }
  intros _. eapply (triple_bind _ (λ _, P)).
  { induction data as [|c data IH]; intros d Hd; cbn; [done|]. destruct (stopped d); [done|].
    apply IH, put_stable; done. }
  intros _ d Hd. unfold close_file. by destruct (stopped d).
Qed.
Lemma append_triple dir name data :
  observation [dir; name] = true → triple P (appendStateJSONL [dir; name] data) (λ _, P) P.
Proof.
  intros Ho. unfold appendStateJSONL. eapply triple_bind; [apply MkdirAll_triple|]. intros [].
  by apply append_file_triple.
Qed.

Context `{JSONLog, JSONText TaskStats persistedStats}.
Lemma writeTaskStats_triple stats : triple P (writeTaskStats stats) (λ _, P) P.
Proof.
  unfold writeTaskStats, writeFileAtomic. eapply triple_bind; [apply MkdirAll_triple|]. intros [] d Hd.
  unfold writeJSONAtomic. destruct (_ || _); [done|]. case_bool_decide; [|done].
  eapply quiet_stable; [|exact Hd]. by apply quiet_put.
Qed.
Lemma bootstrapTaskStats_triple : triple P bootstrapTaskStats (λ _, P) P.
Proof.
  unfold bootstrapTaskStats. eapply triple_bind; [apply reads_triple, _|]. intros [taskID|e]; [|by apply triple_fail].
  apply triple_guard; [done|]. intros _. eapply triple_bind; [apply Now_triple|]. intros now.
  eapply triple_bind; [apply reads_triple, _|]. intros. by apply triple_ret.
Qed.
Lemma UpdateTaskStats_triple update E : triple P (UpdateTaskStats update) (λ _, P) E.
Proof.
  unfold UpdateTaskStats. eapply triple_bind; [apply total_attempt, reads_triple; unfold loadTaskStats; preserving|].
  intros loaded. eapply (triple_bind _ (λ _, P)).
  { destruct loaded; [by apply triple_ret|]. apply total_attempt, bootstrapTaskStats_triple. }
  intros [stats|e]; [|by apply triple_ret].
  eapply triple_bind; [apply total_attempt, writeTaskStats_triple|]. intros. by apply triple_ret.
Qed.
Lemma AppendTaskLifecycle_triple record : triple P (AppendTaskLifecycle record) (λ _, P) P.
Proof.
  unfold AppendTaskLifecycle. eapply (triple_bind _ (λ _, P)); [|intros; by apply append_triple].
  case_bool_decide; [|by apply triple_ret]. eapply triple_bind; [apply Now_triple|]. intros. by apply triple_ret.
Qed.
Lemma appendTaskStatusLifecycle_triple previous next E : triple P (appendTaskStatusLifecycle previous next) (λ _, P) E.
Proof.
  unfold appendTaskStatusLifecycle. eapply triple_bind; [apply ReadOr_triple|]. intros taskID.
  case_bool_decide; [by apply triple_ret|]. eapply triple_bind; [apply Now_triple|]. intros now.
  eapply triple_bind; [apply total_attempt, AppendTaskLifecycle_triple|]. intros. by apply triple_ret.
Qed.
Lemma RecordModelCallLog_triple value E : triple P (RecordModelCallLog value) (λ _, P) E.
Proof.
  unfold RecordModelCallLog. eapply (triple_bind _ (λ _, P)).
  { case_bool_decide; [|by apply triple_ret].
    eapply triple_bind; [apply total_attempt, NewUUID_triple|]. intros. by apply triple_ret. }
  intros value'. eapply triple_bind; [apply total_attempt; by apply append_triple|]. intros ?.
  unfold recordTokenUsage. case_bool_decide; [apply UpdateTaskStats_triple|by apply triple_ret].
Qed.
Lemma appendParentOutcomeEvent_triple taskID phase kind origin cause resolved E :
  triple P (appendParentOutcomeEvent taskID phase kind origin cause resolved) (λ _, P) E.
Proof.
  unfold appendParentOutcomeEvent. eapply triple_bind; [apply Now_triple|]. intros. apply RecordModelCallLog_triple.
Qed.
(** What happens after a review is closed leaves the state alone. *)
Lemma closing_events kind origin cause taskID resolved E :
  triple P
    (_ ← UpdateTaskStats (λ stats, recordParentOutcome kind origin resolved (stats {{ tk_ParentReviewOpen := None }}));
     _ ← appendParentOutcomeEvent taskID (parentPhaseOfKind kind) kind origin cause resolved; mret true)
    (λ b d, b = true ∧ P d) E.
Proof.
  eapply triple_bind; [apply UpdateTaskStats_triple|]. intros ?.
  eapply triple_bind; [apply appendParentOutcomeEvent_triple|]. intros ?. by apply triple_ret.
Qed.
End Observations.
(** A change of the status is the write of its file. *)
Lemma SetTaskStatus_writes `{JSONLog, JSONText TaskStats persistedStats} (P Q E : Disk → Prop) `{!Quiet Q} status :
  triple P (Write "task.status" status) (λ _, Q) E → triple P (SetTaskStatus status) (λ _, Q) E.
Proof.
  intros Hw. unfold SetTaskStatus. eapply triple_bind; [apply ReadOr_triple|]. intros previous.
  eapply triple_bind; [exact Hw|]. intros ?. eapply triple_bind; [apply UpdateTaskStats_triple, _|]. intros ?.
  case_bool_decide; [by apply triple_ret|]. apply appendTaskStatusLifecycle_triple, _.
Qed.

Section Logic.
Context (R W : gset (list string)) (G : fileMap).
Implicit Types (N : list string) (d : Disk).

Record within N d : Prop := {
  in_readable : unreadable d = R;
  in_writable : unwritable d = W;
  in_power : power d = None;
  in_plain : plain_state (files d);
  in_files p : observation p = false → files d !! p = G !! p ∨ p ∉ W ∧ p ∈ Path <$> N;
}.
Lemma within_mono N N' d : N ⊆ N' → within N d → within N' d.
Proof.
  intros HN []. split; try done. intros p Hp. destruct (in_files0 p Hp) as [?|[? Hin]]; [by left|right].
  split; [done|]. apply list_elem_of_fmap in Hin as (name & -> & ?). apply list_elem_of_fmap. eauto.
Qed.
Lemma within_up N d : within N d → stopped d = false.
Proof. intros []. by apply up_running. Qed.
(** The disk of [d] with other files. *)
Lemma within_files N N' d d' :
  unreadable d' = unreadable d → unwritable d' = unwritable d → power d' = spend d →
  (∀ p, observation p = false → files d' !! p = files d !! p ∨
        p ∉ W ∧ p ∈ Path <$> N' ∧ ∀ doc, files d' !! p = Some doc → ∃ s, doc = text s) →
  N ⊆ N' → within N d → within N' d'.
Proof.
  intros E1 E2 E3 Hch HN Hd. pose proof (within_mono _ N' d HN Hd) as []. split; [congruence..| | |].
  - rewrite E3. unfold spend. by rewrite in_power0.
  - intros name doc Hob Hl. destruct (Hch _ Hob) as [E|(_ & _ & Hs)]; [|by apply Hs].
    rewrite E in Hl. by eapply in_plain0.
  - intros p Hp. destruct (Hch _ Hp) as [E|(? & ? & _)]; [rewrite E; by apply in_files0|by right].
Qed.
Lemma within_put N name s d : Path name ∉ W → within N d → within (name :: N) (put_file (Path name) (text s) d).
Proof.
  intros Hu Hd. apply (within_files N _ d); try done; [|set_solver]. intros q Hq. simpl.
  destruct (decide (Path name = q)) as [<-|]; [right|by left; rewrite lookup_insert_ne].
  rewrite lookup_insert_eq. split; [done|]. split; [set_solver|]. intros doc [= <-]. eauto.
Qed.
Lemma within_delete N name d :
  Path name ∉ W → within N d →
  within (name :: N) (d {{ files := delete (Path name) (files d); power := spend d }}).
Proof.
  intros Hu Hd. apply (within_files N _ d); try done; [|set_solver]. intros q Hq. simpl.
  destruct (decide (Path name = q)) as [<-|]; [right|by left; rewrite lookup_delete_ne].
  rewrite lookup_delete_eq. split; [done|]. split; [set_solver|]. done.
Qed.
(** Observations are not counted. *)
#[export] Instance within_quiet N : Quiet (within N).
Proof.
  intros d d' (E1 & E2 & E3 & Hf) []. split; [congruence..|by apply E3| |].
  - intros name doc Ho. rewrite Hf by done. by apply in_plain0.
  - intros p Hp. rewrite Hf by done. by apply in_files0.
Qed.

(** *** Triples of the store *)
Lemma writeFileAtomic_triple N name data :
  triple (within N) (writeFileAtomic (Path name) data mode600)
    (λ _ d, (Path name ∉ W ∧ files d !! Path name = Some (text data)) ∧ within (name :: N) d) (within N).
Proof.
  unfold writeFileAtomic. eapply triple_bind; [apply MkdirAll_triple, _|]. intros [] d Hd.
  unfold writeJSONAtomic. destruct (_ || _) eqn:Ec; [done|].
  apply orb_false_iff in Ec as [Ec _]. apply bool_decide_eq_false in Ec. rewrite (in_writable _ _ Hd) in Ec.
  case_bool_decide; [|done]. split; [|by apply within_put]. split; [done|]. apply lookup_insert_eq.
Qed.
Lemma RemoveState_triple N name :
  triple (within N) (RemoveState name)
    (λ _ d, (Path name ∉ W ∧ files d !! Path name = None) ∧ within (name :: N) d) (within N).
Proof.
  intros d Hd. unfold RemoveState, mbind, io_bind, attempt, remove_file.
  rewrite (in_writable _ _ Hd), (within_up _ _ Hd), orb_false_r. case_bool_decide as Hu; simpl; [done|].
  case_bool_decide as Hf; simpl.
  - split; [done|]. eapply within_mono; [|done]. set_solver.
  - split; [|by apply within_delete]. split; [done|]. apply lookup_delete_eq.
Qed.

Context `{Unicode, MachineEncoder, ResumeText, GitState, JSONLog}.
Context `{JSONText TaskStats persistedStats, JSONText ParentReviewState Some, JSONText GitSnapshot Some,
          JSONText parentActionBeginRecord Some}.

Lemma Write_triple N name value :
  triple (within N) (Write name value)
    (λ _ d, (Path name ∉ W ∧ files d !! Path name = Some (text (value +:+ newline))) ∧ within (name :: N) d) (within N).
Proof. apply triple_wrap, writeFileAtomic_triple. Qed.
Lemma SetTaskStatus_triple N status :
  triple (within N) (SetTaskStatus status) (λ _, within (statusFile :: N)) (within N).
Proof.
  apply SetTaskStatus_writes; [apply _|]. eapply weaken_triple, Write_triple.
Qed.
Lemma Advance_triple N :
  triple (within N) AdvanceParentEvidenceLease (λ _, within (parentEvidenceLeasePath :: N)) (within N).
Proof.
  apply ledger_lock_triple; [done|].
  unfold advanceParentEvidenceLeaseUnlocked. eapply triple_bind; [apply reads_triple, _|]. intros epoch.
  eapply weaken_triple, writeFileAtomic_triple.
Qed.

(** *** Snapshots and rollback *)
Definition describes (s : lifecycleFileSnapshot) : Prop :=
  observation (Path (sn_name s)) = false →
  G !! Path (sn_name s) = if sn_exists s then Some (text (sn_data s)) else None.
Lemma IsNotExist_ErrNotExist p : IsNotExist (ErrNotExist p) = true.
Proof. reflexivity. Qed.
(** What a read of a file gives. *)
Definition content (p : list string) (d : Disk) : result error string :=
  if bool_decide (p ∈ unreadable d) then Err (err "read failed")
  else match files d !! p with
       | None => Err (ErrNotExist p)
       | Some doc => match of_doc doc with
                     | Some c => Ok (fc_Data c) | None => Err (err "controller JSON does not decode") end
       end.
Lemma ReadFile_eq p d : ReadFile p d = (content p d, d).
Proof.
  unfold ReadFile, content, mbind, io_bind, readJSON. case_bool_decide; [done|].
  destruct (files d !! p) as [doc|]; [|done]. by destruct (of_doc doc).
Qed.
Lemma snapshot_triple N name :
  name ∉ N →
  triple (within N) (snapshotLifecycleFile name) (λ s d, (sn_name s = name ∧ describes s) ∧ within N d) (within N).
Proof.
  intros Hn d Hd. unfold snapshotLifecycleFile, attempt, mbind, io_bind. rewrite ReadFile_eq. unfold content.
  case_bool_decide; [done|].
  assert (observation (Path name) = false → files d !! Path name = G !! Path name) as HG.
  { intros Ho. destruct (in_files _ _ Hd _ Ho) as [?|[_ Hin]]; [done|]. set_solver. }
  destruct (files d !! Path name) as [doc|] eqn:Ef; [destruct (of_doc doc) as [c|] eqn:Ed; simpl; [|done]|].
  - split; [|done]. split; [done|]. intros Ho. simpl in *. rewrite <- HG by done.
    destruct (in_plain _ _ Hd name _ Ho Ef) as [s ->]. by injection Ed as <-.
  - split; [|done]. split; [done|]. intros Ho. simpl in *. by rewrite <- HG.
Qed.
(** Putting a file back: it is as it was, or it was never changed. *)
Lemma within_restored N name d :
  (observation (Path name) = false → files d !! Path name = G !! Path name) →
  within (name :: N) d → within N d.
Proof.
  intros Hn []. split; try done. intros p Hp. destruct (in_files0 p Hp) as [?|[? Hin]]; [by left|].
  rewrite fmap_cons in Hin. apply elem_of_cons in Hin as [->|]; [left; auto|by right].
Qed.
Lemma within_refused N name d : Path name ∈ W → within (name :: N) d → within N d.
Proof.
  intros Hn []. split; try done. intros p Hp. destruct (in_files0 p Hp) as [?|[? Hin]]; [by left|right].
  split; [done|]. rewrite fmap_cons in Hin. by apply elem_of_cons in Hin as [->|].
Qed.
Context (Hroot : [] ∉ W).
(** A write fails only where the environment refuses it. *)
Lemma mkdir_root N : triple (within N) (MkdirAll []) (λ _ d, [] ∈ dirs d ∧ within N d) (λ _, False).
Proof.
  intros d Hd. pose proof (MkdirAll_triple (within N) [] d Hd) as Hm. unfold MkdirAll in *.
  rewrite (in_writable _ _ Hd), (within_up _ _ Hd), bool_decide_false in * by done. split; [set_solver|done].
Qed.
Lemma write_fails N name data :
  triple (within N) (writeFileAtomic (Path name) data mode600) (λ _ _, True) (λ d, Path name ∈ W).
Proof.
  unfold writeFileAtomic. eapply triple_bind; [eapply triple_consequence; [apply (mkdir_root N)|done..]|].
  intros [] d [Hdir Hd]. unfold writeJSONAtomic.
  rewrite (in_writable _ _ Hd), (within_up _ _ Hd), orb_false_r, (bool_decide_true (_ ∈ dirs d)) by done.
  by case_bool_decide.
Qed.
Lemma remove_fails N name : triple (within N) (RemoveState name) (λ _ _, True) (λ d, Path name ∈ W).
Proof.
  intros d Hd. unfold RemoveState, mbind, io_bind, attempt, remove_file.
  rewrite (in_writable _ _ Hd), (within_up _ _ Hd), orb_false_r. case_bool_decide; simpl; [done|].
  by case_bool_decide.
Qed.
Lemma restore_triple N s E :
  describes s → triple (within (sn_name s :: N)) (attempt (restoreLifecycleFile s)) (λ _, within N) E.
Proof.
  intros Hs. eapply triple_consequence;
    [apply (triple_attempt _ _ (λ _, within N) (within N))|done| |done]; [|by intros [] d].
  unfold restoreLifecycleFile. unfold describes in Hs. destruct (sn_exists s); simpl.
  - apply triple_wrap. eapply triple_consequence;
      [eapply triple_and; [apply writeFileAtomic_triple|apply write_fails]|done| |].
    + intros [] d [[[_ Hf] Hd] _]. apply (within_restored _ (sn_name s)); [by intros Ho; rewrite Hs|].
      eapply within_mono; [|done]. set_solver.
    + intros d [Hd Hf]. by eapply within_refused.
  - eapply triple_consequence; [eapply triple_and; [apply RemoveState_triple|apply remove_fails]|done| |].
    + intros [] d [[[_ Hf] Hd] _]. apply (within_restored _ (sn_name s)); [by intros Ho; rewrite Hs|].
      eapply within_mono; [|done]. set_solver.
    + intros d [Hd Hf]. by eapply within_refused.
Qed.
Lemma restoreSnapshots_triple l E :
  Forall describes l → triple (within (sn_name <$> l)) (restoreSnapshots l) (λ _, within []) E.
Proof.
  induction 1 as [|s l Hs _ IH]; simpl; [by apply triple_ret|].
  eapply triple_bind; [by apply restore_triple|]. intros res. eapply triple_bind; [apply IH|].
  intros. by apply triple_ret.
Qed.
Lemma rollback_triple {A} N cause l (Q : A → Disk → Prop) :
  Forall describes l → N ⊆ sn_name <$> l → triple (within N) (rollbackLifecycleFiles cause l) Q (within []).
Proof.
  intros Hl HN. unfold rollbackLifecycleFiles. eapply (triple_bind _ (λ _, within [])); [|intros; by apply triple_fail].
  eapply triple_consequence; [apply (restoreSnapshots_triple (reverse l)); by apply Forall_reverse| |done|done].
  intros d. apply within_mono. intros name Hin. apply HN in Hin. by rewrite fmap_reverse, elem_of_reverse.
Qed.
Lemma or_rollback_triple {A} N N' (m : io A) l Q :
  triple (within N) m Q (within N') → Forall describes l → N' ⊆ sn_name <$> l →
  triple (within N) (or_rollback m l) Q (within []).
Proof.
  intros Hm Hl HN. unfold or_rollback.
  eapply triple_bind; [apply (triple_attempt (within N) m Q (within N') (within []) Hm)|].
  intros [a|e]; [by apply triple_ret|by apply (rollback_triple N')].
Qed.
End Logic.

(** ** Walking through an operation: guards, reads, snapshots and changes *)
Ltac transition_step :=
  match goal with
  | |- triple _ (if _ then fail _ else _) _ _ => apply triple_guard; [by auto|intros ?]
  | |- triple _ (mret _) _ _ => by apply triple_ret
  | |- triple _ (fail _) _ _ => by apply triple_fail
  | |- triple _ (snapshotLifecycleFile _ ≫= _) _ _ =>
      eapply triple_bind; [apply snapshot_triple; set_solver|intros ?; apply triple_pure; intros ?]
  | |- triple _ (io_wrap _ _ ≫= _) _ _ => eapply triple_bind; [apply reads_triple; preserving|intros ?]
  | |- triple _ (_ ≫= _) _ _ => eapply triple_bind; [apply reads_triple; apply _|intros ?]
  end.
Ltac branch := match goal with |- triple _ (if ?c then _ else _) _ _ => destruct c end.
Ltac transition := repeat transition_step.
Ltac doing lem := eapply triple_bind; [lem|intros ?].

(** ** Texts of known records

    A coding of the records of a list, each by its key: enough JSON for the
    concrete runs of the examples. *)
Section Known.
Context {A : Type} (persisted : A → option A) (key : A → string) (known : list A).
Context (key_inj : ∀ a b, a ∈ known → b ∈ known → key a = key b → a = b)
        (key_trim : ∀ a, a ∈ known → TrimSpace (key a) = key a ∧ TrimSpace (key a +:+ newline) = key a).
Definition find_key (s : string) : option A := find (λ a, bool_decide (key a = TrimSpace s)) known ≫= persisted.
Lemma find_key_eq a s : a ∈ known → TrimSpace s = key a → find_key s = persisted a.
Proof.
  intros Ha Hs. unfold find_key. rewrite Hs. destruct (find _ known) as [b|] eqn:E.
  - apply find_some in E as [Hb Hk]. bool_simp. apply list_elem_of_In in Hb. by rewrite (key_inj b a).
  - eapply find_none in E; [|by apply list_elem_of_In]. by rewrite bool_decide_true in E.
Qed.
Definition known_text : JSONText A persisted.
Proof.
  refine {| marshal := key; unmarshal := find_key; clean a := a ∈ known |}.
  - intros a b Ha Hp. rewrite (find_key_eq a); [done|done|]. by apply key_trim.
  - intros a b Ha Hp. rewrite (find_key_eq a); [done|done|]. by apply key_trim.
  - intros a b Ha Hp. rewrite (find_key_eq a); [done|done|]. destruct (key_trim a Ha) as [Ht Hl]. by rewrite Hl.
Defined.
End Known.
