(* ===== verification/ReviewLogic.v ===== *)
(** * Reading the review back

    What the reads of the session state give, as functions of the files, and
    the resolution of an open review: the state it writes reads back as a review
    that is closed. *)
From S2P Require Import Prelude GoStrings GoText ControllerTypes ControllerStore Packet SessionTypes SessionStore ResumeCheckpoint ParentReview Lifecycle SessionLogic.

(** ** Contents *)
Lemma content_Ok p d data : content p d = Ok data → p ∉ unreadable d.
Proof. unfold content. by case_bool_decide. Qed.
Lemma content_text p d s : p ∉ unreadable d → files d !! p = Some (text s) → content p d = Ok s.
Proof. intros Hr Hf. unfold content. by rewrite bool_decide_false, Hf. Qed.
Lemma content_files p d d' :
  unreadable d' = unreadable d → files d' !! p = files d !! p → content p d' = content p d.
Proof. unfold content. by intros -> ->. Qed.
Lemma content_within R W G d d' name :
  within R W G [] d → within R W G [] d' → observation (Path name) = false →
  content (Path name) d' = content (Path name) d.
Proof.
  intros Hd Hd' Ho. apply content_files; [by rewrite (in_readable _ _ _ _ _ Hd), (in_readable _ _ _ _ _ Hd')|].
  destruct (in_files _ _ _ _ _ Hd _ Ho) as [->|[_ ?%elem_of_nil]]; [|done].
  by destruct (in_files _ _ _ _ _ Hd' _ Ho) as [->|[_ ?%elem_of_nil]].
Qed.

Definition trimmed (r : result error string) : result error string :=
  match r with Ok data => Ok (TrimSpace data) | Err e => Err e end.
Lemma Read_eq name d : Read name d = (trimmed (content (Path name) d), d).
Proof. unfold Read, mbind, io_bind. rewrite ReadFile_eq. by destruct (content _ d). Qed.
Definition or_fallback (fallback : string) (r : result error string) : string :=
  match r with
  | Ok data => if bool_decide (TrimSpace data = "") then fallback else TrimSpace data
  | Err _ => fallback
  end.
Lemma ReadOr_eq name fallback d : ReadOr name fallback d = (Ok (or_fallback fallback (content (Path name) d)), d).
Proof. unfold ReadOr, attempt, mbind, io_bind. rewrite Read_eq. by destruct (content _ d). Qed.
Lemma GetTaskStatus_eq d :
  GetTaskStatus d = (Ok (or_fallback TaskStatusNone (content (Path statusFile) d)), d).
Proof. apply ReadOr_eq. Qed.
Definition taskIDFile : string := "task.id".
Lemma TaskID_Ok d id d' :
  TaskID d = (Ok id, d') ↔ id ≠ "" ∧ trimmed (content (Path taskIDFile) d) = Ok id ∧ d' = d.
Proof.
  unfold TaskID, attempt, mbind, io_bind. rewrite Read_eq. fold taskIDFile.
  destruct (trimmed _) as [data|e]; [|naive_solver]. case_bool_decide; simpl; unfold mret, io_ret, fail; naive_solver.
Qed.

(** ** The review *)
Section Review.
Context `{JSONText TaskStats persistedStats, JSONText ParentReviewState Some, JSONText GitSnapshot Some, JSONLog, GitState}.
Definition closedReview (state : ParentReviewState) : ParentReviewState :=
  state {{ rv_Open := None; rv_Review := None; rv_Completion := None }}.
(** A review that was read can be written once it is closed. *)
Definition closes_clean : Prop :=
  ∀ data (state : ParentReviewState), unmarshal data = Some state → clean (closedReview state).

Lemma loadParentReviewState_Ok d state d' :
  loadParentReviewState d = (Ok state, d') ↔
  (∃ data, content (Path parentReviewStateFile) d = Ok data ∧ decodeParentReviewState data = Ok state) ∧
  TaskID d = (Ok (rv_TaskID state), d) ∧ d' = d.
Proof.
  unfold loadParentReviewState, mbind, io_bind. rewrite ReadFile_eq.
  destruct (content _ d) as [data|e]; [|by split; [done|intros ((? & ? & ?) & _)]]. unfold lift.
  destruct (decodeParentReviewState data) as [state'|e] eqn:E; [|by split; [done|intros ((? & [= <-] & ?) & _); congruence]].
  destruct (TaskID d) as [[id|e] d1] eqn:Et; [|by split; [done|intros (_ & ? & _)]].
  apply (preserves_eq _ _ _ _ _) in Et as Ed; subst d1.
  case_bool_decide as Hid; simpl; unfold mret, io_ret, fail; split.
  - intros [= <- <-]. split; [by eexists|]. by rewrite Hid.
  - intros ((? & [= <-] & Ed) & _ & ->). rewrite E in Ed. by injection Ed as ->.
  - done.
  - intros ((? & [= <-] & Ed) & [= Hi] & _). rewrite E in Ed. injection Ed as ->. congruence.
Qed.
Lemma decode_version data state :
  decodeParentReviewState data = Ok state →
  unmarshal data = Some state ∧ rv_Version state = parentReviewStateVersion ∧ rv_TaskID state ≠ "".
Proof.
  unfold decodeParentReviewState. destruct (unmarshal data) as [state'|]; [|done]. intros E. result_inv E.
  bool_simp. naive_solver.
Qed.
Lemma decode_closed data state :
  closes_clean → decodeParentReviewState data = Ok state →
  decodeParentReviewState (marshal (closedReview state) +:+ newline) = Ok (closedReview state).
Proof.
  intros Hc Hd. destruct (decode_version _ _ Hd) as (Hu & Hv & Hi). unfold decodeParentReviewState.
  rewrite (unmarshal_line _ _ (Hc _ _ Hu) eq_refl). clear Hu. destruct state; simpl in *. subst.
  by rewrite (bool_decide_false (_ = "")) by done.
Qed.
Lemma resolution_eq d state open :
  loadParentReviewState d = (Ok state, d) → rv_Open state = Some open →
  parentReviewResolutionState d = (Ok (Some (state, open)), d).
Proof.
  intros Hl Ho. pose proof (proj1 (loadParentReviewState_Ok _ _ _) Hl) as (_ & Ht & _).
  apply TaskID_Ok in Ht as (Hid & Hr & _). unfold parentReviewResolutionState, attempt.
  erewrite io_bind_step by (by rewrite Read_eq). cbn beta. fold taskIDFile. rewrite Hr, bool_decide_false by done.
  erewrite io_bind_step by exact Hl. by rewrite Ho.
Qed.
(** The resolution of an open review, without a completion, is one write. *)
Lemma resolve_eq kind origin cause d state open :
  validateParentOutcomeResolution kind origin cause "" = Ok () →
  loadParentReviewState d = (Ok state, d) → rv_Open state = Some open →
  (kind = ParentOutcomeAccepted → ro_PacketStatus open ≠ StatusNeedsSolDecision) →
  resolveParentReviewState kind origin cause d =
    (_ ← writeParentReviewState (closedReview state); mret (Some open)) d.
Proof.
  intros Hv Hl Ho Hk. unfold resolveParentReviewState, resolveParentReviewStateWithCompletion.
  rewrite Hv. erewrite io_bind_step by reflexivity.
  erewrite io_bind_step by (by eapply resolution_eq). cbn beta iota.
  rewrite pass_guard.
  - by repeat (erewrite io_bind_step by reflexivity).
  - destruct (decide (kind = ParentOutcomeAccepted)) as [E|]; [|by rewrite bool_decide_false].
    rewrite andb_false_iff. right. apply bool_decide_eq_false. by apply Hk.
Qed.
(** The review reads back closed, from a disk with the same task. *)
Lemma load_closed d d' state :
  closes_clean → loadParentReviewState d = (Ok state, d) → TaskID d' = (Ok (rv_TaskID state), d') →
  content (Path parentReviewStateFile) d' = Ok (marshal (closedReview state) +:+ newline) →
  loadParentReviewState d' = (Ok (closedReview state), d').
Proof.
  intros Hc Hl Ht Hf. apply loadParentReviewState_Ok in Hl as ((data & _ & Hd) & _ & _).
  apply loadParentReviewState_Ok. split; [|by split]. eexists. split; [exact Hf|]. by eapply decode_closed.
Qed.
Lemma CurrentParentReview_eq d state :
  loadParentReviewState d = (Ok state, d) → CurrentParentReview d = (Ok (rv_Open state), d).
Proof.
  intros Hl. pose proof (proj1 (loadParentReviewState_Ok _ _ _) Hl) as (_ & Ht & _).
  apply TaskID_Ok in Ht as (Hid & Hr & _). unfold CurrentParentReview, attempt.
  erewrite io_bind_step by (by rewrite Read_eq). cbn beta. fold taskIDFile. rewrite Hr, bool_decide_false by done.
  by erewrite io_bind_step by exact Hl.
Qed.
Lemma CurrentParentReview_inv d open d' :
  CurrentParentReview d = (Ok (Some open), d') → ∃ state, loadParentReviewState d = (Ok state, d) ∧ rv_Open state = Some open.
Proof.
  intros E. unfold CurrentParentReview in E. apply io_bind_Ok in E as (res & d1 & Hr & E).
  apply (proj1 (attempt_Ok _ _ _ _)) in Hr. rewrite Read_eq in Hr. injection Hr as <- <-. fold taskIDFile in E.
  destruct (trimmed _) as [id|e]; [|by destruct (IsNotExist e)]. case_bool_decide; [done|].
  apply io_bind_Ok in E as (state & d2 & Hl & E). apply (preserves_eq _ _ _ _ _) in Hl as Hd2. subst d2.
  exists state. split; [done|]. unfold mret, io_ret in E. by injection E.
Qed.
(** The label of the review is read off the files. *)
Lemma label_inv d label d' :
  CurrentParentReviewLabel d = (Ok label, d') → label ≠ roundCommentNone →
  Exists parentReopenTransactionStateFile d = (Ok false, d) ∧
  ∃ state open, loadParentReviewState d = (Ok state, d) ∧ rv_Open state = Some open ∧ ro_PacketStatus open = label.
Proof.
  intros E Hn. unfold CurrentParentReviewLabel in E. io_inv E.
  apply (preserves_eq _ _ _ _ _) in Ha as Hd0. subst d0.
  destruct a0 as [open|]; [|done].
  apply CurrentParentReview_inv in Ha0 as (state & Hl & Ho). split; [done|]. eauto.
Qed.
Lemma label_closed d state :
  Exists parentReopenTransactionStateFile d = (Ok false, d) → loadParentReviewState d = (Ok state, d) →
  rv_Open state = None → CurrentParentReviewLabel d = (Ok roundCommentNone, d).
Proof.
  intros Ht Hl Ho. unfold CurrentParentReviewLabel. erewrite io_bind_step by exact Ht. cbn beta iota.
  erewrite io_bind_step by (by apply CurrentParentReview_eq). by rewrite Ho.
Qed.
End Review.
