(* ===== verification/SessionExamples.v ===== *)
(** * Concrete session states

    The records and the disks on which the examples of the session state run:
    one task with an open review, an unstopped checkpoint and its stops. *)
From S2P Require Import Prelude GoStrings GoText GoTime ControllerTypes ControllerStore Packet SessionTypes SessionStore ResumeCheckpoint ParentReview Lifecycle SessionLogic ReviewLogic.

(** ** Records *)
Definition exampleTask : string := "task-1".
Definition exampleDigest : SnapshotDigest :=
  {| sd_Head := "head"; sd_IndexDigest := "index"; sd_WorktreeDigest := "tree"; sd_WorktreeDigestExcludingParent := "" |}.
Definition exampleOpen (status : string) : ParentReviewOpenState :=
  {| ro_PacketStatus := status; ro_Role := WorkerRole; ro_ModelAlias := "glm"; ro_Risk := RiskHigh |}.
Definition exampleReview (open : option ParentReviewOpenState) : ParentReviewState :=
  {| rv_Version := parentReviewStateVersion; rv_TaskID := exampleTask; rv_Open := open;
     rv_Review := None; rv_Completion := None |}.
(** The same review, bound to its evidence: one target, covered. *)
Definition exampleTarget : string := "main.go:@diff".
Definition exampleClaim : ParentReviewTargetCoverageClaim :=
  {| tc_Target := exampleTarget;
     tc_Evidence := {| cl_Kind := "diff"; cl_Digest := "digest"; cl_Locator := "@diff" |}; tc_OwnerCallID := "call" |}.
Definition exampleID : string := "01234567-89ab-4def-8123-456789abcdef".
Definition exampleBinding (covered : bool) : ParentReviewBinding := {|
  rb_ID := exampleID;
  rb_PacketSHA256 := "0123456789abcdef0123456789abcdef0123456789abcdef0123456789abcdef";
  rb_Targets := [exampleTarget]; rb_SolQuestion := "is it right?"; rb_Snapshot := exampleDigest;
  rb_Coverage := if covered then Some {| cv_ReviewID := exampleID; cv_Lease := 0; cv_Snapshot := exampleDigest;
                                         cv_Claims := [exampleClaim] |} else None;
  rb_Proof := if covered then Some {| pr_ReviewID := exampleID; pr_OwnerCallID := "call"; pr_Snapshot := exampleDigest;
                                      pr_Claims := [tc_Evidence exampleClaim] |} else None |}.
Definition boundReview (covered : bool) : ParentReviewState :=
  (exampleReview (Some (exampleOpen StatusNeedsSolReview))) {{ rv_Review := Some (exampleBinding covered) }}.
Definition exampleResult : Result := {|
  rs_Status := StatusImplemented; rs_Risk := RiskLow; rs_Summary := "done"; rs_RequirementCoverage := "all";
  rs_Tests := "go test"; rs_Unverified := "nothing"; rs_ParentValidation := ""; rs_ParentValidationWorkingDir := "";
  rs_ParentValidationEvidence := None; rs_Decision := ""; rs_Evidence := ""; rs_Options := "";
  rs_Recommendation := ""; rs_TestObligations := ""; rs_Invariants := ""; rs_TestEvidence := ""; rs_Issues := "";
  rs_ResidualRisk := ""; rs_SolQuestion := ""; rs_Targets := []; rs_Artifacts := []; rs_FailurePathAdvisory := None |}.
Definition exampleCheckpoint : ResumeCheckpoint := {|
  ck_Version := resumeStateVersion; ck_Stage := ResumeStageWorker; ck_Phase := "worker-new"; ck_Role := WorkerRole;
  ck_Model := "glm"; ck_ReadOnly := false; ck_Effort := "high"; ck_Prompt := "do"; ck_OriginalPrompt := "do";
  ck_Request := "request"; ck_Decision := ""; ck_ActivatedRuleFiles := []; ck_DecisionBoundaryApplied := false;
  ck_ExecutionMilestoneID := ""; ck_WorkerResult := None; ck_CompletedResult := None; ck_ReviewNumber := 0;
  ck_AutoFixes := 0; ck_StopKind := ResumeStopNone; ck_ResetAtCST := ""; ck_ResetAtRFC3339 := "";
  ck_ResultCorrection := false; ck_SummaryRecovered := false; ck_ReportOnly := false; ck_EffectiveRisk := "";
  ck_EffectiveRiskSource := ""; ck_ProviderUnavailableClassification := ""; ck_ProviderUnavailableProbes := 0;
  ck_ProviderUnavailableStartedAt := zeroTime; ck_GuardFailure := ""; ck_GuardRefBeforeDigest := "";
  ck_GuardRefAfterDigest := ""; ck_GuardRefChanges := []; ck_GuardRefChangesTruncated := false;
  ck_QualityGateFailure := ""; ck_QualitySurfaceApprovalPending := false;
  ck_QualitySurfaceApprovalActivated := false; ck_StopGitSnapshot := None; ck_StopDirtyFiles := [] |}.
(** A rate limit with a reset time, and a gate failure that keeps the result. *)
Definition rateLimitStop : ResumeCheckpoint :=
  exampleCheckpoint {{ ck_StopKind := ResumeStopRateLimited; ck_ResetAtRFC3339 := "2026-01-02T03:04:05Z" }}.
Definition qualityGateStop : ResumeCheckpoint :=
  exampleCheckpoint {{ ck_StopKind := ResumeStopQualityGate; ck_QualityGateFailure := "lint";
                       ck_CompletedResult := Some exampleResult }}.
Definition approvalCheckpoint : ResumeCheckpoint :=
  exampleCheckpoint {{ ck_QualitySurfaceApprovalPending := true; ck_CompletedResult := Some exampleResult }}.
Definition actionRecord (source : string) (pending : bool) (review : string) : parentActionBeginRecord :=
  {| br_Version := parentActionBeginStateVersion; br_TaskID := exampleTask; br_SourceStatus := source;
     br_Pending := {| bs_Exists := pending; bs_Data := if pending then "1" +:+ newline else "" |};
     br_Review := {| bs_Exists := true; bs_Data := review +:+ newline |} |}.

(** ** Their texts *)
#[export] Instance example_unicode : Unicode := {| unicode_identifier _ := false |}.
#[export] Instance example_encoder : MachineEncoder := {| encodeMachine _ := Ok "" |}.
#[export] Instance example_git : GitState := {| CaptureGitSnapshot _ := Ok {|
  gs_Head := "head"; gs_IndexDigest := "index"; gs_WorktreeDigest := "tree";
  gs_WorktreeDigestExcludingParent := ""; gs_ParentFiles := None |} |}.
#[export] Instance example_log : JSONLog := {| marshalLifecycle _ := "transition"; marshalCallLog _ := "call" |}.
Ltac each_of H := repeat (apply elem_of_cons in H as [->|H]); try by apply elem_of_nil in H.
Ltac known :=
  [> intros a b Ha Hb Hk; each_of Ha; each_of Hb; done || discriminate Hk
   | intros a Ha; each_of Ha; split; vm_compute; reflexivity ].
#[export] Instance example_stats : JSONText TaskStats persistedStats.
Proof. refine (known_text _ (λ _, "stats") [] _ _); known. Defined.
#[export] Instance example_snapshot : JSONText GitSnapshot Some.
Proof. refine (known_text _ (λ _, "snapshot") [] _ _); known. Defined.
Definition reviewKey (state : ParentReviewState) : string :=
  match rv_Review state with
  | Some binding => if bool_decide (is_Some (rb_Coverage binding)) then "covered" else "bound"
  | None => match rv_Open state with Some open => ro_PacketStatus open | None => "closed" end
  end.
Definition exampleReviews : list ParentReviewState :=
  [exampleReview None; exampleReview (Some (exampleOpen StatusNeedsSolReview));
   exampleReview (Some (exampleOpen StatusNeedsSolDecision)); boundReview false; boundReview true].
#[export] Instance example_reviews : JSONText ParentReviewState Some.
Proof. refine (known_text _ reviewKey exampleReviews _ _); unfold exampleReviews; known. Defined.
Lemma example_closes : closes_clean.
Proof.
  intros data state E. assert (state ∈ exampleReviews) as Hs.
  { simpl in E. unfold find_key in E. destruct (find _ exampleReviews) as [b|] eqn:Ef; [|done].
    injection E as <-. apply find_some in Ef as [Hb _]. by apply list_elem_of_In. }
  unfold exampleReviews in Hs. each_of Hs; left.
Qed.
Definition exampleRecords : list parentActionBeginRecord :=
  [actionRecord TaskStatusWaitingDecision true StatusNeedsSolDecision;
   actionRecord TaskStatusWaitingSolReview false StatusNeedsSolReview].
#[export] Instance example_records : JSONText parentActionBeginRecord Some.
Proof. refine (known_text _ br_SourceStatus exampleRecords _ _); unfold exampleRecords; known. Defined.
Definition checkpointKey (c : ResumeCheckpoint) : string :=
  ck_StopKind c +:+ "/" +:+ if ck_QualitySurfaceApprovalPending c then "approval" else "work".
Definition exampleCheckpoints : list ResumeCheckpoint :=
  [exampleCheckpoint; rateLimitStop; qualityGateStop; approvalCheckpoint].
Definition example_checkpoints : JSONText ResumeCheckpoint persistedCheckpoint.
Proof. refine (known_text _ checkpointKey exampleCheckpoints _ _); unfold exampleCheckpoints; known. Defined.
#[export] Instance example_resume : ResumeText.
Proof.
  refine {| resume_json := example_checkpoints; explicitKeys _ := Some (true, true); persistedKeys _ := Some ∅ |}.
  - done.
  - intros c _. exists ∅. set_solver.
Defined.

(** ** Disks *)
Definition stateFile (file : string * string) : list string * Doc := (Path file.1, text (file.2 +:+ newline)).
Definition stateFiles (status : string) (state : list (string * string)) : gmap (list string) Doc :=
  list_to_map (stateFile <$> ("task.id", exampleTask) :: (statusFile, status) :: state).
Definition stateDisk (status : string) (state : list (string * string)) (refused : list string) : Disk := {|
  files := stateFiles status state; dirs := ∅; unreadable := ∅; unwritable := list_to_set (Path <$> refused);
  power := None; clock n := Z.of_nat n; ticks := 0; random _ := None; draws := 0 |}.
Lemma stateFiles_plain status state : plain_state (stateFiles status state).
Proof.
  intros name doc _ Hl. apply elem_of_list_to_map_2 in Hl.
  apply list_elem_of_fmap in Hl as (file & [= _ ->] & _). eauto.
Qed.
