(* ===== verification/PacketRules.v ===== *)
(** * The rules of result packets

    What the validation of [Packet] accepts, as a predicate on results, and what
    it reports of those it refuses. *)
From S2P Require Import Prelude GoStrings GoText ControllerTypes ControllerStore Packet SessionTypes SessionStore.
From S2P Require Import SessionExamples.

(** ** The collector

    A collector keeps up to sixteen distinct reasons, each with its key, and the
    category of the first. *)
Record collecting (c : constraintCollector) : Prop := {
  cw_keys : length (cc_keys c) = length (cc_reasons c);
  cw_named : Forall (λ key, key ≠ "") (cc_keys c);
  cw_distinct : NoDup (cc_reasons c);
  cw_seen : cc_reasons c ⊆ cc_seen c;
  cw_bound : length (cc_reasons c) ≤ maxConstraintReasons;
  cw_started : cc_reasons c = [] → cc_seen c = [];
  cw_category : cc_category c = match cc_keys c with [] => "" | key :: _ => rejectCategoryForKey key end;
  cw_omitted : cc_omitted c ≠ 0 → length (cc_reasons c) = maxConstraintReasons;
}.
(** A report of violations. *)
Definition omission (n : nat) : error := Errorf "ほか%d件の独立した違反があります" [AInt n].
Definition reported (e : packetError) : Prop :=
  match e with
  | mismatchError _ => False
  | constraintError display reasons keys category =>
      0 < length reasons ≤ maxConstraintReasons ∧ NoDup reasons ∧ length keys = length reasons ∧
      Forall (λ key, key ≠ "") keys ∧ (∃ key, head keys = Some key ∧ category = rejectCategoryForKey key) ∧
      (display = reasons ∨ ∃ n, 0 < n ∧ length reasons = maxConstraintReasons ∧ display = reasons ++ [omission n])
  end.
(** A check reports violations, or accepts. *)
Definition reports {A} (r : result packetError A) : Prop := match r with Ok _ => True | Err e => reported e end.

Lemma category_named key : rejectCategoryForKey key ≠ "".
Proof. unfold rejectCategoryForKey. by repeat case_match. Qed.
Lemma collecting_new : collecting newConstraintCollector.
Proof. split; simpl; try done; try lia; constructor. Qed.
Lemma addReason_collecting key reason c :
  key ≠ "" → collecting c → collecting (addReason key reason c) ∧ cc_reasons (addReason key reason c) ≠ [].
Proof.
  intros Hk [Hlen Hnamed Hd Hs Hb Hst Hc Ho]. unfold addReason. rewrite (bool_decide_false _ Hk). simpl.
  case_bool_decide as Hin.
  { split; [by split|]. intros Hn. rewrite (Hst Hn) in Hin. by apply elem_of_nil in Hin. }
  destruct c as [reasons keys seen omitted category]. simpl in *.
  assert (category = "" ↔ keys = []) as Hcat.
  { rewrite Hc. destruct keys; [done|]. split; [|done]. by intros ?%category_named. }
  assert (maxConstraintReasons ≤ length reasons → reasons ≠ []) as Hfull
    by (unfold maxConstraintReasons; intros Hf ->; simpl in Hf; lia).
  set (category' := if bool_decide (category = "") then rejectCategoryForKey key else category).
  assert (category' = match keys ++ [key] with [] => "" | key :: _ => rejectCategoryForKey key end) as Hcat'.
  { unfold category'. case_bool_decide as Hn; [by rewrite (proj1 Hcat Hn)|]. rewrite Hc. destruct keys; [naive_solver|done]. }
  assert (category ≠ "" → category' = category) as Hsame by (intros; unfold category'; by rewrite bool_decide_false).
  match goal with |- collecting ?c ∧ _ =>
    replace c with (if bool_decide (maxConstraintReasons ≤ length reasons)
                    then Build_constraintCollector reasons keys (reason :: seen) (S omitted) category'
                    else Build_constraintCollector (reasons ++ [reason]) (keys ++ [key]) (reason :: seen) omitted category')
      by (unfold category'; by repeat case_bool_decide) end.
  case_bool_decide as Hf.
  - assert (keys ≠ []) as Hkeys by (intros ->; apply (Hfull Hf); by destruct reasons).
    split; [|by apply Hfull]. rewrite Hsame by naive_solver.
    split; simpl; try done; [set_solver|by intros ?%Hfull|unfold maxConstraintReasons in *; lia].
  - split; [|by destruct reasons]. split; simpl; rewrite ?length_app; simpl; try done; try lia.
    + apply Forall_app. split; [done|by repeat constructor].
    + apply NoDup_app. split; [done|]. split; [|apply NoDup_singleton]. intros x Hx ->%list_elem_of_singleton. set_solver.
    + set_solver.
    + by destruct reasons.
Qed.

Lemma collected_ok c : collected c = Ok () ↔ cc_reasons c = [].
Proof. unfold collected. case_bool_decide; naive_solver. Qed.
Lemma collected_reports c : collecting c → reports (collected c).
Proof.
  intros [Hlen Hnamed Hd _ Hb _ Hc Ho]. unfold collected. case_bool_decide as Hn; [done|]. simpl.
  destruct (cc_reasons c) as [|reason reasons] eqn:Hr; [done|]. destruct (cc_keys c) as [|key keys] eqn:Hk; [done|].
  repeat split; try done; simpl in *; try lia; [by eexists|].
  case_bool_decide as H0; [left; by rewrite app_nil_r|right]. exists (cc_omitted c). repeat split; [lia|by apply Ho].
Qed.
Lemma violation_reports key reason : key ≠ "" → reports (violation key reason).
Proof.
  intros Hk. repeat split; simpl; try lia; [unfold maxConstraintReasons; lia|apply NoDup_singleton|by repeat constructor|by eexists|by left].
Qed.
Lemma addReasons_collecting l c :
  Forall (λ kr : string * error, kr.1 ≠ "") l → collecting c →
  collecting (foldl (λ c '(key, reason), addReason key reason c) c l) ∧
  (cc_reasons (foldl (λ c '(key, reason), addReason key reason c) c l) = [] ↔ cc_reasons c = [] ∧ l = []).
Proof.
  revert c. induction l as [|[key reason] l IH]; intros c Hl Hc; simpl; [naive_solver|].
  apply Forall_cons in Hl as [Hk Hl]. destruct (addReason_collecting key reason c Hk Hc) as [Hc' Hne].
  destruct (IH _ Hl Hc') as [? ->]. naive_solver.
Qed.
(** Adding a check goes through, and leaves nothing collected exactly if
    nothing was and the check accepts. *)
Lemma add_collecting {A} c (r : result packetError A) :
  reports r → collecting c → ∃ c', add c r = Ok c' ∧ collecting c' ∧ (cc_reasons c' = [] ↔ cc_reasons c = [] ∧ is_ok r = true).
Proof.
  intros Hr Hc. destruct r as [a|[reason|display reasons keys category]]; [exists c; naive_solver|done|].
  destruct Hr as (Hlen & Hd & Hkeys & Hnamed & _ & _). unfold add, ConstraintReasons, ConstraintViolationKeys. cbv zeta.
  rewrite (bool_decide_false (reasons = [])) by (intros ->; simpl in Hlen; lia).
  rewrite (bool_decide_false (length reasons = 0)), (bool_decide_true (length keys = length reasons)) by lia. simpl. eexists. split; [reflexivity|].
  assert (Forall (λ kr : string * error, kr.1 ≠ "") (zip keys reasons)) as Hz.
  { apply Forall_forall. intros [k x] Hin%elem_of_zip_l. rewrite Forall_forall in Hnamed. by apply Hnamed. }
  destruct (addReasons_collecting _ c Hz Hc) as [Hc' ->]. split; [done|].
  destruct keys, reasons; naive_solver lia.
Qed.

(** ** What a result must be *)
Section Rules.
Context `{Unicode, MachineEncoder}.
Implicit Types r : Result.

Definition single_line (s : string) : Prop := has_line_break s = false ∧ String.length s ≤ MaxFieldBytes.
Definition field_given r (field : machineField) : Prop :=
  ∃ value, machineFieldValue r field = Some value ∧ TrimSpace value ≠ "" ∧ single_line value.
(** The status and the risk that goes with it. *)
Definition risk_allowed r (contract : machineContract) : Prop :=
  rs_Status r ∈ mc_statuses contract ∧
  ∃ statusContract, packetStatusContracts (rs_Status r) = Some statusContract ∧ rs_Risk r ∈ sc_risks statusContract.
(** One target: [none] in lower case, the report itself for a correction of the
    report, or a place in the repository. *)
Definition target_given r (element : string) : Prop :=
  let trimmed := TrimSpace element in
  trimmed ≠ "" ∧
  (EqualFold trimmed noneTargetsSentinel = true → element = noneTargetsSentinel) ∧
  (EqualFold trimmed ReportOnlyTargets = true → IsReportOnlyFix r = true) ∧
  (rs_Status r = StatusNeedsSolReview → is_ok (Parse trimmed) = true).
Definition targets_given r : Prop :=
  (rs_Targets r = [] → rs_Status r = StatusImplemented) ∧
  NoDup (TrimSpace <$> rs_Targets r) ∧ Forall (target_given r) (rs_Targets r) ∧
  (noneTargetsSentinel ∈ rs_Targets r → rs_Targets r = [noneTargetsSentinel]).
(** What every role asks of a result. *)
Record acceptable (contract : machineContract) r : Prop := {
  ac_risk : risk_allowed r contract;
  ac_advisory : rs_FailurePathAdvisory r = None;
  ac_fields : Forall (field_given r) (resultFieldsForStatus (rs_Status r));
  ac_elements : Forall single_line (rs_Targets r ++ rs_Artifacts r);
  ac_size : ByteSize r ≤ MaxPacketBytes;
  ac_targets : targets_given r;
}.
(** The worker may ask the parent to run one of two known checks, in a directory
    of the repository; the evidence is not its to give. *)
Definition validation_requested r : Prop :=
  rs_ParentValidationEvidence r = None ∧
  (rs_ParentValidation r = "" ∧ rs_ParentValidationWorkingDir r = "" ∨
   rs_Status r = StatusImplemented ∧
   (rs_ParentValidation r = ParentValidationGoTest ∨ rs_ParentValidation r = ParentValidationGoTestRace) ∧
   let dir := rs_ParentValidationWorkingDir r in
   dir ≠ "" ∧ IsAbs dir = false ∧ Contains dir "\" = false ∧ Clean dir = dir ∧ dir ≠ ".." ∧ HasPrefix dir "../" = false).
Definition no_validation r : Prop :=
  rs_ParentValidation r = "" ∧ rs_ParentValidationWorkingDir r = "" ∧ rs_ParentValidationEvidence r = None.

(** ** Fields *)
Lemma addReason_if (b : bool) key reason c :
  key ≠ "" → collecting c →
  collecting (if b then addReason key reason c else c) ∧
  (cc_reasons (if b then addReason key reason c else c) = [] ↔ cc_reasons c = [] ∧ b = false).
Proof. intros Hk Hc. destruct b; [|naive_solver]. destruct (addReason_collecting key reason c Hk Hc). naive_solver. Qed.
Lemma named prefix field : String.append (String prefix "") (field_name field) ≠ "".
Proof. done. Qed.
Lemma fieldReasons_collecting r field c :
  is_Some (machineFieldValue r field) → collecting c →
  ∃ c', fieldReasons r field c = Ok c' ∧ collecting c' ∧ (cc_reasons c' = [] ↔ cc_reasons c = [] ∧ field_given r field).
Proof.
  intros [value Hv] Hc. unfold fieldReasons, field_given, single_line. rewrite Hv. eexists. split; [reflexivity|].
  case_bool_decide as Hb.
  { destruct (addReason_collecting ("missing-field:" +:+ field_name field)
      (Errorf "結果に必須field %sがありません" [AStr (field_name field)]) c) as [Hc' Hne]; [done..|].
    split; [done|]. naive_solver. }
  cbv zeta.
  edestruct (addReason_if (has_line_break value) ("multiline-field:" +:+ field_name field)) as [Hc1 E1]; [done|exact Hc|].
  edestruct (addReason_if (bool_decide (MaxFieldBytes < String.length value)) ("field-size:" +:+ field_name field))
    as [Hc2 E2]; [done|exact Hc1|].
  split; [exact Hc2|]. rewrite E2, E1, bool_decide_eq_false. naive_solver lia.
Qed.
Lemma fieldsReasons_collecting r fields c :
  Forall (λ field, is_Some (machineFieldValue r field)) fields → collecting c →
  ∃ c', fieldsReasons r fields c = Ok c' ∧ collecting c' ∧
    (cc_reasons c' = [] ↔ cc_reasons c = [] ∧ Forall (field_given r) fields).
Proof.
  revert c. induction fields as [|field fields IH]; intros c Hf Hc.
  { exists c. split; [done|]. split; [done|]. rewrite Forall_nil. naive_solver. }
  apply Forall_cons in Hf as [Hf Hfs].
  destruct (fieldReasons_collecting r field c Hf Hc) as (c1 & E1 & Hc1 & H1).
  destruct (IH c1 Hfs Hc1) as (c2 & E2 & Hc2 & H2). exists c2. simpl. rewrite E1. simpl. split; [done|].
  split; [done|]. rewrite H2, H1, Forall_cons. tauto.
Qed.
Lemma elementReasons_collecting l c :
  collecting c → collecting (foldl elementReasons c l) ∧
    (cc_reasons (foldl elementReasons c l) = [] ↔ cc_reasons c = [] ∧ Forall single_line l).
Proof.
  revert c. induction l as [|value l IH]; intros c Hc; simpl; [rewrite Forall_nil; naive_solver|].
  assert (collecting (elementReasons c value) ∧
    (cc_reasons (elementReasons c value) = [] ↔ cc_reasons c = [] ∧ single_line value)) as [Hc1 E1].
  { unfold elementReasons, single_line. cbv zeta.
    edestruct (addReason_if (has_line_break value) "list-element-multiline") as [Hc1 E1]; [done|exact Hc|].
    edestruct (addReason_if (bool_decide (MaxFieldBytes < String.length value)) "list-element-size")
      as [Hc2 E2]; [done|exact Hc1|].
    split; [exact Hc2|]. rewrite E2, E1, bool_decide_eq_false. naive_solver lia. }
  destruct (IH _ Hc1) as [Hc2 E2]. split; [done|]. rewrite E2, E1, Forall_cons. tauto.
Qed.
Lemma fields_owned r status : Forall (λ field, is_Some (machineFieldValue r field)) (resultFieldsForStatus status).
Proof. unfold resultFieldsForStatus, packetStatusContracts. repeat case_bool_decide; repeat (constructor; [by eexists|]); constructor. Qed.
Lemma validateFields_spec r fields :
  Forall (λ field, is_Some (machineFieldValue r field)) fields →
  reports (validateFields r fields) ∧
  (validateFields r fields = Ok () ↔
   Forall (field_given r) fields ∧ Forall single_line (rs_Targets r ++ rs_Artifacts r) ∧ ByteSize r ≤ MaxPacketBytes).
Proof.
  intros Hf. destruct (fieldsReasons_collecting r fields _ Hf collecting_new) as (c1 & E1 & Hc1 & H1).
  unfold validateFields. rewrite E1. cbn [mbind result_bind]. cbv zeta.
  destruct (elementReasons_collecting (rs_Targets r ++ rs_Artifacts r) c1 Hc1) as [Hc2 H2].
  edestruct (addReason_if (bool_decide (MaxPacketBytes < ByteSize r)) "packet-size") as [Hc3 H3]; [done|exact Hc2|].
  split; [by apply collected_reports|]. rewrite collected_ok, H3, H2, H1, bool_decide_eq_false. simpl. naive_solver lia.
Qed.
(** ** Targets *)
(** One element by itself, given that it is one of the targets. *)
Definition element_given r (element : string) : Prop :=
  let trimmed := TrimSpace element in
  trimmed ≠ "" ∧
  (EqualFold trimmed noneTargetsSentinel = true → element = noneTargetsSentinel) ∧
  (EqualFold trimmed noneTargetsSentinel = false →
     (EqualFold trimmed ReportOnlyTargets = true → IsReportOnlyFix r = true) ∧
     (rs_Status r = StatusNeedsSolReview → is_ok (Parse trimmed) = true)).
Lemma report_only r element :
  element ∈ rs_Targets r →
  IsReportOnlyFix r = bool_decide (rs_Status r = StatusFixRequired) && bool_decide (element = ReportOnlyTargets) &&
                      bool_decide (length (rs_Targets r) = 1).
Proof.
  intros Hin. unfold IsReportOnlyFix. destruct (bool_decide (rs_Status r = _)); [|done]. simpl.
  apply Bool.eq_iff_eq_true. rewrite andb_true_iff, !bool_decide_eq_true.
  destruct (rs_Targets r) as [|x [|y l]]; simpl; [by apply elem_of_nil in Hin| |].
  - apply list_elem_of_singleton in Hin as ->. naive_solver.
  - split; [done|]. intros [_ Hl]. lia.
Qed.
Lemma element_spec r element seen :
  element ∈ rs_Targets r →
  let verdict := (validateTargetElement r element seen).1 in
  reports verdict ∧ (is_ok verdict = true ↔ element_given r element ∧ TrimSpace element ∉ seen) ∧
  (is_ok verdict = true → (validateTargetElement r element seen).2 = TrimSpace element :: seen ∧
     verdict = Ok (bool_decide (element = noneTargetsSentinel))).
Proof.
  intros Hin. unfold element_given, validateTargetElement. cbv zeta. set (trimmed := TrimSpace element).
  assert (∀ key reason, key ≠ "" → reports (Err (A := bool) (newConstraintError key reason))) as Hv.
  { intros key reason Hk. exact (violation_reports key reason Hk). }
  case_bool_decide as Hblank; [simpl; split; [by apply Hv|naive_solver]|].
  case_bool_decide as Hseen; [simpl; split; [by apply Hv|naive_solver]|].
  destruct (EqualFold trimmed noneTargetsSentinel) eqn:Hnone.
  { case_bool_decide; simpl; (split; [try done; by apply Hv|naive_solver]). }
  assert (element ≠ noneTargetsSentinel) as Hne by (intros ->; by vm_compute in Hnone).
  rewrite (bool_decide_false (element = noneTargetsSentinel)) by done.
  pose proof (report_only r element Hin) as Hro.
  destruct (EqualFold trimmed ReportOnlyTargets) eqn:Hpacket; cbn [andb].
  - rewrite <-!negb_andb, <-Hro. destruct (IsReportOnlyFix r) eqn:Hfix; simpl.
    + assert (rs_Status r = StatusFixRequired) as Hs.
      { unfold IsReportOnlyFix in Hfix. apply andb_true_iff in Hfix as [?%bool_decide_eq_true _]. done. }
      rewrite (bool_decide_false (rs_Status r = StatusNeedsSolReview)) by by rewrite Hs.
      simpl. rewrite Hs. naive_solver.
    + split; [by apply Hv|]. naive_solver.
  - clear Hro. case_bool_decide as Hr; simpl; [|split; [done|naive_solver]].
    destruct (is_ok (Parse trimmed)) eqn:Hp; simpl; (split; [try done; by apply Hv|naive_solver]).
Qed.
Lemma targetsLoop_spec r l seen none c :
  l ⊆ rs_Targets r → collecting c →
  ∃ c' none', targetsLoop r l seen none c = Ok (c', none') ∧ collecting c' ∧
    (cc_reasons c' = [] ↔ cc_reasons c = [] ∧ NoDup (TrimSpace <$> l) ∧
       Forall (λ element, element_given r element ∧ TrimSpace element ∉ seen) l) ∧
    (cc_reasons c' = [] → none' = none || bool_decide (noneTargetsSentinel ∈ l)).
Proof.
  revert seen none c. induction l as [|element l IH]; intros seen none c Hl Hc.
  { exists c, none. simpl. rewrite Forall_nil, orb_false_r. split; [done|]. split; [done|].
    split; [|done]. split; [|by intros [? _]]. intros ->. split; [done|]. split; [constructor|done]. }
  assert (element ∈ rs_Targets r) as Hin by set_solver.
  destruct (element_spec r element seen Hin) as (Hrep & Hok & Hnext). cbn [targetsLoop].
  destruct (validateTargetElement r element seen) as [verdict seen'] eqn:Ev. cbn [fst snd] in *.
  destruct (add_collecting c verdict Hrep Hc) as (c1 & E1 & Hc1 & H1).
  destruct (IH seen' (none || match verdict with Ok b => b | Err _ => false end) c1) as (c2 & none2 & E2 & Hc2 & H2 & Hn2);
    [set_solver|done|].
  exists c2, none2. rewrite E1. cbn [mbind result_bind]. split; [exact E2|]. split; [done|].
  destruct (is_ok verdict) eqn:Hverdict.
  - destruct (Hnext eq_refl) as [-> ->]. rewrite H2, H1, Forall_cons, fmap_cons, NoDup_cons. split.
    + split.
      * intros ((Hr & _) & Hd & Hf). rewrite Forall_forall in Hf. split; [done|]. split; [split; [|done]|split; [by apply Hok|]].
        { intros (x & Hx & Hxl)%list_elem_of_fmap. destruct (Hf x Hxl) as [_ Hns]. apply Hns. rewrite Hx. set_solver. }
        { apply Forall_forall. intros x Hx. destruct (Hf x Hx). set_solver. }
      * intros (Hr & [Hnd Hd] & He & Hf). split; [done|]. split; [done|]. rewrite Forall_forall in Hf.
        apply Forall_forall. intros x Hx. destruct (Hf x Hx) as [? ?]. split; [done|]. intros [Heq|?]%elem_of_cons; [|done].
        apply Hnd. rewrite <-Heq. by apply list_elem_of_fmap_2.
    + intros Hr2. rewrite Hn2 by (apply H2; by rewrite H1). rewrite <-orb_assoc. f_equal. apply Bool.eq_iff_eq_true.
      rewrite orb_true_iff, !bool_decide_eq_true, elem_of_cons. naive_solver.
  - rewrite H2, H1, Forall_cons. split; [|by intros [[_ ?] _]].
    split; [by intros [[_ ?] _]|]. intros (_ & _ & [He Hs] & _). discriminate (proj2 Hok (conj He Hs)).
Qed.
Lemma none_spec r none :
  reports (validateNoneTarget r none) ∧
  (validateNoneTarget r none = Ok () ↔ (none = true → length (rs_Targets r) ≤ 1 ∧ rs_Status r ≠ StatusNeedsSolReview)).
Proof.
  unfold validateNoneTarget. destruct none; simpl; [|naive_solver].
  repeat case_bool_decide; (split; [try done; by apply violation_reports|naive_solver lia]).
Qed.
Lemma is_ok_unit (x : result packetError unit) : is_ok x = true ↔ x = Ok ().
Proof. destruct x as [[]|]; naive_solver. Qed.
Lemma validateTargets_spec r :
  reports (validateTargets r) ∧ (validateTargets r = Ok () ↔ targets_given r).
Proof.
  unfold validateTargets. destruct (rs_Targets r) as [|element l] eqn:Ht.
  { simpl. case_bool_decide as Hs; (split; [try done; by apply violation_reports|]).
    - unfold targets_given. rewrite Ht. split; [|done]. intros _. split; [done|]. split; [constructor|].
      split; [constructor|]. by intros ?%elem_of_nil.
    - split; [done|]. unfold targets_given. rewrite Ht. naive_solver. }
  rewrite <-Ht. rewrite bool_decide_false by by rewrite Ht.
  destruct (targetsLoop_spec r (rs_Targets r) [] false newConstraintCollector) as (c1 & none & E1 & Hc1 & H1 & Hn);
    [done|apply collecting_new|].
  rewrite E1. simpl. destruct (none_spec r none) as [Hrep Hnone].
  destruct (add_collecting c1 _ Hrep Hc1) as (c2 & E2 & Hc2 & H2). rewrite E2. simpl.
  split; [by apply collected_reports|]. rewrite collected_ok, H2, is_ok_unit, Hnone, H1. simpl.
  unfold targets_given. split.
  - intros ((_ & Hd & Hf) & Hlen). specialize (Hn ltac:(apply H1; by split)). simpl in Hn.
    rewrite Hn, bool_decide_eq_true in Hlen. split; [by rewrite Ht|]. split; [done|].
    rewrite Forall_forall in Hf. split.
    + apply Forall_forall. intros x Hx. destruct (Hf x Hx) as [(Hb & Hnone' & Hother) _]. split; [done|]. split; [done|].
      destruct (EqualFold (TrimSpace x) noneTargetsSentinel) eqn:Hfold; [|naive_solver].
      rewrite (Hnone' eq_refl) in Hx. destruct (Hlen Hx) as [_ Hs]. rewrite (Hnone' eq_refl). split; [done|]. by intros.
    + intros Hx. destruct (Hlen Hx) as [Hl _]. rewrite Ht in *. destruct l; [|simpl in Hl; lia].
      by apply list_elem_of_singleton in Hx as ->.
  - intros (_ & Hd & Hf & Hnone'). rewrite Forall_forall in Hf.
    assert (Forall (λ x, element_given r x ∧ TrimSpace x ∉ []) (rs_Targets r)) as Hf'.
    { apply Forall_forall. intros x Hx. destruct (Hf x Hx) as (? & ? & ? & ?).
      split; [by repeat split|]. by intros ?%elem_of_nil. }
    split; [done|]. rewrite Hn by (apply H1; by split). simpl. rewrite bool_decide_eq_true. intros Hx.
    specialize (Hnone' Hx). rewrite Hnone'. split; [done|]. intros Hs.
    destruct (Hf _ Hx) as (_ & _ & _ & Hp). specialize (Hp Hs). by vm_compute in Hp.
Qed.

(** ** Results *)
Lemma risk_spec r contract :
  Forall (λ status, is_Some (packetStatusContracts status)) (mc_statuses contract) →
  match validateMachineStatusRisk r contract with
  | Err (mismatchError _) => rs_Status r ∉ mc_statuses contract
  | verdict => rs_Status r ∈ mc_statuses contract ∧ reports verdict ∧ (is_ok verdict = true ↔ risk_allowed r contract)
  end.
Proof.
  intros Hc. unfold validateMachineStatusRisk, risk_allowed.
  assert (∀ l x, existsb (λ allowed, bool_decide (x = allowed)) l = true ↔ (x : string) ∈ l) as Hin.
  { intros l x. rewrite existsb_exists. setoid_rewrite bool_decide_eq_true. rewrite list_elem_of_In. naive_solver. }
  destruct (machineContractAllowsStatus contract (rs_Status r)) eqn:Hs; simpl; [|intros Hs'%Hin; unfold machineContractAllowsStatus in Hs; by rewrite Hs' in Hs].
  apply Hin in Hs. rewrite Forall_forall in Hc. destruct (Hc _ Hs) as [statusContract Hsc]. rewrite Hsc.
  destruct (statusAllowsRisk statusContract (rs_Risk r)) eqn:Hr.
  - apply Hin in Hr. split; [done|]. split; [done|]. naive_solver.
  - split; [done|]. split; [by apply violation_reports|]. simpl. split; [done|].
    intros [_ (? & [= <-] & Hr'%Hin)]. unfold statusAllowsRisk in Hr. by rewrite Hr' in Hr.
Qed.
Lemma advisory_spec r :
  reports (validateFailurePathAdvisoryField r) ∧
  (is_ok (validateFailurePathAdvisoryField r) = true ↔ rs_FailurePathAdvisory r = None).
Proof.
  unfold validateFailurePathAdvisoryField. case_bool_decide; (split; [try done; by apply violation_reports|naive_solver]).
Qed.
Lemma worker_spec r :
  reports (validateParentValidation r) ∧ (is_ok (validateParentValidation r) = true ↔ validation_requested r).
Proof.
  unfold validateParentValidation, validateParentValidationWorkingDir, validParentValidationForm, validation_requested.
  cbv zeta. set (dir := rs_ParentValidationWorkingDir r). set (form := rs_ParentValidation r).
  destruct (decide (rs_ParentValidationEvidence r = None)) as [He|He];
    [rewrite (bool_decide_true _ He)|rewrite (bool_decide_false _ He)]; simpl;
    [|split; [by apply violation_reports|naive_solver]].
  destruct (decide (form = "")) as [Hf|Hf]; [rewrite (bool_decide_true _ Hf)|rewrite (bool_decide_false _ Hf)];
    (destruct (decide (dir = "")) as [Hd|Hd]; [rewrite (bool_decide_true _ Hd)|rewrite (bool_decide_false _ Hd)]);
    simpl; [split; [done|naive_solver]|..];
    (case_bool_decide as Hs; simpl; [|split; [by apply violation_reports|naive_solver]]).
  all: try (split; [by apply violation_reports|]; split; [done|]; rewrite ?Hf; naive_solver).
  case_bool_decide as Hform; simpl; [|split; [by apply violation_reports|naive_solver]].
  destruct (IsAbs dir), (Contains dir "\"), (HasPrefix dir "../"); simpl; repeat case_bool_decide; simpl;
    (split; [try done; by apply violation_reports|naive_solver]).
Qed.
Lemma reviewer_spec r :
  reports (validateReviewerParentValidation r) ∧
  (is_ok (validateReviewerParentValidation r) = true ↔ no_validation r).
Proof.
  unfold validateReviewerParentValidation, no_validation.
  repeat case_bool_decide; simpl; (split; [try done; by apply violation_reports|naive_solver]).
Qed.
(** A run of independent checks reports, and accepts exactly if each accepts. *)
Fixpoint collect (c : constraintCollector) (checks : list (result packetError unit)) :
    result packetError constraintCollector :=
  match checks with
  | [] => Ok c
  | check :: checks => c ← add c check; collect c checks
  end.
Lemma collect_spec checks c :
  Forall reports checks → collecting c →
  ∃ c', collect c checks = Ok c' ∧ collecting c' ∧
    (cc_reasons c' = [] ↔ cc_reasons c = [] ∧ Forall (λ check, is_ok check = true) checks).
Proof.
  revert c. induction checks as [|check checks IH]; intros c Hf Hc.
  { exists c. split; [done|]. split; [done|]. rewrite Forall_nil. tauto. }
  apply Forall_cons in Hf as [Hr Hf]. destruct (add_collecting c check Hr Hc) as (c1 & E1 & Hc1 & H1).
  destruct (IH c1 Hf Hc1) as (c2 & E2 & Hc2 & H2). exists c2. simpl. rewrite E1. split; [exact E2|]. split; [done|].
  rewrite H2, H1, Forall_cons. tauto.
Qed.
Definition checks r contract roleCheck : list (result packetError unit) :=
  [validateMachineStatusRisk r contract; roleCheck r; validateFailurePathAdvisoryField r;
   validateFields r (resultFieldsForStatus (rs_Status r)); validateTargets r].
Lemma constraints_collect r contract roleCheck :
  validateResultConstraints r contract roleCheck =
  (c ← collect newConstraintCollector (checks r contract roleCheck); collected c).
Proof.
  unfold validateResultConstraints, checks. cbn [collect]. do 5 (
    match goal with |- context [add ?c ?x] => destruct (add c x); [cbn [mbind result_bind]|reflexivity] end).
  reflexivity.
Qed.
(** The verdict on a result. *)
Definition verdict (contract : machineContract) (role_given : Prop) r (x : result packetError unit) : Prop :=
  match x with
  | Ok _ => acceptable contract r ∧ role_given
  | Err (mismatchError _) => rs_Status r ∉ mc_statuses contract
  | Err e => rs_Status r ∈ mc_statuses contract ∧ reported e ∧ ¬ (acceptable contract r ∧ role_given)
  end.
Lemma validateResult_spec r contract roleCheck (role_given : Prop) :
  Forall (λ status, is_Some (packetStatusContracts status)) (mc_statuses contract) →
  reports (roleCheck r) ∧ (is_ok (roleCheck r) = true ↔ role_given) →
  verdict contract role_given r (validateResultConstraints r contract roleCheck).
Proof.
  unfold verdict. intros Hc [Hrole Hgiven]. pose proof (risk_spec r contract Hc) as Hrisk.
  destruct (decide (rs_Status r ∈ mc_statuses contract)) as [Hs|Hs].
  2: { unfold validateResultConstraints.
    destruct (validateMachineStatusRisk r contract) as [[]|[reason|? ? ? ?]]; [by destruct Hrisk|done|by destruct Hrisk]. }
  assert (reports (validateMachineStatusRisk r contract) ∧
    (is_ok (validateMachineStatusRisk r contract) = true ↔ risk_allowed r contract)) as [Hrep Hok].
  { destruct (validateMachineStatusRisk r contract) as [[]|[reason|? ? ? ?]];
      [by destruct Hrisk as (_ & ? & ?)|by destruct (Hrisk Hs)|by destruct Hrisk as (_ & ? & ?)]. }
  destruct (advisory_spec r) as [Hrep3 Hadvisory].
  destruct (validateFields_spec r _ (fields_owned r (rs_Status r))) as [Hrep4 Hfields].
  destruct (validateTargets_spec r) as [Hrep5 Htargets].
  rewrite constraints_collect.
  destruct (collect_spec (checks r contract roleCheck) newConstraintCollector) as (c & E & Hcc & Hall);
    [by repeat constructor|apply collecting_new|].
  rewrite E. cbn [mbind result_bind]. unfold checks in Hall.
  rewrite !Forall_cons, Forall_nil, Hok, Hgiven, Hadvisory, !is_ok_unit, Hfields, Htargets in Hall.
  assert (cc_reasons c = [] ↔ acceptable contract r ∧ role_given) as Hacc.
  { rewrite Hall. split; [|intros [[] ?]; by repeat (split; [done|])]. intros (_ & ? & ? & ? & (? & ? & ?) & ? & _). split; [by split|done]. }
  pose proof (collected_ok c) as Hco. pose proof (collected_reports c Hcc) as Hcr.
  destruct (collected c) as [[]|e]; [by apply Hacc, Hco|]. destruct e; [done|]. split; [done|]. split; [done|].
  intros Ha. apply Hacc in Ha. by apply Hco in Ha.
Qed.
(** C18: The validation of a result accepts exactly the results that keep the
    contract of their status and role - a risk the status admits, every field of
    the status given on one line of bounded length, a bounded packet, targets that
    are distinct and name [none], the report or a place in the repository each only
    where that is allowed - and otherwise reports it: a status the role does not
    have is a mismatch, and anything else is a report of between one and sixteen
    distinct violations, each with its key, of the category of the first. *)
Theorem ValidateResult_spec r :
  verdict workerMachineContract (validation_requested r) r (ValidateWorkerResult r) ∧
  verdict reviewerMachineContract (no_validation r) r (ValidateReviewerResult r).
Proof.
  split; apply validateResult_spec; try apply worker_spec; try apply reviewer_spec; repeat (constructor; [by eexists|]);
    constructor.
Qed.
(** ** Omitted violations

    A collector that is given distinct reasons of one key. *)
Definition collecting_key (key : string) (reasons seen : list error) (omitted : nat) : constraintCollector :=
  {| cc_reasons := reasons; cc_keys := replicate (length reasons) key; cc_seen := seen; cc_omitted := omitted;
     cc_category := if bool_decide (reasons = []) then "" else rejectCategoryForKey key |}.
Lemma addReason_key key reason reasons seen omitted :
  key ≠ "" → reason ∉ seen →
  addReason key reason (collecting_key key reasons seen omitted) =
    if bool_decide (maxConstraintReasons ≤ length reasons) then collecting_key key reasons (reason :: seen) (S omitted)
    else collecting_key key (reasons ++ [reason]) (reason :: seen) omitted.
Proof.
  intros Hk Hs. unfold addReason, collecting_key. rewrite (bool_decide_false _ Hk). simpl.
  rewrite (bool_decide_false (reason ∈ seen)) by done. unfold maxConstraintReasons.
  destruct reasons as [|x reasons]; [done|]. rewrite !(bool_decide_false (_ = [])) by done. cbn [cc_category].
  rewrite (bool_decide_false (rejectCategoryForKey key = "")) by apply category_named. cbn [cc_reasons cc_keys].
  case_bool_decide; [done|]. rewrite length_app, replicate_add. done.
Qed.
Lemma addReasons_key key l reasons seen omitted :
  key ≠ "" → NoDup l → (∀ x, x ∈ l → x ∉ seen) → length reasons ≤ maxConstraintReasons →
  foldl (λ c reason, addReason key reason c) (collecting_key key reasons seen omitted) l =
    collecting_key key (take maxConstraintReasons (reasons ++ l)) (reverse l ++ seen)
      (omitted + (length reasons + length l - maxConstraintReasons)).
Proof.
  intros Hk. revert reasons seen omitted. induction l as [|x l IH]; intros reasons seen omitted Hd Hs Hb; cbn [foldl].
  { rewrite app_nil_r, take_ge by done. f_equal. simpl. lia. }
  apply NoDup_cons in Hd as [Hx Hd]. rewrite addReason_key by (done || apply Hs; left). rewrite reverse_cons, <-app_assoc. simpl.
  assert (∀ y, y ∈ l → y ∉ x :: seen) as Hs'.
  { intros y Hy [->|Hy']%elem_of_cons; [done|]. by apply (Hs y); [right|]. }
  case_bool_decide as Hfull.
  - rewrite IH by done. rewrite !take_app_le by lia. f_equal. lia.
  - rewrite IH; [|done..|rewrite length_app; simpl; lia]. rewrite <-app_assoc, length_app. f_equal. simpl. lia.
Qed.
Lemma zip_key key (l : list error) c n :
  length l = n →
  foldl (λ c '(key, reason), addReason key reason c) c (zip (replicate n key) l) = foldl (λ c reason, addReason key reason c) c l.
Proof. intros <-. revert c. induction l as [|x l IH]; intros c; [done|]. apply IH. Qed.

(** A target of a review that is neither reserved nor a place in the repository. *)
Definition unusable (element : string) : Prop :=
  TrimSpace element ≠ "" ∧ EqualFold (TrimSpace element) noneTargetsSentinel = false ∧
  EqualFold (TrimSpace element) ReportOnlyTargets = false ∧ is_ok (Parse (TrimSpace element)) = false.
Definition shapeKey : string := "targets-review-shape".
Definition shapeError (element : string) : error :=
  Errorf "NEEDS_SOL_REVIEWのTARGETSはrepository相対path:locator形式で指定してください: %q" [AStr element].
#[local] Instance shapeError_inj : Inj (=) (=) shapeError.
Proof. by intros x y [= ->]. Qed.
Lemma targetsLoop_unusable r l seen c :
  rs_Status r = StatusNeedsSolReview → Forall unusable l → NoDup (TrimSpace <$> l) →
  (∀ element, element ∈ l → TrimSpace element ∉ seen) →
  targetsLoop r l seen false c = Ok (foldl (λ c reason, addReason shapeKey reason c) c (shapeError <$> l), false).
Proof.
  intros Hr Hl. revert seen c. induction Hl as [|element l (Hb & Hn & Hp & Hq) Hl IH]; intros seen c Hd Hs; [done|].
  rewrite fmap_cons in Hd. apply NoDup_cons in Hd as [Hx Hd]. cbn [targetsLoop]. unfold validateTargetElement. cbv zeta.
  rewrite (bool_decide_false _ Hb), (bool_decide_false (_ ∈ seen)) by (apply Hs; left).
  rewrite Hn, Hp, Hq, (bool_decide_true _ Hr). cbn [andb negb]. apply IH; [done|].
  intros y Hy [Hyx|Hy']%elem_of_cons; [|by apply (Hs y); [right|]]. apply Hx. rewrite <-Hyx. by apply list_elem_of_fmap_2.
Qed.
Section Forgotten.
Context r (Hstatus : rs_Status r = StatusNeedsSolReview) (Htargets : Forall unusable (rs_Targets r)).
Context (Hdistinct : NoDup (TrimSpace <$> rs_Targets r)) (Hmany : maxConstraintReasons < length (rs_Targets r)).
Definition shown : list error := shapeError <$> take maxConstraintReasons (rs_Targets r).
Lemma length_shown : length shown = maxConstraintReasons.
Proof. unfold shown. rewrite length_fmap, length_take. lia. Qed.
Lemma shown_given : shown ≠ [].
Proof. intros E. pose proof length_shown as Hl. by rewrite E in Hl. Qed.
Lemma NoDup_shape : NoDup (shapeError <$> rs_Targets r).
Proof. apply NoDup_fmap_2; [apply _|]. by eapply NoDup_fmap_1. Qed.
Definition shown_report (display : list error) : packetError :=
  constraintError display shown (replicate maxConstraintReasons shapeKey) (rejectCategoryForKey shapeKey).
Lemma collected_shown seen omitted :
  collected (collecting_key shapeKey shown seen omitted) =
    Err (shown_report (shown ++ if bool_decide (omitted = 0) then [] else [omission omitted])).
Proof.
  unfold collected, collecting_key, shown_report. cbn [cc_reasons cc_keys cc_omitted cc_category].
  rewrite length_shown. by rewrite !(bool_decide_false _ shown_given).
Qed.
Lemma targets_omitted :
  validateTargets r = Err (shown_report (shown ++ [omission (length (rs_Targets r) - maxConstraintReasons)])).
Proof.
  unfold validateTargets. rewrite bool_decide_false by lia.
  rewrite targetsLoop_unusable; [|done..|by intros ? _ ?%elem_of_nil]. cbn [mbind result_bind]. simpl add. cbn [mbind result_bind].
  change newConstraintCollector with (collecting_key shapeKey [] [] 0).
  rewrite addReasons_key; [|done|apply NoDup_shape|by intros ? _ ?%elem_of_nil|simpl; unfold maxConstraintReasons; lia].
  cbn [app]. rewrite <-fmap_take, length_fmap, collected_shown. cbn [length]. by rewrite bool_decide_false by lia.
Qed.
Lemma constraints_forget contract roleCheck :
  validateMachineStatusRisk r contract = Ok () → roleCheck r = Ok () → rs_FailurePathAdvisory r = None →
  Forall (field_given r) (resultFieldsForStatus (rs_Status r)) → Forall single_line (rs_Targets r ++ rs_Artifacts r) →
  ByteSize r ≤ MaxPacketBytes →
  validateResultConstraints r contract roleCheck = Err (shown_report shown).
Proof.
  intros Hrisk Hrole Hadv Hf Hl Hs. destruct (validateFields_spec r _ (fields_owned r (rs_Status r))) as [_ Hfields].
  unfold validateResultConstraints. rewrite Hrisk, Hrole. unfold validateFailurePathAdvisoryField.
  rewrite (bool_decide_true _ Hadv), (proj2 Hfields), targets_omitted by done. cbn [add mbind result_bind].
  unfold ConstraintReasons, ConstraintViolationKeys. cbn [shown_report]. rewrite (bool_decide_false _ shown_given).
  pose proof length_shown as Hlen. rewrite length_replicate, Hlen.
  rewrite (bool_decide_false (maxConstraintReasons = 0)), (bool_decide_true (_ = maxConstraintReasons)) by done. cbn [orb negb].
  rewrite zip_key by done.
  change newConstraintCollector with (collecting_key shapeKey [] [] 0).
  rewrite addReasons_key; [|done| |by intros ? _ ?%elem_of_nil|simpl; unfold maxConstraintReasons; lia].
  2: { unfold shown. rewrite fmap_take. apply (sublist_NoDup _ (shapeError <$> rs_Targets r)); [apply NoDup_shape|apply sublist_take]. }
  cbn [app]. rewrite take_ge by lia. cbn [mbind result_bind]. rewrite collected_shown, Hlen. simpl. by rewrite app_nil_r.
Qed.
End Forgotten.
(** C38: The number of omitted violations does not survive the collector outside.  Take
    any review that is as it should be except that its targets, more than sixteen, are
    all unusable.  The check of the targets reports the first sixteen and how many
    there are besides.  The validation of the result collects that report, and reports
    the sixteen and nothing of the others, in either role. *)
Theorem omitted_violations_forgotten r :
  rs_Status r = StatusNeedsSolReview → Forall unusable (rs_Targets r) → NoDup (TrimSpace <$> rs_Targets r) →
  maxConstraintReasons < length (rs_Targets r) → rs_FailurePathAdvisory r = None →
  Forall (field_given r) (resultFieldsForStatus (rs_Status r)) → Forall single_line (rs_Targets r ++ rs_Artifacts r) →
  ByteSize r ≤ MaxPacketBytes →
  let reasons := shapeError <$> take maxConstraintReasons (rs_Targets r) in
  let report display :=
    Err (constraintError display reasons (replicate maxConstraintReasons shapeKey) (rejectCategoryForKey shapeKey)) in
  validateTargets r = report (reasons ++ [omission (length (rs_Targets r) - maxConstraintReasons)]) ∧
  (risk_allowed r workerMachineContract → validation_requested r → ValidateWorkerResult r = report reasons) ∧
  (risk_allowed r reviewerMachineContract → no_validation r → ValidateReviewerResult r = report reasons).
Proof.
  intros Hr Hu Hd Hm Hadv Hf Hl Hs reasons report. split; [by apply targets_omitted|].
  assert (∀ contract, Forall (λ status, is_Some (packetStatusContracts status)) (mc_statuses contract) →
    risk_allowed r contract → validateMachineStatusRisk r contract = Ok ()) as Hrisk.
  { intros contract Hc Ha. pose proof (risk_spec r contract Hc) as Hv.
    destruct (validateMachineStatusRisk r contract) as [[]|[]]; [done|by destruct Ha|].
    destruct Hv as (_ & _ & Hv). by apply Hv in Ha. }
  split; intros Ha Hrole; apply constraints_forget; try done.
  - apply Hrisk; [|done]. repeat (constructor; [by eexists|]); constructor.
  - apply is_ok_unit. by apply worker_spec.
  - apply Hrisk; [|done]. repeat (constructor; [by eexists|]); constructor.
  - apply is_ok_unit. by apply reviewer_spec.
Qed.
End Rules.

(** ** An example

    A review that names twenty unusable targets. *)
Definition manyTargets : Result :=
  exampleResult {{ rs_Status := StatusNeedsSolReview; rs_Risk := RiskHigh; rs_Invariants := "kept";
                   rs_TestEvidence := "go test"; rs_Issues := "one"; rs_ResidualRisk := "low"; rs_SolQuestion := "why";
                   rs_Targets := ["a"; "b"; "c"; "d"; "e"; "f"; "g"; "h"; "i"; "j"; "k"; "l"; "m"; "n"; "o"; "p";
                                  "q"; "r"; "s"; "t"] }}.
Lemma omitted_violations_forgotten_witness :
  ∃ reasons keys category,
    length reasons = 16 ∧
    validateTargets manyTargets = Err (constraintError (reasons ++ [omission 4]) reasons keys category) ∧
    ValidateReviewerResult manyTargets = Err (constraintError reasons reasons keys category).
Proof.
  assert (rs_Status manyTargets = StatusNeedsSolReview) as H1 by reflexivity.
  assert (Forall unusable (rs_Targets manyTargets)) as H2.
  { repeat (apply Forall_cons; split; [split_and!; [vm_compute; discriminate|vm_compute; reflexivity..]|]). apply Forall_nil_2. }
  assert (NoDup (TrimSpace <$> rs_Targets manyTargets)) as H3 by (apply (bool_decide_eq_true_1 _); vm_compute; reflexivity).
  assert (maxConstraintReasons < length (rs_Targets manyTargets)) as H4 by (apply (bool_decide_eq_true_1 _); vm_compute; reflexivity).
  assert (Forall (field_given manyTargets) (resultFieldsForStatus (rs_Status manyTargets))) as H5.
  { repeat (apply Forall_cons; split;
      [eexists; split; [reflexivity|]; split; [vm_compute; discriminate|]; split; [vm_compute; reflexivity|];
       apply (bool_decide_eq_true_1 _); vm_compute; reflexivity|]). apply Forall_nil_2. }
  assert (Forall single_line (rs_Targets manyTargets ++ rs_Artifacts manyTargets)) as H6.
  { repeat (apply Forall_cons; split; [split; [vm_compute; reflexivity|apply (bool_decide_eq_true_1 _); vm_compute; reflexivity]|]).
    apply Forall_nil_2. }
  assert (ByteSize manyTargets ≤ MaxPacketBytes) as H7 by (apply (bool_decide_eq_true_1 _); vm_compute; reflexivity).
  destruct (omitted_violations_forgotten manyTargets H1 H2 H3 H4 eq_refl H5 H6 H7) as (Ht & _ & Hrev).
  do 3 eexists. split; [|split; [exact Ht|apply Hrev]].
  - reflexivity.
  - split; [by repeat constructor|]. eexists. split; [reflexivity|]. by repeat constructor.
  - by repeat split.
Defined.
