(* ===== verification/ResumeLogic.v ===== *)
(** * Stopping and resuming

    On a disk that refuses nothing every operation of the session state runs to
    its end, and its effect on the files is known.  A task that stops can be
    resumed: its checkpoint is saved, read back and accepted. *)
From S2P Require Import Prelude GoStrings GoText GoTime ControllerTypes ControllerStore Packet SessionTypes SessionStore ResumeCheckpoint ParentReview Lifecycle SessionLogic ReviewLogic SessionExamples.

(** ** Runs that nothing refuses *)
Definition state_is (G : fileMap) : Disk → Prop := within ∅ ∅ G [].
Lemma state_is_self d :
  unreadable d = ∅ → unwritable d = ∅ → power d = None → plain_state (files d) → state_is (files d) d.
Proof. intros. split; auto. Qed.
Lemma rebase R W G N name d doc :
  files d !! Path name = doc → within R W G (name :: N) d → within R W (partial_alter (λ _, doc) (Path name) G) N d.
Proof.
  intros Hf []. split; try done. intros p Hp. destruct (decide (p = Path name)) as [->|Hne].
  - left. by rewrite lookup_partial_alter_eq.
  - rewrite lookup_partial_alter_ne by done. destruct (in_files p Hp) as [?|[? Hin]]; [by left|right].
    split; [done|]. rewrite fmap_cons in Hin. by apply elem_of_cons in Hin as [->|].
Qed.
Lemma write_runs G name data :
  triple (state_is G) (writeFileAtomic (Path name) data mode600)
    (λ _, state_is (<[Path name := text data]> G)) (λ _, False).
Proof.
  eapply triple_consequence; [eapply triple_and; [apply writeFileAtomic_triple|apply (write_fails ∅ ∅ G); set_solver]|done| |].
  - intros [] d [[[_ Hf] Hd] _]. exact (rebase ∅ ∅ G [] name d _ Hf Hd).
  - intros d [_ ?]. set_solver.
Qed.
Lemma remove_runs G name :
  triple (state_is G) (RemoveState name) (λ _, state_is (delete (Path name) G)) (λ _, False).
Proof.
  eapply triple_consequence; [eapply triple_and; [apply RemoveState_triple|apply (remove_fails ∅ ∅ G); set_solver]|done| |].
  - intros [] d [[[_ Hf] Hd] _]. exact (rebase ∅ ∅ G [] name d _ Hf Hd).
  - intros d [_ ?]. set_solver.
Qed.
Section Status.
Context `{JSONLog, JSONText TaskStats persistedStats}.
Definition with_status (status : string) (G : fileMap) : fileMap := <[Path statusFile := text (status +:+ newline)]> G.
Lemma SetTaskStatus_runs G status :
  triple (state_is G) (SetTaskStatus status) (λ _, state_is (with_status status G)) (λ _, False).
Proof. apply SetTaskStatus_writes; [apply within_quiet|]. apply triple_wrap, write_runs. Qed.
Lemma update_runs G update E : triple (state_is G) (UpdateTaskStats update) (λ _, state_is G) E.
Proof. apply UpdateTaskStats_triple, within_quiet. Qed.
End Status.

(** What the files give to a reader. *)
Definition content_of (G : fileMap) (name : string) : result error string :=
  match G !! Path name with
  | None => Err (ErrNotExist (Path name))
  | Some doc => match of_doc doc with
                | Some c => Ok (fc_Data c) | None => Err (err "controller JSON does not decode") end
  end.
Lemma content_state G d name :
  state_is G d → observation (Path name) = false → content (Path name) d = content_of G name.
Proof.
  intros Hd Ho. unfold content, content_of. rewrite (in_readable _ _ _ _ _ Hd), bool_decide_false by set_solver.
  by destruct (in_files _ _ _ _ _ Hd _ Ho) as [->|[_ ?%elem_of_nil]].
Qed.
Lemma status_state G d status :
  state_is (with_status status G) d → TrimSpace (status +:+ newline) = status → status ≠ "" →
  GetTaskStatus d = (Ok status, d).
Proof.
  intros Hd Ht Hs. rewrite GetTaskStatus_eq, (content_state _ _ _ Hd) by done. unfold content_of, with_status.
  rewrite lookup_insert_eq. simpl. by rewrite Ht, bool_decide_false.
Qed.
Lemma snapshot_runs G name :
  plain_state G → observation (Path name) = false →
  triple (state_is G) (snapshotLifecycleFile name) (λ _, state_is G) (λ _, False).
Proof.
  intros HG Ho d Hd. unfold snapshotLifecycleFile, attempt, mbind, io_bind.
  rewrite ReadFile_eq, (content_state _ _ _ Hd) by done. unfold content_of.
  destruct (G !! Path name) as [doc|] eqn:E; [|done]. by destruct (HG _ _ Ho E) as [s ->].
Qed.

(** ** The checkpoint reads back *)
Section Resume.
Context `{Unicode, MachineEncoder, ResumeText, GitState, JSONLog}.
Context `{JSONText TaskStats persistedStats, JSONText ParentReviewState Some, JSONText GitSnapshot Some,
          JSONText parentActionBeginRecord Some}.
Implicit Types c : ResumeCheckpoint.

(** What is written of a checkpoint, and what is read of it. *)
Definition written c : ResumeCheckpoint := c {{ ck_Version := resumeStateVersion }}.
Definition reread c : ResumeCheckpoint :=
  c {{ ck_Version := resumeStateVersion; ck_ResetAtCST := rateLimitResetAtCST (ck_ResetAtRFC3339 c) }}.
Definition checkpointText c : string := marshal (written c) +:+ newline.
Lemma validateStopState_version c v : validateStopState (c {{ ck_Version := v }}) = validateStopState c.
Proof. by destruct c. Qed.
Lemma validateStopState_reset c :
  validateStopState c = Ok () → validateStopState (c {{ ck_ResetAtCST := "" }}) = Ok ().
Proof.
  unfold validateStopState. destruct c. intros E.
  apply result_bind_Ok in E as ([] & E1 & E).
  match type of E with (if ?b then _ else _) = _ => destruct b eqn:Ev; [done|] end.
  apply result_bind_Ok in E as ([] & E2 & E). apply result_bind_Ok in E as ([] & E3 & E).
  apply result_bind_Ok in E as ([] & E4 & E). apply result_bind_Ok in E as ([] & E5 & E6).
  apply result_bind_Ok. exists (). split; [exact E1|].
  rewrite pass_reject by exact Ev. apply result_bind_Ok. exists (). split; [exact E2|].
  apply result_bind_Ok. exists (). split.
  { unfold validateRateLimitStopPayload in E3 |- *. simpl in E3 |- *.
    destruct (bool_decide (ck_StopKind = ResumeStopRateLimited)); simpl in *; [exact E3|].
    by destruct (bool_decide (ck_ResetAtCST = "")), (bool_decide (ck_ResetAtRFC3339 = "")). }
  apply result_bind_Ok. exists (). split; [exact E4|].
  apply result_bind_Ok. exists (). split; [exact E5|]. exact E6.
Qed.
Lemma decode_written c :
  clean (written c) → ck_Model c ≠ "" → validateStopState c = Ok () →
  decodeResumeCheckpoint (checkpointText c) = Ok (reread c).
Proof.
  intros Hc Hm Hv. unfold decodeResumeCheckpoint, checkpointText.
  rewrite (unmarshal_line (written c) _ Hc eq_refl), explicit_line by done.
  destruct (persisted_line (written c) Hc) as (keys & Hk & Hs & Hr).
  unfold validateResumePersistedKeys. rewrite Hk. rewrite !(bool_decide_false (_ ∈ keys)) by done.
  rewrite (bool_decide_true (_ = resumeStateVersion)) by (by destruct c).
  simpl negb. cbn beta iota. change (Ok () ≫= ?f) with (f ()).
  rewrite (bool_decide_false (ck_Model _ = "")) by (by destruct c).
  rewrite validateStopState_reset by (unfold written; by rewrite validateStopState_version).
  by destruct c.
Qed.
Definition with_checkpoint c (G : fileMap) : fileMap := <[Path resumeStateFile := text (checkpointText c)]> G.
Lemma save_runs G c :
  ck_Model c ≠ "" → validateStopState c = Ok () →
  triple (state_is G) (SaveResumeCheckpoint c) (λ _, state_is (with_checkpoint c G)) (λ _, False).
Proof.
  intros Hm Hv. unfold SaveResumeCheckpoint. rewrite bool_decide_false, Hv by done.
  eapply (triple_bind _ (λ _, state_is G)); [by intros d Hd|]. intros []. apply triple_wrap, write_runs.
Qed.
Lemma load_state G d c :
  state_is G d → G !! Path resumeStateFile = Some (text (checkpointText c)) →
  clean (written c) → ck_Model c ≠ "" → validateStopState c = Ok () →
  LoadResumeCheckpoint d = (Ok (reread c), d).
Proof.
  intros Hd HG Hc Hm Hv. unfold LoadResumeCheckpoint, attempt, mbind, io_bind.
  rewrite ReadFile_eq, (content_state _ _ _ Hd) by done. unfold content_of. rewrite HG. simpl.
  by rewrite decode_written.
Qed.
Definition stopped_files c (G : fileMap) : fileMap :=
  with_status (stopTaskStatus (ck_StopKind c))
    (if stopKindClearsPendingDecision (ck_StopKind c) then delete (Path pendingDecision) (with_checkpoint c G)
     else with_checkpoint c G).
Lemma or_rollback_runs {A} P (m : io A) l Q : triple P m Q (λ _, False) → triple P (or_rollback m l) Q (λ _, False).
Proof.
  intros Hm. unfold or_rollback. eapply triple_bind; [by eapply triple_attempt|]. intros [a|e]; [by apply triple_ret|].
  by intros d.
Qed.
Lemma stopTaskStatus_active c : IsStopped c = true → stopTaskStatus (ck_StopKind c) ≠ TaskStatusActive.
Proof.
  unfold IsStopped, kindIsStopped, Valid. intros E. apply andb_true_iff in E as [Hn Hin]. bool_simp.
  revert Hn Hin. generalize (ck_StopKind c). intros k Hn Hin.
  repeat (apply elem_of_cons in Hin as [->|Hin]; [done|]). by apply elem_of_nil in Hin.
Qed.
Lemma EnterStop_runs G c :
  plain_state G → IsStopped c = true → ck_Model c ≠ "" → validateStopState c = Ok () →
  triple (state_is G) (EnterStop c) (λ _, state_is (stopped_files c G)) (λ _, False).
Proof.
  intros HG Hs Hm Hv. unfold EnterStop. rewrite Hs. simpl negb. cbv iota zeta.
  rewrite bool_decide_false by by apply stopTaskStatus_active.
  eapply triple_bind; [by eapply triple_attempt, snapshot_runs|]. intros [resume|e]; [|by intros d].
  doing ltac:(by apply snapshot_runs). doing ltac:(by apply save_runs).
  eapply (triple_bind _ (λ _, state_is (if stopKindClearsPendingDecision (ck_StopKind c)
    then delete (Path pendingDecision) (with_checkpoint c G) else with_checkpoint c G))).
  { branch; [apply or_rollback_runs, remove_runs|by apply triple_ret]. }
  intros ?. apply or_rollback_runs, SetTaskStatus_runs.
Qed.
Lemma stopTaskStatus_text kind :
  TrimSpace (stopTaskStatus kind +:+ newline) = stopTaskStatus kind ∧ stopTaskStatus kind ≠ "".
Proof. unfold stopTaskStatus. by repeat case_bool_decide. Qed.
Lemma stopped_checkpoint c G : stopped_files c G !! Path resumeStateFile = Some (text (checkpointText c)).
Proof.
  unfold stopped_files, with_status, with_checkpoint. rewrite lookup_insert_ne by done.
  destruct (stopKindClearsPendingDecision _); [rewrite lookup_delete_ne by done|]; apply lookup_insert_eq.
Qed.
Lemma triple_run {A} P (m : io A) Q d : triple P m Q (λ _, False) → P d → ∃ a d', m d = (Ok a, d') ∧ Q a d'.
Proof. intros Hm Hd. specialize (Hm d Hd). destruct (m d) as [[a|e] d']; [by eauto|done]. Qed.
(** C14: A task that stops can be resumed.  Whatever the kind of the stop, if its
    checkpoint is valid then [EnterStop] succeeds on a disk that refuses nothing:
    the task has the status of the stop, the checkpoint reads back as it was
    given - with the current version, and the reset time computed again - and
    [BeginResume] accepts what was read: the task is active, and the checkpoint
    still there for the call. *)
Theorem stopped_task_resumes c d :
  unreadable d = ∅ → unwritable d = ∅ → power d = None → plain_state (files d) →
  IsStopped c = true → ck_Model c ≠ "" → validateStopState c = Ok () → clean (written c) →
  ∃ d1 d2, EnterStop c d = (Ok (), d1) ∧ GetTaskStatus d1 = (Ok (stopTaskStatus (ck_StopKind c)), d1) ∧
    LoadResumeCheckpoint d1 = (Ok (reread c), d1) ∧
    BeginResume (reread c) d1 = (Ok (), d2) ∧ GetTaskStatus d2 = (Ok TaskStatusActive, d2) ∧
    LoadResumeCheckpoint d2 = (Ok (reread c), d2).
Proof.
  intros Hr Hw Hp Hplain Hs Hm Hv Hc.
  destruct (triple_run _ _ _ d (EnterStop_runs (files d) c Hplain Hs Hm Hv)) as ([] & d1 & E1 & Hd1);
    [by apply state_is_self|].
  destruct (stopTaskStatus_text (ck_StopKind c)) as [Ht Hne].
  pose proof (status_state _ _ _ Hd1 Ht Hne) as Hst.
  pose proof (load_state _ _ c Hd1 (stopped_checkpoint c _) Hc Hm Hv) as Hl.
  assert (triple (state_is (stopped_files c (files d))) (_ ← SetTaskStatus TaskStatusActive; RecordResume)
    (λ _, state_is (with_status TaskStatusActive (stopped_files c (files d)))) (λ _, False)) as Hrun.
  { doing ltac:(apply SetTaskStatus_runs). apply update_runs. }
  destruct (triple_run _ _ _ d1 Hrun Hd1) as ([] & d2 & E2 & Hd2).
  exists d1, d2. split; [exact E1|]. split; [exact Hst|]. split; [exact Hl|].
  assert (ck_StopKind (reread c) = ck_StopKind c ∧ IsStopped (reread c) = true) as [Hk Hsr] by by destruct c.
  split; [|split].
  - unfold BeginResume. rewrite Hsr, Hk. rewrite pass_guard by done. cbv zeta. io_step Hst.
    rewrite pass_guard by by rewrite bool_decide_true. io_step Hl. rewrite Hk.
    rewrite pass_guard by by rewrite bool_decide_true. exact E2.
  - by apply (status_state _ _ _ Hd2).
  - apply (load_state _ _ c Hd2); try done. unfold with_status. rewrite lookup_insert_ne by done. apply stopped_checkpoint.
Qed.
(** ** Clearing the stop *)
Lemma cleared_guard c : validateGuardStopPayload (ClearStop c) = Ok ().
Proof.
  destruct c. unfold validateGuardStopPayload, ClearStop, clearStopPayload. cbn.
  destruct ck_QualitySurfaceApprovalPending, (bool_decide (ck_StopKind = ResumeStopGuardRecoverable)),
    (bool_decide (ck_StopKind = ResumeStopQualityGate)); cbn; rewrite ?andb_false_r; reflexivity.
Qed.
Lemma cleared_approval c :
  validateQualitySurfaceApprovalStop c = Ok () → validateQualitySurfaceApprovalStop (ClearStop c) = Ok ().
Proof.
  destruct c. unfold validateQualitySurfaceApprovalStop, ClearStop, clearStopPayload. cbn.
  destruct (bool_decide (ck_StopKind = ResumeStopGuardRecoverable)), (bool_decide (ck_StopKind = ResumeStopQualityGate)),
    ck_QualitySurfaceApprovalActivated, ck_QualitySurfaceApprovalPending; done.
Qed.
(** Nothing of a stop is left in the checkpoint. *)
Record unstopped c : Prop := {
  un_kind : ck_StopKind c = ResumeStopNone;
  un_limit : ck_ResetAtCST c = "" ∧ ck_ResetAtRFC3339 c = "";
  un_provider : ck_ProviderUnavailableClassification c = "" ∧ ck_ProviderUnavailableProbes c = 0%Z ∧
                ck_ProviderUnavailableStartedAt c = zeroTime;
  un_guard : ck_GuardFailure c = "" ∧ ck_GuardRefBeforeDigest c = "" ∧ ck_GuardRefAfterDigest c = "" ∧
             ck_GuardRefChanges c = [] ∧ ck_GuardRefChangesTruncated c = false;
  un_gate : ck_QualityGateFailure c = "";
  un_boundary : ck_StopGitSnapshot c = None ∧ ck_StopDirtyFiles c = [] ∧ ck_SummaryRecovered c = false;
}.
Lemma ClearStop_unstopped c : unstopped (ClearStop c).
Proof. destruct c. unfold ClearStop, clearStopPayload. cbn. by destruct (_ || _). Qed.
(** C16: Clearing the stop of a valid checkpoint, as the next model call does,
    leaves a valid checkpoint that is not stopped: nothing of the stop's payload
    stays behind, whatever its kind was. *)
Theorem ClearStop_valid c :
  validateStopState c = Ok () →
  validateStopState (ClearStop c) = Ok () ∧ IsStopped (ClearStop c) = false ∧ unstopped (ClearStop c).
Proof.
  intros E. unfold validateStopState in E. apply result_bind_Ok in E as (_ & _ & E).
  destruct (negb _); [done|]. apply result_bind_Ok in E as ([] & Ha & _).
  pose proof (ClearStop_unstopped c) as [E2 [E3 E4] (E7 & E8 & E9) _ E6 (_ & _ & E1)].
  split; [|split; [unfold IsStopped; by rewrite E2|apply ClearStop_unstopped]].
  unfold validateStopState, validateRateLimitStopPayload, validateProviderStopPayload, validateQualityGateStopPayload.
  rewrite E1, E2, E3, E4, E6, E7, E8, E9, (cleared_approval _ Ha), cleared_guard. done.
Qed.
End Resume.
(** A rate limit, with the time it is lifted. *)
Definition stoppableDisk : Disk := stateDisk TaskStatusActive [(pendingDecision, "1")] [].
Lemma stopped_task_resumes_witness :
  ∃ d1 d2, EnterStop rateLimitStop stoppableDisk = (Ok (), d1) ∧
    GetTaskStatus d1 = (Ok TaskStatusRateLimited, d1) ∧
    LoadResumeCheckpoint d1 = (Ok (reread rateLimitStop), d1) ∧
    BeginResume (reread rateLimitStop) d1 = (Ok (), d2) ∧ GetTaskStatus d2 = (Ok TaskStatusActive, d2) ∧
    LoadResumeCheckpoint d2 = (Ok (reread rateLimitStop), d2).
Proof.
  apply (stopped_task_resumes rateLimitStop stoppableDisk); try reflexivity.
  - apply stateFiles_plain.
  - discriminate.
  - right. left.
Defined.
Lemma ClearStop_valid_witness :
  validateStopState (ClearStop qualityGateStop) = Ok () ∧ IsStopped (ClearStop qualityGateStop) = false ∧
  unstopped (ClearStop qualityGateStop).
Proof. apply (ClearStop_valid qualityGateStop). vm_compute. reflexivity. Defined.
