(* ===== verification/ActionRecovery.v ===== *)
(** * Recovery of an interrupted parent action

    [BeginParentDecision] and [BeginParentFix] are journalled.  Wherever they
    are interrupted, and however often their recovery is interrupted in turn,
    one recovery that is not interrupted brings the files back to what they were
    before the action. *)
From S2P Require Import Prelude GoStrings GoText ControllerTypes ControllerStore CrashLogic Packet SessionTypes SessionStore ResumeCheckpoint ParentReview Lifecycle SessionLogic ReviewLogic SessionExamples ResumeLogic.

(** ** Any environment *)
Definition at_files (G : fileMap) (d : Disk) : Prop := ∀ p, observation p = false → files d !! p = G !! p.
#[export] Instance at_files_quiet G : Quiet (at_files G).
Proof. intros d d' (_ & _ & _ & Hf) Hd p Hp. rewrite Hf by done. by apply Hd. Qed.

Section AnyEnvironment.
Context (G : fileMap).
Lemma at_write name data :
  triple (at_files G) (writeFileAtomic (Path name) data mode600)
    (λ _, at_files (<[Path name := text data]> G)) (at_files G).
Proof.
  unfold writeFileAtomic. eapply triple_bind; [apply MkdirAll_triple, _|]. intros [] d Hd.
  unfold writeJSONAtomic. destruct (_ || _); [done|]. case_bool_decide; [|done].
  intros p Hp. simpl. destruct (decide (Path name = p)) as [<-|]; [by rewrite !lookup_insert_eq|].
  rewrite !lookup_insert_ne by done. by apply Hd.
Qed.
Lemma at_remove name :
  observation (Path name) = false →
  triple (at_files G) (RemoveState name) (λ _, at_files (delete (Path name) G)) (at_files G).
Proof.
  intros Ho d Hd. unfold RemoveState, mbind, io_bind, attempt, remove_file.
  destruct (_ || _); simpl; [done|]. case_bool_decide as Hf; simpl.
  - intros p Hp. destruct (decide (Path name = p)) as [<-|].
    + by rewrite lookup_delete_eq.
    + rewrite lookup_delete_ne by done. by apply Hd.
  - intros p Hp. simpl. destruct (decide (Path name = p)) as [<-|]; [by rewrite !lookup_delete_eq|].
    rewrite !lookup_delete_ne by done. by apply Hd.
Qed.
(** A read gives what the files say, or fails. *)
Lemma at_content d name data :
  at_files G d → observation (Path name) = false → content (Path name) d = Ok data → content_of G name = Ok data.
Proof. intros Hd Ho. unfold content, content_of. case_bool_decide; [done|]. by rewrite Hd. Qed.
Definition snapshot_of (name : string) : lifecycleFileSnapshot :=
  match content_of G name with
  | Ok data => {| sn_name := name; sn_data := data; sn_exists := true |}
  | Err _ => {| sn_name := name; sn_data := ""; sn_exists := false |}
  end.
Lemma at_snapshot name :
  plain_state G → observation (Path name) = false →
  triple (at_files G) (snapshotLifecycleFile name) (λ s d, s = snapshot_of name ∧ at_files G d) (at_files G).
Proof.
  intros HG Ho d Hd. unfold snapshotLifecycleFile, attempt, mbind, io_bind. rewrite ReadFile_eq.
  unfold content, snapshot_of, content_of. case_bool_decide; [done|]. rewrite Hd by done.
  destruct (G !! Path name) as [doc|] eqn:E; [|done]. by destruct (HG _ _ Ho E) as [s ->].
Qed.
Context `{JSONLog, JSONText TaskStats persistedStats}.
Lemma at_status status :
  triple (at_files G) (SetTaskStatus status) (λ _, at_files (with_status status G)) (at_files G).
Proof. apply SetTaskStatus_writes; [apply _|]. apply triple_wrap, at_write. Qed.
Lemma at_read_status status :
  G !! Path statusFile = Some (text (status +:+ newline)) → TrimSpace (status +:+ newline) = status →
  triple (at_files G) GetTaskStatus (λ s d, (s = status ∨ s = TaskStatusNone) ∧ at_files G d) (at_files G).
Proof.
  intros HG Ht d Hd. rewrite GetTaskStatus_eq. split; [|done].
  destruct (content (Path statusFile) d) as [data|e] eqn:E; [|by right].
  apply (at_content _ _ _ Hd) in E; [|done]. unfold content_of in E. rewrite HG in E. injection E as <-.
  simpl. rewrite Ht. case_bool_decide; [by right|by left].
Qed.
End AnyEnvironment.
(** Putting a file of [G] back. *)
Lemma at_restore G X name :
  plain_state G → observation (Path name) = false →
  triple (at_files X) (restoreLifecycleFile (snapshot_of G name))
    (λ _, at_files (partial_alter (λ _, G !! Path name) (Path name) X)) (at_files X).
Proof.
  intros HG Ho. unfold restoreLifecycleFile, snapshot_of, content_of.
  destruct (G !! Path name) as [doc|] eqn:E; simpl.
  - destruct (HG _ _ Ho E) as [s ->]. simpl. apply triple_wrap, at_write.
  - by apply at_remove.
Qed.

(** ** An action on an open review *)
Inductive parent_action `{Unicode, MachineEncoder, ResumeText, GitState, JSONLog, JSONText TaskStats persistedStats,
    JSONText ParentReviewState Some, JSONText GitSnapshot Some, JSONText parentActionBeginRecord Some} :
    TaskStatus → io ParentActionRollback → Prop :=
  | decide_action : parent_action TaskStatusWaitingDecision BeginParentDecision
  | fix_action origin cause : parent_action TaskStatusWaitingSolReview (BeginParentFix origin cause).

Section Action.
Context `{Unicode, MachineEncoder, ResumeText, GitState, JSONLog}.
Context `{JSONText TaskStats persistedStats, JSONText ParentReviewState Some, JSONText GitSnapshot Some,
          JSONText parentActionBeginRecord Some}.
(** The files before the action: the task waits in [source], nothing is
    journalled, there is no checkpoint, and a review of the task is stored. *)
Context (G : fileMap) (source id data : string) (state : ParentReviewState).
Context (Hplain : plain_state G) (Hid : id ≠ "").
Context (Hsource : source = TaskStatusWaitingDecision ∧ is_Some (G !! Path pendingDecision) ∨
                   source = TaskStatusWaitingSolReview ∧ G !! Path pendingDecision = None).
Context (Htask : G !! Path taskIDFile = Some (text (id +:+ newline))) (Htrim : TrimSpace (id +:+ newline) = id).
Context (Hstatus : G !! Path statusFile = Some (text (source +:+ newline))).
Context (Hjournal : G !! Path parentActionBeginStateFile = None) (Hresume : G !! Path resumeStateFile = None).
Context (Hreview : G !! Path parentReviewStateFile = Some (text data)).
Context (Hdecode : decodeParentReviewState data = Ok state) (Hstate : rv_TaskID state = id).
(** Its journal. *)
Definition actionRollback : ParentActionRollback :=
  {| rk_status := source; rk_pending := snapshot_of G pendingDecision; rk_review := snapshot_of G parentReviewStateFile |}.
Definition journal : parentActionBeginRecord := beginRecord id actionRollback.
Context (Hclean : clean journal) (Hcloses : closes_clean).

(** The files of an action under way: journalled, and possibly active, with the
    review possibly closed. *)
Definition closedText : string := marshal (closedReview state) +:+ newline.
Definition under_way (active closed : bool) : fileMap :=
  <[Path parentReviewStateFile := text (if closed then closedText else data)]>
    (with_status (if active then TaskStatusActive else source)
      (<[Path parentActionBeginStateFile := text (marshal journal +:+ newline)]> G)).
Definition stage (d : Disk) : Prop :=
  at_files G d ∨ ∃ active closed : bool, (closed → active) ∧ at_files (under_way active closed) d.

(** *** The stages as maps *)
Lemma journal_written : <[Path parentActionBeginStateFile := text (marshal journal +:+ newline)]> G = under_way false false.
Proof.
  unfold under_way, with_status. rewrite (insert_id _ (Path statusFile)), (insert_id _ (Path parentReviewStateFile)); [done|..].
  - by rewrite lookup_insert_ne.
  - by rewrite lookup_insert_ne.
Qed.
Lemma status_written (active active' closed : bool) :
  with_status (if active' then TaskStatusActive else source) (under_way active closed) = under_way active' closed.
Proof.
  unfold under_way, with_status. rewrite insert_insert_ne by done. by rewrite insert_insert_eq.
Qed.
Lemma review_closed (active closed : bool) :
  <[Path parentReviewStateFile := text closedText]> (under_way active closed) = under_way active true.
Proof. unfold under_way. by rewrite insert_insert_eq. Qed.
Lemma review_restored (active closed : bool) :
  partial_alter (λ _, G !! Path parentReviewStateFile) (Path parentReviewStateFile) (under_way active closed) =
  under_way active false.
Proof. rewrite Hreview. exact (insert_insert_eq _ _ _ _). Qed.
Lemma pending_restored (active closed : bool) :
  partial_alter (λ _, G !! Path pendingDecision) (Path pendingDecision) (under_way active closed) =
  under_way active closed.
Proof.
  apply map_eq. intros p. destruct (decide (p = Path pendingDecision)) as [->|].
  - rewrite lookup_partial_alter_eq. unfold under_way, with_status. by rewrite !lookup_insert_ne.
  - by rewrite lookup_partial_alter_ne.
Qed.
Lemma begin_removed : delete (Path parentActionBeginStateFile) (under_way false false) = G.
Proof. rewrite <- journal_written. by rewrite delete_insert_id. Qed.

(** *** What the stages say *)
Lemma under_way_other name (active closed : bool) :
  name ∉ [parentReviewStateFile; statusFile; parentActionBeginStateFile] →
  under_way active closed !! Path name = G !! Path name.
Proof. intros Hn. unfold under_way, with_status. rewrite !lookup_insert_ne; [done|..]; intros [=]; set_solver. Qed.
Lemma content_other name (active closed : bool) :
  name ∉ [parentReviewStateFile; statusFile; parentActionBeginStateFile] →
  content_of (under_way active closed) name = content_of G name.
Proof. intros Hn. unfold content_of. by rewrite under_way_other. Qed.
Definition stage_status (active : bool) : string := if active then TaskStatusActive else source.
Lemma source_text : TrimSpace (source +:+ newline) = source ∧ source ≠ "" ∧ source ≠ TaskStatusNone ∧ source ≠ TaskStatusActive.
Proof. destruct Hsource as [[-> _]|[-> _]]; done. Qed.
Lemma under_way_status (active closed : bool) :
  under_way active closed !! Path statusFile = Some (text (stage_status active +:+ newline)).
Proof. unfold under_way, with_status. by rewrite lookup_insert_ne, lookup_insert_eq. Qed.
Lemma stage_status_text (active : bool) : TrimSpace (stage_status active +:+ newline) = stage_status active.
Proof. destruct active; [done|]. apply source_text. Qed.
Lemma at_task X :
  X !! Path taskIDFile = Some (text (id +:+ newline)) →
  triple (at_files X) TaskID (λ i d, i = id ∧ at_files X d) (at_files X).
Proof.
  intros HX d Hd. destruct (TaskID d) as [[i|e] d'] eqn:E;
    pose proof (preserves_eq _ _ _ _ _ E) as ->; [|done]. split; [|done].
  apply TaskID_Ok in E as (_ & E & _). destruct (content _ d) as [s|e] eqn:Ec; [|done].
  apply (at_content _ _ _ _ Hd) in Ec; [|done]. unfold content_of in Ec. rewrite HX in Ec.
  injection Ec as <-. simpl in E. rewrite Htrim in E. by injection E.
Qed.
Lemma under_way_task (active closed : bool) : under_way active closed !! Path taskIDFile = Some (text (id +:+ newline)).
Proof. rewrite under_way_other by set_solver. done. Qed.
(** The review read before it is closed. *)
Lemma at_resolution (active : bool) :
  triple (at_files (under_way active false)) parentReviewResolutionState
    (λ found d, (found = None ∨ ∃ open, found = Some (state, open)) ∧ at_files (under_way active false) d)
    (at_files (under_way active false)).
Proof.
  intros d Hd. destruct (parentReviewResolutionState d) as [[found|e] d'] eqn:E;
    pose proof (preserves_eq _ _ _ _ _ E) as ->; [|done]. split; [|done].
  unfold parentReviewResolutionState in E. apply io_bind_Ok in E as (res & d1 & Hr & E).
  apply (proj1 (attempt_Ok _ _ _ _)) in Hr. rewrite Read_eq in Hr. injection Hr as <- <-.
  destruct (trimmed _) as [i|e]; [|destruct (IsNotExist e); [left; by injection E|done]].
  case_bool_decide; [left; by injection E|].
  apply io_bind_Ok in E as (state' & d2 & Hl & E). injection E as <- _.
  apply loadParentReviewState_Ok in Hl as ((data' & Hc & Hdec) & _).
  apply (at_content _ _ _ _ Hd) in Hc; [|done]. unfold content_of, under_way in Hc. rewrite lookup_insert_eq in Hc.
  injection Hc as <-. rewrite Hdecode in Hdec. injection Hdec as <-.
  destruct (rv_Open state) as [open|]; simpl; eauto.
Qed.
Lemma at_outcome kind origin cause :
  kind ≠ ParentOutcomeAccepted →
  triple (at_files (under_way true false)) (RecordParentOutcome kind origin cause) (λ _, stage)
    (at_files (under_way true false)).
Proof.
  intros Hk. unfold RecordParentOutcome. doing ltac:(apply at_task, under_way_task). apply triple_pure. intros ->.
  eapply (triple_bind _ (λ o : option ParentReviewOpenState, at_files (under_way true (if o then true else false)))).
  { unfold resolveParentReviewState, resolveParentReviewStateWithCompletion.
    eapply triple_bind; [apply reads_triple; preserving|intros ?].
    doing ltac:(apply at_resolution). apply triple_pure. intros [->|[open ->]]; [by apply triple_ret|].
    rewrite bool_decide_false by done. simpl andb. cbv iota.
    eapply (triple_bind _ (λ (c : option ParentCompletionOutcome) d, c = None ∧ at_files (under_way true false) d)); [by intros d Hd|].
    intros c. apply triple_pure. intros ->.
    eapply (triple_bind _ (λ (c : option ParentCompletionOutcome) d, c = None ∧ at_files (under_way true false) d)); [by apply triple_ret|].
    intros c. apply triple_pure. intros ->.
    eapply (triple_bind _ (λ _, at_files (under_way true true))); [|intros; by apply triple_ret].
    apply triple_wrap. rewrite <- (review_closed true false). apply at_write. }
  intros o. destruct o as [resolved|]; [|apply triple_ret; intros d Hd; right; exists true, false; by split].
  eapply triple_consequence; [apply (closing_events (at_files (under_way true true)))|done| |done].
  intros b d [_ Hd]. right. exists true, true. by split.
Qed.

(** *** The action *)
Lemma in_stage (active closed : bool) d : (closed → active) → at_files (under_way active closed) d → stage d.
Proof. intros. right. by exists active, closed. Qed.
Lemma stage_error {A} P (m : io A) Q (active closed : bool) :
  (closed → active) → triple P m Q (at_files (under_way active closed)) → triple P m Q stage.
Proof. intros Hca Hm. eapply triple_consequence; [exact Hm|done|done|]. intros d. by apply in_stage. Qed.
Lemma rollback_stage {A} (active closed : bool) cause (Q : A → Disk → Prop) :
  (closed → active) →
  triple (at_files (under_way active closed)) (rollbackParentAction actionRollback cause) Q stage.
Proof.
  intros Hca. unfold rollbackParentAction. cbv zeta.
  eapply triple_bind; [apply (stage_error _ _ _ active closed); [done|]; apply triple_wrap, at_restore; [done|reflexivity]|].
  intros []. rewrite review_restored.
  eapply triple_bind; [apply (stage_error _ _ _ active false); [done|]; apply triple_wrap, at_restore; [done|reflexivity]|].
  intros []. rewrite pending_restored.
  eapply triple_bind; [apply (stage_error _ _ _ active false); [done|]; apply triple_wrap, at_status|].
  intros []. rewrite (status_written active false).
  eapply triple_bind; [apply (stage_error _ _ _ false false); [done|]; apply triple_wrap, at_remove; reflexivity|].
  intros []. rewrite begin_removed. apply triple_fail. intros d Hd. by left.
Qed.
Lemma or_rollback_stage {A} (m : io A) (active closed : bool) P Q :
  (closed → active) → triple P m Q (at_files (under_way active closed)) →
  triple P (or_rollback_action m actionRollback) Q stage.
Proof.
  intros Hca Hm. unfold or_rollback_action.
  eapply triple_bind; [by apply (triple_attempt _ _ _ _ stage Hm)|].
  intros [a|e]; [by apply triple_ret|by apply rollback_stage].
Qed.
Lemma save_stage :
  triple (at_files G) (saveParentActionBegin actionRollback) (λ _, at_files (under_way false false)) (at_files G).
Proof.
  unfold saveParentActionBegin. do 5 transition_step. doing ltac:(by apply at_task). apply triple_pure. intros ->.
  apply triple_wrap. rewrite <- journal_written. apply at_write.
Qed.
Lemma snapshot_stage :
  triple (at_files G) snapshotParentActionRollback
    (λ rb d, (rb = actionRollback ∨ rk_status rb = TaskStatusNone) ∧ at_files G d) (at_files G).
Proof.
  unfold snapshotParentActionRollback.
  doing ltac:(by apply at_snapshot). apply triple_pure. intros ->.
  doing ltac:(by apply at_snapshot). apply triple_pure. intros ->.
  destruct source_text as (Ht & _).
  doing ltac:(by apply at_read_status). apply triple_pure. intros Hs. apply triple_ret. intros d Hd. split; [|done].
  destruct Hs as [->| ->]; [by left|by right].
Qed.
Lemma action_stage count kind origin cause :
  (∀ P, Quiet P → triple P count (λ _, P) stage) → kind ≠ ParentOutcomeAccepted →
  triple (at_files G)
    (rollback ← snapshotParentActionRollback;
     _ ← saveParentActionBegin rollback;
     _ ← or_rollback_action (SetTaskStatus TaskStatusActive) rollback;
     _ ← count : io unit;
     _ ← or_rollback_action (RecordParentOutcome kind origin cause) rollback;
     mret rollback) (λ _, stage) stage.
Proof.
  intros Hcount Hk. eapply triple_bind.
  { eapply triple_consequence; [apply snapshot_stage|done|done|]. intros d Hd. by left. }
  intros rb. apply triple_pure. intros [->|Hnone].
  - eapply triple_bind.
    { eapply triple_consequence; [apply save_stage|done|done|]. intros d Hd. by left. }
    intros []. eapply (triple_bind _ (λ _, at_files (under_way true false))).
    { apply (or_rollback_stage _ false false); [done|]. rewrite <- (status_written false true). apply at_status. }
    intros []. doing ltac:(apply Hcount, _).
    eapply (triple_bind _ (λ _, stage)); [|intros; by apply triple_ret].
    apply (or_rollback_stage _ true false); [done|]. by apply at_outcome.
  - eapply (triple_bind _ (λ _ _, False)); [|by intros ? d].
    unfold saveParentActionBegin. rewrite Hnone. apply triple_fail. intros d Hd. by left.
Qed.
Lemma begin_stage waiting begin : parent_action waiting begin → triple (at_files G) begin (λ _, stage) stage.
Proof.
  intros Hb. assert (∀ d, at_files G d → stage d) as HG by (intros d Hd; by left).
  destruct Hb as [|origin cause].
  - unfold BeginParentDecision. do 2 (eapply triple_bind; [by apply triple_reads; [apply _|]|intros ?]).
    apply triple_guard; [by auto|intros _]. apply action_stage; [|done].
    intros P HP. by apply UpdateTaskStats_triple.
  - unfold BeginParentFix. do 2 (eapply triple_bind; [by apply triple_reads; [apply _|]|intros ?]).
    apply triple_guard; [by auto|intros _]. apply action_stage; [|done].
    intros P HP. by apply UpdateTaskStats_triple.
Qed.

(** *** Its recovery, interrupted *)
Lemma load_journal_inv X d record d' :
  at_files X d → loadParentActionBegin d = (Ok record, d') →
  ∃ text, content_of X parentActionBeginStateFile = Ok text ∧ unmarshal text = Some record.
Proof.
  intros Hd E. unfold loadParentActionBegin in E. apply io_bind_Ok in E as (res & d1 & Hr & E).
  apply (proj1 (attempt_Ok _ _ _ _)) in Hr. rewrite ReadFile_eq in Hr. injection Hr as <- <-.
  destruct (content _ d) as [t|e] eqn:Ec; [|done]. apply (at_content _ _ _ _ Hd) in Ec; [|done].
  exists t. split; [done|]. destruct (unmarshal t) as [r|]; [|done]. io_inv E. done.
Qed.
Lemma journal_content (active closed : bool) :
  content_of (under_way active closed) parentActionBeginStateFile = Ok (marshal journal +:+ newline).
Proof.
  unfold content_of, under_way, with_status. rewrite !(lookup_insert_ne _ (Path _) (Path parentActionBeginStateFile)) by done.
  by rewrite lookup_insert_eq.
Qed.
Lemma at_load_journal (active closed : bool) :
  triple (at_files (under_way active closed)) loadParentActionBegin
    (λ r d, r = journal ∧ at_files (under_way active closed) d) (at_files (under_way active closed)).
Proof.
  intros d Hd. destruct (loadParentActionBegin d) as [[r|e] d'] eqn:E;
    pose proof (preserves_eq _ _ _ _ _ E) as ->; [|done]. split; [|done].
  destruct (load_journal_inv _ _ _ _ Hd E) as (t & Hc & Hu). rewrite journal_content in Hc. injection Hc as <-.
  rewrite (unmarshal_line journal journal Hclean eq_refl) in Hu. by injection Hu.
Qed.
Lemma at_no_journal Q : triple (at_files G) loadParentActionBegin Q (at_files G).
Proof.
  intros d Hd. destruct (loadParentActionBegin d) as [[r|e] d'] eqn:E;
    pose proof (preserves_eq _ _ _ _ _ E) as ->; [|done].
  destruct (load_journal_inv _ _ _ _ Hd E) as (t & Hc & _). unfold content_of in Hc. by rewrite Hjournal in Hc.
Qed.
#[export] Instance validateCurrent_reads record : Preserves eq (validateParentActionBeginCurrentSnapshots record).
Proof. unfold validateParentActionBeginCurrentSnapshots. preserving. Qed.
Lemma at_validated (active closed : bool) :
  triple (at_files (under_way active closed)) (validateParentActionBeginRecovery journal)
    (λ s d, s = stage_status active ∧ at_files (under_way active closed) d) (at_files (under_way active closed)).
Proof.
  unfold validateParentActionBeginRecovery. do 2 transition_step.
  destruct source_text as (_ & _ & Hnone & Hne).
  doing ltac:(apply at_read_status; [apply under_way_status|apply stage_status_text]).
  apply triple_pure. intros Hs. apply triple_guard; [done|]. intros Hg. transition. apply triple_ret. intros d Hd.
  split; [|done]. destruct Hs as [|Hs]; [done|]. exfalso. subst. apply andb_false_iff in Hg as [Hg|Hg];
    apply negb_false_iff in Hg; bool_simp; [done|]. by apply Hnone.
Qed.
Lemma at_resume (active closed : bool) record :
  triple (at_files (under_way active closed)) (clearParentActionBeginResume record)
    (λ _, at_files (under_way active closed)) (at_files (under_way active closed)).
Proof.
  intros d Hd. unfold clearParentActionBeginResume, attempt, mbind, io_bind.
  destruct (LoadResumeCheckpoint d) as [[c|e] d'] eqn:E; pose proof (preserves_eq _ _ _ _ _ E) as ->; [|by destruct (IsNoCheckpoint e)].
  exfalso. unfold LoadResumeCheckpoint in E. apply io_bind_Ok in E as (res & d1 & Hr & E).
  apply (proj1 (attempt_Ok _ _ _ _)) in Hr. rewrite ReadFile_eq in Hr. injection Hr as <- <-.
  destruct (content _ d) as [t|e] eqn:Ec; [|done]. apply (at_content _ _ _ _ Hd) in Ec; [|done].
  rewrite content_other in Ec by set_solver. unfold content_of in Ec. by rewrite Hresume in Ec.
Qed.
Lemma snapshot_journalled name : snapshotOf name (parentActionSnapshotFromLifecycle (snapshot_of G name)) = snapshot_of G name.
Proof. unfold snapshotOf, snapshot_of. by destruct (content_of G name). Qed.
Lemma source_set (active : bool) (P : fileMap → Disk → Prop) E :
  triple (P (under_way true false)) (SetTaskStatus source) (λ _, P (with_status source (under_way true false))) E →
  triple (P (under_way active false))
    (if bool_decide (stage_status active = TaskStatusActive) then SetTaskStatus source else mret ())
    (λ _, P (under_way false false)) E.
Proof.
  intros Hset. destruct active; simpl.
  - by rewrite (status_written true false) in Hset.
  - rewrite bool_decide_false by apply source_text. by apply triple_ret.
Qed.
Lemma recover_stage : triple stage RecoverParentActionBeginFromState (λ _, at_files G) stage.
Proof.
  intros d [Hd|(active & closed & Hca & Hd)]; revert d Hd.
  - unfold RecoverParentActionBeginFromState. apply (triple_consequence _ (at_files G) _ (λ _, at_files G) _ (at_files G));
      [|done|done|by left].
    eapply (triple_bind _ (λ _ _, False)); [apply at_no_journal|]. by intros ? d.
  - unfold RecoverParentActionBeginFromState.
    eapply triple_bind; [apply (stage_error _ _ _ active closed Hca), at_load_journal|].
    intros r. apply triple_pure. intros ->.
    eapply triple_bind; [apply (stage_error _ _ _ active closed Hca), at_validated|].
    intros s. apply triple_pure. intros ->.
    eapply triple_bind; [apply (stage_error _ _ _ active closed Hca), at_resume|]. intros [].
    eapply (triple_bind _ (λ _, at_files (under_way active false))).
    { unfold restoreParentActionBeginSnapshots. simpl. rewrite !snapshot_journalled.
      eapply triple_bind; [apply (stage_error _ _ _ active closed Hca); by apply at_restore|].
      intros []. rewrite review_restored. apply (stage_error _ _ _ active false); [done|].
      pose proof (at_restore G (under_way active false) pendingDecision Hplain eq_refl) as Hp.
      by rewrite pending_restored in Hp. }
    intros []. eapply (triple_bind _ (λ _, at_files (under_way false false))).
    { apply (source_set active at_files). apply (stage_error _ _ _ true false); [done|]. apply at_status. }
    intros []. eapply (triple_bind _ (λ _, at_files G)); [|intros; by apply triple_ret].
    apply (stage_error _ _ _ false false); [done|].
    pose proof (at_remove (under_way false false) parentActionBeginStateFile eq_refl) as Hrm. by rewrite begin_removed in Hrm.
Qed.

(** *** Its recovery, uninterrupted *)
Lemma review_content : content_of G parentReviewStateFile = Ok data.
Proof. unfold content_of. by rewrite Hreview. Qed.
Lemma begin_valid : validateParentActionBeginRecord journal = Ok ().
Proof.
  unfold validateParentActionBeginRecord. simpl. rewrite bool_decide_false by done.
  assert (validateParentActionBeginSource journal = Ok ()) as ->.
  { unfold validateParentActionBeginSource, journal, beginRecord, actionRollback, snapshot_of, content_of.
    destruct Hsource as [[Es [doc Hd]]|[Es Hd]]; rewrite Hd; simpl; rewrite Es; [|done].
    by destruct (Hplain pendingDecision _ eq_refl Hd) as [s ->]. }
  assert (validateParentActionBeginSnapshotShape journal = Ok ()) as ->.
  { unfold validateParentActionBeginSnapshotShape, journal, beginRecord, actionRollback, snapshot_of.
    by destruct (content_of G pendingDecision), (content_of G parentReviewStateFile). }
  unfold validateParentActionBeginReviewSnapshot, journal, beginRecord, actionRollback, snapshot_of.
  rewrite review_content. simpl.
  unfold decodeParentReviewState in Hdecode. destruct (unmarshal data) as [st|]; [|done].
  revert Hdecode. intros E. result_inv E. bool_simp. rewrite Hstate, bool_decide_true by done. simpl.
  rewrite (bool_decide_true (id = id)), Ha by done. simpl. rewrite Ha0. by destruct a0.
Qed.
Lemma state_task X d :
  state_is X d → X !! Path taskIDFile = Some (text (id +:+ newline)) → TaskID d = (Ok id, d).
Proof.
  intros Hd HX. apply TaskID_Ok. split; [done|]. split; [|done]. rewrite (content_state _ _ _ Hd) by done.
  unfold content_of. rewrite HX. simpl. by rewrite Htrim.
Qed.
Section Healthy.
Context (active closed : bool) (d : Disk) (Hd : state_is (under_way active closed) d).
Lemma run_load_journal : loadParentActionBegin d = (Ok journal, d).
Proof.
  unfold loadParentActionBegin, attempt, mbind, io_bind. rewrite ReadFile_eq, (content_state _ _ _ Hd) by done.
  rewrite journal_content, (unmarshal_line journal journal Hclean eq_refl). by rewrite begin_valid.
Qed.
Lemma run_snapshot name :
  observation (Path name) = false → plain_state (under_way active closed) →
  snapshotLifecycleFile name d = (Ok (snapshot_of (under_way active closed) name), d).
Proof.
  intros Ho HX. unfold snapshotLifecycleFile, snapshot_of, attempt, mbind, io_bind.
  rewrite ReadFile_eq, (content_state _ _ _ Hd) by done. unfold content_of.
  destruct (_ !! Path name) as [doc|] eqn:E; [|done]. by destruct (HX _ _ Ho E) as [s ->].
Qed.
Lemma under_way_plain : plain_state (under_way active closed).
Proof.
  intros name doc Ho. unfold under_way, with_status. rewrite !lookup_insert_Some.
  intros [[_ <-]|[_ [[_ <-]|[_ [[_ <-]|[_ Hl]]]]]]; eauto.
Qed.
Lemma run_current : validateParentActionBeginCurrentSnapshots journal d = (Ok (), d).
Proof.
  unfold validateParentActionBeginCurrentSnapshots.
  assert (∀ name, sameParentActionSnapshot (snapshot_of G name) (parentActionSnapshotFromLifecycle (snapshot_of G name)) = true) as Hsame.
  { intros name. unfold sameParentActionSnapshot. simpl. by rewrite !bool_decide_true. }
  assert (snapshot_of (under_way active closed) pendingDecision = snapshot_of G pendingDecision) as Ep.
  { unfold snapshot_of. rewrite content_other; [done|set_solver]. }
  io_step (run_snapshot pendingDecision eq_refl under_way_plain).
  rewrite pass_guard by (simpl; rewrite Ep; by rewrite Hsame).
  io_step (run_snapshot parentReviewStateFile eq_refl under_way_plain).
  destruct (sameParentActionSnapshot (snapshot_of (under_way active closed) _) _) eqn:Es; [done|]. cbv zeta.
  assert (closed = true) as ->.
  { destruct closed; [done|]. exfalso. revert Es. unfold snapshot_of at 1, content_of at 1, under_way. rewrite lookup_insert_eq.
    simpl. unfold snapshot_of. rewrite review_content. unfold sameParentActionSnapshot. simpl. by rewrite !bool_decide_true. }
  assert (content_of (under_way active true) parentReviewStateFile = Ok closedText) as Ec
    by (unfold content_of, under_way; by rewrite lookup_insert_eq).
  rewrite pass_guard by (unfold journal, beginRecord, actionRollback, snapshot_of; by rewrite Ec, review_content).
  assert (loadParentReviewState d = (Ok (closedReview state), d)) as Hl.
  { apply loadParentReviewState_Ok. split; [|split; [|done]].
    - exists closedText. split; [by rewrite (content_state _ _ _ Hd), Ec|]. by eapply decode_closed.
    - rewrite (state_task _ _ Hd (under_way_task active true)). by rewrite <- Hstate. }
  io_step Hl. by rewrite pass_guard by done.
Qed.
Lemma run_validated : validateParentActionBeginRecovery journal d = (Ok (stage_status active), d).
Proof.
  unfold validateParentActionBeginRecovery. io_step (state_task _ _ Hd (under_way_task active closed)).
  rewrite pass_guard by (simpl; by rewrite bool_decide_true).
  assert (GetTaskStatus d = (Ok (stage_status active), d)) as Hs.
  { rewrite GetTaskStatus_eq, (content_state _ _ _ Hd) by done. unfold content_of. rewrite under_way_status. simpl.
    rewrite stage_status_text, bool_decide_false; [done|]. destruct active; [done|]. apply source_text. }
  io_step Hs. rewrite pass_guard.
  - by io_step run_current.
  - destruct active; [done|]. simpl. by rewrite (bool_decide_true (source = source)), andb_false_r.
Qed.
Lemma run_resume : clearParentActionBeginResume journal d = (Ok (), d).
Proof.
  unfold clearParentActionBeginResume, LoadResumeCheckpoint, attempt, mbind, io_bind.
  rewrite ReadFile_eq, (content_state _ _ _ Hd), content_other by set_solver. unfold content_of. by rewrite Hresume.
Qed.
End Healthy.
Lemma restore_runs X name :
  observation (Path name) = false →
  triple (state_is X) (restoreLifecycleFile (snapshot_of G name))
    (λ _, state_is (partial_alter (λ _, G !! Path name) (Path name) X)) (λ _, False).
Proof.
  intros Ho. unfold restoreLifecycleFile, snapshot_of, content_of. destruct (G !! Path name) as [doc|] eqn:E; simpl.
  - destruct (Hplain _ _ Ho E) as [s ->]. simpl. apply triple_wrap, write_runs.
  - apply remove_runs.
Qed.
Lemma recover_runs (active closed : bool) :
  triple (state_is (under_way active closed)) RecoverParentActionBeginFromState
    (λ s d, s = source ∧ state_is G d) (λ _, False).
Proof.
  intros d Hd. unfold RecoverParentActionBeginFromState.
  erewrite io_bind_step by exact (run_load_journal active closed d Hd). cbn beta.
  erewrite io_bind_step by exact (run_validated active closed d Hd). cbn beta.
  erewrite io_bind_step by exact (run_resume active closed d Hd). cbn beta. revert d Hd.
  eapply (triple_bind _ (λ _, state_is (under_way active false))).
  { unfold restoreParentActionBeginSnapshots. simpl. rewrite !snapshot_journalled.
    eapply triple_bind; [by apply restore_runs|]. intros []. rewrite review_restored.
    pose proof (restore_runs (under_way active false) pendingDecision eq_refl) as Hp. by rewrite pending_restored in Hp. }
  intros []. eapply (triple_bind _ (λ _, state_is (under_way false false))).
  { apply (source_set active state_is), SetTaskStatus_runs. }
  intros []. eapply (triple_bind _ (λ _, state_is G)); [|intros; by apply triple_ret].
  pose proof (remove_runs (under_way false false) parentActionBeginStateFile) as Hrm. by rewrite begin_removed in Hrm.
Qed.
Lemma nothing_to_recover d : state_is G d → RecoverParentActionBeginFromState d = (Err errNoParentActionBegin, d).
Proof.
  intros Hd. unfold RecoverParentActionBeginFromState, loadParentActionBegin, attempt, mbind, io_bind.
  rewrite ReadFile_eq, (content_state _ _ _ Hd) by done. unfold content_of. by rewrite Hjournal.
Qed.
Lemma at_state X d : plain_state X → unreadable d = ∅ → unwritable d = ∅ → power d = None → at_files X d → state_is X d.
Proof.
  intros HX Hr Hw Hp Hd. split; [done..| |].
  - intros name doc Ho. rewrite Hd by done. by apply HX.
  - intros p Ho. left. by apply Hd.
Qed.
(** The disks that runs of the action and of its recovery leave behind, in
    whatever environments they run and stop. *)
Inductive aftermath (begin : io ParentActionRollback) : Disk → Prop :=
  | after_begin d : at_files G d → aftermath begin (begin d).2
  | after_recovery d : aftermath begin d → aftermath begin (RecoverParentActionBeginFromState d).2
  | after_change d d' : aftermath begin d → at_files (files d) d' → aftermath begin d'.
Lemma aftermath_stage waiting begin d : parent_action waiting begin → aftermath begin d → stage d.
Proof.
  intros Hb. induction 1 as [d Hd|d _ IH|d d' _ IH Hd'].
  - pose proof (begin_stage _ _ Hb d Hd) as Ht. by destruct (begin d) as [[|] ?].
  - pose proof (recover_stage d IH) as Ht. destruct (RecoverParentActionBeginFromState d) as [[|] ?]; [by left|done].
  - assert (∀ X, at_files X d → at_files X d') as HX by (intros X HX p Hp; by rewrite Hd', HX).
    destruct IH as [IH|(a & c & Hca & IH)]; [left; by apply HX|]. apply (in_stage a c); [done|by apply HX].
Qed.
Lemma aftermath_recovers waiting begin d :
  parent_action waiting begin → aftermath begin d → healthy d →
  match RecoverParentActionBeginFromState d with
  | (Ok status, d') => status = source ∧ at_files G d'
  | (Err e, d') => e = errNoParentActionBegin ∧ d' = d ∧ at_files G d
  end.
Proof.
  intros Hb Ha (Hr & Hw & Hp). destruct (aftermath_stage _ _ _ Hb Ha) as [Hd|(active & closed & Hca & Hd)].
  - by rewrite nothing_to_recover by by apply at_state.
  - pose proof (recover_runs active closed d (at_state _ _ (under_way_plain active closed) Hr Hw Hp Hd)) as Ht.
    destruct (RecoverParentActionBeginFromState d) as [[s|e] d']; [|done]. destruct Ht as [-> Ht]. split; [done|].
    intros p Ho. by destruct (in_files _ _ _ _ _ Ht p Ho) as [|[_ ?%elem_of_nil]].
Qed.
End Action.

(** ** The theorem *)
Section Recovery.
Context `{Unicode, MachineEncoder, ResumeText, GitState, JSONLog}.
Context `{JSONText TaskStats persistedStats, JSONText ParentReviewState Some, JSONText GitSnapshot Some,
          JSONText parentActionBeginRecord Some}.
(** A task that waits in [source] for its parent, with the stored review [state]. *)
Record waits (G : fileMap) (source id : string) (state : ParentReviewState) : Prop := {
  wt_plain : plain_state G;
  wt_id : id ≠ "" ∧ TrimSpace (id +:+ newline) = id;
  wt_source : source = TaskStatusWaitingDecision ∧ is_Some (G !! Path pendingDecision) ∨
              source = TaskStatusWaitingSolReview ∧ G !! Path pendingDecision = None;
  wt_task : G !! Path taskIDFile = Some (text (id +:+ newline));
  wt_status : G !! Path statusFile = Some (text (source +:+ newline));
  wt_journal : G !! Path parentActionBeginStateFile = None;
  wt_resume : G !! Path resumeStateFile = None;
  wt_review : ∃ data, G !! Path parentReviewStateFile = Some (text data) ∧ decodeParentReviewState data = Ok state;
  wt_state : rv_TaskID state = id;
}.
(** C5: An interrupted decision or fix of the parent can always be taken back.
    Let [BeginParentDecision] or [BeginParentFix] run on a task that waits for
    its parent, in any environment - accesses may be refused, and the machine may
    stop between any two changes - and let its recovery run any number of times
    in environments as bad.  Then one recovery that is not disturbed succeeds and
    gives back the status the task waited in, with every file of the state as it
    was before the action; or there is nothing to recover, because every file of
    the state already is. *)
Theorem interrupted_action_recovers G source id state begin d :
  waits G source id state → clean (journal G source id) → closes_clean → parent_action source begin →
  aftermath G begin d → healthy d →
  match RecoverParentActionBeginFromState d with
  | (Ok status, d') => status = source ∧ at_files G d'
  | (Err e, d') => e = errNoParentActionBegin ∧ d' = d ∧ at_files G d
  end.
Proof. intros [? [] ? ? ? ? ? [data []] ?] **. by eapply aftermath_recovers. Qed.
End Recovery.
(** The machine stops after the status was set to active: the fifth change. *)
Definition waitingDisk : Disk :=
  stateDisk TaskStatusWaitingDecision [(pendingDecision, "1"); (parentReviewStateFile, StatusNeedsSolDecision)] [].
Definition crashedDisk : Disk := mend (BeginParentDecision (waitingDisk {{ power := Some 5 }})).2.
Lemma at_mend d : at_files (files d) (mend d).
Proof. by intros p _. Qed.
Lemma at_power d n : at_files (files d) (d {{ power := n }}).
Proof. by intros p _. Qed.
Lemma crashed_aftermath : aftermath (files waitingDisk) BeginParentDecision crashedDisk.
Proof. exact (after_change _ _ _ _ (after_begin _ _ _ (at_power waitingDisk (Some 5))) (at_mend _)). Qed.
Lemma crashed_recovers : is_ok (RecoverParentActionBeginFromState crashedDisk).1 = true.
Proof. vm_compute. reflexivity. Qed.
Lemma waitingDisk_waits :
  waits (files waitingDisk) TaskStatusWaitingDecision exampleTask (exampleReview (Some (exampleOpen StatusNeedsSolDecision))).
Proof.
  split; try (vm_compute; reflexivity).
  - apply stateFiles_plain.
  - done.
  - left. split; [done|]. eexists. vm_compute. reflexivity.
  - eexists. split; vm_compute; reflexivity.
Qed.
Lemma waitingDisk_journal : clean (journal (files waitingDisk) TaskStatusWaitingDecision exampleTask).
Proof.
  assert (journal (files waitingDisk) TaskStatusWaitingDecision exampleTask =
          actionRecord TaskStatusWaitingDecision true StatusNeedsSolDecision) as -> by (vm_compute; reflexivity).
  left.
Qed.
Lemma interrupted_action_recovers_witness :
  ∃ d', RecoverParentActionBeginFromState crashedDisk = (Ok TaskStatusWaitingDecision, d') ∧
        at_files (files waitingDisk) d'.
Proof.
  pose proof crashed_recovers as Hok.
  pose proof (interrupted_action_recovers (files waitingDisk) TaskStatusWaitingDecision exampleTask
    (exampleReview (Some (exampleOpen StatusNeedsSolDecision))) BeginParentDecision crashedDisk waitingDisk_waits
    waitingDisk_journal example_closes decide_action
    crashed_aftermath (mend_healthy _)) as Hr.
  destruct (RecoverParentActionBeginFromState crashedDisk) as [[status|e] d']; [|discriminate Hok].
  destruct Hr as [-> Hd']. by exists d'.
Defined.
