(* ===== verification/ReviewEvidence.v ===== *)
(** * The evidence of a review

    A review that asks for the parent's own reading is accepted only on current
    evidence; the coverage of its targets grows claim by claim, and the proof is
    there exactly when every target is covered. *)
From S2P Require Import Prelude GoStrings GoText ControllerTypes ControllerStore CrashLogic Packet SessionTypes SessionStore ResumeCheckpoint ParentReview Lifecycle SessionLogic ReviewLogic SessionExamples ResumeLogic ActionRecovery.

Section Acceptance.
Context `{Unicode, MachineEncoder, ResumeText, GitState, JSONLog}.
Context `{JSONText TaskStats persistedStats, JSONText ParentReviewState Some, JSONText GitSnapshot Some,
          JSONText parentActionBeginRecord Some}.

(** The evidence of an open review, at the working tree of the task. *)
Record current_evidence (d : Disk) (binding : ParentReviewBinding) : Prop := {
  ev_proof : ∃ proof, rb_Proof binding = Some proof ∧ pr_ReviewID proof = rb_ID binding ∧
             sameParentReviewSnapshot (pr_Snapshot proof) (rb_Snapshot binding) = true;
  ev_tree : ∃ root current, root ≠ "" ∧ ReadOr "repo-root" "" d = (Ok root, d) ∧ CaptureGitSnapshot root = Ok current ∧
            sameParentReviewSnapshot (snapshotDigest current) (rb_Snapshot binding) = true;
  ev_coverage coverage : rb_Coverage binding = Some coverage →
    ParentEvidenceLeaseEpoch d = (Ok (cv_Lease coverage), d) ∧ parentReviewCoverageComplete binding = true;
}.
Lemma captured_inv d current d' :
  captureCurrentParentReviewSnapshot d = (Ok current, d') →
  ∃ root snapshot, root ≠ "" ∧ ReadOr "repo-root" "" d = (Ok root, d) ∧ CaptureGitSnapshot root = Ok snapshot ∧
    ∀ s, sameParentReviewSnapshot current s = sameParentReviewSnapshot (snapshotDigest snapshot) s.
Proof.
  intros E. unfold captureCurrentParentReviewSnapshot in E. io_inv E.
  apply (preserves_eq _ _ _ _ _) in Ha as Hd. subst. bool_simp. eauto 10.
Qed.
Lemma lease_inv d binding d' :
  parentReviewCoverageLeaseCurrent binding d = (Ok true, d') → ∀ coverage, rb_Coverage binding = Some coverage →
  ParentEvidenceLeaseEpoch d = (Ok (cv_Lease coverage), d) ∧ parentReviewCoverageComplete binding = true.
Proof.
  intros E coverage Hc. unfold parentReviewCoverageLeaseCurrent in E. rewrite Hc in E. io_inv E.
  apply (preserves_eq _ _ _ _ _) in Ha as Hd. subst d'. apply andb_true_iff in H8 as [Hl Hcc]. bool_simp. by rewrite Hl.
Qed.
Lemma ready_inv d d' state open :
  ParentReviewAcceptReady d = (Ok true, d') → loadParentReviewState d = (Ok state, d) → rv_Open state = Some open →
  ro_PacketStatus open = StatusNeedsSolReview →
  ∃ binding, rv_Review state = Some binding ∧ current_evidence d binding.
Proof.
  intros E Hl Ho Hp. unfold ParentReviewAcceptReady in E.
  erewrite io_bind_step in E by (by apply CurrentParentReview_eq). rewrite Ho, Hp in E. simpl in E.
  erewrite io_bind_step in E by exact Hl. destruct (rv_Review state) as [binding|]; [|done].
  destruct (rb_Proof binding) as [proof|] eqn:Epr; [|done].
  case_bool_decide as Hid; simpl in E; [|done].
  apply io_bind_Ok in E as (current & d1 & Hc & E). apply (preserves_eq _ _ _ _ _) in Hc as Hd; subst d1.
  destruct current; simpl in E; [|done].
  apply io_bind_Ok in E as (tree & d1 & Ht & E). apply (preserves_eq _ _ _ _ _) in Ht as Hd; subst d1.
  injection E as E _. apply andb_true_iff in E as [Eb Ep].
  destruct (captured_inv _ _ _ Ht) as (root & snapshot & Hr & Hroot & Hcap & Hsame). rewrite Hsame in Eb, Ep.
  exists binding. split; [done|]. split.
  - exists proof. split; [done|]. split; [done|].
    unfold sameParentReviewSnapshot in *. rewrite !andb_true_iff in *. destruct Eb as [[]], Ep as [[]]. bool_simp.
    rewrite !bool_decide_eq_true. split; [split|]; congruence.
  - exists root, snapshot. done.
  - by eapply lease_inv.
Qed.
(** What an acceptance stores. *)
Definition acceptedReview (state : ParentReviewState) (completion : ParentCompletionOutcome) : ParentReviewState :=
  state {{ rv_Open := None; rv_Review := None; rv_Completion := Some completion }}.
Definition accepted_files (G : fileMap) (state : ParentReviewState) (completion : ParentCompletionOutcome) : fileMap :=
  with_status TaskStatusAwaitingParentCompletion
    (<[Path parentReviewStateFile := text (marshal (acceptedReview state completion) +:+ newline)]> G).
Lemma resolution_inv d state open d' :
  parentReviewResolutionState d = (Ok (Some (state, open)), d') →
  d' = d ∧ loadParentReviewState d = (Ok state, d) ∧ rv_Open state = Some open.
Proof.
  intros E. apply (preserves_eq _ _ _ _ _) in E as Hd; subst d'. split; [done|].
  unfold parentReviewResolutionState in E. apply io_bind_Ok in E as (res & d1 & Hr & E).
  apply (proj1 (attempt_Ok _ _ _ _)) in Hr. apply (preserves_eq _ _ _ _ _) in Hr as Hd; subst d1.
  destruct res as [i|e]; [|by destruct (IsNotExist e)]. case_bool_decide; [done|].
  apply io_bind_Ok in E as (state' & d2 & Hl & E). apply (preserves_eq _ _ _ _ _) in Hl as Hd; subst d2.
  injection E as E. destruct (rv_Open state') as [o|] eqn:Ho; [|done]. injection E as <- <-. done.
Qed.
Lemma completion_inv d resolved d' :
  resolveParentCompletionState ParentOutcomeAccepted SessionRotationTerminalAccept d = (Ok (Some resolved), d') →
  ∃ state completion, loadParentReviewState d = (Ok state, d) ∧ rv_Open state = Some resolved ∧
    ro_PacketStatus resolved ≠ StatusNeedsSolDecision ∧
    co_Terminal completion = SessionRotationTerminalAccept ∧ co_Risk completion = ro_Risk resolved ∧
    (∀ binding, rv_Review state = Some binding → co_Review completion = Some binding ∧
       ∃ source, co_Source completion = Some source ∧ sameParentReviewSnapshot source (rb_Snapshot binding) = true) ∧
    writeParentReviewState (acceptedReview state completion) d = (Ok (), d').
Proof.
  intros E. unfold resolveParentCompletionState, resolveParentReviewStateWithCompletion in E.
  erewrite io_bind_step in E by reflexivity.
  apply io_bind_Ok in E as (found & d1 & Hf & E). destruct found as [[state open]|]; [|done].
  apply resolution_inv in Hf as (-> & Hl & Ho).
  destruct (_ && _) eqn:Eg in E; [done|]. rewrite bool_decide_true in Eg by done. simpl in Eg. bool_simp.
  apply io_bind_Ok in E as (completion & d1 & Hc & E). apply lift_Ok in Hc as [Hc ->].
  unfold parentCompletionOutcome in Hc. rewrite bool_decide_false in Hc by done. cbv zeta in Hc.
  apply result_bind_Ok in Hc as (_ & _ & Hc). injection Hc as <-.
  rewrite bool_decide_true in E by done.
  apply io_bind_Ok in E as (completion & d1 & Hb & E). apply io_bind_Ok in Hb as (bound & d2 & Hb & Eb).
  injection Eb as <- <-. apply (preserves_eq _ _ _ _ _) in Hb as Hd; subst d2.
  apply io_bind_Ok in E as ([] & d1 & Hw & E). injection E as <- <-.
  assert (co_Terminal bound = SessionRotationTerminalAccept ∧ co_Risk bound = ro_Risk open ∧
    ∀ binding, rv_Review state = Some binding → co_Review bound = Some binding ∧
      ∃ source, co_Source bound = Some source ∧ sameParentReviewSnapshot source (rb_Snapshot binding) = true) as (Et & Er & Eb).
  { unfold bindCompletionSource in Hb. destruct (rv_Review state) as [binding|].
    - io_inv Hb. apply (proj1 (negb_false_iff _)) in Hc. split; [done|]. split; [done|].
      intros ? [= <-]. split; [done|]. eexists. split; [done|].
      exact Hc.
    - apply io_bind_Ok in Hb as (ended & d2 & _ & Hb). destruct ended; [|by injection Hb as <- _].
      by io_inv Hb. }
  exists state, bound. repeat (split; [done|]). exact Hw.
Qed.
(** The files of a successful write. *)
Lemma write_at G d d' state :
  at_files G d → writeParentReviewState state d = (Ok (), d') →
  at_files (<[Path parentReviewStateFile := text (marshal state +:+ newline)]> G) d'.
Proof.
  intros Hd E. pose proof (at_write G parentReviewStateFile (marshal state +:+ newline) d Hd) as Ht.
  unfold writeParentReviewState in E. apply (proj1 (io_wrap_Ok _ _ _ _ _)) in E. by rewrite E in Ht.
Qed.
Lemma commit_at G result d d' :
  at_files G d → commitParentCompletion TaskStatusAwaitingParentCompletion false None d = (Ok result, d') →
  cp_transitionErr result = None → at_files (with_status TaskStatusAwaitingParentCompletion G) d'.
Proof.
  intros Hd E Hr. unfold commitParentCompletion in E. simpl in E.
  apply io_bind_Ok in E as (previous & d1 & Hp & E). apply (preserves_eq _ _ _ _ _) in Hp as Hd1; subst d1.
  erewrite io_bind_step in E by reflexivity. simpl in E.
  apply io_bind_Ok in E as (set & d1 & Hs & E). apply (proj1 (attempt_Ok _ _ _ _)) in Hs.
  pose proof (at_status G TaskStatusAwaitingParentCompletion d Hd) as Ht. rewrite Hs in Ht.
  destruct set as [[]|e]; simpl in E.
  - erewrite io_bind_step in E by reflexivity. by injection E as _ <-.
  - erewrite io_bind_step in E by reflexivity. injection E as <- _. done.
Qed.
(** C13: A review that asks for the parent's own reading is accepted only on
    current evidence.  Whenever [AcceptParentReview] succeeds, there was an open
    review, not one that waits for a decision; if it asks for the parent's
    reading, it was bound to a proof for the very binding, the coverage - if any -
    was complete under the current lease, and the working tree as git sees it
    was the one the evidence was taken at.  The completion it stores has the
    risk of the review and the snapshot that was verified, the review is closed
    in the same write, the task awaits its completion, and nothing else of the
    state changes. *)
Theorem accept_needs_evidence d d' :
  AcceptParentReview d = (Ok true, d') →
  ∃ state open completion,
    loadParentReviewState d = (Ok state, d) ∧ rv_Open state = Some open ∧
    ro_PacketStatus open ≠ StatusNeedsSolDecision ∧
    (ro_PacketStatus open = StatusNeedsSolReview →
       ∃ binding, rv_Review state = Some binding ∧ current_evidence d binding) ∧
    co_Terminal completion = SessionRotationTerminalAccept ∧ co_Risk completion = ro_Risk open ∧
    (∀ binding, rv_Review state = Some binding → co_Review completion = Some binding ∧
       ∃ source, co_Source completion = Some source ∧ sameParentReviewSnapshot source (rb_Snapshot binding) = true) ∧
    at_files (accepted_files (files d) state completion) d'.
Proof.
  intros E. unfold AcceptParentReview in E. apply io_bind_Ok in E as ([] & d1 & Hready & E).
  apply (preserves_eq _ _ _ _ _) in Hready as Hd1; subst d1.
  apply io_bind_Ok in E as (snapshot & d1 & Hsn & E). apply (preserves_eq _ _ _ _ _) in Hsn as Hd1; subst d1.
  apply io_bind_Ok in E as (resolved & d1 & Hres & E). destruct resolved as [open|]; [|done].
  destruct (completion_inv _ _ _ Hres) as (state & completion & Hl & Ho & Hne & Hterm & Hrisk & Hbind & Hw).
  exists state, open, completion. repeat (split; [done|]). split.
  { intros Hp. unfold RequireParentReviewAcceptanceEvidence in Hready.
    apply io_bind_Ok in Hready as (ready & d2 & Hr & Hg). destruct ready; [|done]. by eapply ready_inv. }
  repeat (split; [done|]).
  pose proof (write_at (files d) d d1 _ ltac:(done) Hw) as Hd1.
  apply io_bind_Ok in E as (taskID & d2 & Ht & E). apply (preserves_eq _ _ _ _ _) in Ht as Hd2; subst d2.
  destruct taskID as [taskID|e]; [|by apply io_bind_Ok in E as (? & ? & _ & E)].
  apply io_bind_Ok in E as (result & d2 & Hcommit & E).
  destruct (cp_transitionErr result) eqn:Hr; [by apply io_bind_Ok in E as (? & ? & _ & E)|].
  pose proof (commit_at _ _ _ _ Hd1 Hcommit Hr) as Hd2. fold (accepted_files (files d) state completion) in Hd2.
  assert (triple (at_files (accepted_files (files d) state completion))
    (_ ← projectParentCompletionOutcome ParentOutcomeAccepted SessionRotationTerminalAccept open;
     _ ← appendParentOutcomeEvent taskID "parent-accept" ParentOutcomeAccepted "" "" open; mret true)
    (λ _, at_files (accepted_files (files d) state completion)) (λ _, False)) as Hlast.
  { doing ltac:(apply UpdateTaskStats_triple, _). doing ltac:(apply appendParentOutcomeEvent_triple, _). by apply triple_ret. }
  specialize (Hlast d2 Hd2). by rewrite E in Hlast.
Qed.
End Acceptance.
(** The covered review, accepted at the tree it was read at. *)
Definition acceptableDisk : Disk :=
  stateDisk TaskStatusWaitingSolReview [(parentReviewStateFile, "covered"); ("repo-root", "/repo")] [].
Lemma acceptable_accepted :
  match (AcceptParentReview acceptableDisk).1 with Ok b => b | Err _ => false end = true.
Proof. vm_compute. reflexivity. Qed.
Lemma accept_needs_evidence_witness :
  ∃ d' state open completion, AcceptParentReview acceptableDisk = (Ok true, d') ∧
    rv_Open state = Some open ∧ co_Risk completion = ro_Risk open ∧
    at_files (accepted_files (files acceptableDisk) state completion) d'.
Proof.
  pose proof acceptable_accepted as Hok.
  destruct (AcceptParentReview acceptableDisk) as [[[]|e] d'] eqn:E; [|discriminate Hok..].
  destruct (accept_needs_evidence acceptableDisk d' E) as (state & open & completion & _ & Ho & _ & _ & _ & Hr & _ & Hf).
  exists d', state, open, completion. split; [reflexivity|]. split; [exact Ho|]. split; [exact Hr|exact Hf].
Defined.
