(* ===== verification/ReviewCoverage.v ===== *)
(** * The coverage of a review

    The targets of a review are answered claim by claim.  What is covered is a
    finite map from targets to claims; the code keeps it as a list in the order
    of the targets.  The stored review stays valid, and the answer says whether
    the review can be accepted. *)
From S2P Require Import Prelude GoStrings GoText ControllerTypes ControllerStore CrashLogic Packet SessionTypes SessionStore ResumeCheckpoint ParentReview Lifecycle SessionLogic ReviewLogic SessionExamples ActionRecovery ReviewEvidence.

Notation Claim := ParentReviewTargetCoverageClaim.
Implicit Types (claims : list Claim) (targets : list string) (m : gmap string Claim) (binding : ParentReviewBinding).

(** ** Claims by target *)
Definition by_target claims : gmap string Claim := list_to_map ((λ c, (tc_Target c, c)) <$> claims).
Definition covered binding : gmap string Claim := by_target (from_option cv_Claims [] (rb_Coverage binding)).
(** The claims of a call, the last one of a target counting. *)
Definition answered (ownerCallID : string) claims m : gmap string Claim :=
  foldl (λ m c, <[tc_Target c := c {{ tc_OwnerCallID := ownerCallID }}]> m) m claims.
Definition keyed m : Prop := ∀ target c, m !! target = Some c → tc_Target c = target.
Definition admissible targets (c : Claim) : Prop :=
  tc_Target c ∈ targets ∧ tc_OwnerCallID c ≠ "" ∧ validParentReviewEvidenceClaim (tc_Evidence c) = true.

Lemma by_target_keyed claims : keyed (by_target claims).
Proof.
  intros target c Hl. apply elem_of_list_to_map_2 in Hl. apply list_elem_of_fmap in Hl as (? & [= -> ->] & _). done.
Qed.
Lemma keys_by_target claims : ((λ c, (tc_Target c, c)) <$> claims).*1 = tc_Target <$> claims.
Proof. rewrite <-list_fmap_compose. done. Qed.
Lemma by_target_elem claims c :
  NoDup (tc_Target <$> claims) → by_target claims !! tc_Target c = Some c ↔ c ∈ claims.
Proof.
  intros Hd. unfold by_target. rewrite <-elem_of_list_to_map by by rewrite keys_by_target.
  rewrite list_elem_of_fmap. split; [by intros (? & [= _ ->] & ?)|by eauto].
Qed.
Lemma insert_all claims m :
  NoDup (tc_Target <$> claims) → (∀ c, c ∈ claims → m !! tc_Target c = None) →
  foldl (λ m c, <[tc_Target c := c]> m) m claims = by_target claims ∪ m.
Proof.
  revert m. induction claims as [|c claims IH]; intros m Hd Hm; simpl.
  { unfold by_target. simpl. by rewrite (left_id_L ∅ (∪)). }
  rewrite fmap_cons, NoDup_cons in Hd. destruct Hd as [Hn Hd].
  rewrite IH; [|done|].
  - unfold by_target. rewrite fmap_cons. simpl. rewrite <-insert_union_l. symmetry. apply insert_union_r.
    apply not_elem_of_list_to_map_1. by rewrite keys_by_target.
  - intros c' Hc'. rewrite lookup_insert_ne; [apply Hm; set_solver|]. intros Heq. apply Hn. rewrite Heq.
    by apply list_elem_of_fmap_2.
Qed.

(** ** The loops of the code *)
Lemma coverageClaims_ok targets claims seen :
  coverageClaimsLoop targets claims seen = Ok () ↔
  Forall (admissible targets) claims ∧ NoDup (tc_Target <$> claims) ∧ (∀ c, c ∈ claims → tc_Target c ∉ seen).
Proof.
  revert seen. induction claims as [|c claims IH]; intros seen; simpl.
  { split; [|done]. intros _. split; [done|]. split; [constructor|]. by intros ? ?%elem_of_nil. }
  unfold admissible. rewrite Forall_cons, NoDup_cons.
  destruct (validParentReviewEvidenceClaim (tc_Evidence c)); rewrite ?orb_true_r, ?orb_false_r; [|naive_solver].
  destruct (decide (tc_Target c ∈ targets)) as [Ht|Ht];
    [rewrite (bool_decide_true _ Ht)|rewrite (bool_decide_false _ Ht); naive_solver].
  destruct (decide (tc_OwnerCallID c = "")) as [Ho|Ho];
    [rewrite (bool_decide_true _ Ho); naive_solver|rewrite (bool_decide_false _ Ho)]. simpl.
  destruct (decide (tc_Target c ∈ seen)) as [Hs|Hs]; [rewrite (bool_decide_true _ Hs)|rewrite (bool_decide_false _ Hs)].
  { split; [done|]. intros (_ & _ & Hn). destruct (Hn c); [by left|done]. }
  rewrite IH. split.
  - intros (Hf & Hd & Hn). split; [done|]. split.
    + split; [|done]. intros (c' & Hc & Hin)%list_elem_of_fmap. apply (Hn c' Hin). rewrite Hc. set_solver.
    + intros c' [->|Hin]%elem_of_cons; [done|]. specialize (Hn c' Hin). set_solver.
  - intros ([_ Hf] & [Hc Hd] & Hn). split; [done|]. split; [done|]. intros c' Hin.
    rewrite not_elem_of_union, not_elem_of_singleton. split; [|apply Hn; by right].
    intros Heq. apply Hc. rewrite <-Heq. by apply list_elem_of_fmap_2.
Qed.
Lemma mergeClaims_ok targets claims ownerCallID m m' :
  mergeClaimsLoop targets claims ownerCallID m = Ok m' →
  m' = answered ownerCallID claims m ∧
  Forall (λ c, tc_Target c ∈ targets ∧ validParentReviewEvidenceClaim (tc_Evidence c) = true) claims.
Proof.
  revert m. induction claims as [|c claims IH]; intros m E; simpl in E; [by injection E as ->|].
  destruct (_ || _) eqn:Eg in E; [done|]. bool_simp. apply IH in E as [-> Hf]. split; [done|]. by constructor.
Qed.
Lemma answered_all (P : Claim → Prop) ownerCallID claims m :
  (∀ target c, m !! target = Some c → P c) →
  Forall (λ c, P (c {{ tc_OwnerCallID := ownerCallID }})) claims →
  ∀ target c, answered ownerCallID claims m !! target = Some c → P c.
Proof.
  unfold answered. revert m. induction claims as [|c claims IH]; intros m Hm Hf; simpl; [done|].
  apply Forall_cons in Hf as [Hc Hf]. apply IH; [|done]. intros target c'.
  rewrite lookup_insert_Some. intros [[_ <-]|[_ ?]]; [done|by eapply Hm].
Qed.
Lemma answered_keyed ownerCallID claims m : keyed m → keyed (answered ownerCallID claims m).
Proof.
  unfold answered, keyed. revert m. induction claims as [|c claims IH]; intros m Hm; simpl; [done|]. apply IH.
  intros target c'. rewrite lookup_insert_Some. intros [[<- <-]|[_ ?]]; [by destruct c|by apply Hm].
Qed.
Lemma ordered_spec targets m seen :
  keyed m →
  NoDup (tc_Target <$> orderedCoverageClaims targets m seen) ∧
  ∀ c, c ∈ orderedCoverageClaims targets m seen ↔ m !! tc_Target c = Some c ∧ tc_Target c ∈ targets ∧ tc_Target c ∉ seen.
Proof.
  intros Hk. revert seen. induction targets as [|target targets IH]; intros seen; simpl.
  { split; [constructor|]. intros c. rewrite !elem_of_nil. tauto. }
  case_bool_decide as Hs.
  { destruct (IH seen) as [Hd He]. split; [done|]. intros c. rewrite He, elem_of_cons. naive_solver. }
  destruct (m !! target) as [claim|] eqn:Em.
  - destruct (IH ({[target]} ∪ seen)) as [Hd He]. pose proof (Hk _ _ Em) as Ht. split.
    + rewrite fmap_cons, NoDup_cons. split; [|done]. intros (c & Hc & (_ & _ & Hn)%He)%list_elem_of_fmap.
      apply Hn. rewrite <-Hc, Ht. set_solver.
    + intros c. rewrite elem_of_cons, He, elem_of_cons, not_elem_of_union, not_elem_of_singleton.
      destruct (decide (tc_Target c = target)) as [Hct|Hct]; [|naive_solver].
      rewrite Hct, Em. naive_solver.
  - destruct (IH seen) as [Hd He]. split; [done|]. intros c. rewrite He, elem_of_cons. naive_solver.
Qed.
(** The list in the order of the targets is the map. *)
Lemma by_target_ordered targets m :
  keyed m → (∀ target, is_Some (m !! target) → target ∈ targets) →
  by_target (orderedCoverageClaims targets m ∅) = m.
Proof.
  intros Hk Ht. destruct (ordered_spec targets m ∅ Hk) as [Hd He]. apply map_eq. intros target.
  apply option_eq. intros c. split.
  - intros Hl. pose proof (by_target_keyed _ _ _ Hl) as <-. apply by_target_elem, He in Hl as (? & _); done.
  - intros Hl. pose proof (Hk _ _ Hl) as <-. apply by_target_elem; [done|]. apply He. split; [done|].
    split; [apply Ht; by rewrite Hl|set_solver].
Qed.

(** ** A call *)
Section Coverage.
Context `{Unicode, MachineEncoder, ResumeText, GitState, JSONLog}.
Context `{JSONText TaskStats persistedStats, JSONText ParentReviewState Some, JSONText GitSnapshot Some}.

(** What a call starts from: the coverage of the same review, under the same
    lease, of the same tree. *)
Definition kept binding (lease : Z) : gmap string Claim :=
  match rb_Coverage binding with
  | Some coverage => if bool_decide (cv_Lease coverage = lease) then covered binding else ∅
  | None => ∅
  end.
(** The binding after the call. *)
Record accumulated binding (owner : string) (lease : Z) claims (complete : bool) (after : ParentReviewBinding) : Prop := {
  ac_same : rb_ID after = rb_ID binding ∧ rb_Targets after = rb_Targets binding ∧
            rb_Snapshot after = rb_Snapshot binding;
  ac_covered : covered after = answered owner claims (kept binding lease);
  ac_complete : complete = true ↔ ∀ target, target ∈ rb_Targets binding → is_Some (covered after !! target);
  ac_proof : is_Some (rb_Proof after) ↔ complete = true;
}.
Lemma sameSnapshot_sym a b : sameParentReviewSnapshot a b = sameParentReviewSnapshot b a.
Proof.
  unfold sameParentReviewSnapshot. f_equal; [f_equal|]; apply bool_decide_ext; naive_solver.
Qed.
Lemma sameSnapshot_trans a b c :
  sameParentReviewSnapshot a b = true → sameParentReviewSnapshot b c = true → sameParentReviewSnapshot a c = true.
Proof. unfold sameParentReviewSnapshot. rewrite !andb_true_iff, !bool_decide_eq_true. intros [[]] [[]]. repeat split; congruence. Qed.
Lemma coverage_valid binding coverage :
  validateParentReviewEvidenceCoverage binding = Ok () → rb_Coverage binding = Some coverage →
  cv_ReviewID coverage = rb_ID binding ∧ (0 ≤ cv_Lease coverage)%Z ∧
  sameParentReviewSnapshot (cv_Snapshot coverage) (rb_Snapshot binding) = true ∧ cv_Claims coverage ≠ [] ∧
  Forall (admissible (rb_Targets binding)) (cv_Claims coverage) ∧ NoDup (tc_Target <$> cv_Claims coverage).
Proof.
  intros E Ec. unfold validateParentReviewEvidenceCoverage in E. rewrite Ec in E.
  destruct (_ || _) eqn:Eg in E; [done|]. bool_simp. apply coverageClaims_ok in E as (? & ? & _).
  repeat split; try done; try lia. by destruct (cv_Claims coverage).
Qed.
Lemma complete_iff binding :
  rb_Targets binding ≠ [] →
  parentReviewCoverageComplete binding = true ↔ ∀ target, target ∈ rb_Targets binding → is_Some (covered binding !! target).
Proof.
  intros Hne. unfold parentReviewCoverageComplete, covered. destruct (rb_Coverage binding) as [coverage|]; simpl.
  - rewrite andb_true_iff, forallb_forall, bool_decide_eq_true.
    assert (∀ target, is_Some (by_target (cv_Claims coverage) !! target) ↔ target ∈ tc_Target <$> cv_Claims coverage) as Hin.
    { intros target. unfold by_target. rewrite <-keys_by_target. rewrite <-elem_of_dom, dom_list_to_map_L.
      apply elem_of_list_to_set. }
    split.
    + intros [Hf _] target Ht%list_elem_of_In. apply Hin. specialize (Hf _ Ht). by bool_simp.
    + intros Hf. split; [intros target Ht%list_elem_of_In; by apply bool_decide_eq_true, Hin, Hf|].
      destruct (rb_Targets binding) as [|target targets]; [done|]. specialize (Hf target ltac:(left)).
      apply Hin in Hf. destruct (cv_Claims coverage); [by apply elem_of_nil in Hf|simpl; lia].
  - split; [done|]. intros Hf. destruct (rb_Targets binding) as [|target targets]; [done|].
    specialize (Hf target ltac:(left)). unfold by_target in Hf. simpl in Hf. rewrite lookup_empty in Hf. by destruct Hf.
Qed.
(** The coverage the call starts from, as the code has it. *)
Lemma reusable_spec binding lease current :
  validateParentReviewEvidenceCoverage binding = Ok () → (0 ≤ lease)%Z →
  sameParentReviewSnapshot current (rb_Snapshot binding) = true →
  let coverage := reusableParentReviewCoverage (rb_Coverage binding) (rb_ID binding) lease current in
  cv_ReviewID coverage = rb_ID binding ∧ cv_Lease coverage = lease ∧
  sameParentReviewSnapshot (cv_Snapshot coverage) (rb_Snapshot binding) = true ∧
  Forall (admissible (rb_Targets binding)) (cv_Claims coverage) ∧ NoDup (tc_Target <$> cv_Claims coverage) ∧
  by_target (cv_Claims coverage) = kept binding lease.
Proof.
  intros Hv Hlease Hs. unfold reusableParentReviewCoverage, kept, covered.
  destruct (rb_Coverage binding) as [coverage|] eqn:Ec; simpl; [|repeat split; try done; constructor].
  destruct (coverage_valid _ _ Hv Ec) as (Hid & _ & Hsnap & _ & Hf & Hd).
  rewrite (bool_decide_true (cv_ReviewID coverage = _)) by done. simpl.
  assert (sameParentReviewSnapshot (cv_Snapshot coverage) current = true) as ->.
  { eapply sameSnapshot_trans; [exact Hsnap|]. by rewrite sameSnapshot_sym. }
  case_bool_decide as Hl; simpl; [by repeat split|]. repeat split; try done; constructor.
Qed.
Lemma merged_spec targets coverage claims owner coverage' :
  owner ≠ "" → Forall (admissible targets) (cv_Claims coverage) → NoDup (tc_Target <$> cv_Claims coverage) →
  mergeParentReviewCoverageClaims targets coverage claims owner = Ok coverage' →
  (cv_ReviewID coverage' = cv_ReviewID coverage ∧ cv_Lease coverage' = cv_Lease coverage ∧
   cv_Snapshot coverage' = cv_Snapshot coverage) ∧
  Forall (admissible targets) (cv_Claims coverage') ∧ NoDup (tc_Target <$> cv_Claims coverage') ∧
  by_target (cv_Claims coverage') = answered owner claims (by_target (cv_Claims coverage)).
Proof.
  intros Ho Hf Hd E. unfold mergeParentReviewCoverageClaims in E. apply result_bind_Ok in E as (m & Em & E).
  injection E as <-. apply mergeClaims_ok in Em as [-> Hc]. rewrite insert_all by (try done; by intros).
  rewrite (right_id_L ∅ (∪)). set (m := answered owner claims (by_target (cv_Claims coverage))).
  assert (keyed m) as Hk by apply answered_keyed, by_target_keyed.
  assert (∀ target c, m !! target = Some c → admissible targets c) as Hall.
  { apply answered_all.
    - intros target c Hl. pose proof (by_target_keyed _ _ _ Hl) as <-. apply by_target_elem in Hl; [|done].
      rewrite Forall_forall in Hf. by apply Hf.
    - eapply Forall_impl; [exact Hc|]. intros c [Ht Hv]. unfold admissible. by destruct c. }
  destruct coverage; simpl in *. split; [done|]. destruct (ordered_spec targets m ∅ Hk) as [Hnd He].
  split; [|split; [done|]].
  - apply Forall_forall. intros c (Hl & _)%He. by eapply Hall.
  - apply by_target_ordered; [done|]. intros target [c Hl]. rewrite <-(Hk _ _ Hl). by apply (Hall target).
Qed.
(** The binding that is stored is valid and says what is covered. *)
Lemma accumulate_spec open binding owner lease claims current coverage after complete :
  validateParentReviewBindingIdentity open binding = Ok () → validateParentReviewEvidenceCoverage binding = Ok () →
  owner ≠ "" → (0 ≤ lease)%Z → sameParentReviewSnapshot current (rb_Snapshot binding) = true →
  mergeParentReviewCoverageClaims (rb_Targets binding)
    (reusableParentReviewCoverage (rb_Coverage binding) (rb_ID binding) lease current) claims owner = Ok coverage →
  materializeParentReviewCoverageProof (binding {{ rb_Coverage := Some coverage }}) (rb_ID binding) owner current = (after, complete) →
  let stored := if bool_decide (length (cv_Claims coverage) = 0) then after {{ rb_Coverage := None }} else after in
  validateParentReviewBindingIdentity open stored = Ok () ∧ validateParentReviewEvidenceCoverage stored = Ok () ∧
  validateParentReviewEvidenceProof stored = Ok () ∧ accumulated binding owner lease claims complete stored ∧
  (complete = true → ∃ proof, rb_Proof stored = Some proof ∧ pr_ReviewID proof = rb_ID stored ∧
     pr_Snapshot proof = current ∧ ∃ coverage, rb_Coverage stored = Some coverage ∧ cv_Lease coverage = lease ∧
     parentReviewCoverageComplete stored = true).
Proof.
  intros Hid Hcov Ho Hlease Hs Em Ea.
  destruct (reusable_spec _ _ _ Hcov Hlease Hs) as (Hrid & Hrl & Hrs & Hrf & Hrd & Hrm).
  destruct (merged_spec _ _ _ _ _ Ho Hrf Hrd Em) as ((Eid & El & Es) & Hf & Hd & Hm).
  assert (rb_Targets binding ≠ [] ∧ rb_ID binding ≠ "") as [Ht Hne].
  { unfold validateParentReviewBindingIdentity in Hid.
    repeat (match type of Hid with (if ?b then _ else _) = _ => destruct b eqn:?; [done|] end). bool_simp.
    split; [by intros Hn; rewrite Hn in *|done]. }
  assert (validateParentReviewEvidenceCoverage (binding {{ rb_Coverage := Some coverage }}) = Ok () ∨
          cv_Claims coverage = []) as Hvalid.
  { destruct (decide (cv_Claims coverage = [])) as [Hn|Hn]; [by right|left].
    unfold validateParentReviewEvidenceCoverage. destruct binding; simpl in *. rewrite Eid, El, Es, Hrid, Hrl, Hrs.
    rewrite bool_decide_true, (bool_decide_false (lease < 0)%Z), bool_decide_false by (done || lia || by destruct (cv_Claims coverage)).
    apply coverageClaims_ok. split; [done|]. split; [done|]. set_solver. }
  pose proof (complete_iff (binding {{ rb_Coverage := Some coverage }}) ltac:(by destruct binding)) as Hcomplete.
  unfold materializeParentReviewCoverageProof in Ea.
  destruct (parentReviewCoverageComplete (binding {{ rb_Coverage := Some coverage }})) eqn:Ecomp; injection Ea as <- <-.
  - assert (cv_Claims coverage ≠ []) as Hn.
    { intros Hn. unfold parentReviewCoverageComplete in Ecomp. destruct binding; simpl in *.
      rewrite Hn, andb_false_r in Ecomp. done. }
    destruct Hvalid as [Hvalid|]; [|done].
    rewrite bool_decide_false by by destruct (cv_Claims coverage). cbv zeta.
    split; [by destruct binding|]. split; [by destruct binding|]. split; [|split].
    + unfold validateParentReviewEvidenceProof. destruct binding; simpl in *. rewrite bool_decide_true by done.
      rewrite bool_decide_false by done. rewrite Hs. rewrite bool_decide_false by by destruct (cv_Claims coverage).
      simpl. destruct (existsb _ _) eqn:Ex; [|done]. apply existsb_exists in Ex as (claim & Hin & Hbad).
      apply list_elem_of_In, list_elem_of_fmap in Hin as (c & -> & Hin). rewrite Forall_forall in Hf.
      destruct (Hf c Hin) as (_ & _ & Hv). by rewrite Hv in Hbad.
    + split; [by destruct binding|destruct binding; simpl in *; unfold covered; simpl; by rewrite Hm, Hrm| |by destruct binding].
      destruct binding; exact Hcomplete.
    + intros _. destruct binding; simpl in *. eexists. split; [done|]. split; [done|]. split; [done|]. eexists.
      split; [done|]. split; [by rewrite El|exact Ecomp].
  - assert (∀ stored, rb_ID stored = rb_ID binding → rb_Targets stored = rb_Targets binding →
      rb_Snapshot stored = rb_Snapshot binding → covered stored = by_target (cv_Claims coverage) → rb_Proof stored = None →
      accumulated binding owner lease claims false stored) as Hacc.
    { intros stored ? ? ? Hcs Hps. split; [done|by rewrite Hcs, Hm, Hrm| |rewrite Hps; split; [by intros []|done]].
      rewrite Hcs. destruct binding; exact Hcomplete. }
    case_bool_decide as Hlen; cbv zeta; (split; [by destruct binding|]; split; [|split; [by destruct binding|split; [|done]]]).
    + by destruct binding.
    + apply Hacc; try by destruct binding. destruct (cv_Claims coverage) eqn:Ecl; [|done]. unfold covered. by destruct binding.
    + destruct Hvalid as [Hvalid|Hn]; [by destruct binding|by rewrite Hn in Hlen].
    + apply Hacc; by destruct binding.
Qed.

(** *** What is stored reads back *)
Definition with_review (state : ParentReviewState) (after : ParentReviewBinding) : ParentReviewState :=
  state {{ rv_Review := Some after }}.
Lemma write_files state d d' :
  writeParentReviewState state d = (Ok (), d') →
  unreadable d' = unreadable d ∧
  files d' = <[Path parentReviewStateFile := text (marshal state +:+ newline)]> (files d).
Proof.
  intros E. unfold writeParentReviewState in E. apply (proj1 (io_wrap_Ok _ _ _ _ _)) in E.
  unfold writeFileAtomic in E. apply io_bind_Ok in E as ([] & d1 & Em & E).
  unfold MkdirAll in Em. destruct (_ || _) in Em; [done|]. injection Em as <-.
  unfold writeJSONAtomic in E. destruct (_ || _) in E; [done|]. case_bool_decide; [|done]. by injection E as <-.
Qed.
Lemma decode_with_review data state after :
  decodeParentReviewState data = Ok state → is_Some (rv_Review state) → clean (with_review state after) →
  validateParentReviewBindingState (with_review state after) = Ok () →
  decodeParentReviewState (marshal (with_review state after) +:+ newline) = Ok (with_review state after).
Proof.
  intros Hd [binding Hb] Hc Hv. unfold decodeParentReviewState in Hd. destruct (unmarshal data) as [state'|]; [|done].
  unfold decodeParentReviewState. rewrite (unmarshal_line _ _ Hc eq_refl), Hv.
  destruct (_ || _) eqn:E1 in Hd; [done|]. destruct (match rv_Open state' with Some _ => _ | None => _ end) eqn:E2 in Hd; [done|].
  apply result_bind_Ok in Hd as (_ & _ & Hd). apply result_bind_Ok in Hd as ([] & Hcomp & Hd). injection Hd as Hd. subst state'.
  assert (rv_Completion state = None) as Hn.
  { unfold validateParentCompletionState in Hcomp. destruct (rv_Completion state); [|done]. by rewrite Hb, orb_true_r in Hcomp. }
  destruct state; simpl in *. rewrite E1, E2. unfold validateParentCompletionState. simpl. by rewrite Hn.
Qed.
Lemma lease_content d d' lease :
  ParentEvidenceLeaseEpoch d = (Ok lease, d) →
  content (Path parentEvidenceLeasePath) d' = content (Path parentEvidenceLeasePath) d →
  ParentEvidenceLeaseEpoch d' = (Ok lease, d').
Proof.
  unfold ParentEvidenceLeaseEpoch, attempt, mbind, io_bind. rewrite !ReadFile_eq. intros E ->.
  destruct (content _ d) as [data|e]; [destruct (ParseInt _)|destruct (IsNotExist e)]; try done.
  all: injection E as ->; done.
Qed.
Lemma capture_content d d' current :
  captureCurrentParentReviewSnapshot d = (Ok current, d) →
  content (Path "repo-root") d' = content (Path "repo-root") d →
  captureCurrentParentReviewSnapshot d' = (Ok current, d').
Proof.
  unfold captureCurrentParentReviewSnapshot. intros E Hr. erewrite io_bind_step in E |- * by apply ReadOr_eq.
  rewrite Hr. destruct (bool_decide _); [done|]. unfold mbind, io_bind, io_wrap, lift in *.
  destruct (CaptureGitSnapshot _); [|done]. by injection E as <-.
Qed.
(** On a stored review the check before acceptance is the completeness of its
    coverage. *)
Lemma ready_stored d state binding proof lease current :
  loadParentReviewState d = (Ok state, d) → rv_Review state = Some binding →
  (∃ open, rv_Open state = Some open ∧ ro_PacketStatus open = StatusNeedsSolReview) →
  rb_Proof binding = Some proof → pr_ReviewID proof = rb_ID binding →
  (∃ coverage, rb_Coverage binding = Some coverage ∧ cv_Lease coverage = lease ∧
     parentReviewCoverageComplete binding = true) →
  ParentEvidenceLeaseEpoch d = (Ok lease, d) → captureCurrentParentReviewSnapshot d = (Ok current, d) →
  sameParentReviewSnapshot current (rb_Snapshot binding) = true →
  sameParentReviewSnapshot current (pr_Snapshot proof) = true →
  ParentReviewAcceptReady d = (Ok true, d).
Proof.
  intros Hl Hb (open & Ho & Hp) Hpr Hid (coverage & Hc & Hcl & Hcc) Hlease Hcap Hs1 Hs2.
  unfold ParentReviewAcceptReady. erewrite io_bind_step by (by apply CurrentParentReview_eq).
  rewrite Ho, Hp. simpl. erewrite io_bind_step by exact Hl. rewrite Hb, Hpr, bool_decide_true by done. simpl.
  erewrite io_bind_step.
  2: { unfold parentReviewCoverageLeaseCurrent. rewrite Hc. erewrite io_bind_step by exact Hlease. reflexivity. }
  rewrite Hcl, Hcc, bool_decide_true by done. simpl. erewrite io_bind_step by exact Hcap.
  by rewrite Hs1, Hs2.
Qed.
Lemma not_ready_stored d state binding :
  loadParentReviewState d = (Ok state, d) → rv_Review state = Some binding →
  (∃ open, rv_Open state = Some open ∧ ro_PacketStatus open = StatusNeedsSolReview) →
  rb_Proof binding = None → ParentReviewAcceptReady d = (Ok false, d).
Proof.
  intros Hl Hb (open & Ho & Hp) Hpr.
  unfold ParentReviewAcceptReady. erewrite io_bind_step by (by apply CurrentParentReview_eq).
  rewrite Ho, Hp. simpl. erewrite io_bind_step by exact Hl. by rewrite Hb, Hpr.
Qed.

(** What a successful call found. *)
Lemma accumulate_inv reviewID owner lease claims d complete d' :
  AccumulateParentReviewEvidenceCoverage reviewID owner lease claims d = (Ok complete, d') →
  ∃ state open binding current coverage after,
    owner ≠ "" ∧ (0 ≤ lease)%Z ∧ loadParentReviewState d = (Ok state, d) ∧ rv_Open state = Some open ∧
    ro_PacketStatus open = StatusNeedsSolReview ∧ rv_Review state = Some binding ∧ rb_ID binding = reviewID ∧
    ParentEvidenceLeaseEpoch d = (Ok lease, d) ∧ captureCurrentParentReviewSnapshot d = (Ok current, d) ∧
    sameParentReviewSnapshot current (rb_Snapshot binding) = true ∧
    mergeParentReviewCoverageClaims (rb_Targets binding)
      (reusableParentReviewCoverage (rb_Coverage binding) reviewID lease current) claims owner = Ok coverage ∧
    materializeParentReviewCoverageProof (binding {{ rb_Coverage := Some coverage }}) reviewID owner current = (after, complete) ∧
    writeParentReviewState (with_review state
      (if bool_decide (length (cv_Claims coverage) = 0) then after {{ rb_Coverage := None }} else after)) d = (Ok (), d').
Proof.
  intros E. unfold AccumulateParentReviewEvidenceCoverage in E. destruct (_ || _) eqn:Eg in E; [done|]. bool_simp.
  apply io_bind_Ok in E as ([[state binding] current] & d1 & Hc & E).
  assert (∃ open, loadParentReviewState d = (Ok state, d) ∧ rv_Open state = Some open ∧
    ro_PacketStatus open = StatusNeedsSolReview ∧ rv_Review state = Some binding ∧ rb_ID binding = reviewID ∧
    ParentEvidenceLeaseEpoch d = (Ok lease, d) ∧ captureCurrentParentReviewSnapshot d = (Ok current, d) ∧
    sameParentReviewSnapshot current (rb_Snapshot binding) = true ∧ d1 = d) as (open & Hl & Ho & Hp & Hb & Hid & Hle & Hcap & Hs & ->).
  { unfold currentParentReviewCoverageState in Hc. apply io_bind_Ok in Hc as (state' & d2 & Hl & Hc).
    apply (preserves_eq _ _ _ _ _) in Hl as Hd; subst d2.
    unfold review_under_evidence in Hc. destruct (rv_Open state') as [open|] eqn:Ho; [|done].
    destruct (rv_Review state') as [binding'|] eqn:Hb; [|done].
    destruct (_ && _) eqn:Eu in Hc; [|done]. bool_simp.
    apply io_bind_Ok in Hc as (lease' & d2 & Hle & Hc). apply (preserves_eq _ _ _ _ _) in Hle as Hd; subst d2.
    case_bool_decide as Hlease; [subst lease'|done]. simpl in Hc.
    apply io_bind_Ok in Hc as (current' & d2 & Hcap & Hc). apply (preserves_eq _ _ _ _ _) in Hcap as Hd; subst d2.
    destruct (sameParentReviewSnapshot current' _) eqn:Hs; [|done]. injection Hc as <- <- <- <-. eauto 20. }
  apply io_bind_Ok in E as (coverage & d1 & Hm & E). apply lift_Ok in Hm as [Hm ->].
  destruct (materializeParentReviewCoverageProof _ _ _ _) as [after complete'] eqn:Ea.
  apply io_bind_Ok in E as ([] & d1 & Hw & E). injection E as <- <-.
  exists state, open, binding, current, coverage, after. repeat (split; [done || lia|]). exact Hw.
Qed.
(** C15: Evidence for the targets of a review adds up, and its answer is the check
    before acceptance.  Whenever a call that brings claims succeeds, the review
    that is stored covers exactly what it covered under the same lease, together
    with the targets of the claims, the newest claim of a target counting; it has
    a proof exactly when every target is covered, and the call answers whether it
    has.  Nothing else of the state changes, the stored review is valid, reads
    back, and [ParentReviewAcceptReady] then gives the same answer. *)
Theorem coverage_decides_acceptance reviewID owner lease claims d complete d' :
  AccumulateParentReviewEvidenceCoverage reviewID owner lease claims d = (Ok complete, d') →
  ∃ state binding after,
    loadParentReviewState d = (Ok state, d) ∧ rv_Review state = Some binding ∧
    accumulated binding owner lease claims complete after ∧
    at_files (<[Path parentReviewStateFile := text (marshal (with_review state after) +:+ newline)]> (files d)) d' ∧
    validateParentReviewBindingState (with_review state after) = Ok () ∧
    (clean (with_review state after) →
       loadParentReviewState d' = (Ok (with_review state after), d') ∧
       ParentReviewAcceptReady d' = (Ok complete, d')).
Proof.
  intros E. destruct (accumulate_inv _ _ _ _ _ _ _ E) as (state & open & binding & current & coverage & after & Ho & Hlease &
    Hl & Hopen & Hp & Hb & <- & Hle & Hcap & Hs & Hm & Ea & Hw).
  set (stored := if bool_decide (length (cv_Claims coverage) = 0) then after {{ rb_Coverage := None }} else after) in *.
  exists state, binding, stored.
  pose proof (proj1 (loadParentReviewState_Ok _ _ _) Hl) as ((data & Hdata & Hdec) & Htask & _).
  assert (validateParentReviewBindingIdentity (Some open) binding = Ok () ∧
          validateParentReviewEvidenceCoverage binding = Ok ()) as [Hvi Hvc].
  { unfold decodeParentReviewState in Hdec. destruct (unmarshal data) as [state'|]; [|done]. result_inv Hdec.
    unfold validateParentReviewBindingState in *. subst. rewrite Hb, Hopen in *.
    match goal with Hv : _ = Ok ?u |- _ => destruct u; apply result_bind_Ok in Hv as ([] & Hi & Hv);
      by apply result_bind_Ok in Hv as ([] & ? & _) end. }
  destruct (accumulate_spec _ _ _ _ _ _ _ _ _ Hvi Hvc Ho Hlease Hs Hm Ea) as (Hi & Hc & Hpv & Hacc & Hproof).
  fold stored in Hi, Hc, Hpv, Hacc, Hproof.
  assert (validateParentReviewBindingState (with_review state stored) = Ok ()) as Hvalid.
  { unfold validateParentReviewBindingState, with_review. destruct state; simpl in *. subst. by rewrite Hi, Hc. }
  destruct (write_files _ _ _ Hw) as [Hread Hfiles].
  split; [done|]. split; [done|]. split; [done|]. split; [by eapply write_at|]. split; [done|]. intros Hclean.
  assert (∀ name, name ≠ parentReviewStateFile → content (Path name) d' = content (Path name) d) as Hsame.
  { intros name Hn. apply content_files; [done|]. rewrite Hfiles. apply lookup_insert_ne. unfold Path. congruence. }
  assert (loadParentReviewState d' = (Ok (with_review state stored), d')) as Hl'.
  { apply loadParentReviewState_Ok. split; [|split; [|done]].
    - eexists. split; [|eapply decode_with_review; [exact Hdec|by rewrite Hb|done|done]].
      apply content_text; [rewrite Hread; by eapply content_Ok|]. rewrite Hfiles. apply lookup_insert_eq.
    - apply TaskID_Ok in Htask as (Hne & Hr & _). apply TaskID_Ok. rewrite Hsame by done.
      replace (rv_TaskID (with_review state stored)) with (rv_TaskID state) by by destruct state. done. }
  split; [exact Hl'|].
  assert (∃ o, rv_Open (with_review state stored) = Some o ∧ ro_PacketStatus o = StatusNeedsSolReview) as Hop'.
  { exists open. by destruct state. }
  assert (rv_Review (with_review state stored) = Some stored) as Hb' by by destruct state.
  destruct complete.
  - destruct (Hproof eq_refl) as (proof & Hpr & Hpid & Hps & Hcv).
    eapply ready_stored; try done.
    + eapply lease_content; [exact Hle|by apply Hsame].
    + eapply capture_content; [exact Hcap|by apply Hsame].
    + destruct (ac_same _ _ _ _ _ _ Hacc) as (_ & _ & ->). exact Hs.
    + rewrite Hps. unfold sameParentReviewSnapshot. by rewrite !bool_decide_true.
  - eapply not_ready_stored; try done. destruct (rb_Proof stored) eqn:Epr; [|done].
    pose proof (proj1 (ac_proof _ _ _ _ _ _ Hacc)) as Hx. rewrite Epr in Hx. discriminate (Hx ltac:(by eexists)).
Qed.
End Coverage.

(** The only target of a review, read while the tree is as it was. *)
Definition boundDisk : Disk :=
  stateDisk TaskStatusWaitingSolReview [(parentReviewStateFile, "bound"); ("repo-root", "/repo")] [].
Lemma bound_answered :
  match (AccumulateParentReviewEvidenceCoverage exampleID "call" 0 [exampleClaim] boundDisk).1 with
  | Ok b => b | Err _ => false end = true.
Proof. vm_compute. reflexivity. Qed.
Lemma coverage_decides_acceptance_witness :
  ∃ d' state binding after,
    AccumulateParentReviewEvidenceCoverage exampleID "call" 0 [exampleClaim] boundDisk = (Ok true, d') ∧
    rv_Review state = Some binding ∧ accumulated binding "call" 0 [exampleClaim] true after.
Proof.
  pose proof bound_answered as Hok.
  destruct (AccumulateParentReviewEvidenceCoverage exampleID "call" 0 [exampleClaim] boundDisk) as [[[]|e] d'] eqn:E;
    [|discriminate Hok..].
  destruct (coverage_decides_acceptance _ _ _ _ _ _ _ E) as (state & binding & after & _ & Hb & Ha & _).
  exists d', state, binding, after. split; [reflexivity|]. split; [exact Hb|exact Ha].
Defined.
