(* ===== verification/MilestoneLogic.v ===== *)
(** * Milestones as a small machine

    The plan file of a task, seen as the milestones that are done and those that
    are still to do, refines an abstract machine: milestones are declared, the
    ones to do are replaced, and the first one to do becomes done.  Whatever the
    environment refuses, nothing else happens to the plan. *)
From S2P Require Import Prelude GoStrings GoText ControllerTypes ControllerStore Packet SessionTypes SessionStore ResumeCheckpoint ParentReview Lifecycle SessionLogic ReviewLogic SessionExamples ExecutionMilestones.

(** ** The machine *)
Implicit Types (ds : list MilestoneDefinition) (d : Disk) (p : Plan).
Definition admitted_text (s : string) (bound : nat) : Prop := TrimSpace s = s ∧ s ≠ "" ∧ String.length s ≤ bound.
Record admitted (definition : MilestoneDefinition) : Prop := {
  am_id : admitted_text (md_ID definition) milestoneMaxIDBytes;
  am_scope : admitted_text (md_Scope definition) milestoneMaxTextBytes;
  am_acceptance : admitted_text (md_Acceptance definition) milestoneMaxTextBytes;
}.
Record declared ds : Prop := {
  dc_count : 2 ≤ length ds ≤ milestoneMaxCount;
  dc_admitted : Forall admitted ds;
  dc_distinct : NoDup (md_ID <$> ds);
}.
(** Milestones done, each with its evidence, and milestones to do. *)
Record view := { vw_done : list (MilestoneDefinition * Completion); vw_todo : list MilestoneDefinition }.
Definition definitions (v : view) : list MilestoneDefinition := (vw_done v).*1 ++ vw_todo v.
Definition doneRecord (x : MilestoneDefinition * Completion) : MilestoneRecord :=
  {| mr_Definition := x.1; mr_Status := StatusComplete; mr_Completion := Some x.2 |}.
Record represents p (v : view) : Prop := {
  rp_version : pl_Version p = PlanVersion;
  rp_index : pl_CurrentIndex p = Z.of_nat (length (vw_done v));
  rp_records : pl_Milestones p = (doneRecord <$> vw_done v) ++ (pendingRecord <$> vw_todo v);
  rp_declared : declared (definitions v);
}.

(** ** Declarations *)
Lemma definitionsLoop_ok raw seen ds :
  definitionsLoop raw seen = Ok ds →
  ds = trimDefinition <$> raw ∧ Forall admitted ds ∧ NoDup (md_ID <$> ds) ∧ ∀ x, x ∈ ds → md_ID x ∉ seen.
Proof.
  revert seen ds. induction raw as [|x raw IH]; intros seen ds E; simpl in E.
  { injection E as <-. split; [done|]. split; [constructor|]. split; [constructor|]. by intros ? ?%elem_of_nil. }
  apply result_bind_Ok in E as ([] & Hv & E). apply result_bind_Ok in E as (rest & Er & E). injection E as <-.
  destruct (IH _ _ Er) as (-> & Hf & Hd & Hn). unfold validateMilestoneDefinition in Hv. result_inv Hv. bool_simp.
  split; [done|]. split; [|split].
  - constructor; [|done]. destruct x; simpl in *. split; simpl; unfold admitted_text; rewrite TrimSpace_idemp; repeat split; lia || done.
  - apply NoDup_cons. split; [|done]. intros (y & Hy & Hin)%list_elem_of_fmap.
    apply (Hn y Hin). rewrite <-Hy. simpl. set_solver.
  - intros y [->|Hin]%elem_of_cons; [done|]. specialize (Hn y Hin). set_solver.
Qed.
Lemma Validate_ok raw ds : ValidateMilestoneDefinitions raw = Ok ds → declared ds.
Proof.
  unfold ValidateMilestoneDefinitions. destruct (_ || _) eqn:Eg; [done|]. bool_simp. intros E.
  apply definitionsLoop_ok in E as (-> & Hf & Hd & _). split; [rewrite length_fmap; lia|done..].
Qed.

(** ** Plans *)
Section Plans.
Context p v (Hrep : represents p v).
Lemma plan_index : Z.to_nat (pl_CurrentIndex p) = length (vw_done v).
Proof. rewrite (rp_index _ _ Hrep). lia. Qed.
Lemma plan_done_records : take (Z.to_nat (pl_CurrentIndex p)) (pl_Milestones p) = doneRecord <$> vw_done v.
Proof. rewrite plan_index, (rp_records _ _ Hrep). apply take_app_length'. by rewrite length_fmap. Qed.
Lemma plan_current : currentRecord p = pendingRecord <$> head (vw_todo v).
Proof.
  unfold currentRecord. rewrite plan_index, (rp_records _ _ Hrep).
  rewrite lookup_app_r by by rewrite length_fmap. rewrite length_fmap, Nat.sub_diag. by destruct (vw_todo v).
Qed.
Lemma plan_count : milestoneCount p = Z.of_nat (length (vw_done v) + length (vw_todo v)).
Proof. unfold milestoneCount. rewrite (rp_records _ _ Hrep), length_app, !length_fmap. done. Qed.
Lemma plan_finished : pl_done p = bool_decide (vw_todo v = []).
Proof.
  unfold pl_done. rewrite plan_count, (rp_index _ _ Hrep). apply bool_decide_ext.
  split; [|intros ->; simpl; lia]. intros Hl. destruct (vw_todo v); [done|simpl in *; lia].
Qed.
End Plans.
Lemma completedLoop_ok done ds :
  completedLoop (doneRecord <$> done) ds = Ok () → length done ≤ length ds → ds = done.*1 ++ drop (length done) ds.
Proof.
  revert ds. induction done as [|[x c] done IH]; intros [|y ds] E Hl; simpl in *; try done; [lia|].
  case_bool_decide as Hxy; [subst y|done]. f_equal. apply IH; [exact E|lia].
Qed.
(** A plan passes the check of the progress report. *)
Lemma consistentLoop_todo current index todo :
  (current ≤ Z.of_nat index)%Z → Forall admitted todo → consistentLoop current index (pendingRecord <$> todo) = true.
Proof.
  revert index. induction todo as [|x todo IH]; intros index Hi Hf; simpl; [done|].
  apply Forall_cons in Hf as [Hx Hf]. rewrite IH by (done || lia). unfold record_consistent. simpl.
  destruct (am_id _ Hx) as (-> & Hn & _). by rewrite (bool_decide_false (_ = "")), (bool_decide_false (_ < _)%Z) by (done || lia).
Qed.
Lemma consistentLoop_done done index rest :
  Forall admitted (done.*1) →
  consistentLoop (Z.of_nat (index + length done)) index ((doneRecord <$> done) ++ rest) =
  consistentLoop (Z.of_nat (index + length done)) (index + length done) rest.
Proof.
  revert index. induction done as [|[x c] done IH]; intros index Hf; simpl; [by rewrite Nat.add_0_r|].
  rewrite fmap_cons in Hf. apply Forall_cons in Hf as [Hx Hf]. simpl in Hx.
  specialize (IH (S index) Hf). rewrite Nat.add_succ_r. cbn [Nat.add] in IH.
  change (list_fmap _ _ doneRecord done ++ rest) with ((doneRecord <$> done) ++ rest). rewrite IH.
  unfold record_consistent. simpl. destruct (am_id _ Hx) as (-> & Hn & _).
  by rewrite (bool_decide_false (_ = "")), (bool_decide_true (_ < _)%Z) by (done || lia).
Qed.
Lemma plan_consistent p v : represents p v → executionProgressMilestonesConsistent p = true.
Proof.
  intros Hrep. unfold executionProgressMilestonesConsistent.
  pose proof (dc_admitted _ (rp_declared _ _ Hrep)) as Hf. unfold definitions in Hf. apply Forall_app in Hf as [Hd Ht].
  rewrite (rp_index _ _ Hrep), (rp_records _ _ Hrep).
  pose proof (consistentLoop_done (vw_done v) 0 (pendingRecord <$> vw_todo v) Hd) as Hl. simpl in Hl. rewrite Hl.
  by apply consistentLoop_todo.
Qed.

(** ** Operations *)
Inductive operation :=
  | Declared (raw : list MilestoneDefinition) (path : string)
  | Revised (raw : list MilestoneDefinition) (now : Time)
  | Advanced (result : Result) (checkpoint : ResumeCheckpoint)
  | Synced (taskID path previous digest : string) (now : Time).
(** What the machine does for each, and the answer. *)
Inductive step : operation → option view → option view → bool → Prop :=
  | declares raw path ds v :
      ValidateMilestoneDefinitions raw = Ok ds → step (Declared raw path) v (Some {| vw_done := []; vw_todo := ds |}) true
  | revises_none raw now ds :
      ValidateMilestoneDefinitions raw = Ok ds →
      step (Revised raw now) None (Some {| vw_done := []; vw_todo := ds |}) true
  | revises raw now ds done todo todo' :
      ValidateMilestoneDefinitions raw = Ok ds → ds = done.*1 ++ todo' → todo ≠ [] → todo' ≠ [] →
      step (Revised raw now) (Some {| vw_done := done; vw_todo := todo |}) (Some {| vw_done := done; vw_todo := todo' |}) true
  | advances result checkpoint done x todo c :
      md_ID x = ck_ExecutionMilestoneID checkpoint → cm_Summary c = rs_Summary result →
      step (Advanced result checkpoint) (Some {| vw_done := done; vw_todo := x :: todo |})
        (Some {| vw_done := done ++ [(x, c)]; vw_todo := todo |}) (negb (bool_decide (todo = [])))
  | synced taskID path previous digest now v : step (Synced taskID path previous digest now) v v true.

Section Refinement.
Context `{Unicode, MachineEncoder, ResumeText, GitState, JSONLog, TaskFiles, PromptJSON}.
Context `{JSONText TaskStats persistedStats, JSONText ParentReviewState Some, JSONText GitSnapshot Some,
          JSONText controllerRuntimeBindingWire Some, JSONText Disposition Some, JSONText Plan Some}.
Context (repoRoot callID : string).

(** The operations of the workflow; the model call that follows an advance is
    not part of it. *)
Definition run (op : operation) : io bool :=
  match op with
  | Declared raw path =>
      ds ← lift (ValidateMilestoneDefinitions raw); _ ← initializeExecutionMilestones repoRoot ds path; mret true
  | Revised raw now => _ ← Revise repoRoot raw now; mret true
  | Advanced result checkpoint => advanceExecutionMilestone repoRoot callID (λ _, mret ()) result checkpoint
  | Synced taskID path previous digest now => _ ← SyncTaskContract taskID path previous digest now; mret true
  end.

Definition planFile : list string := Path ExecutionMilestonesStateFile.
Definition stored (plan : option Plan) d : Prop := files d !! planFile = (λ p, text (marshal p +:+ newline)) <$> plan.
#[local] Instance stored_quiet plan : Quiet (stored plan).
Proof. intros d d' (_ & _ & _ & Hf) Hd. unfold stored. by rewrite Hf. Qed.
Definition shows (plan : option Plan) (v : option view) : Prop :=
  match plan, v with Some p, Some v => represents p v | None, None => True | _, _ => False end.

Lemma write_other plan name data :
  Path name ≠ planFile → triple (stored plan) (writeFileAtomic (Path name) data mode600) (λ _, stored plan) (stored plan).
Proof.
  intros Hn. unfold writeFileAtomic. eapply triple_bind; [apply MkdirAll_triple, _|]. intros [] d Hd.
  unfold writeJSONAtomic. destruct (_ || _); [done|]. case_bool_decide; [|done].
  unfold stored. simpl. by rewrite lookup_insert_ne.
Qed.
Lemma SavePlan_triple plan p : triple (stored plan) (SavePlan p) (λ _, stored (Some p)) (stored plan).
Proof.
  unfold SavePlan, Write. apply triple_wrap. unfold writeFileAtomic.
  eapply triple_bind; [apply MkdirAll_triple, _|]. intros [] d Hd.
  unfold writeJSONAtomic. destruct (_ || _); [done|]. case_bool_decide; [|done]. apply lookup_insert_eq.
Qed.
Lemma LoadPlan_triple plan :
  (∀ p, plan = Some p → clean p) → triple (stored plan) LoadPlan (λ found d, found = plan ∧ stored plan d) (stored plan).
Proof.
  intros Hc d Hd. unfold LoadPlan, attempt, mbind, io_bind. rewrite ReadFile_eq. fold planFile.
  unfold content. case_bool_decide; [done|]. pose proof Hd as Hs. unfold stored in Hs. rewrite Hs.
  destruct plan as [p|]; simpl; [|done]. unfold decodePlan, lift. rewrite (unmarshal_line p p (Hc p eq_refl) eq_refl).
  destruct (negb _); [done|]. by destruct (_ || _).
Qed.
#[local] Instance LoadControllerRuntimeBinding_reads : Preserves eq LoadControllerRuntimeBinding.
Proof. unfold LoadControllerRuntimeBinding. preserving. Qed.
#[local] Instance CurrentWorkflowTaskPath_reads : Preserves eq CurrentWorkflowTaskPath.
Proof. unfold CurrentWorkflowTaskPath. preserving. Qed.
#[local] Instance currentAuthority_reads : Preserves eq (currentAuthority repoRoot).
Proof. unfold currentAuthority. preserving. Qed.
#[local] Instance ValidateAuthority_reads plan : Preserves eq (ValidateAuthority repoRoot plan).
Proof. unfold ValidateAuthority. preserving. Qed.
#[local] Instance preserveStopped_reads p ds : Preserves eq (preserveStopped p ds).
Proof. unfold preserveStopped. preserving. Qed.
Lemma bindStopped_triple plan p : triple (stored plan) (bindStoppedCheckpoint p) (λ _, stored plan) (stored plan).
Proof.
  unfold bindStoppedCheckpoint. destruct (currentRecord p) as [current|]; [|by apply triple_ret].
  eapply triple_bind; [apply total_attempt, reads_triple, _|]. intros [c|e].
  - apply triple_guard; [done|]. intros _. unfold SaveResumeCheckpoint. apply triple_guard; [done|]. intros _.
    eapply triple_bind; [apply reads_triple, _|]. intros ?. by apply triple_wrap, write_other.
  - destruct (IsNoCheckpoint e); [by apply triple_ret|by apply triple_fail].
Qed.
Lemma RecordDisposition_triple plan path unit now :
  triple (stored plan) (RecordDisposition path unit now) (λ _, stored plan) (stored plan).
Proof.
  unfold RecordDisposition. apply triple_guard; [done|]. intros _. eapply triple_bind; [apply reads_triple, _|].
  intros taskID. cbv zeta. apply triple_guard; [done|]. intros _. by apply triple_wrap, write_other.
Qed.
(** Where an operation ends: at its source, or one step on. *)
Definition ended (op : operation) (v : option view) d : Prop :=
  ∃ plan' v', stored plan' d ∧ shows plan' v' ∧ (v' = v ∨ ∃ b, step op v v' b).
Definition stepped (op : operation) (v : option view) (b : bool) d : Prop :=
  ∃ plan' v', stored plan' d ∧ shows plan' v' ∧ step op v v' b.
Lemma ended_source op v plan d : stored plan d → shows plan v → ended op v d.
Proof. intros ? ?. exists plan, v. auto. Qed.
Lemma declared_represents taskID path digest ds now :
  declared ds → represents (NewPlan taskID path digest ds now) {| vw_done := []; vw_todo := ds |}.
Proof. by split. Qed.
Lemma Declared_triple raw path plan v :
  shows plan v → triple (stored plan) (run (Declared raw path)) (stepped (Declared raw path) v) (ended (Declared raw path) v).
Proof.
  intros Hs. simpl. destruct (ValidateMilestoneDefinitions raw) as [ds|e] eqn:Ev;
    [|intros d Hd; by eapply ended_source].
  pose proof (Validate_ok _ _ Ev) as Hdc.
  assert (∀ taskID digest now d, stored (Some (NewPlan taskID path digest ds now)) d → stepped (Declared raw path) v true d) as Hst.
  { intros taskID digest now d Hd. eexists _, (Some _). split; [exact Hd|]. split; [by apply declared_represents|]. by constructor. }
  assert (∀ d, stored plan d → ended (Declared raw path) v d) as Hend by (intros; by eapply ended_source).
  eapply (triple_bind _ (λ x d, x = ds ∧ stored plan d)); [by intros d Hd|]. intros ?. apply triple_pure. intros ->.
  eapply (triple_bind _ (λ _, stepped (Declared raw path) v true)); [|intros; by apply triple_ret].
  unfold initializeExecutionMilestones. eapply triple_bind; [apply triple_reads; [apply _|done]|]. intros taskID.
  eapply triple_bind; [apply triple_reads; [apply _|done]|]. intros digest.
  eapply triple_bind; [apply Now_triple, _|]. intros now.
  eapply triple_bind; [eapply triple_consequence; [apply SavePlan_triple|done| |exact Hend]; by intros|]. intros [].
  eapply triple_bind; [apply Now_triple, _|]. intros now'.
  eapply triple_consequence; [apply RecordDisposition_triple|done| |].
  - intros ? d. apply Hst.
  - intros d Hd. destruct (Hst _ _ _ _ Hd) as (plan' & v' & ? & ? & ?). exists plan', v'. eauto.
Qed.
Lemma prepareRevision_triple raw now plan v :
  (∀ p, plan = Some p → clean p) → shows plan v →
  triple (stored plan) (prepareRevision repoRoot raw now)
    (λ p d, (∃ v', represents p v' ∧ step (Revised raw now) v (Some v') true) ∧ stored plan d) (stored plan).
Proof.
  intros Hc Hs. unfold prepareRevision. destruct (ValidateMilestoneDefinitions raw) as [ds|e] eqn:Ev; [|by intros d Hd].
  pose proof (Validate_ok _ _ Ev) as Hdc.
  eapply (triple_bind _ (λ x d, x = ds ∧ stored plan d)); [by intros d Hd|]. intros ?. apply triple_pure. intros ->.
  eapply triple_bind; [apply reads_triple, _|]. intros status. apply triple_guard; [done|]. intros _.
  eapply triple_bind; [by apply LoadPlan_triple|]. intros found. apply triple_pure. intros ->.
  eapply triple_bind; [apply reads_triple, _|]. intros authority.
  destruct plan as [p|], v as [v|]; try done; simpl in Hs.
  - eapply (triple_bind _ (λ _ d, (vw_todo v ≠ [] ∧ length (vw_done v) < length ds ∧
      ds = (vw_done v).*1 ++ drop (length (vw_done v)) ds) ∧ stored (Some p) d)).
    + unfold validateRevisionPlan. apply triple_guard; [done|]. intros _.
      apply triple_guard; [done|]. intros Hfin. apply triple_guard; [done|]. intros Hlen.
      rewrite (plan_finished _ _ Hs) in Hfin. bool_simp. rewrite (rp_index _ _ Hs) in Hlen.
      unfold validateCompleted. rewrite (plan_done_records _ _ Hs).
      destruct (completedLoop _ ds) as [[]|e] eqn:El; [|by intros d Hd].
      apply completedLoop_ok in El; [|lia]. eapply (triple_bind _ (λ _, stored (Some p))); [by intros d Hd|]. intros _.
      eapply triple_consequence; [apply reads_triple, _|done| |done]. intros [] d Hd. split; [|done]. split; [done|].
      split; [lia|exact El].
    + intros []. apply triple_pure. intros (Htodo & Hlen & Hds). apply triple_ret. intros d Hd. split; [|done].
      exists {| vw_done := vw_done v; vw_todo := drop (length (vw_done v)) ds |}. split.
      * assert (represents (p {{ pl_Milestones := revisedRecords p ds; pl_TaskContractSHA256 := ra_digest authority }})
          {| vw_done := vw_done v; vw_todo := drop (length (vw_done v)) ds |}) as Hr.
        { split; simpl; [apply Hs|apply Hs| |unfold definitions; simpl; by rewrite <-Hds].
          unfold revisedRecords. by rewrite (plan_done_records _ _ Hs), (plan_index _ _ Hs). }
        case_bool_decide; [exact Hr|]. destruct Hr, p. by split.
      * destruct v as [finished todo]. simpl in *. eapply revises; [exact Ev|exact Hds|done|].
        intros Hn. apply (f_equal length) in Hn. rewrite length_drop in Hn. simpl in Hn. lia.
  - apply triple_ret. intros d Hd. split; [|done]. eexists. split; [by apply declared_represents|]. by constructor.
Qed.
Lemma Revised_triple raw now plan v :
  (∀ p, plan = Some p → clean p) → shows plan v →
  triple (stored plan) (run (Revised raw now)) (stepped (Revised raw now) v) (ended (Revised raw now) v).
Proof.
  intros Hc Hs. assert (∀ d, stored plan d → ended (Revised raw now) v d) as Hend by (intros; by eapply ended_source).
  unfold run. eapply (triple_bind _ (λ _, stepped (Revised raw now) v true)); [|intros; by apply triple_ret].
  unfold Revise. eapply triple_bind; [eapply triple_consequence; [by apply prepareRevision_triple|done|done|exact Hend]|].
  intros p. apply triple_pure. intros (v' & Hr & Hstep).
  eapply triple_bind; [eapply triple_consequence; [apply bindStopped_triple|done|done|exact Hend]|]. intros [].
  eapply triple_bind; [eapply triple_consequence; [apply SavePlan_triple|done|done|exact Hend]|]. intros [].
  apply triple_ret. intros d Hd. exists (Some p), (Some v'). done.
Qed.
Lemma Synced_triple taskID path previous digest now plan v :
  (∀ p, plan = Some p → clean p) → shows plan v →
  triple (stored plan) (run (Synced taskID path previous digest now))
    (stepped (Synced taskID path previous digest now) v) (ended (Synced taskID path previous digest now) v).
Proof.
  intros Hc Hs. set (op := Synced taskID path previous digest now).
  assert (∀ d, stored plan d → ended op v d) as Hend by (intros; by eapply ended_source).
  assert (∀ d plan', shows plan' v → stored plan' d → stepped op v true d) as Hst
    by (intros d plan' ? ?; exists plan', v; by repeat constructor).
  unfold run, op. eapply (triple_bind _ (λ _, stepped op v true)); [|intros; by apply triple_ret].
  unfold SyncTaskContract. eapply triple_bind; [eapply triple_consequence; [by apply LoadPlan_triple|done|done|exact Hend]|].
  intros found. apply triple_pure. intros ->. destruct plan as [p|]; [|apply triple_ret; intros d; by apply Hst].
  apply triple_guard; [intros; by apply Hend|]. intros _.
  case_bool_decide; [apply triple_ret; intros d; by apply Hst|].
  apply triple_guard; [intros; by apply Hend|]. intros _.
  eapply triple_consequence; [apply SavePlan_triple|done| |exact Hend]. intros [] d. apply Hst.
  destruct v as [v|]; [|done]. destruct Hs, p. by split.
Qed.
Lemma completed_represents p done x todo completion updatedAt :
  represents p {| vw_done := done; vw_todo := x :: todo |} →
  represents (p {{ pl_Milestones := alter (completeRecord completion) (Z.to_nat (pl_CurrentIndex p)) (pl_Milestones p);
                   pl_CurrentIndex := (pl_CurrentIndex p + 1)%Z; pl_UpdatedAt := updatedAt }})
    {| vw_done := done ++ [(x, completion)]; vw_todo := todo |}.
Proof.
  intros Hr. pose proof (plan_index _ _ Hr) as Hi. destruct Hr as [Hv Hx Hm Hd], p. simpl in *. split; simpl.
  - done.
  - rewrite Hx, length_app. simpl. lia.
  - rewrite Hi, Hm, fmap_app, <-(length_fmap doneRecord done), alter_app_r_alt by done.
    rewrite Nat.sub_diag. simpl. by rewrite <-app_assoc.
  - unfold definitions in *. simpl in *. by rewrite fmap_app, <-app_assoc.
Qed.
Lemma Advanced_triple result checkpoint plan v :
  (∀ p, plan = Some p → clean p) → shows plan v →
  triple (stored plan) (run (Advanced result checkpoint)) (stepped (Advanced result checkpoint) v)
    (ended (Advanced result checkpoint) v).
Proof.
  intros Hc Hs. set (op := Advanced result checkpoint).
  assert (∀ d, stored plan d → ended op v d) as Hend by (intros; by eapply ended_source).
  unfold run, op, advanceExecutionMilestone. apply triple_guard; [intros; by apply Hend|]. intros _.
  eapply triple_bind; [eapply triple_consequence; [by apply LoadPlan_triple|done|done|exact Hend]|].
  intros found. apply triple_pure. intros ->.
  eapply triple_bind; [apply triple_reads; [apply _|exact Hend]|]. intros [].
  destruct (ValidateCurrent plan (ck_ExecutionMilestoneID checkpoint)) as [[]|e] eqn:Ev; [|intros d Hd; by apply Hend].
  eapply (triple_bind _ (λ _, stored plan)); [by intros d Hd|]. intros _.
  destruct plan as [p|]; [|by apply triple_fail]. destruct v as [[finished todo]|]; [|done]. simpl in Hs.
  unfold ValidateCurrent in Ev. simpl in Ev. rewrite (plan_current _ _ Hs) in Ev. simpl in Ev.
  destruct todo as [|x todo]; [done|]. simpl in Ev. destruct (_ || _) eqn:Eg in Ev; [done|]. bool_simp.
  eapply (triple_bind _ (λ p' d, (∃ c, represents p' {| vw_done := finished ++ [(x, c)]; vw_todo := todo |} ∧
    cm_Summary c = rs_Summary result) ∧ stored (Some p') d)).
  - unfold completeCurrentExecutionMilestone.
    eapply triple_bind; [apply triple_reads; [apply _|exact Hend]|]. intros snapshot.
    eapply triple_bind; [apply Now_triple, _|]. intros completedAt.
    eapply triple_bind; [apply ReadOr_triple|]. intros session. cbv zeta.
    eapply triple_bind; [apply Now_triple, _|]. intros updatedAt. cbv zeta.
    eapply triple_bind; [eapply triple_consequence; [apply SavePlan_triple|done|done|exact Hend]|]. intros [].
    apply triple_ret. intros d Hd. split; [|exact Hd]. eexists. split; [by apply completed_represents|done].
  - intros p'. apply triple_pure. intros (c & Hr & Hsum). rewrite (plan_finished _ _ Hr). simpl.
    assert (∀ d, stored (Some p') d → stepped op (Some {| vw_done := finished; vw_todo := x :: todo |})
      (negb (bool_decide (todo = []))) d) as Hst.
    { intros d Hd. eexists (Some p'), (Some _). split; [exact Hd|]. split; [exact Hr|]. by constructor. }
    case_bool_decide; simpl in Hst; [by apply triple_ret|].
    eapply (triple_bind _ (λ _, stored (Some p'))); [by apply triple_ret|]. intros []. by apply triple_ret.
Qed.
Lemma run_triple op plan v :
  (∀ p, plan = Some p → clean p) → shows plan v → triple (stored plan) (run op) (stepped op v) (ended op v).
Proof. intros. destruct op; [apply Declared_triple|apply Revised_triple|apply Advanced_triple|apply Synced_triple]; done. Qed.
Lemma step_grows op v v' b :
  (∀ raw path, op ≠ Declared raw path) → step op (Some v) v' b →
  ∃ w, v' = Some w ∧ vw_done v `prefix_of` vw_done w.
Proof.
  intros Hop Hs. inversion Hs; subst; [by destruct (Hop raw path)|..]; eexists; (split; [done|]); simpl; try done.
  by apply prefix_app_r.
Qed.
(** C11: The plan file refines the machine of milestones done and to do.  Run
    any operation on it - declaring milestones, revising them, finishing the
    current one, following a change of the task's contract - in any environment:
    if it succeeds the machine makes the step of the operation, with its answer;
    if it fails the plan is as it was or one step on.  The plan that is stored
    always lists two to eight distinct milestones, the finished ones first, each
    with its evidence, so the progress report finds it consistent; and what is
    done stays done unless milestones are declared anew. *)
Theorem milestones_refine op plan v d r d' :
  (∀ p, plan = Some p → clean p) → stored plan d → shows plan v → run op d = (r, d') →
  ∃ plan' v',
    stored plan' d' ∧ shows plan' v' ∧
    match r with Ok b => step op v v' b | Err _ => v' = v ∨ ∃ b, step op v v' b end ∧
    (∀ p', plan' = Some p' → executionProgressMilestonesConsistent p' = true) ∧
    (∀ v0, (∀ raw path, op ≠ Declared raw path) → v = Some v0 → ∃ v1, v' = Some v1 ∧ vw_done v0 `prefix_of` vw_done v1).
Proof.
  intros Hc Hd Hs E. pose proof (run_triple op plan v Hc Hs d Hd) as Ht. rewrite E in Ht.
  assert (∀ plan' v', shows plan' v' → ∀ p', plan' = Some p' → executionProgressMilestonesConsistent p' = true) as Hcons.
  { intros plan' [w|] Hsh p' ->; [|done]. by eapply plan_consistent. }
  destruct r as [b|e].
  - destruct Ht as (plan' & v' & Hd' & Hs' & Hstep). exists plan', v'. do 3 (split; [done|]).
    split; [by eapply Hcons|]. intros v0 Hop ->. by eapply step_grows.
  - destruct Ht as (plan' & v' & Hd' & Hs' & Hend). exists plan', v'. do 3 (split; [done|]).
    split; [by eapply Hcons|]. intros v0 Hop ->. destruct Hend as [->|[b Hstep]]; [by eexists|by eapply step_grows].
Qed.
End Refinement.

(** ** A plan of two milestones, the first being worked on *)
Definition firstMilestone : MilestoneDefinition :=
  {| md_ID := "parser"; md_Scope := "the parser"; md_Acceptance := "it parses"; md_FreshWorker := false |}.
Definition secondMilestone : MilestoneDefinition :=
  {| md_ID := "printer"; md_Scope := "the printer"; md_Acceptance := "it prints"; md_FreshWorker := true |}.
Definition examplePath : string := "IMPLEMENTATION_TASKS/a.md".
Definition examplePlan : Plan := NewPlan exampleTask examplePath "digest" [firstMilestone; secondMilestone] 0.
Definition exampleView : view := {| vw_done := []; vw_todo := [firstMilestone; secondMilestone] |}.
#[export] Instance example_plans : JSONText Plan Some.
Proof. refine (known_text _ (λ _, "plan") [examplePlan] _ _); known. Defined.
#[export] Instance example_dispositions : JSONText Disposition Some.
Proof. refine (known_text _ (λ _, "disposition") [] _ _); known. Defined.
#[export] Instance example_bindings : JSONText controllerRuntimeBindingWire Some.
Proof. refine (known_text _ (λ _, "binding") [] _ _); known. Defined.
#[export] Instance example_tasks : TaskFiles :=
  {| task_host := {| sha256_hex _ := "digest"; RequireRequestRepository _ := Ok () |}; ReadTaskFile _ _ := Ok "# task" |}.
#[export] Instance example_prompts : PromptJSON := {| marshalPrompt _ := "{}" |}.
Definition planDisk : Disk :=
  stateDisk TaskStatusActive [(ExecutionMilestonesStateFile, "plan"); ("active-task", examplePath)] [].
Definition parserWorked : operation :=
  Advanced exampleResult (exampleCheckpoint {{ ck_ExecutionMilestoneID := "parser" }}).
Lemma parser_accepted :
  match (run "/repo" "call" parserWorked planDisk).1 with Ok b => b | Err _ => false end = true.
Proof. vm_compute. reflexivity. Qed.
Lemma examplePlan_represents : represents examplePlan exampleView.
Proof.
  apply declared_represents, (Validate_ok [firstMilestone; secondMilestone]). vm_compute. reflexivity.
Qed.
Lemma milestones_refine_witness :
  ∃ d' plan' v', run "/repo" "call" parserWorked planDisk = (Ok true, d') ∧ stored plan' d' ∧
    shows plan' v' ∧ step parserWorked (Some exampleView) v' true.
Proof.
  pose proof parser_accepted as Hok.
  destruct (run "/repo" "call" parserWorked planDisk) as [[[]|e] d'] eqn:E; [|discriminate Hok..].
  destruct (milestones_refine "/repo" "call" parserWorked (Some examplePlan) (Some exampleView) planDisk (Ok true) d')
    as (plan' & v' & Hd & Hs & Hstep & _).
  - intros p [= <-]. left.
  - vm_compute. reflexivity.
  - exact examplePlan_represents.
  - exact E.
  - exists d', plan', v'. split; [reflexivity|]. split; [exact Hd|]. split; [exact Hs|exact Hstep].
Defined.
