(* ===== verification/MilestonePrompt.v ===== *)
(** * The milestone block in a prompt

    A worker that is resumed gets the prompt of its checkpoint with the block of
    the current milestone in the place of the one before.  The block is found by
    its first and last lines, so what may be inside it matters. *)
From S2P Require Import Prelude GoStrings GoText ControllerTypes ControllerStore Packet SessionTypes SessionStore ResumeCheckpoint ParentReview Lifecycle ExecutionMilestones.

(** ** Searching across a line feed *)
Lemma CutPrefix_line c s b sep : no_char c sep → CutPrefix s sep = None → CutPrefix (s +:+ String c b) sep = None.
Proof.
  revert s. induction sep as [|x sep IH]; intros [|y s]; simpl; try done.
  - intros [? _] _. by rewrite decide_False.
  - intros [_ ?]. case_decide; [by apply IH|done].
Qed.
Lemma cut_at_none x s sep : cut_at (String x s) sep = None → CutPrefix (String x s) sep = None ∧ cut_at s sep = None.
Proof. simpl. destruct (CutPrefix _ _); [done|]. by destruct (cut_at s sep) as [[]|]. Qed.
Lemma cut_at_line c a b sep :
  no_char c sep → cut_at a sep = None →
  cut_at (a +:+ String c b) sep =
  match cut_at b sep with Some (x, y) => Some (a +:+ String c x, y) | None => None end.
Proof.
  intros Hc. induction a as [|x a IH]; intros Ha.
  - destruct sep as [|d sep]; [done|]. simpl. destruct Hc as [Hd _]. by rewrite decide_False.
  - apply cut_at_none in Ha as [Hx Ha]. rewrite app_cons_str.
    pose proof (CutPrefix_line c (String x a) b sep Hc Hx) as Hp. rewrite app_cons_str in Hp.
    cbn [cut_at]. rewrite Hp, (IH Ha). by destruct (cut_at b sep) as [[]|].
Qed.
Lemma cut_at_Contains s sep : Contains s sep = false → cut_at s sep = None.
Proof.
  induction s as [|x s IH]; simpl; unfold HasPrefix; (destruct (CutPrefix _ sep); simpl; [done|]); [done|].
  intros ?. by rewrite IH.
Qed.

(** ** The end of the text before the block *)
Definition open_line (s : string) : Prop := ∀ q, s ≠ q +:+ newline.
Lemma open_line_tail x s : s ≠ "" → open_line (String x s) → open_line s.
Proof. intros _ H q ->. by apply (H (String x q)). Qed.
Lemma TrimRightByte_open s : open_line (TrimRightByte s LF).
Proof.
  intros q E. unfold TrimRightByte in E. apply (f_equal String.rev) in E.
  rewrite rev_involutive_str, rev_append_str in E.
  assert (∀ t u, dropLeading LF t ≠ String LF u) as Hn.
  { induction t as [|d t IH]; intros u; simpl; [done|]. case_bool_decide as Hd; [apply IH|naive_solver]. }
  by apply (Hn (String.rev s) (String.rev q)).
Qed.
Lemma TrimRightByte_id s : open_line s → TrimRightByte s LF = s.
Proof.
  intros Ho. unfold TrimRightByte.
  assert (dropLeading LF (String.rev s) = String.rev s) as ->; [|apply rev_involutive_str].
  destruct (String.rev s) as [|d t] eqn:E; [done|]. simpl. case_bool_decide as Hd; [|done].
  destruct (Ho (String.rev t)). rewrite <-(rev_involutive_str s), E, <-Hd. by rewrite rev_cons_str.
Qed.

(** ** Finding the block *)
Definition unmarked (s : string) : Prop := Contains s promptMarker = false.
Lemma cut_marker s t : open_line s → cut_at s promptMarker = None → cut_at (s +:+ promptMarker +:+ t) promptMarker = Some (s, t).
Proof.
  induction s as [|x s IH]; intros Ho Hs.
  - change ("" +:+ ?u) with u. assert (∃ y z, promptMarker = String y z) as (y & z & E) by (by eexists _, _).
    pose proof (CutPrefix_app promptMarker t) as Hp. rewrite E, app_cons_str in Hp |- *. cbn [cut_at]. by rewrite Hp.
  - apply cut_at_none in Hs as [Hx Hs]. rewrite app_cons_str.
    assert (CutPrefix (String x (s +:+ promptMarker +:+ t)) promptMarker = None) as Hp.
    { assert (promptMarker = String LF (String LF executionMilestonePromptBegin)) as E by reflexivity.
      rewrite E in Hx |- *. cbn [CutPrefix] in *. case_decide as Hl; [subst x|done].
      destruct s as [|y s]; [by destruct (Ho "")|]. rewrite app_cons_str. case_decide as Hl; [subst y|done].
      rewrite app_cons_str. apply CutPrefix_line; [vm_compute; naive_solver|exact Hx]. }
    assert (s ≠ "" → open_line s) as Ho' by (intros; by eapply open_line_tail).
    cbn [cut_at]. rewrite Hp. destruct (decide (s = "")) as [->|Hn].
    + rewrite IH; [done| |done]. intros [] ?; discriminate.
    + by rewrite IH by auto.
Qed.
(** Behind the marker, the block reads up to the first end in its data, or to
    its own. *)
Lemma cut_end data rest :
  cut_at (promptMarker +:+ newline +:+ data +:+ rest) executionMilestonePromptEnd =
  match cut_at (data +:+ rest) executionMilestonePromptEnd with
  | Some (x, y) => Some (promptMarker +:+ String LF x, y)
  | None => None
  end.
Proof.
  change (newline +:+ ?s) with (String LF s).
  apply cut_at_line; [vm_compute; naive_solver|reflexivity].
Qed.
Lemma removePromptBlocks_unmarked fuel s : unmarked s → removePromptBlocks fuel s = s.
Proof. intros Hu. destruct fuel; simpl; [done|]. unfold removePromptBlock. by rewrite cut_at_Contains. Qed.
Lemma replace_decorated kept data rest block :
  open_line kept → unmarked kept →
  (∃ x, cut_at (data +:+ newline +:+ executionMilestoneInstruction +:+ newline +:+ executionMilestonePromptEnd +:+ newline)
     executionMilestonePromptEnd = Some (x, rest)) →
  unmarked (kept +:+ dropLeading LF rest) →
  replaceExecutionMilestonePromptBlock (kept +:+ promptBlock data) block =
  TrimRightByte (kept +:+ dropLeading LF rest) LF +:+ block.
Proof.
  intros Ho Hu [x Hx] Hr. unfold replaceExecutionMilestonePromptBlock. f_equal. f_equal.
  set (tail := newline +:+ executionMilestoneInstruction +:+ newline +:+ executionMilestonePromptEnd +:+ newline) in *.
  assert (promptBlock data = promptMarker +:+ newline +:+ data +:+ tail) as -> by reflexivity.
  assert (∃ n, String.length (kept +:+ promptMarker +:+ newline +:+ data +:+ tail) = S n) as [n ->].
  { rewrite length_app_str. exists (String.length kept + pred (String.length (promptMarker +:+ newline +:+ data +:+ tail))).
    rewrite length_app_str. change (String.length promptMarker) with 32. lia. }
  cbn [removePromptBlocks]. unfold removePromptBlock.
  rewrite (cut_marker kept (newline +:+ data +:+ tail)) by (done || by apply cut_at_Contains).
  rewrite cut_end, Hx. by apply removePromptBlocks_unmarked.
Qed.

(** ** The block is replaced, and what it may not contain *)
(** What is left of a prompt without its blocks. *)
Definition keptText (prompt : string) : string := TrimRightByte (removePromptBlocks (String.length prompt) prompt) LF.
Lemma replace_kept prompt block : replaceExecutionMilestonePromptBlock prompt block = keptText prompt +:+ block.
Proof. reflexivity. Qed.
(** The text of a block after the data. *)
Definition blockTail : string :=
  newline +:+ executionMilestoneInstruction +:+ newline +:+ executionMilestonePromptEnd +:+ newline.
Lemma blockTail_end data :
  Contains data executionMilestonePromptEnd = false →
  ∃ x, cut_at (data +:+ blockTail) executionMilestonePromptEnd = Some (x, newline).
Proof.
  intros Hd. unfold blockTail. change (newline +:+ ?s) with (String LF s).
  rewrite cut_at_line by (by vm_compute; naive_solver || by apply cut_at_Contains).
  assert (cut_at (executionMilestoneInstruction +:+ newline +:+ executionMilestonePromptEnd +:+ newline)
            executionMilestonePromptEnd = Some (executionMilestoneInstruction +:+ newline, newline)) as ->
    by (vm_compute; reflexivity).
  by eexists.
Qed.
(** C19: Decorating a prompt again replaces the block.  When the text of the prompt
    has no stray marker and the JSON of the milestone does not contain the end
    line, the next block takes the place of the last one: the text of the prompt
    is kept to the byte, there is one block however often the prompt is
    decorated, and nothing of the old one stays. *)
Theorem decoration_replaces_block prompt data block :
  unmarked (keptText prompt) → Contains data executionMilestonePromptEnd = false →
  let decorated := replaceExecutionMilestonePromptBlock prompt (promptBlock data) in
  decorated = keptText prompt +:+ promptBlock data ∧
  replaceExecutionMilestonePromptBlock decorated block = keptText prompt +:+ block ∧
  keptText decorated = keptText prompt.
Proof.
  intros Hu Hd decorated. split; [done|].
  assert (∀ block, replaceExecutionMilestonePromptBlock decorated block = keptText prompt +:+ block) as Hr.
  { intros b. unfold decorated. rewrite (replace_kept prompt), (replace_decorated _ data newline).
    - change (dropLeading LF newline) with "". rewrite app_nil_r_str.
      by rewrite TrimRightByte_id by apply TrimRightByte_open.
    - apply TrimRightByte_open.
    - done.
    - by apply blockTail_end.
    - change (dropLeading LF newline) with "". by rewrite app_nil_r_str. }
  split; [apply Hr|]. apply (app_inj_tail_str _ _ block). rewrite <-replace_kept. apply Hr.
Qed.
Lemma decoration_replaces_block_witness :
  replaceExecutionMilestonePromptBlock
    (replaceExecutionMilestonePromptBlock "fix it" (promptBlock "{parser}")) (promptBlock "{printer}") =
  "fix it" +:+ promptBlock "{printer}".
Proof.
  exact (proj1 (proj2 (decoration_replaces_block "fix it" "{parser}" (promptBlock "{printer}") eq_refl eq_refl))).
Defined.

(** A milestone whose text contains the end line leaves a part of its block
    behind.  The end line is not escaped in the JSON and not refused in a
    milestone; the removal stops at it, and the rest of the old data, with the
    instruction and the closing line, stays in the prompt in front of the new
    block. *)
Theorem end_line_in_milestone_survives prompt a b block :
  let tail := dropLeading LF (b +:+ blockTail) in
  let data := a +:+ executionMilestonePromptEnd +:+ b in
  unmarked (keptText prompt +:+ tail) → unmarked (keptText prompt) →
  cut_at (data +:+ blockTail) executionMilestonePromptEnd = Some (a, b +:+ blockTail) →
  replaceExecutionMilestonePromptBlock (replaceExecutionMilestonePromptBlock prompt (promptBlock data)) block =
  TrimRightByte (keptText prompt +:+ tail) LF +:+ block.
Proof.
  intros tail data Ht Hu Hc. rewrite (replace_kept prompt).
  apply replace_decorated; [apply TrimRightByte_open|done| |done]. by exists a.
Qed.
(** The scope of the milestone is admitted, and the next prompt still has the end
    of its block. *)
Definition endMilestone : MilestoneDefinition :=
  {| md_ID := "docs"; md_Scope := "explain END_EXECUTION_MILESTONE_JSON"; md_Acceptance := "explained"; md_FreshWorker := false |}.
Lemma end_line_in_milestone_survives_witness :
  validateMilestoneDefinition endMilestone ∅ = Ok () ∧
  replaceExecutionMilestonePromptBlock
    (replaceExecutionMilestonePromptBlock "fix it" (promptBlock "{END_EXECUTION_MILESTONE_JSON}")) "" =
  "fix it}" +:+ newline +:+ executionMilestoneInstruction +:+ newline +:+ executionMilestonePromptEnd.
Proof.
  split; [vm_compute; reflexivity|].
  pose proof (end_line_in_milestone_survives "fix it" "{" "}" "" eq_refl eq_refl eq_refl) as E.
  cbn [String.append] in E. exact E.
Defined.
