(* ===== verification/TimeFormat.v ===== *)
(** * Writing times

    [t.UTC().Format(time.RFC3339Nano)]: the fraction of the second without its
    trailing zeros, and no fraction when there is none. *)
From S2P Require Import Prelude GoStrings GoText ControllerTypes GoTime.

Definition fractionText (ns : Z) : string :=
  if bool_decide (ns = 0%Z) then ""
  else "." +:+ TrimRightByte (TrimPrefix (FormatInt (1000000000 + ns)) "1") "0".
Definition FormatRFC3339Nano (t : Time) : string :=
  let seconds := (t / 1000000000)%Z in
  let days := (seconds / 86400)%Z in
  let rest := (seconds mod 86400)%Z in
  let year := yearOf days in
  let month := monthOf days year in
  let day := (days - daysBeforeYear year - daysBeforeMonth month year + 1)%Z in
  four_digits year +:+ "-" +:+ two_digits (Z.of_nat month) +:+ "-" +:+ two_digits day +:+ "T" +:+
  two_digits (rest / 3600) +:+ ":" +:+ two_digits (rest mod 3600 / 60) +:+ ":" +:+ two_digits (rest mod 60) +:+
  fractionText (t mod 1000000000) +:+ "Z".

Example format_examples :
  (FormatRFC3339Nano <$> ParseRFC3339 "2026-02-28T23:30:05.250+00:00") = Some "2026-02-28T23:30:05.25Z" ∧
  (FormatRFC3339Nano <$> ParseRFC3339 "2024-03-01T00:00:00+01:00") = Some "2024-02-29T23:00:00Z" ∧
  (FormatRFC3339Nano <$> ParseRFC3339 "0001-01-01T00:00:00.000000001Z") = Some "0001-01-01T00:00:00.000000001Z".
Proof. vm_compute. done. Qed.
