(* ===== verification/SessionRotation.v ===== *)
(** * Session rotation

    Models [internal/state/session_rotation.go], [session_rotation_boundary.go],
    [session_rotation_failure.go], [session_rotation_accepted_tasks.go] and
    [parent_codex_identity.go]: when a thread of the parent has worked enough, a
    directive tells it to hand over to a new thread.  The directive of a thread is
    a marker file of its own; it is claimed, the claim is bound to the new thread,
    and the new thread acknowledges it by starting the claimed task.

    [json.Decoder] with unknown fields disallowed is [unmarshal] here: it reads
    back what was written.  Starting the task is an argument. *)
From S2P Require Import Prelude GoStrings GoText GoTime TimeFormat ControllerTypes ControllerStore MutationControl Packet SessionTypes SessionStore ResumeCheckpoint ParentReview.

(** ** Records ([session_rotation.go]) *)
Record ParentCodexIdentity := { ci_Version : Z; ci_TaskID : string; ci_ThreadID : string; ci_SessionID : string }.
Record SessionRotationEvidence := { re_Trigger : string; re_Field : string; re_Value : string; re_Source : string }.
Record SessionRotationDirective := {
  rd_DirectiveID : string;
  rd_TaskID : string;
  rd_Terminal : string;
  rd_Epoch : string;
  rd_Reason : string;
  rd_Evidence : list SessionRotationEvidence;
  rd_CreatedAt : string;
}.
Record SessionRotationClaim := {
  rk_ClaimID : string;
  rk_ClaimantThreadID : string;
  rk_TargetTaskID : string;
  rk_ClaimedAt : string;
  rk_BoundThreadID : string;
  rk_BoundAt : string;
}.
Record SessionRotationIssued := { is_BoundThreadID : string; is_IssuedAt : string }.
Record SessionLimitBaseline := {
  rl_LimitID : string;
  rl_WindowResetsAt : Z;
  rl_UsedPercent : Z;
  rl_CapturedAt : string;
}.
Record SessionLimitReading := {
  rg_LimitID : string;
  rg_UsedPercent : Z;
  rg_ResetsAt : Z;
  rg_CapturedAt : Time;
}.
Record SessionRotationEvaluationRecord := {
  ry_TaskID : string;
  ry_Terminal : string;
  ry_Required : bool;
  ry_Reason : string;
  ry_At : string;
}.
Record SessionRotationCreationResult := {
  rx_Version : Z;
  rx_Outcome : string;
  rx_ParentThreadID : string;
  rx_DirectiveID : string;
  rx_ClaimID : string;
  rx_TargetTaskID : string;
}.
Record SessionRotationCreationOutcome := {
  rj_Version : Z;
  rj_Outcome : string;
  rj_ParentThreadID : string;
  rj_DirectiveID : string;
  rj_ClaimID : string;
  rj_TargetTaskID : string;
  rj_RecordedAt : string;
}.
Record SessionRotationMarker := {
  mk_Version : Z;
  mk_ParentThreadID : string;
  mk_State : string;
  mk_Directive : option SessionRotationDirective;
  mk_Claim : option SessionRotationClaim;
  mk_Issued : option SessionRotationIssued;
  mk_LastCreationOutcome : option SessionRotationCreationOutcome;
  mk_LimitBaseline : option SessionLimitBaseline;
  mk_AcceptedTasks : option Z;
  mk_LastEvaluation : option SessionRotationEvaluationRecord;
  mk_UpdatedAt : string;
}.
Record IncompleteSessionRotation := {
  ni_ParentThreadID : string;
  ni_State : string;
  ni_DirectiveID : string;
  ni_ClaimID : string;
  ni_BoundThreadID : string;
}.
Record SessionRotationProjection := {
  sr_ParentThreadID : string;
  sr_State : string;
  sr_Directive : option SessionRotationDirective;
  sr_Claim : option SessionRotationClaim;
  sr_LastEvaluation : option SessionRotationEvaluationRecord;
  sr_Reason : string;
  sr_Incomplete : list IncompleteSessionRotation;
}.
Record pendingSessionRotationRetirementRecommendation := { rr_ParentThreadID : string; rr_DirectiveID : string }.
Record pendingSessionRotationRetirementStage := {
  rs_StageVersion : Z;
  rs_CallerThreadID : string;
  rs_Recommendations : list pendingSessionRotationRetirementRecommendation;
}.
Record SessionRotationDecision := { rn_Required : bool; rn_Reason : string; rn_Evidence : list SessionRotationEvidence }.
Record SessionRotationEvaluation := {
  rz_ParentThreadID : string;
  rz_TaskID : string;
  rz_Terminal : string;
  rz_Decision : SessionRotationDecision;
  rz_AcceptedTasks : Z;
  rz_AcceptedTasksUnavailable : bool;
  rz_LimitBaselineUpdate : option SessionLimitBaseline;
}.
Definition sessionRotationMarkerVersion : Z := 3.
Definition SessionRotationStatePending : string := "pending".
Definition SessionRotationStateClaimed : string := "claimed".
Definition SessionRotationStateBound : string := "bound".
Definition SessionRotationStateIssued : string := "issued".
Definition SessionRotationProjectionNotRequired : string := "not-required".
Definition SessionRotationProjectionUnavailable : string := "unavailable".
Definition SessionRotationCreationResultVersion : Z := 1.
Definition SessionRotationCreationOutcomeFailed : string := "failed".
Definition sessionRotationDirectory : string := "rotation".
Definition pendingSessionRotationRetirementStateFile : string := "pending-session-rotation-retirement.json".
Definition pendingSessionRotationRetirementVersion : Z := 1.
Definition parentCodexIdentityFile : string := "parent-codex-identity.json".
Definition parentCodexIdentityVersion : Z := 1.
Definition sessionRotationReasonKnown (reason : string) : bool :=
  bool_decide (reason ∈ ["high-risk"; "compaction"; "model-turns"; "tool-output-bytes"; "repeated-events";
                         "limit-window"; "default-two-tasks"; "evidence-unavailable"]).

(** ** What a marker may say *)
Definition validateSessionRotationCreationIdentity (version : Z) (outcome parentThreadID directiveID claimID targetTaskID : string)
    : result error unit :=
  reject! negb (bool_decide (version = SessionRotationCreationResultVersion))
    with Errorf "session rotation creation result versionが未対応です: %d" [AStr (FormatInt version)];
  reject! negb (bool_decide (outcome = SessionRotationCreationOutcomeFailed))
    with Errorf "session rotation creation outcomeはconfirmed failureではありません: %q" [AStr outcome];
  reject! negb (ValidUUIDFormat parentThreadID) || negb (ValidGeneratedUUID directiveID) ||
          negb (ValidGeneratedUUID claimID) || negb (ValidGeneratedUUID targetTaskID)
    with err "session rotation creation resultのidentityが不正です";
  Ok ().
Definition validateOutcome (outcome : SessionRotationCreationOutcome) : result error unit :=
  _ ← validateSessionRotationCreationIdentity (rj_Version outcome) (rj_Outcome outcome) (rj_ParentThreadID outcome)
        (rj_DirectiveID outcome) (rj_ClaimID outcome) (rj_TargetTaskID outcome);
  match ParseRFC3339 (rj_RecordedAt outcome) with
  | None => Err (Errorf "session rotation creation outcomeのrecorded_atが不正です: %w" [AErr (err "parsing time")])
  | Some _ => Ok ()
  end.
Definition validateCreationOutcome (marker : SessionRotationMarker) : result error unit :=
  match mk_LastCreationOutcome marker with
  | None => Ok ()
  | Some outcome =>
      match mk_Directive marker with
      | None => Err (err "session rotation creation outcomeにdirectiveがありません")
      | Some directive =>
          reject! negb (bool_decide (rj_DirectiveID outcome = rd_DirectiveID directive))
            with err "session rotation creation outcomeがcurrent directiveと一致しません";
          validateOutcome outcome
      end
  end.
Definition validateForRelease (creation : SessionRotationCreationResult) (parentThreadID directiveID claimID targetTaskID : string)
    : result error unit :=
  _ ← validateSessionRotationCreationIdentity (rx_Version creation) (rx_Outcome creation) (rx_ParentThreadID creation)
        (rx_DirectiveID creation) (rx_ClaimID creation) (rx_TargetTaskID creation);
  reject! negb (bool_decide (rx_ParentThreadID creation = parentThreadID)) ||
          negb (bool_decide (rx_DirectiveID creation = directiveID)) || negb (bool_decide (rx_ClaimID creation = claimID)) ||
          negb (bool_decide (rx_TargetTaskID creation = targetTaskID))
    with err "session rotation creation resultがcurrent claim identityと一致しません";
  Ok ().
Definition newSessionRotationCreationOutcome (creation : SessionRotationCreationResult) (now : Time) : SessionRotationCreationOutcome :=
  {| rj_Version := rx_Version creation; rj_Outcome := rx_Outcome creation; rj_ParentThreadID := rx_ParentThreadID creation;
     rj_DirectiveID := rx_DirectiveID creation; rj_ClaimID := rx_ClaimID creation;
     rj_TargetTaskID := rx_TargetTaskID creation; rj_RecordedAt := FormatRFC3339Nano now |}.

Definition validateNoSessionRotationRecords (marker : SessionRotationMarker) : result error unit :=
  match mk_Directive marker, mk_Claim marker, mk_Issued marker with
  | None, None, None => Ok ()
  | _, _, _ => Err (Errorf "directive未発行のsession rotation markerにdirective/issued recordがあります: %s" [AStr (mk_State marker)])
  end.
Definition validatePendingSessionRotationRecords (marker : SessionRotationMarker) : result error unit :=
  match mk_Directive marker, mk_Claim marker, mk_Issued marker with
  | None, _, _ => Err (err "pending session rotation markerにdirectiveがありません")
  | Some _, None, None => Ok ()
  | Some _, _, _ => Err (err "pending session rotation markerにclaim/issued recordがあります")
  end.
Definition validateClaimedSessionRotationRecords (marker : SessionRotationMarker) : result error unit :=
  match mk_Directive marker, mk_Claim marker, mk_Issued marker with
  | Some _, Some claim, None =>
      reject! negb (bool_decide (rk_BoundThreadID claim = "")) with err "claimed session rotation markerのstate recordが不正です";
      Ok ()
  | _, _, _ => Err (err "claimed session rotation markerのstate recordが不正です")
  end.
Definition validateBoundSessionRotationRecords (marker : SessionRotationMarker) : result error unit :=
  match mk_Directive marker, mk_Claim marker, mk_Issued marker with
  | Some _, Some claim, None =>
      reject! negb (ValidUUIDFormat (rk_BoundThreadID claim)) || bool_decide (rk_BoundAt claim = "")
        with err "bound session rotation markerのstate recordが不正です";
      Ok ()
  | _, _, _ => Err (err "bound session rotation markerのstate recordが不正です")
  end.
Definition validateIssuedSessionRotationRecords (marker : SessionRotationMarker) : result error unit :=
  match mk_Directive marker, mk_Issued marker with
  | Some _, Some issued =>
      reject! negb (ValidUUIDFormat (is_BoundThreadID issued))
        with err "issued session rotation markerにbound thread IDがありません";
      match mk_Claim marker with
      | Some claim =>
          reject! negb (bool_decide (rk_BoundThreadID claim = is_BoundThreadID issued))
            with err "issued session rotation markerのbound thread IDがclaimと一致しません";
          Ok ()
      | None => Ok ()
      end
  | _, _ => Err (err "issued session rotation markerにbound thread IDがありません")
  end.
Definition validateStateRecords (marker : SessionRotationMarker) : result error unit :=
  let state := mk_State marker in
  if bool_decide (state = "") then validateNoSessionRotationRecords marker
  else if bool_decide (state = SessionRotationStatePending) then validatePendingSessionRotationRecords marker
  else if bool_decide (state = SessionRotationStateClaimed) then validateClaimedSessionRotationRecords marker
  else if bool_decide (state = SessionRotationStateBound) then validateBoundSessionRotationRecords marker
  else if bool_decide (state = SessionRotationStateIssued) then validateIssuedSessionRotationRecords marker
  else Err (Errorf "session rotation markerのstateが不正です: %s" [AStr state]).
Definition validateCreationOutcomeAndAcceptedTasks (marker : SessionRotationMarker) : result error unit :=
  _ ← validateCreationOutcome marker;
  match mk_AcceptedTasks marker with
  | Some tasks =>
      reject! bool_decide (tasks < 0)%Z
        with Errorf "session rotation markerのaccepted_tasksが不正です: %d" [AStr (FormatInt tasks)];
      Ok ()
  | None => Ok ()
  end.
Definition validateLifecycle (marker : SessionRotationMarker) : result error unit :=
  _ ← validateStateRecords marker;
  _ ← match mk_Claim marker with
      | Some claim =>
          reject! negb (ValidGeneratedUUID (rk_ClaimID claim)) || negb (ValidUUIDFormat (rk_ClaimantThreadID claim)) ||
                  negb (ValidGeneratedUUID (rk_TargetTaskID claim)) || bool_decide (rk_ClaimedAt claim = "")
            with err "session rotation claimが不正です";
          reject! negb (bool_decide (rk_ClaimantThreadID claim = mk_ParentThreadID marker))
            with err "session rotation claimのclaimant thread IDが親thread IDと一致しません";
          Ok ()
      | None => Ok ()
      end;
  validateCreationOutcomeAndAcceptedTasks marker.
Definition validateDirective (directive : SessionRotationDirective) : result error unit :=
  reject! negb (ValidGeneratedUUID (rd_DirectiveID directive))
    with Errorf "session rotation directiveのIDが不正です: %s" [AStr (rd_DirectiveID directive)];
  reject! bool_decide (rd_TaskID directive = "") || bool_decide (rd_CreatedAt directive = "")
    with err "session rotation directiveにtask IDまたはcreated_atがありません";
  reject! negb (bool_decide (rd_Terminal directive = SessionRotationTerminalAccept)) &&
          negb (bool_decide (rd_Terminal directive = SessionRotationTerminalNoGo))
    with Errorf "session rotation directiveのterminalが不正です: %s" [AStr (rd_Terminal directive)];
  reject! negb (bool_decide (rd_Epoch directive = rd_TaskID directive +:+ ":" +:+ rd_Terminal directive))
    with Errorf "session rotation directiveのepochがtask/terminalと一致しません: %s" [AStr (rd_Epoch directive)];
  reject! negb (sessionRotationReasonKnown (rd_Reason directive))
    with Errorf "session rotation directiveのreasonが不正です: %s" [AStr (rd_Reason directive)];
  Ok ().
Definition validateLimitBaseline (baseline : SessionLimitBaseline) : result error unit :=
  let shown := [AStr (rl_LimitID baseline); AStr (FormatInt (rl_WindowResetsAt baseline));
                AStr (FormatInt (rl_UsedPercent baseline)); AStr (rl_CapturedAt baseline)] in
  reject! bool_decide (rl_LimitID baseline = "") || bool_decide (rl_WindowResetsAt baseline ≤ 0)%Z
    with Errorf "session rotation limit baselineが不完全です: %#v" shown;
  reject! bool_decide (rl_UsedPercent baseline < 0)%Z || bool_decide (100 < rl_UsedPercent baseline)%Z ||
          bool_decide (rl_CapturedAt baseline = "")
    with Errorf "session rotation limit baselineが不正です: %#v" shown;
  Ok ().
Definition optionally {A} (check : A → result error unit) (value : option A) : result error unit :=
  match value with Some value => check value | None => Ok () end.
Definition validateMarker (marker : SessionRotationMarker) : result error unit :=
  reject! negb (bool_decide (mk_Version marker = sessionRotationMarkerVersion))
    with Errorf "session rotation markerのversionが不正です: %d" [AStr (FormatInt (mk_Version marker))];
  reject! negb (ValidUUIDFormat (mk_ParentThreadID marker))
    with Errorf "session rotation markerの親thread IDが不正です: %s" [AStr (mk_ParentThreadID marker)];
  _ ← validateLifecycle marker;
  _ ← optionally validateDirective (mk_Directive marker);
  _ ← optionally validateLimitBaseline (mk_LimitBaseline marker);
  _ ← optionally (λ evaluation,
        reject! bool_decide (ry_TaskID evaluation = "") || bool_decide (ry_At evaluation = "")
          with err "session rotation markerのlast_evaluationが不完全です";
        Ok ()) (mk_LastEvaluation marker);
  reject! bool_decide (mk_UpdatedAt marker = "") with err "session rotation markerにupdated_atがありません";
  Ok ().

(** ** The marker of a thread *)
Section Rotation.
Context `{Unicode, MachineEncoder, ResumeText, JSONText SessionRotationMarker Some, JSONText ParentCodexIdentity Some,
          JSONText pendingSessionRotationRetirementStage Some}.

Definition SessionRotationMarkerPath (threadID : string) : list string := [sessionRotationDirectory; threadID +:+ ".json"].
Definition decodeSessionRotationMarker (data : string) : result error SessionRotationMarker :=
  match unmarshal data with
  | None => Err (Errorf "session rotation markerのschemaが不正です: %w" [AErr json_error])
  | Some marker => _ ← validateMarker marker; Ok marker
  end.
Definition LoadSessionRotationMarker (threadID : string) : io (option SessionRotationMarker) :=
  refuse! negb (ValidUUIDFormat threadID)
    with Errorf "session rotation markerの親thread IDが不正です: %s" [AStr threadID];
  data ← attempt (ReadFile (SessionRotationMarkerPath threadID));
  match data with
  | Err e => if IsNotExist e then mret None else fail (Errorf "session rotation markerを読めません: %w" [AErr e])
  | Ok data => marker ← lift (decodeSessionRotationMarker data); mret (Some marker)
  end.
Definition writeSessionRotationMarker (marker : SessionRotationMarker) : io unit :=
  now ← Now;
  let marker := marker {{ mk_UpdatedAt := FormatRFC3339Nano now }} in
  _ ← lift (validateMarker marker);
  writeFileAtomic (SessionRotationMarkerPath (mk_ParentThreadID marker)) (marshal marker +:+ newline) mode600.
Definition freshMarker (threadID : string) : SessionRotationMarker :=
  {| mk_Version := sessionRotationMarkerVersion; mk_ParentThreadID := threadID; mk_State := ""; mk_Directive := None;
     mk_Claim := None; mk_Issued := None; mk_LastCreationOutcome := None; mk_LimitBaseline := None;
     mk_AcceptedTasks := None; mk_LastEvaluation := None; mk_UpdatedAt := "" |}.
Definition sessionLimitBaselineFromReading (reading : SessionLimitReading) : SessionLimitBaseline :=
  {| rl_LimitID := rg_LimitID reading; rl_WindowResetsAt := rg_ResetsAt reading;
     rl_UsedPercent := rg_UsedPercent reading; rl_CapturedAt := FormatRFC3339Nano (rg_CapturedAt reading) |}.
Definition SaveSessionLimitBaseline (threadID : string) (reading : SessionLimitReading) : io unit :=
  loaded ← LoadSessionRotationMarker threadID;
  let marker := default (freshMarker threadID) loaded in
  let current := match mk_LimitBaseline marker with
                 | Some baseline => bool_decide (rl_LimitID baseline = rg_LimitID reading) &&
                                    bool_decide (rl_WindowResetsAt baseline = rg_ResetsAt reading)
                 | None => false
                 end in
  if current then mret ()
  else writeSessionRotationMarker (marker {{ mk_LimitBaseline := Some (sessionLimitBaselineFromReading reading) }}).

(** ** Claiming, binding and acknowledging *)
Definition hasDirective (marker : SessionRotationMarker) (directiveID : string) : bool :=
  match mk_Directive marker with Some directive => bool_decide (rd_DirectiveID directive = directiveID) | None => false end.
Definition hasClaim (marker : SessionRotationMarker) (claimID : string) : bool :=
  match mk_Claim marker with Some claim => bool_decide (rk_ClaimID claim = claimID) | None => false end.
Definition reusableSessionRotationClaim (marker : SessionRotationMarker) (parentThreadID : string) : option SessionRotationClaim :=
  if negb (bool_decide (mk_State marker = SessionRotationStateClaimed)) &&
     negb (bool_decide (mk_State marker = SessionRotationStateBound)) then None
  else match mk_Claim marker with
       | Some claim => if bool_decide (rk_ClaimantThreadID claim = parentThreadID) then Some claim else None
       | None => None
       end.
Definition ClaimSessionRotation (parentThreadID directiveID : string) : io SessionRotationClaim :=
  loaded ← LoadSessionRotationMarker parentThreadID;
  match loaded with
  | None => fail (err "session rotation directiveが見つかりません")
  | Some marker =>
      refuse! negb (hasDirective marker directiveID) with err "session rotation directiveが見つかりません";
      match reusableSessionRotationClaim marker parentThreadID with
      | Some claim => mret claim
      | None =>
          refuse! negb (bool_decide (mk_State marker = SessionRotationStatePending))
            with Errorf "session rotation directiveは既にclaim済みです: %s" [AStr (mk_State marker)];
          claimID ← NewUUID;
          targetTaskID ← NewUUID;
          now ← Now;
          let claim := {| rk_ClaimID := claimID; rk_ClaimantThreadID := parentThreadID; rk_TargetTaskID := targetTaskID;
                          rk_ClaimedAt := FormatRFC3339Nano now; rk_BoundThreadID := ""; rk_BoundAt := "" |} in
          _ ← writeSessionRotationMarker (marker {{ mk_State := SessionRotationStateClaimed; mk_Claim := Some claim }});
          mret claim
      end
  end.
Definition claimMismatch : error := err "session rotation claimが一致しません".
Definition ReleaseSessionRotationClaim (parentThreadID directiveID claimID : string) (creation : SessionRotationCreationResult) : io unit :=
  loaded ← LoadSessionRotationMarker parentThreadID;
  match loaded with
  | None => fail claimMismatch
  | Some marker =>
      match mk_Claim marker with
      | None => fail claimMismatch
      | Some claim =>
          refuse! negb (hasDirective marker directiveID) || negb (bool_decide (rk_ClaimID claim = claimID)) with claimMismatch;
          refuse! negb (bool_decide (mk_State marker = SessionRotationStateClaimed))
            with Errorf "bind済みまたは完了済みのsession rotation claimはreleaseできません: %s" [AStr (mk_State marker)];
          _ ← lift (validateForRelease creation parentThreadID directiveID claimID (rk_TargetTaskID claim));
          now ← Now;
          writeSessionRotationMarker
            (marker {{ mk_LastCreationOutcome := Some (newSessionRotationCreationOutcome creation now);
                       mk_State := SessionRotationStatePending; mk_Claim := None }})
      end
  end.
Definition BindSessionRotationClaim (parentThreadID directiveID claimID boundThreadID : string) : io unit :=
  refuse! negb (ValidUUIDFormat boundThreadID) || bool_decide (boundThreadID = parentThreadID)
    with Errorf "session rotationのbind対象thread IDが不正です: %s" [AStr boundThreadID];
  loaded ← LoadSessionRotationMarker parentThreadID;
  match loaded with
  | None => fail claimMismatch
  | Some marker =>
      match mk_Claim marker with
      | None => fail claimMismatch
      | Some claim =>
          refuse! negb (hasDirective marker directiveID) || negb (bool_decide (rk_ClaimID claim = claimID)) with claimMismatch;
          if bool_decide (mk_State marker = SessionRotationStateBound) && bool_decide (rk_BoundThreadID claim = boundThreadID)
          then mret ()
          else
            refuse! negb (bool_decide (mk_State marker = SessionRotationStateClaimed))
              with Errorf "session rotation claimはbindできません: %s" [AStr (mk_State marker)];
            now ← Now;
            let claim := claim {{ rk_BoundThreadID := boundThreadID; rk_BoundAt := FormatRFC3339Nano now }} in
            writeSessionRotationMarker (marker {{ mk_State := SessionRotationStateBound; mk_Claim := Some claim }})
      end
  end.

(** *** The markers of all threads *)
(** [filepath.Ext]: from the last dot of the name on. *)
Definition Ext (name : string) : string :=
  match reverse (Split name ".") with [] | [_] => "" | last :: _ => "." +:+ last end.
Definition sessionRotationMarkerThreadID (name : string) : string :=
  let base := TrimSuffix name (Ext name) in
  if ValidUUIDFormat base then base else "".
Fixpoint loadMarkers (names : list string) : io (list SessionRotationMarker) :=
  match names with
  | [] => mret []
  | name :: names =>
      let threadID := sessionRotationMarkerThreadID name in
      if bool_decide (threadID = "") then loadMarkers names
      else
        loaded ← LoadSessionRotationMarker threadID;
        rest ← loadMarkers names;
        mret match loaded with Some marker => marker :: rest | None => rest end
  end.
Definition loadSessionRotationMarkers : io (list SessionRotationMarker) :=
  entries ← attempt (read_dir sessionRotationDirectory);
  match entries with
  | Err e => if IsNotExist e then mret [] else fail (Errorf "session rotation markersを読めません: %w" [AErr e])
  | Ok names => loadMarkers names
  end.
Fixpoint findClaim (claimID : string) (markers : list SessionRotationMarker) (found : option SessionRotationMarker)
    : result error (option SessionRotationMarker) :=
  match markers with
  | [] => Ok found
  | marker :: markers =>
      if hasClaim marker claimID then
        reject! bool_decide (is_Some found) with err "session rotation claimが重複しています";
        findClaim claimID markers (Some marker)
      else findClaim claimID markers found
  end.
Definition findSessionRotationClaim (claimID : string) : io SessionRotationMarker :=
  markers ← loadSessionRotationMarkers;
  found ← lift (findClaim claimID markers None);
  match found with Some marker => mret marker | None => fail (err "session rotation claimが見つかりません") end.

(** *** The thread of the parent ([parent_codex_identity.go]) *)
Definition readParentCodexIdentity : io ParentCodexIdentity :=
  data ← ReadFile (Path parentCodexIdentityFile);
  match unmarshal data with
  | None => fail (Errorf "parent Codex identityを読めません: %w" [AErr json_error])
  | Some identity =>
      taskID ← ReadOr "task.id" "";
      refuse! negb (bool_decide (ci_Version identity = parentCodexIdentityVersion)) ||
              bool_decide (ci_TaskID identity = "") || negb (bool_decide (ci_TaskID identity = taskID)) ||
              negb (ValidUUIDFormat (ci_ThreadID identity)) || negb (ValidUUIDFormat (ci_SessionID identity))
        with err "parent Codex identityのschemaが不正です";
      mret identity
  end.
Definition CurrentParentCodexIdentity : io ParentCodexIdentity := readParentCodexIdentity.
Definition writeParentCodexIdentity (identity : ParentCodexIdentity) : io unit :=
  writeFileAtomic (Path parentCodexIdentityFile) (marshal identity +:+ newline) mode600.
Definition parentCodexIdentityAlreadyBound (taskID threadID sessionID : string) : io bool :=
  identity ← attempt readParentCodexIdentity;
  match identity with
  | Err e => if IsNotExist e then mret false else fail e
  | Ok identity =>
      refuse! negb (bool_decide (ci_TaskID identity = taskID)) || negb (bool_decide (ci_ThreadID identity = threadID)) ||
              negb (bool_decide (ci_SessionID identity = sessionID))
        with Errorf "保存済みparent Codex identityと矛盾します: stored thread=%s session=%s, observed thread=%s session=%s"
               [AStr (ci_ThreadID identity); AStr (ci_SessionID identity); AStr threadID; AStr sessionID];
      mret true
  end.
(** [readSessionLimit] asks the other program for its limits. *)
Definition captureParentCodexLimitBaseline (threadID : string) (readSessionLimit : option (option SessionLimitReading)) : io unit :=
  match readSessionLimit with
  | Some (Some reading) => SaveSessionLimitBaseline threadID reading
  | _ => mret ()
  end.
Definition SetParentCodexIdentity (threadID sessionID : string) (readSessionLimit : option (option SessionLimitReading)) : io unit :=
  refuse! negb (ValidUUIDFormat threadID) || negb (ValidUUIDFormat sessionID)
    with Errorf "parent Codex identityが不正です: thread=%s session=%s" [AStr threadID; AStr sessionID];
  taskID ← ReadOr "task.id" "";
  if bool_decide (taskID = "") then mret ()
  else
    bound ← parentCodexIdentityAlreadyBound taskID threadID sessionID;
    if (bound : bool) then mret ()
    else
      _ ← captureParentCodexLimitBaseline threadID readSessionLimit;
      writeParentCodexIdentity {| ci_Version := parentCodexIdentityVersion; ci_TaskID := taskID;
                                  ci_ThreadID := threadID; ci_SessionID := sessionID |}.

(** *** The new thread acknowledges *)
Definition AcknowledgeSessionRotationClaim (claimID boundThreadID : string) : io unit :=
  marker ← findSessionRotationClaim claimID;
  let issued := match mk_Issued marker with
                | Some issued => bool_decide (mk_State marker = SessionRotationStateIssued) &&
                                 bool_decide (is_BoundThreadID issued = boundThreadID)
                | None => false
                end in
  if issued then mret ()
  else
    match mk_Claim marker with
    | None => fail (err "session rotation claimはこのthreadでacknowledgeできません")
    | Some claim =>
        refuse! negb (bool_decide (mk_State marker = SessionRotationStateBound)) ||
                negb (bool_decide (rk_BoundThreadID claim = boundThreadID))
          with err "session rotation claimはこのthreadでacknowledgeできません";
        taskID ← ReadOr "task.id" "";
        refuse! negb (bool_decide (taskID = rk_TargetTaskID claim))
          with err "session rotation claimのtarget taskが開始されていません";
        identity ← attempt CurrentParentCodexIdentity;
        let mismatch := match identity with
                        | Ok identity => negb (bool_decide (ci_ThreadID identity = boundThreadID)) ||
                                         negb (bool_decide (ci_TaskID identity = rk_TargetTaskID claim))
                        | Err _ => true
                        end in
        refuse! mismatch with err "session rotation claimのparent identityがbind対象と一致しません";
        now ← Now;
        writeSessionRotationMarker
          (marker {{ mk_State := SessionRotationStateIssued;
                     mk_Issued := Some {| is_BoundThreadID := boundThreadID; is_IssuedAt := FormatRFC3339Nano now |} }})
    end.

(** ** Rotations that are not complete *)
Definition incompleteSessionRotationFromMarker (marker : SessionRotationMarker) : option IncompleteSessionRotation :=
  match mk_Directive marker with
  | None => None
  | Some directive =>
      if bool_decide (mk_State marker ∈ [SessionRotationStatePending; SessionRotationStateClaimed; SessionRotationStateBound])
      then Some {| ni_ParentThreadID := mk_ParentThreadID marker; ni_State := mk_State marker;
                   ni_DirectiveID := rd_DirectiveID directive;
                   ni_ClaimID := from_option rk_ClaimID "" (mk_Claim marker);
                   ni_BoundThreadID := from_option rk_BoundThreadID "" (mk_Claim marker) |}
      else None
  end.
Definition byParent (a b : IncompleteSessionRotation) : Prop := String.le (ni_ParentThreadID a) (ni_ParentThreadID b).
#[export] Instance byParent_dec : RelDecision byParent.
Proof. intros a b. unfold byParent. apply _. Defined.
(** The threads are distinct, so the sort need not be stable. *)
Definition IncompleteSessionRotations : io (list IncompleteSessionRotation) :=
  markers ← loadSessionRotationMarkers;
  mret (merge_sort byParent (omap incompleteSessionRotationFromMarker markers)).
Definition ProjectSessionRotation (threadID : string) : io SessionRotationProjection :=
  incomplete ← IncompleteSessionRotations;
  let projection := {| sr_ParentThreadID := ""; sr_State := SessionRotationProjectionUnavailable; sr_Directive := None;
                       sr_Claim := None; sr_LastEvaluation := None; sr_Reason := "parent-thread-identity-unbound";
                       sr_Incomplete := incomplete |} in
  if bool_decide (threadID = "") then mret projection
  else
    refuse! negb (ValidUUIDFormat threadID)
      with Errorf "session rotationの親thread IDが不正です: %s" [AStr threadID];
    loaded ← LoadSessionRotationMarker threadID;
    mret match loaded with
         | None => projection {{ sr_ParentThreadID := threadID; sr_Reason := "no-session-rotation-evaluation" }}
         | Some marker =>
             let projection := projection {{ sr_ParentThreadID := threadID; sr_Reason := "";
                                             sr_State := SessionRotationProjectionNotRequired;
                                             sr_LastEvaluation := mk_LastEvaluation marker }} in
             if bool_decide (mk_State marker ∈ [SessionRotationStatePending; SessionRotationStateClaimed; SessionRotationStateBound])
             then projection {{ sr_State := mk_State marker; sr_Directive := mk_Directive marker; sr_Claim := mk_Claim marker }}
             else projection
         end.

(** ** Admission of a new task *)
Definition sessionRotationMarkerTargets (marker : SessionRotationMarker) (callerThreadID taskID : string) : bool :=
  match mk_Claim marker with
  | Some claim =>
      bool_decide (rk_BoundThreadID claim = callerThreadID) && bool_decide (rk_TargetTaskID claim = taskID) &&
      bool_decide (mk_State marker ∈ [SessionRotationStateBound; SessionRotationStateIssued])
  | None => false
  end.
Definition incompleteSessionRotationTarget (callerThreadID : string) : io bool :=
  if negb (ValidUUIDFormat callerThreadID) then mret false
  else
    status ← GetTaskStatus;
    if negb (bool_decide (status = TaskStatusActive)) then mret false
    else
      markers ← loadSessionRotationMarkers;
      currentTaskID ← ReadOr "task.id" "";
      mret (existsb (λ marker, sessionRotationMarkerTargets marker callerThreadID currentTaskID) markers).
Definition rejectRetiredSessionRotationCaller (callerThreadID : string) : io unit :=
  if negb (ValidUUIDFormat callerThreadID) then mret ()
  else
    loaded ← LoadSessionRotationMarker callerThreadID;
    let retired := match loaded with
                   | Some marker => bool_decide (mk_State marker = SessionRotationStateIssued)
                   | None => false
                   end in
    refuse! retired with err "retired session rotation parentから新taskは開始できません";
    mret ().
Definition boundCaller (rotation : IncompleteSessionRotation) : error :=
  Errorf "このthreadにbind済みのsession rotationはclaim付きstartで開始してください: claim_id=%s" [AStr (ni_ClaimID rotation)].
Definition rejectIncompleteSessionRotation (callerThreadID : string) : io unit :=
  rotations ← IncompleteSessionRotations;
  match rotations with
  | [] => mret ()
  | rotation :: _ =>
      refuse! bool_decide (ni_State rotation = SessionRotationStateBound) &&
              bool_decide (ni_BoundThreadID rotation = callerThreadID) with boundCaller rotation;
      fail (Errorf "未完了session rotationを持ち主threadのclaim・bindとclaim付きstartで完了してください: parent_thread_id=%s state=%s directive_id=%s"
              [AStr (ni_ParentThreadID rotation); AStr (ni_State rotation); AStr (ni_DirectiveID rotation)])
  end.
Definition retryNeedsClaim : error := err "session rotation開始の再試行にはrotation claimが必要です".
Definition admitUnclaimedNewTask (callerThreadID : string) : io bool :=
  incomplete ← incompleteSessionRotationTarget callerThreadID;
  refuse! (incomplete : bool) with retryNeedsClaim;
  _ ← rejectRetiredSessionRotationCaller callerThreadID;
  _ ← rejectIncompleteSessionRotation callerThreadID;
  mret false.
Definition sessionRotationStartRetryable : io bool :=
  status ← GetTaskStatus;
  if negb (bool_decide (status = TaskStatusActive)) then mret false
  else
    checkpoint ← attempt LoadResumeCheckpoint;
    mret match checkpoint with
         | Ok checkpoint => bool_decide (ck_Phase checkpoint = "worker-new") && bool_decide (ck_Role checkpoint = WorkerRole)
         | Err _ => false
         end.
Definition sessionRotationSourceTaskAdmitted (marker : SessionRotationMarker) (currentTaskID : string) : io bool :=
  if match mk_Directive marker with Some directive => bool_decide (currentTaskID = rd_TaskID directive) | None => false end ||
     match mk_Claim marker with Some claim => bool_decide (currentTaskID = rk_TargetTaskID claim) | None => false end
  then mret true
  else if bool_decide (currentTaskID = "") then mret false
  else
    match mk_LastEvaluation marker with
    | None => mret false
    | Some evaluation =>
        if negb (bool_decide (ry_TaskID evaluation = currentTaskID)) || negb (ry_Required evaluation) then mret false
        else if negb (bool_decide (ry_Terminal evaluation = SessionRotationTerminalAccept)) &&
                negb (bool_decide (ry_Terminal evaluation = SessionRotationTerminalNoGo)) then mret false
        else status ← GetTaskStatus; mret (bool_decide (status = TaskStatusComplete))
    end.
(** The check at the head of both starts. *)
Definition findBoundClaim (callerThreadID claimID : string) : io (SessionRotationMarker * SessionRotationClaim) :=
  marker ← findSessionRotationClaim claimID;
  match mk_Claim marker with
  | Some claim =>
      refuse! negb (bool_decide (rk_BoundThreadID claim = callerThreadID))
        with err "session rotation claimまたはbound threadが一致しません";
      mret (marker, claim)
  | None => fail (err "session rotation claimまたはbound threadが一致しません")
  end.
Definition admitClaimedSessionRotation (callerThreadID claimID : string) : io bool :=
  '(marker, claim) ← findBoundClaim callerThreadID claimID;
  currentTaskID ← ReadOr "task.id" "";
  if bool_decide (mk_State marker = SessionRotationStateIssued) then
    retryable ← (if bool_decide (currentTaskID = rk_TargetTaskID claim) then sessionRotationStartRetryable else mret false);
    if (retryable : bool) then mret true else fail (err "session rotation claimは既に完了しています")
  else
    refuse! negb (bool_decide (mk_State marker = SessionRotationStateBound))
      with Errorf "session rotation claimは開始に使用できません: %s" [AStr (mk_State marker)];
    admitted ← sessionRotationSourceTaskAdmitted marker currentTaskID;
    refuse! negb admitted with err "session rotation開始中のtask identityが一致しません";
    mret (bool_decide (currentTaskID = rk_TargetTaskID claim)).
Definition AdmitNewTaskRotation (callerThreadID claimID : string) : io bool :=
  if negb (bool_decide (claimID = "")) then admitClaimedSessionRotation callerThreadID claimID
  else admitUnclaimedNewTask callerThreadID.
Definition ValidateNewTaskRotation (callerThreadID claimID : string) : io unit :=
  _ ← AdmitNewTaskRotation callerThreadID claimID; mret ().
(** [s.startNewTaskWithID(taskID, resume)] *)
Definition StartSessionRotationTask (startNewTaskWithID : string → bool → io string) (callerThreadID claimID : string) : io string :=
  '(marker, claim) ← findBoundClaim callerThreadID claimID;
  currentTaskID ← ReadOr "task.id" "";
  if bool_decide (mk_State marker = SessionRotationStateIssued) then
    retryable ← (if bool_decide (currentTaskID = rk_TargetTaskID claim) then sessionRotationStartRetryable else mret false);
    if (retryable : bool) then startNewTaskWithID (rk_TargetTaskID claim) true
    else fail (err "session rotation claimは既に完了しています")
  else
    refuse! negb (bool_decide (mk_State marker = SessionRotationStateBound))
      with Errorf "session rotation claimは開始に使用できません: %s" [AStr (mk_State marker)];
    admitted ← (if bool_decide (currentTaskID = "") then mret true
                else sessionRotationSourceTaskAdmitted marker currentTaskID);
    refuse! negb admitted with err "session rotation開始中のtask identityが一致しません";
    startNewTaskWithID (rk_TargetTaskID claim) (bool_decide (currentTaskID = rk_TargetTaskID claim)).

(** ** Committing an evaluation *)
Definition sessionRotationAcceptedTasksForCommit (evaluation : SessionRotationEvaluation) : option Z :=
  if rz_AcceptedTasksUnavailable evaluation then None else Some (rz_AcceptedTasks evaluation).
Definition commitSessionRotation (evaluation : option SessionRotationEvaluation) : io unit :=
  match evaluation with
  | None => mret ()
  | Some evaluation =>
      refuse! negb (ValidUUIDFormat (rz_ParentThreadID evaluation))
        with Errorf "session rotationには有効な親Codex thread identityが必要です: %s" [AStr (rz_ParentThreadID evaluation)];
      refuse! bool_decide (rz_TaskID evaluation = "") with err "session rotationには現在task IDが必要です";
      loaded ← LoadSessionRotationMarker (rz_ParentThreadID evaluation);
      let marker := default (freshMarker (rz_ParentThreadID evaluation)) loaded in
      let baseline := match rz_LimitBaselineUpdate evaluation with Some b => Some b | None => mk_LimitBaseline marker end in
      let decision := rz_Decision evaluation in
      evaluatedAt ← Now;
      let marker := marker {{ mk_AcceptedTasks := sessionRotationAcceptedTasksForCommit evaluation;
                              mk_LimitBaseline := baseline;
                              mk_LastEvaluation := Some {| ry_TaskID := rz_TaskID evaluation;
                                ry_Terminal := rz_Terminal evaluation; ry_Required := rn_Required decision;
                                ry_Reason := rn_Reason decision; ry_At := FormatRFC3339Nano evaluatedAt |} }} in
      if rn_Required decision && negb (bool_decide (mk_State marker ∈
           [SessionRotationStatePending; SessionRotationStateClaimed; SessionRotationStateBound]))
      then
        directiveID ← NewUUID;
        createdAt ← Now;
        writeSessionRotationMarker
          (marker {{ mk_State := SessionRotationStatePending; mk_Claim := None; mk_Issued := None;
                     mk_Directive := Some {| rd_DirectiveID := directiveID; rd_TaskID := rz_TaskID evaluation;
                       rd_Terminal := rz_Terminal evaluation;
                       rd_Epoch := rz_TaskID evaluation +:+ ":" +:+ rz_Terminal evaluation;
                       rd_Reason := rn_Reason decision; rd_Evidence := rn_Evidence decision;
                       rd_CreatedAt := FormatRFC3339Nano createdAt |} }})
      else writeSessionRotationMarker marker
  end.

(** ** An ordinary start declines the recommendations ([session_rotation_boundary.go]) *)
Fixpoint boundaryLoop (callerThreadID : string) (rotations : list IncompleteSessionRotation) : result error unit :=
  match rotations with
  | [] => Ok ()
  | rotation :: rotations =>
      let state := ni_State rotation in
      if bool_decide (state = SessionRotationStatePending) then boundaryLoop callerThreadID rotations
      else
        reject! bool_decide (state = SessionRotationStateBound) && bool_decide (ni_BoundThreadID rotation = callerThreadID)
          with boundCaller rotation;
        reject! bool_decide (state = SessionRotationStateBound) || bool_decide (state = SessionRotationStateClaimed)
          with Errorf "claim済みsession rotationを持ち主threadのbindとclaim付きstartで完了してください: parent_thread_id=%s state=%s directive_id=%s"
                 [AStr (ni_ParentThreadID rotation); AStr state; AStr (ni_DirectiveID rotation)];
        Err (Errorf "未対応のsession rotation stateです: %s" [AStr state])
  end.
Definition AdmitNewTaskRotationBoundary (callerThreadID claimID : string) : io bool :=
  if negb (bool_decide (claimID = "")) then AdmitNewTaskRotation callerThreadID claimID
  else
    incomplete ← incompleteSessionRotationTarget callerThreadID;
    refuse! (incomplete : bool) with retryNeedsClaim;
    _ ← rejectRetiredSessionRotationCaller callerThreadID;
    rotations ← IncompleteSessionRotations;
    _ ← lift (boundaryLoop callerThreadID rotations);
    mret false.
Definition ClearPendingSessionRotationRecommendationRetirement : io unit := RemoveState pendingSessionRotationRetirementStateFile.
Fixpoint recommendationsLoop (rotations : list IncompleteSessionRotation)
    : result error (list pendingSessionRotationRetirementRecommendation) :=
  match rotations with
  | [] => Ok []
  | rotation :: rotations =>
      reject! negb (bool_decide (ni_State rotation = SessionRotationStatePending))
        with Errorf "session rotation changed before ordinary task start: parent_thread_id=%s state=%s directive_id=%s"
               [AStr (ni_ParentThreadID rotation); AStr (ni_State rotation); AStr (ni_DirectiveID rotation)];
      rest ← recommendationsLoop rotations;
      Ok ({| rr_ParentThreadID := ni_ParentThreadID rotation; rr_DirectiveID := ni_DirectiveID rotation |} :: rest)
  end.
Definition cannotResume : error := err "ordinary task start cannot resume a claimed session rotation".
Definition StagePendingSessionRotationRecommendationRetirement (callerThreadID : string) : io unit :=
  resume ← AdmitNewTaskRotationBoundary callerThreadID "";
  refuse! (resume : bool) with cannotResume;
  rotations ← IncompleteSessionRotations;
  recommendations ← lift (recommendationsLoop rotations);
  if bool_decide (length recommendations = 0) then ClearPendingSessionRotationRecommendationRetirement
  else
    writeFileAtomic (Path pendingSessionRotationRetirementStateFile)
      (marshal {| rs_StageVersion := pendingSessionRotationRetirementVersion; rs_CallerThreadID := callerThreadID;
                  rs_Recommendations := recommendations |} +:+ newline) mode600.
Fixpoint validateStage (recommendations : list pendingSessionRotationRetirementRecommendation) (seen : gset string)
    : result error unit :=
  match recommendations with
  | [] => Ok ()
  | recommendation :: recommendations =>
      let threadID := rr_ParentThreadID recommendation in
      reject! negb (ValidUUIDFormat threadID) || negb (ValidGeneratedUUID (rr_DirectiveID recommendation))
        with err "pending session rotation retirementのidentityが不正です";
      reject! bool_decide (threadID ∈ seen)
        with Errorf "pending session rotation retirementの親threadが重複しています: %s" [AStr threadID];
      validateStage recommendations ({[threadID]} ∪ seen)
  end.
Definition loadPendingSessionRotationRecommendationRetirement : io (option pendingSessionRotationRetirementStage) :=
  data ← attempt (ReadFile (Path pendingSessionRotationRetirementStateFile));
  match data with
  | Err e => if IsNotExist e then mret None
             else fail (Errorf "pending session rotation retirementを読めません: %w" [AErr e])
  | Ok data =>
      match unmarshal data with
      | None => fail (Errorf "pending session rotation retirementのschemaが不正です: %w" [AErr json_error])
      | Some stage =>
          refuse! negb (bool_decide (rs_StageVersion stage = pendingSessionRotationRetirementVersion)) ||
                  bool_decide (length (rs_Recommendations stage) = 0)
            with err "pending session rotation retirementが不正です";
          _ ← lift (validateStage (rs_Recommendations stage) ∅);
          mret (Some stage)
      end
  end.
Definition with_stage {A} (none : A) (m : pendingSessionRotationRetirementStage → io A) : io A :=
  stage ← loadPendingSessionRotationRecommendationRetirement;
  match stage with None => mret none | Some stage => m stage end.
Definition validatePendingSessionRotationRecommendationRetirementBoundary : io unit :=
  with_stage () (λ stage,
    resume ← AdmitNewTaskRotationBoundary (rs_CallerThreadID stage) "";
    refuse! (resume : bool) with cannotResume;
    mret ()).
Definition pendingSessionRotationRetirementTransitionFiles : io (list (list string)) :=
  with_stage [] (λ stage,
    mret (Path pendingSessionRotationRetirementStateFile ::
          ((λ r, SessionRotationMarkerPath (rr_ParentThreadID r)) <$> rs_Recommendations stage))).
Definition recommendationsChanged : error :=
  err "pending session rotation recommendations changed before ordinary task start".
(** The map from a recommended thread to its directive. *)
Definition expectedDirectives (recommendations : list pendingSessionRotationRetirementRecommendation) : gmap string string :=
  foldl (λ m r, <[rr_ParentThreadID r := rr_DirectiveID r]> m) ∅ recommendations.
Definition rotationExpected (expected : gmap string string) (rotation : IncompleteSessionRotation) : bool :=
  match expected !! ni_ParentThreadID rotation with
  | Some directiveID => bool_decide (ni_State rotation = SessionRotationStatePending) &&
                        bool_decide (directiveID = ni_DirectiveID rotation)
  | None => false
  end.
Definition validatePendingSessionRotationRecommendationSet (stage : pendingSessionRotationRetirementStage) : io unit :=
  let expected := expectedDirectives (rs_Recommendations stage) in
  rotations ← IncompleteSessionRotations;
  refuse! negb (bool_decide (length rotations = size expected)) with recommendationsChanged;
  refuse! negb (forallb (rotationExpected expected) rotations) with recommendationsChanged;
  mret ().
Fixpoint loadPendingSessionRotationRecommendationMarkers (recommendations : list pendingSessionRotationRetirementRecommendation)
    : io (list SessionRotationMarker) :=
  match recommendations with
  | [] => mret []
  | r :: recommendations =>
      let changed := Errorf "pending session rotation recommendation changed before ordinary task start: parent_thread_id=%s directive_id=%s"
                       [AStr (rr_ParentThreadID r); AStr (rr_DirectiveID r)] in
      loaded ← LoadSessionRotationMarker (rr_ParentThreadID r);
      match loaded with
      | None => fail changed
      | Some marker =>
          refuse! negb (bool_decide (mk_State marker = SessionRotationStatePending)) ||
                  negb (hasDirective marker (rr_DirectiveID r)) with changed;
          rest ← loadPendingSessionRotationRecommendationMarkers recommendations;
          mret (marker :: rest)
      end
  end.
Fixpoint retireMarkers (markers : list SessionRotationMarker) : io unit :=
  match markers with
  | [] => mret ()
  | marker :: markers =>
      _ ← writeSessionRotationMarker (marker {{ mk_State := ""; mk_Directive := None }});
      retireMarkers markers
  end.
Definition retirePendingSessionRotationRecommendationMarkers (markers : list SessionRotationMarker) : io unit :=
  _ ← retireMarkers markers;
  RemoveState pendingSessionRotationRetirementStateFile.
Definition commitPendingSessionRotationRecommendationRetirement : io unit :=
  with_stage () (λ stage,
    _ ← validatePendingSessionRotationRecommendationSet stage;
    markers ← loadPendingSessionRotationRecommendationMarkers (rs_Recommendations stage);
    retirePendingSessionRotationRecommendationMarkers markers).

(** ** Counting accepted tasks ([session_rotation_accepted_tasks.go]) *)
Definition sessionRotationMarkerHasTaskHistory (marker : option SessionRotationMarker) : bool :=
  match marker with
  | None => false
  | Some marker =>
      negb (bool_decide (mk_State marker = "")) || bool_decide (is_Some (mk_Directive marker)) ||
      bool_decide (is_Some (mk_Claim marker)) || bool_decide (is_Some (mk_Issued marker)) ||
      bool_decide (is_Some (mk_LastEvaluation marker))
  end.
Fixpoint issuedSourceLoop (threadID : string) (names : list string) (found : option (list string)) : io (option (list string)) :=
  match names with
  | [] => mret found
  | name :: names =>
      let sourceThreadID := sessionRotationMarkerThreadID name in
      if bool_decide (sourceThreadID = "") || bool_decide (sourceThreadID = threadID) then issuedSourceLoop threadID names found
      else
        loaded ← LoadSessionRotationMarker sourceThreadID;
        let source := match loaded with
                      | Some marker =>
                          bool_decide (mk_State marker = SessionRotationStateIssued) &&
                          match mk_Issued marker with
                          | Some issued => bool_decide (is_BoundThreadID issued = threadID)
                          | None => false
                          end
                      | None => false
                      end in
        if negb source then issuedSourceLoop threadID names found
        else
          refuse! bool_decide (is_Some found)
            with Errorf "session rotation accepted-task sourceが重複しています: %s" [AStr threadID];
          issuedSourceLoop threadID names (Some (SessionRotationMarkerPath sourceThreadID))
  end.
Definition sessionRotationIssuedSourceForThread (threadID : string) : io (option (list string)) :=
  entries ← attempt (read_dir sessionRotationDirectory);
  match entries with
  | Err e => if IsNotExist e then mret None else fail (Errorf "session rotation markersを読めません: %w" [AErr e])
  | Ok names => issuedSourceLoop threadID names None
  end.
(** The count, if it is known, and the file it is known from. *)
Definition SessionRotationAcceptedTaskCount (threadID : string) : io (option Z * list string) :=
  let markerPath := SessionRotationMarkerPath threadID in
  marker ← LoadSessionRotationMarker threadID;
  match marker ≫= mk_AcceptedTasks with
  | Some tasks => mret (Some tasks, markerPath)
  | None =>
      if sessionRotationMarkerHasTaskHistory marker then mret (None, markerPath)
      else
        source ← sessionRotationIssuedSourceForThread threadID;
        mret match source with Some source => (Some 0%Z, source) | None => (None, markerPath) end
  end.
End Rotation.
