(* ===== verification/LifecycleRollback.v ===== *)
(** * The transitions are all or nothing

    A transition of the lifecycle that fails leaves every file of the state as it
    was: what it changed before the refused access has been put back.  The
    environment refuses reads and writes at any paths, and from some change on it
    may refuse every change (a full file system, say).  In that case files may not be
    put back either, and the error of the transition says so. *)
From S2P Require Import Prelude GoStrings GoText GoTime TimeFormat ControllerTypes ControllerStore MutationControl Packet SessionTypes SessionStore ResumeCheckpoint ParentReview Lifecycle SessionLogic ReviewLogic SessionExamples SessionRotation.

(** ** Triples that see the error *)
Definition etriple {A} (P : Disk → Prop) (m : io A) (Q : A → Disk → Prop) (E : error → Disk → Prop) : Prop :=
  ∀ d, P d → match m d with (Ok a, d') => Q a d' | (Err e, d') => E e d' end.

Section Triples.
Context {A : Type}.
Implicit Types (P : Disk → Prop) (m : io A) (Q : A → Disk → Prop) (E : error → Disk → Prop).
Lemma etriple_bind {B} P Q E (R : B → Disk → Prop) m (f : A → io B) :
  etriple P m Q E → (∀ a, etriple (Q a) (f a) R E) → etriple P (m ≫= f) R E.
Proof.
  intros Hm Hf d Hd. specialize (Hm d Hd). unfold mbind, io_bind.
  destruct (m d) as [[a|e] d']; [by apply (Hf a)|done].
Qed.
Lemma etriple_ret P (a : A) Q E : (∀ d, P d → Q a d) → etriple P (mret a) Q E.
Proof. intros H d Hd. by apply H. Qed.
Lemma etriple_fail P e Q E : (∀ d, P d → E e d) → etriple P (fail e) Q E.
Proof. intros H d Hd. by apply H. Qed.
Lemma etriple_wrap P f m Q E E' : (∀ e d, E e d → E' (f e) d) → etriple P m Q E → etriple P (io_wrap f m) Q E'.
Proof. intros HE Hm d Hd. specialize (Hm d Hd). unfold io_wrap. destruct (m d) as [[|] ?]; [done|by apply HE]. Qed.
Lemma etriple_attempt P m Q E F :
  etriple P m Q E → etriple P (attempt m) (λ r d, match r with Ok a => Q a d | Err e => E e d end) F.
Proof. intros Hm d Hd. specialize (Hm d Hd). unfold attempt. by destruct (m d) as [[|] ?]. Qed.
Lemma etriple_guard P (c : bool) e m Q E :
  (∀ d, P d → E e d) → etriple P m Q E → etriple P (if c then fail e else m) Q E.
Proof. intros H1 H2. destruct c; [by apply etriple_fail|done]. Qed.
Lemma etriple_consequence P P' Q Q' E E' m :
  etriple P' m Q' E' → (∀ d, P d → P' d) → (∀ a d, Q' a d → Q a d) → (∀ e d, E' e d → E e d) → etriple P m Q E.
Proof. intros Hm HP HQ HE d Hd. specialize (Hm d (HP d Hd)). destruct (m d) as [[|] ?]; auto. Qed.
Lemma etriple_pure (φ : Prop) P Q E m : (φ → etriple P m Q E) → etriple (λ d, φ ∧ P d) m Q E.
Proof. intros H d [? Hd]. by apply H. Qed.
Lemma etriple_or P P' Q E m : etriple P m Q E → etriple P' m Q E → etriple (λ d, P d ∨ P' d) m Q E.
Proof. intros H H' d [Hd|Hd]; [by apply H|by apply H']. Qed.
Lemma etriple_reads P m E : Preserves eq m → (∀ e d, P d → E e d) → etriple P m (λ _, P) E.
Proof. intros Hm HE d Hd. specialize (Hm d). destruct (m d) as [[|] d']; simpl in *; subst; auto. Qed.
Lemma etriple_of P m Q (E' : Disk → Prop) E : triple P m Q E' → (∀ e d, E' d → E e d) → etriple P m Q E.
Proof. intros Hm HE d Hd. specialize (Hm d Hd). destruct (m d) as [[|] ?]; [done|by apply HE]. Qed.
End Triples.

(** ** Errors that say that files were not put back *)
Definition rollback_formats : list string :=
  ["lifecycle transition failed and rollback failed: transition=%w rollback=%w";
   "state %sをrollbackできません: %w";
   "parent accept outcomeを保存できずrollbackにも失敗しました: outcome=%w rollback=%w";
   "parent completion outcomeを保存できずstate rollbackにも失敗しました: outcome=%w rollback=%w"].
Inductive reports_rollback : error → Prop :=
  | reports_format format args : format ∈ rollback_formats → reports_rollback (Errorf format args)
  | reports_cause format args e : AErr e ∈ args → reports_rollback e → reports_rollback (Errorf format args)
  | reports_joined format args es e :
      AErrs es ∈ args → e ∈ es → reports_rollback e → reports_rollback (Errorf format args).

Section Inside.
Context (R W : gset (list string)) (G : fileMap) (Hroot : [] ∉ W).
Implicit Types (N : list string) (d : Disk).

(** The files are those of [G] up to the names [N] and observations. *)
Record inside N d : Prop := {
  is_readable : unreadable d = R;
  is_writable : unwritable d = W;
  is_plain : plain_state (files d);
  is_files p : observation p = false → files d !! p = G !! p ∨ p ∉ W ∧ p ∈ Path <$> N;
}.
(** After a failure: nothing is left over, or the error says so. *)
Definition clean N (e : error) d : Prop := inside N d ∨ stopped d = true ∧ reports_rollback e.

Lemma inside_mono N N' d : N ⊆ N' → inside N d → inside N' d.
Proof.
  intros HN []. split; try done. intros p Hp. destruct (is_files0 p Hp) as [?|[? Hin]]; [by left|right].
  split; [done|]. apply list_elem_of_fmap in Hin as (name & -> & ?). apply list_elem_of_fmap. eauto.
Qed.
Lemma inside_files N N' d d' :
  unreadable d' = unreadable d → unwritable d' = unwritable d →
  (∀ p, observation p = false → files d' !! p = files d !! p ∨
        p ∉ W ∧ p ∈ Path <$> N' ∧ ∀ doc, files d' !! p = Some doc → ∃ s, doc = text s) →
  N ⊆ N' → inside N d → inside N' d'.
Proof.
  intros E1 E2 Hch HN Hd. pose proof (inside_mono _ N' d HN Hd) as []. split; [congruence..| |].
  - intros name doc Hob Hl. destruct (Hch _ Hob) as [E|(_ & _ & Hs)]; [|by apply Hs].
    rewrite E in Hl. by eapply is_plain0.
  - intros p Hp. destruct (Hch _ Hp) as [E|(? & ? & _)]; [rewrite E; by apply is_files0|by right].
Qed.
#[export] Instance inside_quiet N : Quiet (inside N).
Proof.
  intros d d' (E1 & E2 & _ & Hf) Hd. eapply inside_files; [done..| |done|exact Hd].
  intros p Hp. left. by apply Hf.
Qed.
#[export] Instance file_quiet p doc : observation p = false → Quiet (λ d, files d !! p = doc).
Proof. intros Hp d d' (_ & _ & _ & Hf) Hd. by rewrite Hf. Qed.
Lemma inside_put N name s d : Path name ∉ W → inside N d → inside (name :: N) (put_file (Path name) (text s) d).
Proof.
  intros Hu Hd. apply (inside_files N _ d); try done; [|set_solver]. intros q Hq. simpl.
  destruct (decide (Path name = q)) as [<-|]; [right|by left; rewrite lookup_insert_ne].
  rewrite lookup_insert_eq. split; [done|]. split; [set_solver|]. intros doc [= <-]. eauto.
Qed.
Lemma inside_delete N name d :
  Path name ∉ W → inside N d →
  inside (name :: N) (d {{ files := delete (Path name) (files d); power := spend d }}).
Proof.
  intros Hu Hd. apply (inside_files N _ d); try done; [|set_solver]. intros q Hq. simpl.
  destruct (decide (Path name = q)) as [<-|]; [right|by left; rewrite lookup_delete_ne].
  rewrite lookup_delete_eq. split; [done|]. split; [set_solver|]. done.
Qed.
(** A file that is as it was need not be counted, nor one that cannot be changed. *)
Lemma inside_drop N name d :
  Path name ∈ W ∨ (observation (Path name) = false → files d !! Path name = G !! Path name) →
  inside (name :: N) d → inside N d.
Proof.
  intros Hn []. split; try done. intros p Hp. destruct (is_files0 p Hp) as [?|[? Hin]]; [by left|].
  rewrite fmap_cons in Hin. apply elem_of_cons in Hin as [->|]; [|by right]. destruct Hn; [done|left; auto].
Qed.
Lemma inside_at N name d :
  name ∉ N → observation (Path name) = false → inside N d → files d !! Path name = G !! Path name.
Proof. intros Hn Ho Hd. destruct (is_files _ _ Hd _ Ho) as [?|[_ Hin]]; [done|]. set_solver. Qed.
Lemma inside_self N d : inside N d → ∀ N', N ⊆ N' → inside N' d.
Proof. intros. by eapply inside_mono. Qed.

(** *** One change *)
Definition refused name d : Prop := Path name ∈ W ∨ stopped d = true.
Lemma stopped_spend d : stopped d = true → ∀ d', power d' = power d → stopped d' = true.
Proof. unfold stopped. by intros H d' ->. Qed.
Lemma write_inside N name data :
  etriple (inside N) (writeFileAtomic (Path name) data mode600)
    (λ _ d, files d !! Path name = Some (text data) ∧ inside (name :: N) d) (λ _ d, refused name d ∧ inside N d).
Proof.
  intros d Hd. unfold writeFileAtomic, mbind, io_bind.
  pose proof (MkdirAll_triple (inside N) [] d Hd) as Hm. unfold MkdirAll in *. simpl.
  rewrite bool_decide_false in * by (by rewrite (is_writable _ _ Hd)). simpl in *.
  destruct (stopped d) eqn:Hs; simpl in *; [by split; [right|]|].
  unfold writeJSONAtomic. cbv zeta. rewrite (is_writable _ _ Hm).
  destruct (bool_decide_reflect (Path name ∈ W)); simpl; [split; [by left|done]|].
  lazymatch goal with |- context [stopped ?x] => destruct (stopped x) eqn:Hs' end; [by split; [right|]|].
  rewrite bool_decide_true by set_solver. split; [apply lookup_insert_eq|by apply inside_put].
Qed.
Lemma remove_inside N name :
  etriple (inside N) (RemoveState name)
    (λ _ d, files d !! Path name = None ∧ inside (name :: N) d) (λ _ d, refused name d ∧ inside N d).
Proof.
  intros d Hd. unfold RemoveState, mbind, io_bind, attempt, remove_file. rewrite (is_writable _ _ Hd).
  destruct (bool_decide_reflect (Path name ∈ W)); simpl; [split; [by left|done]|].
  destruct (stopped d) eqn:Hs; simpl; [by split; [right|]|].
  case_bool_decide as Hf; simpl.
  - split; [done|]. eapply inside_mono; [|done]. set_solver.
  - split; [apply lookup_delete_eq|by apply inside_delete].
Qed.

(** *** Putting files back *)
Lemma stopped_write p data mode d :
  stopped d = true → writeFileAtomic p data mode d = (Err (err "mkdir failed"), d).
Proof. intros Hs. unfold writeFileAtomic, mbind, io_bind, MkdirAll. by rewrite Hs, orb_true_r. Qed.
Lemma stopped_remove name d : stopped d = true → ∃ e, RemoveState name d = (Err e, d).
Proof.
  intros Hs. unfold RemoveState, mbind, io_bind, attempt, remove_file. rewrite Hs, orb_true_r.
  simpl. eexists. reflexivity.
Qed.
Lemma restore_stopped s d : stopped d = true → ∃ e, restoreLifecycleFile s d = (Err e, d).
Proof.
  intros Hs. unfold restoreLifecycleFile. destruct (sn_exists s); simpl; [|by apply stopped_remove].
  unfold io_wrap. rewrite stopped_write by done. by eexists.
Qed.
Lemma restoreSnapshots_stopped l d : stopped d = true → ∃ errors, restoreSnapshots l d = (Ok errors, d).
Proof.
  intros Hs. induction l as [|s l [errors IH]]; simpl; [by eexists|].
  unfold mbind at 1, io_bind at 1. unfold attempt at 1. destruct (restore_stopped s d Hs) as [e ->].
  unfold mbind, io_bind. rewrite IH. by eexists.
Qed.
Lemma restore_inside N s :
  describes G s → etriple (inside (sn_name s :: N)) (restoreLifecycleFile s) (λ _, inside N)
    (λ e d, inside N d ∨ stopped d = true ∧ (sn_exists s = true → reports_rollback e)).
Proof.
  intros Hs. unfold restoreLifecycleFile. unfold describes in Hs. destruct (sn_exists s); simpl.
  - apply (etriple_wrap _ _ _ _ (λ _ d, inside N d ∨ stopped d = true)).
    { intros e d [Hd|Hd]; [by left|right]. split; [done|]. intros _. apply reports_format. set_solver. }
    eapply etriple_consequence; [apply write_inside|done| |].
    + intros [] d [Hf Hd]. apply (inside_drop _ (sn_name s)); [right; intros Ho; by rewrite Hs|].
      eapply inside_mono; [|done]. set_solver.
    + intros e d [[Hw|Hw] Hd]; [left; eapply inside_drop; [by left|done]|by right].
  - eapply etriple_consequence; [apply remove_inside|done| |].
    + intros [] d [Hf Hd]. apply (inside_drop _ (sn_name s)); [right; intros Ho; by rewrite Hs|].
      eapply inside_mono; [|done]. set_solver.
    + intros e d [[Hw|Hw] Hd]; [left; eapply inside_drop; [by left|done]|by right].
Qed.
Lemma restoreSnapshots_inside l E :
  Forall (describes G) l →
  etriple (inside (sn_name <$> l)) (restoreSnapshots l)
    (λ errors d, inside [] d ∨ stopped d = true ∧ errors ≠ []) E.
Proof.
  induction 1 as [|s l Hs _ IH]; simpl; [apply etriple_ret; by left|].
  eapply etriple_bind; [by eapply etriple_attempt, restore_inside|]. intros r.
  apply (etriple_consequence _ (λ d, inside (sn_name <$> l) d ∨ stopped d = true ∧ is_ok r = false)
           _ (λ errors d, inside [] d ∨ stopped d = true ∧ errors ≠ []) _ E); [|by destruct r; naive_solver|done..].
  apply etriple_or.
  - eapply etriple_bind; [exact IH|]. intros errors. apply etriple_ret. intros d [Hd|[Hd Hne]]; [by left|right].
    split; [done|]. by destruct r.
  - intros d [Hd Hr]. unfold mbind, io_bind. destruct (restoreSnapshots_stopped l d Hd) as [errors ->].
    right. split; [done|]. by destruct r.
Qed.
Lemma rollback_inside {A} N cause l (Q : A → Disk → Prop) :
  Forall (describes G) l → N ⊆ sn_name <$> l →
  etriple (inside N) (rollbackLifecycleFiles cause l) Q (clean []).
Proof.
  intros Hl HN. unfold rollbackLifecycleFiles. eapply etriple_bind.
  { eapply etriple_consequence; [apply (restoreSnapshots_inside (reverse l)); by apply Forall_reverse| |done|done].
    intros d. apply inside_mono. intros name Hin. apply HN in Hin. by rewrite fmap_reverse, elem_of_reverse. }
  intros errors. apply etriple_fail. intros d [Hd|[Hs Hne]]; [by left|right]. split; [done|].
  rewrite bool_decide_false by done. apply reports_format. set_solver.
Qed.
Lemma rollback_stopped {A} cause l (Q : A → Disk → Prop) N :
  l ≠ [] → etriple (λ d, stopped d = true) (rollbackLifecycleFiles cause l) Q (clean N).
Proof.
  intros Hl d Hd. unfold rollbackLifecycleFiles, mbind, io_bind.
  assert (∃ e errors, restoreSnapshots (reverse l) d = (Ok (e :: errors), d)) as (e & errors & ->).
  { destruct (reverse l) as [|s l'] eqn:El.
    { by apply (f_equal reverse) in El; rewrite reverse_involutive in El. }
    simpl.
    unfold mbind at 1, io_bind at 1, attempt at 1. destruct (restore_stopped s d Hd) as [e ->].
    unfold mbind, io_bind. destruct (restoreSnapshots_stopped l' d Hd) as [errors ->]. by eexists _, _. }
  right. split; [done|]. apply reports_format. set_solver.
Qed.
(** A step that is taken back with snapshots of everything that was changed. *)
Lemma or_rollback_inside {A} N N' (m : io A) l Q :
  etriple (inside N) m Q (clean N') → Forall (describes G) l → l ≠ [] → N' ⊆ sn_name <$> l →
  etriple (inside N) (or_rollback m l) Q (clean []).
Proof.
  intros Hm Hl Hne HN. unfold or_rollback.
  eapply etriple_bind; [apply (etriple_attempt (inside N) m Q (clean N') (clean []) Hm)|].
  intros [a|e]; [by apply etriple_ret|]. 
  apply (etriple_consequence _ (λ d, inside N' d ∨ stopped d = true) _ Q _ (clean [])); [|unfold clean; naive_solver|done..].
  apply etriple_or; [by apply rollback_inside|by apply rollback_stopped].
Qed.
Lemma snapshot_keeps N name :
  name ∉ N →
  etriple (inside N) (snapshotLifecycleFile name)
    (λ s d, (sn_name s = name ∧ describes G s) ∧ inside N d)
    (λ _, inside N).
Proof.
  intros Hn d Hd. unfold snapshotLifecycleFile, attempt, mbind, io_bind. rewrite ReadFile_eq. unfold content.
  case_bool_decide; [done|].
  assert (observation (Path name) = false → files d !! Path name = G !! Path name) as HG.
  { intros Ho. by apply (inside_at N). }
  destruct (files d !! Path name) as [doc|] eqn:Ef; [destruct (of_doc doc) as [c|] eqn:Ed; simpl; [|done]|].
  - split; [|done]. split; [done|]. intros Ho. simpl in *. rewrite <- HG by done. destruct (is_plain _ _ Hd name _ Ho Ef) as [s ->]. by injection Ed as <-.
  - split; [|done]. split; [done|]. intros Ho. simpl in *. by rewrite <- HG.
Qed.
Lemma snapshot_inside N name :
  name ∉ N →
  etriple (inside N) (snapshotLifecycleFile name)
    (λ s d, (sn_name s = name ∧ describes G s) ∧ inside N d) (clean N).
Proof. intros Hn. eapply etriple_consequence; [by apply snapshot_keeps|done|done|by left]. Qed.

Context `{Unicode, MachineEncoder, ResumeText, GitState, JSONLog}.
Context `{JSONText TaskStats persistedStats, JSONText ParentReviewState Some, JSONText GitSnapshot Some,
          JSONText parentActionBeginRecord Some}.
Lemma unchanged {A} N (m : io A) φ Q (ψ : Disk → Prop) :
  etriple (inside N) m (λ _ d, φ d ∧ Q d) (λ _ d, ψ d ∧ inside N d) → etriple (inside N) m (λ _, Q) (clean N).
Proof. intros Hm. eapply etriple_consequence; [exact Hm|done|by intros ?? []|]. intros ?? []. by left. Qed.
Lemma SetTaskStatus_changes N status :
  etriple (inside N) (SetTaskStatus status)
    (λ _ d, files d !! Path statusFile = Some (text (status +:+ newline)) ∧ inside (statusFile :: N) d)
    (λ _ d, refused statusFile d ∧ inside N d).
Proof.
  apply (etriple_of _ _ _ (λ d, refused statusFile d ∧ inside N d)); [|done].
  apply (SetTaskStatus_writes (inside N)
    (λ d, files d !! Path statusFile = Some (text (status +:+ newline)) ∧ inside (statusFile :: N) d)).
  { apply quiet_and; [by apply file_quiet|apply _]. }
  intros d Hd. pose proof (write_inside N statusFile (status +:+ newline) d Hd) as Hw. unfold Write, io_wrap.
  by destruct (writeFileAtomic _ _ _ d) as [[|] ?].
Qed.
Lemma SetTaskStatus_inside N status :
  etriple (inside N) (SetTaskStatus status) (λ _, inside (statusFile :: N)) (clean N).
Proof. eapply unchanged, SetTaskStatus_changes. Qed.
Lemma Write_inside N name value : etriple (inside N) (Write name value) (λ _, inside (name :: N)) (clean N).
Proof.
  intros d Hd. pose proof (write_inside N name (value +:+ newline) d Hd) as Hw. unfold Write, io_wrap.
  destruct (writeFileAtomic _ _ _ d) as [[|] ?]; [apply Hw|left; apply Hw].
Qed.
Lemma Advance_inside N :
  etriple (inside N) AdvanceParentEvidenceLease (λ _, inside (parentEvidenceLeasePath :: N)) (clean N).
Proof.
  intros d Hd. unfold AdvanceParentEvidenceLease, under_ledger_lock. case_bool_decide as Hl; [by left|]. clear Hl. revert d Hd.
  unfold advanceParentEvidenceLeaseUnlocked.
  eapply etriple_bind; [apply etriple_reads; [apply _|by left]|]. intros epoch. eapply unchanged, write_inside.
Qed.
Lemma RemoveState_inside N name : etriple (inside N) (RemoveState name) (λ _, inside (name :: N)) (clean N).
Proof. eapply unchanged, remove_inside. Qed.
End Inside.

(** ** Operations that change everything or nothing *)
Definition atomic {A} (m : io A) : Prop :=
  ∀ R W G, [] ∉ W → etriple (inside R W G []) m (λ _ _, True) (clean R W G []).
Lemma inside_now R W G N d : inside R W G N d → inside R W (files d) [] d.
Proof. intros []. split; auto. Qed.
Lemma inside_trans R W G N d d' : inside R W G N d → inside R W (files d) [] d' → inside R W G N d'.
Proof.
  intros Hd Hd'. split; try apply Hd'. intros p Hp.
  destruct (is_files _ _ _ _ _ Hd' p Hp) as [->|[? Hin]]; [by apply Hd|]. by apply elem_of_nil in Hin.
Qed.
Lemma atomic_inside {A} R W G N (m : io A) :
  [] ∉ W → atomic m → etriple (inside R W G N) m (λ _ _, True) (clean R W G N).
Proof.
  intros Hroot Hm d Hd. specialize (Hm R W (files d) Hroot d (inside_now _ _ _ _ _ Hd)).
  destruct (m d) as [[|] d']; [done|]. destruct Hm as [Hm|Hm]; [left; by eapply inside_trans|by right].
Qed.
Lemma etriple_true {A} P E (m : io A) Q : etriple P m Q E → etriple P m (λ _ _, True) E.
Proof. intros Hm. by eapply etriple_consequence. Qed.

(** Walk through a transition: guards, reads, snapshots and changes. *)
Ltac walk_step :=
  match goal with
  | |- etriple _ (if _ then fail _ else _) _ _ => apply etriple_guard; [by left|]
  | |- etriple _ (mret _) _ _ => by apply etriple_ret
  | |- etriple _ (fail _) _ _ => apply etriple_fail; by left
  | |- etriple _ (snapshotLifecycleFile _ ≫= _) _ _ =>
      eapply etriple_bind; [apply snapshot_inside; set_solver|intros ?; apply etriple_pure; intros [? ?]]
  | |- etriple _ (io_wrap _ _ ≫= _) _ _ =>
      eapply etriple_bind; [apply etriple_reads; [preserving|by left]|intros ?]
  | |- etriple _ (_ ≫= _) _ _ => eapply etriple_bind; [apply etriple_reads; [apply _|by left]|intros ?]
  end.
Ltac walk := repeat walk_step.
Ltac branching := match goal with |- etriple _ (if ?c then _ else _) _ _ => destruct c end.
Ltac step lem := eapply etriple_bind; [lem|intros ?].
(** A change, taken back with the snapshots at hand. *)
Ltac taken_back lem :=
  eapply or_rollback_inside; [eassumption|eapply lem; eassumption|by repeat constructor|done|];
  simpl; repeat match goal with H : sn_name _ = _ |- _ => rewrite H end; set_solver.
Ltac taken_back_last lem := eapply etriple_true; taken_back lem.

Section Transitions.
Context `{Unicode, MachineEncoder, ResumeText, GitState, JSONLog}.
Context `{JSONText TaskStats persistedStats, JSONText ParentReviewState Some, JSONText GitSnapshot Some,
          JSONText parentActionBeginRecord Some}.

Lemma SetTaskStatus_atomic status : atomic (SetTaskStatus status).
Proof. intros R W G Hroot. by eapply etriple_true, SetTaskStatus_inside. Qed.
Lemma WaitForDecision_atomic : atomic WaitForDecision.
Proof.
  intros R W G Hroot. unfold WaitForDecision. walk.
  step ltac:(by apply Advance_inside). step ltac:(taken_back Write_inside). taken_back_last SetTaskStatus_inside.
Qed.
Lemma ContinueAfterWorkerResult_atomic : atomic ContinueAfterWorkerResult.
Proof.
  intros R W G Hroot. unfold ContinueAfterWorkerResult. walk.
  step ltac:(by apply RemoveState_inside). taken_back_last SetTaskStatus_inside.
Qed.
Lemma FinishReview_atomic status : atomic (FinishReview status).
Proof.
  intros R W G Hroot. unfold FinishReview. walk. branching; [by apply SetTaskStatus_atomic|].
  walk. step ltac:(by apply Advance_inside). taken_back_last SetTaskStatus_inside.
Qed.
Lemma WaitForSolReview_atomic : atomic WaitForSolReview.
Proof.
  intros R W G Hroot. unfold WaitForSolReview. walk. branching; [by apply SetTaskStatus_atomic|].
  walk. step ltac:(by apply Advance_inside). taken_back_last SetTaskStatus_inside.
Qed.
Lemma WaitForSolReview_inside R W G N :
  [] ∉ W → etriple (inside R W G N) WaitForSolReview (λ _ _, True) (clean R W G N).
Proof. intros. by apply atomic_inside, WaitForSolReview_atomic. Qed.
Lemma WaitForQualitySurfaceReview_atomic phase : atomic (WaitForQualitySurfaceReview phase).
Proof.
  intros R W G Hroot. unfold WaitForQualitySurfaceReview. walk.
  step ltac:(apply etriple_reads; [preserving|by left]).
  step ltac:(by apply RemoveState_inside). taken_back WaitForSolReview_inside.
Qed.
Lemma SaveResumeCheckpoint_inside R W G N c : [] ∉ W →
  etriple (inside R W G N) (SaveResumeCheckpoint c) (λ _, inside R W G (resumeStateFile :: N)) (clean R W G N).
Proof.
  intros. unfold SaveResumeCheckpoint. walk.
  apply (etriple_wrap _ _ _ _ (λ _ d, inside R W G N d)); [by left|].
  eapply etriple_consequence; [by apply write_inside|done|by intros ?? []|by intros ?? []].
Qed.
Lemma EnterQualitySurfaceApprovalWait_atomic c : atomic (EnterQualitySurfaceApprovalWait c).
Proof.
  intros R W G Hroot. unfold EnterQualitySurfaceApprovalWait. walk.
  step ltac:(by apply SaveResumeCheckpoint_inside). step ltac:(taken_back RemoveState_inside).
  step ltac:(taken_back Advance_inside). taken_back_last SetTaskStatus_inside.
Qed.
Lemma DiscardResumeAndWaitForSolReview_atomic : atomic DiscardResumeAndWaitForSolReview.
Proof.
  intros R W G Hroot. unfold DiscardResumeAndWaitForSolReview. walk.
  step ltac:(by apply RemoveState_inside). taken_back WaitForSolReview_inside.
Qed.
Lemma EnterStop_atomic c : atomic (EnterStop c).
Proof.
  intros R W G Hroot. unfold EnterStop. cbv zeta. do 2 walk_step.
  step ltac:(by eapply etriple_attempt, snapshot_keeps, not_elem_of_nil).
  match goal with r : result _ _ |- _ => destruct r as [resume|e]; [apply etriple_pure; intros [? ?]|] end.
  - walk. step ltac:(by apply SaveResumeCheckpoint_inside).
    eapply (etriple_bind _ (λ _, inside R W G [pendingDecision; resumeStateFile])).
    { branching; [taken_back RemoveState_inside|]. apply etriple_ret. intros d. apply inside_mono. set_solver. }
    intros _. taken_back_last SetTaskStatus_inside.
  - walk. branching; [|apply etriple_fail; by left]. by eapply etriple_true, SaveResumeCheckpoint_inside.
Qed.
(** Statistics and logs are kept without an error. *)
Lemma stats_inside {A} R W G N E (k : () → io A) update Q :
  etriple (inside R W G N) (k ()) Q E → etriple (inside R W G N) (UpdateTaskStats update ≫= k) Q E.
Proof.
  intros Hk. eapply etriple_bind; [by apply (etriple_of _ _ _ (λ _, False)); [apply UpdateTaskStats_triple, _|]|].
  by intros [].
Qed.
Lemma event_inside {A} R W G N E (k : () → io A) taskID phase kind origin cause resolved Q :
  etriple (inside R W G N) (k ()) Q E →
  etriple (inside R W G N) (appendParentOutcomeEvent taskID phase kind origin cause resolved ≫= k) Q E.
Proof.
  intros Hk. eapply etriple_bind; [by apply (etriple_of _ _ _ (λ _, False)); [apply appendParentOutcomeEvent_triple, _|]|].
  by intros [].
Qed.
Lemma BeginResume_atomic c : atomic (BeginResume c).
Proof.
  intros R W G Hroot. unfold BeginResume. walk. step ltac:(by apply SetTaskStatus_inside).
  eapply etriple_true. apply (etriple_of _ _ _ (λ _, False)); [apply UpdateTaskStats_triple, _|done].
Qed.
Lemma RestoreResumeStop_atomic previous : atomic (RestoreResumeStop previous).
Proof.
  intros R W G Hroot. unfold RestoreResumeStop. walk. branching; [by apply etriple_ret|].
  step ltac:(apply etriple_reads; [preserving|by left]). walk_step.
  eapply etriple_wrap; [|by apply EnterStop_atomic].
  intros e d [Hd|[Hd He]]; [by left|right]. split; [done|]. eapply reports_cause; [|exact He]. set_solver.
Qed.
Lemma CompleteLifecycle_atomic : atomic CompleteLifecycle.
Proof. intros R W G Hroot. unfold CompleteLifecycle. walk. by apply SetTaskStatus_atomic. Qed.

(** *** The parent *)
Lemma writeParentReviewState_inside R W G N state : [] ∉ W →
  etriple (inside R W G N) (writeParentReviewState state)
    (λ _, inside R W G (parentReviewStateFile :: N)) (λ _, inside R W G N).
Proof.
  intros. apply (etriple_wrap _ _ _ _ (λ _ d, inside R W G N d)); [done|].
  eapply etriple_consequence; [by apply write_inside|done|by intros ?? []|by intros ?? []].
Qed.
(** A review is resolved only where there is one. *)
Lemma missing_review d :
  files d !! Path parentReviewStateFile = None → ∃ e, loadParentReviewState d = (Err e, d).
Proof.
  intros Hf. unfold loadParentReviewState, mbind, io_bind. rewrite ReadFile_eq. unfold content. rewrite Hf.
  case_bool_decide; by eexists.
Qed.
Lemma resolution_needs_review d r d' :
  parentReviewResolutionState d = (Ok r, d') → r ≠ None → is_Some (files d !! Path parentReviewStateFile).
Proof.
  intros E Hr. destruct (files d !! Path parentReviewStateFile) as [doc|] eqn:Hf; [by eexists|exfalso].
  destruct (missing_review d Hf) as [e He]. unfold parentReviewResolutionState, mbind at 1, io_bind at 1, attempt in E.
  rewrite Read_eq in E. destruct (trimmed (content _ d)) as [taskID|e'].
  - case_bool_decide; [by injection E as <- _|]. unfold mbind, io_bind in E. by rewrite He in E.
  - destruct (IsNotExist e'); [by injection E as <- _|done].
Qed.
Lemma resolve_inside R W G kind origin cause terminal : [] ∉ W →
  etriple (inside R W G []) (resolveParentReviewStateWithCompletion kind origin cause terminal)
    (λ o d, (o ≠ None → is_Some (G !! Path parentReviewStateFile)) ∧
            inside R W G (if o then [parentReviewStateFile] else []) d) (λ _, inside R W G []).
Proof.
  intros Hroot. unfold resolveParentReviewStateWithCompletion.
  eapply etriple_bind; [by apply etriple_reads; [apply _|]|]. intros ?.
  eapply (etriple_bind _ (λ r d, (r ≠ None → is_Some (G !! Path parentReviewStateFile)) ∧ inside R W G [] d)).
  { intros d Hd. pose proof (preserves (R:=eq) (m:=parentReviewResolutionState) d) as Hr.
    destruct (parentReviewResolutionState d) as [[r|e] d1] eqn:E; simpl in Hr; subst d1; [|done].
    split; [|done]. intros Hn. pose proof (resolution_needs_review _ _ _ E Hn) as Hf.
    by rewrite (inside_at _ _ _ Hroot _ _ _ (not_elem_of_nil parentReviewStateFile) (eq_refl : observation (Path parentReviewStateFile) = false) Hd) in Hf. }
  intros [[state resolved]|]; apply etriple_pure; intros Hex; [|by apply etriple_ret; intros d ?; split].
  specialize (Hex ltac:(done)). apply etriple_guard; [done|].
  eapply etriple_bind; [by apply etriple_reads; [apply _|]|]. intros completion.
  eapply (etriple_bind _ (λ _, inside R W G [])); [apply etriple_reads; [preserving|done]|]. intros bound.
  eapply etriple_bind; [by apply writeParentReviewState_inside|]. intros ?. by apply etriple_ret.
Qed.
Lemma commitParentCompletion_inside R W G N status E : [] ∉ W →
  etriple (inside R W G N) (commitParentCompletion status false None)
    (λ result d, cp_rollbackStatusErr result = None ∧
                 inside R W G (if cp_transitionErr result then N else statusFile :: N) d) E.
Proof.
  intros Hroot. unfold commitParentCompletion. simpl.
  eapply etriple_bind; [by apply (etriple_of _ _ _ (λ _, False)); [apply ReadOr_triple|]|]. intros ?.
  eapply (etriple_bind _ (λ removed d, removed = Ok () ∧ inside R W G N d)); [by apply etriple_ret|].
  intros ?. apply etriple_pure. intros ->.
  eapply etriple_bind; [eapply etriple_attempt, SetTaskStatus_changes, Hroot|].
  intros [[]|e].
  - eapply (etriple_bind _ (λ built d, built = Ok () ∧ inside R W G (statusFile :: N) d)); [by apply etriple_ret; intros ? []|].
    intros ?. apply etriple_pure. intros ->. by apply etriple_ret.
  - eapply (etriple_bind _ (λ _, inside R W G N)); [by apply etriple_ret; intros ? []|]. intros. by apply etriple_ret.
Qed.
(** The file of the review is put back, or the error says that it was not. *)
Lemma put_back_or_report {A} R W G s e (Q : A → Disk → Prop) :
  [] ∉ W → sn_name s = parentReviewStateFile ∧ describes G s → is_Some (G !! Path parentReviewStateFile) →
  (∀ r, reports_rollback r → reports_rollback (e (Err r))) →
  etriple (inside R W G [parentReviewStateFile]) (restored ← attempt (restoreLifecycleFile s); fail (e restored))
    Q (clean R W G []).
Proof.
  intros Hroot [Hn Hs] Hex He. rewrite <- Hn.
  eapply etriple_bind; [by eapply etriple_attempt, restore_inside|]. intros [[]|r]; apply etriple_fail.
  - by left.
  - intros d [Hd|[Hd Hr]]; [by left|right]. split; [done|]. apply He, Hr. unfold describes in Hs. rewrite Hn in Hs.
    rewrite Hs in Hex by done. destruct (sn_exists s); [done|by destruct Hex].
Qed.
Lemma AcceptParentReview_atomic : atomic AcceptParentReview.
Proof.
  intros R W G Hroot. unfold AcceptParentReview. walk.
  eapply etriple_bind; [eapply etriple_consequence; [by apply resolve_inside|done|done|by left]|].
  intros [resolved|]; apply etriple_pure; intros Hex; [specialize (Hex ltac:(done))|by apply etriple_ret].
  eapply (etriple_bind _ (λ _, inside R W G [parentReviewStateFile])).
  { intros d Hd. unfold attempt. pose proof (preserves (R:=eq) (m:=TaskID) d) as Ht.
    destruct (TaskID d) as [? d1]. simpl in Ht. by subst d1. }
  intros [taskID|e]; [|apply put_back_or_report; [done..|]].
  - eapply etriple_bind; [by apply commitParentCompletion_inside|]. intros result. apply etriple_pure. intros Hr.
    destruct (cp_transitionErr result) as [e|].
    + rewrite Hr. apply put_back_or_report; [done..|]. intros r Hrep. simpl. apply reports_format. set_solver.
    + apply stats_inside, event_inside. by apply etriple_ret.
  - intros r Hr. apply (reports_joined _ _ [e; r] r); [set_solver..|done].
Qed.
(** *** The approval of a quality surface *)
(** Only the directories of the logs appear. *)
Definition same_dirs (d d' : Disk) : Prop :=
  ∀ name, name ∉ ["lifecycle"; "telemetry"] → (Path name ∈ dirs d' ↔ Path name ∈ dirs d).
#[local] Instance same_dirs_preorder : PreOrder same_dirs.
Proof. split; [done|]. intros d1 d2 d3 H12 H23 name Hn. by rewrite (H23 name Hn), (H12 name Hn). Qed.
#[local] Instance MkdirAll_dirs p : p ∈ [[]; ["lifecycle"]; ["telemetry"]] → Preserves same_dirs (MkdirAll p).
Proof.
  intros Hp d name Hn. unfold MkdirAll. destruct (_ || _); [done|]. simpl. unfold Path in *.
  repeat (apply elem_of_cons in Hp as [->|Hp]; [simpl; set_solver|]). by apply elem_of_nil in Hp.
Qed.
#[local] Instance writeFileAtomic_dirs name data mode : Preserves same_dirs (writeFileAtomic (Path name) data mode).
Proof.
  unfold writeFileAtomic. apply preserves_bind; [apply _|apply MkdirAll_dirs; set_solver|].
  intros _ d n Hn. unfold writeJSONAtomic. by repeat case_match.
Qed.
#[local] Instance Now_dirs : Preserves same_dirs Now.
Proof. by intros d name. Qed.
#[local] Instance NewUUID_dirs : Preserves same_dirs NewUUID.
Proof. intros d name. unfold NewUUID. by case_match. Qed.
#[local] Instance open_dirs p : Preserves same_dirs (open_append p).
Proof. intros d name Hn. unfold open_append. by repeat case_match. Qed.
#[local] Instance chmod_dirs p : Preserves same_dirs (chmod600 p).
Proof. intros d name Hn. unfold chmod600. by case_match. Qed.
#[local] Instance write_bytes_dirs p data : Preserves same_dirs (write_bytes p data).
Proof.
  induction data as [|c data IH]; intros d name Hn; cbn; [done|]. destruct (stopped d); [done|].
  by apply (IH (put_file p _ d)).
Qed.
#[local] Instance close_reads : Preserves eq close_file.
Proof. intros d. unfold close_file. by destruct (stopped d). Qed.
#[local] Instance append_dirs taskID data : Preserves same_dirs (appendStateJSONL (ModelCallLogPath taskID) data).
Proof.
  unfold appendStateJSONL, append_file. apply preserves_bind; [apply _|apply MkdirAll_dirs; set_solver|]. preserving.
  intros d. by rewrite <- (close_reads d).
Qed.
#[local] Instance UpdateTaskStats_dirs update : Preserves same_dirs (UpdateTaskStats update).
Proof. unfold UpdateTaskStats, loadTaskStats, bootstrapTaskStats, TaskID, GetTaskStatus, ReadOr, Read, writeTaskStats, ReadFile. preserving. Qed.
#[local] Instance appendParentOutcomeEvent_dirs taskID phase kind origin cause resolved :
  Preserves same_dirs (appendParentOutcomeEvent taskID phase kind origin cause resolved).
Proof. unfold appendParentOutcomeEvent, RecordModelCallLog, appendModelCallLog, recordTokenUsage. preserving. Qed.
Lemma RecordParentOutcome_closes R W G kind origin cause state open d : [] ∉ W →
  validateParentOutcomeResolution kind origin cause "" = Ok () → inside R W G [] d →
  loadParentReviewState d = (Ok state, d) → rv_Open state = Some open →
  (kind = ParentOutcomeAccepted → ro_PacketStatus open ≠ StatusNeedsSolDecision) →
  match RecordParentOutcome kind origin cause d with
  | (Ok b, d') =>
      b = true ∧ same_dirs d d' ∧ ∃ d1, inside R W G [parentReviewStateFile] d1 ∧ inside R W (files d1) [] d' ∧
      files d1 !! Path parentReviewStateFile = Some (text (marshal (closedReview state) +:+ newline))
  | (Err _, d') => inside R W G [] d'
  end.
Proof.
  intros Hroot Hv Hd Hl Ho Hk. pose proof (proj1 (loadParentReviewState_Ok _ _ _) Hl) as (_ & Ht & _).
  unfold RecordParentOutcome. erewrite io_bind_step by exact Ht. cbn beta.
  pose proof (write_inside R W G Hroot [] parentReviewStateFile (marshal (closedReview state) +:+ newline) d Hd) as Hw.
  pose proof (preserves (R:=same_dirs) (m:=writeParentReviewState (closedReview state)) d) as Hdirs1.
  assert (∀ B (k : _ → io B), (resolveParentReviewState kind origin cause ≫= k) d =
    (_ ← writeParentReviewState (closedReview state); k (Some open)) d) as ->.
  { intros B k. unfold mbind at 1, io_bind at 1. erewrite resolve_eq by eassumption.
    unfold mbind, io_bind. by destruct (writeParentReviewState _ d) as [[|] ?]. }
  assert (match writeParentReviewState (closedReview state) d with
    | (Ok _, d1) => files d1 !! Path parentReviewStateFile = Some (text (marshal (closedReview state) +:+ newline)) ∧
                    inside R W G [parentReviewStateFile] d1
    | (Err _, d1) => inside R W G [] d1 end) as Hw'.
  { unfold writeParentReviewState, io_wrap. destruct (writeFileAtomic _ _ _ d) as [[|] ?]; [exact Hw|apply Hw]. }
  unfold mbind at 1, io_bind at 1. destruct (writeParentReviewState _ d) as [[[]|e] d1]; simpl in Hdirs1; [|done].
  destruct Hw' as [Hf Hd1].
  pose proof (closing_events (inside R W (files d1) []) kind origin cause (rv_TaskID state) open (λ _, False) d1 (inside_now _ _ _ _ _ Hd1)) as He.
  match type of He with match ?m d1 with _ => _ end =>
    assert (Preserves same_dirs m) as Hdirs2 by preserving; specialize (Hdirs2 d1);
    destruct (m d1) as [[b|e] d'] end; [|done].
  destruct He as [-> Hd']. split; [done|]. split; [by etrans|]. eauto.
Qed.
Lemma Exists_false_same d d' name :
  same_dirs d d' → name ∉ ["lifecycle"; "telemetry"] → unreadable d' = unreadable d →
  files d' !! Path name = files d !! Path name → Exists name d = (Ok false, d) → Exists name d' = (Ok false, d').
Proof.
  intros Hdirs Hn Hr Hf E. unfold Exists in *. rewrite Hr, Hf.
  rewrite (bool_decide_ext (Path name ∈ dirs d') _ (Hdirs name Hn)). by injection E as ->.
Qed.
Lemma closeApproved_inside R W G : [] ∉ W → closes_clean →
  etriple (inside R W G []) closeApprovedQualitySurfaceReview (λ _, inside R W G [parentReviewStateFile]) (clean R W G []).
Proof.
  intros Hroot Hc d Hd. unfold closeApprovedQualitySurfaceReview.
  unfold mbind at 1, io_bind at 1. unfold io_wrap at 1.
  destruct (CurrentParentReviewLabel d) as [[label|e] d0] eqn:El;
    apply (preserves_eq _ _ _ _ _) in El as Hd0; subst d0; simpl; [|by left].
  case_bool_decide as Hn; [by eapply inside_mono; [|exact Hd]; set_solver|].
  case_bool_decide as Hr; [|by left]. subst label.
  destruct (label_inv _ _ _ El Hn) as (Htx & state & open & Hl & Ho & Hp).
  pose proof (RecordParentOutcome_closes R W G ParentOutcomeAccepted "" "" state open d Hroot) as Hrec.
  specialize (Hrec eq_refl Hd Hl Ho ltac:(by intros _; rewrite Hp)).
  unfold mbind at 1, io_bind at 1. unfold io_wrap at 1.
  destruct (RecordParentOutcome _ _ _ d) as [[b|e] d']; simpl; [|by left].
  destruct Hrec as (-> & Hdirs & d1 & Hd1 & Hd' & Hf).
  assert (inside R W G [parentReviewStateFile] d') as HN by by eapply inside_trans.
  assert (∀ name, name ≠ parentReviewStateFile → observation (Path name) = false →
    files d' !! Path name = files d !! Path name) as Hsame.
  { intros name Hname Hob. rewrite (inside_at _ _ _ Hroot _ _ _ (not_elem_of_nil _) Hob Hd).
    eapply (inside_at _ _ _ Hroot _ _ _ _ Hob HN). Unshelve. set_solver. }
  assert (unreadable d' = unreadable d) as Hun by by rewrite (is_readable _ _ _ _ _ Hd), (is_readable _ _ _ _ _ Hd').
  assert (loadParentReviewState d' = (Ok (closedReview state), d')) as Hl'.
  { eapply load_closed; [done|exact Hl| |].
    - apply loadParentReviewState_Ok in Hl as (_ & Ht & _). apply TaskID_Ok in Ht as (Hid & Hr & _).
      apply TaskID_Ok. split; [done|]. split; [|done]. rewrite <- Hr. f_equal. apply content_files; [done|]. by apply Hsame.
    - apply content_text.
      + apply loadParentReviewState_Ok in Hl as ((data & Hdata & _) & _). rewrite Hun. by eapply content_Ok.
      + destruct (is_files _ _ _ _ _ Hd' (Path parentReviewStateFile) eq_refl) as [->|[_ ?%elem_of_nil]]; done. }
  unfold mbind, io_bind, io_wrap. erewrite label_closed; [exact HN| |exact Hl'|done].
  apply (Exists_false_same d); [done|set_solver|done|by apply Hsame|done].
Qed.
Lemma ActivateQualitySurfaceApproval_atomic : closes_clean → atomic ActivateQualitySurfaceApproval.
Proof.
  intros Hc R W G Hroot. unfold ActivateQualitySurfaceApproval. walk.
  step ltac:(by apply closeApproved_inside). step ltac:(taken_back RemoveState_inside).
  taken_back_last SetTaskStatus_inside.
Qed.

(** *** Completion with a session rotation *)
(** The status file is as [SetTaskStatus] writes it. *)
Definition written_status (G : fileMap) : Prop :=
  ∀ s, G !! Path statusFile = Some (text s) → s = TrimSpace s +:+ newline.
Context `{JSONText SessionRotationMarker Some}.
Definition rotation_of (evaluate : string → io (option SessionRotationEvaluation)) (risk : string) : io unit :=
  evaluation ← evaluate risk; commitSessionRotation evaluation.

Lemma quiet_keeps {A} R W G N (m : io A) E :
  (∀ d, quiet d (m d).2) → (∀ e d, inside R W G N d → E e d) → etriple (inside R W G N) m (λ _, inside R W G N) E.
Proof.
  intros Hm HE d Hd. specialize (Hm d). assert (inside R W G N (m d).2) as Hi by by eapply quiet_stable.
  destruct (m d) as [[a|e] d']; [done|by apply HE].
Qed.
Lemma Now_quiet d : quiet d (Now d).2.
Proof. repeat split; auto. Qed.
Lemma NewUUID_quiet d : quiet d (NewUUID d).2.
Proof. unfold NewUUID. destruct (random d (draws d)); repeat split; auto. Qed.
#[local] Instance marker_reads threadID : Preserves eq (LoadSessionRotationMarker threadID).
Proof. unfold LoadSessionRotationMarker. preserving. Qed.
Lemma write_any R W G N p data :
  etriple (inside R W G N) (writeFileAtomic p data mode600) (λ _ _, True) (λ _, inside R W G N).
Proof.
  unfold writeFileAtomic. eapply etriple_bind; [by eapply etriple_of; [apply MkdirAll_triple, _|done]|].
  intros [] d Hd. unfold writeJSONAtomic. destruct (_ || _); [done|]. by case_bool_decide.
Qed.
Lemma rotation_inside R W G N evaluate risk : (∀ risk, Preserves eq (evaluate risk)) →
  etriple (inside R W G N) (rotation_of evaluate risk) (λ _ _, True) (λ _, inside R W G N).
Proof.
  intros Hev. unfold rotation_of. eapply etriple_bind; [by apply etriple_reads|]. intros [evaluation|]; [|by apply etriple_ret].
  assert (∀ marker, etriple (inside R W G N) (writeSessionRotationMarker marker) (λ _ _, True) (λ _, inside R W G N)) as Hw.
  { intros marker. unfold writeSessionRotationMarker. eapply etriple_bind; [by apply quiet_keeps; [apply Now_quiet|]|].
    intros ?. eapply etriple_bind; [by apply etriple_reads; [apply _|]|]. intros ?. apply write_any. }
  unfold commitSessionRotation. do 2 (apply etriple_guard; [done|]).
  eapply etriple_bind; [by apply etriple_reads; [apply _|]|]. intros loaded. cbv zeta.
  eapply etriple_bind; [by apply quiet_keeps; [apply Now_quiet|]|]. intros evaluatedAt.
  branching; [|apply Hw]. eapply etriple_bind; [by apply quiet_keeps; [apply NewUUID_quiet|]|]. intros ?.
  eapply etriple_bind; [by apply quiet_keeps; [apply Now_quiet|]|]. intros ?. apply Hw.
Qed.
Lemma rollbackParentCompletion_inside R W G previous e E : [] ∉ W →
  G !! Path statusFile = Some (text (previous +:+ newline)) →
  etriple (inside R W G [statusFile]) (rollbackParentCompletion previous false e)
    (λ result d, cp_transitionErr result = Some e ∧
                 (inside R W G [] d ∨ stopped d = true ∧ cp_rollbackStatusErr result ≠ None)) E.
Proof.
  intros Hroot HG. unfold rollbackParentCompletion. simpl.
  eapply etriple_bind; [eapply etriple_attempt, SetTaskStatus_changes, Hroot|]. intros r.
  eapply (etriple_bind _ (λ _ d, inside R W G [] d ∨ stopped d = true ∧ as_error r ≠ None)).
  - apply etriple_ret. intros d Hd. destruct r as [[]|e'].
    + left. destruct Hd as [Hf Hd]. eapply inside_drop; [right; intros _; by rewrite Hf, HG|].
      eapply inside_mono; [|exact Hd]. set_solver.
    + destruct Hd as [[Hw|Hw] Hd]; [left; by eapply inside_drop; [left|]|by right].
  - intros pending. apply etriple_ret. intros d Hd. by split.
Qed.
Lemma awaiting_status R W G d : written_status G → inside R W G [] d →
  or_fallback TaskStatusNone (content (Path statusFile) d) = TaskStatusAwaitingParentCompletion →
  G !! Path statusFile = Some (text (TaskStatusAwaitingParentCompletion +:+ newline)).
Proof.
  intros Hw Hd Hs. destruct (is_files _ _ _ _ _ Hd (Path statusFile) eq_refl) as [Hf|[_ ?%elem_of_nil]]; [|done].
  unfold content in Hs. rewrite Hf in Hs. case_bool_decide; [done|].
  destruct (G !! Path statusFile) as [doc|] eqn:HG; [|done].
  destruct (is_plain _ _ _ _ _ Hd statusFile doc eq_refl) as [s ->]; [by rewrite Hf|].
  simpl in Hs. case_bool_decide; [done|]. by rewrite (Hw s HG), Hs.
Qed.
Lemma commit_rotation_inside R W G status evaluate risk E : [] ∉ W →
  (∀ risk, Preserves eq (evaluate risk)) → written_status G →
  etriple (λ d, GetTaskStatus d = (Ok TaskStatusAwaitingParentCompletion, d) ∧ inside R W G [] d)
    (commitParentCompletion status false (Some (rotation_of evaluate risk)))
    (λ result d, ∀ e, cp_transitionErr result = Some e →
       inside R W G [] d ∨ stopped d = true ∧ cp_rollbackStatusErr result ≠ None) E.
Proof.
  intros Hroot Hev Hw d [Hst Hd].
  assert (G !! Path statusFile = Some (text (TaskStatusAwaitingParentCompletion +:+ newline))) as HG.
  { eapply awaiting_status; [done|exact Hd|]. unfold GetTaskStatus in Hst. rewrite ReadOr_eq in Hst. by injection Hst. }
  unfold commitParentCompletion. erewrite io_bind_step by exact Hst. cbn beta. simpl.
  revert d Hst Hd. intros d _. revert d.
  lazymatch goal with |- ∀ d, _ → match ?m d with _ => _ end => change (etriple (inside R W G []) m
    (λ result d, ∀ e, cp_transitionErr result = Some e →
       inside R W G [] d ∨ stopped d = true ∧ cp_rollbackStatusErr result ≠ None) E) end.
  eapply (etriple_bind _ (λ removed d, removed = Ok () ∧ inside R W G [] d)); [by apply etriple_ret|].
  intros ?. apply etriple_pure. intros ->.
  eapply etriple_bind; [eapply etriple_attempt, SetTaskStatus_changes, Hroot|]. intros [[]|e].
  - eapply etriple_bind.
    { eapply etriple_consequence; [by eapply etriple_attempt, (rotation_inside R W G [statusFile])|by intros ? []|done|done]. }
    intros [[]|e]; [by apply etriple_ret|].
    eapply etriple_consequence; [by apply (rollbackParentCompletion_inside R W G)|done| |done].
    intros result d [_ Hd] ? _. exact Hd.
  - eapply (etriple_bind _ (λ _, inside R W G [])); [by apply etriple_ret; intros ? []|].
    intros ?. apply etriple_ret. by left.
Qed.
#[local] Instance any_quiet : Quiet (λ _, True).
Proof. done. Qed.
Lemma CompleteParentAwaiting_inside R W G rotation : [] ∉ W →
  from_option (λ r, ∃ evaluate, (∀ risk, Preserves eq (evaluate risk)) ∧ r = rotation_of evaluate) True rotation →
  written_status G → etriple (inside R W G []) (CompleteParentAwaiting rotation) (λ _ _, True) (clean R W G []).
Proof.
  intros Hroot Hr Hw. unfold CompleteParentAwaiting.
  eapply (etriple_bind _ (λ status d, GetTaskStatus d = (Ok status, d) ∧ inside R W G [] d)).
  { intros d Hd. pose proof (preserves (R:=eq) (m:=GetTaskStatus) d) as Hs.
    destruct (GetTaskStatus d) as [[status|e] d1] eqn:E; simpl in Hs; subst d1; [done|by left]. }
  intros status. destruct (bool_decide_reflect (status = TaskStatusAwaitingParentCompletion)) as [->|]; cbn [negb];
    [|apply etriple_fail; intros ? []; by left].
  eapply etriple_bind; [apply etriple_reads; [preserving|intros ?? []; by left]|]. intros [outcome|];
    [|apply etriple_fail; intros ? []; by left].
  eapply (etriple_bind _ (λ result d, ∀ e, cp_transitionErr result = Some e →
       inside R W G [] d ∨ stopped d = true ∧ cp_rollbackStatusErr result ≠ None)).
  { destruct rotation as [r|]; simpl in *.
    - destruct Hr as (evaluate & Hev & ->). by apply commit_rotation_inside.
    - eapply etriple_consequence; [by apply (commitParentCompletion_inside R W G [])|by intros ? []| |done].
      intros result d [_ Hd] e He. rewrite He in Hd. by left. }
  intros result. destruct (cp_transitionErr result) as [e|].
  - apply etriple_fail. intros d Hd. destruct (Hd e eq_refl) as [Hi|[Hs Hne]]; [by left|right]. split; [done|].
    rewrite (bool_decide_false (cp_rollbackStatusErr _ = None)) by done. apply reports_format. set_solver.
  - apply (etriple_consequence _ (λ _, True) _ (λ _ _, True) _ (λ _ _, False)); [|done..].
    eapply etriple_bind; [by apply (etriple_of _ _ _ (λ _, False)); [apply UpdateTaskStats_triple, _|]|].
    intros. by apply etriple_ret.
Qed.

(** ** The transitions *)
Inductive transition : ∀ {A : Type}, io A → Prop :=
  | to_decision : transition WaitForDecision
  | to_worker : transition ContinueAfterWorkerResult
  | to_finish status : transition (FinishReview status)
  | to_sol_review : transition WaitForSolReview
  | to_surface_review phase : transition (WaitForQualitySurfaceReview phase)
  | to_approval c : transition (EnterQualitySurfaceApprovalWait c)
  | to_discard : transition DiscardResumeAndWaitForSolReview
  | to_activation : transition ActivateQualitySurfaceApproval
  | to_stop c : transition (EnterStop c)
  | to_resume c : transition (BeginResume c)
  | to_restored_stop c : transition (RestoreResumeStop c)
  | to_complete : transition CompleteLifecycle
  | to_accepted : transition AcceptParentReview
  | to_completed : transition (CompleteParentAwaiting None)
  | to_rotated evaluate : (∀ risk, Preserves eq (evaluate risk)) →
      transition (CompleteParentAwaiting (Some (rotation_of evaluate))).
Lemma transition_inside {A} (op : io A) R W G : [] ∉ W →
  closes_clean → transition op → written_status G → etriple (inside R W G []) op (λ _ _, True) (clean R W G []).
Proof.
  intros Hroot Hc Hop Hw. destruct Hop; try (apply CompleteParentAwaiting_inside; simpl; eauto; done);
  apply etriple_true with (Q := λ _ _, True); revert R W G Hroot Hw; intros R W G Hroot _; revert R W G Hroot;
  lazymatch goal with |- ∀ R W G, _ → etriple _ ?m _ _ => change (atomic m) end;
  auto using WaitForDecision_atomic, ContinueAfterWorkerResult_atomic, FinishReview_atomic,
    WaitForSolReview_atomic, WaitForQualitySurfaceReview_atomic, EnterQualitySurfaceApprovalWait_atomic,
    DiscardResumeAndWaitForSolReview_atomic, ActivateQualitySurfaceApproval_atomic, EnterStop_atomic,
    BeginResume_atomic, RestoreResumeStop_atomic, CompleteLifecycle_atomic, AcceptParentReview_atomic.
Qed.

(** Changes that are never refused as a whole remain so. *)
Definition unlimited (d d' : Disk) : Prop := power d = None → power d' = None.
#[local] Instance unlimited_preorder : PreOrder unlimited.
Proof. split; [by intros d ?|]. unfold unlimited. intros d1 d2 d3. auto. Qed.
#[local] Instance reads_unlimited {A} (m : io A) : Preserves eq m → Preserves unlimited m | 5.
Proof. intros Hm d Hp. by rewrite <- (Hm d). Qed.
#[local] Instance write_unlimited p data mode : Preserves unlimited (writeFileAtomic p data mode).
Proof.
  intros d Hp. unfold writeFileAtomic, mbind, io_bind, MkdirAll, writeJSONAtomic, put_file, spend.
  repeat case_match; simplify_eq; simpl in *; by simplify_option_eq.
Qed.
#[local] Instance remove_unlimited name : Preserves unlimited (RemoveState name).
Proof.
  intros d Hp. unfold RemoveState, mbind, io_bind, attempt, remove_file, spend.
  repeat case_match; simplify_eq; simpl in *; by simplify_option_eq.
Qed.
#[local] Instance Now_unlimited : Preserves unlimited Now.
Proof. by intros d ?. Qed.
#[local] Instance NewUUID_unlimited : Preserves unlimited NewUUID.
Proof. intros d Hp. unfold NewUUID. by case_match. Qed.
Lemma put_unlimited p doc d : unlimited d (put_file p doc d).
Proof. exact (spend_unlimited d). Qed.
#[local] Instance mkdir_unlimited p : Preserves unlimited (MkdirAll p).
Proof. intros d. unfold MkdirAll. destruct (_ || _); [done|exact (spend_unlimited d)]. Qed.
#[local] Instance open_unlimited p : Preserves unlimited (open_append p).
Proof. intros d. unfold open_append. repeat case_match; simpl; first [done|apply put_unlimited]. Qed.
#[local] Instance chmod_unlimited p : Preserves unlimited (chmod600 p).
Proof. intros d. unfold chmod600. case_match; [done|apply put_unlimited]. Qed.
#[local] Instance write_bytes_unlimited p data : Preserves unlimited (write_bytes p data).
Proof.
  induction data as [|c data IH]; intros d; cbn; [done|]. destruct (stopped d); [done|].
  etrans; [apply put_unlimited|apply IH].
Qed.
#[local] Instance append_unlimited p data : Preserves unlimited (appendStateJSONL p data).
Proof. unfold appendStateJSONL, append_file. preserving. Qed.
#[local] Instance stats_unlimited update : Preserves unlimited (UpdateTaskStats update).
Proof. unfold UpdateTaskStats, bootstrapTaskStats, writeTaskStats, loadTaskStats. preserving. Qed.
#[local] Instance status_unlimited status : Preserves unlimited (SetTaskStatus status).
Proof. unfold SetTaskStatus, Write, appendTaskStatusLifecycle, AppendTaskLifecycle. preserving. Qed.
#[local] Instance lease_unlimited : Preserves unlimited AdvanceParentEvidenceLease.
Proof.
  assert (Preserves unlimited advanceParentEvidenceLeaseUnlocked) as Hm
    by (unfold advanceParentEvidenceLeaseUnlocked; preserving).
  intros d. unfold AdvanceParentEvidenceLease, under_ledger_lock. case_bool_decide; [done|apply Hm].
Qed.
#[local] Instance restore_unlimited s : Preserves unlimited (restoreLifecycleFile s).
Proof. unfold restoreLifecycleFile. preserving. Qed.
#[local] Instance restores_unlimited l : Preserves unlimited (restoreSnapshots l).
Proof. induction l; simpl; preserving. Qed.
#[local] Instance rollback_unlimited {A} cause l : Preserves unlimited (rollbackLifecycleFiles (A:=A) cause l).
Proof. unfold rollbackLifecycleFiles. preserving. Qed.
#[local] Instance or_rollback_unlimited {A} (m : io A) l : Preserves unlimited m → Preserves unlimited (or_rollback m l).
Proof. intros. unfold or_rollback. preserving. Qed.
#[local] Instance sol_unlimited : Preserves unlimited WaitForSolReview.
Proof. unfold WaitForSolReview. preserving. Qed.
#[local] Instance save_unlimited c : Preserves unlimited (SaveResumeCheckpoint c).
Proof. unfold SaveResumeCheckpoint. preserving. Qed.
#[local] Instance event_unlimited taskID phase kind origin cause resolved :
  Preserves unlimited (appendParentOutcomeEvent taskID phase kind origin cause resolved).
Proof. unfold appendParentOutcomeEvent, RecordModelCallLog, appendModelCallLog, recordTokenUsage. preserving. Qed.
#[local] Instance resolve_unlimited kind origin cause terminal :
  Preserves unlimited (resolveParentReviewStateWithCompletion kind origin cause terminal).
Proof. unfold resolveParentReviewStateWithCompletion, writeParentReviewState. preserving. Qed.
#[local] Instance outcome_unlimited kind origin cause : Preserves unlimited (RecordParentOutcome kind origin cause).
Proof. unfold RecordParentOutcome. preserving. Qed.
#[local] Instance stop_unlimited c : Preserves unlimited (EnterStop c).
Proof. unfold EnterStop. preserving. Qed.
#[local] Instance rotation_unlimited evaluate risk :
  (∀ risk, Preserves eq (evaluate risk)) → Preserves unlimited (rotation_of evaluate risk).
Proof. intros. unfold rotation_of, commitSessionRotation, writeSessionRotationMarker. preserving. Qed.
#[local] Instance commit_unlimited status clear build :
  from_option (Preserves unlimited) True build → Preserves unlimited (commitParentCompletion status clear build).
Proof.
  intros. unfold commitParentCompletion, rollbackParentCompletion, Touch, Write. destruct build; simpl in *; preserving.
Qed.
Lemma complete_unlimited rotation :
  from_option (λ r, ∀ risk, Preserves unlimited (r risk)) True rotation →
  Preserves unlimited (CompleteParentAwaiting rotation).
Proof.
  intros Hr. unfold CompleteParentAwaiting. preserving. apply commit_unlimited. by destruct rotation; simpl in *.
Qed.
Lemma transition_unlimited {A} (op : io A) : transition op → Preserves unlimited op.
Proof.
  destruct 1; try (apply complete_unlimited; simpl; first [done|intros; apply _]);
  unfold WaitForDecision, ContinueAfterWorkerResult, FinishReview, WaitForQualitySurfaceReview,
    EnterQualitySurfaceApprovalWait, DiscardResumeAndWaitForSolReview, ActivateQualitySurfaceApproval,
    closeApprovedQualitySurfaceReview, ClearResumeCheckpoint, BeginResume, RestoreResumeStop, CompleteLifecycle,
    AcceptParentReview, projectParentCompletionOutcome, Touch, Write; preserving.
  by apply commit_unlimited.
Qed.

(** C4: A transition of the lifecycle is all or nothing.  Let the environment refuse to
    read or write any paths, the same ones throughout the run, and let it refuse
    every change from some change on, or never.  If the transition fails then
    every file of the state - the status, the pending decision, the lease, the
    review and the resume checkpoint - is as it was before, only logs and
    statistics may have changed; or the changes have come to be refused, and then the error
    says that files could not be put back.  (A review that was read can be
    written once closed, the path of the store's directory is not refused, its files are
    plain, and the status is as the store writes it.  The evaluator of a
    completion with a session rotation only reads.) *)
Theorem transition_all_or_nothing {A} (op : io A) d e d' :
  closes_clean → transition op → [] ∉ unwritable d → plain_state (files d) → written_status (files d) →
  op d = (Err e, d') →
  (∀ p, observation p = false → files d' !! p = files d !! p) ∨
  (stopped d' = true ∧ power d ≠ None ∧ reports_rollback e).
Proof.
  intros Hc Hop Hroot Hplain Hw E.
  assert (inside (unreadable d) (unwritable d) (files d) [] d) as Hd by (split; auto).
  pose proof (transition_inside op _ _ (files d) Hroot Hc Hop Hw d Hd) as Ht. rewrite E in Ht.
  destruct Ht as [Ht|[Hs He]]; [left|right].
  - intros p Hp. by destruct (is_files _ _ _ _ _ Ht p Hp) as [|[_ ?%elem_of_nil]].
  - split; [done|]. split; [|done]. intros Hp. pose proof (transition_unlimited op Hop d Hp) as Hp'.
    rewrite E in Hp'. unfold stopped in Hs. simpl in Hp'. by rewrite Hp' in Hs.
Qed.
End Transitions.

(** ** Transitions that fail *)
#[local] Instance no_markers : JSONText SessionRotationMarker Some.
Proof. refine (known_text _ (λ _, "marker") [] _ _); known. Defined.

(** Stopping on a quality gate while the status cannot be written: the
    checkpoint that was saved and the pending decision that was removed are put
    back. *)
Definition refusedDisk : Disk :=
  stateDisk TaskStatusActive [(resumeStateFile, "old"); (pendingDecision, "1")] [statusFile].
(** Completing a task with a rotation of a thread that has no identity: the
    status is complete before the rotation is refused. *)
Definition rotatedReview : ParentReviewState :=
  (exampleReview None) {{ rv_Completion := Some {| co_Terminal := SessionRotationTerminalAccept; co_Risk := RiskLow;
                                                   co_Source := None; co_Review := None |} }}.
Definition namelessRotation (risk : string) : io (option SessionRotationEvaluation) :=
  mret (Some {| rz_ParentThreadID := ""; rz_TaskID := exampleTask; rz_Terminal := SessionRotationTerminalAccept;
                rz_Decision := {| rn_Required := false; rn_Reason := ""; rn_Evidence := [] |};
                rz_AcceptedTasks := 1; rz_AcceptedTasksUnavailable := false; rz_LimitBaselineUpdate := None |}).
Definition rotatedDisk : Disk := stateDisk TaskStatusAwaitingParentCompletion [(parentReviewStateFile, "rotated")] [].

Lemma stateFiles_status status state :
  TrimSpace (status +:+ newline) = status → statusFile ∉ state.*1 → written_status (stateFiles status state).
Proof.
  intros Ht Hn s Hs. unfold stateFiles in Hs. simpl in Hs.
  rewrite lookup_insert_ne, lookup_insert_eq in Hs by done. injection Hs as <-. by rewrite Ht.
Qed.
Lemma refused_stop : is_ok (EnterStop qualityGateStop refusedDisk).1 = false.
Proof. vm_compute. reflexivity. Qed.
Lemma refused_root : [] ∉ unwritable refusedDisk.
Proof. apply (bool_decide_eq_true_1 _). vm_compute. reflexivity. Qed.
Lemma refused_status : written_status (files refusedDisk).
Proof. apply stateFiles_status; [vm_compute; reflexivity|set_solver]. Qed.
Lemma transition_all_or_nothing_witness :
  ∃ e d', EnterStop qualityGateStop refusedDisk = (Err e, d') ∧
    ∀ p, observation p = false → files d' !! p = files refusedDisk !! p.
Proof.
  pose proof refused_stop as Hr. destruct (EnterStop qualityGateStop refusedDisk) as [[[]|e] d'] eqn:E; [done|].
  exists e, d'. split; [done|].
  destruct (transition_all_or_nothing (EnterStop qualityGateStop) refusedDisk e d' example_closes (to_stop _)
    refused_root (stateFiles_plain _ _) refused_status E) as [Hsame|(_ & Hp & _)]; [exact Hsame|by destruct Hp].
Defined.

#[local] Instance rotated_reviews : JSONText ParentReviewState Some.
Proof.
  refine (known_text _ (λ state, if bool_decide (is_Some (rv_Completion state)) then "rotated" else "closed")
    [rotatedReview; closedReview rotatedReview] _ _); known.
Defined.
Definition failedRotation (d : Disk) : result error bool * Disk :=
  CompleteParentAwaiting (Some (rotation_of namelessRotation)) d.
Definition status_after (run : result error bool * Disk) : option Doc := files run.2 !! Path statusFile.
(** The status is put back; where changes are refused after the first four, it is
    not, and the error says so. *)
Lemma rotation_taken_back :
  is_ok (failedRotation rotatedDisk).1 = false ∧
  status_after (failedRotation rotatedDisk) = Some (text (TaskStatusAwaitingParentCompletion +:+ newline)).
Proof. vm_compute. split; reflexivity. Qed.
Lemma rotation_not_taken_back :
  (let run := failedRotation (rotatedDisk {{ power := Some 4 }}) in
  status_after run = Some (text (TaskStatusComplete +:+ newline)) ∧
  match run.1 with Err (Errorf format _) => format ∈ rollback_formats | Ok _ => False end).
Proof. vm_compute. split; [reflexivity|]. repeat constructor. Qed.
