(* ===== verification/RotationLogic.v ===== *)
(** * Session rotation as a machine

    The marker files refine one small machine per thread of the parent: a
    directive is pending, claimed, bound to a new thread, and acknowledged by it.
    An operation moves one thread by one step or none, whatever the environment
    refuses. *)
From S2P Require Import Prelude GoStrings GoText GoTime TimeFormat ControllerTypes ControllerStore MutationControl Packet SessionTypes SessionStore ResumeCheckpoint ParentReview SessionRotation Lifecycle SessionLogic ReviewLogic SessionExamples.

(** ** The machine *)
Inductive phase :=
  | Idle
  | Pending (directive : string)
  | Claimed (directive claim target : string)
  | Bound (directive claim target thread : string)
  | Issued (directive thread : string).
Implicit Types (m : SessionRotationMarker) (M : gmap string SessionRotationMarker) (d : Disk) (id : string).
Definition phaseOf m : phase :=
  match mk_Directive m with
  | None => Idle
  | Some directive =>
      let did := rd_DirectiveID directive in
      match mk_Issued m, mk_Claim m with
      | Some issued, _ => Issued did (is_BoundThreadID issued)
      | None, None => Pending did
      | None, Some claim =>
          if bool_decide (rk_BoundThreadID claim = "") then Claimed did (rk_ClaimID claim) (rk_TargetTaskID claim)
          else Bound did (rk_ClaimID claim) (rk_TargetTaskID claim) (rk_BoundThreadID claim)
      end
  end.
Definition stateName (p : phase) : string :=
  match p with
  | Idle => ""
  | Pending _ => SessionRotationStatePending
  | Claimed _ _ _ => SessionRotationStateClaimed
  | Bound _ _ _ _ => SessionRotationStateBound
  | Issued _ _ => SessionRotationStateIssued
  end.
Definition phases M id : phase := from_option phaseOf Idle (M !! id).

Inductive operation :=
  | Claim (parent directive : string)
  | Release (parent directive claim : string) (creation : SessionRotationCreationResult)
  | Bind (parent directive claim thread : string)
  | Acknowledge (claim thread : string)
  | Commit (evaluation : option SessionRotationEvaluation)
  | Observe (thread : string) (reading : SessionLimitReading)
  | Decline.
(** What an operation does to the thread it is about. *)
Inductive step : operation → string → phase → phase → Prop :=
  | claims parent directive claim target :
      ValidGeneratedUUID claim = true → ValidGeneratedUUID target = true →
      step (Claim parent directive) parent (Pending directive) (Claimed directive claim target)
  | releases parent directive claim target creation :
      rx_Outcome creation = SessionRotationCreationOutcomeFailed → rx_TargetTaskID creation = target →
      step (Release parent directive claim creation) parent (Claimed directive claim target) (Pending directive)
  | binds parent directive claim target thread :
      ValidUUIDFormat thread = true → thread ≠ parent →
      step (Bind parent directive claim thread) parent (Claimed directive claim target) (Bound directive claim target thread)
  | acknowledges parent directive claim target thread :
      step (Acknowledge claim thread) parent (Bound directive claim target thread) (Issued directive thread)
  | commits evaluation p directive :
      rn_Required (rz_Decision evaluation) = true → (p = Idle ∨ ∃ old thread, p = Issued old thread) →
      step (Commit (Some evaluation)) (rz_ParentThreadID evaluation) p (Pending directive)
  | declines parent directive : step Decline parent (Pending directive) Idle.

(** ** Markers *)
Lemma validMarker_records m : validateMarker m = Ok () → validateStateRecords m = Ok () ∧ ValidUUIDFormat (mk_ParentThreadID m) = true.
Proof.
  intros Hv. unfold validateMarker in Hv.
  destruct (negb (bool_decide (mk_Version m = _))); [done|].
  destruct (ValidUUIDFormat (mk_ParentThreadID m)) eqn:Hp; simpl in Hv; [|done].
  apply result_bind_Ok in Hv as ([] & Hl & _). unfold validateLifecycle in Hl.
  by apply result_bind_Ok in Hl as ([] & Hs & _).
Qed.
(** The state of a valid marker names its phase. *)
Lemma state_phase m : validateMarker m = Ok () → mk_State m = stateName (phaseOf m).
Proof.
  intros [Hv _]%validMarker_records. unfold validateStateRecords in Hv. unfold phaseOf.
  repeat (case_bool_decide; [|]); try done.
  - unfold validateNoSessionRotationRecords in Hv. by destruct (mk_Directive m), (mk_Claim m), (mk_Issued m).
  - unfold validatePendingSessionRotationRecords in Hv. by destruct (mk_Directive m), (mk_Claim m), (mk_Issued m).
  - unfold validateClaimedSessionRotationRecords in Hv. destruct (mk_Directive m), (mk_Claim m), (mk_Issued m); try done.
    case_bool_decide; [done|discriminate Hv].
  - unfold validateBoundSessionRotationRecords in Hv. destruct (mk_Directive m), (mk_Claim m) as [c|], (mk_Issued m); try done.
    destruct (decide (rk_BoundThreadID c = "")) as [Hb|Hb]; [by rewrite Hb in Hv|]. by rewrite bool_decide_false.
  - unfold validateIssuedSessionRotationRecords in Hv. by destruct (mk_Directive m), (mk_Issued m), (mk_Claim m).
Qed.

Lemma outcome_needs_directive m outcome :
  mk_LastCreationOutcome m = Some outcome → validateMarker m = Ok () → hasDirective m (rj_DirectiveID outcome) = true.
Proof.
  intros Ho Hv. unfold validateMarker in Hv.
  destruct (negb (bool_decide (mk_Version m = _))); [done|]. destruct (negb (ValidUUIDFormat _)); [done|].
  apply result_bind_Ok in Hv as ([] & Hl & _). unfold validateLifecycle in Hl.
  apply result_bind_Ok in Hl as ([] & _ & Hl). apply result_bind_Ok in Hl as ([] & _ & Hl).
  unfold validateCreationOutcomeAndAcceptedTasks in Hl. apply result_bind_Ok in Hl as ([] & Hc & _).
  unfold validateCreationOutcome in Hc. rewrite Ho in Hc. unfold hasDirective.
  destruct (mk_Directive m) as [x|]; [|done]. case_bool_decide as Hx; [by rewrite Hx, bool_decide_true|done].
Qed.
Lemma has_directive m directive directive' :
  hasDirective m directive = true → hasDirective m directive' = true → directive = directive'.
Proof. unfold hasDirective. destruct (mk_Directive m); [|done]. intros ?%bool_decide_eq_true ?%bool_decide_eq_true. congruence. Qed.

Section Phases.
Context (m : SessionRotationMarker) (Hvalid : validateMarker m = Ok ()).
Lemma idle_phase : mk_State m = "" → phaseOf m = Idle.
Proof. rewrite (state_phase m Hvalid). by destruct (phaseOf m). Qed.
Lemma pending_phase directive : mk_State m = SessionRotationStatePending → hasDirective m directive = true → phaseOf m = Pending directive.
Proof.
  rewrite (state_phase m Hvalid). unfold hasDirective, phaseOf. destruct (mk_Directive m) as [x|]; [|done]. intros Hs Hd.
  apply bool_decide_eq_true in Hd as <-. destruct (mk_Issued m); [done|].
  destruct (mk_Claim m) as [c|]; [|done]. by destruct (bool_decide (rk_BoundThreadID c = "")).
Qed.
Lemma claimed_phase directive claim :
  mk_State m = SessionRotationStateClaimed → hasDirective m directive = true → mk_Claim m = Some claim →
  phaseOf m = Claimed directive (rk_ClaimID claim) (rk_TargetTaskID claim).
Proof.
  rewrite (state_phase m Hvalid). unfold hasDirective, phaseOf. destruct (mk_Directive m) as [x|]; [|done]. intros Hs Hd Hc. rewrite Hc in *.
  apply bool_decide_eq_true in Hd as <-. destruct (mk_Issued m); [done|].
  by destruct (bool_decide (rk_BoundThreadID claim = "")).
Qed.
Lemma bound_phase directive claim :
  mk_State m = SessionRotationStateBound → hasDirective m directive = true → mk_Claim m = Some claim →
  phaseOf m = Bound directive (rk_ClaimID claim) (rk_TargetTaskID claim) (rk_BoundThreadID claim).
Proof.
  rewrite (state_phase m Hvalid). unfold hasDirective, phaseOf. destruct (mk_Directive m) as [x|]; [|done]. intros Hs Hd Hc. rewrite Hc in *.
  apply bool_decide_eq_true in Hd as <-. destruct (mk_Issued m); [done|].
  by destruct (bool_decide (rk_BoundThreadID claim = "")).
Qed.
Lemma bound_directive : mk_State m ≠ "" → ∃ x, mk_Directive m = Some x ∧ hasDirective m (rd_DirectiveID x) = true.
Proof.
  rewrite (state_phase m Hvalid). unfold hasDirective, phaseOf. destruct (mk_Directive m) as [x|]; [|done]. intros _.
  exists x. by rewrite bool_decide_true.
Qed.
End Phases.
Lemma NewUUID_fresh (P : Disk → Prop) `{!Quiet P} : triple P NewUUID (λ id d, ValidGeneratedUUID id = true ∧ P d) P.
Proof.
  intros d Hd. pose proof (NewUUID_valid d) as Hv. pose proof (NewUUID_triple P d Hd) as Ht.
  destruct (NewUUID d) as [[id|e] d']; simpl in *; auto.
Qed.

(** ** The marker files *)
Section Refinement.
Context `{Unicode, MachineEncoder, ResumeText, JSONText SessionRotationMarker Some, JSONText ParentCodexIdentity Some,
          JSONText pendingSessionRotationRetirementStage Some}.

Definition holds M d : Prop :=
  ∀ id, files d !! SessionRotationMarkerPath id = (λ m, text (marshal m +:+ newline)) <$> M !! id.
Definition formed M : Prop := map_Forall (λ id m, mk_ParentThreadID m = id ∧ validateMarker m = Ok ()) M.
Definition readable M : Prop := map_Forall (λ _ m, clean m) M.
#[local] Instance holds_quiet M : Quiet (holds M).
Proof. intros d d' (_ & _ & _ & Hf) Hd id. by rewrite Hf. Qed.
#[local] Instance marker_path_inj : Inj (=) (=) SessionRotationMarkerPath.
Proof. intros id id' [= E]. by apply app_inj_tail_str in E. Qed.

Lemma Load_triple M id :
  readable M → formed M → triple (holds M) (LoadSessionRotationMarker id) (λ found d, found = M !! id ∧ holds M d) (holds M).
Proof.
  intros Hr Hf. unfold LoadSessionRotationMarker. apply triple_guard; [done|]. intros _ d Hd.
  unfold mbind, io_bind, attempt. rewrite ReadFile_eq. unfold content. case_bool_decide; [done|]. rewrite (Hd id).
  destruct (M !! id) as [m|] eqn:Em; simpl; [|done]. unfold decodeSessionRotationMarker, lift.
  rewrite (unmarshal_line m m (Hr _ _ Em) eq_refl). by rewrite (proj2 (Hf _ _ Em)).
Qed.
(** What only reads. *)
#[export] Instance Load_reads id : Preserves eq (LoadSessionRotationMarker id).
Proof. unfold LoadSessionRotationMarker. preserving. Qed.
#[export] Instance loadMarkers_reads names : Preserves eq (loadMarkers names).
Proof. induction names; simpl; preserving. Qed.
#[export] Instance load_all_reads : Preserves eq loadSessionRotationMarkers.
Proof. unfold loadSessionRotationMarkers. preserving. Qed.
#[export] Instance Incomplete_reads : Preserves eq IncompleteSessionRotations.
Proof. unfold IncompleteSessionRotations. preserving. Qed.
#[export] Instance load_stage_reads : Preserves eq loadPendingSessionRotationRecommendationRetirement.
Proof. unfold loadPendingSessionRotationRecommendationRetirement. preserving. Qed.
#[export] Instance validate_set_reads stage : Preserves eq (validatePendingSessionRotationRecommendationSet stage).
Proof. unfold validatePendingSessionRotationRecommendationSet. preserving. Qed.
(** The markers of the directory are among those of the map. *)
Definition loaded M (markers : list SessionRotationMarker) : Prop := Forall (λ m, M !! mk_ParentThreadID m = Some m) markers.
Lemma loadMarkers_triple M names :
  readable M → formed M → triple (holds M) (loadMarkers names) (λ markers d, loaded M markers ∧ holds M d) (holds M).
Proof.
  intros Hr Hf. induction names as [|name names IH]; simpl; [by apply triple_ret; intros; split; [constructor|]|].
  case_bool_decide; [done|]. eapply triple_bind; [by apply Load_triple|]. intros found. apply triple_pure. intros ->.
  eapply triple_bind; [exact IH|]. intros rest. apply triple_pure. intros Hl. apply triple_ret. intros d Hd.
  split; [|done]. destruct (M !! _) as [m|] eqn:Em; [|done]. constructor; [|done]. by rewrite (proj1 (Hf _ _ Em)).
Qed.
Lemma load_all_triple M :
  readable M → formed M →
  triple (holds M) loadSessionRotationMarkers (λ markers d, loaded M markers ∧ holds M d) (holds M).
Proof.
  intros Hr Hf. unfold loadSessionRotationMarkers. eapply triple_bind; [apply total_attempt, reads_triple, _|].
  intros [names|e]; [by apply loadMarkers_triple|]. destruct (IsNotExist e); [|by apply triple_fail].
  apply triple_ret. intros d Hd. by split; [constructor|].
Qed.
Lemma findClaim_found M claimID markers found m :
  loaded M markers → (∀ m', found = Some m' → M !! mk_ParentThreadID m' = Some m' ∧ hasClaim m' claimID = true) →
  findClaim claimID markers found = Ok (Some m) → M !! mk_ParentThreadID m = Some m ∧ hasClaim m claimID = true.
Proof.
  intros Hl. revert found. induction Hl as [|m' markers Hm Hl IH]; intros found Hfound E; simpl in E.
  { injection E as ->. by apply Hfound. }
  destruct (hasClaim m' claimID) eqn:Hc; [|by eapply IH].
  destruct (bool_decide _); [done|]. eapply IH; [|exact E]. by intros ? [= <-].
Qed.
Lemma find_triple M claimID :
  readable M → formed M →
  triple (holds M) (findSessionRotationClaim claimID)
    (λ m d, (M !! mk_ParentThreadID m = Some m ∧ hasClaim m claimID = true) ∧ holds M d) (holds M).
Proof.
  intros Hr Hf. unfold findSessionRotationClaim. eapply triple_bind; [by apply load_all_triple|]. intros markers.
  apply triple_pure. intros Hl. destruct (findClaim claimID markers None) as [found|e] eqn:E; [|by intros d Hd].
  eapply (triple_bind _ (λ x d, x = found ∧ holds M d)); [by intros d Hd|]. intros ?. apply triple_pure. intros ->.
  destruct found as [m|]; [|by apply triple_fail]. apply triple_ret. intros d Hd. split; [|done].
  by eapply findClaim_found; [exact Hl| |exact E].
Qed.
(** Writing a marker stores it, with the time, if it is valid. *)
Lemma write_triple M m :
  triple (holds M) (writeSessionRotationMarker m)
    (λ _ d, ∃ now, let m' := m {{ mk_UpdatedAt := now }} in
       validateMarker m' = Ok () ∧ holds (<[mk_ParentThreadID m := m']> M) d) (holds M).
Proof.
  unfold writeSessionRotationMarker. eapply triple_bind; [apply Now_triple, _|]. intros now. cbv zeta.
  set (m' := m {{ mk_UpdatedAt := _ }}). destruct (validateMarker m') as [[]|e] eqn:Ev; [|by intros d Hd].
  eapply (triple_bind _ (λ _, holds M)); [by intros d Hd|]. intros _. unfold writeFileAtomic.
  eapply triple_bind; [apply MkdirAll_triple, _|]. intros [] d Hd.
  unfold writeJSONAtomic. destruct (_ || _); [done|]. case_bool_decide; [|done].
  exists (FormatRFC3339Nano now). fold m'. split; [done|]. intros id. simpl.
  destruct (decide (mk_ParentThreadID m = id)) as [<-|Hn].
  - by rewrite !lookup_insert_eq.
  - rewrite !lookup_insert_ne; [apply Hd|done|]. by intros E%(inj _).
Qed.

(** ** The operations *)
Definition run (op : operation) : io (option SessionRotationClaim) :=
  match op with
  | Claim parent directive => claim ← ClaimSessionRotation parent directive; mret (Some claim)
  | Release parent directive claim creation => _ ← ReleaseSessionRotationClaim parent directive claim creation; mret None
  | Bind parent directive claim thread => _ ← BindSessionRotationClaim parent directive claim thread; mret None
  | Acknowledge claim thread => _ ← AcknowledgeSessionRotationClaim claim thread; mret None
  | Commit evaluation => _ ← commitSessionRotation evaluation; mret None
  | Observe thread reading => _ ← SaveSessionLimitBaseline thread reading; mret None
  | Decline => _ ← commitPendingSessionRotationRecommendationRetirement; mret None
  end.
Definition moved (op : operation) M M' : Prop := ∀ id, phases M' id = phases M id ∨ step op id (phases M id) (phases M' id).
(** The marker of the thread records that creating the thread of a directive failed. *)
Definition failed M id (directive : string) : Prop :=
  ∃ m outcome, M !! id = Some m ∧ mk_LastCreationOutcome m = Some outcome ∧ rj_DirectiveID outcome = directive.
Definition remembers M M' : Prop := ∀ id directive, failed M id directive → failed M' id directive.
(** What a successful operation promises. *)
Definition achieved (op : operation) (answer : option SessionRotationClaim) M : Prop :=
  match op with
  | Claim parent directive =>
      ∃ claim, answer = Some claim ∧
        (phases M parent = Claimed directive (rk_ClaimID claim) (rk_TargetTaskID claim) ∨
         phases M parent = Bound directive (rk_ClaimID claim) (rk_TargetTaskID claim) (rk_BoundThreadID claim))
  | Release parent directive _ _ => phases M parent = Pending directive ∧ failed M parent directive
  | Bind parent directive claim thread => ∃ target, phases M parent = Bound directive claim target thread
  | Acknowledge claim thread => ∃ parent directive, phases M parent = Issued directive thread
  | Commit (Some evaluation) =>
      rn_Required (rz_Decision evaluation) = true →
      phases M (rz_ParentThreadID evaluation) ≠ Idle ∧
      ∀ old thread, phases M (rz_ParentThreadID evaluation) ≠ Issued old thread
  | _ => True
  end.
Definition ended (op : operation) M d : Prop := ∃ M', holds M' d ∧ formed M' ∧ moved op M M' ∧ remembers M M'.
Definition finished (op : operation) M (answer : option SessionRotationClaim) d : Prop :=
  ∃ M', holds M' d ∧ formed M' ∧ moved op M M' ∧ remembers M M' ∧ achieved op answer M'.
Lemma ended_same op M d : formed M → holds M d → ended op M d.
Proof. intros Hf Hd. exists M. split; [done|]. split; [done|]. split; [by left|by intros ?]. Qed.
Lemma finished_same op M answer d : formed M → achieved op answer M → holds M d → finished op M answer d.
Proof. intros Hf Ha Hd. exists M. split; [done|]. split; [done|]. split; [by left|]. by split; [intros ?|]. Qed.
Lemma phases_insert M id m id' : phases (<[id := m]> M) id' = if decide (id = id') then phaseOf m else phases M id'.
Proof.
  unfold phases. case_decide as E; [by subst id'; rewrite lookup_insert_eq|by rewrite lookup_insert_ne].
Qed.
Lemma moved_insert op M id m :
  (phaseOf m = phases M id ∨ step op id (phases M id) (phaseOf m)) → moved op M (<[id := m]> M).
Proof. intros Hm id'. rewrite phases_insert. case_decide as E; [by subst id'|by left]. Qed.
Lemma formed_insert M m : formed M → validateMarker m = Ok () → formed (<[mk_ParentThreadID m := m]> M).
Proof. intros Hf Hv. by apply map_Forall_insert_2. Qed.
(** A marker that replaces the one of [id] and has the record of its failed creation. *)
Definition keeps_record M id m : Prop :=
  ∀ old outcome, M !! id = Some old → mk_LastCreationOutcome old = Some outcome →
    ∃ outcome', mk_LastCreationOutcome m = Some outcome' ∧ rj_DirectiveID outcome' = rj_DirectiveID outcome.
Lemma keeps_same M id m : (∀ old, M !! id = Some old → mk_LastCreationOutcome m = mk_LastCreationOutcome old) → keeps_record M id m.
Proof. intros Hm old outcome Hold Ho. rewrite (Hm old Hold). by exists outcome. Qed.
Lemma keeps_marked M id old m :
  M !! id = Some old → mk_LastCreationOutcome m = mk_LastCreationOutcome old → keeps_record M id m.
Proof. intros Eo E. apply keeps_same. intros old' Eo'. congruence. Qed.
Lemma keeps_default M id fresh : keeps_record M id (default fresh (M !! id)).
Proof. apply keeps_same. by intros old ->. Qed.
Lemma remembers_insert M M' id m : remembers M M' → keeps_record M id m → remembers M (<[id := m]> M').
Proof.
  intros Hm Hk id' directive (old & o & Em & Ho & Hd). destruct (decide (id = id')) as [<-|Hn].
  - destruct (Hk old o Em Ho) as (o' & Ho' & Hd'). exists m, o'. rewrite lookup_insert_eq. by rewrite Hd'.
  - destruct (Hm id' directive) as (m' & o' & H'); [by exists old, o|]. exists m', o'. by rewrite lookup_insert_ne.
Qed.
(** An operation that ends with a write of the marker of [id]. *)
Lemma write_finishes op M id m answer :
  formed M → mk_ParentThreadID m = id → keeps_record M id m →
  (∀ now, let m' := m {{ mk_UpdatedAt := now }} in
     validateMarker m' = Ok () →
     (phaseOf m' = phases M id ∨ step op id (phases M id) (phaseOf m')) ∧ achieved op answer (<[id := m']> M)) →
  triple (holds M) (writeSessionRotationMarker m) (λ _, finished op M answer) (ended op M).
Proof.
  intros Hf Hid Hk Hm.
  eapply triple_consequence; [apply write_triple|done| |]; [|intros d; by apply ended_same].
  intros [] d (now & Hv & Hd). destruct (Hm now Hv) as [Hs Ha]. exists (<[mk_ParentThreadID m := m {{ mk_UpdatedAt := now }}]> M).
  split; [done|]. split; [exact (formed_insert M _ Hf Hv)|]. rewrite Hid.
  split; [by apply moved_insert|]. split; [by apply remembers_insert; [intros ?|]|done].
Qed.
Lemma phases_at M id m : M !! id = Some m → phases M id = phaseOf m.
Proof. intros E. unfold phases. by rewrite E. Qed.

Section Operations.
Context M (Hr : readable M) (Hf : formed M).
Lemma marker_at id m : M !! id = Some m → mk_ParentThreadID m = id ∧ validateMarker m = Ok ().
Proof. apply Hf. Qed.
Hint Resolve ended_same : core.
(** Reading the marker of a thread first. *)
Lemma loading {A} op id (f : option SessionRotationMarker → io A) Q :
  triple (holds M) (f (M !! id)) Q (ended op M) → triple (holds M) (LoadSessionRotationMarker id ≫= f) Q (ended op M).
Proof.
  intros Ht. eapply triple_bind; [eapply triple_consequence; [by apply Load_triple|done|done|auto]|].
  intros found. apply triple_pure. by intros ->.
Qed.
Lemma fresh_id op : triple (holds M) NewUUID (λ id d, ValidGeneratedUUID id = true ∧ holds M d) (ended op M).
Proof. eapply triple_consequence; [apply (NewUUID_fresh (holds M))|done|done|auto]. Qed.
Lemma Claim_triple parent directive :
  triple (holds M) (ClaimSessionRotation parent directive) (λ claim, finished (Claim parent directive) M (Some claim))
    (ended (Claim parent directive) M).
Proof.
  apply loading. destruct (M !! parent) as [m|] eqn:Em; [|by apply triple_fail; auto].
  destruct (marker_at _ _ Em) as [Hp Hv]. apply triple_guard; [auto|]. intros Hdir. bool_simp.
  destruct (reusableSessionRotationClaim m parent) as [claim|] eqn:Er.
  - apply triple_ret. intros d. apply finished_same; [done|]. exists claim. split; [done|]. rewrite (phases_at _ _ _ Em).
    unfold reusableSessionRotationClaim in Er. destruct (_ && _) eqn:Es in Er; [done|].
    destruct (mk_Claim m) as [c|] eqn:Ec; [|done]. case_bool_decide; [|done]. injection Er as <-.
    apply andb_false_iff in Es as [Es|Es]; bool_simp; [left; by apply claimed_phase|right; by apply bound_phase].
  - apply triple_guard; [auto|]. intros Hs. bool_simp.
    eapply triple_bind; [apply fresh_id|]. intros claimID. apply triple_pure. intros Hc.
    eapply triple_bind; [apply fresh_id|]. intros target. apply triple_pure. intros Ht.
    eapply triple_bind; [apply Now_triple, _|]. intros now. cbv zeta.
    set (claim := {| rk_ClaimID := claimID |}).
    eapply (triple_bind _ (λ _, finished (Claim parent directive) M (Some claim))); [|intros []; by apply triple_ret].
    apply (write_finishes _ _ parent); [done|done|by apply (keeps_marked _ _ _ _ Em)|]. intros at_ m' Hv'.
    assert (phaseOf m' = Claimed directive claimID target) as Hph by (by apply (claimed_phase m' Hv' directive claim)).
    split.
    + right. rewrite Hph, (phases_at _ _ _ Em), (pending_phase m Hv directive) by done. by constructor.
    + exists claim. split; [done|]. left. rewrite phases_insert, decide_True by done. exact Hph.
Qed.
(** The thread of a claim: its marker has the directive and the claim. *)
Lemma Release_triple parent directive claim creation :
  triple (holds M) (ReleaseSessionRotationClaim parent directive claim creation)
    (λ _, finished (Release parent directive claim creation) M None) (ended (Release parent directive claim creation) M).
Proof.
  apply loading. destruct (M !! parent) as [m|] eqn:Em; [|by apply triple_fail; auto].
  destruct (marker_at _ _ Em) as [Hp Hv]. destruct (mk_Claim m) as [c|] eqn:Ec; [|by apply triple_fail; auto].
  apply triple_guard; [auto|]. intros Hg. apply triple_guard; [auto|]. intros Hs. bool_simp. subst claim.
  destruct (validateForRelease creation parent directive (rk_ClaimID c) (rk_TargetTaskID c)) as [[]|e] eqn:Evr;
    [|by intros d Hd; apply ended_same].
  assert (rx_Outcome creation = SessionRotationCreationOutcomeFailed ∧ rx_DirectiveID creation = directive ∧
          rx_TargetTaskID creation = rk_TargetTaskID c) as (Ho & Hd & Ht).
  { unfold validateForRelease, validateSessionRotationCreationIdentity in Evr. result_inv Evr. by bool_simp. }
  eapply (triple_bind _ (λ _, holds M)); [by intros d ?|]. intros _.
  eapply triple_bind; [apply Now_triple, _|]. intros now. apply (write_finishes _ _ parent); [done|done| |].
  { intros old outcome Eold Hold. rewrite Em in Eold. injection Eold as <-. eexists. split; [reflexivity|]. cbn.
    rewrite Hd. apply (has_directive m); [done|by apply outcome_needs_directive]. }
  intros at_ m' Hv'. assert (phaseOf m' = Pending directive) as Hph by (by apply (pending_phase m' Hv')). split.
  - right. rewrite Hph, (phases_at _ _ _ Em), (claimed_phase m Hv directive c) by done. by constructor.
  - cbn [achieved]. rewrite phases_insert, decide_True by done. split; [exact Hph|].
    eexists m', _. rewrite lookup_insert_eq. split; [done|]. split; [reflexivity|exact Hd].
Qed.
Lemma Bind_triple parent directive claim thread :
  triple (holds M) (BindSessionRotationClaim parent directive claim thread)
    (λ _, finished (Bind parent directive claim thread) M None) (ended (Bind parent directive claim thread) M).
Proof.
  apply triple_guard; [auto|]. intros Hth. bool_simp.
  apply loading. destruct (M !! parent) as [m|] eqn:Em; [|by apply triple_fail; auto].
  destruct (marker_at _ _ Em) as [Hp Hv]. destruct (mk_Claim m) as [c|] eqn:Ec; [|by apply triple_fail; auto].
  apply triple_guard; [auto|]. intros Hg. bool_simp. subst claim. destruct (_ && _) eqn:Eb.
  - bool_simp. subst thread. apply triple_ret. intros d. apply finished_same; [done|]. exists (rk_TargetTaskID c).
    rewrite (phases_at _ _ _ Em). by apply bound_phase.
  - apply triple_guard; [auto|]. intros Hs. bool_simp. eapply triple_bind; [apply Now_triple, _|]. intros now. cbv zeta.
    set (c' := c {{ rk_BoundThreadID := thread; rk_BoundAt := _ }}).
    apply (write_finishes _ _ parent); [done|done|by apply (keeps_marked _ _ _ _ Em)|]. intros at_ m' Hv'.
    assert (phaseOf m' = Bound directive (rk_ClaimID c) (rk_TargetTaskID c) thread) as Hph by (by apply (bound_phase m' Hv' directive c')).
    split.
    + right. rewrite Hph, (phases_at _ _ _ Em), (claimed_phase m Hv directive c) by done. by constructor.
    + exists (rk_TargetTaskID c). rewrite phases_insert, decide_True by done. exact Hph.
Qed.
Lemma Observe_triple thread reading :
  triple (holds M) (SaveSessionLimitBaseline thread reading) (λ _, finished (Observe thread reading) M None)
    (ended (Observe thread reading) M).
Proof.
  unfold SaveSessionLimitBaseline. apply loading. set (m := default _ _).
  assert (mk_ParentThreadID m = thread ∧ phaseOf m = phases M thread) as [Hp Hph].
  { unfold m, phases. destruct (M !! thread) as [m0|] eqn:Em; [|done]. by destruct (marker_at _ _ Em). }
  destruct (match mk_LimitBaseline m with Some _ => _ | None => _ end).
  - apply triple_ret. intros d. by apply finished_same.
  - apply (write_finishes _ _ thread); [done|done|exact (keeps_default M thread _)|]. intros at_ m' Hv'. split; [left; exact Hph|done].
Qed.
Lemma Acknowledge_triple claim thread :
  triple (holds M) (AcknowledgeSessionRotationClaim claim thread) (λ _, finished (Acknowledge claim thread) M None)
    (ended (Acknowledge claim thread) M).
Proof.
  unfold AcknowledgeSessionRotationClaim.
  eapply triple_bind; [eapply triple_consequence; [by apply find_triple|done|done|auto]|]. intros m.
  apply triple_pure. intros [Em Hc]. destruct (marker_at _ _ Em) as [_ Hv]. cbv zeta.
  unfold hasClaim in Hc. destruct (mk_Claim m) as [c|] eqn:Ec; [|done]. bool_simp. subst claim.
  destruct (match mk_Issued m with Some _ => _ | None => _ end) eqn:Ei.
  - apply triple_ret. intros d. apply finished_same; [done|]. destruct (mk_Issued m) as [i|] eqn:Eis; [|done]. bool_simp. subst thread.
    assert (mk_State m ≠ "") as Hn by (match goal with Hx : mk_State m = _ |- _ => by rewrite Hx end). destruct (bound_directive m Hv Hn) as (x & Hx & _).
    exists (mk_ParentThreadID m), (rd_DirectiveID x). rewrite (phases_at _ _ _ Em). unfold phaseOf. by rewrite Hx, Eis.
  - apply triple_guard; [auto|]. intros Hs. bool_simp. subst thread.
    eapply triple_bind; [apply ReadOr_triple|]. intros taskID. apply triple_guard; [auto|]. intros _.
    eapply triple_bind; [apply total_attempt, reads_triple; unfold CurrentParentCodexIdentity, readParentCodexIdentity; preserving|].
    intros identity. cbv zeta. apply triple_guard; [auto|]. intros _. eapply triple_bind; [apply Now_triple, _|]. intros now.
    apply (write_finishes _ _ (mk_ParentThreadID m)); [done|done|by apply (keeps_marked _ _ _ _ Em)|]. intros at_ m' Hv'.
    assert (mk_State m ≠ "") as Hn by (match goal with Hx : mk_State m = _ |- _ => by rewrite Hx end). destruct (bound_directive m Hv Hn) as (x & Hx & Hdir).
    assert (phaseOf m' = Issued (rd_DirectiveID x) (rk_BoundThreadID c)) as Hph by (unfold phaseOf; change (mk_Directive m') with (mk_Directive m); by rewrite Hx).
    split.
    + right. rewrite Hph, (phases_at _ _ _ Em), (bound_phase m Hv _ c ltac:(assumption) Hdir Ec). constructor.
    + exists (mk_ParentThreadID m), (rd_DirectiveID x). by rewrite phases_insert, decide_True.
Qed.
Lemma Commit_triple evaluation :
  triple (holds M) (commitSessionRotation evaluation) (λ _, finished (Commit evaluation) M None) (ended (Commit evaluation) M).
Proof.
  destruct evaluation as [ev|]; [|apply triple_ret; intros d; by apply finished_same].
  unfold commitSessionRotation. apply triple_guard; [auto|]. intros _. apply triple_guard; [auto|]. intros _. apply loading.
  set (m := default _ _). cbv zeta.
  assert (mk_ParentThreadID m = rz_ParentThreadID ev ∧ phaseOf m = phases M (rz_ParentThreadID ev) ∧
          mk_State m = stateName (phaseOf m)) as (Hp & Hph & Hst).
  { unfold m, phases. destruct (M !! _) as [m0|] eqn:Em; [|done]. destruct (marker_at _ _ Em) as [Hp Hv].
    split; [exact Hp|]. split; [done|]. by apply (state_phase m0). }
  eapply triple_bind; [apply Now_triple, _|]. intros evaluatedAt. match goal with |- context [mk_State ?x] => set (m1 := x) end.
  destruct (rn_Required (rz_Decision ev) && _) eqn:Eq.
  - apply andb_true_iff in Eq as [Hreq Hns]. eapply triple_bind; [apply fresh_id|]. intros directive. apply triple_pure. intros _.
    eapply triple_bind; [apply Now_triple, _|]. intros createdAt.
    apply (write_finishes _ _ (rz_ParentThreadID ev)); [done|done|exact (keeps_default M _ _)|]. intros at_ m' Hv'.
    assert (phaseOf m' = Pending directive) as Hph' by done. split.
    + right. rewrite Hph', <-Hph. constructor; [done|]. bool_simp. change (mk_State m1) with (mk_State m) in Hns.
      rewrite Hst in Hns. destruct (phaseOf m); eauto; exfalso; apply Hns; simpl; set_solver.
    + intros _. rewrite phases_insert, decide_True, Hph' by done. done.
  - apply (write_finishes _ _ (rz_ParentThreadID ev)); [done|done|exact (keeps_default M _ _)|]. intros at_ m' Hv'.
    assert (phaseOf m' = phaseOf m) as Hph' by done. split; [left; by rewrite Hph'|].
    intros Hreq. rewrite phases_insert, decide_True, Hph' by done. rewrite Hreq, andb_true_l in Eq.
    apply negb_false_iff, bool_decide_eq_true in Eq. change (mk_State m1) with (mk_State m) in Eq. rewrite Hst in Eq.
    destruct (phaseOf m); simpl in Eq; try done; set_solver.
Qed.
Definition recommended (markers : list SessionRotationMarker) : Prop :=
  Forall (λ m, M !! mk_ParentThreadID m = Some m ∧ mk_State m = SessionRotationStatePending ∧ ∃ directive, phaseOf m = Pending directive) markers.
Lemma recommended_triple recommendations :
  triple (holds M) (loadPendingSessionRotationRecommendationMarkers recommendations)
    (λ markers d, recommended markers ∧ holds M d) (holds M).
Proof.
  induction recommendations as [|r recommendations IH]; simpl; [apply triple_ret; intros d Hd; by split; [constructor|]|].
  eapply triple_bind; [by apply Load_triple|]. intros found. apply triple_pure. intros ->.
  destruct (M !! rr_ParentThreadID r) as [m|] eqn:Em; [|by apply triple_fail]. destruct (marker_at _ _ Em) as [Hp Hv].
  apply triple_guard; [done|]. intros Hg. bool_simp. eapply triple_bind; [exact IH|]. intros rest. apply triple_pure. intros Hrest.
  apply triple_ret. intros d Hd. split; [|done]. constructor; [|done]. rewrite Hp. split; [done|]. split; [done|].
  exists (rr_DirectiveID r). by apply pending_phase.
Qed.
Lemma retire_triple markers :
  recommended markers → triple (ended Decline M) (retireMarkers markers) (λ _, ended Decline M) (ended Decline M).
Proof.
  induction 1 as [|m markers (Em & Hs & directive & Hph) _ IH]; cbn [retireMarkers]; [by apply triple_ret|].
  eapply (triple_bind _ (λ _, ended Decline M)); [|intros; exact IH].
  intros d (M' & Hd & Hf' & Hm' & Hk). set (m0 := m {{ mk_State := ""; mk_Directive := None }}).
  pose proof (write_triple M' m0 d Hd) as Hw. destruct (writeSessionRotationMarker m0 d) as [[[]|e] d'].
  - destruct Hw as (now & Hv & Hd'). eexists. split; [exact Hd'|]. split; [exact (formed_insert M' _ Hf' Hv)|].
    split; [|by apply remembers_insert, (keeps_marked _ _ _ _ Em)].
    intros id. rewrite phases_insert. case_decide as Hid; [|apply Hm']. subst id. right.
    change (mk_ParentThreadID m0) with (mk_ParentThreadID m). rewrite (phases_at _ _ _ Em), Hph. constructor.
  - exists M'. done.
Qed.
Lemma Decline_triple :
  triple (holds M) commitPendingSessionRotationRecommendationRetirement (λ _, finished Decline M None) (ended Decline M).
Proof.
  unfold commitPendingSessionRotationRecommendationRetirement, with_stage.
  eapply triple_bind; [apply triple_reads; [apply _|auto]|]. intros [stage|]; [|apply triple_ret; intros d; by apply finished_same].
  eapply triple_bind; [apply triple_reads; [apply _|auto]|]. intros [].
  eapply triple_bind; [eapply triple_consequence; [apply recommended_triple|done|done|auto]|]. intros markers.
  apply triple_pure. intros Hms. unfold retirePendingSessionRotationRecommendationMarkers.
  eapply triple_bind; [eapply triple_consequence; [by apply retire_triple|auto|done|done]|]. intros [] d (M' & Hd & Hf' & Hm' & Hk).
  assert (∀ d', (∀ p, length p = 2 → files d' !! p = files d !! p) → holds M' d') as Hh.
  { intros d' Hsame id. rewrite Hsame by done. apply Hd. }
  unfold RemoveState, mbind, io_bind, attempt, remove_file. destruct (_ || _); simpl; [by exists M'; auto 8|].
  case_bool_decide; simpl; [by exists M'; auto 8|]. exists M'. split; [|by auto 8]. apply Hh. intros q Hq. simpl.
  apply lookup_delete_ne. by intros <-.
Qed.
End Operations.
Lemma operation_triple op M : readable M → formed M → triple (holds M) (run op) (finished op M) (ended op M).
Proof.
  intros Hr Hf. destruct op; simpl.
  all: eapply triple_bind;
    [first [by apply Claim_triple|by apply Release_triple|by apply Bind_triple|by apply Acknowledge_triple
           |by apply Commit_triple|by apply Observe_triple|by apply Decline_triple]|].
  all: intros; by apply triple_ret.
Qed.
(** C12: Rotation is safe whatever fails.  Whatever an operation on session
    rotations answers, in an environment that may refuse any access, the marker of
    every thread is afterwards valid, and every thread is where it was or made the
    step of the operation: a directive is claimed once, a claim is bound to one
    other thread and never moves to a second, only the bound thread can
    acknowledge it, only a claim whose creation is known to have failed is given
    back, and a new directive is issued only when no other is open.  An operation
    that succeeds leaves its thread where it promises. *)
Theorem rotation_refines op M d r d' :
  readable M → formed M → holds M d → run op d = (r, d') →
  ∃ M', holds M' d' ∧ formed M' ∧
    (∀ id, phases M' id = phases M id ∨ step op id (phases M id) (phases M' id)) ∧
    (∀ id m, M' !! id = Some m → mk_State m = stateName (phaseOf m)) ∧
    match r with Ok answer => achieved op answer M' | Err _ => True end.
Proof.
  intros Hr Hf Hd E.
  pose proof (operation_triple op M Hr Hf) as Ht.
  specialize (Ht d Hd). rewrite E in Ht.
  assert (∀ M', formed M' → ∀ id m, M' !! id = Some m → mk_State m = stateName (phaseOf m)) as Hst.
  { intros M' Hf' id m Em. by apply state_phase, (Hf' id). }
  destruct r as [answer|e].
  - destruct Ht as (M' & ? & Hf' & ? & ? & ?). exists M'. eauto 8.
  - destruct Ht as (M' & ? & Hf' & ? & ?). exists M'. eauto 8.
Qed.

(** ** A failed creation is remembered longer than its directive *)
Lemma write_refused M m outcome d :
  holds M d → mk_LastCreationOutcome m = Some outcome → hasDirective m (rj_DirectiveID outcome) = false →
  ∃ e, (writeSessionRotationMarker m d).1 = Err e.
Proof.
  intros Hd Ho Hn. pose proof (write_triple M m d Hd) as Hw.
  destruct (writeSessionRotationMarker m d) as [[[]|e] d']; [|by eexists].
  destruct Hw as (now & Hv & _). cbv zeta in Hv. set (m' := m {{ mk_UpdatedAt := now }}) in Hv.
  pose proof (outcome_needs_directive m' outcome Ho Hv) as Hx.
  change (hasDirective m (rj_DirectiveID outcome) = true) in Hx. congruence.
Qed.
Lemma retire_refused M markers m outcome d :
  holds M d → m ∈ markers → mk_LastCreationOutcome m = Some outcome → ∃ e, (retireMarkers markers d).1 = Err e.
Proof.
  intros Hd Hin Ho. revert M d Hd. induction Hin as [m markers|m x markers Hin IH]; intros M d Hd; cbn [retireMarkers].
  - set (m0 := m {{ mk_State := ""; mk_Directive := None }}).
    destruct (write_refused M m0 outcome d Hd Ho eq_refl) as [e He]. exists e. unfold mbind, io_bind.
    by destruct (writeSessionRotationMarker m0 d) as [[]].
  - set (m0 := x {{ mk_State := ""; mk_Directive := None }}). pose proof (write_triple M m0 d Hd) as Hw.
    unfold mbind, io_bind. destruct (writeSessionRotationMarker m0 d) as [[[]|e] d']; [|by eexists].
    destruct Hw as (now & _ & Hd'). by eapply IH.
Qed.
Lemma recommended_markers M recommendations d markers d' id m :
  readable M → formed M → holds M d → loadPendingSessionRotationRecommendationMarkers recommendations d = (Ok markers, d') →
  M !! id = Some m → id ∈ rr_ParentThreadID <$> recommendations → m ∈ markers ∧ holds M d'.
Proof.
  intros Hr Hf Hd E Em Hin. revert d Hd markers E Hin. induction recommendations as [|r recommendations IH]; intros d Hd markers E Hin;
    [by apply elem_of_nil in Hin|]. cbn [loadPendingSessionRotationRecommendationMarkers] in E. cbv zeta in E.
  apply io_bind_Ok in E as (found & d1 & Hl & E). pose proof (Load_triple M (rr_ParentThreadID r) Hr Hf d Hd) as Ht.
  rewrite Hl in Ht. destruct Ht as [-> Hd1]. destruct (M !! rr_ParentThreadID r) as [m1|] eqn:Em1; [|done].
  destruct (_ || _) in E; [done|]. apply io_bind_Ok in E as (rest & d2 & Hrest & E). injection E as <- <-.
  pose proof (recommended_triple M Hr Hf recommendations d1 Hd1) as Ht. rewrite Hrest in Ht.
  rewrite fmap_cons in Hin. apply elem_of_cons in Hin as [->|Hin].
  - split; [|by destruct Ht]. replace m1 with m by congruence. by left.
  - destruct (IH d1 Hd1 rest Hrest Hin). split; [by right|done].
Qed.
Lemma decline_refused M d id directive stage :
  readable M → formed M → holds M d → failed M id directive →
  loadPendingSessionRotationRecommendationRetirement d = (Ok (Some stage), d) →
  id ∈ rr_ParentThreadID <$> rs_Recommendations stage → ∃ e, (run Decline d).1 = Err e.
Proof.
  intros Hr Hf Hd (m & outcome & Em & Ho & _) Hs Hin.
  cbn [run]. unfold commitPendingSessionRotationRecommendationRetirement, with_stage.
  unfold mbind at 1, io_bind at 1. unfold mbind at 1, io_bind at 1. rewrite Hs.
  unfold mbind at 1, io_bind at 1. pose proof (validate_set_reads stage d) as Hv.
  destruct (validatePendingSessionRotationRecommendationSet stage d) as [[[]|e] d1]; [|by eexists]. simpl in Hv. subst d1.
  unfold mbind at 1, io_bind at 1.
  destruct (loadPendingSessionRotationRecommendationMarkers (rs_Recommendations stage) d) as [[markers|e] d1] eqn:El; [|by eexists].
  destruct (recommended_markers M _ _ _ _ _ _ Hr Hf Hd El Em Hin) as [Hm Hd1].
  unfold retirePendingSessionRotationRecommendationMarkers. unfold mbind at 1, io_bind at 1.
  destruct (retire_refused M markers m outcome d1 Hd1 Hm Ho) as [e He].
  destruct (retireMarkers markers d1) as [[[]|e'] d2]; [done|]. by eexists.
Qed.
Definition phase_directive (p : phase) : option string :=
  match p with
  | Idle => None
  | Pending directive | Claimed directive _ _ | Bound directive _ _ _ | Issued directive _ => Some directive
  end.
Lemma failed_phase M id directive : formed M → failed M id directive → phase_directive (phases M id) = Some directive.
Proof.
  intros Hf (m & outcome & Em & Ho & <-). destruct (Hf _ _ Em) as [_ Hv].
  pose proof (outcome_needs_directive m outcome Ho Hv) as Hd. rewrite (phases_at _ _ _ Em). unfold phaseOf, hasDirective in *.
  destruct (mk_Directive m) as [x|]; [|done]. apply bool_decide_eq_true in Hd as <-.
  destruct (mk_Issued m), (mk_Claim m) as [c|]; try done. by destruct (bool_decide (rk_BoundThreadID c = "")).
Qed.
(** C40: A failed creation blocks the thread it belongs to.  An operation that gives a
    claim back leaves in the marker of the thread that creating a thread for the
    directive failed.  No operation that writes markers, in whatever environment and
    whatever it answers, removes such a record or replaces its directive, and the thread
    stays at that directive: it is pending, claimed, bound or acknowledged for it, never idle and
    never at another one.  So an ordinary start cannot decline the directive - it fails
    whenever its recommendations name the thread - and a thread that has handed over
    can be given a directive of its own again only if the random source repeats the
    identifier. *)
Theorem failed_creation_blocks op M d r d' :
  readable M → formed M → holds M d → run op d = (r, d') →
  ∃ M', holds M' d' ∧ formed M' ∧
    (∀ parent directive claim creation answer,
       op = Release parent directive claim creation → r = Ok answer → failed M' parent directive) ∧
    (∀ id directive, failed M id directive →
       failed M' id directive ∧ phase_directive (phases M' id) = Some directive ∧
       (op = Decline →
        ∀ stage, loadPendingSessionRotationRecommendationRetirement d = (Ok (Some stage), d) →
          id ∈ rr_ParentThreadID <$> rs_Recommendations stage → ∃ e, r = Err e)).
Proof.
  intros Hr Hf Hd E. pose proof (operation_triple op M Hr Hf d Hd) as Ht. rewrite E in Ht.
  assert (∃ M', holds M' d' ∧ formed M' ∧ remembers M M' ∧
            ∀ answer, r = Ok answer → achieved op answer M') as (M' & Hd' & Hf' & Hk & Ha).
  { destruct r as [answer|e]; destruct Ht as (M' & ? & ? & ? & ? & Ha) || destruct Ht as (M' & ? & ? & ? & ?).
    all: exists M'; split_and!; try done. by intros ? [= <-]. }
  exists M'. split; [done|]. split; [done|]. split.
  { intros parent directive claim creation answer -> Hans. by apply (Ha answer). }
  intros id directive Hfail. split; [by apply Hk|]. split; [by apply failed_phase, Hk|].
  intros -> stage Hs Hin. destruct (decline_refused M d id directive stage Hr Hf Hd Hfail Hs Hin) as [e He].
  exists e. by rewrite E in He.
Qed.
End Refinement.

(** ** Threads with a directive *)
Definition parentThread : string := "0a0b0c0d-1111-4111-8111-111111111111".
Definition exampleDirective : string := "0a0b0c0d-2222-4222-8222-222222222222".
Definition exampleGivenBack : string := "0a0b0c0d-3333-4333-8333-333333333333".
Definition pendingMarker : SessionRotationMarker :=
  (freshMarker parentThread) {{
    mk_State := SessionRotationStatePending; mk_UpdatedAt := "2026-01-02T03:04:05Z";
    mk_Directive := Some {| rd_DirectiveID := exampleDirective; rd_TaskID := "task-1"; rd_Terminal := SessionRotationTerminalAccept;
                            rd_Epoch := "task-1:accept"; rd_Reason := "compaction"; rd_Evidence := [];
                            rd_CreatedAt := "2026-01-02T03:04:05Z" |} }}.
(** The same directive, claimed once and given back. *)
Definition givenBackMarker : SessionRotationMarker :=
  pendingMarker {{
    mk_LastCreationOutcome := Some {| rj_Version := SessionRotationCreationResultVersion;
      rj_Outcome := SessionRotationCreationOutcomeFailed; rj_ParentThreadID := parentThread; rj_DirectiveID := exampleDirective;
      rj_ClaimID := exampleGivenBack; rj_TargetTaskID := exampleGivenBack; rj_RecordedAt := "2026-01-02T03:04:05Z" |} }}.
(** The directive, claimed. *)
Definition claimedMarker : SessionRotationMarker :=
  pendingMarker {{ mk_State := SessionRotationStateClaimed;
    mk_Claim := Some {| rk_ClaimID := exampleGivenBack; rk_ClaimantThreadID := parentThread; rk_TargetTaskID := exampleGivenBack;
                        rk_ClaimedAt := "2026-01-02T03:04:05Z"; rk_BoundThreadID := ""; rk_BoundAt := "" |} }}.
Definition failedCreation : SessionRotationCreationResult :=
  {| rx_Version := SessionRotationCreationResultVersion; rx_Outcome := SessionRotationCreationOutcomeFailed;
     rx_ParentThreadID := parentThread; rx_DirectiveID := exampleDirective; rx_ClaimID := exampleGivenBack;
     rx_TargetTaskID := exampleGivenBack |}.
Definition markerKey (m : SessionRotationMarker) : string :=
  if bool_decide (is_Some (mk_LastCreationOutcome m)) then "given back" else mk_State m.
Definition exampleStage : pendingSessionRotationRetirementStage :=
  {| rs_StageVersion := pendingSessionRotationRetirementVersion; rs_CallerThreadID := "";
     rs_Recommendations := [{| rr_ParentThreadID := parentThread; rr_DirectiveID := exampleDirective |}] |}.
#[export] Instance example_markers : JSONText SessionRotationMarker Some.
Proof. refine (known_text _ markerKey [pendingMarker; givenBackMarker; claimedMarker] _ _); known. Defined.
#[export] Instance example_identities : JSONText ParentCodexIdentity Some.
Proof. refine (known_text _ (λ _, "identity") [] _ _); known. Defined.
#[export] Instance example_stages : JSONText pendingSessionRotationRetirementStage Some.
Proof. refine (known_text _ (λ _, "stage") [exampleStage] _ _); known. Defined.
Definition rotationDisk (m : SessionRotationMarker) : Disk := {|
  files := {[SessionRotationMarkerPath parentThread := text (markerKey m +:+ newline);
             Path pendingSessionRotationRetirementStateFile := text ("stage" +:+ newline)]};
  dirs := {[ [sessionRotationDirectory] ]}; unreadable := ∅; unwritable := ∅; power := None; clock n := Z.of_nat n; ticks := 0;
  random n := Some (λ _, Stdlib.Strings.Ascii.ascii_of_nat n); draws := 0 |}.
Definition exampleMarkers (m : SessionRotationMarker) : gmap string SessionRotationMarker := {[parentThread := m]}.
Lemma rotationDisk_holds m : holds (exampleMarkers m) (rotationDisk m).
Proof.
  intros id. unfold exampleMarkers, rotationDisk. cbn [files]. destruct (decide (id = parentThread)) as [->|Hn].
  - by rewrite lookup_insert_eq, lookup_singleton_eq.
  - rewrite lookup_insert_ne, lookup_singleton_ne, lookup_singleton_ne; [done|done| |].
    + intros E. discriminate E.
    + intros E. apply Hn. symmetry. by injection E as E%app_inj_tail_str.
Qed.
Lemma rotationDisk_formed m :
  m ∈ [pendingMarker; givenBackMarker; claimedMarker] → readable (exampleMarkers m) ∧ formed (exampleMarkers m).
Proof.
  intros Hm. split; apply map_Forall_singleton; [exact Hm|].
  repeat (apply elem_of_cons in Hm as [->|Hm]; [split; [reflexivity|vm_compute; reflexivity]|]). by apply elem_of_nil in Hm.
Qed.
Lemma rotation_refines_witness :
  ∃ claim d' M', run (Claim parentThread exampleDirective) (rotationDisk pendingMarker) = (Ok (Some claim), d') ∧ holds M' d' ∧
    phases M' parentThread = Claimed exampleDirective (rk_ClaimID claim) (rk_TargetTaskID claim).
Proof.
  assert (match (run (Claim parentThread exampleDirective) (rotationDisk pendingMarker)).1 with
          | Ok (Some claim) => bool_decide (rk_BoundThreadID claim = "") | _ => false end = true) as Hok
    by (vm_compute; reflexivity).
  destruct (run (Claim parentThread exampleDirective) (rotationDisk pendingMarker)) as [[[claim|]|e] d'] eqn:E;
    [|discriminate Hok..].
  destruct (rotationDisk_formed pendingMarker ltac:(left)) as [Hr Hf].
  destruct (rotation_refines _ _ _ _ _ Hr Hf (rotationDisk_holds _) E) as (M' & Hd & _ & Hm & _ & Ha).
  exists claim, d', M'. split; [reflexivity|]. split; [exact Hd|].
  destruct Ha as (c & Hc & [Hp|Hp]); injection Hc as <-; [exact Hp|exfalso].
  destruct (Hm parentThread) as [Hs|Hs]; rewrite Hp in Hs; [discriminate Hs|inversion Hs].
Defined.
Lemma failed_creation_blocks_witness :
  (∃ d' M', run (Release parentThread exampleDirective exampleGivenBack failedCreation) (rotationDisk claimedMarker) = (Ok None, d') ∧
     holds M' d' ∧ failed M' parentThread exampleDirective) ∧
  (∃ e, (run Decline (rotationDisk givenBackMarker)).1 = Err e).
Proof.
  split.
  - assert ((run (Release parentThread exampleDirective exampleGivenBack failedCreation) (rotationDisk claimedMarker)).1 = Ok None) as Hok
      by (vm_compute; reflexivity).
    destruct (run (Release _ _ _ _) (rotationDisk claimedMarker)) as [r d'] eqn:E. simpl in Hok. subst r.
    destruct (rotationDisk_formed claimedMarker) as [Hr Hf]; [right; right; left|].
    destruct (failed_creation_blocks _ _ _ _ _ Hr Hf (rotationDisk_holds _) E) as (M' & Hd & _ & Hs & _).
    exists d', M'. split; [reflexivity|]. split; [exact Hd|]. by eapply Hs.
  - destruct (run Decline (rotationDisk givenBackMarker)) as [r d'] eqn:E.
    destruct (rotationDisk_formed givenBackMarker) as [Hr Hf]; [right; left|].
    destruct (failed_creation_blocks _ _ _ _ _ Hr Hf (rotationDisk_holds _) E) as (M' & _ & _ & _ & Hb).
    destruct (Hb parentThread exampleDirective) as (_ & _ & Hdec).
    + exists givenBackMarker. eexists. split; [reflexivity|]. split; reflexivity.
    + apply (Hdec eq_refl exampleStage); [vm_compute; reflexivity|left].
Defined.
