(* ===== verification/RotationAdmission.v ===== *)
(** * Who may start a task

    The check before an ordinary start reads every marker of the directory.  It
    admits the start exactly when no rotation is being carried out and the caller
    has not handed over. *)
From S2P Require Import Prelude GoStrings GoText GoTime TimeFormat ControllerTypes ControllerStore MutationControl Packet SessionTypes SessionStore ResumeCheckpoint ParentReview SessionRotation Lifecycle SessionLogic ReviewLogic SessionExamples RotationLogic.
Implicit Types (m : SessionRotationMarker) (M : gmap string SessionRotationMarker) (d : Disk) (id : string).

(** ** Names of marker files *)
Lemma uuidLoop_no_dot index s : uuidLoop index s = true → no_char "." s.
Proof.
  revert index. induction s as [|c s IH]; intros index Hs; simpl in *; [done|].
  apply andb_true_iff in Hs as [Hc Hs]. split; [|by eapply IH]. intros <-.
  destruct (_ || _) in Hc; discriminate Hc.
Qed.
Lemma threadID_of_marker id : ValidUUIDFormat id = true → sessionRotationMarkerThreadID (id +:+ ".json") = id.
Proof.
  intros Hv. pose proof Hv as Hl. unfold ValidUUIDFormat in Hl. apply andb_true_iff in Hl as [_ Hl%uuidLoop_no_dot].
  unfold sessionRotationMarkerThreadID, Ext. change ".json" with (String "." "json").
  rewrite Split_app, (Split_no_sep "json") by (done || by vm_compute; naive_solver). simpl.
  change (String "." "json") with ("." +:+ "json"). by rewrite TrimSuffix_app, Hv.
Qed.
Lemma valid_nonempty id : ValidUUIDFormat id = true → id ≠ "".
Proof. by intros Hv ->. Qed.

Section Admission.
Context `{Unicode, MachineEncoder, ResumeText, JSONText SessionRotationMarker Some, JSONText ParentCodexIdentity Some,
          JSONText pendingSessionRotationRetirementStage Some}.
Context M d (Hr : readable M) (Hf : formed M) (Hd : holds M d).
(** The directory and its files can be read. *)
Record legible : Prop := {
  lg_dir : [sessionRotationDirectory] ∈ dirs d;
  lg_readable : [sessionRotationDirectory] ∉ unreadable d;
  lg_files id : SessionRotationMarkerPath id ∉ unreadable d;
}.
Context (Hl : legible).
Lemma marker_eq id : ValidUUIDFormat id = true → LoadSessionRotationMarker id d = (Ok (M !! id), d).
Proof.
  intros Hv. unfold LoadSessionRotationMarker. rewrite Hv. simpl. unfold mbind, io_bind, attempt. rewrite ReadFile_eq.
  unfold content. rewrite bool_decide_false by apply Hl. rewrite (Hd id).
  destruct (M !! id) as [m|] eqn:Em; simpl; [|done]. unfold decodeSessionRotationMarker, lift.
  rewrite (unmarshal_line m m (Hr _ _ Em) eq_refl). by rewrite (proj2 (Hf _ _ Em)).
Qed.
Lemma loadMarkers_eq names :
  ∃ markers, loadMarkers names d = (Ok markers, d) ∧
    ∀ m, m ∈ markers ↔ ∃ name, name ∈ names ∧ sessionRotationMarkerThreadID name ≠ "" ∧
                               M !! sessionRotationMarkerThreadID name = Some m.
Proof.
  induction names as [|name names (markers & E & IH)].
  { exists []. split; [done|]. intros m. split; [by intros ?%elem_of_nil|by intros (? & ?%elem_of_nil & _)]. }
  cbn [loadMarkers]. cbv zeta. set (id := sessionRotationMarkerThreadID name). case_bool_decide as Hid.
  - exists markers. split; [done|]. intros m. rewrite IH. split; intros (n & Hn & Hne & Hm); exists n.
    + split; [by right|done].
    + apply elem_of_cons in Hn as [->|Hn]; [done|done].
  - assert (ValidUUIDFormat id = true) as Hv.
    { unfold id, sessionRotationMarkerThreadID in *. by destruct (ValidUUIDFormat _) eqn:Ev. }
    erewrite io_bind_step by (by apply marker_eq). erewrite io_bind_step by exact E.
    eexists. split; [reflexivity|]. intros m. transitivity (M !! id = Some m ∨ m ∈ markers).
    + destruct (M !! id) as [m'|]; [|naive_solver]. rewrite elem_of_cons. naive_solver.
    + rewrite IH. split.
      * intros [Hm|(n & Hn & Hne & Hm)]; [exists name|exists n]; (split; [by constructor|done]).
      * intros (n & Hn & Hne & Hm). apply elem_of_cons in Hn as [->|Hn]; [by left|right; by exists n].
Qed.
Lemma directory_eq :
  ∃ names, read_dir sessionRotationDirectory d = (Ok names, d) ∧ ∀ id m, M !! id = Some m → id +:+ ".json" ∈ names.
Proof.
  unfold read_dir. rewrite bool_decide_false, bool_decide_true by apply Hl. eexists. split; [reflexivity|].
  intros id m Em. rewrite merge_sort_Permutation. apply list_elem_of_omap. exists (SessionRotationMarkerPath id).
  split; [|by unfold SessionRotationMarkerPath; rewrite bool_decide_true].
  apply elem_of_elements, elem_of_dom. rewrite Hd, Em. by eexists.
Qed.
Lemma load_all_eq :
  ∃ markers, loadSessionRotationMarkers d = (Ok markers, d) ∧ ∀ m, m ∈ markers ↔ ∃ id, M !! id = Some m.
Proof.
  destruct directory_eq as (names & E & Hn). destruct (loadMarkers_eq names) as (markers & El & Hm).
  exists markers. split.
  { unfold loadSessionRotationMarkers, mbind, io_bind, attempt. rewrite E. exact El. }
  intros m. rewrite Hm. split; [intros (name & _ & _ & Em); by eexists|]. intros (id & Em).
  destruct (Hf _ _ Em) as [Hp [_ Hv]%validMarker_records]. rewrite Hp in Hv.
  exists (id +:+ ".json"). rewrite threadID_of_marker by done. split; [by eapply Hn|]. split; [by apply valid_nonempty|done].
Qed.
Lemma Incomplete_eq :
  ∃ rotations, IncompleteSessionRotations d = (Ok rotations, d) ∧
    ∀ rotation, rotation ∈ rotations ↔ ∃ id m, M !! id = Some m ∧ incompleteSessionRotationFromMarker m = Some rotation.
Proof.
  destruct load_all_eq as (markers & E & Hm). unfold IncompleteSessionRotations.
  erewrite io_bind_step by exact E. eexists. split; [reflexivity|]. intros rotation.
  rewrite merge_sort_Permutation, list_elem_of_omap. setoid_rewrite Hm. naive_solver.
Qed.

(** ** The conditions of a start *)
Definition statusOf : TaskStatus := or_fallback TaskStatusNone (content (Path statusFile) d).
Definition taskOf : string := or_fallback "" (content (Path taskIDFile) d).
Definition targeted (caller : string) : Prop :=
  ValidUUIDFormat caller = true ∧ statusOf = TaskStatusActive ∧
  ∃ id m, M !! id = Some m ∧ sessionRotationMarkerTargets m caller taskOf = true.
Definition retired (caller : string) : Prop := ValidUUIDFormat caller = true ∧ ∃ old thread, phases M caller = Issued old thread.
(** No rotation is being carried out; [declines] says that pending ones do not count. *)
Definition settled (declines : bool) (p : phase) : Prop :=
  match p with Idle | Issued _ _ => True | Pending _ => declines = true | _ => False end.
Lemma target_eq caller : ∃ b, incompleteSessionRotationTarget caller d = (Ok b, d) ∧ (b = true ↔ targeted caller).
Proof.
  unfold incompleteSessionRotationTarget, targeted. destruct (ValidUUIDFormat caller) eqn:Hv; simpl;
    [|exists false; split; [done|naive_solver]].
  erewrite io_bind_step by apply GetTaskStatus_eq. fold statusOf. case_bool_decide as Hs; simpl;
    [|exists false; split; [done|naive_solver]].
  destruct load_all_eq as (markers & E & Hm). erewrite io_bind_step by exact E.
  erewrite io_bind_step by apply ReadOr_eq. fold taskIDFile taskOf. eexists. split; [reflexivity|].
  rewrite existsb_exists. setoid_rewrite <-list_elem_of_In. setoid_rewrite Hm. naive_solver.
Qed.
Lemma retired_eq caller :
  ∃ r, rejectRetiredSessionRotationCaller caller d = (r, d) ∧ (r = Ok () ↔ ¬ retired caller).
Proof.
  unfold rejectRetiredSessionRotationCaller, retired. destruct (ValidUUIDFormat caller) eqn:Hv; simpl;
    [|exists (Ok ()); split; [done|naive_solver]].
  erewrite io_bind_step by (by apply marker_eq). unfold phases. destruct (M !! caller) as [m|] eqn:Em; simpl;
    [|exists (Ok ()); split; [done|naive_solver]].
  rewrite (state_phase m) by apply (Hf _ _ Em). destruct (phaseOf m) eqn:Ep; simpl; eexists; (split; [reflexivity|]);
    (split; [try done; by intros _ (_ & ? & ? & ?)|]); try done. intros Hn. destruct Hn. eauto.
Qed.
Lemma incomplete_settled declines :
  (∀ id m r, M !! id = Some m → incompleteSessionRotationFromMarker m = Some r →
     declines = true ∧ ni_State r = SessionRotationStatePending) ↔ ∀ id, settled declines (phases M id).
Proof.
  assert (∀ id m, M !! id = Some m → mk_State m = stateName (phaseOf m)) as Hs by (intros id m Em; apply state_phase, (Hf _ _ Em)).
  split.
  - intros Hall id. unfold phases. destruct (M !! id) as [m|] eqn:Em; simpl; [|done].
    specialize (Hall id m). unfold incompleteSessionRotationFromMarker in Hall. rewrite (Hs _ _ Em) in Hall.
    unfold phaseOf in *. destruct (mk_Directive m) as [x|]; [|done].
    destruct (mk_Issued m) as [i|], (mk_Claim m) as [c|]; simpl in *; try done.
    + destruct (bool_decide (rk_BoundThreadID c = "")); simpl in *; destruct (Hall _ Em eq_refl); done.
    + by destruct (Hall _ Em eq_refl).
  - intros Hall id m r Em Er. specialize (Hall id). rewrite (phases_at _ _ _ Em) in Hall.
    unfold incompleteSessionRotationFromMarker in Er. rewrite (Hs _ _ Em) in Er.
    destruct (mk_Directive m) as [x|] eqn:Ex; [|done]. destruct (phaseOf m) eqn:Ep; simpl in *; try done. by injection Er as <-.
Qed.
Lemma boundaryLoop_Ok caller rotations :
  boundaryLoop caller rotations = Ok () ↔ ∀ r, r ∈ rotations → ni_State r = SessionRotationStatePending.
Proof.
  induction rotations as [|r rotations IH]; simpl; [split; [by intros _ r ?%elem_of_nil|done]|].
  case_bool_decide as Hr'; simpl.
  - rewrite IH. split; [intros Ha x [->|]%elem_of_cons; auto|intros Ha x ?; apply Ha; by right].
  - split; [by repeat case_match|]. intros Ha. destruct Hr'. apply Ha. by left.
Qed.
(** C17: An ordinary start is admitted exactly when it may be.  With the marker
    directory readable, the check before a start answers - always that it is not a
    resumption - exactly when no rotation is claimed or bound, the caller is not a
    thread that has handed over, and the caller is not starting the task of a
    claim again; the check that does not decline recommendations asks in addition
    that none is pending. *)
Theorem ordinary_start_spec caller :
  (∀ r, AdmitNewTaskRotationBoundary caller "" d = (Ok r, d) ↔
     r = false ∧ (∀ id, settled true (phases M id)) ∧ ¬ retired caller ∧ ¬ targeted caller) ∧
  (∀ r, AdmitNewTaskRotation caller "" d = (Ok r, d) ↔
     r = false ∧ (∀ id, settled false (phases M id)) ∧ ¬ retired caller ∧ ¬ targeted caller).
Proof.
  destruct (target_eq caller) as (b & Et & Hb). destruct (retired_eq caller) as (r0 & Er & Hr0).
  destruct Incomplete_eq as (rotations & Ei & Hi).
  split; intros r; [unfold AdmitNewTaskRotationBoundary|unfold AdmitNewTaskRotation, admitUnclaimedNewTask]; simpl.
  all: erewrite io_bind_step by exact Et; destruct b; simpl; [split; [done|by intros (_ & _ & _ & Hn); destruct Hn; apply Hb]|].
  all: unfold mbind at 1, io_bind at 1; rewrite Er; destruct r0 as [[]|e]; [|split; [done|by intros (_ & _ & Hn%Hr0 & _)]].
  - erewrite io_bind_step by exact Ei. unfold mbind at 1, io_bind at 1, lift.
    assert ((boundaryLoop caller rotations = Ok ()) ↔ ∀ id, settled true (phases M id)) as Hbl.
    { rewrite boundaryLoop_Ok, <-incomplete_settled. split.
      - intros Ha id m x Em Ex. split; [done|]. apply Ha, Hi. eauto.
      - intros Ha x (id & m & Em & Ex)%Hi. by destruct (Ha _ _ _ Em Ex). }
    clear Hi Ei. assert (¬ retired caller ∧ ¬ targeted caller) as Hok by (split; [by apply Hr0|by intros ?%Hb]).
    destruct (boundaryLoop caller rotations) as [[]|e].
    + split; [intros [= <-]; split; [done|]; split; [by apply Hbl|done]|by intros [-> _]].
    + split; [done|]. intros (_ & Hall & _). by apply Hbl in Hall.
  - unfold rejectIncompleteSessionRotation. unfold mbind at 1, io_bind at 1. erewrite io_bind_step by exact Ei.
    assert (rotations = [] ↔ ∀ id, settled false (phases M id)) as Hbl.
    { rewrite <-incomplete_settled. split.
      - intros -> id m x Em Ex. exfalso. apply (not_elem_of_nil x), Hi. eauto.
      - intros Hn. destruct rotations as [|x rest]; [done|]. destruct (proj1 (Hi x) ltac:(left)) as (id & m & Em & Ex).
        by destruct (Hn _ _ _ Em Ex). }
    clear Hi Ei. assert (¬ retired caller ∧ ¬ targeted caller) as Hok by (split; [by apply Hr0|by intros ?%Hb]).
    destruct rotations as [|x rest].
    + split; [intros [= <-]; split; [done|]; split; [by apply Hbl|done]|by intros [-> _]].
    + split; [by destruct (_ && _)|]. intros (_ & Hall & _). by apply Hbl in Hall.
Qed.
End Admission.

(** A recommendation that is pending does not stop an ordinary start that declines it. *)
Lemma rotationDisk_legible m : legible (rotationDisk m).
Proof. split; [set_solver|set_solver|intros id; set_solver]. Qed.
Lemma ordinary_start_spec_witness :
  AdmitNewTaskRotationBoundary "" "" (rotationDisk pendingMarker) = (Ok false, rotationDisk pendingMarker) ∧
  AdmitNewTaskRotation "" "" (rotationDisk pendingMarker) ≠ (Ok false, rotationDisk pendingMarker).
Proof.
  destruct (rotationDisk_formed pendingMarker ltac:(left)) as [Hr Hf].
  pose proof (ordinary_start_spec _ _ Hr Hf (rotationDisk_holds _) (rotationDisk_legible _) "") as [Hb Hu].
  assert (∀ id, id = parentThread ∨ phases (exampleMarkers pendingMarker) id = Idle) as Hid.
  { intros id. destruct (decide (id = parentThread)); [by left|right]. unfold phases, exampleMarkers. by rewrite lookup_singleton_ne. }
  split.
  - apply Hb. split; [done|]. split; [|by split; intros [? _]].
    intros id. destruct (Hid id) as [-> | ->]; [vm_compute; reflexivity|done].
  - intros E. apply Hu in E as (_ & Hs & _). specialize (Hs parentThread). vm_compute in Hs. discriminate Hs.
Defined.
