(* ===== verification/Rounds.v ===== *)
(** * Review rounds ([state/convergence.go])

    Before each review the workflow records the digests of the changed files: a
    [RoundRecord] appended to the log of the task.  Comparing one record with the
    one before it classes what the worker did in between: nothing, only comments
    and white space, documents, or code.

    The digest of a file's meaning leaves out blank lines and whole-line
    comments, where the language has no construct in which such a line is text.
    [crypto/sha256] is the parameter [sha256_hex]; what [os.Lstat],
    [os.ReadFile] and [os.Readlink] find is the parameter [FileTree].  The order
    in which [range] visits a map is the parameter [MapRange]: any order, another
    one for each loop. *)
From S2P Require Import Prelude GoStrings GoText ControllerTypes ControllerStore CrashLogic ExecutionOperation SessionTypes SessionStore SessionLogic.
Open Scope Z_scope.

(** ** Records *)
Record RoundPathState := {
  rp_Path : string;
  rp_Class : string;
  rp_Deleted : bool;
  rp_FullDigest : string;
  rp_SemanticDigest : string;
}.
Record RoundRecord := {
  rr_Version : Z;
  rr_TaskID : string;
  rr_Seq : Z;
  rr_ReviewNumber : Z;
  rr_AutoFixes : Z;
  rr_WorkerPhase : string;
  rr_CapturedAt : Time;
  rr_Snapshot : SnapshotDigest;
  rr_Paths : list RoundPathState;
  rr_CaptureError : string;
}.
Record RoundDelta := {
  rd_Class : string;
  rd_ChangedPaths : Z;
  rd_SemanticPaths : Z;
  rd_DocPaths : Z;
}.
Definition roundLogVersion : Z := 1.

Definition RoundPathClassDoc : string := "doc".
Definition RoundPathClassCode : string := "code".
Definition RoundPathClassOther : string := "other".
Definition RoundDeltaBaseline : string := "baseline".
Definition RoundDeltaInitial : string := "initial".
Definition RoundDeltaSameSnapshot : string := "same-snapshot".
Definition RoundDeltaCommentFormat : string := "comment-format-only".
Definition RoundDeltaDocChange : string := "doc-change".
Definition RoundDeltaSemantic : string := "semantic-change".
Definition RoundDeltaUnknown : string := "unknown".
Definition RoundWorkerPhaseBaseline : string := "baseline".
Definition roundCommentSlash : string := "slash".
Definition roundCommentHash : string := "hash".
Definition roundCommentNone : string := "none".

(** ** Text helpers of the standard library *)
(** [bytes.TrimLeft] and [bytes.TrimRight] with an ASCII cutset. *)
Fixpoint TrimLeft (s cutset : string) : string :=
  match s with String c r => if Contains cutset (String c "") then TrimLeft r cutset else s | "" => "" end.
Definition TrimRight (s cutset : string) : string := String.rev (TrimLeft (String.rev s) cutset).
(** [filepath.Ext]: from the last dot of the last element of the path. *)
Fixpoint ext_rev (acc r : string) : string :=
  match r with
  | "" => ""
  | String c r => if Ascii.eqb c "/" then ""
                  else if Ascii.eqb c "." then String c acc else ext_rev (String c acc) r
  end.
Definition Ext (path : string) : string := ext_rev "" (String.rev path).
(** [strings.ToLower], for comparing with ASCII text.  Two letters outside of
    ASCII have a lower case in it: the Kelvin sign and the dotted capital I. *)
Fixpoint ToLower (s : string) : string :=
  match s with
  | "" => ""
  | String a r =>
      match r with
      | String b r2 =>
          if ((byte a =? 196) && (byte b =? 176))%N then String "i" (ToLower r2)
          else match r2 with
               | String c r3 =>
                   if ((byte a =? 226) && (byte b =? 132) && (byte c =? 170))%N then String "k" (ToLower r3)
                   else String (lower a) (ToLower r)
               | "" => String (lower a) (ToLower r)
               end
      | "" => String (lower a) ""
      end
  end.
(** [filepath.Join] of two elements, and [filepath.Rel]. *)
Definition JoinPath (a b : string) : string :=
  Clean (Join (filter (λ e, e ≠ "") [a; b]) "/").
Definition elements (path : string) : list string :=
  if bool_decide (path = ".") then [] else filter (λ e, e ≠ "") (Split path "/").
Fixpoint drop_common (base targ : list string) : list string * list string :=
  match base, targ with
  | b :: base', t :: targ' => if bool_decide (b = t) then drop_common base' targ' else (base, targ)
  | _, _ => (base, targ)
  end.
Definition Rel (basepath targpath : string) : result error string :=
  let base := Clean basepath in
  let targ := Clean targpath in
  let cannot := Errorf "Rel: can't make %s relative to %s" [AStr targpath; AStr basepath] in
  if bool_decide (targ = base) then Ok "."
  else
    reject! negb (eqb (IsAbs base) (IsAbs targ)) with cannot;
    match drop_common (elements base) (filter (λ e, e ≠ "") (Split targ "/")) with
    | ([], rest) => Ok (Join rest "/")
    | (b :: up, rest) =>
        reject! bool_decide (b = "..") && negb (bool_decide (rest = [])) with cannot;
        Ok (Join (replicate (S (length up)) ".." ++ rest) "/")
    end.
Definition joinWithinRoot (root rel : string) : result error string :=
  let abs := JoinPath root rel in
  relToRoot ← Rel root abs;
  reject! bool_decide (relToRoot = ".") || bool_decide (relToRoot = "..") || HasPrefix relToRoot "../" || IsAbs rel
    with Errorf "pathがrepository境界を越えています: %s" [AStr rel];
  Ok abs.
Example join_examples :
  joinWithinRoot "/repo" "a/../b.go" = Ok "/repo/b.go" ∧ is_ok (joinWithinRoot "/repo" "../b.go") = false ∧
  is_ok (joinWithinRoot "/repo" "/b.go") = false ∧ is_ok (joinWithinRoot "/repo" "a/..") = false ∧
  joinWithinRoot "/repo" "..b" = Ok "/repo/..b".
Proof. repeat split; reflexivity. Qed.

(** ** Classes of paths *)
Definition RoundPathClass (path : string) : string :=
  let ext := ToLower (Ext path) in
  if bool_decide (ext ∈ [".md"; ".markdown"; ".rst"; ".adoc"; ".txt"]) then RoundPathClassDoc
  else if bool_decide (ext ∈
    [".go"; ".c"; ".h"; ".cpp"; ".hpp"; ".cc"; ".hh"; ".cxx"; ".hxx";
     ".java"; ".kt"; ".kts"; ".cs"; ".swift"; ".rs"; ".dart"; ".scala";
     ".m"; ".mm"; ".php";
     ".js"; ".jsx"; ".ts"; ".tsx"; ".mjs"; ".cjs";
     ".py"; ".toml"; ".ini"; ".cfg";
     ".json"; ".css"; ".scss"; ".less"]) then RoundPathClassCode
  else if bool_decide (Base path ∈ ["LICENSE"; "NOTICE"; "CHANGELOG"; "CHANGELOG.md"]) then RoundPathClassDoc
  else RoundPathClassOther.
Definition roundCommentKind (path : string) : string :=
  let ext := ToLower (Ext path) in
  if bool_decide (ext ∈
    [".go"; ".c"; ".h"; ".cpp"; ".hpp"; ".cc"; ".hh"; ".cxx"; ".hxx";
     ".java"; ".kt"; ".kts"; ".cs"; ".swift"; ".rs"; ".dart"; ".scala";
     ".m"; ".mm"; ".php";
     ".js"; ".jsx"; ".ts"; ".tsx"; ".mjs"; ".cjs"]) then roundCommentSlash
  else if bool_decide (ext ∈ [".py"; ".toml"; ".ini"; ".cfg"]) then roundCommentHash
  else roundCommentNone.
Example class_examples :
  RoundPathClass <$> ["docs/README.md"; "LICENSE"; "CHANGELOG.md"; "main.go"; "pkg/a.tsx"; "conf/app.toml";
                      "deploy.sh"; "ci/workflow.yaml"; "x.d/binary"] =
  ["doc"; "doc"; "doc"; "code"; "code"; "code"; "other"; "other"; "other"].
Proof. reflexivity. Qed.

(** ** The meaning of a file *)
Definition quote : string := String "034" "".
Definition quotes3 : string := quote +:+ quote +:+ quote.
Definition roundSlashStringGuardMarkers (ext : string) : list string :=
  if bool_decide (ext ∈ [".java"; ".kt"; ".kts"; ".scala"]) then [quotes3]
  else if bool_decide (ext ∈ [".swift"; ".dart"]) then [quotes3; "'''"]
  else if bool_decide (ext = ".cs") then [quotes3; "@" +:+ quote]
  else if bool_decide (ext = ".rs") then ["r" +:+ quote; "#" +:+ quote]
  else if bool_decide (ext ∈ [".cpp"; ".hpp"; ".cc"; ".hh"; ".cxx"; ".hxx"; ".h"; ".mm"]) then ["R" +:+ quote]
  else [].
Definition roundSlashSemanticUnsafe (content path : string) : bool :=
  Contains content "`" ||
  let ext := ToLower (Ext path) in
  bool_decide (ext = ".php") && Contains content "<<<" ||
  existsb (Contains content) (roundSlashStringGuardMarkers ext).
Definition roundSemanticUnsafe (content path kind : string) : bool :=
  Contains content ("\" +:+ newline) ||
  (if bool_decide (kind = roundCommentSlash) then roundSlashSemanticUnsafe content path
   else if bool_decide (kind = roundCommentHash) then Contains content quotes3 || Contains content "'''"
   else false).
Definition isDirectiveIdentChar (char : ascii) (first : bool) : bool :=
  if ((97 <=? byte char) && (byte char <=? 122) || (65 <=? byte char) && (byte char <=? 90))%N then true
  else if ((48 <=? byte char) && (byte char <=? 57))%N then negb first
  else false.
(** The loop from the second byte on. *)
Fixpoint directiveLoop (rest : string) : bool :=
  match rest with
  | "" => false
  | String c rest =>
      if Ascii.eqb c ":" then true
      else if negb (isDirectiveIdentChar c false) then false else directiveLoop rest
  end.
Definition roundDirectiveComment (rest : string) : bool :=
  match rest with
  | "" => false
  | String c rest => if negb (isDirectiveIdentChar c true) then false else directiveLoop rest
  end.
Definition blanks : string := String " " (String "009" "").
Definition roundCommentLine (line kind : string) : bool :=
  let trimmed := TrimLeft line blanks in
  match (if bool_decide (kind = roundCommentSlash) then Some "//"
         else if bool_decide (kind = roundCommentHash) then Some "#" else None) with
  | None => false
  | Some marker =>
      match CutPrefix trimmed marker with
      | None => false
      | Some rest =>
          if bool_decide (kind = roundCommentHash) && (HasPrefix rest "!" || HasPrefix rest "-*-") then false
          else negb (roundDirectiveComment rest)
      end
  end.
Definition trailing : string := blanks +:+ String "013" "".
(** The lines that stay. *)
Fixpoint keptLines (kind : string) (ls : list string) : list string :=
  match ls with
  | [] => []
  | line :: ls =>
      let trimmed := TrimRight line trailing in
      if bool_decide (String.length trimmed = 0%nat) then keptLines kind ls
      else if negb (bool_decide (kind = roundCommentNone)) && roundCommentLine trimmed kind then keptLines kind ls
      else trimmed :: keptLines kind ls
  end.
Definition normalizeRoundContent (content kind : string) : string :=
  Join (keptLines kind (lines content)) newline.

Section Digests.
Context `{Host}.
Definition roundDigest (content : string) : string := sha256_hex content.
Definition RoundSemanticDigest (content class path : string) : string :=
  if bool_decide (String.length content = 0%nat) || bool_decide (class = RoundPathClassDoc) then roundDigest content
  else if negb (bool_decide (class = RoundPathClassCode)) then ""
  else
    let kind := roundCommentKind path in
    if roundSemanticUnsafe content path kind then "" else roundDigest (normalizeRoundContent content kind).

(** ** Observing the working tree *)
Inductive observed :=
  | Regular (content : result error string)
  | Symlink (target : result error string)
  | OtherFile.
Class FileTree := { Lstat : string → result error observed }.
Context `{FileTree}.
Definition ClassifyRoundPath (repoRoot relPath : string) : RoundPathState :=
  let entry := {| rp_Path := relPath; rp_Class := RoundPathClass relPath; rp_Deleted := false;
                  rp_FullDigest := ""; rp_SemanticDigest := "" |} in
  match joinWithinRoot repoRoot relPath with
  | Err _ => entry
  | Ok absPath =>
      match Lstat absPath with
      | Err e => if IsNotExist e then entry {{ rp_Deleted := true }} else entry
      | Ok (Regular (Ok content)) =>
          entry {{ rp_FullDigest := roundDigest content }}
                {{ rp_SemanticDigest := RoundSemanticDigest content (rp_Class entry) relPath }}
      | Ok (Symlink (Ok target)) => entry {{ rp_FullDigest := roundDigest target }}
      | Ok _ => entry
      end
  end.
Definition ClassifyRoundPaths (repoRoot : string) (paths : list string) : list RoundPathState :=
  ClassifyRoundPath repoRoot <$> merge_sort String.le paths.
End Digests.

(** ** Comparing two rounds

    The counts are at most the number of entries of two maps, which memory keeps
    far below the bounds of an [int]. *)
Class MapRange := {
  range {A} : nat → gmap string A → list (string * A);
  range_perm {A} n (m : gmap string A) : range n m ≡ₚ map_to_list m;
}.
Definition roundPathIndex (paths : list RoundPathState) : gmap string RoundPathState :=
  foldl (λ index entry, <[rp_Path entry := entry]> index) ∅ paths.
Definition roundSnapshotsEqual (prev curr : SnapshotDigest) : bool :=
  negb (bool_decide (sd_IndexDigest prev = "")) && negb (bool_decide (sd_WorktreeDigest prev = "")) &&
  negb (bool_decide (sd_IndexDigest curr = "")) && negb (bool_decide (sd_WorktreeDigest curr = "")) &&
  bool_decide (sd_Head prev = sd_Head curr) &&
  bool_decide (sd_IndexDigest prev = sd_IndexDigest curr) &&
  bool_decide (sd_WorktreeDigest prev = sd_WorktreeDigest curr).
Definition classOnly (class : string) : RoundDelta :=
  {| rd_Class := class; rd_ChangedPaths := 0; rd_SemanticPaths := 0; rd_DocPaths := 0 |}.
Definition initialRoundDelta (prev curr : option RoundRecord) : option RoundDelta :=
  match curr with
  | None => Some (classOnly RoundDeltaUnknown)
  | Some curr =>
      if bool_decide (rr_WorkerPhase curr = RoundWorkerPhaseBaseline) then Some (classOnly RoundDeltaBaseline)
      else match prev with
           | None => Some (classOnly RoundDeltaInitial)
           | Some prev =>
               if roundSnapshotsEqual (rr_Snapshot prev) (rr_Snapshot curr)
               then Some (classOnly RoundDeltaSameSnapshot)
               else if negb (bool_decide (rr_CaptureError prev = "")) || negb (bool_decide (rr_CaptureError curr = ""))
               then Some (classOnly RoundDeltaUnknown)
               else None
           end
  end.
Definition addDocPath (d : RoundDelta) : RoundDelta :=
  let d := d {{ rd_DocPaths := rd_DocPaths d + 1 }} in
  if negb (bool_decide (rd_Class d = RoundDeltaSemantic)) then d {{ rd_Class := RoundDeltaDocChange }} else d.
Definition addSemanticPath (d : RoundDelta) : RoundDelta :=
  d {{ rd_SemanticPaths := rd_SemanticPaths d + 1 }} {{ rd_Class := RoundDeltaSemantic }}.
Definition addChangedPath (d : RoundDelta) : RoundDelta := d {{ rd_ChangedPaths := rd_ChangedPaths d + 1 }}.
(** [prev] is [None] where the path did not exist in the round before. *)
Definition roundPathDeltaNonSemantic (prev : option RoundPathState) (curr : RoundPathState) : bool :=
  match prev with
  | None => false
  | Some prev =>
      if rp_Deleted curr || rp_Deleted prev then false
      else negb (bool_decide (rp_SemanticDigest prev = "")) && negb (bool_decide (rp_SemanticDigest curr = "")) &&
           bool_decide (rp_SemanticDigest prev = rp_SemanticDigest curr)
  end.
Definition sameContent (prev : option RoundPathState) (curr : RoundPathState) : bool :=
  match prev with
  | None => false
  | Some prev => bool_decide (rp_FullDigest prev = rp_FullDigest curr) && negb (bool_decide (rp_FullDigest curr = ""))
  end.
Definition wasDoc (prev : option RoundPathState) : bool :=
  match prev with None => false | Some prev => bool_decide (rp_Class prev = RoundPathClassDoc) end.
Definition accumulateCurrentRoundPaths (order : list (string * RoundPathState)) (previous : gmap string RoundPathState)
    (delta : RoundDelta) : RoundDelta :=
  foldl (λ delta entry,
    let '(path, currEntry) := entry in
    let prevEntry := previous !! path in
    if sameContent prevEntry currEntry then delta
    else
      let delta := addChangedPath delta in
      if bool_decide (rp_Class currEntry = RoundPathClassDoc) || wasDoc prevEntry then addDocPath delta
      else if roundPathDeltaNonSemantic prevEntry currEntry then delta
      else addSemanticPath delta) delta order.
Definition accumulateRemovedRoundPaths (order : list (string * RoundPathState)) (current : gmap string RoundPathState)
    (delta : RoundDelta) : RoundDelta :=
  foldl (λ delta entry,
    let '(path, prevEntry) := entry in
    if bool_decide (is_Some (current !! path)) then delta
    else
      let delta := addChangedPath delta in
      if bool_decide (rp_Class prevEntry = RoundPathClassDoc) then addDocPath delta
      else addSemanticPath delta) delta order.
Definition CompareRoundRecords `{MapRange} (prev curr : option RoundRecord) : RoundDelta :=
  match initialRoundDelta prev curr, prev, curr with
  | Some initial, _, _ => initial
  | None, Some prev, Some curr =>
      let previous := roundPathIndex (rr_Paths prev) in
      let current := roundPathIndex (rr_Paths curr) in
      let delta := classOnly RoundDeltaCommentFormat in
      let delta := accumulateCurrentRoundPaths (range 0 current) previous delta in
      let delta := accumulateRemovedRoundPaths (range 1 previous) current delta in
      if bool_decide (rd_ChangedPaths delta = 0) then classOnly RoundDeltaUnknown else delta
  | None, _, _ => classOnly RoundDeltaUnknown
  end.

(** ** The log *)
Section Log.
Context `{JSONText RoundRecord Some}.
Definition RoundLogPath (taskID : string) : list string := ["rounds"; taskID +:+ ".jsonl"].
Definition ParseRoundLine (data : string) : result error RoundRecord :=
  match unmarshal data with
  | None => Err (Errorf "round recordを読めません: %w" [AErr json_error])
  | Some record =>
      reject! negb (bool_decide (rr_Version record = roundLogVersion))
        with Errorf "unsupported round record version: %d" [AStr (FormatInt (rr_Version record))];
      Ok record
  end.
Fixpoint parseLines (ls : list string) : result error (list RoundRecord) :=
  match ls with
  | [] => Ok []
  | line :: ls =>
      if bool_decide (line = "") then parseLines ls
      else
        record ← ParseRoundLine line;
        records ← parseLines ls;
        Ok (record :: records)
  end.
Definition ReadRoundRecords (taskID : string) : io (list RoundRecord) :=
  data ← ReadFile (RoundLogPath taskID);
  lift (parseLines (lines (TrimRightByte data LF))).
Definition AppendRoundRecord (record : RoundRecord) : io unit :=
  let record := if bool_decide (rr_Version record = 0) then record {{ rr_Version := roundLogVersion }} else record in
  r ← attempt (ReadRoundRecords (rr_TaskID record));
  let seq := match r with
             | Ok records => match last records with Some previous => inc (rr_Seq previous) | None => 1 end
             | Err _ => 1
             end in
  appendStateJSONL (RoundLogPath (rr_TaskID record)) (marshal (record {{ rr_Seq := seq }})).
End Log.

(** ** The reference for a comparison

    What happened to one path, and the summary of what happened to all. *)
Inductive change := Semantic | Documentation | Format.
#[export] Instance change_eq_dec : EqDecision change.
Proof. solve_decision. Defined.
Definition path_change (prev curr : option RoundPathState) : option change :=
  match curr, prev with
  | None, None => None
  | None, Some p => Some (if bool_decide (rp_Class p = RoundPathClassDoc) then Documentation else Semantic)
  | Some c, _ =>
      if sameContent prev c then None
      else Some (if bool_decide (rp_Class c = RoundPathClassDoc) || wasDoc prev then Documentation
                 else if roundPathDeltaNonSemantic prev c then Format else Semantic)
  end.
Definition count_of (x : change) (cs : list change) : Z := Z.of_nat (length (filter (x =.) cs)).
Definition tally (cs : list change) : RoundDelta := {|
  rd_Class := if bool_decide (Semantic ∈ cs) then RoundDeltaSemantic
              else if bool_decide (Documentation ∈ cs) then RoundDeltaDocChange else RoundDeltaCommentFormat;
  rd_ChangedPaths := Z.of_nat (length cs);
  rd_SemanticPaths := count_of Semantic cs;
  rd_DocPaths := count_of Documentation cs;
|}.
Definition path_changes (prev curr : RoundRecord) : gmap string change :=
  merge path_change (roundPathIndex (rr_Paths prev)) (roundPathIndex (rr_Paths curr)).
Definition summary (cs : list change) : RoundDelta :=
  if bool_decide (cs = []) then classOnly RoundDeltaUnknown else tally cs.

Definition add_change (d : RoundDelta) (x : change) : RoundDelta :=
  let d := addChangedPath d in
  match x with Documentation => addDocPath d | Semantic => addSemanticPath d | Format => d end.
Lemma count_of_snoc x cs y : count_of x (cs ++ [y]) = count_of x cs + (if decide (x = y) then 1 else 0).
Proof. unfold count_of. rewrite filter_app, length_app. rewrite filter_cons, filter_nil. destruct (decide (x = y)); simpl; lia. Qed.
Lemma member_snoc (x : change) cs y : bool_decide (x ∈ cs ++ [y]) = bool_decide (x ∈ cs) || bool_decide (x = y).
Proof. rewrite <- bool_decide_or. apply bool_decide_ext. by rewrite elem_of_app, list_elem_of_singleton. Qed.
Lemma tally_snoc cs x : add_change (tally cs) x = tally (cs ++ [x]).
Proof.
  unfold tally. rewrite !member_snoc, !count_of_snoc, length_app, Nat2Z.inj_add.
  unfold add_change, addChangedPath, addDocPath, addSemanticPath.
  destruct x; rewrite ?(bool_decide_true (_ = _)), ?(bool_decide_false (Semantic = _)),
    ?(bool_decide_false (Documentation = _)), ?orb_true_r, ?orb_false_r by done; simpl.
  - by rewrite Z.add_0_r.
  - destruct (bool_decide (Semantic ∈ cs)); [|destruct (bool_decide (Documentation ∈ cs))]; simpl; by rewrite Z.add_0_r.
  - by rewrite !Z.add_0_r.
Qed.
Lemma tally_foldl cs ds : foldl add_change (tally cs) ds = tally (cs ++ ds).
Proof.
  revert cs. induction ds as [|x ds IH]; intros cs; [by rewrite app_nil_r|].
  cbn [foldl]. rewrite tally_snoc, IH, <- app_assoc. done.
Qed.
Lemma member_perm (x : change) cs ds : cs ≡ₚ ds → bool_decide (x ∈ cs) = bool_decide (x ∈ ds).
Proof. intros Hp. apply bool_decide_ext. by rewrite Hp. Qed.
Lemma count_of_perm x cs ds : cs ≡ₚ ds → count_of x cs = count_of x ds.
Proof. intros Hp. unfold count_of. by rewrite Hp. Qed.
#[export] Instance tally_perm : Proper (Permutation ==> eq) tally.
Proof.
  intros cs ds Hp. unfold tally.
  by rewrite !(member_perm _ cs ds), !(count_of_perm _ cs ds), (Permutation_length Hp) by done.
Qed.
#[export] Instance summary_perm : Proper (Permutation ==> eq) summary.
Proof.
  intros cs ds Hp. unfold summary. rewrite (tally_perm _ _ Hp), (bool_decide_ext _ (ds = [])); [done|].
  split; intros ->; [by apply Permutation_nil_l in Hp|by apply Permutation_nil_r in Hp].
Qed.

Definition current_change (previous : gmap string RoundPathState) (e : string * RoundPathState) : option change :=
  path_change (previous !! e.1) (Some e.2).
Definition removed_change (current : gmap string RoundPathState) (e : string * RoundPathState) : option change :=
  if bool_decide (is_Some (current !! e.1)) then None else path_change (Some e.2) None.
Lemma foldl_omap {A} (step : RoundDelta → A → RoundDelta) (f : A → option change) l d :
  (∀ d x, step d x = match f x with Some c => add_change d c | None => d end) →
  foldl step d l = foldl add_change d (omap f l).
Proof.
  intros Hs. revert d. induction l as [|x l IH]; intros d; [done|]. cbn [foldl omap list_omap]. rewrite Hs, IH.
  by destruct (f x).
Qed.
Lemma current_foldl order previous delta :
  accumulateCurrentRoundPaths order previous delta = foldl add_change delta (omap (current_change previous) order).
Proof.
  apply foldl_omap. intros d [p c]. unfold current_change, path_change. simpl.
  destruct (sameContent _ _); [done|]. destruct (_ || _); [done|]. by destruct (roundPathDeltaNonSemantic _ _).
Qed.
Lemma removed_foldl order current delta :
  accumulateRemovedRoundPaths order current delta = foldl add_change delta (omap (removed_change current) order).
Proof.
  apply foldl_omap. intros d [p c]. unfold removed_change, path_change. simpl.
  case_bool_decide; [done|]. by case_bool_decide.
Qed.

(** The two loops find each change of the reference once. *)
Lemma omap_keyed_perm {A} (f : string * A → option change) (m : gmap string A) :
  omap f (map_to_list m) ≡ₚ (map_to_list (map_imap (λ k x, f (k, x)) m)).*2.
Proof.
  induction m as [|k x m Hk IH] using map_ind.
  - rewrite map_to_list_empty. done.
  - rewrite map_to_list_insert by done. cbn [omap list_omap].
    assert (map_imap (λ k x, f (k, x)) (<[k := x]> m) =
            match f (k, x) with Some c => <[k := c]> (map_imap (λ k x, f (k, x)) m)
                              | None => map_imap (λ k x, f (k, x)) m end) as ->.
    { apply map_eq. intros j. rewrite map_lookup_imap. destruct (decide (j = k)) as [->|Hj].
      - rewrite lookup_insert_eq. simpl. destruct (f (k, x)); [by rewrite lookup_insert_eq|].
        by rewrite map_lookup_imap, Hk.
      - rewrite lookup_insert_ne by done. destruct (f (k, x)); [rewrite lookup_insert_ne by done|];
          by rewrite map_lookup_imap. }
    destruct (f (k, x)) as [c|]; [|done].
    rewrite map_to_list_insert by by rewrite map_lookup_imap, Hk. simpl. by rewrite IH.
Qed.
Lemma map_to_list_disj_union {A} (m1 m2 : gmap string A) :
  m1 ##ₘ m2 → map_to_list (m1 ∪ m2) ≡ₚ map_to_list m1 ++ map_to_list m2.
Proof.
  induction m1 as [|k x m1 Hk IH] using map_ind; intros Hd.
  - by rewrite map_to_list_empty, (left_id_L ∅ (∪)).
  - apply map_disjoint_insert_l in Hd as [Hn Hd].
    rewrite <- insert_union_l, !map_to_list_insert, IH by (done || by apply lookup_union_None). done.
Qed.
Lemma loops_perm (previous current : gmap string RoundPathState) l1 l2 :
  l1 ≡ₚ map_to_list current → l2 ≡ₚ map_to_list previous →
  omap (current_change previous) l1 ++ omap (removed_change current) l2 ≡ₚ
  (map_to_list (merge path_change previous current)).*2.
Proof.
  intros H1 H2. rewrite H1, H2, !omap_keyed_perm, <- fmap_app, <- map_to_list_disj_union.
  - apply Permutation_map. f_equiv. apply map_eq. intros k.
    rewrite lookup_merge, lookup_union, !map_lookup_imap. unfold current_change, removed_change. simpl.
    destruct (current !! k) as [c|], (previous !! k) as [p|]; cbn -[path_change]; try done.
    by rewrite (right_id_L None (∪)).
  - apply map_disjoint_spec. intros k x y. rewrite !map_lookup_imap. unfold removed_change. simpl.
    destruct (current !! k) as [c|], (previous !! k) as [p|]; simpl; try done.
Qed.
Lemma compare_summary `{MapRange} prev curr :
  initialRoundDelta (Some prev) (Some curr) = None →
  CompareRoundRecords (Some prev) (Some curr) = summary ((map_to_list (path_changes prev curr)).*2).
Proof.
  intros Hi. unfold CompareRoundRecords. rewrite Hi, current_foldl, removed_foldl.
  change (classOnly RoundDeltaCommentFormat) with (tally []). rewrite !tally_foldl. cbn [app]. unfold path_changes.
  rewrite <- (summary_perm _ _ (loops_perm _ _ _ _ (range_perm 0 _) (range_perm 1 _))).
  unfold summary. destruct (_ ++ _); [done|]. by rewrite !bool_decide_false by (simpl; lia || done).
Qed.

(** C20: Two rounds compare as the summary of what happened to each path: the
    changes counted by kind, a change of the code before a change of documents
    before a change of comments only; in whatever order the maps are visited. *)
Theorem CompareRoundRecords_spec (r1 r2 : MapRange) prev curr :
  CompareRoundRecords (H:=r1) prev curr = CompareRoundRecords (H:=r2) prev curr ∧
  CompareRoundRecords (H:=r1) prev curr =
    match initialRoundDelta prev curr, prev, curr with
    | None, Some prev, Some curr => summary ((map_to_list (path_changes prev curr)).*2)
    | Some initial, _, _ => initial
    | None, _, _ => classOnly RoundDeltaUnknown
    end.
Proof.
  assert (∀ r, CompareRoundRecords (H:=r) prev curr =
    match initialRoundDelta prev curr, prev, curr with
    | None, Some prev, Some curr => summary ((map_to_list (path_changes prev curr)).*2)
    | Some initial, _, _ => initial
    | None, _, _ => classOnly RoundDeltaUnknown
    end) as E.
  { intros r. destruct (initialRoundDelta prev curr) as [i|] eqn:Hi; [by unfold CompareRoundRecords; rewrite Hi|].
    destruct prev, curr; try by (unfold CompareRoundRecords; rewrite Hi). by apply compare_summary. }
  by rewrite !E.
Qed.

(** *** Files that stay deleted *)
Lemma roundPathIndex_lookup paths p e :
  roundPathIndex paths !! p = Some e → e ∈ paths ∧ rp_Path e = p.
Proof.
  unfold roundPathIndex.
  assert (∀ m : gmap string RoundPathState, foldl (λ index entry, <[rp_Path entry := entry]> index) m paths !! p = Some e →
               (e ∈ paths ∧ rp_Path e = p) ∨ m !! p = Some e) as Hfold.
  { induction paths as [|x paths IH]; intros m; [by right|]. cbn [foldl]. intros [[? ?]|Hm]%IH; [left; set_solver|].
    destruct (decide (rp_Path x = p)) as [<-|Hp]; [rewrite lookup_insert_eq in Hm|rewrite lookup_insert_ne in Hm by done].
    - simplify_eq. left. set_solver.
    - by right. }
  intros H. apply Hfold in H as [?|?]; done.
Qed.
Lemma roundPathIndex_is_Some paths e : e ∈ paths → is_Some (roundPathIndex paths !! rp_Path e).
Proof.
  unfold roundPathIndex.
  assert (∀ (m : gmap string RoundPathState) p, is_Some (m !! p) ∨ (∃ e, e ∈ paths ∧ rp_Path e = p) →
                 is_Some (foldl (λ index entry, <[rp_Path entry := entry]> index) m paths !! p)) as Hfold.
  { induction paths as [|x paths IH]; intros m p Hp; [destruct Hp as [|(? & ?%elem_of_nil & _)]; done|].
    cbn [foldl]. apply IH. destruct (decide (rp_Path x = p)) as [<-|Hx]; [left; rewrite lookup_insert_eq; eauto|].
    rewrite lookup_insert_ne by done. destruct Hp as [?|(y & Hy & <-)]; [by left|].
    apply elem_of_cons in Hy as [->|Hy]; [done|right; eauto]. }
  intros He. apply Hfold. eauto.
Qed.
Lemma ClassifyRoundPath_Path `{Host, FileTree} root p : rp_Path (ClassifyRoundPath root p) = p.
Proof. unfold ClassifyRoundPath. repeat case_match; done. Qed.
Lemma ClassifyRoundPaths_index `{Host, FileTree} root paths p :
  p ∈ paths → roundPathIndex (ClassifyRoundPaths root paths) !! p = Some (ClassifyRoundPath root p).
Proof.
  intros Hp. unfold ClassifyRoundPaths.
  assert (ClassifyRoundPath root p ∈ ClassifyRoundPath root <$> merge_sort String.le paths) as He.
  { apply list_elem_of_fmap_2. by rewrite merge_sort_Permutation. }
  apply roundPathIndex_is_Some in He as [e He]. rewrite ClassifyRoundPath_Path in He.
  pose proof (roundPathIndex_lookup _ _ _ He) as [(q & -> & Hq)%list_elem_of_fmap Hpe].
  rewrite ClassifyRoundPath_Path in Hpe. by subst.
Qed.
Lemma ClassifyRoundPath_gone `{Host, FileTree} root p abs e :
  joinWithinRoot root p = Ok abs → Lstat abs = Err e → IsNotExist e = true →
  ClassifyRoundPath root p =
    {| rp_Path := p; rp_Class := RoundPathClass p; rp_Deleted := true; rp_FullDigest := ""; rp_SemanticDigest := "" |}.
Proof. intros Hj Hl He. unfold ClassifyRoundPath. by rewrite Hj, Hl, He. Qed.

Lemma initialRoundDelta_compared prev curr :
  rr_WorkerPhase curr ≠ RoundWorkerPhaseBaseline → roundSnapshotsEqual (rr_Snapshot prev) (rr_Snapshot curr) = false →
  rr_CaptureError prev = "" → rr_CaptureError curr = "" → initialRoundDelta (Some prev) (Some curr) = None.
Proof. intros Hb Hs Hp Hc. unfold initialRoundDelta. by rewrite bool_decide_false, Hs, Hp, Hc by done. Qed.

(** C39: A file, other than a document, that was already gone when a round was
    recorded and is still gone at the next counts as a change of the code in the
    next round.  This is so of any two rounds that are compared path by path: the
    later one is not the baseline, the snapshots differ, and neither was captured with
    an error; it does not depend on what happened to the other paths, so a round in
    which only a comment or a document changed is classed as a change of the code. *)
Theorem gone_file_counts_again `{Host, MapRange} (before after : FileTree) root paths1 paths2 p abs e1 e2 prev curr :
  rr_Paths prev = ClassifyRoundPaths (H0:=before) root paths1 →
  rr_Paths curr = ClassifyRoundPaths (H0:=after) root paths2 →
  p ∈ paths1 → p ∈ paths2 → RoundPathClass p ≠ RoundPathClassDoc → joinWithinRoot root p = Ok abs →
  Lstat (FileTree:=before) abs = Err e1 → IsNotExist e1 = true →
  Lstat (FileTree:=after) abs = Err e2 → IsNotExist e2 = true →
  rr_WorkerPhase curr ≠ RoundWorkerPhaseBaseline → roundSnapshotsEqual (rr_Snapshot prev) (rr_Snapshot curr) = false →
  rr_CaptureError prev = "" → rr_CaptureError curr = "" →
  rd_Class (CompareRoundRecords (Some prev) (Some curr)) = RoundDeltaSemantic ∧
  rd_SemanticPaths (CompareRoundRecords (Some prev) (Some curr)) > 0.
Proof.
  intros Hp Hc Hp1 Hp2 Hdoc Hj H1 Hn1 H2 Hn2 Hb Hs Hcp Hcc.
  rewrite compare_summary by (by apply initialRoundDelta_compared). clear Hb Hs Hcp Hcc.
  set (cs := (map_to_list (path_changes prev curr)).*2).
  assert (Semantic ∈ cs) as Hs.
  { apply list_elem_of_fmap. exists (p, Semantic). split; [done|]. apply elem_of_map_to_list.
    unfold path_changes. rewrite lookup_merge, Hp, Hc, !ClassifyRoundPaths_index by done.
    rewrite !(ClassifyRoundPath_gone _ _ abs _ Hj) by eauto using H1, H2. cbn.
    by rewrite andb_false_r, bool_decide_false. }
  unfold summary. rewrite bool_decide_false by (intros E; rewrite E in Hs; by apply elem_of_nil in Hs).
  unfold tally. cbn. rewrite bool_decide_true by done. split; [done|]. unfold count_of.
  assert (Semantic ∈ filter (Semantic =.) cs) as Hf by (by apply list_elem_of_filter).
  destruct (filter (Semantic =.) cs); [by apply elem_of_nil in Hf|simpl; lia].
Qed.

(** *** The log reads back

    The log of a task, as the operations leave it: a line for each record. *)
Section ReadBack.
Context `{JSONText RoundRecord Some}.
(** A line of JSON: [json.Marshal] writes line feeds inside of strings escaped. *)
Definition one_line (r : RoundRecord) : Prop := clean r ∧ no_char LF (marshal r) ∧ marshal r ≠ "".
Definition log_text (rs : list RoundRecord) : string := foldr (λ r text, marshal r +:+ newline +:+ text) "" rs.
Definition holds_text (p : list string) (s : string) (d : Disk) : Prop :=
  match files d !! p with Some doc => doc = DocFile (plain s mode600) | None => s = "" end.
Lemma holds_bytes p s d : holds_text p s d → file_bytes (files d !! p) = s.
Proof. unfold holds_text. by destruct (files d !! p) as [doc|]; [intros ->|intros ->]. Qed.
Definition logged (taskID : string) (rs : list RoundRecord) (d : Disk) : Prop :=
  RoundLogPath taskID ∉ unreadable d ∧ Forall (λ r, one_line r ∧ rr_Version r = roundLogVersion) rs ∧
  holds_text (RoundLogPath taskID) (log_text rs) d.
(** The record as it is stored after the records [rs]. *)
Definition numbered (rs : list RoundRecord) (r : RoundRecord) : RoundRecord :=
  (r {{ rr_Version := roundLogVersion }})
    {{ rr_Seq := match last rs with Some previous => inc (rr_Seq previous) | None => 1 end }}.

Lemma log_text_snoc rs r : log_text (rs ++ [r]) = log_text rs +:+ marshal r +:+ newline.
Proof. unfold log_text. induction rs as [|x rs IH]; [done|]. cbn [app foldr]. by rewrite IH, !app_assoc_str. Qed.
Lemma parseLines_blank ls : parseLines (ls ++ [""]) = parseLines ls.
Proof.
  induction ls as [|l ls IH]; [done|]. cbn [app parseLines]. rewrite IH. done.
Qed.
Lemma parseLines_trim s : parseLines (lines (TrimRightByte s LF)) = parseLines (lines s).
Proof.
  unfold TrimRightByte. rewrite <- (rev_involutive_str s) at 2. induction (String.rev s) as [|c r IH]; [done|].
  cbn [dropLeading]. case_bool_decide as Hc; [|done]. subst c.
  unfold lines in *. by rewrite IH, rev_cons_str, (Split_app_sep _ "" LF), parseLines_blank.
Qed.
Lemma parse_log rs :
  Forall (λ r, one_line r ∧ rr_Version r = roundLogVersion) rs → parseLines (lines (log_text rs)) = Ok rs.
Proof.
  induction 1 as [|r rs [(Hc & Hn & Hne) Hv] _ IH]; [done|]. cbn [log_text foldr].
  change (lines _) with (Split (marshal r +:+ String LF (log_text rs)) LF). rewrite Split_app by done.
  cbn [parseLines]. rewrite bool_decide_false by done. unfold ParseRoundLine.
  rewrite (unmarshal_marshal r r), (bool_decide_true _ Hv) by done. cbn -[lines]. unfold lines in *. by rewrite IH.
Qed.
Lemma read_log taskID rs d :
  logged taskID rs d →
  ReadRoundRecords taskID d =
    (match files d !! RoundLogPath taskID with Some _ => Ok rs | None => Err (ErrNotExist (RoundLogPath taskID)) end, d).
Proof.
  intros (Hr & Hrs & Hf). unfold holds_text in Hf. unfold ReadRoundRecords, ReadFile, readJSON, mbind, io_bind.
  rewrite bool_decide_false by done. destruct (files d !! _) as [doc|]; [|done]. subst doc. cbn -[lines TrimRightByte].
  unfold lift. by rewrite parseLines_trim, parse_log.
Qed.
Lemma log_text_nil rs : log_text rs = "" → rs = [].
Proof.
  destruct rs as [|r rs]; [done|]. cbn. intros E. apply (f_equal String.length) in E.
  rewrite !length_app_str in E. simpl in E. lia.
Qed.
Lemma append_numbered taskID rs r d :
  logged taskID rs d → rr_TaskID r = taskID → rr_Version r = 0 →
  AppendRoundRecord r d = appendStateJSONL (RoundLogPath taskID) (marshal (numbered rs r)) d.
Proof.
  intros Hl Ht Hv. pose proof (read_log _ _ _ Hl) as Hread. destruct Hl as (Hr & Hrs & Hf).
  unfold AppendRoundRecord, numbered. rewrite Hv, bool_decide_true by done.
  change (rr_TaskID (r {{ rr_Version := roundLogVersion }})) with (rr_TaskID r). rewrite Ht.
  unfold mbind, io_bind, attempt. rewrite Hread. unfold holds_text in Hf.
  destruct (files d !! _); [done|]. by rewrite (log_text_nil rs Hf).
Qed.

(** *** One append

    Whatever the environment does, the file has a first part of the line after what it
    had before, and all of it when the append succeeds. *)
Definition keeps_media (d d' : Disk) : Prop :=
  unreadable d' = unreadable d ∧ unwritable d' = unwritable d ∧ (power d = None → power d' = None).
Lemma keeps_trans d1 d2 d3 : keeps_media d1 d2 → keeps_media d2 d3 → keeps_media d1 d3.
Proof. unfold keeps_media. intros (-> & -> & H1) (-> & -> & H2). auto. Qed.
Lemma keeps_put p doc d : keeps_media d (put_file p doc d).
Proof. split; [done|]. split; [done|]. exact (spend_unlimited d). Qed.
Lemma holds_put p s d : holds_text p s (put_file p (to_doc (plain s mode600)) d).
Proof. unfold holds_text. by rewrite files_put, lookup_insert_eq. Qed.
Lemma write_bytes_runs p data s d : holds_text p s d →
  let '(res, d') := write_bytes p data d in
  keeps_media d d' ∧ ∃ part rest, data = part +:+ rest ∧ holds_text p (s +:+ part) d' ∧
  (res = Ok () → rest = "") ∧ (power d = None → res = Ok ()).
Proof.
  revert s d. induction data as [|c data IH]; intros s d Hs; cbn.
  { split; [done|]. exists "", "". by autorewrite with go. }
  destruct (stopped d) eqn:Hst.
  { split; [done|]. exists "", (String c data). autorewrite with go. split_and!; [done..|].
    intros Hp. by rewrite up_running in Hst. }
  rewrite (holds_bytes p s d Hs).
  specialize (IH (s +:+ String c "") _ (holds_put p (s +:+ String c "") d)).
  destruct (write_bytes p data _) as [res d']. destruct IH as (Hk & part & rest & -> & Hh & Hr & Hok).
  split; [by eapply keeps_trans; [apply keeps_put|]|]. exists (String c part), rest. rewrite app_assoc_str in Hh.
  split_and!; [done..|]. intros Hp. apply Hok. exact (spend_unlimited d Hp).
Qed.
(** A step that leaves the text as it is, and fails only where something is refused. *)
Definition quiet_step (p : list string) (m : io unit) : Prop :=
  ∀ s d, holds_text p s d → removelast p ∈ dirs d →
  let '(res, d') := m d in
  keeps_media d d' ∧ holds_text p s d' ∧ removelast p ∈ dirs d' ∧
  (power d = None → p ∉ unwritable d → res = Ok ()).
Lemma open_step p : quiet_step p (open_append p).
Proof.
  intros s d Hs Hd. unfold open_append. case_bool_decide as Hw; [by split_and!|].
  case_bool_decide as Hf; [by split_and!|].
  destruct (stopped d) eqn:Hst; [split_and!; try done; intros Hp; by rewrite up_running in Hst|].
  rewrite bool_decide_true by done. split_and!; [apply keeps_put| |done|done].
  unfold holds_text in Hs. rewrite Hf in Hs. subst s. apply holds_put.
Qed.
Lemma chmod_step p : quiet_step p (chmod600 p).
Proof.
  intros s d Hs Hd. unfold chmod600.
  destruct (stopped d) eqn:Hst; [split_and!; try done; intros Hp; by rewrite up_running in Hst|].
  split_and!; [apply keeps_put| |done|done]. rewrite (holds_bytes p s d Hs). apply holds_put.
Qed.
Lemma mkdir_step p q d : removelast p = q →
  let '(res, d') := MkdirAll q d in
  keeps_media d d' ∧ files d' = files d ∧ (res = Ok () → q ∈ dirs d') ∧
  (power d = None → q ∉ unwritable d → res = Ok ()).
Proof.
  intros _. unfold MkdirAll. destruct (_ || _) eqn:E.
  - split_and!; [done..|]. intros Hp Hq. rewrite (bool_decide_false _ Hq), up_running in E; done.
  - split_and!; [|done| |done].
    + split; [done|]. split; [done|]. exact (spend_unlimited d).
    + intros _. cbn. apply elem_of_union_l, elem_of_list_to_set, elem_of_prefixes_refl.
Qed.
(** What an append may leave behind. *)
Definition appended (p : list string) (s data : string) (d : Disk) (res : result error unit) (d' : Disk) : Prop :=
  keeps_media d d' ∧ ∃ part rest, data = part +:+ rest ∧ holds_text p (s +:+ part) d' ∧ (res = Ok () → rest = "").
Lemma appended_failed p s data d e d' : keeps_media d d' → holds_text p s d' → appended p s data d (Err e) d'.
Proof. intros Hk Hh. split; [done|]. exists "", data. by autorewrite with go. Qed.
Lemma appended_after p s data d d1 res d' : keeps_media d d1 → appended p s data d1 res d' → appended p s data d res d'.
Proof. intros Hk [Hk' Ha]. split; [by eapply keeps_trans|done]. Qed.
Lemma append_file_runs p data s d : holds_text p s d → removelast p ∈ dirs d →
  let '(res, d') := append_file p data d in
  appended p s data d res d' ∧ (power d = None → p ∉ unwritable d → res = Ok ()).
Proof.
  intros Hs Hdir. unfold append_file. unfold mbind at 1, io_bind at 1.
  pose proof (open_step p s d Hs Hdir) as Ho. destruct (open_append p d) as [[[]|e] d1]; destruct Ho as (Hk1 & Hs1 & Hd1 & Hok1);
    [|split; [by apply appended_failed|done]].
  pose proof (chmod_step p s d1 Hs1 Hd1) as Hc. unfold mbind at 1, io_bind at 1.
  assert (power d = None → p ∉ unwritable d → power d1 = None ∧ p ∉ unwritable d1) as H1.
  { destruct Hk1 as (_ & -> & Hp). auto. }
  destruct (chmod600 p d1) as [[[]|e] d2]; destruct Hc as (Hk2 & Hs2 & Hd2 & Hok2); cycle 1.
  { split; [by apply appended_failed; [eapply keeps_trans|]|]. intros Hp Hw. destruct (H1 Hp Hw). auto. }
  assert (power d = None → power d2 = None) as H2 by (destruct Hk1 as (_ & _ & ?), Hk2 as (_ & _ & ?); auto).
  assert (keeps_media d d2) as Hk by by eapply keeps_trans.
  pose proof (write_bytes_runs p data s d2 Hs2) as Hw. unfold mbind, io_bind, close_file.
  destruct (write_bytes p data d2) as [[[]|e] d3]; destruct Hw as (Hk3 & part & rest & -> & Hh & Hr & Hok3).
  - rewrite (Hr eq_refl) in *. assert (keeps_media d d3) as Hkd by by eapply keeps_trans.
    destruct (stopped d3) eqn:Hst.
    + split; [split; [done|]; by exists part, ""|]. intros Hp _. destruct Hkd as (_ & _ & Hpp). by rewrite up_running in Hst by auto.
    + split; [split; [done|]; by exists part, ""|done].
  - split; [split; [by eapply keeps_trans|by exists part, rest]|]. intros Hp _. specialize (Hok3 (H2 Hp)). done.
Qed.
Lemma append_line_runs p line s d : holds_text p s d →
  let '(res, d') := appendStateJSONL p line d in
  appended p s (line +:+ newline) d res d' ∧
  (power d = None → removelast p ∉ unwritable d → p ∉ unwritable d → res = Ok ()).
Proof.
  intros Hs. unfold appendStateJSONL. unfold mbind, io_bind.
  pose proof (mkdir_step p (removelast p) d eq_refl) as Hm.
  destruct (MkdirAll (removelast p) d) as [[[]|e] d1]; destruct Hm as (Hk & Hf & Hd & Hok).
  - assert (holds_text p s d1) as Hs1 by by unfold holds_text; rewrite Hf.
    pose proof (append_file_runs p (line +:+ newline) s d1 Hs1 (Hd eq_refl)) as Ha.
    destruct (append_file p _ d1) as [res d']. destruct Ha as [Ha Hr]. split; [by eapply appended_after|].
    intros Hp _ Hw. destruct Hk as (_ & Hu & Hpp). apply Hr; [by apply Hpp|by rewrite Hu].
  - split; [apply appended_failed; [done|by unfold holds_text; rewrite Hf]|]. auto.
Qed.

(** *** One append after another

    Each append has an environment of its own: the paths that are refused, and the
    changes the file system takes before it refuses all of them. *)
Record environment := { en_unwritable : gset (list string); en_power : option nat }.
Definition under (env : environment) (d : Disk) : Disk :=
  d {{ unwritable := en_unwritable env; power := en_power env }}.
(** What became of a record: stored; reported as failed, with its whole line in
    the log; not in the log at all; or in the log in part. *)
Inductive fate := Stored | Kept | Lost | Torn.
Definition log_bytes (taskID : string) (d : Disk) : string := file_bytes (files d !! RoundLogPath taskID).
Definition fate_of (res : result error unit) (before after : string) : fate :=
  if is_ok res then Stored else if bool_decide (after = before) then Lost
  else if HasSuffix after newline then Kept else Torn.
(** Appending goes on after a failure, until a line is torn. *)
Fixpoint append_all (taskID : string) (appends : list (RoundRecord * environment)) (d : Disk) :
    list (RoundRecord * fate) * Disk :=
  match appends with
  | [] => ([], d)
  | (r, env) :: appends =>
      let d := under env d in
      let '(res, d1) := AppendRoundRecord r d in
      let f := fate_of res (log_bytes taskID d) (log_bytes taskID d1) in
      match f with
      | Torn => ([(r, Torn)], d1)
      | _ => let '(fates, d2) := append_all taskID appends d1 in ((r, f) :: fates, d2)
      end
  end.
Definition whole (f : fate) : bool := match f with Stored | Kept => true | Lost | Torn => false end.
Definition kept (fates : list (RoundRecord * fate)) : list RoundRecord :=
  (filter (λ x, whole x.2 = true) fates).*1.
Definition torn (fates : list (RoundRecord * fate)) : option RoundRecord :=
  match last fates with Some (r, Torn) => Some r | _ => None end.
(** The [i]-th record of a log. *)
Definition sealed (i : nat) (r : RoundRecord) : RoundRecord :=
  (r {{ rr_Version := roundLogVersion }}) {{ rr_Seq := Z.of_nat i + 1 }}.
Lemma numbered_sealed records r :
  Z.of_nat (length records) < max64 → numbered (imap sealed records) r = sealed (length records) r.
Proof.
  intros Hn. unfold numbered. unfold sealed at 2. f_equal.
  destruct records as [|x records _] using rev_ind; [done|]. rewrite imap_app. simpl. rewrite last_snoc.
  rewrite length_app in *. unfold inc. change (rr_Seq (sealed ?n ?r)) with (Z.of_nat n + 1).
  change (length [x]) with 1%nat in *. rewrite Nat.add_0_r, i64_id by (unfold min64, max64 in *; lia). do 2 f_equal. lia.
Qed.
Definition appendable (taskID : string) (n : nat) (r : RoundRecord) : Prop :=
  rr_TaskID r = taskID ∧ rr_Version r = 0 ∧ ∀ i, (i < n)%nat → one_line (sealed i r).

Lemma snoc_view s : s = "" ∨ ∃ q c, s = q +:+ String c "".
Proof.
  rewrite <- (rev_involutive_str s). destruct (String.rev s) as [|c r]; [by left|right].
  exists (String.rev r), c. apply rev_cons_str.
Qed.
Lemma snoc_inj q1 c1 q2 c2 : q1 +:+ String c1 "" = q2 +:+ String c2 "" → q1 = q2 ∧ c1 = c2.
Proof.
  intros E. apply (f_equal String.rev) in E. rewrite !rev_append_str in E. injection E as <- E.
  split; [|done]. rewrite <- (rev_involutive_str q1), <- (rev_involutive_str q2). by f_equal.
Qed.
(** A part of a line and what is missing of it. *)
Lemma line_parts s line part rest :
  no_char LF line → line +:+ newline = part +:+ rest → part ≠ "" →
  HasSuffix (s +:+ part) newline = true ↔ rest = "".
Proof.
  intros Hn E Hp. split.
  - intros (r & Hr)%HasSuffix_true. destruct (snoc_view part) as [|(q & c & ->)]; [done|].
    rewrite <- app_assoc_str in Hr. apply snoc_inj in Hr as [_ ->].
    destruct (snoc_view rest) as [|(q' & c' & ->)]; [done|exfalso].
    rewrite <- app_assoc_str in E. apply snoc_inj in E as [-> _]. rewrite !no_char_app in Hn.
    destruct Hn as [[_ [? _]] _]. done.
  - intros ->. rewrite app_nil_r_str in E. rewrite <- E, <- app_assoc_str. apply HasSuffix_app.
Qed.
Lemma one_append taskID rs r d :
  logged taskID rs d → rr_TaskID r = taskID → rr_Version r = 0 → one_line (numbered rs r) →
  let '(res, d') := AppendRoundRecord r d in
  unreadable d' = unreadable d ∧
  match fate_of res (log_bytes taskID d) (log_bytes taskID d') with
  | Stored | Kept => logged taskID (rs ++ [numbered rs r]) d'
  | Lost => logged taskID rs d'
  | Torn => ∃ part rest, part ≠ "" ∧ rest ≠ "" ∧ marshal (numbered rs r) +:+ newline = part +:+ rest ∧
                         log_bytes taskID d' = log_text rs +:+ part
  end ∧
  (power d = None → ["rounds"] ∉ unwritable d → RoundLogPath taskID ∉ unwritable d → res = Ok ()).
Proof.
  intros Hl Ht Hv Ho. rewrite (append_numbered taskID rs r d Hl) by done. destruct Hl as (Hr & Hrs & Hs).
  pose proof (append_line_runs (RoundLogPath taskID) (marshal (numbered rs r)) _ d Hs) as Ha.
  destruct (appendStateJSONL _ _ d) as [res d']. destruct Ha as [(Hk & part & rest & Eq & Hh & Hok) Hhealthy].
  split; [apply Hk|]. split; [|exact Hhealthy]. unfold log_bytes.
  rewrite (holds_bytes _ _ _ Hs), (holds_bytes _ _ _ Hh).
  assert (rest = "" → logged taskID (rs ++ [numbered rs r]) d') as Hwhole.
  { intros ->. rewrite app_nil_r_str in Eq. split; [by destruct Hk as (-> & _)|]. split.
    - apply Forall_app. split; [done|]. by apply Forall_singleton.
    - by rewrite log_text_snoc, Eq. }
  unfold fate_of. destruct res as [[]|e]; simpl; [by apply Hwhole, Hok|].
  case_bool_decide as Hsame.
  - split; [by destruct Hk as (-> & _)|]. split; [done|]. by rewrite Hsame in Hh.
  - assert (part ≠ "") as Hp by (intros ->; by rewrite app_nil_r_str in Hsame).
    pose proof (line_parts (log_text rs) _ part rest (proj1 (proj2 Ho)) Eq Hp) as Hsuffix.
    destruct (HasSuffix _ newline); [by apply Hwhole, Hsuffix|].
    exists part, rest. split_and!; [done| |done|done]. intros Hrest. by apply Hsuffix in Hrest.
Qed.

Lemma kept_cons r f fates : kept ((r, f) :: fates) = if whole f then r :: kept fates else kept fates.
Proof. unfold kept. rewrite filter_cons. by destruct f. Qed.
Lemma torn_cons r f fates : f ≠ Torn → torn ((r, f) :: fates) = torn fates.
Proof. intros Hf. unfold torn. destruct fates as [|x fates]; [by destruct f|]. done. Qed.
Lemma under_logged taskID rs env d : logged taskID rs d → logged taskID rs (under env d).
Proof. done. Qed.
Lemma append_all_logged taskID n appends before d :
  Z.of_nat n ≤ max64 → (length before + length appends ≤ n)%nat → logged taskID (imap sealed before) d →
  Forall (appendable taskID n) appends.*1 →
  let '(fates, d') := append_all taskID appends d in
  let all := before ++ kept fates in
  fates.*1 `prefix_of` appends.*1 ∧
  match torn fates with
  | None => fates.*1 = appends.*1 ∧ logged taskID (imap sealed all) d'
  | Some r => ∃ part rest, part ≠ "" ∧ rest ≠ "" ∧ marshal (sealed (length all) r) +:+ newline = part +:+ rest ∧
                           log_bytes taskID d' = log_text (imap sealed all) +:+ part
  end.
Proof.
  intros Hmax. revert before d. induction appends as [|[r env] appends IH]; intros before d Hn Hl Hall; cbn in Hn.
  { cbn. split; [done|]. split; [done|]. unfold kept. cbn. by rewrite app_nil_r. }
  apply Forall_cons in Hall as [(Ht & Hv & Ho) Hall]. cbn [append_all]. cbv zeta.
  assert (numbered (imap sealed before) r = sealed (length before) r) as E by (apply numbered_sealed; lia).
  pose proof (one_append taskID (imap sealed before) r (under env d) (under_logged _ _ env _ Hl) Ht Hv) as Ha.
  rewrite E in Ha. specialize (Ha (Ho (length before) ltac:(lia))).
  destruct (AppendRoundRecord r (under env d)) as [res d1]. destruct Ha as (_ & Ha & _).
  assert (imap sealed before ++ [sealed (length before) r] = imap sealed (before ++ [r])) as E2.
  { rewrite imap_app. cbn. by rewrite Nat.add_0_r. }
  destruct (fate_of _ _ _); [..|by split; [apply prefix_cons, prefix_nil|unfold kept; cbn; rewrite app_nil_r]].
  1,2: rewrite E2 in Ha; specialize (IH (before ++ [r]) d1);
    destruct (append_all taskID appends d1) as [fates d2]; cbn [fst fmap list_fmap];
    rewrite kept_cons, torn_cons by done; cbn [whole];
    rewrite <- (app_assoc before [r]) in IH; destruct IH as [Hpre IH]; [rewrite length_app; cbn; lia|done|done|];
    (split; [by apply prefix_cons|]); cbn [app] in IH; destruct (torn fates); [done|]; destruct IH as [-> IH]; done.
  specialize (IH before d1). destruct (append_all taskID appends d1) as [fates d2]. cbn [fst fmap list_fmap].
  rewrite kept_cons, torn_cons by done. cbn [whole]. destruct IH as [Hpre IH]; [lia|done|done|].
  split; [by apply prefix_cons|]. destruct (torn fates); [done|]. destruct IH as [-> IH]. done.
Qed.
Lemma read_kept taskID records d :
  logged taskID (imap sealed records) d → records ≠ [] →
  ReadRoundRecords taskID d = (Ok (imap sealed records), d).
Proof.
  intros Hl Hne. rewrite (read_log _ _ _ Hl). destruct Hl as (_ & _ & Hlog). unfold holds_text in Hlog.
  destruct (files d !! _); [done|]. apply log_text_nil, (f_equal length) in Hlog. rewrite length_imap in Hlog.
  by destruct records.
Qed.

(** An environment in which nothing is refused. *)
Definition healthy (taskID : string) (env : environment) : Prop :=
  en_power env = None ∧ ["rounds"] ∉ en_unwritable env ∧ RoundLogPath taskID ∉ en_unwritable env.
Lemma append_all_healthy taskID n appends before d :
  Z.of_nat n ≤ max64 → (length before + length appends ≤ n)%nat → logged taskID (imap sealed before) d →
  Forall (appendable taskID n) appends.*1 → Forall (healthy taskID) appends.*2 →
  (append_all taskID appends d).1 = (λ r, (r, Stored)) <$> appends.*1.
Proof.
  intros Hmax. revert before d. induction appends as [|[r env] appends IH]; intros before d Hn Hl Hall Henv; [done|].
  cbn in Hn. apply Forall_cons in Hall as [(Ht & Hv & Ho) Hall]. apply Forall_cons in Henv as [(Hp & Hd & Hw) Henv].
  cbn [append_all]. cbv zeta.
  assert (numbered (imap sealed before) r = sealed (length before) r) as E by (apply numbered_sealed; lia).
  pose proof (one_append taskID (imap sealed before) r (under env d) (under_logged _ _ env _ Hl) Ht Hv) as Ha.
  rewrite E in Ha. specialize (Ha (Ho (length before) ltac:(lia))).
  destruct (AppendRoundRecord r (under env d)) as [res d1]. destruct Ha as (_ & Ha & Hok).
  rewrite (Hok Hp Hd Hw) in *. change (fate_of (Ok ()) _ _) with Stored in *. cbv iota in *.
  assert (imap sealed before ++ [sealed (length before) r] = imap sealed (before ++ [r])) as E2.
  { rewrite imap_app. cbn. by rewrite Nat.add_0_r. }
  rewrite E2 in Ha. specialize (IH (before ++ [r]) d1). destruct (append_all taskID appends d1) as [fates d2].
  cbn in *. rewrite IH; [done|rewrite length_app; cbn; lia|done..].
Qed.

(** C22: Appending rounds to the log of a task and reading them back. Each append opens
    the log, sets its mode, writes a line byte by byte and closes it, in an environment
    of its own that may refuse any of these. An append that is reported as failed leaves
    the bytes of the log as they were (an empty log may have been created), or its whole
    line is in the log (the writing was done, the closing failed), or a part of its line
    is. As long as no line is torn, whatever failed, the log reads back as the rounds
    whose line is whole, in the order they were appended and numbered from one; those
    reported as stored are all among them. When a line is torn, the log holds those
    rounds before it, and behind them a proper part of the line. Where nothing is refused, every round is stored. *)
Theorem appended_rounds_read_back taskID appends d :
  RoundLogPath taskID ∉ unreadable d → files d !! RoundLogPath taskID = None →
  Forall (appendable taskID (length appends)) appends.*1 → Z.of_nat (length appends) ≤ max64 →
  let '(fates, d') := append_all taskID appends d in
  fates.*1 `prefix_of` appends.*1 ∧
  match torn fates with
  | None => fates.*1 = appends.*1 ∧
            (kept fates ≠ [] → ReadRoundRecords taskID d' = (Ok (imap sealed (kept fates)), d'))
  | Some r => ∃ part rest, part ≠ "" ∧ rest ≠ "" ∧
                marshal (sealed (length (kept fates)) r) +:+ newline = part +:+ rest ∧
                log_bytes taskID d' = log_text (imap sealed (kept fates)) +:+ part
  end ∧
  (Forall (healthy taskID) appends.*2 → fates = (λ r, (r, Stored)) <$> appends.*1).
Proof.
  intros Hr Hf Hall Hn.
  assert (logged taskID (imap sealed []) d) as Hl.
  { split; [done|]. split; [constructor|]. unfold holds_text. by rewrite Hf. }
  pose proof (append_all_logged taskID (length appends) appends [] d Hn ltac:(done) Hl Hall) as Ha.
  pose proof (append_all_healthy taskID (length appends) appends [] d Hn ltac:(done) Hl Hall) as Hh.
  destruct (append_all taskID appends d) as [fates d']. cbn [app fst] in Ha, Hh. destruct Ha as [Hpre Ha].
  split; [done|]. split; [|done]. destruct (torn fates); [done|]. destruct Ha as [Hs Hl'].
  split; [done|]. intros Hk. by apply read_kept.
Qed.
End ReadBack.

(** ** Examples *)
Definition demo_host : Host := {| sha256_hex s := s; RequireRequestRepository _ := Ok () |}.
Definition list_range : MapRange.
Proof. by refine {| range _ _ m := map_to_list m |}. Defined.
Definition demo_tree (readme : string) : FileTree := {|
  Lstat path :=
    if bool_decide (path = "/repo/README.md") then Ok (Regular (Ok readme)) else Err (ErrNotExist [path]) |}.
Definition demo_round (tree : string) (paths : list RoundPathState) : RoundRecord := {|
  rr_Version := 0; rr_TaskID := "task"; rr_Seq := 0; rr_ReviewNumber := 1; rr_AutoFixes := 0;
  rr_WorkerPhase := "worker-new"; rr_CapturedAt := 0;
  rr_Snapshot := {| sd_Head := "h"; sd_IndexDigest := "i"; sd_WorktreeDigest := tree;
                    sd_WorktreeDigestExcludingParent := "" |};
  rr_Paths := paths; rr_CaptureError := "" |}.
Definition demo_paths (readme : string) : list RoundPathState :=
  ClassifyRoundPaths (H:=demo_host) (H0:=demo_tree readme) "/repo" ["gone.go"; "README.md"].

(** A document changes, and the file that is gone makes it a change of the code. *)
Lemma gone_file_counts_again_witness :
  CompareRoundRecords (H:=list_range) (Some (demo_round "w1" (demo_paths "one"))) (Some (demo_round "w2" (demo_paths "two"))) =
    {| rd_Class := RoundDeltaSemantic; rd_ChangedPaths := 2; rd_SemanticPaths := 1; rd_DocPaths := 1 |} ∧
  rd_Class (CompareRoundRecords (H:=list_range)
    (Some (demo_round "w1" (demo_paths "one"))) (Some (demo_round "w2" (demo_paths "two")))) = RoundDeltaSemantic.
Proof.
  split; [vm_compute; reflexivity|].
  apply (@gone_file_counts_again demo_host list_range (demo_tree "one") (demo_tree "two") "/repo"
    ["gone.go"; "README.md"] ["gone.go"; "README.md"] "gone.go" "/repo/gone.go"
    (ErrNotExist ["/repo/gone.go"]) (ErrNotExist ["/repo/gone.go"])); try reflexivity; [set_solver..|discriminate].
Defined.

(** A string of Rust can go over several lines without any of the markers the
    code looks for: what changes in it on a line that starts with two slashes is
    taken for a comment. *)
Definition rust_text (line : string) : string :=
  Join ["let s = " +:+ quote; "// " +:+ line; quote +:+ ";"] newline.
Example rust_string_hidden `{Host} :
  rust_text "allow" ≠ rust_text "deny" ∧
  RoundSemanticDigest (rust_text "allow") (RoundPathClass "a.rs") "a.rs" =
  RoundSemanticDigest (rust_text "deny") (RoundPathClass "a.rs") "a.rs" ∧
  RoundSemanticDigest (rust_text "deny") (RoundPathClass "a.rs") "a.rs" =
    sha256_hex ("let s = " +:+ quote +:+ newline +:+ quote +:+ ";").
Proof. split; [discriminate|]. split; reflexivity. Qed.
Example directive_examples :
  (λ l, roundCommentLine l roundCommentSlash) <$> ["// note"; "//go:build linux"; "  // +build linux"; "x // y"] =
    [true; false; true; false] ∧
  (λ l, roundCommentLine l roundCommentHash) <$> ["# note"; "#!/usr/bin/python"; "#-*- coding"; "#noqa:E1"] =
    [true; false; false; false].
Proof. split; reflexivity. Qed.

Definition plain_round : RoundRecord := demo_round "w1" [].
Definition round_key (r : RoundRecord) : string := FormatInt (rr_Seq r).
Definition known_rounds : list RoundRecord := (λ i, sealed i plain_round) <$> seq 0 4.
Definition demo_rounds : JSONText RoundRecord Some.
Proof.
  refine (known_text Some round_key known_rounds _ _).
  - intros a b Ha Hb. repeat (apply elem_of_cons in Ha as [->|Ha]; [|]); try by apply elem_of_nil in Ha.
    all: repeat (apply elem_of_cons in Hb as [->|Hb]; [|]); try by apply elem_of_nil in Hb.
    all: done.
  - intros a Ha. repeat (apply elem_of_cons in Ha as [->|Ha]; [done|]). by apply elem_of_nil in Ha.
Defined.
Definition round_disk : Disk := {|
  files := ∅; dirs := ∅; unreadable := ∅; unwritable := ∅; power := None; clock _ := 0; ticks := 0;
  random _ := None; draws := 0 |}.
(** Nothing refused; a last change that is the closing; and no change left. *)
Definition calm : environment := {| en_unwritable := ∅; en_power := None |}.
Definition cut (n : nat) : environment := {| en_unwritable := ∅; en_power := Some n |}.
Definition round_line (i : nat) : string := marshal (JSONText:=demo_rounds) (sealed i plain_round) +:+ newline.
Definition demo_appends : list (RoundRecord * environment) :=
  [(plain_round, calm); (plain_round, cut 0);
   (plain_round, cut (2 + String.length (round_line 1))); (plain_round, calm)].
Lemma demo_appendable : appendable (H:=demo_rounds) "task" 4 plain_round.
Proof.
  split; [reflexivity|]. split; [reflexivity|]. intros i Hi. destruct i as [|[|[|[|i]]]]; [..|lia].
  all: split; [repeat constructor|split; [|discriminate]]; vm_compute; intuition discriminate.
Qed.
Lemma appended_rounds_read_back_witness :
  ∃ d, append_all (H:=demo_rounds) "task" demo_appends round_disk =
         ([(plain_round, Stored); (plain_round, Lost); (plain_round, Kept); (plain_round, Stored)], d) ∧
       (ReadRoundRecords (H:=demo_rounds) "task" d).1 =
         Ok [sealed 0 plain_round; sealed 1 plain_round; sealed 2 plain_round].
Proof.
  pose proof (@appended_rounds_read_back demo_rounds "task" demo_appends round_disk) as H.
  assert ((append_all (H:=demo_rounds) "task" demo_appends round_disk).1 =
    [(plain_round, Stored); (plain_round, Lost); (plain_round, Kept); (plain_round, Stored)]) as E
    by (vm_compute; reflexivity).
  destruct (append_all (H:=demo_rounds) "task" demo_appends round_disk) as [fates d]. cbn [fst] in E. subst fates.
  exists d. split; [reflexivity|]. destruct H as (_ & [_ Hread] & _).
  - apply not_elem_of_empty.
  - reflexivity.
  - repeat (apply Forall_cons; split; [exact demo_appendable|]). apply Forall_nil_2.
  - vm_compute. discriminate.
  - rewrite Hread by discriminate. reflexivity.
Defined.
(** The last line is torn: its first byte is the last change that is taken. *)
Example torn_line :
  (append_all (H:=demo_rounds) "task" [(plain_round, calm); (plain_round, cut 3)] round_disk).1 =
    [(plain_round, Stored); (plain_round, Torn)].
Proof. vm_compute. reflexivity. Qed.
