(* ===== verification/Convergence.v ===== *)
(** * The report on review rounds ([report/convergence.go], [state/reviewer_phase.go])

    From the rounds that were recorded and the model calls that were logged: which
    calls reviewed a round and which produced it, what changed since the round
    before, and the sums by kind of change.  Reading the logs and writing the
    report as JSON are not modelled, nor are the costs of a single round, which
    are sums of floating point numbers. *)
From S2P Require Import Prelude GoStrings GoText ControllerTypes ControllerStore SessionTypes SessionStore ParentReview Rounds.
Open Scope Z_scope.

(** ** Phases of a reviewer ([state/reviewer_phase.go]) *)
Record ReviewerPhaseInfo := { ph_ReviewNumber : Z; ph_Category : string }.
Definition ReviewerPhaseCategoryReview : string := "reviewer".
Definition ReviewerPhaseCategoryRiskFloor : string := "reviewer-risk-floor".
Definition ReviewerPhaseCategoryHighFloor : string := "reviewer-high-floor".
Definition reviewerPhaseDigits (value : string) : bool := all_bytes digit value.
Definition phaseCategory (suffix : string) : option string :=
  if bool_decide (suffix = "result-correct") then Some ReviewerPhaseCategoryReview
  else if bool_decide (suffix ∈ ["risk-floor"; "risk-floor-result-correct"]) then Some ReviewerPhaseCategoryRiskFloor
  else if bool_decide (suffix ∈ ["high-floor"; "high-floor-result-correct"]) then Some ReviewerPhaseCategoryHighFloor
  else None.
Definition ParseReviewerPhase (phase : string) : option ReviewerPhaseInfo :=
  rest ← CutPrefix phase (ReviewerPhaseCategoryReview +:+ "-");
  let '(numberText, suffix, separated) := Cut rest "-" in
  if bool_decide (numberText = "") || negb (reviewerPhaseDigits numberText) then None
  else
    reviewNumber ← ParseInt numberText;
    category ← (if separated then phaseCategory suffix else Some ReviewerPhaseCategoryReview);
    Some {| ph_ReviewNumber := reviewNumber; ph_Category := category |}.
Definition ReviewerPhaseCategory (phase : string) : string :=
  match ParseReviewerPhase phase with Some parsed => ph_Category parsed | None => phase end.
Example phase_examples :
  ParseReviewerPhase "reviewer-12-risk-floor" =
    Some {| ph_ReviewNumber := 12; ph_Category := "reviewer-risk-floor" |} ∧
  ParseReviewerPhase "reviewer-1" = Some {| ph_ReviewNumber := 1; ph_Category := "reviewer" |} ∧
  ParseReviewerPhase "reviewer-1-" = None ∧ ParseReviewerPhase "reviewer--1" = None ∧
  ParseReviewerPhase "reviewer-99999999999999999999" = None.
Proof. repeat split; reflexivity. Qed.

(** ** Rounds and the calls that belong to them *)
Record ConvergenceRound := {
  cv_record : RoundRecord;
  cv_delta : RoundDelta;
  cv_gap : bool;
  cv_mismatch : bool;
  cv_reviewer : list ModelCallLog;
  cv_worker : list ModelCallLog;
}.
Definition ConvergenceDeltaVerificationOnly : string := "verification-only".
Definition convergenceMutatingTools : list string := ["Edit"; "Write"; "NotebookEdit"].

(** The last of the first [i] records that was captured no later than [startedAt]. *)
Fixpoint lastNotAfter (records : list RoundRecord) (startedAt : Time) (i : nat) : Z :=
  match i with
  | O => -1
  | S i =>
      match records !! i with
      | Some record => if negb (bool_decide (startedAt < rr_CapturedAt record)) then Z.of_nat i
                       else lastNotAfter records startedAt i
      | None => lastNotAfter records startedAt i
      end
  end.
Definition boundaryIndex (records : list RoundRecord) (startedAt : Time) : Z :=
  lastNotAfter records startedAt (length records).
Definition bucket (buckets : gmap Z (list ModelCallLog)) (i : Z) : list ModelCallLog := default [] (buckets !! i).
Definition bucketTaskCallsByRound (records : list RoundRecord) (logs : list ModelCallLog) : gmap Z (list ModelCallLog) :=
  foldl (λ buckets entry,
    if negb (bool_decide (ml_CallType entry = CallTypeTask)) then buckets
    else
      let index := boundaryIndex records (ml_StartedAt entry) in
      <[index := bucket buckets index ++ [entry]]> buckets) ∅ logs.
Definition reviewsRound (reviewNumber : Z) (entry : ModelCallLog) : bool :=
  match ParseReviewerPhase (ml_Phase entry) with
  | Some parsed => bool_decide (ph_ReviewNumber parsed = reviewNumber)
  | None => false
  end.
(** The calls, and whether a reviewer's call is of another round. *)
Fixpoint ReviewerCallsInBucket (entries : list ModelCallLog) (reviewNumber : Z) : list ModelCallLog * bool :=
  match entries with
  | [] => ([], false)
  | entry :: entries =>
      let '(result, mismatch) := ReviewerCallsInBucket entries reviewNumber in
      if negb (bool_decide (ml_Role entry = ReviewerRole)) then (result, mismatch)
      else if negb (reviewsRound reviewNumber entry) then (result, true)
      else (entry :: result, mismatch)
  end.
Definition producedRound (workerPhase : string) (entry : ModelCallLog) : bool :=
  bool_decide (ml_Role entry = WorkerRole) &&
  (bool_decide (ml_Phase entry = workerPhase) || bool_decide (ml_Phase entry = workerPhase +:+ "-result-correct")) &&
  (bool_decide (ml_PacketStatus entry = "") || bool_decide (ml_PacketStatus entry = "IMPLEMENTED")).
Definition producingWorkerCalls (entries : list ModelCallLog) (workerPhase : string) : list ModelCallLog :=
  filter (producedRound workerPhase) entries.
Definition roundHasRecordGap (records : list RoundRecord) (recordIndex : nat) : bool :=
  match recordIndex with
  | O => false
  | S previous =>
      match records !! recordIndex, records !! previous with
      | Some record, Some before => negb (bool_decide (rr_Seq record = inc (rr_Seq before)))
      | _, _ => false
      end
  end.
Definition prevRoundRecord (records : list RoundRecord) (recordIndex : nat) : option RoundRecord :=
  match recordIndex with O => None | S previous => records !! previous end.
(** A round after one with a call of another round has a gap before it. *)
Fixpoint markGaps (afterMismatch : bool) (rounds : list ConvergenceRound) : list ConvergenceRound :=
  match rounds with
  | [] => []
  | round :: rounds =>
      (if afterMismatch then round {{ cv_gap := true }} else round) :: markGaps (cv_mismatch round) rounds
  end.
Definition unknownInGap (round : ConvergenceRound) : ConvergenceRound :=
  if cv_gap round then round {{ cv_delta := classOnly RoundDeltaUnknown }} else round.
Definition splitBaseline (records : list RoundRecord) : option RoundRecord * list RoundRecord :=
  match records with
  | first :: rest =>
      if bool_decide (rr_WorkerPhase first = RoundWorkerPhaseBaseline) then (Some first, rest) else (None, records)
  | [] => (None, [])
  end.

Section Report.
Context `{MapRange}.
Definition buildRound (records : list RoundRecord) (buckets : gmap Z (list ModelCallLog)) (recordIndex : nat)
    (record : RoundRecord) : ConvergenceRound :=
  let '(reviewer, mismatch) := ReviewerCallsInBucket (bucket buckets (Z.of_nat recordIndex)) (rr_ReviewNumber record) in
  {| cv_record := record;
     cv_delta := CompareRoundRecords (prevRoundRecord records recordIndex) (Some record);
     cv_gap := roundHasRecordGap records recordIndex;
     cv_mismatch := mismatch;
     cv_reviewer := reviewer;
     cv_worker := producingWorkerCalls (bucket buckets (Z.of_nat recordIndex - 1)) (rr_WorkerPhase record) |}.
Definition BuildConvergenceRounds (records : list RoundRecord) (logs : list ModelCallLog)
    : list ConvergenceRound * option RoundRecord :=
  if bool_decide (records = []) then ([], None)
  else
    let buckets := bucketTaskCallsByRound records logs in
    let '(baseline, rest) := splitBaseline records in
    let rounds := imap (λ index record,
      buildRound records buckets (index + length records - length rest)%nat record) rest in
    (unknownInGap <$> markGaps false rounds, baseline).

(** ** Rounds in which the worker only verified

    Of an event, its role, its phase and the types and names of its blocks. *)
Record TaskEvent := { te_Role : string; te_Phase : string; te_Blocks : list (string * string) }.
Definition ConvergenceWorkerToolUse (events : list TaskEvent) (workerPhase : string) : Z * bool :=
  foldl (λ acc event,
    if negb (bool_decide (te_Role event = WorkerRole)) || negb (bool_decide (te_Phase event = workerPhase)) then acc
    else foldl (λ acc block,
           let '(uses, mutating) := acc in
           let '(type, name) := block in
           if negb (bool_decide (type = "tool_use")) then acc
           else (uses + 1, if bool_decide (name ∈ convergenceMutatingTools) then true else mutating))
         acc (te_Blocks event)) (0, false) events.
Definition refineConvergenceDeltas (rounds : list ConvergenceRound) (events : list TaskEvent) : list ConvergenceRound :=
  (λ round,
    if negb (bool_decide (rd_Class (cv_delta round) = RoundDeltaSameSnapshot)) then round
    else
      let '(uses, mutating) := ConvergenceWorkerToolUse events (rr_WorkerPhase (cv_record round)) in
      if bool_decide (uses > 0) && negb mutating
      then round {{ cv_delta := (cv_delta round) {{ rd_Class := ConvergenceDeltaVerificationOnly }} }}
      else round) <$> rounds.

(** ** The summary *)
Record ConvergenceClassSummary := {
  cs_Class : string;
  cs_Rounds : Z;
  cs_ReviewerCalls : Z;
  cs_ReviewerInputTokens : Z;
  cs_ReviewerOutputTokens : Z;
  cs_ReviewerDurationMS : Z;
}.
Record convergenceSummaryOut := {
  so_ByClass : list ConvergenceClassSummary;
  so_UnresolvedIssueRounds : Z;
  so_HighRounds : Z;
}.
Definition roundOutcomeUnresolved (round : ConvergenceRound) : bool :=
  existsb (λ entry, bool_decide (ml_PacketStatus entry = "FIX_REQUIRED")) (cv_reviewer round).
Definition roundRiskHigh (round : ConvergenceRound) : bool :=
  existsb (λ entry, bool_decide (ml_EffectiveRisk entry = "HIGH") || bool_decide (ml_ReviewerReportedRisk entry = "HIGH"))
    (cv_reviewer round).
Definition addReviewerCall (summary : ConvergenceClassSummary) (entry : ModelCallLog) : ConvergenceClassSummary :=
  let usage := ml_TreeUsage entry in
  summary
    {{ cs_ReviewerInputTokens := i64 (cs_ReviewerInputTokens summary +
         i64 (i64 (tu_InputTokens usage + tu_CacheCreationInputTokens usage) + tu_CacheReadInputTokens usage)) }}
    {{ cs_ReviewerOutputTokens := i64 (cs_ReviewerOutputTokens summary + tu_OutputTokens usage) }}
    {{ cs_ReviewerDurationMS := i64 (cs_ReviewerDurationMS summary + ml_WallDurationMS entry) }}.
Definition emptyClass (class : string) : ConvergenceClassSummary := {|
  cs_Class := class; cs_Rounds := 0; cs_ReviewerCalls := 0; cs_ReviewerInputTokens := 0;
  cs_ReviewerOutputTokens := 0; cs_ReviewerDurationMS := 0 |}.
Definition addRound (byClass : gmap string ConvergenceClassSummary) (round : ConvergenceRound)
    : gmap string ConvergenceClassSummary :=
  let class := rd_Class (cv_delta round) in
  let summary := default (emptyClass class) (byClass !! class) in
  let summary := summary {{ cs_Rounds := cs_Rounds summary + 1 }} in
  let summary := summary {{ cs_ReviewerCalls := cs_ReviewerCalls summary + Z.of_nat (length (cv_reviewer round)) }} in
  <[class := foldl addReviewerCall summary (cv_reviewer round)]> byClass.
Definition classOrder : list string := [
  RoundDeltaSameSnapshot; ConvergenceDeltaVerificationOnly; RoundDeltaCommentFormat; RoundDeltaDocChange;
  RoundDeltaSemantic; RoundDeltaUnknown; RoundDeltaInitial].
Definition orderedSummaryClasses (byClass : gmap string ConvergenceClassSummary) : list string :=
  let classes := filter (λ class, is_Some (byClass !! class)) classOrder in
  let extra := filter (λ class, class ∉ classes) ((range 2 byClass).*1) in
  classes ++ merge_sort String.le extra.
Definition buildConvergenceSummary (rounds : list ConvergenceRound) : convergenceSummaryOut :=
  let byClass := foldl addRound ∅ rounds in
  {| so_ByClass := omap (λ class, byClass !! class) (orderedSummaryClasses byClass);
     so_UnresolvedIssueRounds := Z.of_nat (length (filter roundOutcomeUnresolved rounds));
     so_HighRounds := Z.of_nat (length (filter roundRiskHigh rounds)) |}.

(** ** What a review of a round came to *)
Record convergenceReviewOut := {
  ro_Calls : Z;
  ro_Outcome : option string;
  ro_Risk : option string;
  ro_ReportedRisk : option string;
  ro_RiskFloorReview : bool;
  ro_Unresolved : bool;
  ro_Snapshot : string;
}.
Definition replaced (s : string) (before : option string) : option string :=
  if bool_decide (s = "") then before else Some s.
Definition reviewStep (out : convergenceReviewOut) (entry : ModelCallLog) : convergenceReviewOut :=
  out
    {{ ro_RiskFloorReview := match ParseReviewerPhase (ml_Phase entry) with
         | Some parsed => if bool_decide (ph_Category parsed = ReviewerPhaseCategoryRiskFloor) then true
                          else ro_RiskFloorReview out
         | None => ro_RiskFloorReview out end }}
    {{ ro_Outcome := replaced (ml_PacketStatus entry) (ro_Outcome out) }}
    {{ ro_Risk := replaced (ml_EffectiveRisk entry) (ro_Risk out) }}
    {{ ro_ReportedRisk := replaced (ml_ReviewerReportedRisk entry) (ro_ReportedRisk out) }}
    {{ ro_Snapshot := match ml_Snapshot entry ≫= sg_Matched with Some true => "matched" | _ => ro_Snapshot out end }}.
Definition ConvergenceReviewOutDetail (round : ConvergenceRound) : convergenceReviewOut :=
  let out := foldl reviewStep
    {| ro_Calls := Z.of_nat (length (cv_reviewer round)); ro_Outcome := None; ro_Risk := None; ro_ReportedRisk := None;
       ro_RiskFloorReview := false; ro_Unresolved := false; ro_Snapshot := "unknown" |} (cv_reviewer round) in
  if bool_decide (ro_Outcome out = Some "FIX_REQUIRED") then out {{ ro_Unresolved := true }} else out.
End Report.

(** ** Which calls a round has *)
Definition taskCallAt (records : list RoundRecord) (i : Z) (entry : ModelCallLog) : bool :=
  bool_decide (ml_CallType entry = CallTypeTask) && bool_decide (boundaryIndex records (ml_StartedAt entry) = i).
Lemma filter_cons_bool {A} (p : A → bool) x (l : list A) : filter p (x :: l) = if p x then x :: filter p l else filter p l.
Proof. rewrite filter_cons. destruct (p x) eqn:E; [rewrite decide_True|rewrite decide_False]; rewrite ?E; cbn; tauto. Qed.
Lemma bucket_filter records logs i :
  bucket (bucketTaskCallsByRound records logs) i = filter (taskCallAt records i) logs.
Proof.
  unfold bucketTaskCallsByRound. induction logs as [|entry logs IH] using rev_ind; [done|].
  rewrite foldl_app, filter_app. cbn [foldl]. rewrite filter_cons, filter_nil.
  change (taskCallAt records i entry) with (bool_decide (ml_CallType entry = CallTypeTask) &&
    bool_decide (boundaryIndex records (ml_StartedAt entry) = i)).
  destruct (bool_decide (ml_CallType entry = CallTypeTask)); cbn [negb andb].
  2: { rewrite decide_False by (cbn; tauto). by rewrite IH, app_nil_r. }
  unfold bucket at 1. destruct (decide (boundaryIndex records (ml_StartedAt entry) = i)) as [->|Hi].
  - rewrite lookup_insert_eq, bool_decide_true by done. cbn [default from_option id].
    rewrite IH, decide_True by done. done.
  - rewrite lookup_insert_ne, bool_decide_false by done. rewrite decide_False by (cbn; tauto). rewrite app_nil_r. exact IH.
Qed.
Definition reviewerOf (reviewNumber : Z) (entry : ModelCallLog) : bool :=
  bool_decide (ml_Role entry = ReviewerRole) && reviewsRound reviewNumber entry.
Lemma ReviewerCallsInBucket_filter entries n : (ReviewerCallsInBucket entries n).1 = filter (reviewerOf n) entries.
Proof.
  induction entries as [|entry entries IH]; [done|]. cbn [ReviewerCallsInBucket]. rewrite filter_cons_bool, <- IH.
  destruct (ReviewerCallsInBucket entries n) as [result mismatch].
  change (reviewerOf n entry) with (bool_decide (ml_Role entry = ReviewerRole) && reviewsRound n entry).
  destruct (bool_decide (ml_Role entry = ReviewerRole)); cbn; [|done]. by destruct (reviewsRound n entry).
Qed.

(** The round, counted from the first after the baseline, to which a call of a
    reviewer counts. *)
Definition countedRound (records : list RoundRecord) (entry : ModelCallLog) : option nat :=
  let rest := (splitBaseline records).2 in
  let i := boundaryIndex records (ml_StartedAt entry) - Z.of_nat (length records - length rest) in
  if bool_decide (ml_CallType entry = CallTypeTask) && bool_decide (ml_Role entry = ReviewerRole) && bool_decide (0 ≤ i)
  then
    record ← rest !! Z.to_nat i;
    if reviewsRound (rr_ReviewNumber record) entry then Some (Z.to_nat i) else None
  else None.

Lemma filter_filter_and {A} (p q : A → bool) (l : list A) : filter p (filter q l) = filter (λ x, p x && q x) l.
Proof.
  induction l as [|x l IH]; [done|]. rewrite !filter_cons_bool, <- IH. destruct (q x); [|by rewrite andb_false_r].
  by rewrite filter_cons_bool, andb_true_r.
Qed.
Lemma filter_split_perm {A} (P Q R : A → Prop) `{∀ x, Decision (P x), ∀ x, Decision (Q x), ∀ x, Decision (R x)} (l : list A) :
  (∀ x, R x ↔ P x ∨ Q x) → (∀ x, P x → Q x → False) → filter R l ≡ₚ filter P l ++ filter Q l.
Proof.
  intros HR Hd. induction l as [|x l IH]; [done|]. rewrite !filter_cons.
  destruct (decide (R x)) as [Hr|Hr], (decide (P x)) as [Hp|Hp], (decide (Q x)) as [Hq|Hq]; rewrite IH;
    naive_solver (eauto using Permutation_middle).
Qed.
Definition keyed {A} (key : A → option nat) (k : nat) (x : A) : bool := bool_decide (key x = Some k).
Definition keyed_below {A} (key : A → option nat) (n : nat) (x : A) : bool :=
  match key x with Some k => bool_decide (k < n)%nat | None => false end.
Lemma keyed_spec {A} (key : A → option nat) k x : keyed key k x ↔ key x = Some k.
Proof. unfold keyed. by rewrite bool_decide_spec. Qed.
Lemma keyed_below_spec {A} (key : A → option nat) n x : keyed_below key n x ↔ ∃ k, key x = Some k ∧ (k < n)%nat.
Proof.
  unfold keyed_below. destruct (key x) as [k|]; [rewrite bool_decide_spec|]; split; cbn; try done.
  - eauto.
  - intros (k' & ? & ?). by simplify_eq.
  - by intros (? & ? & _).
Qed.
Lemma keyed_concat_perm {A} (key : A → option nat) n (l : list A) :
  concat ((λ k, filter (keyed key k) l) <$> seq 0 n) ≡ₚ filter (keyed_below key n) l.
Proof.
  induction n as [|n IH].
  - cbn. assert (filter (keyed_below key 0) l = []) as ->; [|done].
    induction l as [|x l IH]; [done|]. rewrite filter_cons_bool, IH. unfold keyed_below.
    by destruct (key x).
  - rewrite seq_S, fmap_app, concat_app, IH. cbn. rewrite app_nil_r. symmetry.
    apply filter_split_perm; intros x; rewrite !keyed_below_spec, ?keyed_spec.
    + split.
      * intros (k & Hk & Hn). destruct (decide (k = n)) as [->|]; [by right|left; exists k; split; [done|lia]].
      * intros [(k & Hk & Hn)|Hk]; eexists; (split; [exact Hk|lia]).
    + intros (k & Hk & Hn) Hk'. simplify_eq. lia.
Qed.

(** The calls of the reviewers that the rounds have. *)
Lemma cv_reviewer_marked b rounds : cv_reviewer <$> markGaps b rounds = cv_reviewer <$> rounds.
Proof. revert b. induction rounds as [|r rounds IH]; intros b; [done|]. cbn. f_equal; [by destruct b|apply IH]. Qed.
Lemma cv_reviewer_unknown (rounds : list ConvergenceRound) : cv_reviewer <$> (unknownInGap <$> rounds) = cv_reviewer <$> rounds.
Proof. rewrite <- list_fmap_compose. apply list_fmap_ext. intros _ r _. unfold compose, unknownInGap. by destruct (cv_gap r). Qed.
Lemma cv_reviewer_refined rounds events : cv_reviewer <$> refineConvergenceDeltas rounds events = cv_reviewer <$> rounds.
Proof.
  unfold refineConvergenceDeltas. rewrite <- list_fmap_compose. apply list_fmap_ext. intros _ r _. unfold compose.
  destruct (negb _); [done|]. destruct (ConvergenceWorkerToolUse _ _) as [uses mutating]. by destruct (_ && _).
Qed.
Section Counting.
Context `{MapRange}.
Lemma splitBaseline_rest records :
  ∃ before, records = before ++ (splitBaseline records).2 ∧ (length before ≤ 1)%nat.
Proof.
  destruct records as [|first rest]; [by exists []; cbn; split; [done|lia]|]. unfold splitBaseline.
  case_bool_decide; [by exists [first]; cbn; split; [done|lia]|by exists []; cbn; split; [done|lia]].
Qed.
Lemma keyed_counted records rest k r entry :
  (splitBaseline records).2 = rest → (length rest ≤ length records)%nat → rest !! k = Some r →
  keyed (countedRound records) k entry =
  reviewerOf (rr_ReviewNumber r) entry && taskCallAt records (Z.of_nat (k + length records - length rest)) entry.
Proof.
  intros Hs Hn Hk. apply Bool.eq_iff_eq_true. unfold keyed, countedRound, reviewerOf, taskCallAt. rewrite Hs.
  set (i := boundaryIndex _ _ - _). rewrite !andb_true_iff, !bool_decide_eq_true.
  destruct (decide (ml_CallType entry = CallTypeTask)); [|rewrite bool_decide_false by done; cbn; naive_solver].
  destruct (decide (ml_Role entry = ReviewerRole)); [|rewrite (bool_decide_false (ml_Role _ = _)), andb_false_r by done; cbn; naive_solver].
  rewrite !bool_decide_true by done. cbn [andb].
  split.
  - case_bool_decide as Hi; [|done]. destruct (rest !! Z.to_nat i) as [r'|] eqn:Hr; cbn; [|done].
    destruct (reviewsRound _ entry) eqn:Hrev; [|done]. intros [= <-]. rewrite Hr in Hk. simplify_eq. subst i.
    split_and!; [done..|]. lia.
  - intros ((_ & Hrev) & _ & Hb). assert (i = Z.of_nat k) as -> by (subst i; lia).
    rewrite bool_decide_true, Nat2Z.id, Hk by lia. cbn. by rewrite Hrev.
Qed.
Lemma reviewer_calls records logs :
  cv_reviewer <$> (BuildConvergenceRounds records logs).1 =
  (λ k, filter (keyed (countedRound records) k) logs) <$> seq 0 (length (splitBaseline records).2).
Proof.
  unfold BuildConvergenceRounds. case_bool_decide as Hr; [by subst|].
  destruct (splitBaseline_rest records) as (before & Hb & _).
  destruct (splitBaseline records) as [baseline rest] eqn:Hs. cbn [fst snd] in *.
  rewrite cv_reviewer_unknown, cv_reviewer_marked. apply list_eq. intros k.
  rewrite !list_lookup_fmap, list_lookup_imap. destruct (rest !! k) as [r|] eqn:Hk; cbn [fmap option_fmap option_map].
  - pose proof (lookup_lt_Some _ _ _ Hk). rewrite lookup_seq_lt by done. cbn. f_equal. unfold buildRound.
    pose proof (ReviewerCallsInBucket_filter (bucket (bucketTaskCallsByRound records logs)
      (Z.of_nat (k + length records - length rest))) (rr_ReviewNumber r)) as Hf.
    destruct (ReviewerCallsInBucket _ _) as [reviewer mismatch]. cbn in *. subst reviewer.
    rewrite bucket_filter, filter_filter_and. apply list_filter_iff. intros entry.
    rewrite (keyed_counted records rest k r); [done|by rewrite Hs| |done]. rewrite Hb, length_app. lia.
  - apply lookup_ge_None in Hk. by rewrite lookup_seq_ge.
Qed.
Lemma reviewer_calls_perm records logs :
  concat (cv_reviewer <$> (BuildConvergenceRounds records logs).1) ≡ₚ
  filter (λ entry, bool_decide (is_Some (countedRound records entry))) logs.
Proof.
  rewrite reviewer_calls, keyed_concat_perm. apply reflexive_eq, list_filter_iff. intros entry.
  rewrite keyed_below_spec, bool_decide_spec. unfold is_Some. split; [intros (k & Hk & _); eauto|].
  intros [k Hk]. exists k. split; [done|]. unfold countedRound in Hk. destruct (_ && _) eqn:Hc; [|done].
  destruct (_ !! _) as [r|] eqn:Hr in Hk; cbn in Hk; [|done]. destruct (reviewsRound _ _); simplify_eq.
  by eapply lookup_lt_Some.
Qed.

(** *** Sums over the classes *)
Definition sum_of {A} (f : A → Z) (l : list A) : Z := foldr (λ x acc, f x + acc) 0 l.
#[export] Instance sum_of_perm {A} (f : A → Z) : Proper (Permutation ==> eq) (sum_of f).
Proof. unfold sum_of. induction 1; cbn in *; lia. Qed.
Lemma sum_of_app {A} (f : A → Z) l l' : sum_of f (l ++ l') = sum_of f l + sum_of f l'.
Proof. unfold sum_of. induction l as [|x l IH]; cbn in *; lia. Qed.
Definition total (f : ConvergenceClassSummary → Z) (m : gmap string ConvergenceClassSummary) : Z :=
  map_fold (λ _ x acc, f x + acc) 0 m.
Lemma total_insert f m k x :
  total f (<[k := x]> m) = total f m - match m !! k with Some y => f y | None => 0 end + f x.
Proof.
  unfold total. rewrite <- insert_delete_eq, map_fold_insert_L by (apply lookup_delete_eq || (intros; lia)).
  destruct (m !! k) as [y|] eqn:Hk.
  - rewrite (map_fold_delete_L _ 0 k y m) by (done || intros; lia). lia.
  - rewrite delete_id by done. lia.
Qed.
(** A measure of the class that each round adds to, up to multiples of [M]. *)
Lemma total_rounds M f g rounds :
  (∀ class, f (emptyClass class) = 0) →
  (∀ s round, ∃ e, f (foldl addReviewerCall
      ((s {{ cs_Rounds := cs_Rounds s + 1 }}) {{ cs_ReviewerCalls := cs_ReviewerCalls s + Z.of_nat (length (cv_reviewer round)) }})
      (cv_reviewer round)) = f s + g round + M * e) →
  ∃ e, total f (foldl addRound ∅ rounds) = sum_of g rounds + M * e.
Proof.
  intros H0 Hstep. induction rounds as [|round rounds [e IH]] using rev_ind; [exists 0; cbn; unfold total; rewrite map_fold_empty; lia|].
  rewrite foldl_app, sum_of_app. cbn [foldl]. set (m := foldl addRound ∅ rounds) in *. unfold addRound.
  rewrite total_insert. set (class := rd_Class (cv_delta round)).
  destruct (Hstep (default (emptyClass class) (m !! class)) round) as [e' He']. exists (e + e').
  change (cs_ReviewerCalls (?s {{ cs_Rounds := _ }})) with (cs_ReviewerCalls s). rewrite He'.
  destruct (m !! class) as [s|]; cbn [default from_option id sum_of foldr]; rewrite ?H0; lia.
Qed.

Lemma i64_wraps z : ∃ e, i64 z = z + 2 ^ 64 * e.
Proof.
  exists (- ((z + 2 ^ 63) / 2 ^ 64)). unfold i64. rewrite Z.mod_eq by lia. lia.
Qed.
Lemma i64_shift z e : i64 (z + 2 ^ 64 * e) = i64 z.
Proof.
  unfold i64. f_equal. replace (z + 2 ^ 64 * e + 2 ^ 63) with (z + 2 ^ 63 + e * 2 ^ 64) by lia.
  apply Z_mod_plus_full.
Qed.
Lemma add_calls_counts s calls :
  cs_Rounds (foldl addReviewerCall s calls) = cs_Rounds s ∧
  cs_ReviewerCalls (foldl addReviewerCall s calls) = cs_ReviewerCalls s ∧
  cs_Class (foldl addReviewerCall s calls) = cs_Class s.
Proof. revert s. induction calls as [|call calls IH]; intros s; [done|]. cbn [foldl]. destruct (IH (addReviewerCall s call)) as (-> & -> & ->). done. Qed.
Definition output_tokens (call : ModelCallLog) : Z := tu_OutputTokens (ml_TreeUsage call).
Lemma add_calls_output s calls :
  ∃ e, cs_ReviewerOutputTokens (foldl addReviewerCall s calls) =
       cs_ReviewerOutputTokens s + sum_of output_tokens calls + 2 ^ 64 * e.
Proof.
  revert s. induction calls as [|call calls IH]; intros s; [exists 0; cbn; lia|]. cbn [foldl].
  destruct (IH (addReviewerCall s call)) as [e ->].
  change (cs_ReviewerOutputTokens (addReviewerCall s call)) with (i64 (cs_ReviewerOutputTokens s + output_tokens call)).
  destruct (i64_wraps (cs_ReviewerOutputTokens s + output_tokens call)) as [e' ->].
  exists (e + e'). cbn [sum_of foldr]. fold (sum_of output_tokens). unfold sum_of. lia.
Qed.

(** *** The classes of the summary *)
Lemma summary_classes m : orderedSummaryClasses m ≡ₚ (map_to_list m).*1.
Proof.
  unfold orderedSummaryClasses. rewrite merge_sort_Permutation. set (classes := filter _ classOrder).
  pose proof (range_perm 2 m) as Hr. apply (fmap_Permutation fst) in Hr.
  apply NoDup_Permutation.
  - apply NoDup_app. split_and!.
    + apply NoDup_filter, (bool_decide_eq_true (NoDup classOrder)). vm_compute. reflexivity.
    + intros c Hc Hx. by apply list_elem_of_filter in Hx as [? _].
    + apply NoDup_filter. rewrite Hr. apply NoDup_fst_map_to_list.
  - apply NoDup_fst_map_to_list.
  - intros c. rewrite elem_of_app, !list_elem_of_filter, Hr.
    assert (c ∈ (map_to_list m).*1 ↔ is_Some (m !! c)) as Hm.
    { rewrite list_elem_of_fmap. split.
      - intros ([k x] & -> & Hx). apply elem_of_map_to_list in Hx. eauto.
      - intros [x Hx]. exists (c, x). split; [done|]. by apply elem_of_map_to_list. }
    rewrite Hm. assert (c ∈ classes → is_Some (m !! c)) by (by intros [? _]%list_elem_of_filter).
    destruct (decide (c ∈ classes)); tauto.
Qed.
Lemma ByClass_values rounds :
  so_ByClass (buildConvergenceSummary rounds) ≡ₚ (map_to_list (foldl addRound ∅ rounds)).*2.
Proof.
  unfold buildConvergenceSummary. cbn [so_ByClass]. set (m := foldl addRound ∅ rounds). rewrite summary_classes.
  apply reflexive_eq.
  assert (∀ l, (∀ k x, (k, x) ∈ l → m !! k = Some x) → omap (λ class, m !! class) l.*1 = l.*2) as Hl.
  { induction l as [|[k x] l IH]; intros Hin; [done|]. cbn. rewrite (Hin k x) by set_solver. f_equal. apply IH. set_solver. }
  apply Hl. intros k x. by rewrite elem_of_map_to_list.
Qed.
Lemma class_of_key rounds k x : foldl addRound ∅ rounds !! k = Some x → cs_Class x = k.
Proof.
  revert k x. induction rounds as [|round rounds IH] using rev_ind; intros k x; [cbn; by rewrite lookup_empty|].
  rewrite foldl_app. cbn [foldl]. unfold addRound at 1. set (m := foldl addRound ∅ rounds) in *.
  destruct (decide (rd_Class (cv_delta round) = k)) as [<-|Hk]; [|rewrite lookup_insert_ne by done; apply IH].
  rewrite lookup_insert_eq. intros [= <-]. rewrite (proj2 (proj2 (add_calls_counts _ _))). cbn.
  destruct (m !! _) eqn:Hm; [by apply IH|done].
Qed.
Lemma sum_of_total f m : sum_of f (map_to_list m).*2 = total f m.
Proof. unfold total, sum_of. rewrite map_fold_foldr. induction (map_to_list m) as [|[k x] l IH]; cbn in *; lia. Qed.
Lemma sum_of_concat {A B} (f : B → Z) (h : A → list B) l : sum_of (λ x, sum_of f (h x)) l = sum_of f (concat (h <$> l)).
Proof. induction l as [|x l IH]; [done|]. cbn [fmap list_fmap concat]. rewrite sum_of_app. unfold sum_of in *. cbn. lia. Qed.
Lemma sum_of_ones {A} (l : list A) : sum_of (λ _, 1) l = Z.of_nat (length l).
Proof. unfold sum_of. induction l as [|x l IH]; cbn in *; lia. Qed.

(** C21: The summary by kind of change counts every round after the baseline once,
    and every call of a reviewer once: the reviewer calls of the classes add up to
    the logged calls that review the round which was recorded last before they
    started, and so do the output tokens, up to the width of an integer. *)
Theorem summary_counts_once records logs events :
  let rounds := refineConvergenceDeltas (BuildConvergenceRounds records logs).1 events in
  let classes := so_ByClass (buildConvergenceSummary rounds) in
  let counted := filter (λ entry, bool_decide (is_Some (countedRound records entry))) logs in
  NoDup (cs_Class <$> classes) ∧
  sum_of cs_Rounds classes = Z.of_nat (length (splitBaseline records).2) ∧
  sum_of cs_ReviewerCalls classes = Z.of_nat (length counted) ∧
  i64 (sum_of cs_ReviewerOutputTokens classes) = i64 (sum_of output_tokens counted).
Proof.
  intros rounds classes counted.
  assert (cv_reviewer <$> rounds = cv_reviewer <$> (BuildConvergenceRounds records logs).1) as Hv by apply cv_reviewer_refined.
  assert (concat (cv_reviewer <$> rounds) ≡ₚ counted) as Hc by (rewrite Hv; apply reviewer_calls_perm).
  assert (classes ≡ₚ (map_to_list (foldl addRound ∅ rounds)).*2) as Hp by apply ByClass_values.
  split_and!.
  - rewrite Hp, <- list_fmap_compose.
    assert (∀ l, (∀ k x, (k, x) ∈ l → cs_Class x = k) → (cs_Class ∘ snd) <$> l = l.*1) as Hl.
    { induction l as [|[k x] l IH]; intros Hin; [done|]. cbn. rewrite (Hin k x) by set_solver. f_equal. apply IH. set_solver. }
    rewrite Hl; [apply NoDup_fst_map_to_list|]. intros k x. rewrite elem_of_map_to_list. apply class_of_key.
  - rewrite Hp, sum_of_total. destruct (total_rounds 0 cs_Rounds (λ _, 1) rounds) as [e ->]; [done| |].
    + intros s round. exists 0. rewrite (proj1 (add_calls_counts _ _)). cbn. lia.
    + rewrite sum_of_ones. apply (f_equal length) in Hv. rewrite reviewer_calls, !length_fmap, length_seq in Hv. lia.
  - rewrite Hp, sum_of_total.
    destruct (total_rounds 0 cs_ReviewerCalls (λ r, sum_of (λ _, 1) (cv_reviewer r)) rounds) as [e ->]; [done| |].
    + intros s round. exists 0. rewrite (proj1 (proj2 (add_calls_counts _ _))), sum_of_ones. cbn. lia.
    + rewrite sum_of_concat, Hc, sum_of_ones. lia.
  - rewrite Hp, sum_of_total.
    destruct (total_rounds (2 ^ 64) cs_ReviewerOutputTokens (λ r, sum_of output_tokens (cv_reviewer r)) rounds) as [e ->]; [done| |].
    + intros s round. destruct (add_calls_output ((s {{ cs_Rounds := cs_Rounds s + 1 }}) {{ cs_ReviewerCalls := cs_ReviewerCalls s + Z.of_nat (length (cv_reviewer round)) }}) (cv_reviewer round)) as [e ->]. by exists e.
    + by rewrite sum_of_concat, Hc, i64_shift.
Qed.
End Counting.
