(* ===== verification/Reopen.v ===== *)
(** * Reopening an accepted completion

    Models [parent_reopen.go], [parent_reopen_transaction.go],
    [publication_candidate.go], [publication_invalidation.go],
    [publication_reopen_lineage.go], [runtime_install.go] and
    [quality_surface_recovery.go] of [internal/state], and the path of the task's
    authority ([task_authority.go]): the commit that is prepared for publication,
    the finding that invalidates it, and the way back from an accepted completion
    to an open review, which a journal makes recoverable. *)
From S2P Require Import Prelude GoStrings GoText ControllerTypes ControllerStore Packet SessionTypes SessionStore ResumeCheckpoint ParentReview Lifecycle.

(** ** Records *)
Record PublicationCandidate := {
  pc_Version : Z;
  pc_TaskID : string;
  pc_BaseHead : string;
  pc_CommitOID : string;
  pc_TreeOID : string;
  pc_MessageDigest : string;
  pc_Snapshot : SnapshotDigest;
  pc_SnapshotID : string;
  pc_PreparedAt : Time;
}.
Record PublicationInvalidatingFinding := {
  pf_Version : Z;
  pf_TaskID : string;
  pf_FindingID : string;
  pf_Disposition : string;
  pf_CandidateCommitOID : string;
  pf_CandidateSnapshotID : string;
  pf_Origin : string;
  pf_Cause : string;
}.
Record PublicationReopenLineage := {
  ln_Version : Z;
  ln_TaskID : string;
  ln_TaskPath : string;
  ln_BaseHead : string;
  ln_CommitOID : string;
}.
Record RuntimeInstallEvidence := {
  re_Version : Z;
  re_TaskID : string;
  re_Head : string;
  re_SourceDigest : string;
  re_InstalledRevision : string;
  re_SmokeResult : string;
}.
Record parentReopenTransactionSnapshot := { ts_Name : string; ts_Exists : bool; ts_Data : string }.
Record parentReopenTransactionRecord := {
  rt_Version : Z;
  rt_TaskID : string;
  rt_SourceStatus : TaskStatus;
  rt_Snapshots : list parentReopenTransactionSnapshot;
}.
Definition publicationCandidateStateFile : string := "publication-candidate.json".
Definition publicationCandidateVersion : Z := 1.
Definition publicationInvalidatingFindingStateFile : string := "publication-invalidating-finding.json".
Definition publicationInvalidatingFindingVersion : Z := 1.
Definition PublicationFindingCorrectnessDefect : string := "correctness-defect".
Definition publicationReopenLineageStateFile : string := "publication-reopen-lineage.json".
Definition publicationReopenLineageVersion : Z := 1.
Definition runtimeInstallEvidenceFile : string := "runtime-install-evidence.json".
Definition runtimeInstallEvidenceVersion : Z := 1.
Definition ValidationResultPass : string := "pass".
Definition parentReopenTransactionVersion : Z := 1.
Definition ParentPhaseFix : string := "parent-fix".
Definition errNoParentReopenTransaction : error := err "parent reopen transition is not pending".
Definition parentReopenSnapshotStateFiles : list string := [
  parentReviewStateFile; "task.status"; publicationCandidateStateFile; runtimeInstallEvidenceFile;
  publicationReopenLineageStateFile; publicationInvalidatingFindingStateFile].

(** ** Validation *)
Definition validPublicationHex (value : string) (length : nat) : bool :=
  bool_decide (String.length value = length) && all_bytes isLowerHexDigit value.
Definition validPublicationOID (value : string) : bool := validPublicationHex value 40.
Definition validPublicationDigest (value : string) : bool := validPublicationHex value 64.
Definition validatePublicationInvalidatingFinding (finding : PublicationInvalidatingFinding) : result error unit :=
  reject! negb (bool_decide (pf_Version finding = publicationInvalidatingFindingVersion))
    with Errorf "unsupported publication invalidating finding version: %d" [AStr (FormatInt (pf_Version finding))];
  reject! negb (ValidGeneratedUUID (pf_TaskID finding)) || negb (ValidGeneratedUUID (pf_FindingID finding))
    with err "publication invalidating finding identity is invalid";
  reject! negb (bool_decide (pf_Disposition finding = PublicationFindingCorrectnessDefect))
    with Errorf "publication invalidating finding disposition is invalid: %s" [AStr (pf_Disposition finding)];
  reject! negb (validPublicationOID (pf_CandidateCommitOID finding)) ||
          negb (validPublicationDigest (pf_CandidateSnapshotID finding))
    with err "publication invalidating finding candidate identity is invalid";
  validateParentFixDeclaration (pf_Origin finding) (pf_Cause finding).
Definition carriageReturn : string := String "013" "".
Definition validatePublicationReopenLineage (lineage : PublicationReopenLineage) : result error unit :=
  reject! negb (bool_decide (ln_Version lineage = publicationReopenLineageVersion))
    with Errorf "unsupported publication reopen lineage version: %d" [AStr (FormatInt (ln_Version lineage))];
  reject! negb (ValidGeneratedUUID (ln_TaskID lineage)) with err "publication reopen lineage task IDが不正です";
  reject! bool_decide (TrimSpace (ln_TaskPath lineage) = "") ||
          ContainsAny (ln_TaskPath lineage) (carriageReturn +:+ newline)
    with err "publication reopen lineage task pathが不正です";
  reject! negb (validPublicationOID (ln_BaseHead lineage)) || negb (validPublicationOID (ln_CommitOID lineage))
    with err "publication reopen lineage git identityが不正です";
  Ok ().
Definition validateRuntimeInstallEvidence (evidence : RuntimeInstallEvidence) : result error unit :=
  reject! negb (bool_decide (re_Version evidence = runtimeInstallEvidenceVersion))
    with Errorf "unsupported runtime install evidence version: %d" [AStr (FormatInt (re_Version evidence))];
  reject! negb (ValidGeneratedUUID (re_TaskID evidence)) with err "runtime install evidence task IDが不正です";
  reject! bool_decide (re_Head evidence = "") || bool_decide (re_SourceDigest evidence = "") ||
          bool_decide (re_InstalledRevision evidence = "")
    with err "runtime install evidence identityが不足しています";
  reject! negb (bool_decide (re_InstalledRevision evidence = re_Head evidence))
    with err "runtime install evidence installed revisionがsource HEADと一致しません";
  reject! negb (bool_decide (re_SmokeResult evidence = ValidationResultPass))
    with err "runtime install evidence smoke resultがpassではありません";
  Ok ().
(** The loop over the snapshots of a transaction. *)
Fixpoint validateSnapshots (expected : list string) (snapshots : list parentReopenTransactionSnapshot) : result error unit :=
  match expected, snapshots with
  | name :: expected, snapshot :: snapshots =>
      reject! negb (bool_decide (ts_Name snapshot = name))
        with Errorf "parent reopen transaction snapshot is %q, want %q" [AStr (ts_Name snapshot); AStr name];
      reject! negb (ts_Exists snapshot) && negb (bool_decide (String.length (ts_Data snapshot) = 0))
        with Errorf "parent reopen transaction snapshot %s has data for a missing state file" [AStr (ts_Name snapshot)];
      validateSnapshots expected snapshots
  | _, _ => Ok ()
  end.
Definition validateParentReopenTransactionRecord (record : parentReopenTransactionRecord) : result error unit :=
  reject! negb (bool_decide (rt_Version record = parentReopenTransactionVersion))
    with Errorf "unsupported parent reopen transaction version: %d" [AStr (FormatInt (rt_Version record))];
  reject! bool_decide (rt_TaskID record = "") with err "parent reopen transaction has no task identity";
  reject! negb (bool_decide (rt_SourceStatus record = TaskStatusAwaitingParentCompletion))
    with Errorf "parent reopen transaction has invalid source status %s" [AStr (rt_SourceStatus record)];
  reject! negb (bool_decide (length (rt_Snapshots record) = length parentReopenSnapshotStateFiles))
    with Errorf "parent reopen transaction has %d snapshots, want %d"
           [AInt (length (rt_Snapshots record)); AInt (length parentReopenSnapshotStateFiles)];
  _ ← validateSnapshots parentReopenSnapshotStateFiles (rt_Snapshots record);
  match rt_Snapshots record !! 1 with
  | Some status =>
      reject! negb (ts_Exists status) || negb (bool_decide (TrimSpace (ts_Data status) = rt_SourceStatus record))
        with Errorf "parent reopen transaction task status snapshot does not match source status %s"
               [AStr (rt_SourceStatus record)];
      Ok ()
  | None => Ok ()
  end.

(** ** The path of the task's authority ([task_authority.go])

    The identity of a task is one element of a path. *)
Definition taskAuthorityDir : string := "task-authority".
Definition TaskAuthorityPathPath (taskID : string) : list string := [taskAuthorityDir; taskID; "active-task.path"].
Definition CurrentTaskAuthorityPath : io string :=
  taskID ← TaskID;
  data ← io_wrap (λ e, Errorf "task authority pathを読めません: %w" [AErr e]) (ReadFile (TaskAuthorityPathPath taskID));
  let path := TrimSpace data in
  refuse! bool_decide (path = "") with err "task authority pathが空です";
  refuse! ContainsAny path (carriageReturn +:+ newline) with err "task authority pathが一意ではありません";
  mret path.

Section Reopen.
Context `{Host, Unicode, MachineEncoder, ResumeText, GitState, JSONLog}.
Context `{JSONText TaskStats persistedStats, JSONText ParentReviewState Some, JSONText GitSnapshot Some}.
Context `{JSONText PublicationCandidate Some, JSONText PublicationInvalidatingFinding Some,
          JSONText PublicationReopenLineage Some, JSONText RuntimeInstallEvidence Some,
          JSONText parentReopenTransactionRecord Some}.

(** ** The candidate ([publication_candidate.go], [validation.go]) *)
Definition ValidationSnapshotID (head indexDigest worktreeDigest : string) : string :=
  if bool_decide (head = "") || bool_decide (indexDigest = "") || bool_decide (worktreeDigest = "") then ""
  else sha256_hex (head +:+ String "000" (indexDigest +:+ String "000" worktreeDigest)).
Definition validatePublicationCandidateIdentity (candidate : PublicationCandidate) : result error unit :=
  reject! negb (bool_decide (pc_Version candidate = publicationCandidateVersion))
    with Errorf "unsupported publication candidate version: %d" [AStr (FormatInt (pc_Version candidate))];
  reject! negb (ValidGeneratedUUID (pc_TaskID candidate)) with err "publication candidate task IDが不正です";
  reject! negb (validPublicationOID (pc_BaseHead candidate)) || negb (validPublicationOID (pc_CommitOID candidate)) ||
          negb (validPublicationOID (pc_TreeOID candidate))
    with err "publication candidate git identityが不正です";
  reject! negb (validPublicationDigest (pc_MessageDigest candidate))
    with err "publication candidate commit message digestが不正です";
  Ok ().
Definition validatePublicationCandidateSnapshot (candidate : PublicationCandidate) : result error unit :=
  let snapshot := pc_Snapshot candidate in
  reject! negb (bool_decide (sd_Head snapshot = pc_BaseHead candidate)) || bool_decide (sd_IndexDigest snapshot = "") ||
          bool_decide (sd_WorktreeDigest snapshot = "")
    with err "publication candidate snapshot identityが不正です";
  let expected := ValidationSnapshotID (sd_Head snapshot) (sd_IndexDigest snapshot) (sd_WorktreeDigest snapshot) in
  reject! bool_decide (expected = "") || negb (bool_decide (pc_SnapshotID candidate = expected))
    with err "publication candidate snapshot IDが一致しません";
  Ok ().
Definition validatePublicationCandidate (candidate : PublicationCandidate) : result error unit :=
  _ ← validatePublicationCandidateIdentity candidate;
  _ ← validatePublicationCandidateSnapshot candidate;
  reject! bool_decide (pc_PreparedAt candidate = zeroTime) with err "publication candidate prepared_atがありません";
  Ok ().
Definition SavePublicationCandidate (candidate : PublicationCandidate) : io unit :=
  _ ← lift (validatePublicationCandidate candidate);
  taskID ← TaskID;
  refuse! negb (bool_decide (pc_TaskID candidate = taskID))
    with Errorf "publication candidate task %s does not match current task %s" [AStr (pc_TaskID candidate); AStr taskID];
  Write publicationCandidateStateFile (marshal candidate).
Definition decodePublicationCandidate (data : string) : result error PublicationCandidate :=
  match unmarshal data with
  | None => Err (Errorf "publication candidateを読めません: %w" [AErr json_error])
  | Some candidate => _ ← validatePublicationCandidate candidate; Ok candidate
  end.
Definition LoadPublicationCandidate : io PublicationCandidate :=
  data ← Read publicationCandidateStateFile; lift (decodePublicationCandidate data).
Definition ClearPublicationCandidate : io unit := RemoveState publicationCandidateStateFile.

(** ** The evidence of an installation ([runtime_install.go]) *)
Definition SaveRuntimeInstallEvidence (evidence : RuntimeInstallEvidence) : io unit :=
  _ ← lift (validateRuntimeInstallEvidence evidence);
  taskID ← TaskID;
  refuse! negb (bool_decide (re_TaskID evidence = taskID))
    with Errorf "runtime install evidence task %s does not match current task %s" [AStr (re_TaskID evidence); AStr taskID];
  io_wrap (λ e, Errorf "runtime install evidenceを書き込めません: %w" [AErr e])
    (writeFileAtomic (Path runtimeInstallEvidenceFile) (marshal evidence +:+ newline) mode600).
Definition LoadRuntimeInstallEvidence : io RuntimeInstallEvidence :=
  data ← ReadFile (Path runtimeInstallEvidenceFile);
  match unmarshal data with
  | None => fail (Errorf "runtime install evidenceを読めません: %w" [AErr json_error])
  | Some evidence => _ ← lift (validateRuntimeInstallEvidence evidence); mret evidence
  end.
Definition ClearRuntimeInstallEvidence : io unit := RemoveState runtimeInstallEvidenceFile.

(** ** The finding that invalidates a candidate ([publication_invalidation.go]) *)
Definition publicationInvalidatingFindingTarget : io (string * PublicationCandidate) :=
  status ← GetTaskStatus;
  refuse! negb (bool_decide (status = TaskStatusAwaitingParentCompletion))
    with Errorf "publication invalidating finding requires %s, got %s" [AStr TaskStatusAwaitingParentCompletion; AStr status];
  completion ← CurrentParentCompletionOutcome;
  refuse! match completion with
          | Some completion => negb (bool_decide (co_Terminal completion = SessionRotationTerminalAccept)) | None => true end
    with err "publication invalidating finding requires an accepted parent completion outcome";
  candidate ← io_wrap (λ e, Errorf "publication invalidating finding requires current publication candidate: %w" [AErr e])
                LoadPublicationCandidate;
  taskID ← TaskID;
  refuse! negb (bool_decide (pc_TaskID candidate = taskID))
    with Errorf "publication invalidating finding candidate task %s does not match current task %s"
           [AStr (pc_TaskID candidate); AStr taskID];
  mret (taskID, candidate).
Definition decodePublicationInvalidatingFinding (data : string) : result error PublicationInvalidatingFinding :=
  match unmarshal data with
  | None => Err (Errorf "publication invalidating finding cannot be read: %w" [AErr json_error])
  | Some finding => _ ← validatePublicationInvalidatingFinding finding; Ok finding
  end.
Definition LoadPublicationInvalidatingFinding : io PublicationInvalidatingFinding :=
  data ← Read publicationInvalidatingFindingStateFile; lift (decodePublicationInvalidatingFinding data).
(** The recorded finding, if it is this one; [None] where none is recorded. *)
Definition reusablePublicationInvalidatingFinding (target : string * PublicationCandidate) (origin cause : string)
    : io (option PublicationInvalidatingFinding) :=
  r ← attempt LoadPublicationInvalidatingFinding;
  match r with
  | Err e => if IsNotExist e then mret None else fail e
  | Ok existing =>
      let '(taskID, candidate) := target in
      if bool_decide (pf_TaskID existing = taskID) &&
         bool_decide (pf_Disposition existing = PublicationFindingCorrectnessDefect) &&
         bool_decide (pf_CandidateCommitOID existing = pc_CommitOID candidate) &&
         bool_decide (pf_CandidateSnapshotID existing = pc_SnapshotID candidate) &&
         bool_decide (pf_Origin existing = origin) && bool_decide (pf_Cause existing = cause)
      then mret (Some existing)
      else fail (err "a different publication invalidating finding is already recorded")
  end.
Definition writePublicationInvalidatingFinding (target : string * PublicationCandidate) (origin cause : string)
    : io PublicationInvalidatingFinding :=
  findingID ← NewUUID;
  let '(taskID, candidate) := target in
  let finding := {|
    pf_Version := publicationInvalidatingFindingVersion; pf_TaskID := taskID; pf_FindingID := findingID;
    pf_Disposition := PublicationFindingCorrectnessDefect; pf_CandidateCommitOID := pc_CommitOID candidate;
    pf_CandidateSnapshotID := pc_SnapshotID candidate; pf_Origin := origin; pf_Cause := cause |} in
  _ ← lift (validatePublicationInvalidatingFinding finding);
  _ ← Write publicationInvalidatingFindingStateFile (marshal finding);
  mret finding.
Definition RecordPublicationInvalidatingFinding (origin cause : string) : io PublicationInvalidatingFinding :=
  _ ← lift (validateParentFixDeclaration origin cause);
  target ← publicationInvalidatingFindingTarget;
  existing ← reusablePublicationInvalidatingFinding target origin cause;
  match existing with
  | Some existing => mret existing
  | None => writePublicationInvalidatingFinding target origin cause
  end.
Definition CurrentPublicationInvalidatingFinding : io (option PublicationInvalidatingFinding) :=
  r ← attempt LoadPublicationInvalidatingFinding;
  match r with
  | Err e => if IsNotExist e then mret None else fail e
  | Ok finding =>
      taskID ← TaskID;
      refuse! negb (bool_decide (pf_TaskID finding = taskID))
        with Errorf "publication invalidating finding task %s does not match current task %s"
               [AStr (pf_TaskID finding); AStr taskID];
      candidate ← io_wrap (λ e, Errorf "publication invalidating finding candidate is unavailable: %w" [AErr e])
                    LoadPublicationCandidate;
      refuse! negb (bool_decide (pc_TaskID candidate = taskID)) ||
              negb (bool_decide (pf_CandidateCommitOID finding = pc_CommitOID candidate)) ||
              negb (bool_decide (pf_CandidateSnapshotID finding = pc_SnapshotID candidate))
        with err "publication invalidating finding is stale or unrelated to the current publication candidate";
      mret (Some finding)
  end.
Definition ClearPublicationInvalidatingFinding : io unit := RemoveState publicationInvalidatingFindingStateFile.

(** ** The lineage ([publication_reopen_lineage.go]) *)
Definition decodePublicationReopenLineage (data : string) : result error PublicationReopenLineage :=
  match unmarshal data with
  | None => Err (Errorf "publication reopen lineageを読めません: %w" [AErr json_error])
  | Some lineage => _ ← validatePublicationReopenLineage lineage; Ok lineage
  end.
Definition LoadPublicationReopenLineage : io PublicationReopenLineage :=
  data ← Read publicationReopenLineageStateFile; lift (decodePublicationReopenLineage data).
Definition validateCurrentPublicationReopenLineage (lineage : PublicationReopenLineage) : io unit :=
  taskID ← TaskID;
  refuse! negb (bool_decide (ln_TaskID lineage = taskID))
    with Errorf "publication reopen lineage task %s does not match current task %s" [AStr (ln_TaskID lineage); AStr taskID];
  taskPath ← io_wrap (λ e, Errorf "publication reopen task authority unavailable: %w" [AErr e]) CurrentTaskAuthorityPath;
  refuse! negb (bool_decide (ln_TaskPath lineage = taskPath))
    with Errorf "publication reopen lineage task path %s does not match canonical task authority %s"
           [AStr (ln_TaskPath lineage); AStr taskPath];
  mret ().
Definition lineageOf (taskID taskPath : string) (candidate : PublicationCandidate) : PublicationReopenLineage :=
  {| ln_Version := publicationReopenLineageVersion; ln_TaskID := taskID; ln_TaskPath := taskPath;
     ln_BaseHead := pc_BaseHead candidate; ln_CommitOID := pc_CommitOID candidate |}.
Definition CapturePublicationReopenLineage (candidate : PublicationCandidate) : io unit :=
  taskID ← TaskID;
  refuse! negb (bool_decide (pc_TaskID candidate = taskID))
    with Errorf "publication reopen candidate task %s does not match current task %s"
           [AStr (pc_TaskID candidate); AStr taskID];
  r ← attempt LoadPublicationReopenLineage;
  match r with
  | Ok existing => validateCurrentPublicationReopenLineage existing
  | Err e =>
      refuse! negb (IsNotExist e) with e;
      taskPath ← io_wrap (λ e, Errorf "publication reopen task authority unavailable: %w" [AErr e]) CurrentTaskAuthorityPath;
      let lineage := lineageOf taskID taskPath candidate in
      _ ← lift (validatePublicationReopenLineage lineage);
      Write publicationReopenLineageStateFile (marshal lineage)
  end.

(** ** The journal ([parent_reopen_transaction.go]) *)
Definition transactionRecord (taskID : string) (snapshots : list lifecycleFileSnapshot) : parentReopenTransactionRecord :=
  {| rt_Version := parentReopenTransactionVersion; rt_TaskID := taskID;
     rt_SourceStatus := TaskStatusAwaitingParentCompletion;
     rt_Snapshots := (λ s, {| ts_Name := sn_name s; ts_Exists := sn_exists s; ts_Data := sn_data s |}) <$> snapshots |}.
Definition saveParentReopenTransaction (snapshots : list lifecycleFileSnapshot) : io unit :=
  pending ← Exists parentReopenTransactionStateFile;
  refuse! pending with err "parent reopen transition is already pending";
  taskID ← TaskID;
  let record := transactionRecord taskID snapshots in
  _ ← lift (validateParentReopenTransactionRecord record);
  io_wrap (λ e, Errorf "parent reopen transaction recordを書き込めません: %w" [AErr e])
    (writeFileAtomic (Path parentReopenTransactionStateFile) (marshal record +:+ newline) mode600).
Definition loadParentReopenTransaction : io parentReopenTransactionRecord :=
  r ← attempt (ReadFile (Path parentReopenTransactionStateFile));
  match r with
  | Err e => fail (if IsNotExist e then errNoParentReopenTransaction else e)
  | Ok data =>
      match unmarshal data with
      | None => fail (Errorf "parent reopen transaction recordを読めません: %w" [AErr json_error])
      | Some record => _ ← lift (validateParentReopenTransactionRecord record); mret record
      end
  end.
Definition snapshotToRestore (s : parentReopenTransactionSnapshot) : lifecycleFileSnapshot :=
  {| sn_name := ts_Name s; sn_data := ts_Data s; sn_exists := ts_Exists s |}.

(** ** Reopening ([parent_reopen.go]) *)
Definition reopenableParentCompletion : io (ParentCompletionOutcome * PublicationInvalidatingFinding) :=
  status ← GetTaskStatus;
  refuse! negb (bool_decide (status = TaskStatusAwaitingParentCompletion))
    with Errorf "reopen requires %s, got %s" [AStr TaskStatusAwaitingParentCompletion; AStr status];
  completion ← CurrentParentCompletionOutcome;
  match completion with
  | None => fail (err "reopen requires an accepted parent completion outcome to invalidate")
  | Some completion =>
      refuse! negb (bool_decide (co_Terminal completion = SessionRotationTerminalAccept))
        with err "reopen requires an accepted parent completion outcome to invalidate";
      finding ← CurrentPublicationInvalidatingFinding;
      match finding with
      | None => fail (err "reopen requires a durable invalidating correctness finding")
      | Some finding => mret (completion, finding)
      end
  end.
Definition RecoverInterruptedParentReopen : io bool :=
  r ← attempt loadParentReopenTransaction;
  match r with
  | Err e => refuse! negb (bool_decide (e = errNoParentReopenTransaction)) with e; mret false
  | Ok record =>
      taskID ← TaskID;
      refuse! negb (bool_decide (rt_TaskID record = taskID))
        with Errorf "parent reopen recovery task identity changed: record=%q current=%q"
               [AStr (rt_TaskID record); AStr taskID];
      errors ← restoreSnapshots (reverse (snapshotToRestore <$> rt_Snapshots record));
      refuse! negb (bool_decide (errors = []))
        with Errorf "parent reopen recovery could not restore source state: %w" [AErr (Join_errors errors)];
      _ ← io_wrap (λ e, Errorf "parent reopen recovery restored invalid source state: %w" [AErr e])
            reopenableParentCompletion;
      _ ← io_wrap (λ e, Errorf "parent reopen recovery restored no usable publication candidate: %w" [AErr e])
            LoadPublicationCandidate;
      _ ← io_wrap (λ e, Errorf "parent reopen recovery could not clear transaction record: %w" [AErr e])
            (RemoveState parentReopenTransactionStateFile);
      mret true
  end.
Definition rollbackParentReopenTransaction {A} (cause : error) : io A :=
  r ← attempt RecoverInterruptedParentReopen;
  match r with
  | Err e => fail (Errorf "parent reopen transition failed and recovery failed: transition=%w recovery=%w" [AErr cause; AErr e])
  | Ok recovered =>
      refuse! negb recovered
        with Errorf "parent reopen transition failed without a durable recovery record: %w" [AErr cause];
      fail cause
  end.
Fixpoint snapshotFiles (names : list string) : io (list lifecycleFileSnapshot) :=
  match names with
  | [] => mret []
  | name :: names =>
      snapshot ← snapshotLifecycleFile name;
      snapshots ← snapshotFiles names;
      mret (snapshot :: snapshots)
  end.
Definition snapshotReopenStateFiles : io (list lifecycleFileSnapshot) := snapshotFiles parentReopenSnapshotStateFiles.
Definition applyReopenTransition (completion : ParentCompletionOutcome) (candidate : PublicationCandidate) : io unit :=
  _ ← CapturePublicationReopenLineage candidate;
  _ ← ClearPublicationCandidate;
  _ ← ClearRuntimeInstallEvidence;
  _ ← ClearPublicationInvalidatingFinding;
  _ ← openParentReviewState StatusNeedsSolReview (co_Risk completion) {| pp_Role := ""; pp_Model := "" |};
  SetTaskStatus TaskStatusWaitingSolReview.
Definition recordReopenedParentOutcome (taskID origin cause risk : string) : io unit :=
  let reopened := {| ro_PacketStatus := StatusNeedsSolReview; ro_Role := ""; ro_ModelAlias := ""; ro_Risk := risk |} in
  _ ← UpdateTaskStats (λ stats,
        (recordParentOutcome ParentOutcomeFix origin reopened stats) {{ tk_ParentReviewOpen := Some reopened }});
  appendParentOutcomeEvent taskID ParentPhaseFix ParentOutcomeFix origin cause reopened.
Definition ReopenAcceptedParentCompletion : io unit :=
  _ ← RecoverInterruptedParentReopen;
  '(completion, finding) ← reopenableParentCompletion;
  taskID ← TaskID;
  candidate ← LoadPublicationCandidate;
  snapshots ← snapshotReopenStateFiles;
  _ ← saveParentReopenTransaction snapshots;
  r ← attempt (applyReopenTransition completion candidate);
  match r with
  | Err e => rollbackParentReopenTransaction e
  | Ok _ =>
      _ ← io_wrap (λ e, Errorf "parent reopen transition committed state but could not clear recovery record: %w" [AErr e])
            (RemoveState parentReopenTransactionStateFile);
      recordReopenedParentOutcome taskID (pf_Origin finding) (pf_Cause finding) (co_Risk completion)
  end.

(** ** Recovering the surfaces of a quality gate ([quality_surface_recovery.go]) *)
Definition matchRecoveryTaskID (expectedTaskID : string) : io unit :=
  taskID ← TaskID;
  refuse! negb (bool_decide (taskID = expectedTaskID))
    with Errorf "quality-surface recovery requires the caller-bound task %s, got %s" [AStr expectedTaskID; AStr taskID];
  mret ().
Definition retainedDecisionWaitApprovalCheckpoint (c : ResumeCheckpoint) : result error unit :=
  reject! negb (bool_decide (ck_StopKind c = ResumeStopNone)) || negb (ck_QualitySurfaceApprovalPending c)
    with err "quality-surface decision wait recovery requires a retained unstopped approval checkpoint";
  reject! match ck_CompletedResult c with Some r => negb (bool_decide (rs_Status r = StatusImplemented)) | None => true end
    with err "quality-surface decision wait recovery requires a completed IMPLEMENTED worker result";
  reject! negb (bool_decide (ck_Stage c = ResumeStageWorker)) ||
          negb (bool_decide (WorkerPhaseCategory (ck_Phase c) = WorkerPhaseCategoryDecision))
    with Errorf "quality-surface decision wait recovery requires the worker-decision checkpoint phase, got %s"
           [AStr (ck_Phase c)];
  Ok ().
Definition RecoverQualitySurfaceDecisionWait (expectedTaskID : string) : io unit :=
  _ ← matchRecoveryTaskID expectedTaskID;
  status ← GetTaskStatus;
  refuse! negb (bool_decide (status = TaskStatusWaitingSolReview))
    with Errorf "quality-surface decision wait recovery requires waiting-sol-review, got %s" [AStr status];
  pending ← Exists pendingDecision;
  refuse! negb pending
    with err "quality-surface decision wait recovery requires the leftover pending decision marker";
  checkpoint ← LoadResumeCheckpoint;
  _ ← lift (retainedDecisionWaitApprovalCheckpoint checkpoint);
  label ← io_wrap (λ e, Errorf "quality-surface decision wait recovery cannot read parent review state: %w" [AErr e])
            CurrentParentReviewLabel;
  refuse! negb (bool_decide (label ∈ [roundCommentNone; StatusNeedsSolReview]))
    with Errorf "quality-surface decision wait recovery requires no open parent review or an open %s review, got %s"
           [AStr StatusNeedsSolReview; AStr label];
  RemoveState pendingDecision.
Definition StoppedTaskStatus (status : TaskStatus) : bool :=
  bool_decide (status ∈ [TaskStatusRateLimited; TaskStatusProviderUnavailable; TaskStatusInterrupted;
                         TaskStatusGuardRecoverable; TaskStatusQualityGateRecoverable]).
Definition retainedAutoFixStopProvenance (status : TaskStatus) (c : ResumeCheckpoint) : result error unit :=
  reject! negb (IsStopped c) || negb (bool_decide (stopTaskStatus (ck_StopKind c) = status))
    with Errorf "approved quality-surface review recovery requires a stop checkpoint matching %s" [AStr status];
  reject! negb (bool_decide (ck_Stage c = ResumeStageAutoFix)) ||
          negb (bool_decide (WorkerPhaseCategory (ck_Phase c) = WorkerPhaseCategoryAutoFix))
    with Errorf "approved quality-surface review recovery requires the post-approval auto-fix checkpoint provenance, got stage=%s phase=%s"
           [AStr (ck_Stage c); AStr (ck_Phase c)];
  Ok ().
Definition RecoverApprovedQualitySurfaceReview (expectedTaskID : string) : io unit :=
  _ ← matchRecoveryTaskID expectedTaskID;
  status ← GetTaskStatus;
  refuse! negb (StoppedTaskStatus status)
    with Errorf "approved quality-surface review recovery requires a stopped task, got %s" [AStr status];
  checkpoint ← LoadResumeCheckpoint;
  _ ← lift (retainedAutoFixStopProvenance status checkpoint);
  pending ← Exists pendingDecision;
  refuse! pending with err "approved quality-surface review recovery requires no leftover pending decision marker";
  label ← io_wrap (λ e, Errorf "approved quality-surface review recovery cannot read parent review state: %w" [AErr e])
            CurrentParentReviewLabel;
  refuse! negb (bool_decide (label = StatusNeedsSolReview))
    with Errorf "approved quality-surface review recovery requires a stale %s parent review, got %s"
           [AStr StatusNeedsSolReview; AStr label];
  resolved ← io_wrap (λ e, Errorf "approved quality-surface review recovery cannot close the stale parent review: %w" [AErr e])
               (RecordParentOutcome ParentOutcomeAccepted "" "");
  after ← io_wrap (λ e, Errorf "approved quality-surface review recovery cannot verify parent review closure: %w" [AErr e])
            CurrentParentReviewLabel;
  refuse! negb resolved || negb (bool_decide (after = roundCommentNone))
    with Errorf "approved quality-surface review recovery could not close the stale %s parent review"
           [AStr StatusNeedsSolReview];
  mret ().
End Reopen.
