(* ===== verification/ReopenRecovery.v ===== *)
(** * Recovery of an interrupted reopening

    Wherever the reopening of an accepted completion is interrupted, and however
    often its recovery is interrupted in turn, one recovery that is not disturbed
    leaves the files as they were before, or as the whole reopening makes them. *)
From S2P Require Import Prelude GoStrings GoText ControllerTypes ControllerStore CrashLogic Packet SessionTypes SessionStore ResumeCheckpoint ParentReview Lifecycle SessionLogic ReviewLogic SessionExamples ResumeLogic ActionRecovery Reopen.

(** ** Assertions about single files

    [F p o] restricts what is at the path [p].  With [ok] the environment is
    healthy, and then no operation fails: an assertion after a failure says that
    the environment was not. *)
Notation assertion := (list string → option Doc → Prop).
Definition holds (ok : bool) (F : assertion) (d : Disk) : Prop :=
  (ok = true → healthy d) ∧ ∀ p, observation p = false → F p (files d !! p).
Definition failed (ok : bool) (F : assertion) (d : Disk) : Prop := ok = false ∧ holds ok F d.
Definition upd (name : string) (o : option Doc) (F : assertion) : assertion := λ p o',
  if decide (p = Path name) then o' = o else F p o'.
Definition implies (F F' : assertion) : Prop := ∀ p o, observation p = false → F p o → F' p o.
Definition says (F : assertion) (name s : string) : Prop :=
  observation (Path name) = false ∧ ∀ o, F (Path name) o → o = Some (text s).
Definition lacks (F : assertion) (name : string) : Prop :=
  observation (Path name) = false ∧ ∀ o, F (Path name) o → o = None.

#[export] Instance holds_quiet ok F : Quiet (holds ok F).
Proof.
  intros d d' (E1 & E2 & E3 & Hf) [Hh Hd]. split.
  - intros Hok. destruct (Hh Hok) as (Hr & Hw & Hp). unfold healthy. rewrite E1, E2. split_and!; [done..|]. by apply E3.
  - intros p Hp. rewrite Hf by done. by apply Hd.
Qed.
Lemma holds_weaken ok F F' d : implies F F' → holds ok F d → holds ok F' d.
Proof. intros Hi [Hh Hd]. split; [done|]. auto. Qed.
Lemma failed_weaken ok F F' d : implies F F' → failed ok F d → failed ok F' d.
Proof. intros Hi [Hok Hd]. split; [done|]. by eapply holds_weaken. Qed.

Section Store.
Context (ok : bool) (F : assertion).
Lemma f_mkdir p : triple (holds ok F) (MkdirAll p) (λ _ d, p ∈ dirs d ∧ holds ok F d) (failed ok F).
Proof.
  intros d Hd. unfold MkdirAll. destruct (_ || _) eqn:E.
  - split; [|done]. destruct ok; [|done]. destruct Hd as [Hh _]. destruct (Hh eq_refl) as (_ & Hw & Hp).
    unfold stopped in E. by rewrite Hw, Hp in E.
  - split.
    + cbn. apply elem_of_union_l, elem_of_list_to_set, elem_of_prefixes_refl.
    + eapply quiet_stable; [|exact Hd]. split; [done|]. split; [done|]. split; [exact (spend_unlimited d)|done].
Qed.
Lemma f_write name data :
  triple (holds ok F) (writeFileAtomic (Path name) data mode600)
    (λ _, holds ok (upd name (Some (text data)) F)) (failed ok F).
Proof.
  unfold writeFileAtomic. eapply triple_bind; [apply f_mkdir|]. intros [] d [Hdir [Hh Hd]].
  unfold writeJSONAtomic. destruct (_ || _) eqn:E.
  - split; [|done]. destruct ok; [|done]. destruct (Hh eq_refl) as (_ & Hw & Hp). unfold stopped in E. by rewrite Hw, Hp in E.
  - rewrite bool_decide_true by done. split.
    + intros Hok. destruct (Hh Hok) as (Hr & Hw & Hp). unfold healthy. cbn. unfold spend. by rewrite Hp.
    + intros p Ho. unfold upd. cbn. destruct (decide (p = Path name)) as [->|]; [by rewrite lookup_insert_eq|].
      rewrite lookup_insert_ne by done. by apply Hd.
Qed.
Lemma f_remove name : triple (holds ok F) (RemoveState name) (λ _, holds ok (upd name None F)) (failed ok F).
Proof.
  intros d [Hh Hd]. unfold RemoveState, mbind, io_bind, attempt, remove_file. destruct (_ || _) eqn:E; cbn.
  - split; [|done]. destruct ok; [|done]. destruct (Hh eq_refl) as (_ & Hw & Hp). unfold stopped in E. by rewrite Hw, Hp in E.
  - destruct (decide (files d !! Path name = None)) as [Hf|Hf];
      [rewrite (bool_decide_true _ Hf)|rewrite (bool_decide_false _ Hf)]; simpl.
    + split; [done|]. intros p Ho. unfold upd. destruct (decide (p = Path name)) as [->|]; auto.
    + split.
      * intros Hok. destruct (Hh Hok) as (Hr & Hw & Hp). unfold healthy. simpl. unfold spend. by rewrite Hp.
      * intros p Ho. unfold upd. simpl. destruct (decide (p = Path name)) as [->|]; [by rewrite lookup_delete_eq|].
        rewrite lookup_delete_ne by done. auto.
Qed.
Definition restored (s : lifecycleFileSnapshot) : option Doc := if sn_exists s then Some (text (sn_data s)) else None.
Lemma f_restore s :
  triple (holds ok F) (restoreLifecycleFile s) (λ _, holds ok (upd (sn_name s) (restored s) F)) (failed ok F).
Proof.
  unfold restoreLifecycleFile, restored. destruct (sn_exists s); cbn; [apply triple_wrap, f_write|apply f_remove].
Qed.
Lemma f_status `{JSONLog, JSONText TaskStats persistedStats} status :
  triple (holds ok F) (SetTaskStatus status) (λ _, holds ok (upd statusFile (Some (text (status +:+ newline))) F)) (failed ok F).
Proof. apply SetTaskStatus_writes; [apply _|]. apply triple_wrap, f_write. Qed.

(** *** Reads *)
Lemma f_read name s :
  says F name s → triple (holds ok F) (attempt (ReadFile (Path name)))
    (λ r d, (r = Ok s ∨ ok = false ∧ r = Err (err "read failed")) ∧ holds ok F d) (λ _, False).
Proof.
  intros [Ho Hs] d Hd. unfold attempt. rewrite ReadFile_eq. unfold content. case_bool_decide as Hr.
  - split; [|done]. right. split; [|done]. destruct ok; [|done]. destruct (proj1 Hd eq_refl) as (E & _). set_solver.
  - split; [|done]. left. by rewrite (Hs _ (proj2 Hd _ Ho)).
Qed.
Lemma f_missing name :
  lacks F name → triple (holds ok F) (attempt (ReadFile (Path name)))
    (λ r d, (∃ e, r = Err e ∧ (ok = true → e = ErrNotExist (Path name))) ∧ holds ok F d) (λ _, False).
Proof.
  intros [Ho Hs] d Hd. unfold attempt. rewrite ReadFile_eq. unfold content. case_bool_decide as Hr.
  - split; [|done]. eexists. split; [done|]. intros Hok. destruct (proj1 Hd Hok) as (E & _). set_solver.
  - split; [|done]. rewrite (Hs _ (proj2 Hd _ Ho)). eauto.
Qed.
Lemma f_ReadFile name s :
  says F name s → triple (holds ok F) (ReadFile (Path name)) (λ data d, data = s ∧ holds ok F d) (failed ok F).
Proof.
  intros Hs d Hd. pose proof (f_read name s Hs d Hd) as Hr. unfold attempt in Hr.
  destruct (ReadFile (Path name) d) as [[data|e] d']; cbn in Hr; destruct Hr as [[E|[E1 E2]] Hd']; simplify_eq; done.
Qed.
Lemma f_Read name s :
  says F name s → triple (holds ok F) (attempt (Read name))
    (λ r d, (r = Ok (TrimSpace s) ∨ ok = false ∧ r = Err (err "read failed")) ∧ holds ok F d) (λ _, False).
Proof.
  intros Hs d Hd. pose proof (f_read name s Hs d Hd) as Hr. unfold attempt, Read, mbind, io_bind in *.
  destruct (ReadFile (Path name) d) as [[data|e] d']; cbn in *; destruct Hr as [[E|[E1 E2]] Hd']; simplify_eq; auto.
Qed.
Lemma f_GetTaskStatus status :
  says F statusFile (status +:+ newline) → TrimSpace (status +:+ newline) = status → status ≠ "" →
  triple (holds ok F) GetTaskStatus
    (λ s d, (s = status ∨ ok = false ∧ s = TaskStatusNone) ∧ holds ok F d) (λ _, False).
Proof.
  intros Hs Ht Hne. unfold GetTaskStatus, ReadOr. eapply triple_bind; [by apply f_Read|]. intros r.
  apply triple_pure. intros Hr. apply triple_ret. intros d Hd. split; [|done].
  destruct Hr as [->|[-> ->]]; [|by right]. rewrite Ht, bool_decide_false by done. by left.
Qed.
Context (id : string) (Hid : id ≠ "") (Htrim : TrimSpace (id +:+ newline) = id).
Context (Htask : says F taskIDFile (id +:+ newline)).
Lemma f_TaskID : triple (holds ok F) TaskID (λ i d, i = id ∧ holds ok F d) (failed ok F).
Proof.
  unfold TaskID. eapply triple_bind.
  { eapply triple_consequence; [by apply (f_Read _ _ Htask)|done|done|done]. }
  intros r. apply triple_pure. intros [->|[Hok ->]]; [|apply triple_fail; by split].
  rewrite Htrim, bool_decide_false by done. by apply triple_ret.
Qed.
End Store.

(** ** An accepted completion that can be reopened *)
Section Reopening.
Context `{Host, Unicode, MachineEncoder, ResumeText, GitState, JSONLog}.
Context `{JSONText TaskStats persistedStats, JSONText ParentReviewState Some, JSONText GitSnapshot Some}.
Context `{JSONText PublicationCandidate Some, JSONText PublicationInvalidatingFinding Some,
          JSONText PublicationReopenLineage Some, JSONText parentReopenTransactionRecord Some}.

Record completed (G : fileMap) (id : string) (state : ParentReviewState) (completion : ParentCompletionOutcome)
    (candidate : PublicationCandidate) (finding : PublicationInvalidatingFinding) : Prop := {
  cp_plain : plain_state G;
  cp_id : id ≠ "" ∧ TrimSpace (id +:+ newline) = id;
  cp_task : G !! Path taskIDFile = Some (text (id +:+ newline));
  cp_status : G !! Path statusFile = Some (text (TaskStatusAwaitingParentCompletion +:+ newline));
  cp_journal : G !! Path parentReopenTransactionStateFile = None;
  cp_review : ∃ data, G !! Path parentReviewStateFile = Some (text data) ∧ decodeParentReviewState data = Ok state;
  cp_state : rv_TaskID state = id ∧ rv_Completion state = Some completion;
  cp_accepted : co_Terminal completion = SessionRotationTerminalAccept;
  cp_candidate : ∃ data, G !! Path publicationCandidateStateFile = Some (text data) ∧
                         decodePublicationCandidate (TrimSpace data) = Ok candidate;
  cp_finding : ∃ data, G !! Path publicationInvalidatingFindingStateFile = Some (text data) ∧
                       decodePublicationInvalidatingFinding (TrimSpace data) = Ok finding;
  cp_bound : pc_TaskID candidate = id ∧ pf_TaskID finding = id ∧
             pf_CandidateCommitOID finding = pc_CommitOID candidate ∧
             pf_CandidateSnapshotID finding = pc_SnapshotID candidate;
}.

(** *** What the reads give *)
Section ReadsOf.
Context (ok : bool) (F : assertion) (id : string).
Context (Hid : id ≠ "" ∧ TrimSpace (id +:+ newline) = id) (Htask : says F taskIDFile (id +:+ newline)).
Lemma f_review data state :
  says F parentReviewStateFile data → decodeParentReviewState data = Ok state → rv_TaskID state = id →
  triple (holds ok F) loadParentReviewState (λ s d, s = state ∧ holds ok F d) (failed ok F).
Proof.
  intros Hs Hdec Hi. unfold loadParentReviewState. doing ltac:(by apply f_ReadFile). apply triple_pure. intros ->.
  eapply (triple_bind _ (λ s d, s = state ∧ holds ok F d)); [by rewrite Hdec; intros d Hd|]. intros s.
  apply triple_pure. intros ->. doing ltac:(apply f_TaskID; [apply Hid|apply Hid|done]). apply triple_pure. intros ->.
  rewrite Hi, bool_decide_true by done. by apply triple_ret.
Qed.
Lemma f_candidate data candidate :
  says F publicationCandidateStateFile data → decodePublicationCandidate (TrimSpace data) = Ok candidate →
  triple (holds ok F) LoadPublicationCandidate (λ c d, c = candidate ∧ holds ok F d) (failed ok F).
Proof.
  intros Hs Hdec d Hd. pose proof (f_Read ok F _ _ Hs d Hd) as Hr. unfold LoadPublicationCandidate, attempt, mbind, io_bind in *.
  destruct (Read _ d) as [[data'|e] d']; destruct Hr as [[E|[E1 E2]] Hd']; simplify_eq; [|done].
  unfold lift. by rewrite Hdec.
Qed.
Lemma f_finding data finding :
  says F publicationInvalidatingFindingStateFile data →
  decodePublicationInvalidatingFinding (TrimSpace data) = Ok finding →
  triple (holds ok F) (attempt LoadPublicationInvalidatingFinding)
    (λ r d, (r = Ok finding ∨ ok = false ∧ r = Err (err "read failed")) ∧ holds ok F d) (λ _, False).
Proof.
  intros Hs Hdec d Hd. pose proof (f_Read ok F _ _ Hs d Hd) as Hr.
  unfold LoadPublicationInvalidatingFinding, attempt, mbind, io_bind in *.
  destruct (Read _ d) as [[data'|e] d']; destruct Hr as [[E|[E1 E2]] Hd']; simplify_eq; [|by auto].
  unfold lift. rewrite Hdec. by auto.
Qed.
End ReadsOf.

(** The files that reopening reads say what they said before. *)
Definition source_kept (G : fileMap) (F : assertion) : Prop :=
  ∀ name, name ∈ [taskIDFile; statusFile; parentReviewStateFile; publicationCandidateStateFile;
                  publicationInvalidatingFindingStateFile] → ∀ o, F (Path name) o → o = G !! Path name.
Context (G : fileMap) (id : string) (state : ParentReviewState) (completion : ParentCompletionOutcome)
        (candidate : PublicationCandidate) (finding : PublicationInvalidatingFinding).
Context (HG : completed G id state completion candidate finding).
Lemma kept_says F name s :
  source_kept G F → observation (Path name) = false → G !! Path name = Some (text s) →
  name ∈ [taskIDFile; statusFile; parentReviewStateFile; publicationCandidateStateFile;
          publicationInvalidatingFindingStateFile] → says F name s.
Proof. intros Hk Ho Hs Hn. split; [done|]. intros o Ho'. by rewrite (Hk name Hn o Ho'). Qed.
Ltac kept Hk := eapply kept_says; [exact Hk|reflexivity|eassumption|set_solver].
Lemma f_task ok F :
  source_kept G F → triple (holds ok F) TaskID (λ i d, i = id ∧ holds ok F d) (failed ok F).
Proof. intros Hk. destruct HG. apply f_TaskID; [apply cp_id0|apply cp_id0|]. kept Hk. Qed.
Lemma f_current_finding ok F :
  source_kept G F →
  triple (holds ok F) CurrentPublicationInvalidatingFinding (λ f d, f = Some finding ∧ holds ok F d) (failed ok F).
Proof.
  intros Hk. pose proof (f_task ok F Hk) as Htask. destruct HG. destruct cp_finding0 as (fdata & Hf & Hfd).
  destruct cp_candidate0 as (cdata & Hc & Hcd). destruct cp_bound0 as (Hb1 & Hb2 & Hb3 & Hb4).
  unfold CurrentPublicationInvalidatingFinding. eapply triple_bind.
  { eapply triple_consequence; [eapply (f_finding ok F); [kept Hk|exact Hfd]|done|done|done]. }
  intros r. apply triple_pure. intros [->|[Hok ->]].
  2: { cbn. apply triple_fail. by split. }
  doing ltac:(exact Htask). apply triple_pure. intros ->. rewrite Hb2, bool_decide_true by done. cbn [negb].
  eapply triple_bind; [apply triple_wrap; eapply (f_candidate ok F); [kept Hk|exact Hcd]|]. intros c.
  apply triple_pure. intros ->. rewrite Hb1, Hb3, Hb4, !bool_decide_true by done. by apply triple_ret.
Qed.
Lemma f_reopenable ok F :
  source_kept G F →
  triple (holds ok F) reopenableParentCompletion (λ r d, r = (completion, finding) ∧ holds ok F d) (failed ok F).
Proof.
  intros Hk. pose proof (f_current_finding ok F Hk) as Hcf. destruct HG. destruct cp_review0 as (data & Hr & Hrd).
  unfold reopenableParentCompletion. eapply triple_bind.
  { eapply triple_consequence; [apply (f_GetTaskStatus ok F TaskStatusAwaitingParentCompletion)|done|done|done];
      [kept Hk|done|done]. }
  intros s. apply triple_pure. intros [->|[Hok ->]]; [|apply triple_guard; [by split|done]]. cbn [negb].
  rewrite bool_decide_true by done. cbn [negb]. unfold CurrentParentCompletionOutcome.
  eapply (triple_bind _ (λ c d, c = Some completion ∧ holds ok F d)).
  { doing ltac:(eapply f_review; [exact cp_id0|kept Hk|kept Hk|exact Hrd|apply cp_state0]).
    apply triple_pure. intros ->. rewrite (proj2 cp_state0). by apply triple_ret. }
  intros c. apply triple_pure. intros ->. rewrite cp_accepted0, bool_decide_true by done. cbn [negb].
  doing ltac:(exact Hcf). apply triple_pure. intros ->. by apply triple_ret.
Qed.
Lemma f_load_candidate ok F :
  source_kept G F → triple (holds ok F) LoadPublicationCandidate (λ c d, c = candidate ∧ holds ok F d) (failed ok F).
Proof. intros Hk. destruct HG. destruct cp_candidate0 as (data & Hc & Hcd). eapply f_candidate; [kept Hk|exact Hcd]. Qed.

(** *** The stages *)
Definition reopenFiles : list string := parentReopenSnapshotStateFiles.
Definition transaction : parentReopenTransactionRecord := transactionRecord id (snapshot_of G <$> reopenFiles).
Definition transactionText : string := marshal transaction +:+ newline.
Context (Hclean : clean transaction).
Definition unchanged : assertion := λ p o, o = G !! p.
(** Journalled, with the files [names] as they were before. *)
Definition journalled (names : list string) : assertion := λ p o,
  if decide (p = Path parentReopenTransactionStateFile) then o = Some (text transactionText)
  else p ∈ Path <$> reopenFiles ∧ p ∉ Path <$> names ∨ o = G !! p.
Lemma journalled_mono names names' : names ⊆ names' → implies (journalled names') (journalled names).
Proof.
  intros Hn p o _. unfold journalled. destruct (decide _); [done|]. intros [[Hp Hx]|]; [left|by right].
  split; [done|]. intros (name & -> & Hi)%list_elem_of_fmap. apply Hx, list_elem_of_fmap. eauto.
Qed.
Lemma snapshot_name name : sn_name (snapshot_of G name) = name.
Proof. unfold snapshot_of. by destruct (content_of G name). Qed.
Lemma snapshot_shape name :
  negb (sn_exists (snapshot_of G name)) && negb (bool_decide (String.length (sn_data (snapshot_of G name)) = 0)) = false.
Proof. unfold snapshot_of. by destruct (content_of G name). Qed.
Lemma transaction_valid : validateParentReopenTransactionRecord transaction = Ok ().
Proof.
  destruct HG. unfold validateParentReopenTransactionRecord, transaction, transactionRecord. cbn [rt_Version rt_TaskID rt_SourceStatus rt_Snapshots].
  rewrite (bool_decide_false (id = "")), !bool_decide_true by (done || apply cp_id0). cbn [negb].
  assert (∀ names, validateSnapshots names ((λ s, {| ts_Name := sn_name s; ts_Exists := sn_exists s; ts_Data := sn_data s |}) <$>
            (snapshot_of G <$> names)) = Ok ()) as Hv.
  { induction names as [|name names IH]; [done|]. cbn [fmap list_fmap validateSnapshots ts_Name ts_Exists ts_Data].
    rewrite snapshot_name, bool_decide_true by done. cbn [negb]. rewrite snapshot_shape. exact IH. }
  rewrite Hv. cbn -[snapshot_of bool_decide]. unfold snapshot_of, content_of. change "task.status" with statusFile.
  rewrite cp_status0. cbn. by rewrite bool_decide_true.
Qed.
Lemma snapshot_restored name : observation (Path name) = false → restored (snapshot_of G name) = G !! Path name.
Proof.
  intros Ho. destruct HG. unfold restored, snapshot_of, content_of. destruct (G !! Path name) as [doc|] eqn:E; [|done].
  by destruct (cp_plain0 _ _ Ho E) as [s ->].
Qed.
Lemma reopen_files_state name : name ∈ reopenFiles → observation (Path name) = false ∧ name ≠ parentReopenTransactionStateFile.
Proof. intros Hn. unfold reopenFiles, parentReopenSnapshotStateFiles in Hn. each_of Hn; done. Qed.
Lemma journalled_restore ok names name :
  name ∈ reopenFiles →
  triple (holds ok (journalled names)) (restoreLifecycleFile (snapshot_of G name))
    (λ _, holds ok (journalled (name :: names))) (failed ok (journalled names)).
Proof.
  intros Hn. destruct (reopen_files_state _ Hn) as [Ho Hne].
  eapply triple_consequence; [apply f_restore|done| |done]. intros [] d Hd. eapply holds_weaken; [|exact Hd].
  rewrite snapshot_name, snapshot_restored by done. intros p o _. unfold upd, journalled.
  destruct (decide (p = Path name)) as [->|Hp].
  - intros ->. rewrite decide_False by (by intros [= ?]). by right.
  - destruct (decide (p = Path _)); [done|]. intros [[Hin Hx]|]; [left|by right]. split; [done|].
    cbn. by intros [->|?]%elem_of_cons.
Qed.
Lemma restore_loop ok names before :
  names ⊆ reopenFiles →
  triple (holds ok (journalled before)) (restoreSnapshots (snapshot_of G <$> names))
    (λ errors d, (errors = [] ∧ holds ok (journalled (reverse names ++ before)) d) ∨
                 (errors ≠ [] ∧ failed ok (journalled []) d)) (λ _, False).
Proof.
  revert before. induction names as [|name names IH]; intros before Hn.
  { apply triple_ret. intros d Hd. by left. }
  cbn [fmap list_fmap restoreSnapshots]. eapply triple_bind; [apply triple_attempt, journalled_restore; set_solver|].
  intros [[]|e].
  - eapply triple_bind; [apply IH; set_solver|]. intros errors. apply triple_ret. intros d. by rewrite reverse_cons, <- app_assoc.
  - eapply (triple_bind _ (λ _ d, failed ok (journalled []) d)).
    + intros d [Hok Hd]. apply (holds_weaken _ _ (journalled [])) in Hd; [|apply journalled_mono; set_solver].
      pose proof (IH [] ltac:(set_solver) d Hd) as Hl. destruct (restoreSnapshots _ d) as [[errors|] d']; [|done].
      destruct Hl as [[_ Hl]|[_ Hl]]; [|done]. split; [done|]. eapply holds_weaken; [apply journalled_mono|exact Hl]. set_solver.
    + intros errors. apply triple_ret. intros d Hd. by right.
Qed.
Lemma journalled_task names : says (journalled names) taskIDFile (id +:+ newline).
Proof.
  split; [done|]. intros o. unfold journalled. rewrite decide_False by done.
  intros [[Hin _]| ->]; [|by destruct HG]. exfalso. apply list_elem_of_fmap in Hin as (name & [= <-] & Hin).
  assert (taskIDFile ∉ reopenFiles) as Hx by (apply (proj1 (bool_decide_eq_false _)); reflexivity). by destruct Hx.
Qed.
Lemma journalled_kept : source_kept G (journalled (reverse (reverse reopenFiles) ++ [])).
Proof.
  intros name Hn o. rewrite reverse_involutive, app_nil_r. unfold journalled.
  rewrite decide_False by (intros [= ->]; revert Hn; refine (proj1 (bool_decide_eq_false _) _); reflexivity). intros [[Hin Hx]|]; [|done]. by destruct Hx.
Qed.
Lemma journal_gone : implies (upd parentReopenTransactionStateFile None (journalled (reverse (reverse reopenFiles) ++ []))) unchanged.
Proof.
  intros p o _. rewrite reverse_involutive, app_nil_r. unfold upd, journalled, unchanged.
  destruct (decide _) as [->|]; [intros ->; by destruct HG|]. by intros [[]|].
Qed.

(** *** Recovery *)
Lemma snapshots_to_restore :
  reverse (snapshotToRestore <$> rt_Snapshots transaction) = snapshot_of G <$> reverse reopenFiles.
Proof. unfold transaction, transactionRecord. cbn [rt_Snapshots]. rewrite fmap_reverse. f_equal. rewrite <- !list_fmap_compose. apply list_fmap_ext. intros _ name _. unfold compose, snapshotToRestore. by destruct (snapshot_of G name). Qed.
Lemma recover_no_journal ok F :
  lacks F parentReopenTransactionStateFile →
  triple (holds ok F) RecoverInterruptedParentReopen (λ r d, r = false ∧ holds ok F d) (failed ok F).
Proof.
  intros Hl. unfold RecoverInterruptedParentReopen.
  eapply (triple_bind _ (λ r d, (r = Err errNoParentReopenTransaction ∨ ok = false ∧ is_ok r = false) ∧ holds ok F d)).
  - intros d Hd. pose proof (f_missing ok F _ Hl d Hd) as Hr. unfold loadParentReopenTransaction, attempt, mbind, io_bind in *.
    destruct (ReadFile _ d) as [[data|e] d'] eqn:E; destruct Hr as [(e' & [=] & He) Hd']. subst e'. split; [|done].
    destruct ok; [left; by rewrite He|right]. by destruct (IsNotExist e).
  - intros r. apply triple_pure. intros [->|[Hok Hr]].
    + rewrite bool_decide_true by done. by apply triple_ret.
    + destruct r as [|e]; [done|]. apply triple_guard; [by split|]. intros _. by apply triple_ret.
Qed.
Lemma recover_journalled ok :
  triple (holds ok (journalled [])) RecoverInterruptedParentReopen
    (λ r d, r = true ∧ holds ok unchanged d) (failed ok (journalled [])).
Proof.
  pose proof (cp_id _ _ _ _ _ _ HG) as [Hid Ht]. unfold RecoverInterruptedParentReopen.
  eapply (triple_bind _ (λ r d, (r = Ok transaction ∨ ok = false ∧ r = Err (err "read failed")) ∧ holds ok (journalled []) d)).
  { assert (says (journalled []) parentReopenTransactionStateFile transactionText) as Hs.
    { split; [done|]. intros o. unfold journalled. by rewrite decide_True. }
    intros d Hd. pose proof (f_read ok _ _ _ Hs d Hd) as Hr. unfold loadParentReopenTransaction, attempt, mbind, io_bind in *.
    destruct (ReadFile _ d) as [[data|e] d']; destruct Hr as [[E|[E1 E2]] Hd']; simplify_eq; [|simpl; split; [by right|done]].
    unfold transactionText. rewrite (unmarshal_line transaction transaction Hclean eq_refl). cbn.
    rewrite transaction_valid. simpl. split; [by left|done]. }
  intros r. apply triple_pure. intros [->|[Hok ->]]; [|apply triple_guard; [by split|done]].
  doing ltac:(by apply (f_TaskID _ _ id), journalled_task). apply triple_pure. intros ->.
  rewrite bool_decide_true by done. cbn [negb]. rewrite snapshots_to_restore.
  eapply triple_bind.
  { eapply triple_consequence; [apply (restore_loop ok (reverse reopenFiles) []); set_solver|done|done|done]. }
  intros errors d [[-> Hd]|[He Hd]]; [|by rewrite bool_decide_false by done]. rewrite bool_decide_true by done. cbn [negb].
  revert d Hd. set (F := journalled (reverse (reverse reopenFiles) ++ [])).
  assert (∀ d, failed ok F d → failed ok (journalled []) d) as Hw by (intros d; apply failed_weaken, journalled_mono; set_solver).
  apply (triple_consequence _ (holds ok F) _ (λ r d, r = true ∧ holds ok unchanged d) _ (failed ok F)); [|done|done|exact Hw].
  doing ltac:(apply triple_wrap, f_reopenable, journalled_kept). apply triple_pure. intros ->.
  doing ltac:(apply triple_wrap, f_load_candidate, journalled_kept). apply triple_pure. intros ->.
  doing ltac:(apply triple_wrap, f_remove). apply triple_ret. intros d Hd. split; [done|].
  eapply holds_weaken; [apply journal_gone|exact Hd].
Qed.

(** *** Reopening, in any environment *)
(** The lineage that is there after reopening: the one that was there, or the one
    of the candidate. *)
Definition lineage_ok (L : Doc) : Prop :=
  G !! Path publicationReopenLineageStateFile = Some L ∨
  G !! Path publicationReopenLineageStateFile = None ∧
  ∃ c, G !! TaskAuthorityPathPath id = Some (to_doc (A:=FileContent) c) ∧
       L = text (marshal (lineageOf id (TrimSpace (fc_Data c)) candidate) +:+ newline).
Definition openedReview : ParentReviewState := state {{
  rv_Open := Some {| ro_PacketStatus := StatusNeedsSolReview; ro_Role := ""; ro_ModelAlias := "";
                     ro_Risk := co_Risk completion |};
  rv_Review := None; rv_Completion := None }}.
Definition applied (L : Doc) (F : assertion) : assertion :=
  upd statusFile (Some (text (TaskStatusWaitingSolReview +:+ newline)))
    (upd parentReviewStateFile (Some (text (marshal openedReview +:+ newline)))
      (upd publicationInvalidatingFindingStateFile None
        (upd runtimeInstallEvidenceFile None
          (upd publicationCandidateStateFile None
            (upd publicationReopenLineageStateFile (Some L) F))))).
Definition committed (L : Doc) : assertion := applied L unchanged.
Definition begun : assertion := upd parentReopenTransactionStateFile (Some (text transactionText)) unchanged.
Definition stage (d : Disk) : Prop :=
  holds false unchanged d ∨ holds false (journalled []) d ∨ ∃ L, lineage_ok L ∧ holds false (committed L) d.

Lemma upd_journalled name o F :
  name ∈ reopenFiles → implies F (journalled []) → implies (upd name o F) (journalled []).
Proof.
  intros Hn Hi p o' Ho. unfold upd. destruct (decide (p = Path name)) as [->|]; [intros ->|by apply Hi].
  unfold journalled. destruct (reopen_files_state _ Hn) as [_ Hne]. rewrite decide_False by (by intros [= ?]).
  left. split; [|set_solver]. apply list_elem_of_fmap. eauto.
Qed.
Lemma begun_journalled : implies begun (journalled []).
Proof.
  intros p o _. unfold begun, upd, journalled, unchanged. destruct (decide _); [done|]. by right.
Qed.
Lemma unchanged_kept : source_kept G unchanged.
Proof. by intros name _ o ->. Qed.
Lemma upd_kept name o F :
  name ∉ [taskIDFile; statusFile; parentReviewStateFile; publicationCandidateStateFile;
          publicationInvalidatingFindingStateFile] →
  source_kept G F → source_kept G (upd name o F).
Proof. intros Hn Hk name' Hn' o'. unfold upd. rewrite decide_False by (intros [= ->]; done). by apply Hk. Qed.
Ltac elsewhere := refine (proj1 (bool_decide_eq_false _) _); reflexivity.
Lemma begun_kept : source_kept G begun.
Proof. apply upd_kept; [elsewhere|apply unchanged_kept]. Qed.
Lemma decode_lineage_error data e : decodePublicationReopenLineage data = Err e → IsNotExist e = false.
Proof.
  unfold decodePublicationReopenLineage. destruct (unmarshal data) as [l|]; [|by intros [= <-]].
  unfold validatePublicationReopenLineage. repeat (case_match; [by intros [= <-]|]). done.
Qed.
(** An error that is not for want of the file leaves no doubt that it is there. *)
Lemma load_lineage :
  triple (holds false begun) (attempt LoadPublicationReopenLineage)
    (λ r d, (match r with
             | Ok _ => ∃ L, G !! Path publicationReopenLineageStateFile = Some L
             | Err e => IsNotExist e = true → G !! Path publicationReopenLineageStateFile = None end)
            ∧ holds false begun d) (λ _, False).
Proof.
  intros d Hd. unfold LoadPublicationReopenLineage, attempt. unfold mbind, io_bind. rewrite Read_eq. unfold content.
  assert (files d !! Path publicationReopenLineageStateFile = G !! Path publicationReopenLineageStateFile) as Hf
    by exact (proj2 Hd (Path publicationReopenLineageStateFile) eq_refl).
  case_bool_decide; cbn; [split; [done|exact Hd]|]. rewrite Hf.
  destruct (G !! Path publicationReopenLineageStateFile) as [doc|] eqn:E; [|split; [done|exact Hd]].
  pose proof (cp_plain _ _ _ _ _ _ HG publicationReopenLineageStateFile doc eq_refl E) as [s ->]. cbn -[TrimSpace]. unfold lift.
  destruct (decodePublicationReopenLineage (TrimSpace s)) as [l|e] eqn:El; (split; [|exact Hd]); [eauto|].
  intros Hn. by rewrite (decode_lineage_error _ _ El) in Hn.
Qed.
Lemma authority_path :
  triple (holds false begun) CurrentTaskAuthorityPath
    (λ path d, (∃ c, G !! TaskAuthorityPathPath id = Some (to_doc (A:=FileContent) c) ∧ path = TrimSpace (fc_Data c))
               ∧ holds false begun d) (holds false begun).
Proof.
  unfold CurrentTaskAuthorityPath. eapply triple_bind.
  { eapply triple_consequence; [apply (f_task false begun begun_kept)|done|done|by intros d []]. }
  intros i. apply triple_pure. intros ->.
  eapply (triple_bind _ (λ data d, (∃ c, G !! TaskAuthorityPathPath id = Some (to_doc (A:=FileContent) c) ∧ data = fc_Data c)
                                   ∧ holds false begun d)).
  - apply triple_wrap. intros d Hd. rewrite ReadFile_eq. unfold content.
    assert (files d !! TaskAuthorityPathPath id = G !! TaskAuthorityPathPath id) as ->
      by exact (proj2 Hd (TaskAuthorityPathPath id) eq_refl).
    case_bool_decide; [done|]. destruct (G !! _) as [doc|]; [|done]. destruct (of_doc doc) as [c|] eqn:E; [|done].
    apply of_doc_inv in E as ->. split; [|done]. eauto.
  - intros data. apply triple_pure. intros (c & Hc & ->). cbv zeta.
    do 2 (apply triple_guard; [done|intros _]). apply triple_ret. intros d Hd. split; [eauto|done].
Qed.
Lemma capture_begun :
  triple (holds false begun) (CapturePublicationReopenLineage candidate)
    (λ _ d, ∃ L, lineage_ok L ∧ holds false (upd publicationReopenLineageStateFile (Some L) begun) d)
    (holds false begun).
Proof.
  pose proof (cp_bound _ _ _ _ _ _ HG) as (Hb & _). unfold CapturePublicationReopenLineage. eapply triple_bind.
  { eapply triple_consequence; [apply (f_task false begun begun_kept)|done|done|by intros d []]. }
  intros i. apply triple_pure. intros ->. rewrite Hb, bool_decide_true by done. cbn [negb].
  eapply triple_bind; [eapply triple_consequence; [apply load_lineage|done|done|done]|]. intros r. apply triple_pure.
  destruct r as [existing|e]; intros Hr.
  - destruct Hr as [L HL]. apply (triple_consequence _ (holds false begun) _ (λ _, holds false begun) _ (holds false begun)); [|done| |done].
    + apply triple_reads; [|done]. unfold validateCurrentPublicationReopenLineage, CurrentTaskAuthorityPath. preserving.
    + intros _ d Hd. exists L. split; [by left|]. eapply holds_weaken; [|exact Hd]. intros p o _ Hp. unfold upd.
      destruct (decide _) as [->|]; [|done]. unfold begun, upd in Hp. rewrite decide_False in Hp by done. by rewrite Hp.
  - apply triple_guard; [done|]. intros He%negb_false_iff. specialize (Hr He).
    eapply triple_bind; [apply triple_wrap, authority_path|]. intros path. apply triple_pure. intros (c & Hc & ->).
    eapply triple_bind; [by apply triple_reads; [apply _|]|]. intros [].
    eapply triple_consequence; [unfold Write; apply triple_wrap, f_write|done| |by intros d []].
    intros [] d Hd. eexists. split; [|exact Hd]. right. split; [done|]. eauto.
Qed.

(** A step whose failure leaves the journal. *)
Lemma step_journalled {A} F (m : io A) Q :
  implies F (journalled []) → triple (holds false F) m Q (failed false F) →
  triple (holds false F) m Q (holds false (journalled [])).
Proof. intros Hi Hm. eapply triple_consequence; [exact Hm|done|done|]. intros d [_ Hd]. by eapply holds_weaken. Qed.
Ltac listed := apply (bool_decide_eq_true _); reflexivity.
Ltac in_journal := repeat (apply upd_journalled; [listed|]); apply begun_journalled.
Lemma apply_begun :
  triple (holds false begun) (applyReopenTransition completion candidate)
    (λ _ d, ∃ L, lineage_ok L ∧ holds false (applied L begun) d) (holds false (journalled [])).
Proof.
  destruct (cp_review _ _ _ _ _ _ HG) as (data & Hr & Hdec). unfold applyReopenTransition.
  eapply triple_bind.
  { eapply triple_consequence; [apply capture_begun|done|done|]. intros d. apply holds_weaken, begun_journalled. }
  intros [] d (L & HL & Hd). revert d Hd.
  eapply (triple_bind _ (λ _, holds false (upd publicationCandidateStateFile None (upd publicationReopenLineageStateFile (Some L) begun)))).
  { apply step_journalled; [in_journal|apply f_remove]. }
  intros []. eapply triple_bind; [apply step_journalled; [in_journal|apply f_remove]|].
  intros []. eapply triple_bind; [apply step_journalled; [in_journal|apply f_remove]|].
  intros []. set (F := upd publicationInvalidatingFindingStateFile None _).
  assert (implies F (journalled [])) as HF by in_journal.
  eapply (triple_bind _ (λ _, holds false (upd parentReviewStateFile (Some (text (marshal openedReview +:+ newline))) F))).
  { apply step_journalled; [done|]. unfold openParentReviewState. apply triple_guard; [done|intros _].
    assert (∀ name, name = parentReviewStateFile ∨ name = taskIDFile → ∀ o, F (Path name) o → o = G !! Path name) as Hsame.
    { intros name Hn o. unfold F, upd. by destruct Hn as [-> | ->]; rewrite !decide_False by done. }
    doing ltac:(eapply (f_review false F id (cp_id _ _ _ _ _ _ HG)); [| |exact Hdec|apply (cp_state _ _ _ _ _ _ HG)]).
    - split; [done|]. intros o Ho. rewrite (Hsame taskIDFile (or_intror eq_refl) o Ho). apply (cp_task _ _ _ _ _ _ HG).
    - split; [done|]. intros o Ho. by rewrite (Hsame parentReviewStateFile (or_introl eq_refl) o Ho).
    - apply triple_pure. intros ->. apply triple_wrap, f_write. }
  intros []. eapply triple_consequence; [apply f_status|done| |].
  - intros [] d Hd. by exists L.
  - intros d [_ Hd]. eapply holds_weaken; [|exact Hd]. apply upd_journalled; [listed|done].
Qed.
Lemma applied_journalled L : implies (applied L begun) (journalled []).
Proof. unfold applied. in_journal. Qed.
Lemma cleared_committed L : implies (upd parentReopenTransactionStateFile None (applied L begun)) (committed L).
Proof.
  intros p o _. unfold committed, applied, begun, upd, unchanged.
  destruct (decide (p = Path parentReopenTransactionStateFile)) as [->|Hp].
  - intros ->. rewrite !decide_False by done. symmetry. apply (cp_journal _ _ _ _ _ _ HG).
  - repeat case_decide; done.
Qed.
Lemma committed_lacks L : lacks (committed L) parentReopenTransactionStateFile.
Proof.
  split; [done|]. intros o. unfold committed, applied, upd. rewrite !decide_False by done. intros ->.
  apply (cp_journal _ _ _ _ _ _ HG).
Qed.
Lemma unchanged_lacks : lacks unchanged parentReopenTransactionStateFile.
Proof. split; [done|]. intros o ->. apply (cp_journal _ _ _ _ _ _ HG). Qed.
Lemma committed_status L : says (committed L) statusFile (TaskStatusWaitingSolReview +:+ newline).
Proof. split; [done|]. intros o. unfold committed, applied, upd. by rewrite decide_True. Qed.

Lemma unchanged_at d : holds false unchanged d ↔ at_files G d.
Proof. split; [by intros [_ Hd]|by intros Hd; split]. Qed.
Lemma snapshots_unchanged names :
  names ⊆ reopenFiles →
  triple (holds false unchanged) (snapshotFiles names)
    (λ snapshots d, snapshots = snapshot_of G <$> names ∧ holds false unchanged d) (holds false unchanged).
Proof.
  induction names as [|name names IH]; intros Hn; [by apply triple_ret|]. cbn [snapshotFiles].
  destruct (reopen_files_state name) as [Ho _]; [set_solver|].
  eapply (triple_bind _ (λ s d, s = snapshot_of G name ∧ holds false unchanged d)).
  - eapply triple_consequence; [apply (at_snapshot G name); [apply HG|done]| | |].
    + intros d. apply unchanged_at.
    + intros s d [-> Hd]. split; [done|]. by apply unchanged_at.
    + intros d Hd. by apply unchanged_at.
  - intros s. apply triple_pure. intros ->. eapply triple_bind; [apply IH; set_solver|]. intros l. apply triple_pure.
    intros ->. by apply triple_ret.
Qed.
Lemma save_begun :
  triple (holds false unchanged) (saveParentReopenTransaction (snapshot_of G <$> reopenFiles))
    (λ _, holds false begun) (holds false unchanged).
Proof.
  unfold saveParentReopenTransaction. eapply triple_bind; [by apply triple_reads; [apply _|]|]. intros pending.
  apply triple_guard; [done|intros _]. eapply triple_bind.
  { eapply triple_consequence; [apply (f_task false unchanged unchanged_kept)|done|done|by intros d []]. }
  intros i. apply triple_pure. intros ->. cbv zeta. fold transaction. rewrite transaction_valid.
  eapply (triple_bind _ (λ _, holds false unchanged)); [by intros d Hd|]. intros [].
  eapply triple_consequence; [apply triple_wrap, f_write|done|done|by intros d []].
Qed.
Lemma rollback_stage_reopen {A} cause (Q : A → Disk → Prop) :
  triple (holds false (journalled [])) (rollbackParentReopenTransaction cause) Q stage.
Proof.
  unfold rollbackParentReopenTransaction. eapply triple_bind; [apply triple_attempt, recover_journalled|].
  intros [r|e].
  - apply triple_pure. intros ->. apply triple_fail. intros d Hd. by left.
  - apply triple_fail. intros d [_ Hd]. right. by left.
Qed.
Lemma record_quiet taskID origin cause risk (P : Disk → Prop) `{!Quiet P} E :
  triple P (recordReopenedParentOutcome taskID origin cause risk) (λ _, P) E.
Proof.
  unfold recordReopenedParentOutcome. eapply triple_bind; [by apply UpdateTaskStats_triple|]. intros [].
  by apply appendParentOutcomeEvent_triple.
Qed.
#[export] Instance stage_quiet : Quiet stage.
Proof.
  intros d d' Hq [Hd|[Hd|(L & HL & Hd)]]; [left|right; left|right; right; exists L; split; [done|]];
    by eapply quiet_stable.
Qed.
(** From the files as they were. *)
Lemma reopen_unchanged :
  triple (holds false unchanged)
    ('(completion, finding) ← reopenableParentCompletion;
     taskID ← TaskID;
     candidate ← LoadPublicationCandidate;
     snapshots ← snapshotReopenStateFiles;
     _ ← saveParentReopenTransaction snapshots;
     r ← attempt (applyReopenTransition completion candidate);
     match r with
     | Err e => rollbackParentReopenTransaction e
     | Ok _ =>
         _ ← io_wrap (λ e, Errorf "parent reopen transition committed state but could not clear recovery record: %w" [AErr e])
               (RemoveState parentReopenTransactionStateFile);
         recordReopenedParentOutcome taskID (pf_Origin finding) (pf_Cause finding) (co_Risk completion)
     end) (λ _, stage) stage.
Proof.
  assert (∀ d, failed false unchanged d → stage d) as HE by (intros d [_ Hd]; by left).
  assert (∀ d, holds false unchanged d → stage d) as HU by (intros d Hd; by left).
  eapply triple_bind; [eapply triple_consequence; [apply (f_reopenable false unchanged unchanged_kept)|done|done|done]|].
  intros r. apply triple_pure. intros ->. cbv beta iota.
  eapply triple_bind; [eapply triple_consequence; [apply (f_task false unchanged unchanged_kept)|done|done|done]|].
  intros i. apply triple_pure. intros ->.
  eapply triple_bind; [eapply triple_consequence; [apply (f_load_candidate false unchanged unchanged_kept)|done|done|done]|].
  intros c. apply triple_pure. intros ->.
  eapply triple_bind; [eapply triple_consequence; [apply (snapshots_unchanged reopenFiles); done|done|done|done]|].
  intros l. apply triple_pure. intros ->.
  eapply triple_bind; [eapply triple_consequence; [apply save_begun|done|done|done]|]. intros [].
  eapply triple_bind; [apply triple_attempt, apply_begun|]. intros [[]|e]; [|apply rollback_stage_reopen].
  intros d (L & HL & Hd). revert d Hd.
  eapply (triple_bind _ (λ _, stage)); [|intros []; apply record_quiet, _].
  apply triple_wrap. eapply triple_consequence; [apply f_remove|done| |].
  - intros [] d Hd. right. right. exists L. split; [done|]. eapply holds_weaken; [apply cleared_committed|exact Hd].
  - intros d [_ Hd]. right. left. eapply holds_weaken; [apply applied_journalled|exact Hd].
Qed.
Lemma reopen_committed L :
  triple (holds false (committed L)) reopenableParentCompletion (λ _ _, False) (holds false (committed L)).
Proof.
  unfold reopenableParentCompletion. eapply triple_bind.
  { eapply triple_consequence; [apply (f_GetTaskStatus false _ _ (committed_status L))|done|done|done]; done. }
  intros s. apply triple_pure. intros Hs. apply triple_guard.
  - done.
  - intros Hg. by destruct Hs as [-> | [_ ->]].
Qed.
Lemma reopen_stage : triple stage ReopenAcceptedParentCompletion (λ _, stage) stage.
Proof.
  assert (∀ d, holds false unchanged d → stage d) as HU by (intros d Hd; by left).
  intros d Hd. unfold ReopenAcceptedParentCompletion. destruct Hd as [Hd|[Hd|(L & HL & Hd)]]; revert d Hd.
  - eapply triple_bind; [|intros; apply reopen_unchanged].
    eapply triple_consequence; [apply (recover_no_journal false _ unchanged_lacks)|done|by intros r d [_ Hd]|].
    intros d [_ Hd]. by apply HU.
  - eapply triple_bind; [|intros; apply reopen_unchanged].
    eapply triple_consequence; [apply (recover_journalled false)|done|by intros r d [_ Hd]|].
    intros d [_ Hd]. right. by left.
  - assert (∀ d, holds false (committed L) d → stage d) as HC by (intros d Hd; right; right; eauto).
    eapply (triple_bind _ (λ _, holds false (committed L))).
    { eapply triple_consequence; [apply (recover_no_journal false _ (committed_lacks L))|done|by intros r d [_ Hd]|].
      intros d [_ Hd]. by apply HC. }
    intros b. eapply (triple_bind _ (λ _ _, False)); [|by intros ? d].
    eapply triple_consequence; [apply reopen_committed|done|done|exact HC].
Qed.
Lemma recover_any : triple stage RecoverInterruptedParentReopen (λ _, stage) stage.
Proof.
  intros d [Hd|[Hd|(L & HL & Hd)]]; revert d Hd.
  - eapply triple_consequence; [apply (recover_no_journal false _ unchanged_lacks)|done| |].
    + intros r d [_ Hd]. by left.
    + intros d [_ Hd]. by left.
  - eapply triple_consequence; [apply (recover_journalled false)|done| |].
    + intros r d [_ Hd]. by left.
    + intros d [_ Hd]. right. by left.
  - assert (∀ d, holds false (committed L) d → stage d) as HC by (intros d Hd; right; right; eauto).
    eapply triple_consequence; [apply (recover_no_journal false _ (committed_lacks L))|done| |].
    + intros r d [_ Hd]. by apply HC.
    + intros d [_ Hd]. by apply HC.
Qed.
(** The files after the whole reopening. *)
Definition reopenedFiles (L : Doc) : fileMap :=
  <[Path statusFile := text (TaskStatusWaitingSolReview +:+ newline)]>
    (<[Path parentReviewStateFile := text (marshal openedReview +:+ newline)]>
      (delete (Path publicationInvalidatingFindingStateFile)
        (delete (Path runtimeInstallEvidenceFile)
          (delete (Path publicationCandidateStateFile)
            (<[Path publicationReopenLineageStateFile := L]> G))))).
Lemma committed_at L ok d : holds ok (committed L) d → at_files (reopenedFiles L) d.
Proof.
  intros [_ Hd] p Ho. specialize (Hd p Ho). unfold committed, applied, upd, unchanged in Hd. unfold reopenedFiles.
  repeat match type of Hd with
  | (if decide (p = ?q) then _ else _) =>
      destruct (decide (p = q)) as [->|]; [by rewrite ?lookup_insert_eq, ?lookup_delete_eq|];
      first [rewrite lookup_insert_ne by done|rewrite lookup_delete_ne by done]
  end. done.
Qed.
(** What runs of the reopening and of its recovery leave behind, in whatever
    environments they run and stop. *)
Inductive reopen_aftermath : Disk → Prop :=
  | after_nothing d : at_files G d → reopen_aftermath d
  | after_reopening d : reopen_aftermath d → reopen_aftermath (ReopenAcceptedParentCompletion d).2
  | after_recovering d : reopen_aftermath d → reopen_aftermath (RecoverInterruptedParentReopen d).2
  | after_elsewhere d d' : reopen_aftermath d → at_files (files d) d' → reopen_aftermath d'.
Lemma aftermath_stage_reopen d : reopen_aftermath d → stage d.
Proof.
  induction 1 as [d Hd|d _ IH|d _ IH|d d' _ IH Hd'].
  - left. by apply unchanged_at.
  - pose proof (reopen_stage d IH) as Ht. by destruct (ReopenAcceptedParentCompletion d) as [[|] ?].
  - pose proof (recover_any d IH) as Ht. by destruct (RecoverInterruptedParentReopen d) as [[|] ?].
  - assert (∀ F, holds false F d → holds false F d') as HF.
    { intros F [_ Hd]. split; [done|]. intros p Hp. rewrite Hd' by done. auto. }
    destruct IH as [IH|[IH|(L & HL & IH)]]; [left|right; left|right; right; exists L; split; [done|]]; by apply HF.
Qed.
Lemma recover_healthy F (Q : bool → Disk → Prop) d :
  triple (holds true F) RecoverInterruptedParentReopen Q (failed true F) → healthy d → holds false F d →
  ∃ r d', RecoverInterruptedParentReopen d = (Ok r, d') ∧ Q r d'.
Proof.
  intros Ht Hh [_ Hd]. specialize (Ht d (conj (λ _, Hh) Hd)).
  destruct (RecoverInterruptedParentReopen d) as [[r|e] d']; [eauto|by destruct Ht].
Qed.
Lemma aftermath_recovers_reopen d :
  reopen_aftermath d → healthy d →
  ∃ recovered d', RecoverInterruptedParentReopen d = (Ok recovered, d') ∧
    (at_files G d' ∨ recovered = false ∧ ∃ L, lineage_ok L ∧ at_files (reopenedFiles L) d').
Proof.
  intros Ha Hh. destruct (aftermath_stage_reopen d Ha) as [Hd|[Hd|(L & HL & Hd)]].
  - destruct (recover_healthy _ _ d (recover_no_journal true _ unchanged_lacks) Hh Hd) as (r & d' & E & -> & _ & Hd').
    exists false, d'. split; [done|]. by left.
  - destruct (recover_healthy _ _ d (recover_journalled true) Hh Hd) as (r & d' & E & -> & _ & Hd'). exists true, d'. split; [done|]. by left.
  - destruct (recover_healthy _ _ d (recover_no_journal true _ (committed_lacks L)) Hh Hd) as (r & d' & E & -> & Hd').
    exists false, d'. split; [done|]. right. split; [done|]. exists L. split; [done|]. by eapply committed_at.
Qed.
End Reopening.

(** ** The theorem *)
Section Recovery.
Context `{Host, Unicode, MachineEncoder, ResumeText, GitState, JSONLog}.
Context `{JSONText TaskStats persistedStats, JSONText ParentReviewState Some, JSONText GitSnapshot Some}.
Context `{JSONText PublicationCandidate Some, JSONText PublicationInvalidatingFinding Some,
          JSONText PublicationReopenLineage Some, JSONText parentReopenTransactionRecord Some}.
(** C6: An interrupted reopening is all or nothing.  Let an accepted completion be
    reopened, and the reopening be recovered, any number of times and in any
    environments - accesses may be refused, and the machine may stop between any
    two changes.  Then one recovery that is not disturbed succeeds, and every
    file of the state is as it was before; or the whole reopening has taken
    place: the candidate, the evidence of its installation and the finding are
    gone, the lineage is there, a review is open and the task waits for it. *)
Theorem interrupted_reopen_recovers G id state completion candidate finding d :
  completed G id state completion candidate finding → clean (transaction G id) →
  reopen_aftermath G d → healthy d →
  ∃ recovered d', RecoverInterruptedParentReopen d = (Ok recovered, d') ∧
    (at_files G d' ∨
     recovered = false ∧ ∃ L, lineage_ok G id candidate L ∧ at_files (reopenedFiles G state completion L) d').
Proof. intros HG Hc. by apply aftermath_recovers_reopen with (finding := finding). Qed.
End Recovery.

(** ** A reopening that is interrupted, and one that is not *)
Definition forty : string := "0123456789abcdef0123456789abcdef01234567".
Definition sixtyFour : string := "0123456789abcdef0123456789abcdef0123456789abcdef0123456789abcdef".
#[export] Instance reopen_host : Host := {| sha256_hex _ := sixtyFour; RequireRequestRepository _ := Ok () |}.
Definition acceptedOutcome : ParentCompletionOutcome :=
  {| co_Terminal := SessionRotationTerminalAccept; co_Risk := RiskLow; co_Source := None; co_Review := None |}.
Definition acceptedReview : ParentReviewState :=
  {| rv_Version := parentReviewStateVersion; rv_TaskID := exampleID; rv_Open := None; rv_Review := None;
     rv_Completion := Some acceptedOutcome |}.
Definition demoCandidate : PublicationCandidate := {|
  pc_Version := 1; pc_TaskID := exampleID; pc_BaseHead := forty; pc_CommitOID := forty; pc_TreeOID := forty;
  pc_MessageDigest := sixtyFour;
  pc_Snapshot := {| sd_Head := forty; sd_IndexDigest := "index"; sd_WorktreeDigest := "tree";
                    sd_WorktreeDigestExcludingParent := "" |};
  pc_SnapshotID := sixtyFour; pc_PreparedAt := 1%Z |}.
Definition demoFinding : PublicationInvalidatingFinding := {|
  pf_Version := 1; pf_TaskID := exampleID; pf_FindingID := exampleID;
  pf_Disposition := PublicationFindingCorrectnessDefect; pf_CandidateCommitOID := forty;
  pf_CandidateSnapshotID := sixtyFour; pf_Origin := ""; pf_Cause := "" |}.
Definition reopenDisk : Disk := {|
  files := <[TaskAuthorityPathPath exampleID := text ("IMPLEMENTATION_TASKS/1.md" +:+ newline)]>
    (list_to_map (stateFile <$> [("task.id", exampleID); (statusFile, TaskStatusAwaitingParentCompletion);
       (parentReviewStateFile, "accepted"); (publicationCandidateStateFile, "candidate");
       (publicationInvalidatingFindingStateFile, "finding")]));
  dirs := ∅; unreadable := ∅; unwritable := ∅; power := None; clock n := Z.of_nat n; ticks := 0;
  random _ := None; draws := 0 |}.
#[local] Instance reopen_reviews : JSONText ParentReviewState Some.
Proof.
  refine (known_text _ (λ state, if bool_decide (is_Some (rv_Completion state)) then "accepted" else "opened")
    [acceptedReview; openedReview acceptedReview acceptedOutcome] _ _); known.
Defined.
#[local] Instance reopen_candidates : JSONText PublicationCandidate Some.
Proof. refine (known_text _ (λ _, "candidate") [demoCandidate] _ _); known. Defined.
#[local] Instance reopen_findings : JSONText PublicationInvalidatingFinding Some.
Proof. refine (known_text _ (λ _, "finding") [demoFinding] _ _); known. Defined.
#[local] Instance reopen_lineages : JSONText PublicationReopenLineage Some.
Proof. refine (known_text _ (λ _, "lineage") [lineageOf exampleID "IMPLEMENTATION_TASKS/1.md" demoCandidate] _ _); known. Defined.
#[local] Instance reopen_transactions : JSONText parentReopenTransactionRecord Some.
Proof. refine (known_text _ (λ _, "transaction") [transaction (files reopenDisk) exampleID] _ _); known. Defined.
(** The machine stops when the candidate and the finding are gone. *)
Definition stoppedReopening : Disk := mend (ReopenAcceptedParentCompletion (reopenDisk {{ power := Some 6%nat }})).2.
Definition finishedReopening : Disk := (ReopenAcceptedParentCompletion reopenDisk).2.
Example reopen_runs :
  files stoppedReopening !! Path publicationCandidateStateFile = None ∧
  files stoppedReopening !! Path parentReopenTransactionStateFile = Some (text ("transaction" +:+ newline)) ∧
  (RecoverInterruptedParentReopen stoppedReopening).1 = Ok true ∧
  (ReopenAcceptedParentCompletion reopenDisk).1 = Ok () ∧
  (RecoverInterruptedParentReopen finishedReopening).1 = Ok false ∧
  files finishedReopening !! Path statusFile = Some (text (TaskStatusWaitingSolReview +:+ newline)).
Proof. vm_compute. done. Qed.
Lemma reopenDisk_completed :
  completed (files reopenDisk) exampleID acceptedReview acceptedOutcome demoCandidate demoFinding.
Proof.
  split.
  - intros name doc _ Hl. cbn [files reopenDisk] in Hl. rewrite lookup_insert_ne in Hl by done.
    apply elem_of_list_to_map_2 in Hl. apply list_elem_of_fmap in Hl as (file & [= _ ->] & _). eauto.
  - split; [done|]. vm_compute. reflexivity.
  - vm_compute. reflexivity.
  - vm_compute. reflexivity.
  - vm_compute. reflexivity.
  - exists ("accepted" +:+ newline). split; vm_compute; reflexivity.
  - split; reflexivity.
  - reflexivity.
  - exists ("candidate" +:+ newline). split; vm_compute; reflexivity.
  - exists ("finding" +:+ newline). split; vm_compute; reflexivity.
  - repeat split.
Qed.
Lemma stopped_aftermath : reopen_aftermath (files reopenDisk) stoppedReopening.
Proof.
  eapply after_elsewhere; [apply after_reopening, after_nothing|apply at_mend]. apply at_power.
Qed.
Lemma interrupted_reopen_recovers_witness :
  ∃ recovered d', RecoverInterruptedParentReopen stoppedReopening = (Ok recovered, d') ∧
    (at_files (files reopenDisk) d' ∨
     recovered = false ∧ ∃ L, lineage_ok (files reopenDisk) exampleID demoCandidate L ∧
                              at_files (reopenedFiles (files reopenDisk) acceptedReview acceptedOutcome L) d').
Proof.
  apply (interrupted_reopen_recovers (files reopenDisk) exampleID acceptedReview acceptedOutcome demoCandidate demoFinding
    stoppedReopening reopenDisk_completed).
  - left.
  - exact stopped_aftermath.
  - exact (mend_healthy _).
Defined.
